(* ===== verification/_CoqProject ===== *)
-Q . S2P
Prelude.v
Chan.v
Types.v
Errs.v
Crypto.v
Session.v
Auth.v
SessionService.v
Frame.v
Breaker.v
Retry.v
Routes.v
Logging.v
RedactText.v
Transport.v
Client.v
PushClient.v
PushConc.v
Domain.v
Trading.v
Pagination.v
PushKeys.v
PushOrch.v
PushOrchInv.v
PushOrchStep.v
PushOrchSafe.v
PushOrchData.v
PushOrchOrders.v
PushOrchProps.v
PushOrchLive.v
Decimals.v
DomainJson.v
Service.v
Algo.v
Futures.v
Account.v
Stack.v
PushEvents.v
PushAdapter.v
Freshness.v
Released.v
FutureReleased.v
AlgoReleased.v
GoNumbers.v
TradeRows.v
TradeReleased.v
TradeWire.v
KeepAlive.v
Market.v
MarketReleased.v
RateLimit.v
Stream.v
StreamInv.v
StreamConn.v
StreamProps.v
GoText.v
GoAst.v
Parity.v
ParityScan.v
ParityGate.v
ParityReturn.v
ParityProps.v
Mappers.v
Telemetry.v
LogHandler.v
