(* ===== verification/Prelude.v ===== *)
(** A verification of the HSTong Gateway SDK.

    The program is a Go client of a brokerage Gateway: order entry and queries
    over HTTP, and a push feed of quotes and order events over TCP. It has two
    public surfaces over the same client: the services ([pkg/services]) and the
    released packages ([pkg/hstong]) they replace. Its layers, from the wire up,
    and the files that model them:

    - wire and transport: [internal/push/frame.go] in [Frame], the push client
      [internal/push/client.go] with its verification and its goroutines in
      [PushClient] and [PushConc], the decoders and normalisers of
      [internal/push] in [PushEvents], its freshness monitor in [Freshness], the
      push adapter [pkg/transport/push.go] in [PushAdapter], the mappers and cursors
      of [pkg/transport] and the futures notifications of [pkg/hstong/future/push.go]
      in [Mappers], [internal/transport] in [Transport], [internal/crypto] in
      [Crypto], [internal/logging] in [Logging] (redaction), [RedactText] (what it
      does to free text) and [LogHandler] (the redacting handler over any handler), and what the client measures and
      traces ([internal/metrics], [internal/otel], [client/client_otel.go]) in
      [Telemetry];
    - resilience: [internal/resilience/breaker.go] in [Breaker],
      [internal/resilience/retry.go] in [Retry], composed with routes ([Routes]:
      [client/routes.go]) and the transport by the HTTP client [client/client.go]
      in [Client]; the rate limiter [internal/resilience/ratelimit.go] in
      [RateLimit];
    - sessions: [internal/session] and the released session manager
      [pkg/hstong/session.go] in [Session], its keep-alive loop and login request
      in [KeepAlive], [internal/auth] in [Auth], the trade session
      [pkg/services/session.go] in [SessionService];
    - values: [pkg/types] in [Types], [internal/errs] in [Errs], [pkg/domain] in
      [Domain] and [DomainJson] (the JSON of the values), and, with the services that use them, in [Trading], [PushKeys],
      [Algo], [Futures], [Account] and [Market];
    - use cases: what they share in [Service], [pkg/services/trading.go] in
      [Trading], [algo.go] in [Algo], [futures.go] in [Futures], [account.go] in
      [Account], [market.go] in [Market], [push.go] in [PushKeys] (topics and keys)
      and [PushOrch] (the orchestration, with its invariants in the files
      [PushOrchInv] to [PushOrchLive]), and [stack.go], which puts them over one
      client, in [Stack];
    - the released surface: the readers of numbers its packages share in
      [Released], those of the Go library they call in [GoNumbers],
      [pkg/hstong/future] in [FutureReleased], [algo] in [AlgoReleased], [market] in
      [MarketReleased], [trade] in [TradeRows] (data), [TradeReleased] (calls),
      [TradeWire] (against the trading service) and [Pagination], and [stream] in [Stream], with its invariants in [StreamInv],
      those of its push connections in [StreamConn] and its theorems in [StreamProps];
    - the coverage guard [scripts/paritygate/main.go], which reads the sources of the
      services and the specification and fails when a route has no service, in
      [Parity]: its parsers, the walk of the sources, the join with the groups of
      the specification, the report and the exit code, over the Go library's text
      functions and regular expressions ([GoText]) and syntax trees ([GoAst]).
      [ParityScan] says declaratively what a counted reference and a clean source
      are, [ParityGate] proves the gate against it, [ParityReturn] that it returns,
      and [ParityProps] evaluates it on example repositories.

    Conventions. A machine integer is a [Z] with its wrap written out where it
    can leave the range ([uwrap], [swrap]). Text is a [string] or its bytes. A Go
    error is a value of [Errs.error]; a call that can panic returns an [outcome]
    ([Ret] or [Panic]). Code outside the repository is a parameter: the network,
    the JSON codec, the clock, the timer and the random source are operations on
    a world of any type, the AES block cipher a function, the decimal library the
    class [Decimal] with the laws of its documentation ([DecimalLaws],
    [DecimalText]); [Decimals] gives a concrete decimal that satisfies them, so
    every theorem over the interface is evaluated on real numbers. A float64 that
    is only printed is what it prints ([PushEvents.float64]); one that is computed
    with is the class [Float] with the rounding laws of IEEE arithmetic
    ([FloatLaws]), which exact rationals satisfy. Concurrent code is a step
    relation, one step for each section under a lock or each point where another
    goroutine can be seen, and its theorems hold in every reachable state.

    How the parts interact. A service ([Trading], [Algo], [Futures], [Account],
    [Market], [SessionService]) checks its arguments, sends at most one request
    through an [executor] and maps the reply; the executor of the program is
    [Client.Do], which asks a breaker, runs the retry policy and posts one envelope
    through [Transport]. A frame of the push connection ([Frame]) is verified and
    decoded by the push client ([PushClient]), whose goroutines ([PushConc]) hand
    it to the adapter ([PushAdapter]), which normalises it ([PushEvents]) for the
    push orchestration ([PushOrch]): that keeps the registry of subscriptions and
    asks [Trading] to turn the order feed on and off. [Stream] is the older client
    of the same push connection; it can start more than one read loop, so its model
    keeps every connection. Left out of these step relations is a dispatch of
    [PushOrch] that overlaps a section under the subscription lock; the program takes
    two different locks for them.

    What the theorems show.
    - No order is sent twice: a client call of a mutation route sends at most one
      request under any configuration ([Client.client_requests_bounded]), each
      order-changing use case makes at most one such call, exactly when its
      arguments satisfy the rules written as numbers and calendar values
      ([Trading], [Algo], [Futures], [TradeReleased]), and the composition of the
      two holds over any sequence of calls ([Stack]).
    - Moving from the released packages to the services changes no order: the same
      arguments give the identical request ([TradeWire], [AlgoReleased],
      [FutureReleased], [MarketReleased]), with the differences of what each accepts
      written out.
    - Calls end: the retry loop, the journal walk and the push read loop are
      bounded; every call of the push orchestration returns
      ([PushOrchLive.push_orch_calls_return]), and so can [Close] of the streaming
      client while it runs one read loop ([StreamProps.stream_close_returns]; with
      two it can hang, [StreamProps.stream_close_hangs]) and a stop of the keep-alive
      loop ([KeepAlive]).
    - The breaker refines a three-state specification; breakers of different
      classes do not interfere; a panic with the probe out wedges one. The rate
      limiter admits no more than its burst and its rate allow, roundings included.
    - Push: frames round-trip, a bad frame is refused before its body is read,
      only verified frames are dispatched when verification is required, and each
      becomes one update that stands for its payload ([PushAdapter]); the goroutines
      of the push client, any number of read loops included, never send to a closed
      channel and keep the order of each loop ([PushConc]); registry, accounting and
      closing of the orchestration ([PushOrchProps]) and of the streaming client, and
      the races their locking leaves open.
    - Sessions: one login at a time for each account, reuse of a live session,
      and what a panic leaves behind.
    - Values: order states, exact reading of every number of a reply, and the panic
      on one that does not parse.
    - Secrets: redaction masks the secrets of a text of recognised assignments and
      nothing else ([RedactText]), so also in the span of a failed call
      ([Telemetry.span_hides_secret]), and every value under a sensitive key that
      passes a redacting log handler, but for what a [LogValuer] answers
      ([LogHandler.redacting_handler_exact]); a group opened under a sensitive name is
      not masked, and an assignment inside a secret makes the redaction panic.
    - Telemetry: the meter sees exactly what was measured, each value through an
      instrument of its type ([Telemetry.telemetry_exact]); the instrument maps are
      open to a race ([otel_hook_race]).
    - The coverage guard exits with 0 exactly if its inputs are sound, every route is
      named and none of the uses it recognises goes around the names
      ([ParityProps.parity_gate_exact], with what escapes it in
      [parity_gate_escapes]); it returns unless the declared
      counts overflow ([parity_gate_returns]), whatever the line endings of the
      specification ([parity_line_endings]).

    Fuel. The loops that take fuel are [Pagination.paginate_loop] and
    [Client]'s attempt loop (through [Retry]); the theorems give the fuel that is
    enough ([paginate_collects], [do_attempts_spec]) or show that none is
    ([paginate_cycle_diverges]). [Account.walk_loop] has the bound of the code.
    [Parity.assign_group] has one unit more than there are places, since the write
    past the last one panics; the matcher of [GoText] consumes a character between
    two iterations of a repetition.

    Not modelled: [internal/migration] (samples of old and new calls, compiled and
    never run) and [internal/layering] (a test of the import graph), the mock
    Gateway ([test/mockgateway], a server over net/http), generated protobuf code,
    the sample programs, process start-up, [scripts/coverage_gate.go] (it runs the
    go command and compares a percentage), and of [internal/otel] the accessors
    that only forward to the globals of the OpenTelemetry library. *)
From stdpp Require Export base numbers list strings gmap.
From Stdlib Require Export ZArith Lia.
From Stdlib Require Export Strings.Ascii.
From Stdlib Require Import Strings.Byte.

Create HintDb golib.
Create Rewrite HintDb bytes.
Create Rewrite HintDb gostr.

Declare Scope go_scope.
Delimit Scope go_scope with go.
#[global] Open Scope Z_scope.

(** ** Go machine integers

    A Go integer of width [w] is a [Z]; the operations that can leave the range
    are followed by the wrap of the width. *)
Definition uwrap (w : Z) (z : Z) : Z := z `mod` 2 ^ w.
Definition swrap (w : Z) (z : Z) : Z := (z + 2 ^ (w - 1)) `mod` 2 ^ w - 2 ^ (w - 1).

Definition in_u (w : Z) (z : Z) : Prop := 0 <= z < 2 ^ w.
Definition in_s (w : Z) (z : Z) : Prop := - 2 ^ (w - 1) <= z < 2 ^ (w - 1).

(** [int], [int64] and [time.Duration] are 64 bits wide. *)
Definition int_max : Z := 9223372036854775807.
Definition int_min : Z := - 9223372036854775808.

Notation "a +! b" := (swrap 64 (a + b)) (at level 50, left associativity) : go_scope.
Notation "a -! b" := (swrap 64 (a - b)) (at level 50, left associativity) : go_scope.
Notation "a *! b" := (swrap 64 (a * b)) (at level 40, left associativity) : go_scope.

Section wrap.
Context (w : Z) (Hw : 0 < w).

Lemma pow2_half : 2 ^ w = 2 * 2 ^ (w - 1).
Proof using Hw. rewrite <- Z.pow_succ_r by lia. f_equal. lia. Qed.

Lemma pow2_half_pos : 0 < 2 ^ (w - 1).
Proof using Hw. apply Z.pow_pos_nonneg; lia. Qed.

Lemma swrap_id z : in_s w z -> swrap w z = z.
Proof using Hw.
  unfold in_s, swrap. intros Hz. pose proof pow2_half. pose proof pow2_half_pos.
  rewrite Z.mod_small by lia. lia.
Qed.

Lemma swrap_range z : in_s w (swrap w z).
Proof using Hw.
  unfold in_s, swrap. pose proof pow2_half. pose proof pow2_half_pos.
  pose proof (Z.mod_pos_bound (z + 2 ^ (w - 1)) (2 ^ w)). lia.
Qed.

Lemma uwrap_range z : in_u w (uwrap w z).
Proof using Hw. apply Z.mod_pos_bound, Z.pow_pos_nonneg; lia. Qed.

Lemma uwrap_id z : in_u w z -> uwrap w z = z.
Proof using Hw. intros Hz. by apply Z.mod_small. Qed.

(** The conversions [intN(uintN(x))] and [uintN(intN(x))] of Go. *)
Lemma swrap_uwrap z : swrap w (uwrap w z) = swrap w z.
Proof using Hw. unfold swrap, uwrap. by rewrite Zplus_mod_idemp_l. Qed.

Lemma uwrap_swrap z : uwrap w (swrap w z) = uwrap w z.
Proof using Hw.
  unfold swrap, uwrap. rewrite Zminus_mod_idemp_l. f_equal. lia.
Qed.
End wrap.

Lemma swrap64_id z : int_min <= z <= int_max -> swrap 64 z = z.
Proof. intros Hz. apply swrap_id; [lia |]. unfold in_s, int_min, int_max in *. lia. Qed.

Lemma swrap64_range z : int_min <= swrap 64 z <= int_max.
Proof.
  pose proof (swrap_range 64 ltac:(lia) z) as Hr. unfold in_s, int_min, int_max in *. lia.
Qed.

Lemma pow2_ge_1 n : 1 <= 2 ^ Z.of_nat n.
Proof. pose proof (Z.pow_pos_nonneg 2 (Z.of_nat n)). lia. Qed.

(** A doubling that leaves 64 bits is not positive. *)
Lemma swrap64_double_overflow d : 0 < d <= int_max -> int_max < d * 2 -> swrap 64 (d * 2) <= 0.
Proof.
  unfold swrap, int_max. change (2 ^ 64) with 18446744073709551616.
  change (2 ^ (64 - 1)) with 9223372036854775808. intros.
  rewrite <- (Z.mod_unique_pos (d * 2 + 9223372036854775808) 18446744073709551616 1
    (d * 2 - 9223372036854775808)); lia.
Qed.

(** [time.Time.Sub] saturates instead of wrapping. *)
Definition time_sub (t u : Z) : Z := Z.max int_min (Z.min int_max (t - u)).

Lemma time_sub_exact t u : int_min <= t - u <= int_max -> time_sub t u = t - u.
Proof. unfold time_sub. lia. Qed.

(** ** Bytes and little-endian fields *)
Definition Z_of_byte (b : Byte.byte) : Z := Z.of_N (Byte.to_N b).
Definition byte_of_Z (z : Z) : Byte.byte :=
  match Byte.of_N (Z.to_N (z `mod` 256)) with Some b => b | None => Byte.x00 end.

Lemma Z_of_byte_range b : 0 <= Z_of_byte b < 256.
Proof. unfold Z_of_byte. pose proof (Byte.to_N_bounded b). lia. Qed.

Lemma byte_of_Z_of_byte b : byte_of_Z (Z_of_byte b) = b.
Proof. by destruct b. Qed.

Lemma Z_of_byte_of_Z z : Z_of_byte (byte_of_Z z) = z `mod` 256.
Proof.
  unfold byte_of_Z, Z_of_byte. pose proof (Z.mod_pos_bound z 256 ltac:(lia)) as Hb.
  destruct (Byte.of_N (Z.to_N (z `mod` 256))) as [b|] eqn:E.
  - apply Byte.to_of_N in E. rewrite E. lia.
  - apply Byte.of_N_None_iff in E. lia.
Qed.

#[global] Instance byte_eq_dec : EqDecision Byte.byte := Byte.byte_eq_dec.

(** The [n] low bytes of [z], least significant first. *)
Fixpoint le_bytes (n : nat) (z : Z) : list Byte.byte :=
  match n with
  | O => []
  | S n' => byte_of_Z z :: le_bytes n' (z `div` 256)
  end.

Fixpoint le_Z (bs : list Byte.byte) : Z :=
  match bs with
  | [] => 0
  | b :: bs' => Z_of_byte b + 256 * le_Z bs'
  end.

Lemma length_le_bytes n z : length (le_bytes n z) = n.
Proof. revert z. induction n as [|n IH]; intros z; simpl; [done | by rewrite IH]. Qed.

Lemma le_Z_range bs : 0 <= le_Z bs < 256 ^ Z.of_nat (length bs).
Proof.
  induction bs as [|b bs IH]; simpl; [lia |].
  pose proof (Z_of_byte_range b). rewrite Nat2Z.inj_succ, Z.pow_succ_r by lia. lia.
Qed.

Lemma le_Z_le_bytes n z : le_Z (le_bytes n z) = z `mod` 256 ^ Z.of_nat n.
Proof.
  revert z. induction n as [|n IH]; intros z; cbn [le_bytes le_Z].
  - rewrite Z.mod_1_r. done.
  - rewrite IH, Z_of_byte_of_Z, Nat2Z.inj_succ, Z.pow_succ_r by lia.
    rewrite Z.rem_mul_r by (try apply Z.pow_nonzero; lia). lia.
Qed.

Lemma le_bytes_le_Z bs : le_bytes (length bs) (le_Z bs) = bs.
Proof.
  induction bs as [|b bs IH]; [done |]. cbn [length le_Z le_bytes].
  pose proof (Z_of_byte_range b) as Hb.
  replace (Z_of_byte b + 256 * le_Z bs) with (Z_of_byte b + le_Z bs * 256) by lia.
  rewrite Z.div_add, (Z.div_small _ 256), Z.add_0_l, IH by lia. f_equal.
  rewrite <- (byte_of_Z_of_byte b) at 2. unfold byte_of_Z at 1 2.
  rewrite Z.mod_add by lia. done.
Qed.

#[global] Arguments le_bytes : simpl never.
#[global] Arguments le_Z : simpl never.
#[export] Hint Rewrite length_le_bytes le_bytes_le_Z : bytes.

#[export] Hint Resolve length_le_bytes swrap64_range uwrap_range Z_of_byte_range : golib.

(** ** Fixed arrays written at an offset: Go's [copy(b[off:off+len], src)]. *)
Definition write_at {A} (off : nat) (src : list A) (b : list A) : list A :=
  take off b ++ src ++ drop (off + length src) b.

Definition slice {A} (lo hi : nat) (b : list A) : list A := take (hi - lo) (drop lo b).

Lemma length_write_at {A} off (src b : list A) :
  (off + length src <= length b)%nat -> length (write_at off src b) = length b.
Proof.
  intros Hle. unfold write_at. rewrite !length_app, length_take, length_drop. lia.
Qed.

(** Writing the field that follows an already written prefix. *)
Lemma write_at_app {A} (pre src mid post : list A) :
  length mid = length src ->
  write_at (length pre) src (pre ++ mid ++ post) = pre ++ src ++ post.
Proof.
  intros Hm. unfold write_at. rewrite take_app_length. do 2 f_equal.
  rewrite drop_app_ge by lia. replace (_ - _)%nat with (length src) by lia.
  by rewrite <- Hm, drop_app_length.
Qed.

Lemma slice_app {A} (pre mid post : list A) lo hi :
  length pre = lo -> length mid = (hi - lo)%nat ->
  slice lo hi (pre ++ mid ++ post) = mid.
Proof.
  unfold slice. intros <- <-. by rewrite drop_app_length, take_app_length.
Qed.

Lemma length_slice {A} lo hi (b : list A) :
  (hi <= length b)%nat -> length (slice lo hi b) = (hi - lo)%nat.
Proof. intros. unfold slice. rewrite length_take, length_drop. lia. Qed.

(** ** Go strings

    A Go string is a byte sequence, as is [string]. *)
Lemma append_cons x a b : String x a +:+ b = String x (a +:+ b).
Proof. reflexivity. Qed.

Lemma append_nil_l b : "" +:+ b = b.
Proof. reflexivity. Qed.

Lemma append_nil_r s : s +:+ "" = s.
Proof. induction s as [|a s IH]; [done |]. by rewrite append_cons, IH. Qed.

Lemma append_assoc a b c : (a +:+ b) +:+ c = a +:+ b +:+ c.
Proof. induction a as [|x a IH]; [done |]. by rewrite !append_cons, IH. Qed.

Lemma length_append a b :
  String.length (a +:+ b) = (String.length a + String.length b)%nat.
Proof. induction a as [|x a IH]; [done |]. rewrite append_cons. simpl. by rewrite IH. Qed.

Lemma append_inj_r a b c : a +:+ c = b +:+ c -> a = b.
Proof.
  revert b. induction a as [|x a IH]; intros [|y b] Heq; [done | | |].
  1, 2: apply (f_equal String.length) in Heq; rewrite !length_append in Heq; simpl in Heq; lia.
  rewrite !append_cons in Heq. injection Heq as -> Heq. by rewrite (IH _ Heq).
Qed.

(** [cut_suffix suf s] is the part of [s] before a trailing [suf]. *)
Fixpoint cut_suffix (suf s : string) : option string :=
  if String.eqb s suf then Some "" else
  match s with
  | EmptyString => None
  | String a s' => String a <$> cut_suffix suf s'
  end.

Lemma cut_suffix_Some suf s p : cut_suffix suf s = Some p <-> s = p +:+ suf.
Proof.
  assert (Hlen : forall x q, String x q +:+ suf <> suf).
  { intros x q Heq. apply (f_equal String.length) in Heq. rewrite length_append in Heq.
    simpl in Heq. lia. }
  revert p. induction s as [|a s IH]; intros p; cbn [cut_suffix];
    [case (String.eqb_spec "" suf) | case (String.eqb_spec (String a s) suf)]; intros Heq.
  - split; [intros Hp; injection Hp; intros <-; exact Heq | destruct p as [|x p]; [done |]].
    intros He. destruct (Hlen x p). congruence.
  - split; [discriminate |]. destruct p; [intros He; by destruct (Heq He) | discriminate].
  - split; [intros Hp; injection Hp; intros <-; exact Heq |]. intros He. destruct p as [|x p]; [done |].
    destruct (Hlen x p). congruence.
  - rewrite fmap_Some. split.
    + intros (q & Hq & ->). apply IH in Hq. by rewrite append_cons, <- Hq.
    + destruct p as [|x p]; [intros He; by destruct (Heq He) |]. rewrite append_cons. intros [= <- He].
      exists p. split; [by apply IH | done].
Qed.

Lemma cut_suffix_app suf p : cut_suffix suf (p +:+ suf) = Some p.
Proof. by apply cut_suffix_Some. Qed.

(** [strings.HasSuffix] and [strings.TrimSuffix]. *)
Definition has_suffix (s suf : string) : bool := bool_decide (is_Some (cut_suffix suf s)).
Definition trim_suffix (s suf : string) : string := default s (cut_suffix suf s).

Lemma trim_suffix_app p suf : trim_suffix (p +:+ suf) suf = p.
Proof. unfold trim_suffix. by rewrite cut_suffix_app. Qed.

#[export] Hint Rewrite append_nil_l append_nil_r append_assoc length_append cut_suffix_app
  trim_suffix_app : gostr.

(** [strings.HasPrefix] and [strings.Contains]. *)
Fixpoint has_prefix (s pre : string) : bool :=
  match pre, s with
  | EmptyString, _ => true
  | String a pre', String b s' => bool_decide (a = b) && has_prefix s' pre'
  | _, EmptyString => false
  end.

Fixpoint str_contains (s sub : string) : bool :=
  has_prefix s sub || match s with EmptyString => false | String _ s' => str_contains s' sub end.

(** ** Text as bytes *)
Abbreviation bytes := (list ascii).
Abbreviation text s := (String.list_ascii_of_string s).
Abbreviation str l := (String.string_of_list_ascii l).

Definition char_in (c : ascii) (s : string) : bool := bool_decide (c ∈ text s).

Definition in_range (lo hi c : ascii) : bool :=
  (N.leb (Ascii.N_of_ascii lo) (Ascii.N_of_ascii c)) && (N.leb (Ascii.N_of_ascii c) (Ascii.N_of_ascii hi)).

Definition lower (c : ascii) : ascii :=
  if in_range "A" "Z" c then Ascii.ascii_of_N (Ascii.N_of_ascii c + 32) else c.

(** [strings.ToLower], exact on ASCII and on the two other letters whose lower
    case is ASCII, U+212A (k) and U+0130 (i); the remaining letters are left as
    they are, so whether the result is a given ASCII word is exact. *)
Fixpoint ToLower (s : bytes) : bytes :=
  match s with
  | [] => []
  | "226"%char :: "132"%char :: "170"%char :: s' => "k"%char :: ToLower s'
  | "196"%char :: "176"%char :: s' => "i"%char :: ToLower s'
  | c :: s' => lower c :: ToLower s'
  end.

(** The longest prefix of [s] in a class, as a length. *)
Fixpoint span (p : ascii -> bool) (s : bytes) : nat :=
  match s with
  | c :: s' => if p c then S (span p s') else 0
  | [] => 0
  end.

Lemma span_all p s : Forall (fun c => p c = true) s -> span p s = length s.
Proof. induction 1 as [|c s Hc _ IH]; [done |]. simpl. by rewrite Hc, IH. Qed.

(** A fact about a byte class, by evaluation over the 256 bytes. *)
Definition all_ascii : list ascii := Ascii.ascii_of_nat <$> seq 0 256.

Lemma all_ascii_In c : c ∈ all_ascii.
Proof.
  unfold all_ascii. apply list_elem_of_fmap. exists (Ascii.nat_of_ascii c).
  split; [by rewrite Ascii.ascii_nat_embedding |].
  apply elem_of_seq. pose proof (Ascii.nat_ascii_bounded c). lia.
Qed.

Lemma ascii_forall (P : ascii -> bool) : forallb P all_ascii = true -> forall c, P c = true.
Proof. intros Hall c. rewrite forallb_forall in Hall. apply Hall, list_elem_of_In, all_ascii_In. Qed.

(** Trimming by a set of UTF-8 sequences: [strings.TrimLeft] and [TrimRight] with
    a cutset, which is cut rune by rune. *)
Fixpoint strip_prefix (pre s : bytes) : option bytes :=
  match pre, s with
  | [], _ => Some s
  | a :: pre, b :: s => if decide (a = b) then strip_prefix pre s else None
  | _, [] => None
  end.

Fixpoint strip_any (pats : list bytes) (s : bytes) : option bytes :=
  match pats with
  | [] => None
  | p :: pats =>
      match strip_prefix p s with Some r => Some r | None => strip_any pats s end
  end.

Fixpoint trim_left_fuel (fuel : nat) (pats : list bytes) (s : bytes) : bytes :=
  match fuel with
  | O => s
  | S fuel => match strip_any pats s with Some r => trim_left_fuel fuel pats r | None => s end
  end.

Definition TrimLeft (pats : list bytes) (s : bytes) : bytes := trim_left_fuel (length s) pats s.
Definition TrimRight (pats : list bytes) (s : bytes) : bytes :=
  reverse (TrimLeft (map reverse pats) (reverse s)).

Definition bytes_of_nats (l : list nat) : bytes := map Ascii.ascii_of_nat l.

(** The encodings of [unicode.IsSpace]. *)
Definition unicode_spaces : list bytes :=
  map bytes_of_nats
    ([[9]; [10]; [11]; [12]; [13]; [32]; [194; 133]; [194; 160]; [225; 154; 128]]%nat
     ++ map (fun n => [226; 128; n]%nat) (seq 128 11)
     ++ [[226; 128; 168]; [226; 128; 169]; [226; 128; 175]; [226; 129; 159]; [227; 128; 128]]%nat).

Definition TrimSpace (s : bytes) : bytes := TrimRight unicode_spaces (TrimLeft unicode_spaces s).

Lemma text_str l : text (str l) = l.
Proof. apply String.list_ascii_of_string_of_list_ascii. Qed.

Lemma str_text s : str (text s) = s.
Proof. apply String.string_of_list_ascii_of_string. Qed.

Lemma text_app s t : text (s +:+ t) = text s ++ text t.
Proof. induction s as [|c s IH]; [done |]. simpl. by rewrite IH. Qed.

(** ** Quoting

    [strconv.Quote] and [%q]: control bytes, the quote and the backslash are
    escaped. Bytes from 128 are kept, as in valid printable UTF-8. *)
Definition hex_digit (n : nat) : ascii :=
  default "0"%char (text "0123456789abcdef" !! n).

Definition escape (c : ascii) : bytes :=
  let n := nat_of_ascii c in
  if decide (n = 34 \/ n = 92)%nat then [Ascii.ascii_of_nat 92; c]
  else if decide (32 <= n /\ n <> 127)%nat then [c]
  else
    match list_find (fun p => fst p = n)
            [(7, "a"); (8, "b"); (9, "t"); (10, "n"); (11, "v"); (12, "f"); (13, "r")]%nat with
    | Some (_, (_, s)) => Ascii.ascii_of_nat 92 :: text s
    | None => Ascii.ascii_of_nat 92 :: text "x" ++ [hex_digit (n / 16); hex_digit (n mod 16)]
    end.

Definition Quote (s : string) : string :=
  str ([Ascii.ascii_of_nat 34] ++ (text s ≫= escape) ++ [Ascii.ascii_of_nat 34]).

(** ** Tables

    A Go [switch] on constants: the first case that matches, else the default. *)
Fixpoint switch {K V : Type} `{EqDecision K} (x : K) (cases : list (K * V)) (dflt : V) : V :=
  match cases with
  | [] => dflt
  | (k, v) :: cases' => if decide (x = k) then v else switch x cases' dflt
  end.


Lemma switch_In {K V} `{EqDecision K} (x : K) (cases : list (K * V)) d v :
  switch x cases d = v -> v = d \/ (x, v) ∈ cases.
Proof.
  induction cases as [|[k w] cases IH]; simpl; [by left |].
  case_decide; simplify_eq; intros Hv; [right | destruct (IH Hv); [by left | right]].
  - simplify_eq. apply list_elem_of_here.
  - by apply list_elem_of_further.
Qed.

(** ** Results

    A Go call returns or panics; a panic unwinds the callers up to a deferred
    [recover]. *)
Inductive outcome (A : Type) :=
  | Ret (a : A)
  | Panic.
Arguments Ret {A} a.
Arguments Panic {A}.

#[global] Instance outcome_ret : MRet outcome := @Ret.
#[global] Instance outcome_bind : MBind outcome := fun A B f r =>
  match r with Ret a => f a | Panic => Panic end.

(** [if err := r; err != nil { return err }] before the rest. *)
Definition and_then {E} (r k : outcome (option E)) : outcome (option E) :=
  match r with Ret None => k | r => r end.

Declare Scope go_scope.
Delimit Scope go_scope with go.
Notation "r ;?; k" := (and_then r k) (at level 100, k at level 200, right associativity) : go_scope.

Lemma and_then_ok {E} (r k : outcome (option E)) :
  and_then r k = Ret None <-> r = Ret None /\ k = Ret None.
Proof. destruct r as [[e|]|]; simpl; naive_solver. Qed.

Lemma and_then_returns {E} (r k : outcome (option E)) :
  (exists e, r = Ret e) -> (exists e, k = Ret e) -> exists e, and_then r k = Ret e.
Proof. intros [[e|] ->] [e' ->]; simpl; eauto. Qed.

(** ** Proof automation *)

(** Case analysis on every [match] and [if] of the goal, closing trivial cases. *)
Ltac split_cases := repeat (case_match; simplify_eq/=; try done).

(** A decidable property of a range of integers, by evaluation. *)
Lemma range_checked (P : Z -> bool) lo len :
  forallb P (seqZ lo len) = true -> forall n, lo <= n < lo + len -> P n = true.
Proof. rewrite forallb_forall. intros H n Hn. apply H, list_elem_of_In, elem_of_seqZ. lia. Qed.

Lemma range_decided (P : Z -> Prop) `{forall z, Decision (P z)} lo len :
  forallb (fun z => bool_decide (P z)) (seqZ lo len) = true -> forall n, lo <= n < lo + len -> P n.
Proof. intros Hc n Hn. exact (bool_decide_eq_true_1 _ (range_checked _ lo len Hc n Hn)). Qed.
