(* ===== verification/Chan.v ===== *)
(** Buffered Go channels and the non-blocking drop-oldest send.

    A channel of capacity [cap] is the list of its queued values, oldest first.
    The idiom
<<
    select { case ch <- x: default:
      select { case <-ch: default: }
      select { case ch <- x: default: } }
>>
    is written out by [internal/push/client.go] ([dispatch], [report]),
    [pkg/hstong/stream/stream.go] ([sendUpdate], [sendErr]) and
    [pkg/services/push.go] ([report], [deliver]); it is defined once here and
    instantiated by those components. *)
From S2P Require Import Prelude.

Create HintDb chan.

Section chan.
Context {A : Type}.
Implicit Types (q : list A) (x : A) (cap : nat).

(** [select { case ch <- x: default: }] *)
Definition try_send cap q x : option (list A) :=
  if decide (length q < cap)%nat then Some (q ++ [x]) else None.

(** [select { case <-ch: default: }], the received value being discarded. *)
Definition try_recv q : list A := drop 1 q.

Definition send_drop_oldest cap q x : list A :=
  match try_send cap q x with
  | Some q' => q'
  | None => let q' := try_recv q in default q' (try_send cap q' x)
  end.

(** The same statements when the receiving goroutine takes [c1] values between
    the first and the second [select] and [c2] between the second and the
    third. *)
Definition send_drop_oldest_racing cap (c1 c2 : nat) q x : list A :=
  match try_send cap q x with
  | Some q' => q'
  | None => let q' := drop c2 (try_recv (drop c1 q)) in default q' (try_send cap q' x)
  end.

(** The [n] newest values of a sequence. *)
Definition lastn (n : nat) q : list A := drop (length q - n) q.

Lemma length_lastn n q : length (lastn n q) = (length q `min` n)%nat.
Proof. unfold lastn. rewrite length_drop. lia. Qed.

Lemma lastn_all n q : (length q <= n)%nat -> lastn n q = q.
Proof. intros. unfold lastn. replace (_ - _)%nat with 0%nat by lia. done. Qed.

Lemma lastn_app_lastn n q l : lastn n (lastn n q ++ l) = lastn n (q ++ l).
Proof.
  unfold lastn. rewrite !length_app, length_drop.
  destruct (decide (length q <= n)%nat).
  { replace (length q - n)%nat with 0%nat by lia. rewrite drop_0. f_equal. lia. }
  rewrite !drop_app, drop_drop. f_equal; [f_equal; lia |].
  rewrite length_drop. f_equal. lia.
Qed.

Lemma send_drop_oldest_lastn cap q x :
  (length q <= cap)%nat -> send_drop_oldest cap q x = lastn cap (q ++ [x]).
Proof.
  intros Hq. unfold send_drop_oldest, try_send, try_recv, lastn. rewrite length_app. simpl.
  case_decide.
  { by replace (length q + 1 - cap)%nat with 0%nat by lia. }
  replace (length q + 1 - cap)%nat with 1%nat by lia.
  destruct q as [|y q]; simpl in *; [by replace cap with 0%nat by lia |].
  rewrite skipn_O. rewrite decide_True by lia. done.
Qed.

Lemma length_send_drop_oldest cap q x :
  (length q <= cap)%nat -> (length (send_drop_oldest cap q x) <= cap)%nat.
Proof. intros. rewrite send_drop_oldest_lastn, length_lastn by done. lia. Qed.

(** A run of sends with no receive keeps the newest [cap] values in order. *)
Lemma send_drop_oldest_fold cap q xs :
  (length q <= cap)%nat ->
  foldl (send_drop_oldest cap) q xs = lastn cap (q ++ xs).
Proof.
  revert q. induction xs as [|x xs IH]; intros q Hq; simpl.
  { by rewrite app_nil_r, lastn_all. }
  rewrite IH by auto using length_send_drop_oldest.
  rewrite send_drop_oldest_lastn, lastn_app_lastn by done. by rewrite <- app_assoc.
Qed.

(** Whatever the receiver takes meanwhile, the value sent is queued last. *)
Lemma send_racing_newest cap c1 c2 q x :
  (0 < cap)%nat -> (length q <= cap)%nat ->
  exists q', send_drop_oldest_racing cap c1 c2 q x = q' ++ [x] /\ (length q' < cap)%nat
    /\ q' `suffix_of` q.
Proof.
  intros Hc Hq. unfold send_drop_oldest_racing, try_send, try_recv.
  case_decide as Hl; [exists q; split; [done | split; [done | reflexivity]] |].
  assert (Hs : drop c2 (drop 1 (drop c1 q)) `suffix_of` q).
  { repeat (etrans; [apply suffix_drop |]). reflexivity. }
  set (q2 := drop c2 (drop 1 (drop c1 q))) in *.
  assert (length q2 < cap)%nat by (unfold q2; rewrite !length_drop; lia).
  rewrite decide_True by done. by exists q2.
Qed.
End chan.

#[export] Hint Resolve length_send_drop_oldest : chan.
