(* ===== verification/Types.v ===== *)
(** The enumerations of [pkg/types]: push message types, topics, markets, order
    directions, order types and statuses, instrument types, and Gateway status
    codes ([src/pkg/types/enums.go], [src/pkg/types/status.go]).

    The Go types are open ([type TopicID int], [type EntrustStatus string]): any
    integer or string is a value of them, so they are [Z] and [string] here and
    the constants are definitions. *)
From stdpp Require Import pretty.
From S2P Require Import Prelude.

(** [strconv.Itoa] and [strconv.FormatInt(_, 10)]. *)
Definition itoa (z : Z) : string := pretty z.

(** ** [type NotifyMsgType int32] *)
Definition TrsStockDeliverMsgType : Z := 0.
Definition TradeStockDeliverMsgType : Z := 1.
Definition FuturesTradeStockDeliverMsgType : Z := 2.
Definition OrderBookNotifyMsgType : Z := 20001.
Definition BrokerQueueNotifyMsgType : Z := 20002.
Definition BasicQotNotifyMsgType : Z := 20003.
Definition TickerNotifyMsgType : Z := 20004.

(** ** [type TopicID int] *)
Definition TopicBasicQot : Z := 11.
Definition TopicQuoteVariant35 : Z := 35.
Definition TopicTicker : Z := 14.
Definition TopicTickVariant27 : Z := 27.
Definition TopicTickVariant28 : Z := 28.
Definition TopicTickVariant37 : Z := 37.
Definition TopicBroker : Z := 16.
Definition TopicOrderBook : Z := 17.
Definition TopicOrderBookArcabook : Z := 25.
Definition TopicOrderBookTotalView : Z := 26.
Definition TopicOrderBookVariant36 : Z := 36.

(** ** [type ExchangeType string] *)
Definition ExchangeHK : string := "K".
Definition ExchangeUS : string := "P".
Definition ExchangeShenzhenConnect : string := "v".
Definition ExchangeShanghaiConnect : string := "t".

(** ** [type EntrustBS string] *)
Definition EntrustBuy : string := "1".
Definition EntrustSell : string := "2".
Definition EntrustCloseShort : string := "3".
Definition EntrustOpenShort : string := "4".

(** ** [type EntrustType string] *)
Definition EntrustTypeAuctionLimit : string := "0".
Definition EntrustTypeAuction : string := "1".
Definition EntrustTypeEnhancedLimit : string := "2".
Definition EntrustTypeLimit : string := "3".
Definition EntrustTypeSpecialLimit : string := "4".
Definition EntrustTypeMarket : string := "5".
Definition EntrustTypeDarkPool : string := "6".
Definition EntrustTypeOddLot : string := "7".
Definition EntrustTypeIcebergMarket : string := "8".
Definition EntrustTypeIcebergLimit : string := "9".
Definition EntrustTypeHiddenMarket : string := "10".
Definition EntrustTypeHiddenLimit : string := "11".
Definition EntrustTypeStopProfitLimit : string := "31".
Definition EntrustTypeStopProfitMarket : string := "32".
Definition EntrustTypeStopLossLimit : string := "33".
Definition EntrustTypeStopLossMarket : string := "34".
Definition EntrustTypeTrailingStopLimit : string := "35".
Definition EntrustTypeTrailingStopMarket : string := "36".

(** ** [type EntrustStatus string] *)
Definition EntrustStatusNoRegister : string := "0".
Definition EntrustStatusWaitToRegister : string := "1".
Definition EntrustStatusRegistered : string := "2".
Definition EntrustStatusWaitCancel : string := "3".
Definition EntrustStatusPartFilledWaitCancel : string := "4".
Definition EntrustStatusPartCancelled : string := "5".
Definition EntrustStatusCancelled : string := "6".
Definition EntrustStatusPartFilled : string := "7".
Definition EntrustStatusFilled : string := "8".
Definition EntrustStatusHostReject : string := "9".
Definition EntrustStatusWaitModifyRegistered : string := "A".
Definition EntrustStatusUnregisteredUnused : string := "B".
Definition EntrustStatusRegisteringUnused : string := "C".
Definition EntrustStatusRevokeCancelUnused : string := "D".
Definition EntrustStatusWaitConfirming : string := "W".
Definition EntrustStatusPreFilledUnused : string := "X".
Definition EntrustStatusWaitModifyPartFilled : string := "E".
Definition EntrustStatusRejectPreOrder : string := "F".
Definition EntrustStatusCancelledPreOrder : string := "G".
Definition EntrustStatusWaitReview : string := "H".
Definition EntrustStatusReviewFail : string := "J".

(** ** [type DataType int32] *)
Definition DataTypeHKStock : Z := 10000.
Definition DataTypeHKIndex : Z := 10001.
Definition DataTypeHKETF : Z := 10002.
Definition DataTypeHKWarrant : Z := 10003.
Definition DataTypeHKCBBC : Z := 10004.
Definition DataTypeHKBond : Z := 10005.
Definition DataTypeHKSector : Z := 10006.
Definition DataTypeHKConcept : Z := 10007.
Definition DataTypeDerivativesFutures : Z := 10009.
Definition DataTypeHKIndexFutures : Z := 10010.
Definition DataTypeHKSingleStockFutures : Z := 10011.
Definition DataTypeHKHSIDividendFutures : Z := 10012.
Definition DataTypeHKCNYFutures : Z := 10013.
Definition DataTypeHKCESFutures : Z := 10014.
Definition DataTypeHKVolatilityFutures : Z := 10015.
Definition DataTypeInlineWarrant : Z := 10016.
Definition DataTypeUSStock : Z := 20000.
Definition DataTypeUSIndex : Z := 20001.
Definition DataTypeUSETF : Z := 20002.
Definition DataTypeUSOption : Z := 20003.
Definition DataTypeUSSector : Z := 20006.
Definition DataTypeUSConcept : Z := 20007.
Definition DataTypeUSOTCStock : Z := 20009.
Definition DataTypeAShareStock : Z := 30000.
Definition DataTypeAShareIndex : Z := 30001.
Definition DataTypeAShareETF : Z := 30002.
Definition DataTypeAShareSector : Z := 30006.
Definition DataTypeAShareConcept : Z := 30007.
Definition DataTypeAShareSTAR : Z := 30008.

(** ** [type StatusCode string] *)
Definition StatusOK : string := "0000".
Definition StatusUnknownError : string := "1001".
Definition StatusSignatureError : string := "1002".
Definition StatusEncryptionError : string := "1003".
Definition StatusSocketNotInitialized : string := "1004".
Definition StatusEndpointDeprecated : string := "1005".
Definition StatusUserNotAuthorized : string := "1006".
Definition StatusDuplicateSubmit : string := "1007".
Definition StatusCallFailed : string := "1008".
Definition StatusEndpointNotFound : string := "1009".
Definition StatusIllegalRequest : string := "1010".
Definition StatusServiceBusy : string := "1011".
Definition StatusNotLoggedIn : string := "1012".
Definition StatusKickedOffline : string := "1013".
Definition StatusLoginTimeout : string := "1014".
Definition StatusCallTimeout : string := "1015".
Definition StatusInvalidParam : string := "1016".
Definition StatusConnectFailed : string := "1017".
Definition StatusReconnecting : string := "1018".
Definition StatusFuturesLoginTimeout : string := "20033".
Definition StatusQueryProductInfoFailed : string := "40001".
Definition StatusQueryContractInfoFailed : string := "40002".

Definition NotifyMsgType_String (m : Z) : string :=
  switch m [
    (TrsStockDeliverMsgType, "TrsStockDeliverMsgType");
    (TradeStockDeliverMsgType, "TradeStockDeliverMsgType");
    (FuturesTradeStockDeliverMsgType, "FuturesTradeStockDeliverMsgType");
    (OrderBookNotifyMsgType, "OrderBookNotifyMsgType");
    (BrokerQueueNotifyMsgType, "BrokerQueueNotifyMsgType");
    (BasicQotNotifyMsgType, "BasicQotNotifyMsgType");
    (TickerNotifyMsgType, "TickerNotifyMsgType")
  ] ("NotifyMsgType(" +:+ itoa m +:+ ")").

Definition TopicID_String (m : Z) : string :=
  switch m [
    (TopicBasicQot, "basic-qot");
    (TopicQuoteVariant35, "quote-variant-35");
    (TopicTicker, "ticker");
    (TopicTickVariant27, "tick-variant-27");
    (TopicTickVariant28, "tick-variant-28");
    (TopicTickVariant37, "tick-variant-37");
    (TopicBroker, "broker");
    (TopicOrderBook, "order-book");
    (TopicOrderBookArcabook, "order-book-arcabook");
    (TopicOrderBookTotalView, "order-book-totalview");
    (TopicOrderBookVariant36, "order-book-variant-36")
  ] ("TopicID(" +:+ itoa m +:+ ")").

Definition DataType_String (m : Z) : string :=
  switch m [
    (DataTypeHKStock, "HK stock");
    (DataTypeHKIndex, "HK index");
    (DataTypeHKETF, "HK ETF");
    (DataTypeHKWarrant, "HK warrant");
    (DataTypeHKCBBC, "HK CBBC");
    (DataTypeHKBond, "HK bond");
    (DataTypeHKSector, "HK sector");
    (DataTypeHKConcept, "HK concept");
    (DataTypeDerivativesFutures, "derivatives future");
    (DataTypeHKIndexFutures, "HK index future");
    (DataTypeHKSingleStockFutures, "HK single-stock future");
    (DataTypeHKHSIDividendFutures, "HSI dividend future");
    (DataTypeHKCNYFutures, "HKD/CNY future");
    (DataTypeHKCESFutures, "CES future");
    (DataTypeHKVolatilityFutures, "HSI volatility future");
    (DataTypeInlineWarrant, "inline warrant");
    (DataTypeUSStock, "US stock");
    (DataTypeUSIndex, "US index");
    (DataTypeUSETF, "US ETF");
    (DataTypeUSOption, "US option");
    (DataTypeUSSector, "US sector");
    (DataTypeUSConcept, "US concept");
    (DataTypeUSOTCStock, "US OTC stock");
    (DataTypeAShareStock, "A-share stock");
    (DataTypeAShareIndex, "A-share index");
    (DataTypeAShareETF, "A-share ETF");
    (DataTypeAShareSector, "A-share sector");
    (DataTypeAShareConcept, "A-share concept");
    (DataTypeAShareSTAR, "A-share STAR")
  ] ("DataType(" +:+ itoa m +:+ ")").

Definition StatusCode_String (c : string) : string :=
  switch c [
    (StatusOK, "success");
    (StatusUnknownError, "unknown system error");
    (StatusSignatureError, "signature error");
    (StatusEncryptionError, "data encryption error");
    (StatusSocketNotInitialized, "socket not initialized");
    (StatusEndpointDeprecated, "endpoint deprecated");
    (StatusUserNotAuthorized, "user not authorized");
    (StatusDuplicateSubmit, "duplicate submission");
    (StatusCallFailed, "call failed");
    (StatusEndpointNotFound, "endpoint not found");
    (StatusIllegalRequest, "illegal request");
    (StatusServiceBusy, "service busy, retry later");
    (StatusNotLoggedIn, "not logged in");
    (StatusKickedOffline, "session displaced");
    (StatusLoginTimeout, "login timeout");
    (StatusCallTimeout, "call timeout");
    (StatusInvalidParam, "invalid parameter");
    (StatusConnectFailed, "long-connection establishment failed");
    (StatusReconnecting, "reconnecting, retry later");
    (StatusFuturesLoginTimeout, "futures trade login timeout");
    (StatusQueryProductInfoFailed, "query product info failed");
    (StatusQueryContractInfoFailed, "query contract info failed")
  ] c.

Definition StatusCode_IsSuccess (c : string) : bool := bool_decide (c = StatusOK).
