(* ===== verification/Errs.v ===== *)
(** Go error values and [internal/errs]: the typed error of the SDK, the
    status-code table, and the predicates the resilience layer branches on. *)
From S2P Require Import Prelude Types.

Set Warnings "-register-all".

Create HintDb errs.

(** ** Error values

    A Go error is a chain of values linked by [Unwrap]. The constructors are the
    kinds of value the repository builds: a package sentinel ([errors.New] in a
    [var], compared by identity, which its text stands for), a fresh error
    without cause ([fmt.Errorf] without [%w]), an error wrapping one cause
    ([fmt.Errorf] with [%w], [text] being the whole rendered message), an error
    matching a sentinel through an [Is] method while unwrapping to a cause
    ([reconnectNotice], [streamError]), a [*errs.Error], and the nil [*errs.Error]. *)
Inductive error :=
  | ESentinel (text : string)
  | EText (text : string)
  | EWrap (text : string) (cause : error)
  | ETagged (tag : string) (cause : option error)
  | ESdk (Code Category Message Op : string) (Err : option error)
  | ESdkNil.

(** The induction principle that goes through the optional causes. *)
Section error_ind'.
Context (P : error -> Prop).
Context (Hs : forall t, P (ESentinel t)) (Ht : forall t, P (EText t)).
Context (Hw : forall t c, P c -> P (EWrap t c)).
Context (Hg : forall t c, from_option P True c -> P (ETagged t c)).
Context (Hk : forall a b c d e, from_option P True e -> P (ESdk a b c d e)).
Context (Hn : P ESdkNil).

Fixpoint error_ind' (e : error) : P e :=
  let opt (o : option error) : from_option P True o :=
    match o with Some c => error_ind' c | None => I end in
  match e with
  | ESentinel t => Hs t
  | EText t => Ht t
  | EWrap t c => Hw t c (error_ind' c)
  | ETagged t c => Hg t c (opt c)
  | ESdk a b c d x => Hk a b c d x (opt x)
  | ESdkNil => Hn
  end.
End error_ind'.

Definition DeadlineExceeded : error := ESentinel "context deadline exceeded".
Definition Canceled : error := ESentinel "context canceled".
Definition EOF : error := ESentinel "EOF".
Definition ErrUnexpectedEOF : error := ESentinel "unexpected EOF".
Definition ErrShortWrite : error := ESentinel "short write".

(** [errors.Is(err, target)] for a sentinel target. *)
Fixpoint errors_Is (e : error) (target : string) : bool :=
  match e with
  | ESentinel t => bool_decide (t = target)
  | EText _ | ESdkNil => false
  | EWrap _ c => errors_Is c target
  | ETagged tag c =>
      bool_decide (tag = target) || match c with Some c => errors_Is c target | None => false end
  | ESdk _ _ _ _ c => match c with Some c => errors_Is c target | None => false end
  end.

Definition is_sentinel (e s : error) : bool :=
  match s with ESentinel t => errors_Is e t | _ => false end.

(** [errors.As(err, &e)] for a target of type [*errs.Error]: the first one of
    the chain, nil pointers included. *)
Fixpoint errors_As (e : error) : option error :=
  match e with
  | ESentinel _ | EText _ => None
  | EWrap _ c => errors_As c
  | ETagged _ c => match c with Some c => errors_As c | None => None end
  | ESdk _ _ _ _ _ | ESdkNil => Some e
  end.

(** ** Categories and the status-code table *)
Definition CategorySuccess : string := "success".
Definition CategoryConnection : string := "connection".
Definition CategoryTimeout : string := "timeout".
Definition CategoryAPI : string := "api".
Definition CategoryAccount : string := "account".
Definition CategoryTrading : string := "trading".
Definition CategoryRateLimit : string := "rate_limit".
Definition CategoryUnknown : string := "unknown".

Record codeInfo := CodeInfo { category : string; message : string }.

Definition codeTable : list (string * codeInfo) := [
  (StatusOK, CodeInfo CategorySuccess "success");
  (StatusUnknownError, CodeInfo CategoryAPI "unknown system error");
  (StatusSignatureError, CodeInfo CategoryAPI "signature error");
  (StatusEncryptionError, CodeInfo CategoryAPI "data encryption error");
  (StatusSocketNotInitialized, CodeInfo CategoryConnection "socket not initialized");
  (StatusEndpointDeprecated, CodeInfo CategoryAPI "endpoint deprecated");
  (StatusUserNotAuthorized, CodeInfo CategoryAccount "user not authorized");
  (StatusDuplicateSubmit, CodeInfo CategoryTrading "duplicate submission");
  (StatusCallFailed, CodeInfo CategoryAPI "call failed");
  (StatusEndpointNotFound, CodeInfo CategoryAPI "endpoint not found");
  (StatusIllegalRequest, CodeInfo CategoryAPI "illegal request");
  (StatusServiceBusy, CodeInfo CategoryRateLimit "service busy, retry later");
  (StatusNotLoggedIn, CodeInfo CategoryAccount "not logged in");
  (StatusKickedOffline, CodeInfo CategoryAccount "session displaced by another login");
  (StatusLoginTimeout, CodeInfo CategoryAccount "login timeout");
  (StatusCallTimeout, CodeInfo CategoryTimeout "call timeout");
  (StatusInvalidParam, CodeInfo CategoryAPI "invalid parameter");
  (StatusConnectFailed, CodeInfo CategoryConnection "long-connection establishment failed");
  (StatusReconnecting, CodeInfo CategoryConnection "reconnecting, retry later");
  (StatusFuturesLoginTimeout, CodeInfo CategoryAccount "futures trade login timeout");
  (StatusQueryProductInfoFailed, CodeInfo CategoryAPI "query product info failed");
  (StatusQueryContractInfoFailed, CodeInfo CategoryAPI "query contract info failed")
].

(** [codeTable[code]], the two-result form. *)
Definition codeTable_lookup (code : string) : option codeInfo :=
  switch code (prod_map id Some <$> codeTable) None.

Definition KnownCode (code : string) : bool := bool_decide (is_Some (codeTable_lookup code)).

Definition CategoryForCode (code : string) : string :=
  match codeTable_lookup code with Some info => category info | None => CategoryUnknown end.

Definition MessageForCode (code : string) : string :=
  match codeTable_lookup code with Some info => message info | None => code end.

(** ** Constructors of [*errs.Error] *)
Definition New (code op message : string) : error :=
  let message := if decide (message = "") then MessageForCode code else message in
  ESdk code (CategoryForCode code) message op None.

Definition Wrap (err : option error) (code op message : string) : error :=
  match New code op message with
  | ESdk c cat m o _ => ESdk c cat m o err
  | e => e
  end.

Definition Connection (op : string) (err : option error) : error :=
  ESdk "" CategoryConnection "connection failed" op err.

Definition Timeout (op : string) (err : option error) : error :=
  ESdk "" CategoryTimeout "request timed out" op err.

(** ** Rendering *)
Fixpoint error_text (e : error) : string :=
  match e with
  | ESentinel t | EText t | EWrap t _ => t
  | ETagged tag None => tag
  | ETagged tag (Some c) => tag +:+ ": " +:+ error_text c
  | ESdkNil => "<nil>"
  | ESdk code cat msg op err =>
      let op_part := if decide (op = "") then "" else op +:+ ": " in
      let code_part := if decide (code = "" \/ code = StatusOK) then "" else code +:+ " " in
      let cause := match err with Some c => Some (error_text c) | None => None end in
      let msg :=
        if decide (msg = "") then
          if decide (code = "") then default "error" cause else MessageForCode code
        else msg in
      let cause_part :=
        match cause with
        | Some c => if bool_decide (c = "") || bool_decide (c = msg) || str_contains msg c
                    then "" else ": " +:+ c
        | None => ""
        end in
      op_part +:+ code_part +:+ msg +:+ cause_part
  end.

(** ** Inspection *)
Definition CodeOf (err : option error) : option string :=
  match err with
  | None => None
  | Some e =>
      match errors_As e with
      | Some (ESdk code _ _ _ _) => if decide (code = "") then None else Some code
      | _ => None
      end
  end.

Definition is_ctx_err (e : error) : bool := is_sentinel e DeadlineExceeded || is_sentinel e Canceled.

Definition CategoryOf (err : option error) : string :=
  match err with
  | None => CategoryUnknown
  | Some e =>
      match errors_As e with
      | Some (ESdk code cat _ _ _) => if decide (cat = "") then CategoryForCode code else cat
      | _ => if is_ctx_err e then CategoryTimeout else CategoryUnknown
      end
  end.

Definition transientCodes : list string :=
  [StatusServiceBusy; StatusCallTimeout; StatusConnectFailed; StatusReconnecting].

Definition Retryable (err : option error) : bool :=
  match err with
  | None => false
  | Some e =>
      is_ctx_err e ||
      match errors_As e with
      | Some (ESdk code cat _ _ _) =>
          bool_decide (cat = CategoryConnection) || bool_decide (cat = CategoryTimeout)
          || bool_decide (code ∈ transientCodes)
      | _ => false
      end
  end.

Definition reLoginCodes : list string :=
  [StatusNotLoggedIn; StatusKickedOffline; StatusLoginTimeout; StatusFuturesLoginTimeout].

Definition ReLoginRequired (err : option error) : bool :=
  match CodeOf err with Some code => bool_decide (code ∈ reLoginCodes) | None => false end.

Definition IsDeprecated (err : option error) : bool :=
  match CodeOf err with Some code => bool_decide (code = StatusEndpointDeprecated) | None => false end.

(** ** Properties *)

(** Case analysis on a code: one case per row of [codeTable] and one for the
    codes it does not hold. *)
Ltac code_cases :=
  unfold CategoryForCode, MessageForCode, KnownCode, codeTable_lookup in *; simpl in *;
  repeat (case_decide; [subst; simpl in * |]).

(** The errors the constructors build: a code determines the category. *)
Fixpoint err_wf (e : error) : Prop :=
  match e with
  | ESentinel _ | EText _ | ESdkNil => True
  | EWrap _ c => err_wf c
  | ETagged _ c => match c with Some c => err_wf c | None => True end
  | ESdk code cat _ _ c =>
      (code <> "" -> cat = CategoryForCode code) /\ cat <> "" /\
      match c with Some c => err_wf c | None => True end
  end.

Definition opt_wf (e : option error) : Prop := from_option err_wf True e.

Lemma CategoryForCode_nonempty code : CategoryForCode code <> "".
Proof. code_cases; done. Qed.

Lemma New_wf code op msg : err_wf (New code op msg).
Proof. simpl. auto using CategoryForCode_nonempty. Qed.

Lemma Wrap_wf err code op msg : opt_wf err -> err_wf (Wrap err code op msg).
Proof. destruct err; simpl; auto using CategoryForCode_nonempty. Qed.

Lemma Connection_wf op err : opt_wf err -> err_wf (Connection op err).
Proof. destruct err; simpl; split; try split; done. Qed.

Lemma Timeout_wf op err : opt_wf err -> err_wf (Timeout op err).
Proof. destruct err; simpl; split; try split; done. Qed.

#[export] Hint Resolve New_wf Wrap_wf Connection_wf Timeout_wf : errs.

Lemma errors_As_wf e x : err_wf e -> errors_As e = Some x -> err_wf x.
Proof.
  induction e as [t|t|t c IH|t c IH|a b c d x' IH|] using error_ind'; simpl;
    intros Hwf HA; try done; auto.
  - destruct c as [c|]; [auto | done].
  - by injection HA as <-.
  - by injection HA as <-.
Qed.

Lemma CodeOf_Some e code :
  CodeOf (Some e) = Some code ->
  exists cat msg op c, errors_As e = Some (ESdk code cat msg op c) /\ code <> "".
Proof. simpl. intros H. split_cases. eauto 8. Qed.

Lemma relogin_category code : code ∈ reLoginCodes -> CategoryForCode code = CategoryAccount.
Proof. intros Hc. repeat (apply elem_of_cons in Hc as [-> | Hc]; [done |]). set_solver. Qed.

(** Fresh Gateway errors: the codes of [retryCodes] are exactly the retried ones. *)
Definition retryCodes : list string := StatusSocketNotInitialized :: transientCodes.

Lemma retryable_New code op msg :
  Retryable (Some (New code op msg)) = bool_decide (code ∈ retryCodes).
Proof.
  simpl. code_cases; try done; exfalso; unfold retryCodes, transientCodes in *; set_solver.
Qed.

(** An error built from a Gateway status code is retried for exactly five
    codes: service busy, call timeout, connect failed, reconnecting, and (through
    its connection category) socket not initialized. *)
Theorem retryable_new_exact (code op msg : string) :
  Retryable (Some (New code op msg)) = true <->
  code = StatusSocketNotInitialized \/ code = StatusServiceBusy \/ code = StatusCallTimeout
  \/ code = StatusConnectFailed \/ code = StatusReconnecting.
Proof. rewrite retryable_New, bool_decide_eq_true. unfold retryCodes, transientCodes. set_solver. Qed.

(** An error that asks for a re-login belongs to the account category and
    is never retried for its code: only a context error elsewhere in its chain
    can make it retryable. *)
Theorem relogin_excludes_retry (e : error) :
  err_wf e -> ReLoginRequired (Some e) = true ->
  CategoryOf (Some e) = CategoryAccount /\ Retryable (Some e) = is_ctx_err e.
Proof.
  intros Hwf HR. unfold ReLoginRequired in HR. destruct (CodeOf (Some e)) as [code|] eqn:HC; [|done].
  apply bool_decide_eq_true in HR.
  apply CodeOf_Some in HC as (cat & msg & op & c & HA & Hne).
  destruct (errors_As_wf _ _ Hwf HA) as (Hcat & Hcne & _). specialize (Hcat Hne).
  rewrite relogin_category in Hcat by done. subst cat.
  unfold CategoryOf, Retryable. rewrite HA. split; [by case_decide |].
  rewrite (bool_decide_false (code ∈ transientCodes)).
  - by rewrite orb_false_r.
  - unfold reLoginCodes, transientCodes in *. set_solver.
Qed.

Lemma relogin_excludes_retry_witness :
  Retryable (Some (EWrap "order: not logged in" (New StatusNotLoggedIn "order" ""))) = false.
Proof.
  exact (proj2 (relogin_excludes_retry (EWrap "order: not logged in" (New StatusNotLoggedIn "order" ""))
    ltac:(apply New_wf) ltac:(vm_compute; reflexivity))).
Defined.
