(* ===== verification/Crypto.v ===== *)
(** The trade-password obfuscation: [src/internal/crypto/aes.go].

    PKCS7 padding, ECB over a block cipher, Base64. The AES block function of
    [crypto/aes] is a parameter: a length-preserving injection on 16-byte blocks
    for each key. *)
From S2P Require Import Prelude Types Errs.

Create HintDb crypto.

Abbreviation bytestr := (list Byte.byte).

(** ** Base64, standard alphabet with padding *)
Definition b64_alphabet : bytestr :=
  String.list_byte_of_string "ABCDEFGHIJKLMNOPQRSTUVWXYZabcdefghijklmnopqrstuvwxyz0123456789+/".

Definition b64_char (n : Z) : Byte.byte := default Byte.x00 (b64_alphabet !! Z.to_nat n).
Definition b64_pad : Byte.byte := Byte.x3d.

(** [base64.StdEncoding.EncodeToString] *)
Fixpoint EncodeToString (b : bytestr) : bytestr :=
  match b with
  | [] => []
  | [x] =>
      let n := Z_of_byte x in [b64_char (n / 4); b64_char (n mod 4 * 16); b64_pad; b64_pad]
  | [x; y] =>
      let n := Z_of_byte x * 256 + Z_of_byte y in
      [b64_char (n / 1024); b64_char (n / 16 mod 64); b64_char (n mod 16 * 4); b64_pad]
  | x :: y :: z :: b =>
      let n := (Z_of_byte x * 256 + Z_of_byte y) * 256 + Z_of_byte z in
      b64_char (n / 262144) :: b64_char (n / 4096 mod 64) :: b64_char (n / 64 mod 64)
        :: b64_char (n mod 64) :: EncodeToString b
  end.

Definition b64_value (c : Byte.byte) : option Z :=
  Z.of_nat <$> (fst <$> list_find (fun x => x = c) b64_alphabet).

(** [base64.StdEncoding.DecodeString] on an input whose last quantum is full, as
    the key's is; other inputs are refused here. *)
Fixpoint DecodeString (s : bytestr) : option bytestr :=
  match s with
  | [] => Some []
  | a :: b :: c :: d :: s =>
      a ← b64_value a; b ← b64_value b; c ← b64_value c; d ← b64_value d;
      let n := ((a * 64 + b) * 64 + c) * 64 + d in
      rest ← DecodeString s;
      Some (byte_of_Z (n / 65536) :: byte_of_Z (n / 256) :: byte_of_Z n :: rest)
  | _ => None
  end.

(** ** Padding *)
Definition pkcs7Pad (data : bytestr) (blockSize : nat) : bytestr :=
  let pad := (blockSize - length data mod blockSize)%nat in
  data ++ replicate pad (byte_of_Z (Z.of_nat pad)).

Definition ErrInvalidKeyLength : error := ESentinel "crypto: invalid AES key length".

Definition tradePasswordKeyBase64 : bytestr := String.list_byte_of_string "m+qS04/2CH1OweCnmXZ3TDZkCQS+hBzY".

Definition BlockSize : nat := 16.

Section cipher.
(** [block.Encrypt] for a key. *)
Context (block_Encrypt : bytestr -> bytestr -> bytestr).

(** The loop over the blocks; [fuel] blocks remain. *)
Fixpoint ecb_blocks (key : bytestr) (fuel : nat) (padded : bytestr) : bytestr :=
  match fuel with
  | O => []
  | S fuel =>
      block_Encrypt key (take BlockSize padded) ++ ecb_blocks key fuel (drop BlockSize padded)
  end.

Definition encryptECB (key plaintext : bytestr) : bytestr + error :=
  if decide (length key <> 16 /\ length key <> 24 /\ length key <> 32)%nat then inr ErrInvalidKeyLength
  else
    let padded := pkcs7Pad plaintext BlockSize in
    inl (ecb_blocks key (length padded / BlockSize) padded).

Definition EncryptTradePassword (plaintext : bytestr) : bytestr + error :=
  match DecodeString tradePasswordKeyBase64 with
  | None => inr (EText "illegal base64 data")
  | Some key =>
      match encryptECB key plaintext with
      | inr e => inr e
      | inl ciphertext => inl (EncodeToString ciphertext)
      end
  end.
End cipher.

(** ** Padding facts *)
Lemma pad_amount n : (1 <= BlockSize - n mod BlockSize <= BlockSize)%nat.
Proof. pose proof (Nat.mod_upper_bound n BlockSize ltac:(done)). unfold BlockSize in *. lia. Qed.

Lemma pkcs7Pad_length data :
  length (pkcs7Pad data BlockSize) = (S (length data / BlockSize) * BlockSize)%nat.
Proof.
  unfold pkcs7Pad. rewrite length_app, length_replicate.
  pose proof (Nat.div_mod (length data) BlockSize ltac:(done)).
  pose proof (Nat.mod_upper_bound (length data) BlockSize ltac:(done)). unfold BlockSize in *. lia.
Qed.

(** The last byte gives the length of the padding back. *)
Lemma pkcs7Pad_last data :
  last (pkcs7Pad data BlockSize)
    = Some (byte_of_Z (Z.of_nat (BlockSize - length data mod BlockSize))).
Proof.
  unfold pkcs7Pad. pose proof (pad_amount (length data)) as Hp.
  destruct (BlockSize - length data mod BlockSize)%nat as [|p]; [lia |].
  rewrite last_app, replicate_S_end, last_snoc. done.
Qed.

Lemma pkcs7Pad_inj d1 d2 : pkcs7Pad d1 BlockSize = pkcs7Pad d2 BlockSize -> d1 = d2.
Proof.
  intros Heq. pose proof (pkcs7Pad_last d1) as H1. pose proof (pkcs7Pad_last d2) as H2.
  rewrite Heq, H2 in H1. apply (inj Some) in H1. apply (f_equal Z_of_byte) in H1.
  rewrite !Z_of_byte_of_Z in H1.
  pose proof (pad_amount (length d1)) as Hp1. pose proof (pad_amount (length d2)) as Hp2.
  rewrite !Z.mod_small in H1 by (unfold BlockSize in *; lia).
  unfold pkcs7Pad in Heq. apply app_inj_2 in Heq as [Heq _]; [done |].
  rewrite !length_replicate. lia.
Qed.

(** ** Block facts *)
Section cipher_facts.
Context (block_Encrypt : bytestr -> bytestr -> bytestr).
Context (Hlen : forall k b, length b = BlockSize -> length (block_Encrypt k b) = BlockSize).
Context (Hinj : forall k b1 b2, length b1 = BlockSize -> length b2 = BlockSize ->
  block_Encrypt k b1 = block_Encrypt k b2 -> b1 = b2).

Lemma ecb_length k n p :
  length p = (n * BlockSize)%nat -> length (ecb_blocks block_Encrypt k n p) = (n * BlockSize)%nat.
Proof using Hlen.
  revert p. induction n as [|n IH]; intros p Hp; [done |]. cbn [ecb_blocks].
  rewrite length_app, IH by (rewrite length_drop; lia). rewrite Hlen; [lia |].
  rewrite length_take. lia.
Qed.

Lemma ecb_inj k n p1 p2 :
  length p1 = (n * BlockSize)%nat -> length p2 = (n * BlockSize)%nat ->
  ecb_blocks block_Encrypt k n p1 = ecb_blocks block_Encrypt k n p2 -> p1 = p2.
Proof using Hlen Hinj.
  revert p1 p2. induction n as [|n IH]; intros p1 p2 H1 H2 Heq.
  { apply length_zero_iff_nil in H1, H2. congruence. }
  assert (T1 : length (take BlockSize p1) = BlockSize) by (rewrite length_take; lia).
  assert (T2 : length (take BlockSize p2) = BlockSize) by (rewrite length_take; lia).
  cbn [ecb_blocks] in Heq. apply app_inj_1 in Heq as [Hb Hr]; [|by rewrite !Hlen].
  apply Hinj in Hb; [|done..]. apply IH in Hr; [|rewrite length_drop; lia..].
  rewrite <- (take_drop BlockSize p1), <- (take_drop BlockSize p2). congruence.
Qed.
End cipher_facts.

(** ** Base64 facts *)
Lemma b64_char_inj a b : 0 <= a < 64 -> 0 <= b < 64 -> b64_char a = b64_char b -> a = b.
Proof.
  intros Ha Hb Heq. unfold b64_char in Heq.
  assert (Hn : NoDup b64_alphabet) by (apply (bool_decide_unpack _); by vm_compute).
  assert (Hl : forall z, 0 <= z < 64 -> is_Some (b64_alphabet !! Z.to_nat z)).
  { intros z Hz. apply lookup_lt_is_Some_2. change (length b64_alphabet) with 64%nat. lia. }
  destruct (Hl a Ha) as [x Hx], (Hl b Hb) as [y Hy]. rewrite Hx, Hy in Heq. simpl in Heq. subst y.
  pose proof (NoDup_lookup _ _ _ _ Hn Hx Hy). lia.
Qed.

Lemma byte_Z_inj x y : Z_of_byte x = Z_of_byte y -> x = y.
Proof. intros H. rewrite <- (byte_of_Z_of_byte x), H. apply byte_of_Z_of_byte. Qed.

(** Three bytes are determined by their four characters. *)
Lemma b64_quantum n m :
  0 <= n < 16777216 -> 0 <= m < 16777216 ->
  b64_char (n / 262144) = b64_char (m / 262144) ->
  b64_char (n / 4096 mod 64) = b64_char (m / 4096 mod 64) ->
  b64_char (n / 64 mod 64) = b64_char (m / 64 mod 64) ->
  b64_char (n mod 64) = b64_char (m mod 64) -> n = m.
Proof.
  intros Hn Hm H1 H2 H3 H4.
  assert (Hd : forall z, 0 <= z < 16777216 -> 0 <= z / 262144 < 64 /\ z = ((z / 262144 * 64
    + z / 4096 mod 64) * 64 + z / 64 mod 64) * 64 + z mod 64).
  { intros z Hz. replace (z / 262144) with (z / 4096 / 64) by (rewrite Z.div_div by lia; done).
    replace (z / 4096) with (z / 64 / 64) by (rewrite Z.div_div by lia; done).
    pose proof (Z.div_mod z 64 ltac:(lia)). pose proof (Z.mod_pos_bound z 64 ltac:(lia)).
    pose proof (Z.div_mod (z / 64) 64 ltac:(lia)). pose proof (Z.mod_pos_bound (z / 64) 64 ltac:(lia)).
    pose proof (Z.div_mod (z / 64 / 64) 64 ltac:(lia)).
    pose proof (Z.mod_pos_bound (z / 64 / 64) 64 ltac:(lia)). lia. }
  destruct (Hd n Hn) as [Hn1 Hn2], (Hd m Hm) as [Hm1 Hm2].
  apply b64_char_inj in H1; [|done..].
  apply b64_char_inj in H2; [|apply Z.mod_pos_bound; lia..].
  apply b64_char_inj in H3; [|apply Z.mod_pos_bound; lia..].
  apply b64_char_inj in H4; [|apply Z.mod_pos_bound; lia..].
  rewrite Hn2, Hm2. congruence.
Qed.

Lemma alphabet_not_pad n : 0 <= n < 64 -> b64_char n <> b64_pad.
Proof.
  intros Hn. assert (Hall : Forall (fun x => x <> b64_pad) b64_alphabet)
    by (apply (bool_decide_unpack _); vm_compute; exact I).
  rewrite Forall_forall in Hall. apply Hall. unfold b64_char.
  destruct (b64_alphabet !! Z.to_nat n) as [x|] eqn:E; simpl.
  - by eapply list_elem_of_lookup_2.
  - apply lookup_ge_None in E. change (length b64_alphabet) with 64%nat in E. lia.
Qed.

Lemma EncodeToString_cons3 x y z b :
  EncodeToString (x :: y :: z :: b)
    = let n := (Z_of_byte x * 256 + Z_of_byte y) * 256 + Z_of_byte z in
      b64_char (n / 262144) :: b64_char (n / 4096 mod 64) :: b64_char (n / 64 mod 64)
        :: b64_char (n mod 64) :: EncodeToString b.
Proof. done. Qed.

Ltac bytes_bounds :=
  repeat match goal with
  | x : Byte.byte |- _ =>
      lazymatch goal with
      | _ : 0 <= Z_of_byte x < 256 |- _ => fail
      | _ => pose proof (Z_of_byte_range x)
      end
  end.

Lemma b64_inj3 x y z x' y' z' :
  take 4 (EncodeToString [x; y; z]) = take 4 (EncodeToString [x'; y'; z']) ->
  x = x' /\ y = y' /\ z = z'.
Proof.
  rewrite !EncodeToString_cons3. intros [= H1 H2 H3 H4].
  bytes_bounds. apply b64_quantum in H1; [|lia|lia|done..].
  split_and!; apply byte_Z_inj; lia.
Qed.

Lemma b64_inj1 x x' : EncodeToString [x] = EncodeToString [x'] -> x = x'.
Proof.
  intros [= H1 H2]. bytes_bounds. apply byte_Z_inj.
  pose proof (Z.div_mod (Z_of_byte x) 4 ltac:(lia)). pose proof (Z.mod_pos_bound (Z_of_byte x) 4 ltac:(lia)).
  pose proof (Z.div_mod (Z_of_byte x') 4 ltac:(lia)). pose proof (Z.mod_pos_bound (Z_of_byte x') 4 ltac:(lia)).
  apply b64_char_inj in H1; [|lia..]. apply b64_char_inj in H2; [|lia..]. lia.
Qed.

Lemma b64_inj2 x y x' y' : EncodeToString [x; y] = EncodeToString [x'; y'] -> x = x' /\ y = y'.
Proof.
  intros [= H1 H2 H3]. bytes_bounds.
  set (n := Z_of_byte x * 256 + Z_of_byte y) in *. set (m := Z_of_byte x' * 256 + Z_of_byte y') in *.
  assert (Hd : forall z, 0 <= z < 65536 -> 0 <= z / 1024 < 64
    /\ z = (z / 1024 * 64 + z / 16 mod 64) * 16 + z mod 16).
  { intros z Hz. replace (z / 1024) with (z / 16 / 64) by (rewrite Z.div_div by lia; done).
    pose proof (Z.div_mod z 16 ltac:(lia)). pose proof (Z.mod_pos_bound z 16 ltac:(lia)).
    pose proof (Z.div_mod (z / 16) 64 ltac:(lia)). pose proof (Z.mod_pos_bound (z / 16) 64 ltac:(lia)).
    lia. }
  destruct (Hd n ltac:(lia)) as [Hn1 Hn2], (Hd m ltac:(lia)) as [Hm1 Hm2].
  pose proof (Z.mod_pos_bound n 16 ltac:(lia)). pose proof (Z.mod_pos_bound m 16 ltac:(lia)).
  apply b64_char_inj in H1; [|done..]. apply b64_char_inj in H2; [|apply Z.mod_pos_bound; lia..].
  apply b64_char_inj in H3; [|lia..]. assert (n = m) by lia. split; apply byte_Z_inj; lia.
Qed.

Lemma EncodeToString_inj b1 b2 : EncodeToString b1 = EncodeToString b2 -> b1 = b2.
Proof.
  remember (length b1) as n eqn:Hn. revert b1 b2 Hn.
  induction n as [n IH] using lt_wf_ind; intros b1 b2 Hn Heq.
  destruct b1 as [|x [|y [|z b1]]], b2 as [|x' [|y' [|z' b2]]]; try done.
  - by apply b64_inj1 in Heq as ->.
  - exfalso. injection Heq as _ _ H. bytes_bounds. symmetry in H.
    apply alphabet_not_pad in H; [done |]. pose proof (Z.mod_pos_bound (Z_of_byte x' * 256 + Z_of_byte y') 16). lia.
  - exfalso. injection Heq as _ _ H _. symmetry in H.
    apply alphabet_not_pad in H; [done |]. apply Z.mod_pos_bound. lia.
  - exfalso. injection Heq as _ _ H. bytes_bounds.
    apply alphabet_not_pad in H; [done |]. pose proof (Z.mod_pos_bound (Z_of_byte x * 256 + Z_of_byte y) 16). lia.
  - by apply b64_inj2 in Heq as [-> ->].
  - exfalso. injection Heq as _ _ _ H. symmetry in H.
    apply alphabet_not_pad in H; [done |]. apply Z.mod_pos_bound. lia.
  - exfalso. injection Heq as _ _ H _. apply alphabet_not_pad in H; [done |]. apply Z.mod_pos_bound. lia.
  - exfalso. injection Heq as _ _ _ H. apply alphabet_not_pad in H; [done |]. apply Z.mod_pos_bound. lia.
  - assert (H3 : x = x' /\ y = y' /\ z = z').
    { apply b64_inj3. rewrite !EncodeToString_cons3 in *. injection Heq as H1 H2 H3 H4 _.
      simpl. congruence. }
    destruct H3 as (-> & -> & ->). rewrite !EncodeToString_cons3 in Heq. injection Heq as Heq.
    f_equal. f_equal. f_equal. apply (IH (length b1)); [simpl in Hn; lia | done | done].
Qed.

(** ** The whole transformation *)

(** Encrypting a trade password never fails, its ciphertext before Base64 is a
    whole number of blocks and longer than the password, and different passwords
    give different results: nothing is lost or truncated. *)
Theorem encrypt_trade_password_total (block_Encrypt : bytestr -> bytestr -> bytestr) (p q : bytestr) :
  (forall k b, length b = BlockSize -> length (block_Encrypt k b) = BlockSize) ->
  (forall k b1 b2, length b1 = BlockSize -> length b2 = BlockSize ->
    block_Encrypt k b1 = block_Encrypt k b2 -> b1 = b2) ->
  exists c, EncryptTradePassword block_Encrypt p = inl (EncodeToString c)
    /\ length c = (S (length p / BlockSize) * BlockSize)%nat
    /\ (EncryptTradePassword block_Encrypt q = inl (EncodeToString c) -> p = q).
Proof.
  intros Hlen Hinj. unfold EncryptTradePassword.
  destruct (DecodeString tradePasswordKeyBase64) as [key|] eqn:Hk; [|by vm_compute in Hk].
  assert (Hkl : length key = 24%nat) by (vm_compute in Hk; by injection Hk as <-).
  unfold encryptECB. rewrite decide_False by lia.
  assert (Hpl : forall d, length (pkcs7Pad d BlockSize)
    = (length (pkcs7Pad d BlockSize) / BlockSize * BlockSize)%nat).
  { intros d. rewrite pkcs7Pad_length. rewrite Nat.div_mul; done. }
  eexists. split; [done |]. split.
  - rewrite ecb_length by done. by rewrite <- Hpl, pkcs7Pad_length.
  - intros Hq. rewrite decide_False in Hq by lia. apply (inj inl) in Hq. apply EncodeToString_inj in Hq.
    assert (Hll : length (pkcs7Pad q BlockSize) = length (pkcs7Pad p BlockSize)).
    { apply (f_equal length) in Hq. by rewrite !ecb_length, <- !Hpl in Hq by done. }
    rewrite Hll in Hq. symmetry in Hq. apply ecb_inj in Hq; [by apply pkcs7Pad_inj | done | done | apply Hpl |].
    rewrite <- Hll. apply Hpl.
Qed.

(** ** Witnesses *)
Lemma encrypt_trade_password_total_witness :
  exists c, EncryptTradePassword (fun _ b => b) [Byte.x61; Byte.x62] = inl (EncodeToString c)
    /\ length c = 16%nat.
Proof.
  destruct (encrypt_trade_password_total (fun _ b => b) [Byte.x61; Byte.x62] [] ltac:(done) ltac:(done))
    as (c & Hc & Hl & _).
  exists c. exact (conj Hc Hl).
Defined.
