(* ===== verification/Session.v ===== *)
(** Trade-session management: [src/internal/session/state.go] and
    [src/pkg/hstong/session.go].

    The three-state machine, and the [SessionManager] that coalesces concurrent
    logins. A step is what a goroutine does while it holds [mu] (the condition
    variable re-acquires it), or one request to the Gateway. *)
From S2P Require Import Prelude Types Errs.

Create HintDb session.

(** ** The machine *)
Definition LoggedOut : Z := 0.
Definition LoggingIn : Z := 1.
Definition LoggedIn : Z := 2.

Definition State_String (s : Z) : string :=
  switch s [(LoggedOut, "logged_out"); (LoggingIn, "logging_in"); (LoggedIn, "logged_in")] "unknown".

Definition BeginLogin (s : Z) : bool * Z :=
  if decide (s <> LoggedOut) then (false, s) else (true, LoggingIn).
Definition LoginSucceeded (s : Z) : Z := if decide (s = LoggingIn) then LoggedIn else s.
Definition LoginFailed (s : Z) : Z := if decide (s = LoggingIn) then LoggedOut else s.
Definition Machine_Logout (s : Z) : Z := LoggedOut.

(** ** The manager *)

(** Where a call is. The numbers of [PWait] are ghost: how many logins had
    succeeded and how many logouts completed when the wait began. *)
Inductive pc :=
  | PWait (successes logouts : nat)     (** [EnsureLoggedIn], in [cond.Wait] *)
  | PFlight                             (** in [finishLogin], the request under way *)
  | PReset                              (** [ReLogin], about to call [EnsureLoggedIn] *)
  | PLogout                             (** [Logout], the request under way *)
  | PDone (result : option error).

#[global] Instance pc_flight_dec p : Decision (p = PFlight).
Proof. destruct p; first [by left | by right]. Defined.

Record manager := mkManager {
  state : Z;
  loginErr : option error;
  calls : gmap nat pc;
  successes : nat;
  logouts : nat;
}.

Definition NewSessionManager : manager := mkManager LoggedOut None ∅ 0 0.

Definition set_call (t : nat) (p : pc) (m : manager) : manager :=
  mkManager (state m) (loginErr m) (<[t := p]> (calls m)) (successes m) (logouts m).
Definition set_state (s : Z) (m : manager) : manager :=
  mkManager s (loginErr m) (calls m) (successes m) (logouts m).

(** [EnsureLoggedIn] up to its first wait or its return. *)
Definition EnsureLoggedIn (t : nat) (m : manager) : manager :=
  if decide (state m = LoggedIn) then set_call t (PDone None) m
  else if decide (state m = LoggingIn) then set_call t (PWait (successes m) (logouts m)) m
  else
    let '(ok, s) := BeginLogin (state m) in
    if ok then set_call t PFlight (set_state s m)
    else set_call t (PWait (successes m) (logouts m)) (set_state s m).

(** A waiter that finds no login under way returns the last outcome. *)
Definition EnsureLoggedIn_wake (t : nat) (m : manager) : manager :=
  set_call t (PDone (loginErr m)) m.

(** [Login], once no login is under way. *)
Definition Login (t : nat) (m : manager) : manager :=
  let m := set_state (Machine_Logout (state m)) m in
  let '(ok, s) := BeginLogin (state m) in
  if ok then set_call t PFlight (set_state s m)
  else set_call t (PDone (Some (Errs.New "" "trade/TradeLogin" "session login is already in progress")))
         (set_state s m).

(** [ReLogin], once no login is under way, for a cause that requires it. *)
Definition ReLogin (t : nat) (cause : error) (m : manager) : manager :=
  if ReLoginRequired (Some cause) then set_call t PReset (set_state (Machine_Logout (state m)) m)
  else set_call t (PDone None) m.

(** [finishLogin] after [doLogin] returned [err]. *)
Definition finishLogin (t : nat) (err : option error) (m : manager) : manager :=
  let s := match err with None => LoginSucceeded (state m) | Some _ => LoginFailed (state m) end in
  mkManager s err (<[t := PDone err]> (calls m))
    (match err with None => S (successes m) | Some _ => successes m end) (logouts m).

Definition Logout (t : nat) (m : manager) : manager :=
  if decide (state m = LoggedIn) then set_call t PLogout m else set_call t (PDone None) m.

(** [Logout] after the Gateway answered. *)
Definition finishLogout (t : nat) (err : option error) (m : manager) : manager :=
  match err with
  | Some e => set_call t (PDone (Some e)) m
  | None =>
      mkManager (Machine_Logout (state m)) None (<[t := PDone None]> (calls m)) (successes m)
        (S (logouts m))
  end.

Inductive step : manager -> manager -> Prop :=
  | step_ensure m t : calls m !! t = None -> step m (EnsureLoggedIn t m)
  | step_wake m t a b :
      calls m !! t = Some (PWait a b) -> state m <> LoggingIn -> step m (EnsureLoggedIn_wake t m)
  | step_login m t : calls m !! t = None -> state m <> LoggingIn -> step m (Login t m)
  | step_relogin m t cause : calls m !! t = None -> state m <> LoggingIn -> step m (ReLogin t cause m)
  | step_relogin_ensure m t : calls m !! t = Some PReset -> step m (EnsureLoggedIn t m)
  | step_finish m t err : calls m !! t = Some PFlight -> step m (finishLogin t err m)
  | step_logout m t : calls m !! t = None -> step m (Logout t m)
  | step_finish_logout m t err : calls m !! t = Some PLogout -> step m (finishLogout t err m).

Inductive reachable : manager -> Prop :=
  | reach_new : reachable NewSessionManager
  | reach_step m m' : reachable m -> step m m' -> reachable m'.

(** The calls whose login request is under way. *)
Definition flights (m : manager) : gset nat :=
  dom (filter (fun kv => kv.2 = PFlight) (calls m)).

Lemma elem_of_flights t m : t ∈ flights m <-> calls m !! t = Some PFlight.
Proof.
  unfold flights. rewrite elem_of_dom. split.
  - intros [p Hp]. apply map_lookup_filter_Some in Hp as [Hp Hf]. simpl in Hf. by subst.
  - intros Ht. exists PFlight. by apply map_lookup_filter_Some.
Qed.

(** Histories in which no logout completes while a login is under way. *)
Inductive quiet : manager -> Prop :=
  | quiet_new : quiet NewSessionManager
  | quiet_step m m' :
      quiet m -> step m m' -> (logouts m' = logouts m \/ flights m = ∅) -> quiet m'.

(** ** Single flight *)
Record single (m : manager) : Prop := {
  si_state : state m = LoggedOut \/ state m = LoggingIn \/ state m = LoggedIn;
  si_none : state m <> LoggingIn -> flights m = ∅;
  si_one : state m = LoggingIn -> exists t, flights m = {[t]};
}.

Lemma flights_set_call t p m :
  p <> PFlight -> flights (set_call t p m) = flights m ∖ {[t]}.
Proof.
  intros Hp. apply set_eq. intros u. rewrite elem_of_difference, elem_of_singleton, !elem_of_flights.
  simpl. rewrite lookup_insert_Some. split.
  - intros [[_ Hx] | [Hne Hu]]; [congruence | split; [done | congruence]].
  - intros [Hu Hne]. right. split; [congruence | done].
Qed.

Lemma flights_start t m : flights (set_call t PFlight m) = flights m ∪ {[t]}.
Proof.
  apply set_eq. intros u. rewrite elem_of_union, elem_of_singleton, !elem_of_flights.
  simpl. rewrite lookup_insert_Some. destruct (decide (u = t)) as [->|Hne]; [intuition|].
  split; [intros [[]|[_ ?]]; [congruence | by left] | intros [Hu|]; [right; by split | congruence]].
Qed.

Lemma flights_set_state s m : flights (set_state s m) = flights m.
Proof. done. Qed.

Lemma flights_calls m m' : calls m = calls m' -> flights m = flights m'.
Proof. unfold flights. by intros ->. Qed.

Lemma EnsureLoggedIn_single t m :
  calls m !! t <> Some PFlight -> single m -> single (EnsureLoggedIn t m).
Proof.
  intros Ht [Hs Hn Ho].
  assert (Hnot : t ∉ flights m) by (by rewrite elem_of_flights).
  unfold EnsureLoggedIn. case_decide as H1; [|case_decide as H2].
  - split; simpl; [auto | | by rewrite H1].
    intros _. rewrite flights_set_call by done. rewrite Hn by (by rewrite H1). set_solver.
  - split; simpl; [auto | done |]. intros _. destruct (Ho H2) as [u Hu]. exists u.
    rewrite flights_set_call by done. set_solver.
  - assert (H3 : state m = LoggedOut) by (destruct Hs as [?|[?|?]]; congruence).
    unfold BeginLogin. rewrite H3. rewrite decide_False by auto.
    split; simpl; [auto | done |]. intros _. exists t. rewrite flights_start, flights_set_state, Hn by done.
    set_solver.
Qed.

Lemma single_step m m' :
  single m -> step m m' -> (logouts m' = logouts m \/ flights m = ∅) -> single m'.
Proof.
  intros Hi Hstep Hq. destruct Hstep as [m t Ht|m t a b Ht Hst|m t Ht Hst|m t cause Ht Hst|m t Ht|m t err Ht|m t Ht|m t err Ht].
  - apply EnsureLoggedIn_single; [congruence | done].
  - destruct Hi as [Hs Hn Ho]. split; simpl; [auto | | done].
    intros _. unfold EnsureLoggedIn_wake. rewrite flights_set_call, Hn by done. set_solver.
  - destruct Hi as [Hs Hn Ho]. unfold Login, BeginLogin, Machine_Logout. simpl.
    split; simpl; [auto | done |]. intros _. exists t. rewrite flights_start, !flights_set_state, Hn by done.
    set_solver.
  - destruct Hi as [Hs Hn Ho]. unfold ReLogin. destruct (ReLoginRequired (Some cause)).
    + split; simpl; [auto | | done]. intros _. rewrite flights_set_call, flights_set_state, Hn by done.
      set_solver.
    + split; simpl; [auto | | done]. intros _. rewrite flights_set_call, Hn by done. set_solver.
  - apply EnsureLoggedIn_single; [congruence | done].
  - destruct Hi as [Hs Hn Ho]. apply elem_of_flights in Ht.
    assert (Hst : state m = LoggingIn).
    { destruct (decide (state m = LoggingIn)); [done |]. rewrite Hn in Ht by done. set_solver. }
    destruct (Ho Hst) as [u Hu].
    assert (Hf : flights (finishLogin t err m) = ∅).
    { rewrite (flights_calls _ (set_call t (PDone err) m)) by done.
      rewrite flights_set_call by done. rewrite Hu in *. apply elem_of_singleton in Ht as ->.
      by rewrite difference_diag_L. }
    unfold finishLogin in *. rewrite Hst in *. destruct err; simpl in *; split; simpl; auto; done.
  - destruct Hi as [Hs Hn Ho]. unfold Logout. case_decide as H1.
    + split; simpl; [auto | | by rewrite H1]. intros Hx. rewrite flights_set_call, Hn by done. set_solver.
    + split; simpl; [auto | |].
      * intros Hx. rewrite flights_set_call, Hn by done. set_solver.
      * intros Hx. destruct (Ho Hx) as [u Hu]. exists u. rewrite flights_set_call by done.
        assert (t ∉ flights m) by (by rewrite elem_of_flights, Ht). set_solver.
  - destruct Hi as [Hs Hn Ho]. assert (Hnot : t ∉ flights m) by (by rewrite elem_of_flights, Ht).
    unfold finishLogout in *. destruct err as [e|].
    + split; simpl; [auto | |].
      * intros Hx. rewrite flights_set_call, Hn by done. set_solver.
      * intros Hx. destruct (Ho Hx) as [u Hu]. exists u. rewrite flights_set_call by done. set_solver.
    + simpl in Hq. destruct Hq as [Hq | Hq]; [lia |].
      split; simpl; [auto | | done]. intros _.
      rewrite (flights_calls _ (set_call t (PDone None) m)) by done.
      rewrite flights_set_call, Hq by done. set_solver.
Qed.

Lemma quiet_single m : quiet m -> single m.
Proof.
  induction 1 as [|m m' _ IH Hs Hq]; [|by eapply single_step].
  split; simpl; [auto | | done]. intros _. apply set_eq. intros u. rewrite elem_of_flights. simpl.
  rewrite lookup_empty. set_solver.
Qed.

(** As long as no logout completes during a login, at most one login request
    is under way at any time, and exactly one while the state is [LoggingIn]:
    concurrent [EnsureLoggedIn], [Login] and [ReLogin] calls are coalesced. *)
Theorem session_single_flight (m : manager) :
  quiet m ->
  (size (flights m) <= 1)%nat /\ (state m = LoggingIn <-> flights m <> ∅)
  /\ (state m = LoggedOut \/ state m = LoggingIn \/ state m = LoggedIn).
Proof.
  intros [Hs Hn Ho]%quiet_single. split_and!; [| |done].
  - destruct (decide (state m = LoggingIn)) as [H|H].
    + destruct (Ho H) as [t ->]. by rewrite size_singleton.
    + rewrite Hn by done. by rewrite size_empty; lia.
  - split; [intros H; destruct (Ho H) as [t ->]; set_solver |].
    intros Hne. destruct (decide (state m = LoggingIn)); [done |]. by rewrite Hn in Hne.
Qed.

(** ** What a waiter is told *)
Definition waiter_inv (m : manager) : Prop :=
  forall t a b, calls m !! t = Some (PWait a b) ->
    (a <= successes m)%nat /\ (b <= logouts m)%nat
    /\ (state m = LoggingIn \/ loginErr m <> None \/ (a < successes m)%nat \/ (b < logouts m)%nat).

Lemma waiter_set_call t p m :
  (forall a b, p = PWait a b -> state m = LoggingIn /\ a = successes m /\ b = logouts m) ->
  waiter_inv m -> waiter_inv (set_call t p m).
Proof.
  intros Hp Hi u a b. simpl. rewrite lookup_insert_Some. intros [[-> ->] | [_ Hu]]; [|eauto].
  destruct (Hp a b eq_refl) as (? & -> & ->). auto.
Qed.

Lemma waiter_set_state s m :
  state m <> LoggingIn \/ s = LoggingIn -> waiter_inv m -> waiter_inv (set_state s m).
Proof.
  intros Hs Hi t a b Ht. destruct (Hi t a b Ht) as (H1 & H2 & H3). simpl.
  split_and!; [done | done |]. destruct Hs as [Hs | ->]; [|by left].
  destruct H3 as [H3 | H3]; [done | by right].
Qed.

Definition state_valid (m : manager) : Prop :=
  state m = LoggedOut \/ state m = LoggingIn \/ state m = LoggedIn.

Lemma ensure_valid t m : state_valid m -> state_valid (EnsureLoggedIn t m).
Proof.
  intros Hv. unfold EnsureLoggedIn, BeginLogin. repeat case_decide; try done. by right; left.
Qed.

Lemma valid_step m m' : step m m' -> state_valid m -> state_valid m'.
Proof.
  destruct 1; intros Hv; try (by apply ensure_valid); try done.
  - by right; left.
  - unfold ReLogin. destruct (ReLoginRequired _); [by left | done].
  - unfold finishLogin, state_valid, LoginSucceeded, LoginFailed in *. simpl.
    destruct err; case_decide; auto.
  - unfold Logout. by case_decide.
  - destruct err; [done | by left].
Qed.

Lemma waiter_ensure t m : state_valid m -> waiter_inv m -> waiter_inv (EnsureLoggedIn t m).
Proof.
  intros Hv Hi. unfold EnsureLoggedIn. case_decide; [by apply waiter_set_call |].
  case_decide as Hl.
  - apply waiter_set_call; [|done]. intros a b [= <- <-]. done.
  - unfold BeginLogin. rewrite decide_False by (destruct Hv as [->|[?|?]]; intros Hx; by apply Hx).
    apply waiter_set_call; [done |]. apply waiter_set_state; [by right | done].
Qed.

Lemma waiter_step m m' : step m m' -> state_valid m -> waiter_inv m -> waiter_inv m'.
Proof.
  destruct 1; intros Hv Hi; try (by apply waiter_ensure).
  - by apply waiter_set_call.
  - unfold Login, BeginLogin, Machine_Logout. simpl. apply waiter_set_call; [done |].
    apply waiter_set_state; [by right |]. by apply waiter_set_state; [left |].
  - unfold ReLogin. destruct (ReLoginRequired _); apply waiter_set_call; try done.
    by apply waiter_set_state; [left |].
  - intros u a b. unfold finishLogin. simpl. rewrite lookup_insert_Some. intros [[_ ?] | [_ Hu]]; [done |].
    destruct (Hi u a b Hu) as (H1 & H2 & H3). destruct err; simpl; split_and!; try lia; auto.
  - unfold Logout. case_decide; by apply waiter_set_call.
  - destruct err; simpl; [by apply waiter_set_call |].
    intros u a b. simpl. rewrite lookup_insert_Some. intros [[_ ?] | [_ Hu]]; [done |].
    destruct (Hi u a b Hu) as (H1 & H2 & H3). simpl. split_and!; try lia.
Qed.

Lemma reachable_waiter m : reachable m -> state_valid m /\ waiter_inv m.
Proof.
  induction 1 as [|m m' _ [IH1 IH2] Hs].
  - split; [by left |]. intros t a b. simpl. by rewrite lookup_empty.
  - split; [by eapply valid_step | by eapply waiter_step].
Qed.

(** A caller of [EnsureLoggedIn] that waited for another's login is told it
    succeeded only if a login did succeed, or a logout completed, after its wait
    began; otherwise it is told the error of the last login. *)
Theorem session_waiter_outcome (m : manager) (t a b : nat) :
  reachable m -> calls m !! t = Some (PWait a b) -> state m <> LoggingIn ->
  calls (EnsureLoggedIn_wake t m) !! t = Some (PDone (loginErr m))
  /\ (loginErr m = None -> (a < successes m)%nat \/ (b < logouts m)%nat).
Proof.
  intros [_ Hi]%reachable_waiter Ht Hs. split; [simpl; by rewrite lookup_insert_eq |].
  intros He. destruct (Hi t a b Ht) as (_ & _ & [H | [H | [H | H]]]); auto; done.
Qed.

(** One more step of a concrete history. *)
Tactic Notation "advance" hyp(H) uconstr(c) :=
  match type of H with
  | reachable ?m =>
      let H' := fresh in
      eassert (H' : step m _) by (eapply c; vm_compute; first [reflexivity | congruence]);
      apply (reach_step _ _ H) in H'; vm_compute in H'; clear H; rename H' into H
  end.

(** A logout that completes while a forced re-login is under way breaks the
    coalescing: a waiter is told it is logged in although no login ever
    succeeded after it asked, and two login requests are under way together. *)
Theorem session_logout_race :
  exists m t1 t2 t3, reachable m /\ t1 <> t2
    /\ calls m !! t1 = Some PFlight /\ calls m !! t2 = Some PFlight
    /\ calls m !! t3 = Some (PDone None) /\ successes m = 1%nat /\ state m = LoggingIn.
Proof.
  pose proof reach_new as H.
  (* 0 logs in; 1 starts a logout; 2 is told to log in again and starts a flight;
     3 waits for it; the logout completes; 3 is released; 4 starts a second flight. *)
  advance H (step_ensure _ 0%nat).
  advance H (step_finish _ 0%nat None).
  advance H (step_logout _ 1%nat).
  advance H (step_relogin _ 2%nat (Errs.New StatusNotLoggedIn "" "")).
  advance H (step_relogin_ensure _ 2%nat).
  advance H (step_ensure _ 3%nat).
  advance H (step_finish_logout _ 1%nat None).
  advance H (step_wake _ 3%nat 1%nat 0%nat).
  advance H (step_ensure _ 4%nat).
  eexists _, 2%nat, 4%nat, 3%nat. split; [exact H |]. by vm_compute.
Qed.

(** ** Witnesses *)
Lemma session_single_flight_witness : (size (flights (EnsureLoggedIn 0 NewSessionManager)) <= 1)%nat.
Proof.
  refine (proj1 (session_single_flight (EnsureLoggedIn 0 NewSessionManager) _)).
  eapply quiet_step; [apply quiet_new | by apply step_ensure | by left].
Defined.

Lemma session_waiter_outcome_witness :
  exists m, reachable m /\ calls (EnsureLoggedIn_wake 1 m) !! 1%nat = Some (PDone None).
Proof.
  pose proof reach_new as H.
  advance H (step_ensure _ 0%nat).
  advance H (step_ensure _ 1%nat).
  advance H (step_finish _ 0%nat None).
  eexists. split; [exact H |].
  exact (proj1 (session_waiter_outcome _ 1%nat 0%nat 0%nat H eq_refl ltac:(vm_compute; congruence))).
Defined.
