(* ===== verification/Auth.v ===== *)
(** Session and token lifecycle: [src/internal/auth].

    The session store is an interface ([SessionStore]) with its laws
    ([LawfulStore]) and the in-memory implementation. [Authenticator.Login] is a
    step relation: a step is one critical section of the [TokenManager], one call
    of the store, or one call of the injected login function. *)
From Stdlib.Floats Require Import SpecFloat.
From S2P Require Import Prelude Types Errs Crypto.

Create HintDb auth.

(** ** Durations in seconds

    [Duration.Seconds] adds the whole seconds and the rest in [float64];
    converting to [int64] truncates. *)
Definition f64_of_Z (z : Z) : spec_float := binary_normalize 53 1024 z 0 false.
Definition f64_add : spec_float -> spec_float -> spec_float := SFadd 53 1024.
Definition f64_div : spec_float -> spec_float -> spec_float := SFdiv 53 1024.

Definition int64_of_f64 (f : spec_float) : Z :=
  match f with
  | S754_finite s m e =>
      let a := if decide (0 <= e) then Z.shiftl (Zpos m) e else Z.shiftr (Zpos m) (- e) in
      if s then - a else a
  | _ => 0
  end.

Definition Duration_Seconds (d : Z) : spec_float :=
  f64_add (f64_of_Z (Z.quot d 1000000000))
    (f64_div (f64_of_Z (Z.rem d 1000000000)) (f64_of_Z 1000000000)).

(** ** Sessions and stores *)
Record Session := mkSession {
  Token : string;
  AccountID : string;
  Expiry : Z;
  RefreshAt : Z;
}.

Definition zeroSession : Session := mkSession "" "" 0 0.

#[global] Instance Session_eq_dec : EqDecision Session.
Proof. solve_decision. Defined.

Definition IsExpired (s : Session) (now : Z) : bool := bool_decide (Expiry s <= now).
Definition ShouldRefresh (s : Session) (now : Z) : bool := bool_decide (RefreshAt s <= now).

Class SessionStore (S : Type) := {
  Store_Session : string -> S -> (option Session + error) * S;
  Store_SaveSession : Session -> S -> option error * S;
  Store_ClearSession : string -> S -> option error * S;
}.

(** What a store promises: a call that reports no error did its work, and a read
    changes nothing. *)
Class LawfulStore (S : Type) `{SessionStore S} := {
  contents : S -> gmap string Session;
  Session_law a s r s' : Store_Session a s = (r, s') ->
    contents s' = contents s /\ match r with inl o => o = contents s !! a | inr _ => True end;
  SaveSession_law x s s' : Store_SaveSession x s = (None, s') ->
    contents s' = <[AccountID x := x]> (contents s);
  ClearSession_law a s s' : Store_ClearSession a s = (None, s') ->
    contents s' = delete a (contents s);
}.

(** *** The in-memory store *)
Abbreviation inMemoryStore := (gmap string Session).

Definition NewInMemoryStore : inMemoryStore := ∅.

Definition inMemory_Session (accountID : string) (s : inMemoryStore)
    : (option Session + error) * inMemoryStore := (inl (s !! accountID), s).
Definition inMemory_SaveSession (sess : Session) (s : inMemoryStore)
    : option error * inMemoryStore := (None, <[AccountID sess := sess]> s).
Definition inMemory_ClearSession (accountID : string) (s : inMemoryStore)
    : option error * inMemoryStore := (None, delete accountID s).

#[global] Instance inMemory_store : SessionStore inMemoryStore := {
  Store_Session := inMemory_Session;
  Store_SaveSession := inMemory_SaveSession;
  Store_ClearSession := inMemory_ClearSession;
}.

#[global] Instance inMemory_lawful : LawfulStore inMemoryStore.
Proof.
  refine {| contents := fun s => s |}.
  - by intros a s r s' [= <- <-].
  - by intros x s s' [= <-].
  - by intros a s s' [= <-].
Defined.

(** ** The token manager *)
Definition defaultTokenTTL : Z := 3 * 3600 * 1000000000.
Definition defaultRefreshWindow : Z := 10 * 60 * 1000000000.

(** The clock is read by the caller: [now] is an argument of the operations. *)
Inductive TokenManagerOption :=
  | WithClock
  | WithTokenTTL (ttl : Z).

Record TokenManager := mkTokenManager { tokenTTL : Z; refreshWindow : Z }.

Definition apply_option (tm : TokenManager) (o : TokenManagerOption) : TokenManager :=
  match o with
  | WithClock => tm
  | WithTokenTTL ttl => mkTokenManager ttl (refreshWindow tm)
  end.

Definition NewTokenManager (opts : list TokenManagerOption) : TokenManager :=
  foldl apply_option (mkTokenManager defaultTokenTTL defaultRefreshWindow) opts.

(** The session [SaveToken] stores. *)
Definition token_session (tm : TokenManager) (now : Z) (accountID token : string) : Session :=
  mkSession token accountID
    (swrap 64 (now + int64_of_f64 (Duration_Seconds (tokenTTL tm))))
    (swrap 64 (now + int64_of_f64 (Duration_Seconds (swrap 64 (tokenTTL tm - refreshWindow tm))))).

Record LoginRequest := mkLoginRequest {
  lr_AccountID : string;
  TradePassword : string;
  EncryptionSalt : string;
}.

(** [AuthError] values are package variables; [Error] joins code and message. *)
Definition AuthError_Error (code msg : string) : string := code +:+ ": " +:+ msg.

Definition errSessionNotStored : error := ESentinel (AuthError_Error "session_not_stored"
  "login succeeded but the session could not be read back from the store").
Definition errNotLoggedIn : error := ESentinel (AuthError_Error "not_logged_in" "user is not logged in").
Definition errTokenExpired : error := ESentinel (AuthError_Error "token_expired" "session token has expired").

(** Where a call of [Authenticator.Login] is. *)
Inductive apc :=
  | AWait (acct : string) (done : option nat)   (** waiting for another's flight *)
  | ALogin (req : LoginRequest)                 (** leader, the login function next *)
  | ASave (acct token : string)                 (** leader, saving the token *)
  | ARead (acct : string)                       (** leader, reading the session back *)
  | AFollow (acct : string)                     (** woken waiter, reading the session *)
  | AEnd (acct : string) (r : outcome (Session + error))   (** deferred [endLogin] next *)
  | ADone (r : outcome (Session + error)).

(** The account a call leads the login of. *)
Definition leads (p : apc) : option string :=
  match p with
  | ALogin req => Some (lr_AccountID req)
  | ASave acct _ | ARead acct | AEnd acct _ => Some acct
  | _ => None
  end.

(** The authenticator with its token manager. Channels are numbered; [closed]
    are the closed ones and [next_ch] the next to be made. *)
Record auth (S : Type) := mkAuth {
  store : S;
  pending : gset string;
  flights : gmap string nat;
  closed : gset nat;
  next_ch : nat;
  acalls : gmap nat apc;
}.
Arguments mkAuth {S} _ _ _ _ _ _.
Arguments store {S} _.
Arguments pending {S} _.
Arguments flights {S} _.
Arguments closed {S} _.
Arguments next_ch {S} _.
Arguments acalls {S} _.

Section authenticator.
Context {S : Type} `{SessionStore S}.

Definition NewAuthenticator (s : S) : auth S := mkAuth s ∅ ∅ ∅ 0 ∅.

Definition set_acall (t : nat) (p : apc) (a : auth S) : auth S :=
  mkAuth (store a) (pending a) (flights a) (closed a) (next_ch a) (<[t := p]> (acalls a)).

Definition set_store (s : S) (a : auth S) : auth S :=
  mkAuth s (pending a) (flights a) (closed a) (next_ch a) (acalls a).

Definition IsLoginInProgress (acct : string) (a : auth S) : bool := bool_decide (acct ∈ pending a).

Definition markLoginPending (acct : string) (a : auth S) : auth S :=
  mkAuth (store a) ({[acct]} ∪ pending a) (flights a) (closed a) (next_ch a) (acalls a).

Definition clearLoginPending (acct : string) (a : auth S) : auth S :=
  mkAuth (store a) (pending a ∖ {[acct]}) (flights a) (closed a) (next_ch a) (acalls a).

Definition beginLogin (acct : string) (a : auth S) : option nat * bool * auth S :=
  if decide (acct ∈ pending a) then (flights a !! acct, false, a)
  else
    (Some (next_ch a), true,
     mkAuth (store a) ({[acct]} ∪ pending a) (<[acct := next_ch a]> (flights a)) (closed a)
       (next_ch a + 1) (acalls a)).

Definition endLogin (acct : string) (a : auth S) : auth S :=
  mkAuth (store a) (pending a ∖ {[acct]}) (delete acct (flights a))
    (match flights a !! acct with Some ch => {[ch]} ∪ closed a | None => closed a end)
    (next_ch a) (acalls a).

Definition GetSession (acct : string) (a : auth S) : (option Session + error) * auth S :=
  let '(r, s) := Store_Session acct (store a) in (r, set_store s a).

Definition SaveToken (tm : TokenManager) (now : Z) (acct token : string) (a : auth S)
    : option error * auth S :=
  let '(e, s) := Store_SaveSession (token_session tm now acct token) (store a) in (e, set_store s a).

Definition ClearToken (acct : string) (a : auth S) : option error * auth S :=
  let '(e, s) := Store_ClearSession acct (store a) in (e, set_store s a).

(** [Authenticator.Logout] clears locally. *)
Definition Logout : string -> auth S -> option error * auth S := ClearToken.

Definition sessionFromStore (acct : string) (a : auth S) : (Session + error) * auth S :=
  match GetSession acct a with
  | (inr e, a) => (inr e, a)
  | (inl None, a) => (inr errSessionNotStored, a)
  | (inl (Some sess), a) => (inl sess, a)
  end.

Definition MustBeAuthenticated (now : Z) (acct : string) (a : auth S) : option error * auth S :=
  match GetSession acct a with
  | (inr e, a) => (Some e, a)
  | (inl None, a) => (Some errNotLoggedIn, a)
  | (inl (Some sess), a) => (if IsExpired sess now then Some errTokenExpired else None, a)
  end.

(** *** [Login] *)
Definition Login (t : nat) (req : LoginRequest) (a : auth S) : auth S :=
  let '(done, leader, a) := beginLogin (lr_AccountID req) a in
  set_acall t (if leader : bool then ALogin req else AWait (lr_AccountID req) done) a.

Definition Login_reply (t : nat) (acct : string) (r : outcome (string + error)) (a : auth S) : auth S :=
  set_acall t
    match r with
    | Ret (inl token) => ASave acct token
    | Ret (inr e) => AEnd acct (Ret (inr e))
    | Panic => AEnd acct Panic
    end a.

Definition Login_save (t : nat) (tm : TokenManager) (now : Z) (acct token : string) (a : auth S) : auth S :=
  let '(e, a) := SaveToken tm now acct token a in
  set_acall t (match e with Some e => AEnd acct (Ret (inr e)) | None => ARead acct end) a.

Definition Login_read (t : nat) (acct : string) (a : auth S) : auth S :=
  let '(r, a) := sessionFromStore acct a in set_acall t (AEnd acct (Ret r)) a.

Definition Login_follow (t : nat) (acct : string) (a : auth S) : auth S :=
  let '(r, a) := sessionFromStore acct a in set_acall t (ADone (Ret r)) a.

Definition Login_end (t : nat) (acct : string) (r : outcome (Session + error)) (a : auth S) : auth S :=
  set_acall t (ADone r) (endLogin acct a).

(** [EncryptTradePassword] on Go strings. *)
Definition encrypt (block_Encrypt : bytestr -> bytestr -> bytestr) (plaintext : string) : string + error :=
  match EncryptTradePassword block_Encrypt (String.list_byte_of_string plaintext) with
  | inl c => inl (String.string_of_list_byte c)
  | inr e => inr e
  end.

(** The outcomes the login function may have on the encrypted request. *)
Definition login_outcome (block_Encrypt : bytestr -> bytestr -> bytestr)
    (loginFn : LoginRequest -> outcome (string + error) -> Prop)
    (req : LoginRequest) (r : outcome (string + error)) : Prop :=
  match encrypt block_Encrypt (TradePassword req) with
  | inr e => r = Ret (inr e)
  | inl encrypted =>
      loginFn (mkLoginRequest (lr_AccountID req) encrypted (EncryptionSalt req)) r
  end.

(** *** The flights *)
Record ainv (a : auth S) : Prop := {
  ai_led t p acct : acalls a !! t = Some p -> leads p = Some acct -> acct ∈ pending a;
  ai_one t1 t2 p1 p2 acct : acalls a !! t1 = Some p1 -> acalls a !! t2 = Some p2 ->
    leads p1 = Some acct -> leads p2 = Some acct -> t1 = t2;
  ai_leader acct : acct ∈ pending a -> exists t p, acalls a !! t = Some p /\ leads p = Some acct;
  ai_flight acct : acct ∈ pending a <-> is_Some (flights a !! acct);
  ai_open acct ch : flights a !! acct = Some ch -> (ch ∉ closed a) /\ (ch < next_ch a)%nat;
  ai_closed ch : ch ∈ closed a -> (ch < next_ch a)%nat;
  ai_inj a1 a2 ch : flights a !! a1 = Some ch -> flights a !! a2 = Some ch -> a1 = a2;
  ai_wait t acct ch : acalls a !! t = Some (AWait acct ch) ->
    exists c, ch = Some c /\ ((c ∈ closed a) \/ flights a !! acct = Some c);
}.

Lemma ainv_new s : ainv (NewAuthenticator s).
Proof using Type.
  split; simpl; intros *; rewrite ?lookup_empty; try done; set_solver.
Qed.

Lemma ainv_set_store s a : ainv a -> ainv (set_store s a).
Proof using Type. intros [? ? ? ? ? ? ? ?]. by split. Qed.

(** A call moves on without starting or ending a lead. *)
Lemma ainv_set_acall t p p0 a :
  acalls a !! t = Some p0 -> leads p = leads p0 ->
  (forall acct ch, p <> AWait acct ch) ->
  ainv a -> ainv (set_acall t p a).
Proof using Type.
  intros Ht Hl Hw [Hled Hone Hlead Hfl Hop Hcl Hinj Hwait]. split; simpl; try done.
  - intros u q acct [[<- <-]|[Hne Hu]]%lookup_insert_Some Hq; [|by eapply Hled].
    eapply Hled; [exact Ht | congruence].
  - intros t1 t2 p1 p2 acct [[<- <-]|[H1 E1]]%lookup_insert_Some [[<- <-]|[H2 E2]]%lookup_insert_Some L1 L2.
    + done.
    + eapply (Hone _ _ p0 p2 acct); congruence.
    + eapply (Hone _ _ p1 p0 acct); congruence.
    + by eapply (Hone _ _ p1 p2 acct).
  - intros acct Hp. destruct (Hlead acct Hp) as (u & q & Hu & Hq).
    destruct (decide (u = t)) as [->|Hne].
    + exists t, p. rewrite lookup_insert_eq. split; [done | congruence].
    + exists u, q. by rewrite lookup_insert_ne.
  - intros u acct ch [[<- Hq]|[Hne Hu]]%lookup_insert_Some; [by apply Hw in Hq | by eapply Hwait].
Qed.

Lemma ainv_begin t req a : acalls a !! t = None -> ainv a -> ainv (Login t req a).
Proof using Type.
  intros Ht [Hled Hone Hlead Hfl Hop Hcl Hinj Hwait]. unfold Login, beginLogin.
  assert (Hnt : forall u p, acalls a !! u = Some p -> u <> t) by congruence.
  set (acct := lr_AccountID req). case_decide as Hp; simpl.
  - split; simpl; try done.
    + intros u q b [[<- <-]|[_ Hu]]%lookup_insert_Some; [done | by eapply Hled].
    + intros t1 t2 p1 p2 b [[<- <-]|[_ E1]]%lookup_insert_Some [[<- <-]|[_ E2]]%lookup_insert_Some;
        try done. by eapply Hone.
    + intros b Hb. destruct (Hlead b Hb) as (u & q & Hu & Hq). exists u, q.
      rewrite lookup_insert_ne by (intros ->; congruence). done.
    + intros u b ch [[<- [= <- <-]]|[_ Hu]]%lookup_insert_Some; [|by eapply Hwait].
      apply Hfl in Hp as [c Hc]. exists c. auto.
  - assert (Hnf : flights a !! acct = None).
    { destruct (flights a !! acct) eqn:E; [|done]. destruct Hp. apply Hfl. by rewrite E. }
    split; simpl.
    + intros u q b [[<- <-]|[_ Hu]]%lookup_insert_Some Hq; simpl in *; simplify_eq; [set_solver |].
      apply elem_of_union_r. by eapply Hled.
    + intros t1 t2 p1 p2 b [[<- <-]|[_ E1]]%lookup_insert_Some [[<- <-]|[_ E2]]%lookup_insert_Some L1 L2;
        simpl in *; simplify_eq; try done.
      * destruct Hp. by eapply Hled.
      * destruct Hp. by eapply Hled.
      * by eapply (Hone _ _ p1 p2).
    + intros b [->%elem_of_singleton|Hb]%elem_of_union.
      * exists t, (ALogin req). by rewrite lookup_insert_eq.
      * destruct (Hlead b Hb) as (u & q & Hu & Hq). exists u, q.
        rewrite lookup_insert_ne by (intros ->; congruence). done.
    + intros b. rewrite elem_of_union, elem_of_singleton, lookup_insert_is_Some, Hfl.
      destruct (decide (acct = b)); naive_solver.
    + intros b ch [[<- <-]|[_ Hb]]%lookup_insert_Some.
      * split; [|lia]. intros Hin%Hcl. lia.
      * destruct (Hop b ch Hb). split; [done | lia].
    + intros ch Hin%Hcl. lia.
    + intros a1 a2 ch [[<- <-]|[_ H1]]%lookup_insert_Some [[<- Hx]|[_ H2]]%lookup_insert_Some; try done.
      * apply Hop in H2. lia.
      * subst. apply Hop in H1. lia.
      * by eapply Hinj.
    + intros u b ch [[_ Hq]|[_ Hu]]%lookup_insert_Some; [done |].
      destruct (Hwait u b ch Hu) as (c & -> & [Hc|Hc]); exists c; split; auto.
      right. rewrite lookup_insert_ne by congruence. done.
Qed.

Lemma ainv_end t acct r a :
  acalls a !! t = Some (AEnd acct r) -> ainv a -> ainv (Login_end t acct r a).
Proof using Type.
  intros Ht [Hled Hone Hlead Hfl Hop Hcl Hinj Hwait].
  assert (Hp : acct ∈ pending a) by by eapply Hled.
  destruct (proj1 (Hfl acct) Hp) as [ch Hch]. unfold Login_end, endLogin. rewrite Hch.
  assert (Hothers : forall u q, u <> t -> acalls a !! u = Some q -> leads q <> Some acct).
  { intros u q Hne Hu Hq. apply Hne. by eapply (Hone u t q (AEnd acct r) acct). }
  split; simpl.
  - intros u q b [[<- <-]|[Hne Hu]]%lookup_insert_Some Hq; [done |].
    assert (b <> acct) by (intros ->; by eapply (Hothers u q)).
    pose proof (Hled _ _ _ Hu Hq). set_solver.
  - intros t1 t2 p1 p2 b [[<- <-]|[_ E1]]%lookup_insert_Some [[<- <-]|[_ E2]]%lookup_insert_Some; try done.
    by eapply Hone.
  - intros b [Hb Hne]%elem_of_difference. destruct (Hlead b Hb) as (u & q & Hu & Hq). exists u, q.
    rewrite lookup_insert_ne; [done |]. intros <-. rewrite Ht in Hu. simplify_eq/=. set_solver.
  - intros b. rewrite elem_of_difference, elem_of_singleton, lookup_delete_is_Some, Hfl. naive_solver.
  - intros b c [Hne Hb]%lookup_delete_Some. destruct (Hop b c Hb) as [Hb1 Hb2]. split; [|done].
    intros [->%elem_of_singleton|?]%elem_of_union; [|done]. apply Hne. by eapply Hinj.
  - intros c [->%elem_of_singleton|Hc]%elem_of_union; [by apply Hop in Hch as [] | by apply Hcl].
  - intros a1 a2 c [_ H1]%lookup_delete_Some [_ H2]%lookup_delete_Some. by eapply Hinj.
  - intros u b c [[_ Hq]|[_ Hu]]%lookup_insert_Some; [done |].
    destruct (Hwait u b c Hu) as (d & -> & [Hd|Hd]); exists d; split; auto; [set_solver |].
    destruct (decide (b = acct)) as [->|Hne]; [left; rewrite Hch in Hd; set_solver |].
    right. by rewrite lookup_delete_ne.
Qed.

Context (block_Encrypt : bytestr -> bytestr -> bytestr).
Context (loginFn : LoginRequest -> outcome (string + error) -> Prop).
Context (tm : TokenManager).

(** A step of call [t]. *)
Inductive astep (t : nat) (a : auth S) : auth S -> Prop :=
  | astep_begin req : acalls a !! t = None -> astep t a (Login t req a)
  | astep_wake acct ch : acalls a !! t = Some (AWait acct (Some ch)) -> ch ∈ closed a ->
      astep t a (set_acall t (AFollow acct) a)
  | astep_cancel acct ch e : acalls a !! t = Some (AWait acct ch) -> is_ctx_err e = true ->
      astep t a (set_acall t (ADone (Ret (inr e))) a)
  | astep_reply req r : acalls a !! t = Some (ALogin req) ->
      login_outcome block_Encrypt loginFn req r ->
      astep t a (Login_reply t (lr_AccountID req) r a)
  | astep_save acct token now : acalls a !! t = Some (ASave acct token) ->
      astep t a (Login_save t tm now acct token a)
  | astep_read acct : acalls a !! t = Some (ARead acct) -> astep t a (Login_read t acct a)
  | astep_follow acct : acalls a !! t = Some (AFollow acct) -> astep t a (Login_follow t acct a)
  | astep_end acct r : acalls a !! t = Some (AEnd acct r) -> astep t a (Login_end t acct r a).

(** Other users of the authenticator: logouts and reads only touch the store. *)
Inductive areachable (s0 : S) : auth S -> Prop :=
  | areach_new : areachable s0 (NewAuthenticator s0)
  | areach_step t a a' : areachable s0 a -> astep t a a' -> areachable s0 a'
  | areach_store a s : areachable s0 a -> areachable s0 (set_store s a).

Lemma ainv_step t a a' : astep t a a' -> ainv a -> ainv a'.
Proof using Type.
  destruct 1 as [req Ht|acct ch Ht Hc|acct ch e Ht He|req r Ht Hr|acct token now Ht|acct Ht|acct Ht|acct r Ht];
    intros Hi.
  - by apply ainv_begin.
  - by eapply ainv_set_acall.
  - by eapply ainv_set_acall.
  - unfold Login_reply.
    destruct r as [[]|]; (eapply ainv_set_acall; [exact Ht | reflexivity | discriminate | exact Hi]).
  - unfold Login_save, SaveToken. destruct (Store_SaveSession _ _) as [[e|] s];
      (eapply ainv_set_acall; [exact Ht | done | done | by apply ainv_set_store]).
  - unfold Login_read, sessionFromStore, GetSession. destruct (Store_Session _ _) as [[[x|]|e] s];
      (eapply ainv_set_acall; [exact Ht | done | done | by apply ainv_set_store]).
  - unfold Login_follow, sessionFromStore, GetSession. destruct (Store_Session _ _) as [[[x|]|e] s];
      (eapply ainv_set_acall; [exact Ht | done | done | by apply ainv_set_store]).
  - by apply ainv_end.
Qed.

Lemma ainv_reachable s0 a : areachable s0 a -> ainv a.
Proof using Type.
  induction 1; [apply ainv_new | by eapply ainv_step | by apply ainv_set_store].
Qed.

(** The step of a leader only concerns its own call. *)
Lemma astep_leader t a a' p acct :
  astep t a a' -> acalls a !! t = Some p -> leads p = Some acct ->
  exists p', acalls a' = <[t := p']> (acalls a)
    /\ (leads p' = Some acct \/ exists r, p' = ADone r).
Proof using Type.
  destruct 1 as [req Ht|b ch Ht Hc|b ch e Ht He|req r Ht Hr|b token now Ht|b Ht|b Ht|b r Ht];
    rewrite Ht; intros [= <-] Hl; simpl in Hl; simplify_eq.
  - eexists. split; [done |]. left. by destruct r as [[]|].
  - unfold Login_save, SaveToken. destruct (Store_SaveSession _ _) as [[e|] s]; eexists; (split; [done | by left]).
  - unfold Login_read, sessionFromStore, GetSession. destruct (Store_Session _ _) as [[[x|]|e] s];
      eexists; (split; [done | by left]).
  - eexists. split; [done | eauto].
Qed.

(** C20: at most one call leads the login of an account at any time, an account is
    pending exactly while such a call exists (also when its login function
    panics), its channel is open until then, and a waiter's channel is closed or
    is the one its leader will close: no waiter is stranded and no channel is
    closed twice. *)
Theorem auth_flight_exclusive (s0 : S) (a : auth S) (acct : string) :
  areachable s0 a ->
  (forall t1 t2 p1 p2, acalls a !! t1 = Some p1 -> acalls a !! t2 = Some p2 ->
     leads p1 = Some acct -> leads p2 = Some acct -> t1 = t2)
  /\ (IsLoginInProgress acct a = true <-> exists t p, acalls a !! t = Some p /\ leads p = Some acct)
  /\ (forall t ch, acalls a !! t = Some (AWait acct ch) ->
        exists c, ch = Some c /\ (c ∈ closed a
          \/ (flights a !! acct = Some c /\ exists u p, acalls a !! u = Some p /\ leads p = Some acct)))
  /\ (forall ch, flights a !! acct = Some ch -> ch ∉ closed a).
Proof using Type.
  intros [Hled Hone Hlead Hfl Hop Hcl Hinj Hwait]%ainv_reachable. split_and!.
  - intros *. apply Hone.
  - unfold IsLoginInProgress. rewrite bool_decide_eq_true. split; [apply Hlead |].
    intros (t & p & Ht & Hp). by eapply Hled.
  - intros t ch Ht. destruct (Hwait t acct ch Ht) as (c & -> & [Hc|Hc]); exists c; split; auto.
    right. split; [done |]. apply Hlead, Hfl. by rewrite Hc.
  - intros ch Hch. by apply (Hop acct).
Qed.
End authenticator.

(** ** Lifetime of a session *)
Lemma token_session_default now acct token :
  in_s 64 (now + 10800) -> in_s 64 now ->
  token_session (NewTokenManager [WithClock]) now acct token
    = mkSession token acct (now + 10800) (now + 10200).
Proof.
  intros H1 H2. unfold token_session.
  replace (int64_of_f64 (Duration_Seconds (tokenTTL (NewTokenManager [WithClock])))) with 10800
    by by vm_compute.
  replace (int64_of_f64 (Duration_Seconds (swrap 64 (tokenTTL (NewTokenManager [WithClock])
    - refreshWindow (NewTokenManager [WithClock]))))) with 10200 by by vm_compute.
  unfold in_s in *. rewrite !swrap_id by (unfold in_s; lia). done.
Qed.

Section lifetime.
Context {S : Type} `{LawfulStore S}.

Lemma GetSession_lawful acct (a a' : auth S) r :
  GetSession acct a = (r, a') ->
  contents (store a') = contents (store a)
  /\ match r with inl o => o = contents (store a) !! acct | inr _ => True end.
Proof using Type.
  unfold GetSession. destruct (Store_Session acct (store a)) as [r' s'] eqn:E. intros [= <- <-].
  by apply Session_law in E.
Qed.

(** Over a lawful store, a token saved at [now] by an authenticator with the
    default lifetime is the session read back afterwards; [MustBeAuthenticated]
    accepts it for exactly three hours, it is due for refresh for the last ten
    minutes of them, and after a logout it is not found any more. A failing store
    is reported, never taken for the absence of a session. *)
Theorem auth_session_lifetime (a a1 a2 a3 : auth S) (now now' : Z) (acct token : string) r :
  in_s 64 now -> in_s 64 (now + 10800) ->
  SaveToken (NewTokenManager [WithClock]) now acct token a = (None, a1) ->
  MustBeAuthenticated now' acct a1 = (r, a2) ->
  let sess := mkSession token acct (now + 10800) (now + 10200) in
  (r = None <-> now' < now + 10800 /\ fst (GetSession acct a1) = inl (Some sess))
  /\ (now + 10800 <= now' -> r = Some errTokenExpired \/ exists e, fst (GetSession acct a1) = inr e /\ r = Some e)
  /\ (ShouldRefresh sess now' = true <-> now + 10200 <= now')
  /\ (Logout acct a2 = (None, a3) -> forall now'',
        fst (MustBeAuthenticated now'' acct a3) = Some errNotLoggedIn
        \/ exists e, fst (GetSession acct a3) = inr e
             /\ fst (MustBeAuthenticated now'' acct a3) = Some e).
Proof using H0.
  intros Hn1 Hn2 Hsave Hmust sess. unfold SaveToken in Hsave.
  rewrite token_session_default in Hsave by done. fold sess in Hsave.
  destruct (Store_SaveSession sess (store a)) as [e s] eqn:Es. injection Hsave as -> <-.
  apply SaveSession_law in Es. set (a1 := set_store s a) in *.
  assert (Hl : contents (store a1) !! acct = Some sess) by (simpl; rewrite Es; apply lookup_insert_eq).
  unfold MustBeAuthenticated in Hmust. destruct (GetSession acct a1) as [g a1'] eqn:Eg.
  destruct (GetSession_lawful _ _ _ _ Eg) as [Hc1 Hg].
  split_and!.
  - destruct g as [o|e]; simplify_eq/=.
    + rewrite Hl in Hmust. unfold IsExpired in Hmust. simpl in Hmust. rewrite Hl.
      case_bool_decide; simplify_eq; split; try done; [intros [? _]; lia | intros _; split; [lia | done]].
    + split; [done | by intros [_ ?]].
  - intros Hle. destruct g as [o|e]; simplify_eq/=; [|right; by exists e].
    left. rewrite Hl in Hmust. unfold IsExpired in Hmust. simpl in Hmust.
    rewrite bool_decide_true in Hmust by lia. congruence.
  - unfold ShouldRefresh. simpl. apply bool_decide_eq_true.
  - intros Hlo now''. unfold Logout, ClearToken in Hlo.
    destruct (Store_ClearSession acct (store a2)) as [e s2] eqn:Ec. injection Hlo as -> <-.
    apply ClearSession_law in Ec. unfold MustBeAuthenticated.
    destruct (GetSession acct (set_store s2 a2)) as [g2 a4] eqn:Eg2.
    destruct (GetSession_lawful _ _ _ _ Eg2) as [_ Hg2]. simpl in Hg2. rewrite Ec, lookup_delete_eq in Hg2.
    destruct g2 as [o|e]; subst; [by left | right; by exists e].
Qed.
End lifetime.

(** ** Followers of a failed login *)

(** A login function that is refused. *)
Definition refused (req : LoginRequest) (r : outcome (string + error)) : Prop :=
  r = Ret (inr (Errs.New "" "trade/TradeLogin" "trade login was rejected")).

(** The history: call 0 leads, call 1 joins, the login is refused, call 1 wakes. *)
Definition example_req : LoginRequest := mkLoginRequest "A" "pw" "".
Definition refusal : outcome (Session + error) :=
  Ret (inr (Errs.New "" "trade/TradeLogin" "trade login was rejected")).
Definition example_joined (s : inMemoryStore) : auth inMemoryStore :=
  Login 1 example_req (Login 0 example_req (NewAuthenticator s)).
Definition example_followed (s : inMemoryStore) : auth inMemoryStore :=
  let a := Login_reply 0 "A" (Ret (inr (Errs.New "" "trade/TradeLogin" "trade login was rejected")))
    (example_joined s) in
  Login_follow 1 "A" (set_acall 1 (AFollow "A") (Login_end 0 "A" refusal a)).

Lemma example_joined_reachable s :
  areachable (fun _ b => b) refused (NewTokenManager []) s (example_joined s).
Proof.
  eapply areach_step; [|eapply astep_begin; vm_compute; reflexivity].
  eapply areach_step; [|eapply astep_begin; vm_compute; reflexivity].
  apply areach_new.
Qed.

Lemma example_followed_reachable s :
  areachable (fun _ b => b) refused (NewTokenManager []) s (example_followed s).
Proof.
  unfold example_followed.
  eapply (areach_step _ _ _ _ 1%nat); [|eapply astep_follow; vm_compute; reflexivity].
  eapply (areach_step _ _ _ _ 1%nat); [|eapply (astep_wake _ _ _ _ _ _ 0%nat)].
  - eapply (areach_step _ _ _ _ 0%nat); [|eapply astep_end; vm_compute; reflexivity].
    eapply (areach_step _ _ _ _ 0%nat);
      [apply example_joined_reachable | eapply (astep_reply _ _ _ _ _ example_req)].
    + vm_compute. reflexivity.
    + vm_compute. reflexivity.
  - vm_compute. reflexivity.
  - vm_compute. reflexivity.
Qed.

(** A caller that waited for a login which the Gateway refused is not told so:
    it is told that the login succeeded but the session could not be read back,
    or, when an old session is still stored, it gets that session and no error. *)
Theorem auth_follower_misled (old : Session) :
  exists a1 a2 : auth inMemoryStore,
    areachable (fun _ b => b) refused (NewTokenManager []) ∅ a1
    /\ areachable (fun _ b => b) refused (NewTokenManager []) {["A" := old]} a2
    /\ (exists e, acalls a1 !! 0%nat = Some (ADone (Ret (inr e))) /\ e <> errSessionNotStored)
    /\ acalls a1 !! 1%nat = Some (ADone (Ret (inr errSessionNotStored)))
    /\ (exists e, acalls a2 !! 0%nat = Some (ADone (Ret (inr e))))
    /\ acalls a2 !! 1%nat = Some (ADone (Ret (inl old))).
Proof.
  exists (example_followed ∅), (example_followed {["A" := old]}).
  split; [apply example_followed_reachable |]. split; [apply example_followed_reachable |].
  split_and!.
  - eexists. split; [vm_compute; reflexivity | discriminate].
  - vm_compute. reflexivity.
  - eexists. vm_compute. reflexivity.
  - vm_compute. reflexivity.
Qed.

(** ** Witnesses *)
Lemma auth_flight_exclusive_witness :
  IsLoginInProgress "A" (example_joined ∅) = true
  /\ exists t p, acalls (example_joined ∅) !! t = Some p /\ leads p = Some "A".
Proof.
  split; [vm_compute; reflexivity |].
  apply (proj1 (proj2 (auth_flight_exclusive _ _ _ _ _ "A" (example_joined_reachable ∅)))).
  vm_compute. reflexivity.
Defined.

Lemma auth_session_lifetime_witness :
  exists a1, SaveToken (NewTokenManager [WithClock]) 100 "A" "tok" (NewAuthenticator (∅ : inMemoryStore)) = (None, a1)
    /\ (fst (MustBeAuthenticated 10899 "A" a1) = None).
Proof.
  eexists. split; [reflexivity |].
  destruct (MustBeAuthenticated 10899 "A" (snd (SaveToken (NewTokenManager [WithClock]) 100 "A" "tok"
    (NewAuthenticator (∅ : inMemoryStore))))) as [r a2] eqn:E.
  assert (Hr : r = None).
  { apply (proj1 (auth_session_lifetime (NewAuthenticator (∅ : inMemoryStore)) _ a2 a2 100 10899 "A" "tok" r
      ltac:(split; vm_compute; congruence) ltac:(split; vm_compute; congruence) eq_refl E)).
    split; [lia | by vm_compute]. }
  subst r. exact (f_equal fst E).
Defined.
