(* ===== verification/SessionService.v ===== *)
(** The trade-session use cases: [src/pkg/services/session.go].

    [SessionService.Login] is a step relation over the authenticator of [Auth]:
    a step is one store call, one critical section of the login gate, one step of
    [Authenticator.Login], or one request. The [Executor] the service is built on
    is an interface of the source and a relation here. *)
From S2P Require Import Prelude Types Errs Crypto Auth.

Create HintDb session_service.

(** ** Domain values: [src/pkg/domain/session.go] *)
Record TradeSessionWire := mkWire { Data : string; Success : option bool }.

Definition zeroWire : TradeSessionWire := mkWire "" None.

Record TradeSession := mkTradeSession {
  ts_AccountID : string;
  ts_Token : string;
  ExpiresAt : Z;
  ts_RefreshAt : Z;
}.

Definition TradeSession_IsExpired (s : TradeSession) (now : Z) : bool := bool_decide (ExpiresAt s <= now).
Definition TradeSession_ShouldRefresh (s : TradeSession) (now : Z) : bool :=
  bool_decide (ts_RefreshAt s <= now).

Definition TradeSessionAcceptedFromDTO (v : option TradeSessionWire) : bool :=
  match v with
  | None => false
  | Some v =>
      match Success v with
      | Some b => b
      | None => bool_decide (Data v <> "")
      end
  end.

Definition tradeSessionFrom (s : Session) : TradeSession :=
  mkTradeSession (AccountID s) (Token s) (Expiry s) (RefreshAt s).

(** ** Requests *)
Definition opTradeLogin : string := "trade/TradeLogin".
Definition opTradeLogout : string := "trade/TradeLogout".

(** [sessionLoginWireRequest] and the empty struct of a logout. *)
Inductive params :=
  | sessionLoginWireRequest (Password : string)
  | emptyStruct.

(** What [Executor.Do] can do on [op] and a body: return an error or not, with
    what was decoded into [out], or panic. *)
Abbreviation executor := (string -> params -> outcome (option error * TradeSessionWire) -> Prop).

(** [wireLogin] and [Logout] after [client.Do]. *)
Definition wireLogin_result (r : outcome (option error * TradeSessionWire)) : outcome (string + error) :=
  match r with
  | Panic => Panic
  | Ret (Some e, _) => Ret (inr e)
  | Ret (None, out) =>
      if TradeSessionAcceptedFromDTO (Some out) then Ret (inl (Data out))
      else Ret (inr (Errs.New "" opTradeLogin "trade login was rejected"))
  end.

Definition wireLogin (Do : executor) (req : LoginRequest) (r : outcome (string + error)) : Prop :=
  exists out, Do opTradeLogin (sessionLoginWireRequest (TradePassword req)) out
    /\ r = wireLogin_result out.

Definition logout_result (r : outcome (option error * TradeSessionWire)) : outcome (option error) :=
  match r with
  | Panic => Panic
  | Ret (Some e, _) => Ret (Some e)
  | Ret (None, out) =>
      if TradeSessionAcceptedFromDTO (Some out) then Ret None
      else Ret (Some (Errs.New "" opTradeLogout "trade logout was rejected"))
  end.

Definition sessionUnusable (cause : option error) : bool :=
  match cause with
  | None => false
  | Some _ => bool_decide (CategoryOf cause = CategoryAccount)
  end.

(** ** The login gate *)
Record loginAttempt := mkAttempt {
  done : bool;
  sess : Session;
  err : option error;
  waiting : nat;
}.

(** Where a call is. The attempts are numbered. *)
Inductive spc :=
  | SGate (acct password : string)              (** [establish], about to [begin] *)
  | SJoin (acct : string) (id : nat)            (** waiting for the leader of an attempt *)
  | SLead (acct password : string) (id : nat)   (** [lead], about to re-read the store *)
  | SCall (acct password : string) (id : nat)   (** about to call [Authenticator.Login] *)
  | SAuth (acct : string) (id : nat)            (** inside [Authenticator.Login] *)
  | SDiscard (acct : string) (id : nat) (e : error)   (** about to [discardUnusable] *)
  | SPublish (acct : string) (id : nat) (s : Session) (e : option error)
  | SLogout (acct : string)                     (** logout request next *)
  | SClear (acct : string)                      (** logout acknowledged, clearing next *)
  | SLoginDone (r : outcome (TradeSession + error))
  | SLogoutDone (r : outcome (option error)).

(** The account and attempt a call is the leader of. *)
Definition leading (p : spc) : option (string * nat) :=
  match p with
  | SLead acct _ id | SCall acct _ id | SAuth acct id | SDiscard acct id _ | SPublish acct id _ _ =>
      Some (acct, id)
  | _ => None
  end.

(** [stuck] is ghost: the accounts whose leader died of a panic. *)
Record svc (S : Type) := mkSvc {
  auth_ : auth S;
  gate : gmap string nat;
  attempts : list loginAttempt;
  scalls : gmap nat spc;
  stuck : gset string;
}.
Arguments mkSvc {S} _ _ _ _ _.
Arguments auth_ {S} _.
Arguments gate {S} _.
Arguments attempts {S} _.
Arguments scalls {S} _.
Arguments stuck {S} _.

Section service.
Context {S : Type} `{SessionStore S}.

Definition NewSessionService (s : S) : svc S := mkSvc (NewAuthenticator s) ∅ [] ∅ ∅.

Definition set_scall (t : nat) (p : spc) (m : svc S) : svc S :=
  mkSvc (auth_ m) (gate m) (attempts m) (<[t := p]> (scalls m)) (stuck m).

Definition set_auth (a : auth S) (m : svc S) : svc S :=
  mkSvc a (gate m) (attempts m) (scalls m) (stuck m).

(** [begin]: join the attempt in flight or start one. *)
Definition begin (acct : string) (m : svc S) : nat * bool * svc S :=
  match gate m !! acct with
  | Some id =>
      (id, false,
       mkSvc (auth_ m) (gate m)
         (alter (fun a => mkAttempt (done a) (sess a) (err a) (waiting a + 1)) id (attempts m))
         (scalls m) (stuck m))
  | None =>
      (length (attempts m), true,
       mkSvc (auth_ m) (<[acct := length (attempts m)]> (gate m))
         (attempts m ++ [mkAttempt false zeroSession None 0]) (scalls m) (stuck m))
  end.

Definition gate_waiting (acct : string) (m : svc S) : nat :=
  match gate m !! acct with
  | Some id => match attempts m !! id with Some a => waiting a | None => 0%nat end
  | None => 0%nat
  end.

Definition publish (acct : string) (id : nat) (s : Session) (e : option error) (m : svc S) : svc S :=
  mkSvc (auth_ m) (delete acct (gate m))
    (alter (fun a => mkAttempt true s e (waiting a)) id (attempts m)) (scalls m) (stuck m).

(** ** The operations *)
Definition liveSession (now : Z) (acct : string) (a : auth S)
    : (option TradeSession + error) * auth S :=
  match GetSession acct a with
  | (inr e, a) => (inr e, a)
  | (inl None, a) => (inl None, a)
  | (inl (Some s), a) => (inl (if ShouldRefresh s now then None else Some (tradeSessionFrom s)), a)
  end.

(** [Login] after [establish]. *)
Definition Login_result (s : Session) (e : option error) : outcome (TradeSession + error) :=
  match e with
  | Some e => Ret (inr e)
  | None =>
      if decide (AccountID s = "") then
        Ret (inr (Errs.New "" opTradeLogin
          "the session store did not return the session that was just established"))
      else Ret (inl (tradeSessionFrom s))
  end.

(** [Login] up to the gate. *)
Definition Login (t : nat) (now : Z) (acct password : string) (m : svc S) : svc S :=
  if decide (acct = "") then
    set_scall t (SLoginDone (Ret (inr (Errs.New StatusInvalidParam opTradeLogin
      "accountID must not be empty")))) m
  else if decide (TrimSpace (text password) = []) then
    set_scall t (SLoginDone (Ret (inr (Errs.New StatusInvalidParam opTradeLogin
      "trade password must not be empty")))) m
  else
    let '(r, a) := liveSession now acct (auth_ m) in
    set_scall t
      match r with
      | inr e => SLoginDone (Ret (inr e))
      | inl (Some held) => SLoginDone (Ret (inl held))
      | inl None => SGate acct password
      end (set_auth a m).

Definition establish_begin (t : nat) (acct password : string) (m : svc S) : svc S :=
  let '(id, lead, m) := begin acct m in
  set_scall t (if lead : bool then SLead acct password id else SJoin acct id) m.

Definition establish_joined (t : nat) (a : loginAttempt) (m : svc S) : svc S :=
  set_scall t (SLoginDone (Login_result (sess a) (err a))) m.

(** [lead] up to the authenticator. *)
Definition lead_reread (t : nat) (now : Z) (acct password : string) (id : nat) (m : svc S) : svc S :=
  let '(r, a) := liveSession now acct (auth_ m) in
  set_scall t
    match r with
    | inl (Some held) =>
        SPublish acct id (mkSession (ts_Token held) (ts_AccountID held) (ExpiresAt held) (ts_RefreshAt held)) None
    | _ => SCall acct password id
    end (set_auth a m).

Definition lead_call (t : nat) (acct password : string) (id : nat) (m : svc S) : svc S :=
  set_scall t (SAuth acct id) (set_auth (Auth.Login t (mkLoginRequest acct password "") (auth_ m)) m).

(** The authenticator returned. *)
Definition lead_returned (t : nat) (acct : string) (id : nat) (r : outcome (Session + error)) (m : svc S) : svc S :=
  match r with
  | Ret (inl s) => set_scall t (SPublish acct id s None) m
  | Ret (inr e) => set_scall t (SDiscard acct id e) m
  | Panic =>
      let m := set_scall t (SLoginDone Panic) m in
      mkSvc (auth_ m) (gate m) (attempts m) (scalls m) ({[acct]} ∪ stuck m)
  end.

Definition discardUnusable (acct : string) (cause : error) (a : auth S) : auth S :=
  if sessionUnusable (Some cause) then snd (Auth.Logout acct a) else a.

Definition establish_discard (t : nat) (acct : string) (id : nat) (e : error) (m : svc S) : svc S :=
  set_scall t (SPublish acct id zeroSession (Some e)) (set_auth (discardUnusable acct e (auth_ m)) m).

Definition establish_publish (t : nat) (acct : string) (id : nat) (s : Session) (e : option error)
    (m : svc S) : svc S :=
  set_scall t (SLoginDone (Login_result s e)) (publish acct id s e m).

(** *** [Logout] *)
Definition Logout (t : nat) (acct : string) (m : svc S) : svc S :=
  if decide (acct = "") then
    set_scall t (SLogoutDone (Ret (Some (Errs.New StatusInvalidParam opTradeLogout
      "accountID must not be empty")))) m
  else
    let '(r, a) := GetSession acct (auth_ m) in
    set_scall t
      match r with
      | inr e => SLogoutDone (Ret (Some e))
      | inl None => SLogoutDone (Ret None)
      | inl (Some _) => SLogout acct
      end (set_auth a m).

Definition Logout_reply (t : nat) (acct : string) (r : outcome (option error)) (m : svc S) : svc S :=
  set_scall t match r with Ret None => SClear acct | r => SLogoutDone r end m.

Definition Logout_clear (t : nat) (acct : string) (m : svc S) : svc S :=
  let '(e, a) := Auth.Logout acct (auth_ m) in set_scall t (SLogoutDone (Ret e)) (set_auth a m).
End service.

(** ** Executions *)
Section executions.
Context {S : Type} `{SessionStore S}.
Context (block_Encrypt : bytestr -> bytestr -> bytestr) (Do : executor).

(** [NewSessionService] leaves the lifetimes at their defaults. *)
Definition service_tm : TokenManager := NewTokenManager [WithClock].

(** A step at time [now]. *)
Inductive step (now : Z) (m : svc S) : svc S -> Prop :=
  | step_login t acct pw : scalls m !! t = None -> step now m (Login t now acct pw m)
  | step_begin t acct pw : scalls m !! t = Some (SGate acct pw) -> step now m (establish_begin t acct pw m)
  | step_joined t acct id a : scalls m !! t = Some (SJoin acct id) -> attempts m !! id = Some a ->
      done a = true -> step now m (establish_joined t a m)
  | step_cancelled t acct id e : scalls m !! t = Some (SJoin acct id) -> is_ctx_err e = true ->
      step now m (set_scall t (SLoginDone (Ret (inr e))) m)
  | step_reread t acct pw id : scalls m !! t = Some (SLead acct pw id) ->
      step now m (lead_reread t now acct pw id m)
  | step_call t acct pw id : scalls m !! t = Some (SCall acct pw id) -> step now m (lead_call t acct pw id m)
  | step_auth t acct id a : scalls m !! t = Some (SAuth acct id) ->
      astep block_Encrypt (wireLogin Do) service_tm t (auth_ m) a -> step now m (set_auth a m)
  | step_returned t acct id r : scalls m !! t = Some (SAuth acct id) ->
      acalls (auth_ m) !! t = Some (ADone r) -> step now m (lead_returned t acct id r m)
  | step_discard t acct id e : scalls m !! t = Some (SDiscard acct id e) ->
      step now m (establish_discard t acct id e m)
  | step_publish t acct id s e : scalls m !! t = Some (SPublish acct id s e) ->
      step now m (establish_publish t acct id s e m)
  | step_logout t acct : scalls m !! t = None -> step now m (Logout t acct m)
  | step_logout_reply t acct out : scalls m !! t = Some (SLogout acct) ->
      Do opTradeLogout emptyStruct out -> step now m (Logout_reply t acct (logout_result out) m)
  | step_logout_clear t acct : scalls m !! t = Some (SClear acct) -> step now m (Logout_clear t acct m).

Inductive steps : svc S -> svc S -> Prop :=
  | steps_refl m : steps m m
  | steps_step now m1 m2 m3 : steps m1 m2 -> step now m2 m3 -> steps m1 m3.

Definition reachable (s0 : S) (m : svc S) : Prop := steps (NewSessionService s0) m.

(** *** The invariant of the gate *)
Definition before_auth (p : spc) : bool :=
  match p with SGate _ _ | SJoin _ _ | SLead _ _ _ | SCall _ _ _ => true | _ => false end.

Record sinv (m : svc S) : Prop := {
  si_auth : ainv (auth_ m);
  si_lead t p acct id : scalls m !! t = Some p -> leading p = Some (acct, id) ->
    gate m !! acct = Some id /\ (acct ∉ stuck m);
  si_one t1 t2 p1 p2 acct id1 id2 : scalls m !! t1 = Some p1 -> scalls m !! t2 = Some p2 ->
    leading p1 = Some (acct, id1) -> leading p2 = Some (acct, id2) -> t1 = t2;
  si_gate acct id : gate m !! acct = Some id ->
    (exists a, attempts m !! id = Some a /\ done a = false)
    /\ ((acct ∈ stuck m) \/ exists t p, scalls m !! t = Some p /\ leading p = Some (acct, id));
  si_inj a1 a2 id : gate m !! a1 = Some id -> gate m !! a2 = Some id -> a1 = a2;
  si_stuck acct : acct ∈ stuck m -> is_Some (gate m !! acct);
  si_join t acct id : scalls m !! t = Some (SJoin acct id) ->
    exists a, attempts m !! id = Some a /\ (done a = true \/ gate m !! acct = Some id);
  si_acall t p : acalls (auth_ m) !! t = Some p ->
    (exists q, scalls m !! t = Some q /\ before_auth q = false)
    /\ ((exists r, p = ADone r)
        \/ exists acct id, scalls m !! t = Some (SAuth acct id) /\ leads p = Some acct);
  si_sauth t acct id : scalls m !! t = Some (SAuth acct id) -> is_Some (acalls (auth_ m) !! t);
}.

Lemma sinv_new s : sinv (NewSessionService s).
Proof using Type.
  split; simpl; try apply ainv_new; intros *; rewrite ?lookup_empty; try done; set_solver.
Qed.

(** A call moves between places without starting or ending a lead, and without
    entering the authenticator; only the store may change. *)
Lemma sinv_move t p p0 s m :
  (scalls m !! t = None /\ p0 = SLoginDone Panic \/ scalls m !! t = Some p0) ->
  leading p = leading p0 ->
  (before_auth p = true -> acalls (auth_ m) !! t = None) ->
  (forall acct id, p <> SAuth acct id) ->
  (forall acct id, p0 = SAuth acct id -> exists r, acalls (auth_ m) !! t = Some (ADone r)) ->
  (forall acct id, p = SJoin acct id -> exists a, attempts m !! id = Some a
     /\ (done a = true \/ gate m !! acct = Some id)) ->
  sinv m -> sinv (set_scall t p (set_auth (Auth.set_store s (auth_ m)) m)).
Proof using Type.
  intros Ht Hl Hb Hna Hpa Hj [Ha Hlead Hone Hgate Hinj Hst Hjoin Hac Hsa]. split; simpl; try done.
  - by apply ainv_set_store.
  - intros u q acct id [[<- <-]|[Hne Hu]]%lookup_insert_Some Hq; [|by eapply Hlead].
    destruct Ht as [[_ ->]|Ht]; [by rewrite Hl in Hq |]. eapply Hlead; [exact Ht | congruence].
  - intros t1 t2 p1 p2 acct i1 i2 [[<- <-]|[H1 E1]]%lookup_insert_Some [[<- <-]|[H2 E2]]%lookup_insert_Some L1 L2;
      [done | | |by eapply (Hone _ _ p1 p2)]; (destruct Ht as [[_ ->]|Ht]; [simpl in *; congruence |]).
    + eapply (Hone _ _ p0 p2); [done | done | | done]. by rewrite <- Hl.
    + eapply (Hone _ _ p1 p0); [done | done | done |]. by rewrite <- Hl.
  - intros acct id Hg. destruct (Hgate acct id Hg) as [Hd [Hs|(u & q & Hu & Hq)]]; split; auto.
    right. destruct (decide (u = t)) as [->|Hne].
    + exists t, p. rewrite lookup_insert_eq. split; [done |]. destruct Ht as [[Ht _]|Ht]; congruence.
    + exists u, q. by rewrite lookup_insert_ne.
  - intros u acct id [[<- Hq]|[Hne Hu]]%lookup_insert_Some; [by apply Hj | by eapply Hjoin].
  - intros u q Hu. destruct (Hac u q Hu) as [(q1 & Hq1 & Hq2) Hq3].
    destruct (decide (t = u)) as [<-|Hne].
    + split; [exists p; rewrite lookup_insert_eq; split; [done |] |].
      * destruct (before_auth p); [|done]. rewrite Hb in Hu by done. done.
      * left. destruct Ht as [[Ht _]|Ht]; [congruence |].
        destruct Hq3 as [?|(b & i & Hq3 & _)]; [done |]. destruct (Hpa b i) as [r Hr]; [congruence |].
        exists r. congruence.
    + split; [exists q1; by rewrite lookup_insert_ne |].
      destruct Hq3 as [?|(b & i & Hq3 & ?)]; [by left | right; exists b, i; by rewrite lookup_insert_ne].
  - intros u acct id [[<- Hq]|[Hne Hu]]%lookup_insert_Some; [by apply Hna in Hq | by eapply Hsa].
Qed.

Lemma sinv_move_id t p p0 m :
  (scalls m !! t = None /\ p0 = SLoginDone Panic \/ scalls m !! t = Some p0) ->
  leading p = leading p0 ->
  (before_auth p = true -> acalls (auth_ m) !! t = None) ->
  (forall acct id, p <> SAuth acct id) ->
  (forall acct id, p0 = SAuth acct id -> exists r, acalls (auth_ m) !! t = Some (ADone r)) ->
  (forall acct id, p = SJoin acct id -> exists a, attempts m !! id = Some a
     /\ (done a = true \/ gate m !! acct = Some id)) ->
  sinv m -> sinv (set_scall t p m).
Proof using Type.
  intros. pose proof (sinv_move t p p0 (store (auth_ m)) m) as Hm.
  unfold set_auth, Auth.set_store in Hm. by destruct m as [[] ? ? ? ?]; apply Hm.
Qed.

Lemma GetSession_store acct (a : auth S) : exists s, snd (GetSession acct a) = Auth.set_store s a.
Proof using Type. unfold GetSession. destruct (Store_Session _ _). by eexists. Qed.

Lemma liveSession_store now acct (a : auth S) :
  exists s, snd (liveSession now acct a) = Auth.set_store s a.
Proof using Type.
  destruct (GetSession_store acct a) as [s Hs]. exists s. unfold liveSession.
  by destruct (GetSession acct a) as [[[]|] ?]; simpl in *.
Qed.

Lemma clear_store acct (a : auth S) : exists s, snd (Auth.Logout acct a) = Auth.set_store s a.
Proof using Type. unfold Auth.Logout, ClearToken. destruct (Store_ClearSession _ _). by eexists. Qed.

Lemma discard_store acct e (a : auth S) : exists s, discardUnusable acct e a = Auth.set_store s a.
Proof using Type.
  unfold discardUnusable. destruct (sessionUnusable _); [apply clear_store |].
  exists (store a). by destruct a.
Qed.

(** A call that has not entered the authenticator has no call there. *)
Lemma no_acall t m : sinv m ->
  (scalls m !! t = None \/ exists p, scalls m !! t = Some p /\ before_auth p = true) ->
  acalls (auth_ m) !! t = None.
Proof using Type.
  intros Hi Ht. destruct (acalls (auth_ m) !! t) as [p|] eqn:E; [|done].
  destruct (si_acall _ Hi _ _ E) as [(q & Hq & Hb) _]. destruct Ht as [Ht|(p' & Ht & Hb')]; congruence.
Qed.

Lemma sinv_login t now acct pw m :
  scalls m !! t = None -> sinv m -> sinv (Login t now acct pw m).
Proof using Type.
  intros Ht Hi. unfold Login.
  case_decide; [apply (sinv_move_id t _ (SLoginDone Panic)); auto; done |].
  case_decide; [apply (sinv_move_id t _ (SLoginDone Panic)); auto; done |].
  destruct (liveSession_store now acct (auth_ m)) as [s Hs].
  destruct (liveSession now acct (auth_ m)) as [r a]. simpl in Hs. subst a.
  apply (sinv_move t _ (SLoginDone Panic)); auto; destruct r as [[]|]; try done.
  intros _. apply no_acall; auto.
Qed.

Lemma sinv_reread t now acct pw id m :
  scalls m !! t = Some (SLead acct pw id) -> sinv m -> sinv (lead_reread t now acct pw id m).
Proof using Type.
  intros Ht Hi. unfold lead_reread. destruct (liveSession_store now acct (auth_ m)) as [s Hs].
  destruct (liveSession now acct (auth_ m)) as [r a]. simpl in Hs. subst a.
  apply (sinv_move t _ (SLead acct pw id)); auto; destruct r as [[]|]; try done;
    intros _; apply no_acall; eauto.
Qed.

Lemma sinv_logout t acct m : scalls m !! t = None -> sinv m -> sinv (Logout t acct m).
Proof using Type.
  intros Ht Hi. unfold Logout.
  case_decide; [apply (sinv_move_id t _ (SLoginDone Panic)); auto; done |].
  destruct (GetSession_store acct (auth_ m)) as [s Hs].
  destruct (GetSession acct (auth_ m)) as [r a]. simpl in Hs. subst a.
  apply (sinv_move t _ (SLoginDone Panic)); auto; destruct r as [[]|]; done.
Qed.

Lemma sinv_clear t acct m : scalls m !! t = Some (SClear acct) -> sinv m -> sinv (Logout_clear t acct m).
Proof using Type.
  intros Ht Hi. unfold Logout_clear. destruct (clear_store acct (auth_ m)) as [s Hs].
  destruct (Auth.Logout acct (auth_ m)) as [e a]. simpl in Hs. subst a.
  by apply (sinv_move t _ (SClear acct)); auto.
Qed.

Lemma sinv_discard t acct id e m :
  scalls m !! t = Some (SDiscard acct id e) -> sinv m -> sinv (establish_discard t acct id e m).
Proof using Type.
  intros Ht Hi. unfold establish_discard. destruct (discard_store acct e (auth_ m)) as [s ->].
  by apply (sinv_move t _ (SDiscard acct id e)); auto.
Qed.

(** Joining only changes the count of waiters. *)
Lemma sinv_joining t acct pw id m :
  scalls m !! t = Some (SGate acct pw) -> gate m !! acct = Some id -> sinv m ->
  sinv (establish_begin t acct pw m).
Proof using Type.
  intros Ht Hg Hi. pose proof (no_acall t m Hi ltac:(eauto)) as Hna.
  unfold establish_begin, begin. rewrite Hg.
  set (f := fun a => mkAttempt (done a) (sess a) (err a) (waiting a + 1)).
  assert (Halt : forall i a, attempts m !! i = Some a ->
    exists a', alter f id (attempts m) !! i = Some a' /\ done a' = done a).
  { intros i a Ha. destruct (decide (i = id)) as [->|Hne].
    - rewrite list_lookup_alter_eq, Ha. eexists. by split.
    - rewrite list_lookup_alter_ne by done. eauto. }
  apply (sinv_move_id t _ (SGate acct pw)); simpl; auto; try done.
  - intros b i [= <- <-]. destruct (si_gate _ Hi acct id Hg) as [(a & Ha & _) _].
    destruct (Halt _ _ Ha) as (a' & Ha' & _). exists a'. auto.
  - destruct Hi as [Ha Hlead Hone Hgate Hinj Hst Hjoin Hac Hsa]. split; simpl; try done.
    + intros b i Hb. destruct (Hgate b i Hb) as [(a & E & Hd) Hr]. split; [|done].
      destruct (Halt _ _ E) as (a' & E' & Hd'). exists a'. by rewrite Hd'.
    + intros u b i Hu. destruct (Hjoin u b i Hu) as (a & E & Hd).
      destruct (Halt _ _ E) as (a' & E' & Hd'). exists a'. by rewrite Hd'.
Qed.

(** Starting an attempt makes the call its leader. *)
Lemma sinv_starting t acct pw m :
  scalls m !! t = Some (SGate acct pw) -> gate m !! acct = None -> sinv m ->
  sinv (establish_begin t acct pw m).
Proof using Type.
  intros Ht Hg Hi. pose proof (no_acall t m Hi ltac:(eauto)) as Hna.
  unfold establish_begin, begin. rewrite Hg.
  destruct Hi as [Ha Hlead Hone Hgate Hinj Hst Hjoin Hac Hsa].
  assert (Hlt : forall b i, gate m !! b = Some i -> (i < length (attempts m))%nat).
  { intros b i Hb. destruct (Hgate b i Hb) as [(a & E & _) _]. by apply lookup_lt_Some in E. }
  assert (Hlk : forall i a, attempts m !! i = Some a ->
    (attempts m ++ [mkAttempt false zeroSession None 0]) !! i = Some a).
  { intros i a E. rewrite lookup_app_l; [done |]. by apply lookup_lt_Some in E. }
  assert (Hne : forall b i, gate m !! b = Some i -> acct <> b) by congruence.
  assert (Hnt : forall u q, scalls m !! u = Some q -> q <> SGate acct pw -> t <> u) by congruence.
  split; simpl; try done.
  - intros u q b i [[<- <-]|[_ Hu]]%lookup_insert_Some Hq.
    + injection Hq as <- <-. rewrite lookup_insert_eq. split; [done |].
      intros [? Hs]%Hst. congruence.
    + destruct (Hlead u q b i Hu Hq) as [Hg' Hs]. rewrite lookup_insert_ne by eauto. done.
  - intros t1 t2 p1 p2 b i1 i2 [[<- <-]|[H1 E1]]%lookup_insert_Some [[<- <-]|[H2 E2]]%lookup_insert_Some L1 L2;
      simpl in *; simplify_eq; try done; [| |by eapply (Hone _ _ p1 p2)].
    + destruct (Hlead t2 p2 b i2 E2 L2). congruence.
    + destruct (Hlead t1 p1 b i1 E1 L1). congruence.
  - intros b i [[<- <-]|[_ Hb]]%lookup_insert_Some.
    + split; [eexists; rewrite list_lookup_middle by done; by split |].
      right. exists t, (SLead acct pw (length (attempts m))). by rewrite lookup_insert_eq.
    + destruct (Hgate b i Hb) as [(a & E & Hd) Hr]. split; [exists a; auto |].
      destruct Hr as [?|(u & q & Hu & Hq)]; [by left | right; exists u, q].
      rewrite lookup_insert_ne; [done |]. apply (Hnt u q Hu). by intros ->.
  - intros a1 a2 i [[<- <-]|[H1 E1]]%lookup_insert_Some [[<- Hx]|[H2 E2]]%lookup_insert_Some; try done.
    + apply Hlt in E2. lia.
    + subst. apply Hlt in E1. lia.
    + by eapply Hinj.
  - intros b Hb. destruct (Hst b Hb) as [i Hi']. exists i. by rewrite lookup_insert_ne by eauto.
  - intros u b i [[_ Hq]|[_ Hu]]%lookup_insert_Some; [done |].
    destruct (Hjoin u b i Hu) as (a & E & Hd). exists a. split; [auto |].
    destruct Hd as [?|Hd]; [by left | right]. by rewrite lookup_insert_ne by eauto.
  - intros u q Hu. destruct (Hac u q Hu) as [(q1 & Hq1 & Hq2) Hq3].
    assert (t <> u) by congruence. split; [exists q1; by rewrite lookup_insert_ne |].
    destruct Hq3 as [?|(b & i & Hq3 & ?)]; [by left | right; exists b, i].
    by rewrite lookup_insert_ne.
  - intros u b i [[_ Hq]|[_ Hu]]%lookup_insert_Some; [done | by eapply Hsa].
Qed.

(** Entering the authenticator: no login of the account is pending there. *)
Lemma not_pending t acct pw id m :
  scalls m !! t = Some (SCall acct pw id) -> sinv m -> acct ∉ pending (auth_ m).
Proof using Type.
  intros Ht [Ha Hlead Hone Hgate Hinj Hst Hjoin Hac Hsa] Hp.
  destruct (ai_leader _ Ha acct Hp) as (u & p & Hu & Hl).
  destruct (Hac u p Hu) as [_ [[r ->]|(b & i & Hb & Hl')]]; [done |].
  rewrite Hl in Hl'. injection Hl' as <-.
  assert (t = u) as -> by (by eapply (Hone t u _ _ acct id i Ht Hb)). congruence.
Qed.

Lemma sinv_call t acct pw id m :
  scalls m !! t = Some (SCall acct pw id) -> sinv m -> sinv (lead_call t acct pw id m).
Proof using Type.
  intros Ht Hi. pose proof (not_pending t acct pw id m Ht Hi) as Hnp.
  pose proof (no_acall t m Hi ltac:(eauto)) as Hna.
  destruct Hi as [Ha Hlead Hone Hgate Hinj Hst Hjoin Hac Hsa].
  pose proof (ainv_begin t (mkLoginRequest acct pw "") (auth_ m) Hna Ha) as Ha'.
  unfold lead_call, Auth.Login, beginLogin in *. simpl in *. rewrite decide_False in * by done. simpl in *.
  split; simpl; try done.
  - intros u q b i [[<- <-]|[_ Hu]]%lookup_insert_Some Hq; [|by eapply Hlead].
    injection Hq as <- <-. by eapply Hlead.
  - intros t1 t2 p1 p2 b i1 i2 [[<- <-]|[H1 E1]]%lookup_insert_Some [[<- <-]|[H2 E2]]%lookup_insert_Some L1 L2;
      simpl in *; simplify_eq; try done; [| |by eapply (Hone _ _ p1 p2)];
      [by eapply (Hone _ _ (SCall b pw i1) p2) | by eapply (Hone _ _ p1 (SCall b pw i2))].
  - intros b i Hb. destruct (Hgate b i Hb) as [Hd [Hs|(u & q & Hu & Hq)]]; split; auto. right.
    destruct (decide (t = u)) as [<-|Hne].
    + exists t, (SAuth acct id). rewrite lookup_insert_eq. split; [done |]. by simplify_eq.
    + exists u, q. by rewrite lookup_insert_ne.
  - intros u b i [[_ Hq]|[_ Hu]]%lookup_insert_Some; [done | by eapply Hjoin].
  - intros u q [[<- <-]|[Hne Hu]]%lookup_insert_Some.
    + rewrite lookup_insert_eq. split; [eauto |]. right. by exists acct, id.
    + rewrite !lookup_insert_ne by done. by apply Hac.
  - intros u b i [[<- Hq]|[Hne Hu]]%lookup_insert_Some; [by rewrite lookup_insert_eq |].
    rewrite lookup_insert_ne by done. by eapply Hsa.
Qed.

Lemma sinv_auth t acct id a m :
  scalls m !! t = Some (SAuth acct id) ->
  astep block_Encrypt (wireLogin Do) service_tm t (auth_ m) a ->
  sinv m -> sinv (set_auth a m).
Proof using Type.
  intros Ht Hs [Ha Hlead Hone Hgate Hinj Hst Hjoin Hac Hsa].
  destruct (Hsa t acct id Ht) as [p Hp].
  destruct (Hac t p Hp) as [_ [[r ->]|(b & i & Hb & Hl)]].
  { exfalso. destruct Hs; congruence. }
  rewrite Ht in Hb. injection Hb as <- <-.
  destruct (astep_leader _ _ _ t _ a p acct Hs Hp Hl) as (p' & Ha' & Hl').
  split; simpl; try done.
  - by eapply ainv_step.
  - rewrite Ha'. intros u q [[<- <-]|[Hne Hu]]%lookup_insert_Some; [|by apply Hac].
    split; [by eauto |]. destruct Hl' as [Hl'|Hl']; [right; eauto | by left].
  - rewrite Ha'. intros u b i Hu. destruct (decide (t = u)) as [<-|Hne]; [by rewrite lookup_insert_eq |].
    rewrite lookup_insert_ne by done. by eapply Hsa.
Qed.

(** The leader leaves: a published outcome, or a panic. *)
Lemma sinv_publish t acct id x e m :
  scalls m !! t = Some (SPublish acct id x e) -> sinv m -> sinv (establish_publish t acct id x e m).
Proof using All.
  intros Ht [Ha Hlead Hone Hgate Hinj Hst Hjoin Hac Hsa].
  destruct (Hlead t _ acct id Ht eq_refl) as [Hg Hns].
  assert (Hothers : forall u q b i, u <> t -> scalls m !! u = Some q -> leading q = Some (b, i) -> acct <> b).
  { intros u q b i Hne Hu Hq <-. apply Hne. by eapply (Hone u t q _ acct i id). }
  assert (Halt : forall i a, i <> id -> attempts m !! i = Some a ->
    alter (fun a => mkAttempt true x e (waiting a)) id (attempts m) !! i = Some a).
  { intros i a Hne E. by rewrite list_lookup_alter_ne. }
  split; simpl; try done.
  - intros u q b i [[<- <-]|[Hne Hu]]%lookup_insert_Some Hq; [done |].
    destruct (Hlead u q b i Hu Hq). rewrite lookup_delete_ne by eauto. done.
  - intros t1 t2 p1 p2 b i1 i2 [[<- <-]|[H1 E1]]%lookup_insert_Some [[<- <-]|[H2 E2]]%lookup_insert_Some;
      try done. by eapply Hone.
  - intros b i [Hne Hb]%lookup_delete_Some. destruct (Hgate b i Hb) as [(a & E & Hd) Hr]. split.
    + exists a. split; [|done]. apply Halt; [|done]. intros ->. apply Hne. by eapply Hinj.
    + destruct Hr as [?|(u & q & Hu & Hq)]; [by left | right; exists u, q].
      rewrite lookup_insert_ne; [done |]. intros <-. rewrite Ht in Hu. by simplify_eq/=.
  - intros a1 a2 i [_ H1]%lookup_delete_Some [_ H2]%lookup_delete_Some. by eapply Hinj.
  - intros b Hb. rewrite lookup_delete_ne; [by apply Hst | by intros <-].
  - intros u b i [[_ Hq]|[_ Hu]]%lookup_insert_Some; [done |].
    destruct (Hjoin u b i Hu) as (a & E & Hd). destruct (decide (i = id)) as [->|Hne].
    + eexists. rewrite list_lookup_alter_eq, E. split; [done | by left].
    + exists a. split; [by apply Halt |]. destruct Hd as [?|Hd]; [by left | right].
      rewrite lookup_delete_ne; [done |]. congruence.
  - intros u q Hu. destruct (Hac u q Hu) as [(q1 & Hq1 & Hq2) Hq3].
    destruct (decide (t = u)) as [<-|Hne].
    + rewrite lookup_insert_eq. split; [eauto |]. left. destruct Hq3 as [?|(b & i & ? & _)]; [done | congruence].
    + rewrite lookup_insert_ne by done. split; eauto.
  - intros u b i [[_ Hq]|[_ Hu]]%lookup_insert_Some; [done | by eapply Hsa].
Qed.

Lemma sinv_panicked t acct id m :
  scalls m !! t = Some (SAuth acct id) -> acalls (auth_ m) !! t = Some (ADone Panic) ->
  sinv m -> sinv (lead_returned t acct id Panic m).
Proof using All.
  intros Ht Hp [Ha Hlead Hone Hgate Hinj Hst Hjoin Hac Hsa].
  destruct (Hlead t _ acct id Ht eq_refl) as [Hg Hns].
  split; simpl; try done.
  - intros u q b i [[<- <-]|[Hne Hu]]%lookup_insert_Some Hq; [done |].
    destruct (Hlead u q b i Hu Hq). split; [done |].
    intros [->%elem_of_singleton|?]%elem_of_union; [|done]. apply Hne. symmetry.
    by eapply (Hone u t q _ acct i id).
  - intros t1 t2 p1 p2 b i1 i2 [[<- <-]|[H1 E1]]%lookup_insert_Some [[<- <-]|[H2 E2]]%lookup_insert_Some;
      try done. by eapply Hone.
  - intros b i Hb. destruct (Hgate b i Hb) as [Hd Hr]. split; [done |].
    destruct Hr as [?|(u & q & Hu & Hq)]; [left; set_solver |].
    destruct (decide (t = u)) as [<-|Hne]; [left; rewrite Ht in Hu; simplify_eq/=; set_solver |].
    right. exists u, q. by rewrite lookup_insert_ne.
  - intros b [->%elem_of_singleton|Hb]%elem_of_union; [by rewrite Hg | by apply Hst].
  - intros u b i [[_ Hq]|[_ Hu]]%lookup_insert_Some; [done | by eapply Hjoin].
  - intros u q Hu. destruct (Hac u q Hu) as [(q1 & Hq1 & Hq2) Hq3].
    destruct (decide (t = u)) as [<-|Hne].
    + rewrite lookup_insert_eq. split; [eauto |]. left. exists Panic. congruence.
    + rewrite lookup_insert_ne by done. split; eauto.
  - intros u b i [[_ Hq]|[_ Hu]]%lookup_insert_Some; [done | by eapply Hsa].
Qed.

Lemma sinv_returned t acct id r m :
  scalls m !! t = Some (SAuth acct id) -> acalls (auth_ m) !! t = Some (ADone r) ->
  sinv m -> sinv (lead_returned t acct id r m).
Proof using All.
  intros Ht Hr Hi. destruct r as [[x|e]|]; [| |by apply sinv_panicked];
    (apply (sinv_move_id t _ (SAuth acct id)); eauto; done).
Qed.

Lemma sinv_step now m m' : step now m m' -> sinv m -> sinv m'.
Proof using All.
  destruct 1 as [t acct pw Ht|t acct pw Ht|t acct id a Ht Hat Hd|t acct id e Ht He|t acct pw id Ht
    |t acct pw id Ht|t acct id a Ht Hs|t acct id r Ht Hr|t acct id e Ht|t acct id s e Ht|t acct Ht
    |t acct out Ht Ho|t acct Ht]; intros Hi.
  - by apply sinv_login.
  - destruct (gate m !! acct) eqn:Hg; [by eapply sinv_joining | by apply sinv_starting].
  - by apply (sinv_move_id t _ (SJoin acct id)); auto.
  - by apply (sinv_move_id t _ (SJoin acct id)); auto.
  - by apply sinv_reread.
  - by apply sinv_call.
  - by eapply sinv_auth.
  - by apply sinv_returned.
  - by apply sinv_discard.
  - by apply sinv_publish.
  - by apply sinv_logout.
  - unfold Logout_reply. destruct (logout_result out) as [[]|];
      by apply (sinv_move_id t _ (SLogout acct)); auto.
  - by apply sinv_clear.
Qed.

Lemma sinv_steps m m' : steps m m' -> sinv m -> sinv m'.
Proof using All. induction 1; [done | intros; eapply sinv_step; eauto]. Qed.

Lemma sinv_reachable s0 m : reachable s0 m -> sinv m.
Proof using All. intros Hr. eapply sinv_steps; [exact Hr | apply sinv_new]. Qed.

(** *** One leader *)

(** C17: for each account at most one call performs the login at any time, at most
    one login request is under way, and the authenticator's own coalescing is
    never contended: no call ever waits there. *)
Theorem session_service_coalesces (s0 : S) (m : svc S) (acct : string) :
  reachable s0 m ->
  (forall t1 t2 p1 p2 id1 id2, scalls m !! t1 = Some p1 -> scalls m !! t2 = Some p2 ->
     leading p1 = Some (acct, id1) -> leading p2 = Some (acct, id2) -> t1 = t2)
  /\ (forall t1 t2 r1 r2, acalls (auth_ m) !! t1 = Some (ALogin r1) -> acalls (auth_ m) !! t2 = Some (ALogin r2) ->
     lr_AccountID r1 = acct -> lr_AccountID r2 = acct -> t1 = t2)
  /\ (forall t ch, acalls (auth_ m) !! t <> Some (AWait acct ch)).
Proof using All.
  intros Hi%sinv_reachable. split_and!.
  - intros *. apply (si_one _ Hi).
  - intros t1 t2 r1 r2 H1 H2 L1 L2. eapply (ai_one _ (si_auth _ Hi) t1 t2 _ _ acct H1 H2);
      simpl; congruence.
  - intros t ch Ht. destruct (si_acall _ Hi _ _ Ht) as [_ [[? ?]|(b & i & _ & Hl)]]; done.
Qed.

(** *** A published outcome stays *)
Definition outcome_is (id : nat) (x : Session) (e : option error) (m : svc S) : Prop :=
  exists w, attempts m !! id = Some (mkAttempt true x e w).

Lemma outcome_step now id x e m m' :
  step now m m' -> sinv m -> outcome_is id x e m -> outcome_is id x e m'.
Proof using All.
  intros Hs Hi [w Hw].
  assert (Hgate : forall acct i, gate m !! acct = Some i -> i <> id).
  { intros acct i Hg ->. destruct (si_gate _ Hi _ _ Hg) as [(a & Ha & Hd) _]. rewrite Hw in Ha.
    by simplify_eq/=. }
  assert (Hsame : attempts m' = attempts m -> outcome_is id x e m') by (intros E; exists w; by rewrite E).
  destruct Hs as [t acct pw Ht|t acct pw Ht|t acct j a Ht Hat Hd|t acct j er Ht He|t acct pw j Ht
    |t acct pw j Ht|t acct j a Ht Hs|t acct j r Ht Hr|t acct j er Ht|t acct j s er Ht|t acct Ht
    |t acct out Ht Ho|t acct Ht]; try (by apply Hsame).
  - apply Hsame. unfold Login. repeat case_decide; try done. by destruct (liveSession _ _ _).
  - unfold establish_begin, begin, outcome_is. destruct (gate m !! acct) as [i|] eqn:Hg; simpl.
    + rewrite list_lookup_alter_ne by eauto. eauto.
    + exists w. rewrite lookup_app_l; [done |]. by apply lookup_lt_Some in Hw.
  - apply Hsame. unfold lead_reread. by destruct (liveSession _ _ _).
  - apply Hsame. by destruct r as [[]|].
  - unfold establish_publish, publish, outcome_is. simpl.
    destruct (si_lead _ Hi _ _ _ _ Ht eq_refl) as [Hg _].
    rewrite list_lookup_alter_ne by eauto. eauto.
  - apply Hsame. unfold Logout. case_decide; [done |]. by destruct (GetSession _ _).
  - apply Hsame. unfold Logout_clear. by destruct (Auth.Logout _ _).
Qed.

Lemma outcome_steps id x e m m' :
  steps m m' -> sinv m -> outcome_is id x e m -> outcome_is id x e m'.
Proof using All.
  induction 1 as [|now m1 m2 m3 Hs IH Hstep]; [done |]. intros Hi Ho.
  eapply outcome_step; [exact Hstep | by eapply sinv_steps | by apply IH].
Qed.

(** Whoever joined a login gets the very result its leader got: once the leader
    has published, every call still waiting on that attempt, in any later state,
    can return, and returns the leader's session or the leader's error. *)
Theorem session_service_joiner_outcome (s0 : S) (m m' : svc S) (t u : nat) (acct : string) (id : nat)
    (x : Session) (e : option error) :
  reachable s0 m -> scalls m !! t = Some (SPublish acct id x e) ->
  steps (establish_publish t acct id x e m) m' ->
  scalls m' !! u = Some (SJoin acct id) ->
  scalls (establish_publish t acct id x e m) !! t = Some (SLoginDone (Login_result x e))
  /\ exists a, attempts m' !! id = Some a /\ done a = true
       /\ scalls (establish_joined u a m') !! u = Some (SLoginDone (Login_result x e)).
Proof using All.
  intros Hi%sinv_reachable Ht Hs Hu. split; [simpl; apply lookup_insert_eq |].
  destruct (si_gate _ Hi acct id) as [(a & Ha & _) _].
  { by apply (si_lead _ Hi _ _ _ _ Ht eq_refl). }
  destruct (outcome_steps id x e _ _ Hs) as [w Hw].
  - by apply sinv_publish.
  - exists (waiting a). simpl. by rewrite list_lookup_alter_eq, Ha.
  - eexists. split; [exact Hw |]. split; [done |]. simpl. apply lookup_insert_eq.
Qed.

(** *** A leader that dies *)
Lemma stuck_step now m m' acct : step now m m' -> acct ∈ stuck m -> acct ∈ stuck m'.
Proof using All.
  destruct 1 as [t b pw Ht|t b pw Ht| | |t b pw id Ht| | |t b id r Ht Hr| | |t b Ht| |t b Ht]; intros Hs; try done.
  - unfold Login. repeat case_decide; try done. by destruct (liveSession _ _ _).
  - unfold establish_begin, begin. by destruct (gate m !! b).
  - unfold lead_reread. by destruct (liveSession _ _ _).
  - destruct r as [[]|]; simpl; set_solver.
  - unfold Logout. case_decide; [done |]. by destruct (GetSession _ _).
  - unfold Logout_clear. by destruct (Auth.Logout _ _).
Qed.

Lemma stuck_steps m m' acct : steps m m' -> acct ∈ stuck m -> acct ∈ stuck m'.
Proof using All. induction 1; [done | intros; eapply stuck_step; eauto]. Qed.

(** C19: if the request of a leader panics, the gate entry of the account is never
    removed: in every later state nobody performs a login for that account, every
    call that joined waits on an attempt that is not done, and a call that reaches
    the gate joins them. *)
Theorem session_service_panic_strands (s0 : S) (m m' : svc S) (t : nat) (acct : string) (id : nat) :
  reachable s0 m -> scalls m !! t = Some (SAuth acct id) ->
  acalls (auth_ m) !! t = Some (ADone Panic) ->
  steps (lead_returned t acct id Panic m) m' ->
  (forall u p i, scalls m' !! u = Some p -> leading p <> Some (acct, i))
  /\ exists i a, gate m' !! acct = Some i /\ attempts m' !! i = Some a /\ done a = false
       /\ forall u pw, scalls m' !! u = Some (SGate acct pw) ->
            scalls (establish_begin u acct pw m') !! u = Some (SJoin acct i).
Proof using All.
  intros Hi%sinv_reachable Ht Hp Hs.
  assert (Hi' : sinv m') by (eapply sinv_steps; [exact Hs | by apply sinv_panicked]).
  assert (Hst : acct ∈ stuck m') by (eapply stuck_steps; [exact Hs | simpl; set_solver]).
  split.
  - intros u p i Hu Hl. by destruct (si_lead _ Hi' u p acct i Hu Hl).
  - destruct (si_stuck _ Hi' acct Hst) as [i Hg].
    destruct (si_gate _ Hi' acct i Hg) as [(a & Ha & Hd) _].
    exists i, a. split_and!; try done. intros u pw Hu. unfold establish_begin, begin. rewrite Hg. simpl.
    apply lookup_insert_eq.
Qed.
End executions.

(** ** Reuse of a live session *)
Section reuse.
Context (block_Encrypt : bytestr -> bytestr -> bytestr) (Do : executor).
Context (acct : string) (x : Session).
Local Abbreviation state := (svc inMemoryStore).

(** The session is stored, and no leader of the account is past its re-read. *)
Definition held (m : state) : Prop :=
  store (auth_ m) !! acct = Some x
  /\ forall t p i, scalls m !! t = Some p -> leading p = Some (acct, i) ->
       (exists pw, p = SLead acct pw i) \/ (exists s e, p = SPublish acct i s e).

(** Steps before the session is due for refresh, with no logout of the account. *)
Inductive run : state -> state -> Prop :=
  | run_refl m : run m m
  | run_step now m1 m2 m3 : run m1 m2 -> step block_Encrypt Do now m2 m3 -> now < RefreshAt x ->
      (forall t, scalls m2 !! t <> Some (SClear acct)) -> run m1 m3.

Lemma run_steps m m' : run m m' -> steps block_Encrypt Do m m'.
Proof using Type. induction 1; econstructor; eauto. Qed.

Lemma held_move t p a (m : state) :
  store a !! acct = Some x ->
  (forall i, leading p = Some (acct, i) ->
     (exists pw, p = SLead acct pw i) \/ (exists s e, p = SPublish acct i s e)) ->
  held m -> held (set_scall t p (set_auth a m)).
Proof using Type.
  intros Ha Hp [_ Hl]. split; [done |]. intros u q i. simpl.
  intros [[<- <-]|[_ Hu]]%lookup_insert_Some Hq; eauto.
Qed.

Lemma held_move_id t p (m : state) :
  (forall i, leading p = Some (acct, i) ->
     (exists pw, p = SLead acct pw i) \/ (exists s e, p = SPublish acct i s e)) ->
  held m -> held (set_scall t p m).
Proof using Type.
  intros Hp Hh. pose proof (held_move t p (auth_ m) m (proj1 Hh) Hp Hh) as H'. by destruct m.
Qed.

(** The store call of a login for another account leaves the session in place. *)
Lemma astep_store t b (a a' : auth inMemoryStore) p :
  astep block_Encrypt (wireLogin Do) service_tm t a a' ->
  acalls a !! t = Some p -> leads p = Some b -> b <> acct ->
  store a !! acct = Some x -> store a' !! acct = Some x.
Proof using Type.
  intros Hs Hp Hl Hne Hx.
  destruct Hs as [req Ht|c ch Ht Hc|c ch e Ht He|req r Ht Hr|c token now Ht|c Ht|c Ht|c r Ht];
    rewrite Ht in Hp; try exact Hx; [done | | | by injection Hp as <-].
  - injection Hp as <-. injection Hl as <-. simpl. by rewrite lookup_insert_ne.
  - unfold Login_read, sessionFromStore, GetSession. cbn. unfold inMemory_Session.
    by destruct (store a !! c).
Qed.

Lemma held_step now m m' :
  step block_Encrypt Do now m m' -> now < RefreshAt x ->
  (forall t, scalls m !! t <> Some (SClear acct)) ->
  sinv m -> held m -> held m'.
Proof using Type.
  intros Hs Hnow Hnc Hi Hh. pose proof Hh as [Hst Hl].
  destruct Hs as [t b pw Ht|t b pw Ht|t b id a Ht Hat Hd|t b id e Ht He|t b pw id Ht
    |t b pw id Ht|t b id a Ht Hs|t b id r Ht Hr|t b id e Ht|t b id s e Ht|t b Ht|t b out Ht Ho|t b Ht].
  - unfold Login. repeat case_decide; [by apply held_move_id .. |].
    unfold liveSession, GetSession. cbn. unfold inMemory_Session.
    destruct (store (auth_ m) !! b); [destruct (ShouldRefresh _ _)|]; by apply held_move.
  - unfold establish_begin, begin. destruct (gate m !! b); apply held_move_id; try done; simpl;
      intros i [= <- <-]; eauto.
  - by apply held_move_id.
  - by apply held_move_id.
  - unfold lead_reread, liveSession, GetSession. cbn. unfold inMemory_Session.
    destruct (decide (b = acct)) as [->|Hne].
    + rewrite Hst. unfold ShouldRefresh. rewrite bool_decide_false by lia.
      apply held_move; [done | | done]. intros i [= <-]. right. eauto.
    + destruct (store (auth_ m) !! b); [destruct (ShouldRefresh _ _)|];
        (apply held_move; [done | by intros i [= ? ?] | done]).
  - destruct (decide (b = acct)) as [->|Hne].
    + by destruct (Hl _ _ _ Ht eq_refl) as [[? ?]|(? & ? & ?)].
    + unfold lead_call, Auth.Login, beginLogin. simpl.
      case_decide; (apply held_move; [done | by intros i [= ? ?] | done]).
  - destruct (decide (b = acct)) as [->|Hne].
    { by destruct (Hl _ _ _ Ht eq_refl) as [[? ?]|(? & ? & ?)]. }
    split; [|done]. simpl. destruct (si_sauth _ Hi _ _ _ Ht) as [p Hp].
    destruct (si_acall _ Hi _ _ Hp) as [_ [[r ->]|(c & i & Hc & Hle)]]; [destruct Hs; congruence |].
    rewrite Ht in Hc. injection Hc as <- <-. by eapply astep_store.
  - destruct (decide (b = acct)) as [->|Hne].
    { by destruct (Hl _ _ _ Ht eq_refl) as [[? ?]|(? & ? & ?)]. }
    destruct r as [[s|e]|]; apply held_move_id; try done; by intros i [= ? ?].
  - destruct (decide (b = acct)) as [->|Hne].
    { by destruct (Hl _ _ _ Ht eq_refl) as [[? ?]|(? & ? & ?)]. }
    unfold establish_discard, discardUnusable, Auth.Logout, ClearToken.
    destruct (sessionUnusable _); (apply held_move; [|by intros i [= ? ?]|done]); [|done].
    simpl. by rewrite lookup_delete_ne.
  - assert (Hh' : held (set_scall t (SLoginDone (Login_result s e)) m)) by by apply held_move_id.
    exact Hh'.
  - unfold Logout. case_decide; [by apply held_move_id |].
    unfold GetSession. cbn. unfold inMemory_Session.
    destruct (store (auth_ m) !! b); by apply held_move.
  - unfold Logout_reply. destruct (logout_result out) as [[]|]; by apply held_move_id.
  - destruct (decide (b = acct)) as [->|Hne]; [by destruct (Hnc t) |].
    unfold Logout_clear, Auth.Logout, ClearToken. cbn.
    apply held_move; [|done|done]. simpl. by rewrite lookup_delete_ne.
Qed.

(** C18: with the in-memory store, once a session of an account is stored and no
    leader is past its re-read, then in every interleaving of any number of
    logins, until the refresh point is reached or the account is logged out, no
    login request for that account is sent, a failed login of another account
    does not disturb the session, and a login returns it at once. *)
Theorem session_service_reuse s0 (m m' : state) :
  reachable block_Encrypt Do s0 m -> held m -> run m m' ->
  store (auth_ m') !! acct = Some x
  /\ (forall u req, acalls (auth_ m') !! u = Some (ALogin req) -> lr_AccountID req <> acct)
  /\ (forall u now pw, now < RefreshAt x -> acct <> "" -> TrimSpace (text pw) <> [] ->
        scalls (Login u now acct pw m') !! u = Some (SLoginDone (Ret (inl (tradeSessionFrom x))))).
Proof using Type.
  intros Hr Hh Hrun.
  assert (Hi' : sinv m') by (eapply sinv_steps; [by apply run_steps | by eapply sinv_reachable]).
  assert (Hh' : held m').
  { clear Hi'. induction Hrun as [|now m1 m2 m3 Hrun IH Hs Hnow Hnc]; [done |].
    eapply held_step; [exact Hs | done | done | | by apply IH].
    eapply sinv_steps; [by apply run_steps | by eapply sinv_reachable]. }
  destruct Hh' as [Hst Hl]. split; [done |]. split.
  - intros u req Hu <-. destruct (si_acall _ Hi' _ _ Hu) as [_ [[? ?]|(b & i & Hb & Hle)]]; [done |].
    simpl in Hle. injection Hle as <-.
    by destruct (Hl _ _ _ Hb eq_refl) as [[? ?]|(? & ? & ?)].
  - intros u now pw Hnow Ha Hpw. unfold Login. rewrite !decide_False by done.
    unfold liveSession, GetSession. cbn. unfold inMemory_Session. rewrite Hst.
    unfold ShouldRefresh. rewrite bool_decide_false by lia. apply lookup_insert_eq.
Qed.
End reuse.

(** ** Witnesses *)

(** Executors that acknowledge with a token, and that panic. *)
Definition accepting : executor := fun _ _ r => r = Ret (None, mkWire "tok" (Some true)).
Definition panicking : executor := fun _ _ r => r = Panic.

(** Two calls log in to account A at time 100: 0 leads, 1 joins. *)
Definition example_start : svc inMemoryStore := NewSessionService (∅ : inMemoryStore).
Definition example_called : svc inMemoryStore :=
  lead_call 0 "A" "pw" 0 (lead_reread 0 100 "A" "pw" 0
    (establish_begin 1 "A" "pw" (establish_begin 0 "A" "pw"
      (Login 1 100 "A" "pw" (Login 0 100 "A" "pw" example_start))))).

Ltac by_vm := vm_compute; first [reflexivity | congruence].

Lemma example_called_steps d : steps (fun _ b => b) d example_start example_called.
Proof.
  eapply (steps_step _ _ 100); [|eapply step_call; by_vm].
  eapply (steps_step _ _ 100); [|eapply step_reread; by_vm].
  eapply (steps_step _ _ 100); [|eapply step_begin; by_vm].
  eapply (steps_step _ _ 100); [|eapply step_begin; by_vm].
  eapply (steps_step _ _ 100); [|eapply step_login; by_vm].
  eapply (steps_step _ _ 100); [|eapply step_login; by_vm].
  apply steps_refl.
Qed.

(** A step of the authenticator on behalf of call 0. *)
Lemma example_inner d m a :
  steps (fun _ b => b) d example_start m -> scalls m !! 0%nat = Some (SAuth "A" 0) ->
  astep (fun _ b => b) (wireLogin d) service_tm 0%nat (auth_ m) a ->
  steps (fun _ b => b) d example_start (set_auth a m).
Proof. intros Hs Hm Ha. eapply (steps_step _ _ 100); [exact Hs | by eapply step_auth]. Qed.

(** The leader's request panics; or succeeds, and its result is published next. *)
Definition example_panicked : svc inMemoryStore :=
  let m := set_auth (Login_reply 0 "A" Panic (auth_ example_called)) example_called in
  set_auth (Login_end 0 "A" Panic (auth_ m)) m.

Definition example_session : Session := mkSession "tok" "A" 10900 10300.

Definition example_accepted : svc inMemoryStore :=
  let m := set_auth (Login_reply 0 "A" (Ret (inl "tok")) (auth_ example_called)) example_called in
  let m := set_auth (Login_save 0 service_tm 100 "A" "tok" (auth_ m)) m in
  let m := set_auth (Login_read 0 "A" (auth_ m)) m in
  let m := set_auth (Login_end 0 "A" (Ret (inl example_session)) (auth_ m)) m in
  lead_returned 0 "A" 0 (Ret (inl example_session)) m.

Lemma example_panicked_steps : steps (fun _ b => b) panicking example_start example_panicked.
Proof.
  eapply example_inner; [|by_vm | eapply astep_end; by_vm].
  eapply example_inner; [apply example_called_steps | by_vm |].
  eapply (astep_reply _ _ _ _ _ (mkLoginRequest "A" "pw" "")); [by_vm |].
  vm_compute. eexists. by split.
Qed.

Lemma example_accepted_steps : steps (fun _ b => b) accepting example_start example_accepted.
Proof.
  eapply (steps_step _ _ 100); [|eapply step_returned; by_vm].
  eapply example_inner; [|by_vm | eapply astep_end; by_vm].
  eapply example_inner; [|by_vm | eapply astep_read; by_vm].
  eapply example_inner; [|by_vm | eapply astep_save; by_vm].
  eapply example_inner; [apply example_called_steps | by_vm |].
  eapply (astep_reply _ _ _ _ _ (mkLoginRequest "A" "pw" "")); [by_vm |].
  vm_compute. eexists. by split.
Qed.

Lemma session_service_coalesces_witness :
  reachable (fun _ b => b) accepting ∅ example_called
  /\ forall ch, acalls (auth_ example_called) !! 1%nat <> Some (AWait "A" ch).
Proof.
  split; [exact (example_called_steps accepting) |].
  exact (proj2 (proj2 (session_service_coalesces _ accepting ∅ _ "A" (example_called_steps accepting))) 1%nat).
Defined.

Lemma session_service_panic_strands_witness :
  scalls (lead_returned 0 "A" 0 Panic example_panicked) !! 1%nat = Some (SJoin "A" 0)
  /\ exists i a, gate (lead_returned 0 "A" 0 Panic example_panicked) !! "A" = Some i
       /\ attempts (lead_returned 0 "A" 0 Panic example_panicked) !! i = Some a /\ done a = false.
Proof.
  split; [by_vm |].
  destruct (session_service_panic_strands _ panicking ∅ example_panicked _ 0%nat "A" 0%nat
    example_panicked_steps ltac:(by_vm) ltac:(by_vm) (steps_refl _ _ _)) as [_ (i & a & H1 & H2 & H3 & _)].
  exists i, a. exact (conj H1 (conj H2 H3)).
Defined.

Lemma session_service_joiner_outcome_witness :
  exists a, attempts (establish_publish 0 "A" 0 example_session None example_accepted) !! 0%nat = Some a
    /\ done a = true
    /\ scalls (establish_joined 1 a (establish_publish 0 "A" 0 example_session None example_accepted)) !! 1%nat
       = Some (SLoginDone (Login_result example_session None)).
Proof.
  exact (proj2 (session_service_joiner_outcome _ accepting ∅ example_accepted _ 0%nat 1%nat "A" 0%nat
    example_session None example_accepted_steps ltac:(by_vm) (steps_refl _ _ _) ltac:(by_vm))).
Defined.

Lemma session_service_reuse_witness :
  let x := mkSession "tok" "A" 10900 10300 in
  let m := NewSessionService ({["A" := x]} : inMemoryStore) in
  scalls (Login 7 200 "A" "pw" m) !! 7%nat = Some (SLoginDone (Ret (inl (tradeSessionFrom x)))).
Proof.
  intros x m.
  refine (proj2 (proj2 (session_service_reuse (fun _ b => b) accepting "A" x {["A" := x]} m m
    (steps_refl _ _ _) _ (run_refl _ _ _ _ m))) 7%nat 200 "pw" _ _ _).
  - split; [reflexivity |]. intros t p i Ht. simpl in Ht. by apply lookup_empty_Some in Ht.
  - reflexivity.
  - discriminate.
  - vm_compute. discriminate.
Defined.
