(* ===== verification/Frame.v ===== *)
(** The push frame codec: [src/internal/push/frame.go].

    A header is 151 bytes, little-endian; a frame is a header followed by
    [BodyLen] body bytes. [EncodeHeader] writes each field into a zeroed array at
    its offset, as the code does; [ReadFrame] reads from an [io.Reader]. *)
From S2P Require Import Prelude Types Errs.

Create HintDb frame.

Definition HeaderSize : nat := 151.
Definition Magic : list Byte.byte := [Byte.x48; Byte.x53].
Definition BodySHA1Len : nat := 128.
Definition MaxBodyLen : Z := Z.shiftl 8 20.

Definition offHeaderFlag : nat := 0.
Definition offMsgType : nat := 2.
Definition offProtoFmtType : nat := 4.
Definition offProtoVer : nat := 5.
Definition offSerialNo : nat := 6.
Definition offBodyLen : nat := 10.
Definition offBodySHA1 : nat := 14.
Definition offCompressAlgo : nat := 142.
Definition offReserved : nat := 143.

Definition ErrShortHeader : error := ESentinel "push: short header".
Definition ErrBadMagic : error := ESentinel "push: bad header magic".
Definition ErrInvalidBodyLen : error := ESentinel "push: invalid body length".
Definition ErrBodyTooLarge : error := ESentinel "push: body too large".
Definition ErrUnsupportedCompression : error :=
  ESentinel "push: unsupported compression algorithm".

(** [type MsgType int16] *)
Definition MsgHeartbeat : Z := 0.
Definition MsgRequest : Z := 1.
Definition MsgResponse : Z := 2.
Definition MsgPush : Z := 3.

Definition MsgType_String (m : Z) : string :=
  switch m [(MsgHeartbeat, "heartbeat"); (MsgRequest, "request");
            (MsgResponse, "response"); (MsgPush, "push")]
    ("MsgType(" +:+ itoa m +:+ ")").

(** The decoded header. [MsgType] is an [int16], [SerialNo] and [BodyLen] are
    [int32], [Reserved] an [int64], the others bytes or fixed byte arrays. *)
Record Header := mkHeader {
  HeaderFlag : list Byte.byte;
  MsgType : Z;
  ProtoFmtType : Byte.byte;
  ProtoVer : Byte.byte;
  SerialNo : Z;
  BodyLen : Z;
  BodySHA1 : list Byte.byte;
  CompressAlgorithm : Byte.byte;
  Reserved : Z;
}.

Record Header_ok (h : Header) : Prop := {
  ok_flag : length (HeaderFlag h) = 2%nat;
  ok_type : in_s 16 (MsgType h);
  ok_serial : in_s 32 (SerialNo h);
  ok_len : in_s 32 (BodyLen h);
  ok_sha : length (BodySHA1 h) = BodySHA1Len;
  ok_reserved : in_s 64 (Reserved h);
}.

(** [binary.LittleEndian.PutUintN(b[off:off+n], uintN(x))] and back. *)
Definition put_le (off n : nat) (x : Z) (b : list Byte.byte) : list Byte.byte :=
  write_at off (le_bytes n (uwrap (8 * Z.of_nat n) x)) b.
Definition get_le (off n : nat) (b : list Byte.byte) : Z :=
  swrap (8 * Z.of_nat n) (le_Z (slice off (off + n) b)).

Definition EncodeHeader (h : Header) : list Byte.byte :=
  let b := replicate HeaderSize Byte.x00 in
  let b := write_at offHeaderFlag (HeaderFlag h) b in
  let b := put_le offMsgType 2 (MsgType h) b in
  let b := write_at offProtoFmtType [ProtoFmtType h] b in
  let b := write_at offProtoVer [ProtoVer h] b in
  let b := put_le offSerialNo 4 (SerialNo h) b in
  let b := put_le offBodyLen 4 (BodyLen h) b in
  let b := write_at offBodySHA1 (BodySHA1 h) b in
  let b := write_at offCompressAlgo [CompressAlgorithm h] b in
  put_le offReserved 8 (Reserved h) b.

(** The detail of a wrapped error is rendered as the code does, except the [%q]
    quotation of the flag bytes in [ErrBadMagic], which is left out. *)
Definition byte_at (i : nat) (b : list Byte.byte) : Byte.byte := default Byte.x00 (b !! i).

Definition DecodeHeader (b : list Byte.byte) : Header + error :=
  if decide (length b < HeaderSize)%nat then
    inr (EWrap ("push: short header: got " +:+ itoa (Z.of_nat (length b)) +:+ " bytes, need 151")
               ErrShortHeader)
  else
    let flag := slice offHeaderFlag (offHeaderFlag + 2) b in
    if decide (flag <> Magic) then
      inr (EWrap "push: bad header magic" ErrBadMagic)
    else
      inl (mkHeader flag
             (get_le offMsgType 2 b)
             (byte_at offProtoFmtType b)
             (byte_at offProtoVer b)
             (get_le offSerialNo 4 b)
             (get_le offBodyLen 4 b)
             (slice offBodySHA1 (offBodySHA1 + BodySHA1Len) b)
             (byte_at offCompressAlgo b)
             (get_le offReserved 8 b)).

(** ** Readers

    An [io.Reader] that will deliver the bytes [data] and then fail with [fin]
    ([io.EOF] at the end of a stream, a timeout or a reset otherwise). *)
Record Reader := mkReader { data : list Byte.byte; fin : error }.

(** [io.ReadFull(r, make([]byte, n))]: [io.EOF] only when nothing was read. *)
Definition ReadFull (r : Reader) (n : nat) : (list Byte.byte + error) * Reader :=
  if decide (n <= length (data r))%nat then
    (inl (take n (data r)), mkReader (drop n (data r)) (fin r))
  else
    (inr (match data r, fin r with
          | _ :: _, ESentinel "EOF" => ErrUnexpectedEOF
          | _, e => e
          end), mkReader [] (fin r)).

Definition ReadFrame (r : Reader) : (Header * list Byte.byte + error) * Reader :=
  match ReadFull r HeaderSize with
  | (inr e, r) => (inr e, r)
  | (inl raw, r) =>
      match DecodeHeader raw with
      | inr e => (inr e, r)
      | inl h =>
          if decide (BodyLen h < 0) then
            (inr (EWrap ("push: invalid body length: " +:+ itoa (BodyLen h)) ErrInvalidBodyLen), r)
          else if decide (BodyLen h > MaxBodyLen) then
            (inr (EWrap ("push: body too large: " +:+ itoa (BodyLen h) +:+ " exceeds "
                         +:+ itoa MaxBodyLen) ErrBodyTooLarge), r)
          else if decide (CompressAlgorithm h <> Byte.x00) then
            (inr (EWrap ("push: unsupported compression algorithm: "
                         +:+ itoa (Z_of_byte (CompressAlgorithm h))) ErrUnsupportedCompression), r)
          else if decide (BodyLen h = 0) then (inl (h, []), r)
          else
            match ReadFull r (Z.to_nat (BodyLen h)) with
            | (inr e, r) => (inr e, r)
            | (inl body, r) => (inl (h, body), r)
            end
      end
  end.

(** ** Writers

    An [io.Writer] as the function [Write] on its state: the count and the error
    of a call. *)
Section writer.
Context {W : Type} (Write : W -> list Byte.byte -> (Z * option error) * W).

Definition writeFull (w : W) (b : list Byte.byte) : option error * W :=
  let '((n, err), w) := Write w b in
  match err with
  | Some e => (Some e, w)
  | None => if decide (n <> Z.of_nat (length b)) then (Some ErrShortWrite, w) else (None, w)
  end.

(** The header [WriteFrame] puts on the wire. *)
Definition frame_header (h : Header) (body : list Byte.byte) : Header :=
  mkHeader Magic (MsgType h) (ProtoFmtType h) (ProtoVer h) (SerialNo h)
    (swrap 32 (Z.of_nat (length body))) (BodySHA1 h) (CompressAlgorithm h) (Reserved h).

Definition WriteFrame (w : W) (h : Header) (body : list Byte.byte) : option error * W :=
  if decide (Z.of_nat (length body) > MaxBodyLen) then
    (Some (EWrap ("push: body too large: " +:+ itoa (Z.of_nat (length body)) +:+ " exceeds "
                  +:+ itoa MaxBodyLen) ErrBodyTooLarge), w)
  else
    let raw := EncodeHeader (frame_header h body) in
    match writeFull w raw with
    | (Some e, w) => (Some e, w)
    | (None, w) =>
        if decide (0 < length body)%nat then writeFull w body else (None, w)
    end.
End writer.

(** ** The header as the concatenation of its fields *)
Lemma slice_here {A} (x l : list A) lo n :
  lo = 0%nat -> length x = n -> slice lo n (x ++ l) = x.
Proof. intros -> <-. unfold slice. by rewrite drop_0, Nat.sub_0_r, take_app_length. Qed.

Lemma slice_skip {A} (x l : list A) lo hi :
  (length x <= lo)%nat -> slice lo hi (x ++ l) = slice (lo - length x) (hi - length x) l.
Proof.
  intros. unfold slice. rewrite drop_app_ge by done. f_equal. lia.
Qed.

Lemma byte_at_here b l : byte_at 0 (b :: l) = b.
Proof. done. Qed.

Lemma byte_at_skip x l i : (length x <= i)%nat -> byte_at i (x ++ l) = byte_at (i - length x) l.
Proof. intros. unfold byte_at. by rewrite lookup_app_r. Qed.

Lemma write_zeros (off k n : nat) (src pre : list Byte.byte) :
  length pre = off -> n = (length src + k)%nat ->
  write_at off src (pre ++ replicate n Byte.x00) = (pre ++ src) ++ replicate k Byte.x00.
Proof.
  intros <- ->. rewrite replicate_add, <- app_assoc. apply write_at_app. apply length_replicate.
Qed.

Definition header_bytes (h : Header) : list Byte.byte :=
  HeaderFlag h ++ le_bytes 2 (uwrap 16 (MsgType h)) ++ [ProtoFmtType h] ++ [ProtoVer h]
  ++ le_bytes 4 (uwrap 32 (SerialNo h)) ++ le_bytes 4 (uwrap 32 (BodyLen h))
  ++ BodySHA1 h ++ [CompressAlgorithm h] ++ le_bytes 8 (uwrap 64 (Reserved h)).

Ltac lens :=
  unfold offHeaderFlag, offMsgType, offProtoFmtType, offProtoVer, offSerialNo, offBodyLen,
    offBodySHA1, offCompressAlgo, offReserved, HeaderSize, BodySHA1Len in *;
  rewrite ?length_app, ?length_le_bytes; simpl length; lia.

Lemma length_header_bytes h : Header_ok h -> length (header_bytes h) = HeaderSize.
Proof. intros [Hf _ _ _ Hs _]. unfold header_bytes. lens. Qed.

Lemma EncodeHeader_bytes h : Header_ok h -> EncodeHeader h = header_bytes h.
Proof.
  intros [Hf _ _ _ Hs _]. unfold EncodeHeader, put_le, header_bytes.
  rewrite <- (app_nil_l (replicate _ _)) at 1.
  rewrite (write_zeros offHeaderFlag 149), (write_zeros offMsgType 147),
    (write_zeros offProtoFmtType 146), (write_zeros offProtoVer 145),
    (write_zeros offSerialNo 141), (write_zeros offBodyLen 137),
    (write_zeros offBodySHA1 9), (write_zeros offCompressAlgo 8),
    (write_zeros offReserved 0) by lens.
  simpl replicate. rewrite app_nil_r, app_nil_l, <- !app_assoc. done.
Qed.

Lemma length_EncodeHeader h : Header_ok h -> length (EncodeHeader h) = HeaderSize.
Proof. intros. rewrite EncodeHeader_bytes by done. by apply length_header_bytes. Qed.

(** [intN(uintN(x))] through the wire is the identity on the range of [intN]. *)
Lemma get_put (n : nat) z :
  (0 < n)%nat -> in_s (8 * Z.of_nat n) z ->
  swrap (8 * Z.of_nat n) (le_Z (le_bytes n (uwrap (8 * Z.of_nat n) z))) = z.
Proof.
  intros Hn Hz. rewrite le_Z_le_bytes. replace (256 ^ Z.of_nat n) with (2 ^ (8 * Z.of_nat n))
    by (rewrite Z.pow_mul_r by lia; done).
  change (?a `mod` 2 ^ ?w) with (uwrap w a). rewrite !swrap_uwrap by lia. apply swrap_id; [lia | done].
Qed.

Ltac field_at :=
  repeat first [rewrite slice_here by lens | rewrite slice_skip by lens
               | rewrite byte_at_here | rewrite byte_at_skip by lens];
  rewrite ?length_app, ?length_le_bytes; simpl length.

Lemma DecodeHeader_bytes h rest :
  Header_ok h -> HeaderFlag h = Magic -> DecodeHeader (header_bytes h ++ rest) = inl h.
Proof.
  intros Hok Hm. pose proof (length_header_bytes h Hok) as Hlen.
  unfold DecodeHeader. rewrite decide_False by (rewrite length_app; unfold HeaderSize in *; lia).
  assert (Hflag : slice offHeaderFlag (offHeaderFlag + 2) (header_bytes h ++ rest) = Magic).
  { unfold header_bytes. rewrite <- !app_assoc, <- Hm. apply slice_here; [done |]. apply Hok. }
  rewrite Hflag, decide_False by (intros Hn; by apply Hn). f_equal.
  clear Hflag Hlen. destruct h as [flag ty fmt ver ser len sha comp res].
  destruct Hok as [_ Hty Hser Hbl Hsha Hres].
  cbn [HeaderFlag MsgType ProtoFmtType ProtoVer SerialNo BodyLen BodySHA1 CompressAlgorithm
       Reserved] in *. subst flag.
  unfold header_bytes, get_le, Magic.
  cbn [HeaderFlag MsgType ProtoFmtType ProtoVer SerialNo BodyLen BodySHA1 CompressAlgorithm
       Reserved].
  rewrite <- !app_assoc. f_equal.
  - transitivity (swrap 16 (le_Z (le_bytes 2 (uwrap 16 ty)))).
    + by do 2 f_equal; field_at.
    + by apply (get_put 2); [lia |].
  - transitivity (swrap 32 (le_Z (le_bytes 4 (uwrap 32 ser)))).
    + by do 2 f_equal; field_at.
    + by apply (get_put 4); [lia |].
  - transitivity (swrap 32 (le_Z (le_bytes 4 (uwrap 32 len)))).
    + by do 2 f_equal; field_at.
    + by apply (get_put 4); [lia |].
  - by field_at.
  - rewrite 7!byte_at_skip by lens. rewrite ?length_app, ?length_le_bytes, Hsha. done.
  - transitivity (swrap 64 (le_Z (le_bytes 8 (uwrap 64 res)))).
    + by do 2 f_equal; field_at.
    + by apply (get_put 8); [lia |].
Qed.

Lemma slice_join {A} lo mid hi (b : list A) :
  (lo <= mid <= hi)%nat -> slice lo mid b ++ slice mid hi b = slice lo hi b.
Proof.
  intros. unfold slice. replace (drop mid b) with (drop (mid - lo) (drop lo b)).
  - rewrite take_take_drop. f_equal. lia.
  - rewrite drop_drop. f_equal. lia.
Qed.

Lemma byte_at_slice i b : (i < length b)%nat -> [byte_at i b] = slice i (S i) b.
Proof.
  intros Hi. unfold byte_at, slice. destruct (lookup_lt_is_Some_2 b i Hi) as [x Hx].
  rewrite Hx, (drop_S b x i Hx). replace (S i - i)%nat with 1%nat by lia. done.
Qed.

Lemma put_get (n : nat) bs :
  (0 < n)%nat -> length bs = n ->
  le_bytes n (uwrap (8 * Z.of_nat n) (swrap (8 * Z.of_nat n) (le_Z bs))) = bs.
Proof.
  intros Hn Hl. rewrite uwrap_swrap, uwrap_id by (try lia; pose proof (le_Z_range bs) as Hr;
    unfold in_u; rewrite Z.pow_mul_r by lia; rewrite Hl in Hr; exact Hr).
  rewrite <- Hl. apply le_bytes_le_Z.
Qed.

Lemma get_le_slice off n b :
  (0 < n)%nat -> (off + n <= length b)%nat ->
  le_bytes n (uwrap (8 * Z.of_nat n) (get_le off n b)) = slice off (off + n) b.
Proof. intros. unfold get_le. apply put_get; [done |]. rewrite length_slice by lia. lia. Qed.

Lemma DecodeHeader_inv b h :
  DecodeHeader b = inl h ->
  (HeaderSize <= length b)%nat /\ Header_ok h /\ HeaderFlag h = Magic
  /\ header_bytes h = take HeaderSize b.
Proof.
  unfold DecodeHeader. case_decide as Hl; [done |]. case_decide as Hm; [done |].
  intros [= <-]. unfold HeaderSize in *. split; [lia |].
  split_and!.
  - split; cbn [HeaderFlag MsgType SerialNo BodyLen BodySHA1 Reserved];
      try (unfold get_le; apply swrap_range; lia).
    + rewrite length_slice by (unfold offHeaderFlag; lia). done.
    + rewrite length_slice by (unfold offBodySHA1, BodySHA1Len; lia). done.
  - exact Hm.
  - unfold header_bytes. cbn [HeaderFlag MsgType ProtoFmtType ProtoVer SerialNo BodyLen BodySHA1
      CompressAlgorithm Reserved].
    change 16 with (8 * Z.of_nat 2). change 32 with (8 * Z.of_nat 4). change 64 with (8 * Z.of_nat 8).
    rewrite !get_le_slice by (unfold offMsgType, offSerialNo, offBodyLen, offReserved; lia).
    rewrite !byte_at_slice by (unfold offProtoFmtType, offProtoVer, offCompressAlgo; lia).
    unfold offHeaderFlag, offMsgType, offProtoFmtType, offProtoVer, offSerialNo, offBodyLen,
      offBodySHA1, offCompressAlgo, offReserved, BodySHA1Len. simpl Nat.add.
    rewrite !slice_join by lia. unfold slice. by rewrite drop_0.
Qed.

(** An encoded header decodes to itself, whatever bytes follow it. *)
Theorem decode_encode_header (h : Header) (rest : list Byte.byte) :
  Header_ok h -> HeaderFlag h = Magic ->
  DecodeHeader (EncodeHeader h ++ rest) = inl h.
Proof. intros Hok Hm. rewrite EncodeHeader_bytes by done. by apply DecodeHeader_bytes. Qed.

(** A header that decodes is in the range of its Go types, carries the
    magic, and re-encodes to exactly the 151 bytes it was read from. *)
Theorem encode_decode_header (b : list Byte.byte) (h : Header) :
  DecodeHeader b = inl h ->
  Header_ok h /\ HeaderFlag h = Magic /\ EncodeHeader h = take HeaderSize b.
Proof.
  intros (Hl & Hok & Hm & Hb)%DecodeHeader_inv. by rewrite EncodeHeader_bytes.
Qed.

(** ** Frames *)

(** What [WriteFrame] requires of a header before it normalises it. *)
Record Frame_ok (h : Header) (body : list Byte.byte) : Prop := {
  fr_type : in_s 16 (MsgType h);
  fr_serial : in_s 32 (SerialNo h);
  fr_sha : length (BodySHA1 h) = BodySHA1Len;
  fr_reserved : in_s 64 (Reserved h);
  fr_compress : CompressAlgorithm h = Byte.x00;
  fr_body : Z.of_nat (length body) <= MaxBodyLen;
}.

Lemma body_len_id (body : list Byte.byte) :
  Z.of_nat (length body) <= MaxBodyLen ->
  swrap 32 (Z.of_nat (length body)) = Z.of_nat (length body).
Proof.
  intros Hb. apply swrap_id; [lia |]. change MaxBodyLen with 8388608 in Hb.
  unfold in_s. change (2 ^ (32 - 1)) with 2147483648. lia.
Qed.

Lemma frame_header_ok h body : Frame_ok h body -> Header_ok (frame_header h body).
Proof. intros []. split; simpl; try done. by apply swrap_range. Qed.

Definition frame_bytes (h : Header) (body : list Byte.byte) : list Byte.byte :=
  header_bytes (frame_header h body) ++ body.

Lemma ReadFull_app (bs rest : list Byte.byte) e n :
  n = length bs -> ReadFull (mkReader (bs ++ rest) e) n = (inl bs, mkReader rest e).
Proof.
  intros ->. unfold ReadFull. simpl. rewrite decide_True by (rewrite length_app; lia).
  by rewrite take_app_length, drop_app_length.
Qed.

Lemma ReadFrame_bytes h body rest e :
  Frame_ok h body ->
  ReadFrame (mkReader (frame_bytes h body ++ rest) e)
    = (inl (frame_header h body, body), mkReader rest e).
Proof.
  intros Hok. pose proof (frame_header_ok h body Hok) as Hh.
  unfold ReadFrame, frame_bytes. rewrite <- app_assoc, ReadFull_app
    by (by rewrite length_header_bytes).
  rewrite <- (app_nil_r (header_bytes _)), DecodeHeader_bytes by done.
  destruct Hok as [_ _ _ _ Hc Hb]. pose proof (body_len_id body Hb) as Hl.
  cbn [frame_header BodyLen CompressAlgorithm]. rewrite Hl.
  rewrite decide_False by lia. rewrite decide_False by lia.
  rewrite decide_False by (intros Hn; by apply Hn).
  case_decide as H0.
  - destruct body; [done | simpl in H0; lia].
  - rewrite Nat2Z.id, ReadFull_app by done. done.
Qed.

(** An in-memory writer: every [Write] appends all its bytes. *)
Definition mem_write (w bs : list Byte.byte) : (Z * option error) * list Byte.byte :=
  ((Z.of_nat (length bs), None), w ++ bs).

Lemma WriteFrame_mem w h body :
  Frame_ok h body -> WriteFrame mem_write w h body = (None, w ++ frame_bytes h body).
Proof.
  intros Hok. pose proof (frame_header_ok h body Hok) as Hh. destruct Hok as [_ _ _ _ _ Hb].
  unfold WriteFrame, writeFull, mem_write, frame_bytes. rewrite decide_False by lia.
  rewrite EncodeHeader_bytes by done. rewrite decide_False by (intros Hn; by apply Hn).
  case_decide.
  - rewrite decide_False by (intros Hn; by apply Hn). by rewrite <- app_assoc.
  - destruct body; simpl in *; [by rewrite app_nil_r | lia].
Qed.

(** The read loop's view of a stream: the frames up to the first failure. *)
Fixpoint ReadFrames (fuel : nat) (r : Reader) : list (Header * list Byte.byte) * option error :=
  match fuel with
  | O => ([], None)
  | S fuel =>
      match ReadFrame r with
      | (inl f, r) => let '(fs, e) := ReadFrames fuel r in (f :: fs, e)
      | (inr e, _) => ([], Some e)
      end
  end.

Lemma ReadFrames_S n r :
  ReadFrames (S n) r
    = match ReadFrame r with
      | (inl f, r) => let '(fs, e) := ReadFrames n r in (f :: fs, e)
      | (inr e, _) => ([], Some e)
      end.
Proof. done. Qed.

Definition WriteFrames (fs : list (Header * list Byte.byte)) : list Byte.byte :=
  foldl (fun w f => snd (WriteFrame mem_write w (fst f) (snd f))) [] fs.

Lemma foldl_WriteFrame w fs :
  Forall (fun f => Frame_ok (fst f) (snd f)) fs ->
  foldl (fun w f => snd (WriteFrame mem_write w (fst f) (snd f))) w fs
    = w ++ mjoin ((fun f => frame_bytes (fst f) (snd f)) <$> fs).
Proof.
  revert w. induction fs as [|[h b] fs IH]; intros w Hall; simpl; [by rewrite app_nil_r |].
  apply Forall_cons in Hall as [H1 H2]. simpl in H1.
  rewrite WriteFrame_mem by done. simpl. rewrite IH by done. by rewrite <- app_assoc.
Qed.

Lemma ReadFrames_mjoin fs e :
  Forall (fun f => Frame_ok (fst f) (snd f)) fs ->
  ReadFrames (S (length fs)) (mkReader (mjoin ((fun f => frame_bytes (fst f) (snd f)) <$> fs)) e)
    = ((fun f => (frame_header (fst f) (snd f), snd f)) <$> fs, Some e).
Proof.
  induction fs as [|[h b] fs IH]; intros Hall.
  - done.
  - apply Forall_cons in Hall as [H1 H2]. simpl in H1. cbn [length].
    rewrite ReadFrames_S, fmap_cons. cbn [fst snd].
    change (mjoin (?x :: ?l)) with (x ++ mjoin l).
    rewrite ReadFrame_bytes, IH by done. done.
Qed.

(** C12: a sequence of frames written one after the other to a stream is read
    back in order, each with its header normalised to the magic and the body
    length; nothing is invented, dropped or merged, and the stream's own error
    is then reported. *)
Theorem frames_roundtrip (fs : list (Header * list Byte.byte)) (e : error) :
  Forall (fun f => Frame_ok (fst f) (snd f)) fs ->
  ReadFrames (S (length fs)) (mkReader (WriteFrames fs) e)
    = ((fun f => (frame_header (fst f) (snd f), snd f)) <$> fs, Some e).
Proof. intros Hall. unfold WriteFrames. rewrite foldl_WriteFrame by done. by apply ReadFrames_mjoin. Qed.

Lemma ReadFull_inl r n bs r' :
  ReadFull r n = (inl bs, r') ->
  length bs = n /\ data r = bs ++ data r' /\ fin r' = fin r.
Proof.
  unfold ReadFull. case_decide; [|done]. intros [= <- <-]. simpl.
  rewrite length_take, take_drop. split_and!; try done. lia.
Qed.

Definition frame_errors : list string :=
  ["push: bad header magic"; "push: invalid body length"; "push: body too large";
   "push: unsupported compression algorithm"].

(** What an accepted frame looks like. *)
Lemma ReadFrame_inv (r r' : Reader) (h : Header) (body : list Byte.byte) :
  ReadFrame r = (inl (h, body), r') ->
  HeaderFlag h = Magic /\ CompressAlgorithm h = Byte.x00
  /\ 0 <= BodyLen h <= MaxBodyLen /\ Z.of_nat (length body) = BodyLen h
  /\ data r = EncodeHeader h ++ body ++ data r' /\ fin r' = fin r /\ Header_ok h.
Proof.
  unfold ReadFrame. destruct (ReadFull r HeaderSize) as [[raw|e] r1] eqn:H1; [|done].
  apply ReadFull_inl in H1 as (Hl1 & Hd1 & Hf1).
  destruct (DecodeHeader raw) as [h'|e] eqn:HD; [|done].
  apply DecodeHeader_inv in HD as (_ & Hok & Hm & Hb).
  rewrite <- Hl1, firstn_all in Hb.
  case_decide as Hneg; [done |]. case_decide as Hbig; [done |].
  case_decide as Hcomp; [done |].
  case_decide as Hz; [intros [= <- <- <-] |].
  - rewrite EncodeHeader_bytes, Hb by done. split_and!; try done; lia.
  - destruct (ReadFull r1 _) as [[bs|e] r2] eqn:H2; [|done]. intros [= <- <- <-].
    apply ReadFull_inl in H2 as (Hl2 & Hd2 & Hf2).
    rewrite EncodeHeader_bytes, Hb, Hd1, Hd2 by done. split_and!; try done; try lia. congruence.
Qed.

(** What [ReadFrame] accepts is a frame: the body has the advertised length,
    which is within [MaxBodyLen], it is uncompressed, and exactly the header and
    the body were consumed. *)
Theorem read_frame_accepts (r r' : Reader) (h : Header) (body : list Byte.byte) :
  ReadFrame r = (inl (h, body), r') ->
  HeaderFlag h = Magic /\ CompressAlgorithm h = Byte.x00
  /\ 0 <= BodyLen h <= MaxBodyLen /\ Z.of_nat (length body) = BodyLen h
  /\ data r = EncodeHeader h ++ body ++ data r'.
Proof. intros HR. apply ReadFrame_inv in HR. intuition. Qed.

(** A header refused for its magic, its length or its compression is refused
    before any body byte is read: exactly the 151 header bytes were consumed. *)
Theorem read_frame_rejects_early (r r' : Reader) (e : error) :
  ReadFrame r = (inr e, r') ->
  (exists s, s ∈ frame_errors /\ errors_Is e s = true /\ errors_Is (fin r) s = false) ->
  (HeaderSize <= length (data r))%nat /\ data r' = drop HeaderSize (data r).
Proof.
  intros HR (s & Hs & HI & Hfin). unfold ReadFrame in HR.
  assert (Hfull : forall n r0 x r1, fin r0 = fin r -> ReadFull r0 n = (inr x, r1) -> errors_Is x s = false).
  { intros n r0 x r1 Hf Hx. unfold ReadFull in Hx. case_decide; [done |]. injection Hx as <- <-.
    rewrite <- Hf in Hfin. unfold frame_errors in Hs.
    destruct (data r0); [done |]. repeat (case_match; try done); simplify_eq; subst;
    simpl; apply bool_decide_eq_false; set_solver. }
  destruct (ReadFull r HeaderSize) as [[raw|x] r1] eqn:H1.
  2: { injection HR as <- <-. rewrite (Hfull _ _ _ _ eq_refl H1) in HI. done. }
  assert (Hr1 : (HeaderSize <= length (data r))%nat /\ data r1 = drop HeaderSize (data r) /\ fin r1 = fin r).
  { unfold ReadFull in H1. case_decide; [|done]. by injection H1 as <- <-. }
  destruct Hr1 as (Hlen & Hd & Hf1). split; [done |].
  destruct (DecodeHeader raw); [|by injection HR as <- <-].
  repeat (case_decide; [by injection HR as <- <- |]). case_decide; [done |].
  destruct (ReadFull r1 _) as [[bs|x] r2] eqn:HR2; [done |].
  injection HR as <- <-. rewrite (Hfull _ _ _ _ Hf1 HR2) in HI. done.
Qed.

(** ** Witnesses *)
Definition sample_header : Header :=
  mkHeader Magic MsgPush Byte.x01 Byte.x01 (-7) 3 (replicate BodySHA1Len Byte.xa5) Byte.x00 42.
Definition sample_body : list Byte.byte := [Byte.x61; Byte.x62; Byte.x63].

Lemma sample_ok : Header_ok sample_header.
Proof. split; cbn -[Z.pow]; unfold in_s; simpl; try done; lia. Qed.

Lemma sample_frame_ok : Frame_ok sample_header sample_body.
Proof. split; cbn -[Z.pow]; unfold in_s; simpl; try done; lia. Qed.

Lemma decode_encode_header_witness :
  DecodeHeader (EncodeHeader sample_header ++ sample_body) = inl sample_header.
Proof. exact (decode_encode_header sample_header sample_body sample_ok eq_refl). Defined.

Lemma encode_decode_header_witness :
  EncodeHeader sample_header = take HeaderSize (EncodeHeader sample_header).
Proof.
  exact (proj2 (proj2 (encode_decode_header (EncodeHeader sample_header) sample_header
    ltac:(vm_compute; reflexivity)))).
Defined.

Lemma frames_roundtrip_witness :
  ReadFrames 3 (mkReader (WriteFrames [(sample_header, sample_body); (sample_header, [])]) EOF)
    = ([(frame_header sample_header sample_body, sample_body);
        (frame_header sample_header [], [])], Some EOF).
Proof.
  apply (frames_roundtrip [(sample_header, sample_body); (sample_header, [])] EOF).
  repeat apply Forall_cons_2; [exact sample_frame_ok | | apply Forall_nil_2].
  destruct sample_frame_ok; by split.
Defined.

Lemma read_frame_accepts_witness :
  Z.of_nat (length sample_body) = BodyLen sample_header.
Proof.
  refine (proj1 (proj2 (proj2 (proj2 (read_frame_accepts
    (mkReader (EncodeHeader sample_header ++ sample_body) EOF) (mkReader [] EOF)
    sample_header sample_body _))))).
  vm_compute; reflexivity.
Defined.

Lemma read_frame_rejects_early_witness :
  data (snd (ReadFrame (mkReader (replicate 200 Byte.x41) EOF)))
    = drop HeaderSize (replicate 200 Byte.x41).
Proof.
  refine (proj2 (read_frame_rejects_early (mkReader (replicate 200 Byte.x41) EOF) _
    (EWrap "push: bad header magic" ErrBadMagic) _ _)).
  - vm_compute; reflexivity.
  - exists "push: bad header magic". split; [apply list_elem_of_here | split; reflexivity].
Defined.
