(* ===== verification/Breaker.v ===== *)
(** The circuit breaker: [src/internal/resilience/breaker.go].

    Every method holds the mutex for its whole body, so a history of calls is a
    sequence of operations on the record. The clock ([b.now]) is read at most
    once per call and is the argument [now]. *)
From S2P Require Import Prelude Types Errs.

Create HintDb breaker.

Definition ErrCircuitOpen : error := ESentinel "resilience: circuit breaker is open".

(** [type State int], an [iota] enumeration. *)
Definition StateClosed : Z := 0.
Definition StateOpen : Z := 1.
Definition StateHalfOpen : Z := 2.

Definition State_String (s : Z) : string :=
  switch s [(StateClosed, "closed"); (StateOpen, "open"); (StateHalfOpen, "half-open")] "unknown".

Definition DefaultFailureThreshold : Z := 5.
Definition DefaultCooldown : Z := 30 * 1000000000.

Record Breaker := mkBreaker {
  state : Z;
  threshold : Z;
  cooldown : Z;
  halfOpenProbes : Z;
  failures : Z;
  probes : Z;
  openedAt : Z;
}.

(** The zero [time.Time] is the time [0] here: [openedAt] is read only after it
    was set. *)
Definition NewBreaker (threshold cooldown : Z) : Breaker :=
  let threshold := if decide (threshold <= 0) then DefaultFailureThreshold else threshold in
  let cooldown := if decide (cooldown <= 0) then DefaultCooldown else cooldown in
  mkBreaker StateClosed threshold cooldown 1 0 0 0.

Definition set_state (s : Z) (b : Breaker) : Breaker :=
  mkBreaker s (threshold b) (cooldown b) (halfOpenProbes b) (failures b) (probes b) (openedAt b).
Definition set_probes (p : Z) (b : Breaker) : Breaker :=
  mkBreaker (state b) (threshold b) (cooldown b) (halfOpenProbes b) (failures b) p (openedAt b).
Definition set_failures (f : Z) (b : Breaker) : Breaker :=
  mkBreaker (state b) (threshold b) (cooldown b) (halfOpenProbes b) f (probes b) (openedAt b).
Definition set_openedAt (t : Z) (b : Breaker) : Breaker :=
  mkBreaker (state b) (threshold b) (cooldown b) (halfOpenProbes b) (failures b) (probes b) t.

(** The half-open part of [Allow], which the open part falls through to. *)
Definition allow_probe (b : Breaker) : bool * Breaker :=
  if decide (state b = StateHalfOpen) then
    if decide (probes b >= halfOpenProbes b) then (false, b)
    else (true, set_probes (swrap 64 (probes b + 1)) b)
  else (true, b).

Definition Allow (now : Z) (b : Breaker) : bool * Breaker :=
  if decide (state b = StateOpen) then
    if decide (time_sub now (openedAt b) < cooldown b) then (false, b)
    else allow_probe (set_probes 0 (set_state StateHalfOpen b))
  else allow_probe b.

Definition OnSuccess (b : Breaker) : Breaker :=
  if decide (state b = StateOpen) then b
  else set_probes 0 (set_failures 0 (set_state StateClosed b)).

Definition OnFailure (now : Z) (b : Breaker) : Breaker :=
  if decide (state b = StateHalfOpen) then
    let b := set_probes 0 (set_openedAt now (set_state StateOpen b)) in
    set_failures (swrap 64 (failures b + 1)) b
  else if decide (state b = StateClosed) then
    let b := set_failures (swrap 64 (failures b + 1)) b in
    if decide (failures b >= threshold b) then set_openedAt now (set_state StateOpen b) else b
  else b.

(** ** Histories *)
Inductive op := OpAllow (now : Z) | OpSuccess | OpFailure (now : Z).

Definition op_time (o : op) : option Z :=
  match o with OpAllow t | OpFailure t => Some t | OpSuccess => None end.

(** The answer of a call ([true] where there is none) and the new breaker. *)
Definition step (b : Breaker) (o : op) : bool * Breaker :=
  match o with
  | OpAllow t => Allow t b
  | OpSuccess => (true, OnSuccess b)
  | OpFailure t => (true, OnFailure t b)
  end.

Fixpoint run (b : Breaker) (os : list op) : list bool * Breaker :=
  match os with
  | [] => ([], b)
  | o :: os =>
      let '(a, b) := step b o in
      let '(l, b) := run b os in (a :: l, b)
  end.

Lemma run_app b os1 os2 :
  run b (os1 ++ os2)
    = let '(l1, b1) := run b os1 in let '(l2, b2) := run b1 os2 in (l1 ++ l2, b2).
Proof.
  revert b. induction os1 as [|o os1 IH]; intros b; simpl.
  - by destruct (run b os2).
  - destruct (step b o) as [a b1]. rewrite IH.
    destruct (run b1 os1) as [l1 b2]. by destruct (run b2 os2).
Qed.

(** ** Invariant *)
Record inv (th cd : Z) (b : Breaker) : Prop := {
  inv_threshold : threshold b = th;
  inv_cooldown : cooldown b = cd;
  inv_probe_limit : halfOpenProbes b = 1;
  inv_state : state b = StateClosed \/ state b = StateOpen \/ state b = StateHalfOpen;
  inv_closed : state b = StateClosed -> 0 <= failures b < th;
  inv_probes : probes b = if decide (state b = StateHalfOpen) then 1 else 0;
}.

Definition effective_threshold (th : Z) : Z :=
  if decide (th <= 0) then DefaultFailureThreshold else th.
Definition effective_cooldown (cd : Z) : Z := if decide (cd <= 0) then DefaultCooldown else cd.

Lemma effective_threshold_pos th : 0 < effective_threshold th.
Proof. unfold effective_threshold, DefaultFailureThreshold. case_decide; lia. Qed.

Lemma effective_cooldown_pos cd : 0 < effective_cooldown cd.
Proof. unfold effective_cooldown, DefaultCooldown. case_decide; lia. Qed.

#[export] Hint Resolve effective_threshold_pos effective_cooldown_pos : breaker.

Lemma NewBreaker_inv th cd : inv (effective_threshold th) (effective_cooldown cd) (NewBreaker th cd).
Proof.
  pose proof (effective_threshold_pos th). split; simpl; auto; lia.
Qed.

(** ** The abstract breaker

    What the component promises, without counters: closed with the number of
    consecutive failures, open since a time, or half-open with the probe out. *)
Inductive spec := SClosed (n : Z) | SOpen (since : Z) | SHalfOpen.

Definition spec_step (th cd : Z) (s : spec) (o : op) : bool * spec :=
  match s, o with
  | SClosed n, OpAllow _ => (true, s)
  | SClosed _, OpSuccess => (true, SClosed 0)
  | SClosed n, OpFailure t =>
      (true, if decide (n + 1 >= th) then SOpen t else SClosed (n + 1))
  | SOpen since, OpAllow t =>
      if decide (time_sub t since < cd) then (false, s) else (true, SHalfOpen)
  | SOpen _, (OpSuccess | OpFailure _) => (true, s)
  | SHalfOpen, OpAllow _ => (false, s)
  | SHalfOpen, OpSuccess => (true, SClosed 0)
  | SHalfOpen, OpFailure t => (true, SOpen t)
  end.

Fixpoint spec_run (th cd : Z) (s : spec) (os : list op) : list bool * spec :=
  match os with
  | [] => ([], s)
  | o :: os =>
      let '(a, s) := spec_step th cd s o in
      let '(l, s) := spec_run th cd s os in (a :: l, s)
  end.

(** The abstraction function. *)
Definition abs (b : Breaker) : spec :=
  if decide (state b = StateOpen) then SOpen (openedAt b)
  else if decide (state b = StateHalfOpen) then SHalfOpen
  else SClosed (failures b).

Ltac breaker_cases :=
  repeat (case_decide; simpl in *; try lia; simplify_eq/=; try done).

Lemma swrap64_succ n : 0 <= n < int_max -> swrap 64 (n + 1) = n + 1.
Proof. intros. apply swrap64_id. unfold int_min, int_max in *. lia. Qed.

(** One call: the invariant is kept and the abstract breaker does the same. *)
Lemma step_refines th cd b o :
  0 < th <= int_max -> inv th cd b ->
  inv th cd (snd (step b o)) /\
  spec_step th cd (abs b) o = (fst (step b o), abs (snd (step b o))).
Proof.
  intros Hth [Ht Hc Hp Hs Hcl Hpr].
  destruct b as [s th' cd' hp f p t]; cbn [state threshold cooldown halfOpenProbes failures probes
    openedAt] in *; subst th' cd' hp.
  destruct Hs as [-> | [-> | ->]]; simpl in Hpr; subst p.
  - specialize (Hcl eq_refl).
    destruct o as [now| |now]; simpl.
    + split; [by split; simpl; auto | done].
    + split; [split; simpl; auto; lia | done].
    + unfold OnFailure; simpl. rewrite swrap64_succ by lia.
      unfold abs; breaker_cases; split; try done; split; simpl; auto; try lia; done.
  - destruct o as [now| |now]; simpl; [|split; [by split; simpl; auto | done]..].
    unfold Allow, abs; simpl. breaker_cases; (split; [split; simpl; auto; done | done]).
  - destruct o as [now| |now]; simpl.
    + split; [by split; simpl; auto | done].
    + split; [split; simpl; auto; lia | done].
    + split; [split; simpl; auto; done | done].
Qed.

Lemma run_refines th cd b os :
  0 < th <= int_max -> inv th cd b ->
  inv th cd (snd (run b os)) /\
  spec_run th cd (abs b) os = (fst (run b os), abs (snd (run b os))).
Proof.
  intros Hth. revert b. induction os as [|o os IH]; intros b Hb; simpl; [done |].
  destruct (step_refines th cd b o Hth Hb) as [Hi Hr]. destruct (step b o) as [a b1]. simpl in *.
  rewrite Hr. destruct (IH b1 Hi) as [Hi' Hr']. rewrite Hr'.
  destruct (run b1 os) as [l b2]. done.
Qed.

(** C3: for every configuration and every history of calls at whatever times,
    the breaker answers exactly as the abstract one: counters, probe budget and
    wrapped arithmetic never show. *)
Theorem breaker_refines_spec (th cd : Z) (os : list op) :
  th <= int_max ->
  fst (run (NewBreaker th cd) os)
    = fst (spec_run (effective_threshold th) (effective_cooldown cd) (SClosed 0) os)
  /\ abs (snd (run (NewBreaker th cd) os))
    = snd (spec_run (effective_threshold th) (effective_cooldown cd) (SClosed 0) os).
Proof.
  intros Hth.
  assert (0 < effective_threshold th <= int_max).
  { pose proof (effective_threshold_pos th). unfold effective_threshold, DefaultFailureThreshold,
      int_max in *. case_decide; lia. }
  destruct (run_refines _ (effective_cooldown cd) (NewBreaker th cd) os H (NewBreaker_inv th cd))
    as [_ Hr].
  change (abs (NewBreaker th cd)) with (SClosed 0) in Hr. by rewrite Hr.
Qed.

(** ** Reachable breakers *)
Inductive reachable (th cd : Z) : Breaker -> Prop :=
  | reach_new : reachable th cd (NewBreaker th cd)
  | reach_step b o : reachable th cd b -> reachable th cd (snd (step b o)).

Lemma effective_threshold_range th : th <= int_max -> 0 < effective_threshold th <= int_max.
Proof.
  intros. pose proof (effective_threshold_pos th).
  unfold effective_threshold, DefaultFailureThreshold, int_max in *. case_decide; lia.
Qed.

Lemma reachable_inv th cd b :
  th <= int_max -> reachable th cd b -> inv (effective_threshold th) (effective_cooldown cd) b.
Proof.
  intros Hth. induction 1 as [|b o _ IH]; [apply NewBreaker_inv |].
  apply step_refines; auto using effective_threshold_range.
Qed.

Lemma run_reachable th cd b os : reachable th cd b -> reachable th cd (snd (run b os)).
Proof.
  revert b. induction os as [|o os IH]; intros b Hb; simpl; [done |].
  pose proof (IH _ (reach_step _ _ b o Hb)) as H. destruct (step b o) as [a b1]. simpl in *.
  by destruct (run b1 os).
Qed.

(** In every reachable breaker the probe budget is spent exactly while the
    breaker is half-open, and a closed breaker has counted fewer failures than
    the threshold, so no counter can overflow into a wrong decision. *)
Theorem reachable_breaker_wf (th cd : Z) (b : Breaker) :
  th <= int_max -> reachable th cd b ->
  (state b = StateClosed \/ state b = StateOpen \/ state b = StateHalfOpen)
  /\ probes b = (if decide (state b = StateHalfOpen) then 1 else 0)
  /\ (state b = StateClosed -> 0 <= failures b < effective_threshold th)
  /\ 0 < cooldown b.
Proof.
  intros Hth Hr. destruct (reachable_inv th cd b Hth Hr) as [_ Hc _ Hs Hcl Hp].
  rewrite Hc. auto using effective_cooldown_pos.
Qed.

(** ** Opening *)
Definition is_failure (o : op) : bool := match o with OpFailure _ => true | _ => false end.
Definition no_success (os : list op) : Prop := Forall (fun o => o <> OpSuccess) os.
Definition failure_count (os : list op) : Z := Z.of_nat (length (List.filter is_failure os)).

Lemma spec_run_app th cd s os1 os2 :
  spec_run th cd s (os1 ++ os2)
    = let '(l1, s1) := spec_run th cd s os1 in
      let '(l2, s2) := spec_run th cd s1 os2 in (l1 ++ l2, s2).
Proof.
  revert s. induction os1 as [|o os1 IH]; intros s; simpl.
  - by destruct (spec_run th cd s os2).
  - destruct (spec_step th cd s o) as [a s1]. rewrite IH.
    destruct (spec_run th cd s1 os1) as [l1 s2]. by destruct (spec_run th cd s2 os2).
Qed.

Lemma failure_count_cons o os :
  failure_count (o :: os) = (if is_failure o then 1 else 0) + failure_count os.
Proof.
  unfold failure_count. cbn [List.filter]. destruct (is_failure o); cbn [length]; lia.
Qed.

Lemma failure_count_nonneg os : 0 <= failure_count os.
Proof. unfold failure_count. lia. Qed.

Lemma spec_run_closed th cd n os :
  no_success os -> n + failure_count os < th ->
  spec_run th cd (SClosed n) os
    = (replicate (length os) true, SClosed (n + failure_count os)).
Proof.
  revert n. induction os as [|o os IH]; intros n Hns Hlt.
  - simpl. by rewrite Z.add_0_r.
  - apply Forall_cons in Hns as [Ho Hns]. rewrite failure_count_cons in *.
    pose proof (failure_count_nonneg os).
    destruct o as [t| |t]; [|done|]; cbn [spec_run spec_step is_failure] in *.
    + rewrite IH by (done || lia). done.
    + rewrite decide_False by lia. rewrite IH by (done || lia). simpl. do 2 f_equal. lia.
Qed.

(** The breaker opens on the failure that completes [threshold] failures
    with no success between them, at that failure's time, and not before: until
    then every call is allowed, however the calls and the failures interleave. *)
Theorem breaker_opens_at_threshold (th cd t : Z) (os : list op) :
  th <= int_max -> no_success os -> failure_count os = effective_threshold th - 1 ->
  let '(answers, b) := run (NewBreaker th cd) os in
  answers = replicate (length os) true /\ state b = StateClosed
  /\ state (OnFailure t b) = StateOpen /\ openedAt (OnFailure t b) = t.
Proof.
  intros Hth Hns Hfc. pose proof (effective_threshold_range th Hth) as Hth'.
  pose proof (run_refines _ (effective_cooldown cd) _ os Hth' (NewBreaker_inv th cd)) as [Hi Hr].
  change (abs (NewBreaker th cd)) with (SClosed 0) in Hr.
  rewrite spec_run_closed in Hr by (done || lia).
  destruct (run (NewBreaker th cd) os) as [answers b]. simpl in *. injection Hr as <- Hb.
  destruct Hi as [Ht _ _ Hs Hcl _]. unfold abs in Hb. repeat case_decide; try done.
  destruct Hs as [Hs | [Hs | Hs]]; try done. injection Hb as Hf.
  split; [done |]. split; [done |]. unfold OnFailure. rewrite Hs.
  rewrite decide_False, decide_True by done. simpl.
  rewrite swrap64_succ by (rewrite <- Hf; lia). rewrite decide_True by (rewrite <- Hf, Ht; lia). done.
Qed.

(** ** Open and half-open *)
Lemma spec_run_open th cd since os :
  Forall (fun o => forall t, o = OpAllow t -> time_sub t since < cd) os ->
  spec_run th cd (SOpen since) os
    = ((fun o => match o with OpAllow _ => false | _ => true end) <$> os, SOpen since).
Proof.
  induction os as [|o os IH]; intros Hall; [done |].
  apply Forall_cons in Hall as [Ho Hall]. cbn [spec_run].
  destruct o as [t| |t]; cbn [spec_step]; rewrite ?IH by done; try done.
  rewrite decide_True by auto. rewrite IH by done. done.
Qed.

Lemma reachable_run th cd b os :
  th <= int_max -> reachable th cd b ->
  spec_run (effective_threshold th) (effective_cooldown cd) (abs b) os
    = (fst (run b os), abs (snd (run b os))).
Proof.
  intros Hth Hr. apply run_refines; auto using effective_threshold_range, reachable_inv.
Qed.

(** An open breaker refuses every call until its cooldown has elapsed, and
    no outcome reported meanwhile by a call that was already in flight, success
    or failure, closes it or extends the cooldown. *)
Theorem open_breaker_refuses (th cd : Z) (b : Breaker) (os : list op) :
  th <= int_max -> reachable th cd b -> state b = StateOpen ->
  Forall (fun o => forall t, o = OpAllow t -> time_sub t (openedAt b) < effective_cooldown cd) os ->
  fst (run b os) = (fun o => match o with OpAllow _ => false | _ => true end) <$> os
  /\ state (snd (run b os)) = StateOpen /\ openedAt (snd (run b os)) = openedAt b.
Proof.
  intros Hth Hr Hs Hall. pose proof (reachable_run th cd b os Hth Hr) as Hrun.
  assert (Ha : abs b = SOpen (openedAt b)) by (unfold abs; by rewrite decide_True).
  rewrite Ha, spec_run_open in Hrun by done. injection Hrun as Hl Hb. split; [done |].
  unfold abs in Hb. repeat case_decide; by simplify_eq.
Qed.

Lemma spec_run_half th cd ts :
  spec_run th cd SHalfOpen (OpAllow <$> ts) = (replicate (length ts) false, SHalfOpen).
Proof. induction ts as [|t ts IH]; [done |]. cbn [fmap list_fmap spec_run spec_step]. by rewrite IH. Qed.

(** Once the cooldown has elapsed exactly one caller is let through as the
    probe; every later caller is refused, at whatever time it asks, until the
    outcome of the probe is reported. A probe whose outcome is never reported
    is therefore never replaced. *)
Theorem half_open_single_probe (th cd : Z) (b : Breaker) (t : Z) (ts : list Z) :
  th <= int_max -> reachable th cd b -> state b = StateOpen ->
  effective_cooldown cd <= time_sub t (openedAt b) ->
  fst (run b (OpAllow <$> t :: ts)) = true :: replicate (length ts) false
  /\ state (snd (run b (OpAllow <$> t :: ts))) = StateHalfOpen.
Proof.
  intros Hth Hr Hs Ht. pose proof (reachable_run th cd b (OpAllow <$> t :: ts) Hth Hr) as Hrun.
  assert (Ha : abs b = SOpen (openedAt b)) by (unfold abs; by rewrite decide_True).
  rewrite Ha, fmap_cons in Hrun. cbn [spec_run spec_step] in Hrun.
  rewrite decide_False, spec_run_half in Hrun by lia. rewrite fmap_cons.
  injection Hrun as Hl Hb. split; [done |].
  unfold abs in Hb. repeat case_decide; by simplify_eq.
Qed.

(** ** Witnesses *)
Lemma breaker_refines_spec_witness :
  2 <= int_max /\
  fst (run (NewBreaker 2 10) [OpFailure 5; OpAllow 6; OpFailure 7; OpAllow 16; OpAllow 17; OpAllow 18])
    = fst (spec_run 2 10 (SClosed 0)
             [OpFailure 5; OpAllow 6; OpFailure 7; OpAllow 16; OpAllow 17; OpAllow 18]).
Proof.
  split; [done |].
  exact (proj1 (breaker_refines_spec 2 10
    [OpFailure 5; OpAllow 6; OpFailure 7; OpAllow 16; OpAllow 17; OpAllow 18] ltac:(done))).
Defined.

Lemma reachable_breaker_wf_witness :
  probes (snd (run (NewBreaker 1 10) [OpFailure 5; OpAllow 15])) = 1.
Proof.
  exact (proj1 (proj2 (reachable_breaker_wf 1 10 _ ltac:(done)
    (run_reachable 1 10 _ [OpFailure 5; OpAllow 15] (reach_new 1 10))))).
Defined.

Lemma breaker_opens_at_threshold_witness :
  state (OnFailure 9 (snd (run (NewBreaker 3 10) [OpFailure 5; OpAllow 6; OpFailure 7]))) = StateOpen.
Proof.
  exact (proj1 (proj2 (proj2 (breaker_opens_at_threshold 3 10 9 [OpFailure 5; OpAllow 6; OpFailure 7]
    ltac:(done) ltac:(repeat constructor; done) ltac:(vm_compute; reflexivity))))).
Defined.

Lemma open_breaker_refuses_witness :
  fst (run (snd (run (NewBreaker 1 10) [OpFailure 5])) [OpAllow 6; OpSuccess; OpAllow 14])
    = [false; true; false].
Proof.
  apply (open_breaker_refuses 1 10 (snd (run (NewBreaker 1 10) [OpFailure 5]))
    [OpAllow 6; OpSuccess; OpAllow 14]); [done | | done |].
  - exact (run_reachable 1 10 _ [OpFailure 5] (reach_new 1 10)).
  - repeat constructor; intros t Ht; inversion Ht; vm_compute; reflexivity.
Defined.

Lemma half_open_single_probe_witness :
  fst (run (snd (run (NewBreaker 1 10) [OpFailure 5])) [OpAllow 15; OpAllow 16; OpAllow 1000])
    = [true; false; false].
Proof.
  apply (half_open_single_probe 1 10 (snd (run (NewBreaker 1 10) [OpFailure 5])) 15 [16; 1000]);
    [done | | done | vm_compute; discriminate].
  exact (run_reachable 1 10 _ [OpFailure 5] (reach_new 1 10)).
Defined.
