(* ===== verification/Retry.v ===== *)
(** The retry policy: [src/internal/resilience/retry.go].

    The endpoint class ([IsMutation]), the backoff ([Delay]) and the attempt
    loop ([Policy.Do]). The context, the timer and the random source are
    operations on a world of any type: the context can be cancelled between any
    two steps of the loop. *)
From S2P Require Import Prelude Types Errs.

Create HintDb retry.

(** ** Endpoint classes *)
Definition ClassQuery : string := "query".
Definition ClassMutation : string := "mutation".

Definition mutationPaths : list string := [
  "/trade/TradeEntrust"; "/trade/TradeCancelEntrust"; "/trade/TradeBatchCancelEntrust";
  "/trade/TradeChangeEntrust"; "/trade/FuturesEntrust"; "/trade/FuturesCancelEntrust";
  "/trade/FuturesModifyEntrust"; "/trade/AlgoAddOrder"; "/trade/AlgoCancelOrder";
  "/trade/AlgoCancelEntrust"; "/trade/AlgoChangeOrder"; "/trade/AlgoActionOrder"].

Definition mutationSet : gset string := list_to_set mutationPaths.

Definition aliasSuffixMsgType : string := "RequestMsgType".
Definition aliasSuffixRequest : string := "Request".

Definition stripAliasSuffix (p : string) : string :=
  let stripped := trim_suffix p aliasSuffixMsgType in
  if decide (stripped <> p) then stripped else trim_suffix p aliasSuffixRequest.

Definition IsMutation (path : string) : bool := bool_decide (stripAliasSuffix path ∈ mutationSet).

Definition ClassForPath (path : string) : string :=
  if IsMutation path then ClassMutation else ClassQuery.

(** ** Policy *)
Record Policy := mkPolicy {
  MaxAttempts : Z;
  BaseBackoff : Z;
  MaxBackoff : Z;
  Jitter : bool;
}.

Definition Millisecond : Z := 1000000.
Definition Second : Z := 1000000000.

Definition DefaultPolicy : Policy := mkPolicy 3 (100 * Millisecond) (2 * Second) true.

(** The loop of [Delay], [k] iterations left: [for i := 1; i < n; i++]. *)
Fixpoint delay_loop (max : Z) (k : nat) (d : Z) : Z :=
  match k with
  | O => d
  | S k =>
      if decide (max > 0 /\ d >= max) then d
      else
        let d := swrap 64 (d * 2) in
        if decide (d <= 0) then max else delay_loop max k d
  end.

(** The delay before the jitter is drawn. *)
Definition base_delay (p : Policy) (n : Z) : Z :=
  if decide (BaseBackoff p <= 0 \/ n < 1) then 0
  else
    let d := delay_loop (MaxBackoff p) (Z.to_nat (n - 1)) (BaseBackoff p) in
    if decide (MaxBackoff p > 0 /\ d > MaxBackoff p) then MaxBackoff p else d.

(** [time.Duration] division truncates towards zero; [d] is positive here. *)
Definition jitter_half (d : Z) : Z := Z.quot d 2.

Section policy.
Context {World : Type}.
(** [ctx.Err()], [rand.Int63n(n)] and the wait of [sleepCtx] for a timer of
    positive duration or the end of the context. *)
Context (ctx_err : World -> option error * World).
Context (rand_int63n : Z -> World -> Z * World).
Context (timer_wait : Z -> World -> option error * World).

Definition Delay (p : Policy) (n : Z) (w : World) : Z * World :=
  let d := base_delay p n in
  if decide (Jitter p = true /\ d > 0) then
    let half := jitter_half d in
    if decide (half > 0) then
      let '(r, w) := rand_int63n (half + 1) w in (swrap 64 (half + r), w)
    else (d, w)
  else (d, w).

Definition sleepCtx (d : Z) (w : World) : option error * World :=
  if decide (d <= 0) then ctx_err w else timer_wait d w.

(** The attempt loop, [attempts] calls made; [None] when [fuel] runs out. An
    attempt that panics unwinds the loop. *)
Fixpoint do_loop (p : Policy) (class : string) (fn : World -> outcome (option error) * World)
    (max : Z) (fuel : nat) (attempts : Z) (w : World) : option (outcome (Z * option error) * World) :=
  match fuel with
  | O => None
  | S fuel =>
      match ctx_err w with
      | (Some e, w) => Some (Ret (attempts, Some e), w)
      | (None, w) =>
          let attempts := swrap 64 (attempts + 1) in
          match fn w with
          | (Panic, w) => Some (Panic, w)
          | (Ret None, w) => Some (Ret (attempts, None), w)
          | (Ret (Some err), w) =>
              if decide (attempts >= max \/ class = ClassMutation
                         \/ Retryable (Some err) = false) then Some (Ret (attempts, Some err), w)
              else
                let '(d, w) := Delay p attempts w in
                match sleepCtx d w with
                | (Some serr, w) => Some (Ret (attempts, Some serr), w)
                | (None, w) => do_loop p class fn max fuel attempts w
                end
          end
      end
  end.

Definition max_attempts (p : Policy) (class : string) : Z :=
  let max := MaxAttempts p in
  let max := if decide (class = ClassMutation) then 1 else max in
  if decide (max < 1) then 1 else max.

(** [fn] is not nil. One unit of fuel per attempt is enough ([Do_total]). *)
Definition Do (p : Policy) (class : string) (fn : World -> outcome (option error) * World) (w : World)
    : option (outcome (Z * option error) * World) :=
  let max := max_attempts p class in do_loop p class fn max (Z.to_nat max) 0 w.

Definition DoRoute (p : Policy) (path : string) (fn : World -> outcome (option error) * World)
    (w : World) : option (outcome (Z * option error) * World) :=
  Do p (ClassForPath path) fn w.
End policy.

(** ** The attempt loop *)
Lemma max_attempts_pos p class : 1 <= max_attempts p class.
Proof. unfold max_attempts. repeat case_decide; lia. Qed.

Lemma max_attempts_range p class : in_s 64 (MaxAttempts p) -> max_attempts p class <= int_max.
Proof.
  unfold max_attempts, in_s, int_max. intros [_ H]. change (2 ^ (64 - 1)) with 9223372036854775808 in H.
  repeat case_decide; lia.
Qed.

#[export] Hint Resolve max_attempts_pos max_attempts_range : retry.

(** An attempt that may be followed by another: a retryable error. *)
Definition retried (o : outcome (option error)) : Prop :=
  exists e, o = Ret (Some e) /\ Retryable (Some e) = true.

(** Why the loop ends with [r] after the outcomes [log]: its last attempt
    panicked or is final, or the context ended while another attempt was due. *)
Definition loop_exit (class : string) (max : Z) (log : list (outcome (option error)))
    (r : outcome (Z * option error)) : Prop :=
  let n := Z.of_nat (length log) in
  (exists init, log = init ++ [Panic] /\ Forall retried init /\ r = Panic)
  \/ (exists init e, log = init ++ [Ret e] /\ Forall retried init /\ r = Ret (n, e)
       /\ (e = None \/ Retryable e = false \/ class = ClassMutation \/ n = max))
  \/ (exists e, Forall retried log /\ r = Ret (n, Some e) /\ n < max).

Section policy_facts.
Context {World : Type} (ctx_err : World -> option error * World).
Context (rand_int63n : Z -> World -> Z * World) (timer_wait : Z -> World -> option error * World).

(** A world that also records the outcome of every attempt. *)
Definition lift {A} (f : World -> A * World) (wn : World * list (outcome (option error)))
    : A * (World * list (outcome (option error))) :=
  let '(a, w) := f (fst wn) in (a, (w, snd wn)).
Definition logged (fn : World -> outcome (option error) * World)
    (wn : World * list (outcome (option error)))
    : outcome (option error) * (World * list (outcome (option error))) :=
  let '(a, w) := fn (fst wn) in (a, (w, snd wn ++ [a])).

Definition Do_logged p class fn (w : World) :=
  Do (lift ctx_err) (fun k => lift (rand_int63n k)) (fun d => lift (timer_wait d))
    p class (logged fn) (w, []).

Lemma lift_Delay p n (wn : World * list (outcome (option error))) :
  Delay (fun k => lift (rand_int63n k)) p n wn = lift (Delay rand_int63n p n) wn.
Proof using Type.
  destruct wn as [w c]. unfold Delay, lift. simpl. repeat case_decide; try done.
  by destruct (rand_int63n _ w).
Qed.

Lemma do_loop_trace p class fn max fuel (w : World) log :
  Forall retried log -> max <= int_max -> max = Z.of_nat (length log) + Z.of_nat fuel ->
  (0 < fuel)%nat ->
  exists r w' log', do_loop (lift ctx_err) (fun k => lift (rand_int63n k))
      (fun d => lift (timer_wait d)) p class (logged fn) max fuel (Z.of_nat (length log)) (w, log)
    = Some (r, (w', log')) /\ Z.of_nat (length log') <= max /\ loop_exit class max log' r.
Proof using Type.
  intros Hlog Hmax. revert log w Hlog. induction fuel as [|fuel IH]; intros log w Hlog Hf Hpos; [lia |].
  cbn [do_loop]. unfold lift at 1. simpl. destruct (ctx_err w) as [[e|] w1].
  { exists (Ret (Z.of_nat (length log), Some e)), w1, log. split; [done |]. split; [lia |].
    right; right. exists e. split_and!; [done | done | lia]. }
  rewrite swrap64_id by (unfold int_min, int_max in *; lia).
  assert (Hlen : forall o : outcome (option error), Z.of_nat (length log) + 1 = Z.of_nat (length (log ++ [o]))).
  { intros o. rewrite length_app. simpl. lia. }
  unfold logged at 1. simpl. destruct (fn w1) as [[[e|]|] w2].
  2: { exists (Ret (Z.of_nat (length log) + 1, None)), w2, (log ++ [Ret None]). rewrite <- Hlen.
       split; [done |]. split; [lia |]. right; left. exists log, None. rewrite <- Hlen. auto. }
  2: { exists Panic, w2, (log ++ [Panic]). rewrite <- Hlen. split; [done |]. split; [lia |].
       left. by exists log. }
  pose proof (Hlen (Ret (Some e))) as Hl1. rewrite Hl1. set (log1 := log ++ [Ret (Some e)]) in *.
  case_decide as Hstop.
  { exists (Ret (Z.of_nat (length log1), Some e)), w2, log1. split; [done |]. split; [lia |].
    right; left. exists log, (Some e). split_and!; auto. destruct Hstop as [Hs | [Hs | Hs]]; [|auto..].
    do 3 right. lia. }
  assert (Hlog1 : Forall retried log1).
  { apply Forall_app. split; [done |]. apply Forall_singleton. exists e. split; [done |].
    destruct (Retryable (Some e)) eqn:HRe; [done | exfalso; apply Hstop; by right; right]. }
  assert (Hlt : Z.of_nat (length log1) < max) by lia.
  rewrite lift_Delay. unfold lift at 1. simpl. destruct (Delay rand_int63n p _ w2) as [d w3].
  unfold sleepCtx. assert (Hgo : forall f : World -> option error * World,
    exists r' w' log', match lift f (w3, log1) with
      | (Some serr, w) => Some (Ret (Z.of_nat (length log1), Some serr), w)
      | (None, w) => do_loop (lift ctx_err) (fun k => lift (rand_int63n k))
          (fun d => lift (timer_wait d)) p class (logged fn) max fuel (Z.of_nat (length log1)) w
      end = Some (r', (w', log'))
      /\ Z.of_nat (length log') <= max /\ loop_exit class max log' r').
  { intros f. unfold lift at 1. simpl. destruct (f w3) as [[e'|] w4].
    - exists (Ret (Z.of_nat (length log1), Some e')), w4, log1. split; [done |]. split; [lia |].
      right; right. by exists e'.
    - apply IH; [done | lia | lia]. }
  case_decide; apply Hgo.
Qed.
End policy_facts.

(** A measure of the world that only the attempts raise, by at most one each, is
    raised by at most the number of attempts allowed; the loop ends. *)
Lemma do_loop_measure {World} (ctx_err : World -> option error * World) rand_int63n timer_wait
    (p : Policy) (class : string) (fn : World -> outcome (option error) * World) (m : World -> Z)
    max fuel a w :
  (forall w, m (snd (ctx_err w)) = m w) -> (forall k w, m (snd (rand_int63n k w)) = m w) ->
  (forall d w, m (snd (timer_wait d w)) = m w) ->
  (forall w, m w <= m (snd (fn w)) <= m w + 1) ->
  0 <= a -> max <= int_max -> max = a + Z.of_nat fuel -> (0 < fuel)%nat ->
  exists r w', do_loop ctx_err rand_int63n timer_wait p class fn max fuel a w = Some (r, w')
    /\ m w <= m w' <= m w + Z.of_nat fuel.
Proof.
  intros Hctx Hrand Htimer Hfn Ha Hmax. revert a w Ha.
  induction fuel as [|fuel IH]; intros a w Ha Hf Hpos; [lia |]. cbn [do_loop].
  pose proof (Hctx w) as H1. destruct (ctx_err w) as [[e|] w1]; simpl in H1.
  { eexists _, w1. split; [done | lia]. }
  pose proof (Hfn w1) as H2. rewrite swrap64_id by (unfold int_min, int_max in *; lia).
  destruct (fn w1) as [[[e|]|] w2]; simpl in H2; [|eexists _, w2; split; [done | lia] ..].
  case_decide as Hstop; [eexists _, w2; split; [done | lia] |].
  assert (H3 : m (snd (Delay rand_int63n p (a + 1) w2)) = m w2).
  { unfold Delay. repeat case_decide; try done. specialize (Hrand (jitter_half (base_delay p (a + 1)) + 1) w2).
    by destruct (rand_int63n _ w2). }
  destruct (Delay rand_int63n p (a + 1) w2) as [d w3]. simpl in H3.
  assert (H4 : m (snd (sleepCtx ctx_err timer_wait d w3)) = m w3)
    by (unfold sleepCtx; case_decide; auto).
  destruct (sleepCtx ctx_err timer_wait d w3) as [[e'|] w4]; simpl in H4.
  { eexists _, w4. split; [done | lia]. }
  assert (a + 1 < max) by lia.
  destruct (IH (a + 1) w4) as (r & w' & Hr & Hm); [lia | lia | lia |].
  exists r, w'. split; [exact Hr | lia].
Qed.

Lemma DoRoute_measure {World} (ctx_err : World -> option error * World) rand_int63n timer_wait
    (p : Policy) (path : string) (fn : World -> outcome (option error) * World) (m : World -> Z) w :
  (forall w, m (snd (ctx_err w)) = m w) -> (forall k w, m (snd (rand_int63n k w)) = m w) ->
  (forall d w, m (snd (timer_wait d w)) = m w) ->
  (forall w, m w <= m (snd (fn w)) <= m w + 1) -> in_s 64 (MaxAttempts p) ->
  exists r w', DoRoute ctx_err rand_int63n timer_wait p path fn w = Some (r, w')
    /\ m w <= m w' <= m w + max_attempts p (ClassForPath path).
Proof.
  intros Hctx Hrand Htimer Hfn Hp. unfold DoRoute, Do.
  pose proof (max_attempts_pos p (ClassForPath path)).
  pose proof (max_attempts_range p (ClassForPath path) Hp).
  destruct (do_loop_measure ctx_err rand_int63n timer_wait p (ClassForPath path) fn m
    (max_attempts p (ClassForPath path)) (Z.to_nat (max_attempts p (ClassForPath path))) 0 w)
    as (r & w' & Hr & Hm); [done..| lia | lia | lia | lia |].
  exists r, w'. split; [exact Hr | lia].
Qed.

(** C16: the attempt loop terminates for every context, timer, jitter source and
    attempt function, reports exactly the number of attempts it made, makes at
    most [MaxAttempts] (one for a mutation), repeats an attempt only after a
    retryable error, and returns the last attempt's outcome unless the context
    ended while another attempt was due. *)
Theorem do_attempts_spec {World} (ctx_err : World -> option error * World) rand_int63n timer_wait
    (p : Policy) (class : string) (fn : World -> outcome (option error) * World) (w : World) :
  in_s 64 (MaxAttempts p) ->
  exists r w' log, Do_logged ctx_err rand_int63n timer_wait p class fn w = Some (r, (w', log))
    /\ Z.of_nat (length log) <= max_attempts p class
    /\ loop_exit class (max_attempts p class) log r.
Proof.
  intros Hp. pose proof (max_attempts_pos p class). pose proof (max_attempts_range p class Hp).
  apply (do_loop_trace ctx_err rand_int63n timer_wait p class fn _ _ w []); [done | done | | lia].
  simpl. lia.
Qed.

(** ** The backoff *)
Lemma delay_loop_uncapped max k d :
  max <= 0 -> 0 < d <= int_max ->
  delay_loop max k d = if decide (d * 2 ^ Z.of_nat k <= int_max) then d * 2 ^ Z.of_nat k else max.
Proof.
  intros Hmax. revert d. induction k as [|k IH]; intros d Hd; cbn [delay_loop].
  - rewrite Z.mul_1_r. by rewrite decide_True by lia.
  - rewrite decide_False by lia. rewrite Nat2Z.inj_succ, Z.pow_succ_r by lia.
    pose proof (pow2_ge_1 k).
    destruct (decide (d * 2 <= int_max)).
    + rewrite swrap64_id by (unfold int_min, int_max in *; lia). rewrite decide_False by lia.
      rewrite IH by lia. by rewrite <- !Z.mul_assoc.
    + rewrite decide_True by (apply swrap64_double_overflow; lia). rewrite decide_False; [done | nia].
Qed.

Lemma delay_loop_capped max k d :
  0 < max <= int_max -> 0 < d <= int_max ->
  Z.min max (delay_loop max k d) = Z.min max (d * 2 ^ Z.of_nat k).
Proof.
  intros Hmax. revert d. induction k as [|k IH]; intros d Hd; cbn [delay_loop].
  - by rewrite Z.mul_1_r.
  - rewrite Nat2Z.inj_succ, Z.pow_succ_r by lia.
    pose proof (pow2_ge_1 k).
    case_decide as Hc; [nia |]. destruct (decide (d * 2 <= int_max)).
    + rewrite swrap64_id by (unfold int_min, int_max in *; lia). rewrite decide_False by lia.
      rewrite IH by lia. by rewrite <- !Z.mul_assoc.
    + rewrite decide_True by (apply swrap64_double_overflow; lia). nia.
Qed.

Record Policy_ok (p : Policy) : Prop := {
  pol_base : 0 < BaseBackoff p <= int_max;
  pol_max : int_min <= MaxBackoff p <= int_max;
}.

(** The ideal backoff: exponential, capped when there is a cap, and the
    (non-positive) cap itself once an uncapped delay leaves 64 bits. *)
Definition ideal_delay (p : Policy) (n : Z) : Z :=
  let d := BaseBackoff p * 2 ^ (n - 1) in
  if decide (0 < MaxBackoff p) then Z.min (MaxBackoff p) d
  else if decide (d <= int_max) then d else MaxBackoff p.

(** The 64-bit doubling loop computes the capped exponential for every retry
    number: the overflow of the doubling is always caught, and only without a
    cap does it show (the delay is then the non-positive [MaxBackoff]). *)
Theorem base_delay_exponential (p : Policy) (n : Z) :
  Policy_ok p -> 1 <= n -> base_delay p n = ideal_delay p n.
Proof.
  intros [Hb Hm] Hn. unfold base_delay, ideal_delay. rewrite decide_False by lia.
  destruct (decide (0 < MaxBackoff p)) as [Hcap|Hcap].
  - pose proof (delay_loop_capped (MaxBackoff p) (Z.to_nat (n - 1)) (BaseBackoff p)) as Hl.
    rewrite Z2Nat.id in Hl by lia. specialize (Hl ltac:(lia) ltac:(lia)). case_decide; lia.
  - rewrite delay_loop_uncapped by lia. rewrite Z2Nat.id by lia. rewrite (decide_False (P := _ /\ _)) by lia. done.
Qed.

(** With jitter the delay lies between half the exponential delay (rounded
    down) and the exponential delay: the jitter only shortens the wait, and never
    exceeds the cap. *)
Theorem delay_jitter_range {World} (rand_int63n : Z -> World -> Z * World)
    (p : Policy) (n : Z) (w : World) :
  Policy_ok p -> 1 <= n -> Jitter p = true -> 1 < ideal_delay p n ->
  (forall k w, 0 < k -> 0 <= fst (rand_int63n k w) < k) ->
  let d := fst (Delay rand_int63n p n w) in
  ideal_delay p n `div` 2 <= d <= ideal_delay p n
  /\ (0 < MaxBackoff p -> d <= MaxBackoff p).
Proof.
  intros Hp Hn Hj Hd Hr. unfold Delay.
  assert (Hi : base_delay p n = ideal_delay p n).
  { destruct Hp as [Hb Hm]. by apply base_delay_exponential. }
  assert (Hmax : ideal_delay p n <= int_max /\ (0 < MaxBackoff p -> ideal_delay p n <= MaxBackoff p)).
  { destruct Hp. unfold ideal_delay. repeat case_decide; lia. }
  rewrite Hi. set (D := ideal_delay p n) in *.
  rewrite decide_True by (split; [done | lia]). unfold jitter_half. rewrite Z.quot_div_nonneg by lia.
  pose proof (Z.div_mod D 2 ltac:(lia)) as Hdm. pose proof (Z.mod_pos_bound D 2 ltac:(lia)).
  rewrite decide_True by lia. specialize (Hr (D `div` 2 + 1) w ltac:(lia)).
  destruct (rand_int63n _ w) as [r w']. simpl in *.
  rewrite swrap64_id by (unfold int_min, int_max in *; lia). lia.
Qed.

(** ** Witnesses *)

(** A world that is the list of the outcomes to come. *)
Definition next_outcome (w : list (option error)) : outcome (option error) * list (option error) :=
  (Ret (default None (head w)), tail w).
Definition never_ends {A} (w : A) : option error * A := (None, w).
Definition draw_max (k : Z) {A} (w : A) : Z * A := (k - 1, w).
Definition busy : error := New StatusServiceBusy "op" "".

Lemma do_attempts_spec_witness :
  exists r w' log, Do_logged never_ends (fun k => draw_max k) (fun _ => never_ends) DefaultPolicy
      ClassQuery next_outcome [Some busy; Some EOF] = Some (r, (w', log))
    /\ Z.of_nat (length log) <= 3 /\ loop_exit ClassQuery 3 log r.
Proof.
  exact (do_attempts_spec never_ends (fun k => draw_max k) (fun _ => never_ends) DefaultPolicy
    ClassQuery next_outcome [Some busy; Some EOF] ltac:(split; vm_compute; congruence)).
Defined.

Lemma DefaultPolicy_ok : Policy_ok DefaultPolicy.
Proof. split; vm_compute; split; congruence. Qed.

Lemma base_delay_exponential_witness : base_delay DefaultPolicy 3 = 400 * Millisecond.
Proof. exact (base_delay_exponential DefaultPolicy 3 DefaultPolicy_ok ltac:(lia)). Defined.

Lemma delay_jitter_range_witness :
  fst (Delay (fun k => draw_max k) DefaultPolicy 3 tt) <= 400 * Millisecond.
Proof.
  refine (proj2 (proj1 (delay_jitter_range (fun k => draw_max k) DefaultPolicy 3 tt DefaultPolicy_ok
    ltac:(lia) eq_refl ltac:(vm_compute; reflexivity) _))).
  intros k w Hk. simpl. lia.
Defined.
