(* ===== verification/Routes.v ===== *)
(** The Gateway routes: [src/client/routes.go] and the query test of
    [src/client/hardening.go].

    The canonical routes, the alias forms the Gateway accepts, and their
    agreement with the mutation set of the retry policy. *)
From stdpp Require Import sorting.
From S2P Require Import Prelude Types Errs Retry.

(** ** [type Route string] *)
Definition RouteHqBasicQot : string := "/hq/BasicQot".
Definition RouteHqOrderBook : string := "/hq/OrderBook".
Definition RouteHqKL : string := "/hq/KL".
Definition RouteHqTimeShare : string := "/hq/TimeShare".
Definition RouteHqTicker : string := "/hq/Ticker".
Definition RouteHqBroker : string := "/hq/Broker".
Definition RouteHqUsOptionChainCode : string := "/hq/UsOptionChainCode".
Definition RouteHqUsOptionChainExpireDate : string := "/hq/UsOptionChainExpireDate".
Definition RouteHqUsOverNightTradeCodes : string := "/hq/UsOverNightTradeCodes".
Definition RouteHqSubscribe : string := "/hq/Subscribe".
Definition RouteHqUnsubscribe : string := "/hq/Unsubscribe".
Definition RouteTradeLogin : string := "/trade/TradeLogin".
Definition RouteTradeLogout : string := "/trade/TradeLogout".
Definition RouteTradeQueryMarginFundInfo : string := "/trade/TradeQueryMarginFundInfo".
Definition RouteTradeQueryHoldsList : string := "/trade/TradeQueryHoldsList".
Definition RouteTradeQueryRealFundJourList : string := "/trade/TradeQueryRealFundJourList".
Definition RouteTradeQueryHistoryFundJourList : string := "/trade/TradeQueryHistoryFundJourList".
Definition RouteHsRateQueryList : string := "/hs/rate/queryList".
Definition RouteTradeEntrust : string := "/trade/TradeEntrust".
Definition RouteTradeCancelEntrust : string := "/trade/TradeCancelEntrust".
Definition RouteTradeBatchCancelEntrust : string := "/trade/TradeBatchCancelEntrust".
Definition RouteTradeChangeEntrust : string := "/trade/TradeChangeEntrust".
Definition RouteTradeQueryMaxAvailableAsset : string := "/trade/TradeQueryMaxAvailableAsset".
Definition RouteTradeQueryRealEntrustList : string := "/trade/TradeQueryRealEntrustList".
Definition RouteTradeQueryRealDeliverList : string := "/trade/TradeQueryRealDeliverList".
Definition RouteTradeQueryRealCondOrderList : string := "/trade/TradeQueryRealCondOrderList".
Definition RouteTradeQueryHistoryEntrustList : string := "/trade/TradeQueryHistoryEntrustList".
Definition RouteTradeQueryHistoryDeliverList : string := "/trade/TradeQueryHistoryDeliverList".
Definition RouteTradeQueryHistoryCondOrderList : string := "/trade/TradeQueryHistoryCondOrderList".
Definition RouteTradeQueryMarginFullInfo : string := "/trade/TradeQueryMarginFullInfo".
Definition RouteTradeQueryBeforeAndAfterSupport : string := "/trade/TradeQueryBeforeAndAfterSupport".
Definition RouteTradeSubscribe : string := "/trade/TradeSubscribe".
Definition RouteTradeUnsubscribe : string := "/trade/TradeUnsubscribe".
Definition RouteTradeAlgoAddOrder : string := "/trade/AlgoAddOrder".
Definition RouteTradeAlgoCancelOrder : string := "/trade/AlgoCancelOrder".
Definition RouteTradeAlgoCancelEntrust : string := "/trade/AlgoCancelEntrust".
Definition RouteTradeAlgoChangeOrder : string := "/trade/AlgoChangeOrder".
Definition RouteTradeAlgoActionOrder : string := "/trade/AlgoActionOrder".
Definition RouteTradeAlgoQueryOrderList : string := "/trade/AlgoQueryOrderList".
Definition RouteTradeAlgoQueryEntrustIdList : string := "/trade/AlgoQueryEntrustIdList".
Definition RouteTradeFuturesQueryProductInfo : string := "/trade/FuturesQueryProductInfo".
Definition RouteTradeFuturesQueryMaxBuySellAmount : string := "/trade/FuturesQueryMaxBuySellAmount".
Definition RouteTradeFuturesQueryFundInfo : string := "/trade/FuturesQueryFundInfo".
Definition RouteTradeFuturesQueryHoldsList : string := "/trade/FuturesQueryHoldsList".
Definition RouteTradeFuturesEntrust : string := "/trade/FuturesEntrust".
Definition RouteTradeFuturesCancelEntrust : string := "/trade/FuturesCancelEntrust".
Definition RouteTradeFuturesModifyEntrust : string := "/trade/FuturesModifyEntrust".
Definition RouteTradeFuturesQueryRealEntrustList : string := "/trade/FuturesQueryRealEntrustList".
Definition RouteTradeFuturesQueryHistoryEntrustList : string := "/trade/FuturesQueryHistoryEntrustList".
Definition RouteTradeFuturesQueryRealDeliverList : string := "/trade/FuturesQueryRealDeliverList".
Definition RouteTradeFuturesQueryHistoryDeliverList : string := "/trade/FuturesQueryHistoryDeliverList".

Definition canonicalRoutes : list string := [
  RouteHqBasicQot;
  RouteHqOrderBook;
  RouteHqKL;
  RouteHqTimeShare;
  RouteHqTicker;
  RouteHqBroker;
  RouteHqUsOptionChainCode;
  RouteHqUsOptionChainExpireDate;
  RouteHqUsOverNightTradeCodes;
  RouteHqSubscribe;
  RouteHqUnsubscribe;
  RouteTradeLogin;
  RouteTradeLogout;
  RouteTradeQueryMarginFundInfo;
  RouteTradeQueryHoldsList;
  RouteTradeQueryRealFundJourList;
  RouteTradeQueryHistoryFundJourList;
  RouteHsRateQueryList;
  RouteTradeEntrust;
  RouteTradeCancelEntrust;
  RouteTradeBatchCancelEntrust;
  RouteTradeChangeEntrust;
  RouteTradeQueryMaxAvailableAsset;
  RouteTradeQueryRealEntrustList;
  RouteTradeQueryRealDeliverList;
  RouteTradeQueryRealCondOrderList;
  RouteTradeQueryHistoryEntrustList;
  RouteTradeQueryHistoryDeliverList;
  RouteTradeQueryHistoryCondOrderList;
  RouteTradeQueryMarginFullInfo;
  RouteTradeQueryBeforeAndAfterSupport;
  RouteTradeSubscribe;
  RouteTradeUnsubscribe;
  RouteTradeAlgoAddOrder;
  RouteTradeAlgoCancelOrder;
  RouteTradeAlgoCancelEntrust;
  RouteTradeAlgoChangeOrder;
  RouteTradeAlgoActionOrder;
  RouteTradeAlgoQueryOrderList;
  RouteTradeAlgoQueryEntrustIdList;
  RouteTradeFuturesQueryProductInfo;
  RouteTradeFuturesQueryMaxBuySellAmount;
  RouteTradeFuturesQueryFundInfo;
  RouteTradeFuturesQueryHoldsList;
  RouteTradeFuturesEntrust;
  RouteTradeFuturesCancelEntrust;
  RouteTradeFuturesModifyEntrust;
  RouteTradeFuturesQueryRealEntrustList;
  RouteTradeFuturesQueryHistoryEntrustList;
  RouteTradeFuturesQueryRealDeliverList;
  RouteTradeFuturesQueryHistoryDeliverList
].

Definition ErrUnknownRoute : error := ESentinel "client: unknown route".

(** [canonicalRoutes[r]], the two-result form. *)
Definition is_canonical (r : string) : bool := bool_decide (r ∈ canonicalRoutes).

Definition Route_Validate (r : string) : option error :=
  if is_canonical r then None
  else Some (EWrap ("client: unknown route: " +:+ r) ErrUnknownRoute).

(** [<] on strings is the lexicographic order of the bytes. *)
Definition str_le (a b : string) : Prop := String.leb a b = true.
#[global] Instance str_le_dec : RelDecision str_le.
Proof. unfold RelDecision, str_le. apply _. Defined.

(** The routes in the order of a map iteration, [order], sorted. *)
Definition Routes (order : list string) : list string := merge_sort str_le order.

Definition NormalizePath (p : string) : string :=
  if is_canonical p then p
  else
    let s1 := trim_suffix p aliasSuffixMsgType in
    if decide (s1 <> p /\ is_canonical s1 = true) then s1
    else
      let s2 := trim_suffix p aliasSuffixRequest in
      if decide (s2 <> p /\ is_canonical s2 = true) then s2 else p.

Definition IsQuery (path : string) : bool := negb (IsMutation path).

(** ** Facts about the table, by evaluation *)
Lemma canonical_no_alias r :
  r ∈ canonicalRoutes ->
  has_suffix r aliasSuffixMsgType = false /\ has_suffix r aliasSuffixRequest = false.
Proof.
  assert (Hall : Forall (fun r => has_suffix r aliasSuffixMsgType = false
    /\ has_suffix r aliasSuffixRequest = false) canonicalRoutes)
    by (repeat constructor; vm_compute; reflexivity).
  intros Hr. rewrite Forall_forall in Hall. auto.
Qed.

Lemma canonical_NoDup : NoDup canonicalRoutes.
Proof. apply (bool_decide_unpack (NoDup canonicalRoutes)). vm_compute. exact I. Qed.

Lemma mutations_canonical r : r ∈ mutationPaths -> r ∈ canonicalRoutes.
Proof.
  assert (Hall : Forall (fun r => is_canonical r = true) mutationPaths)
    by (repeat constructor; vm_compute; reflexivity).
  rewrite Forall_forall in Hall. intros Hr%Hall. by apply bool_decide_eq_true in Hr.
Qed.

(** ** Suffixes *)
Lemma trim_suffix_no_suffix p suf : has_suffix p suf = false -> trim_suffix p suf = p.
Proof.
  unfold has_suffix, trim_suffix. intros Hn%bool_decide_eq_false.
  by destruct (cut_suffix suf p); [destruct Hn |].
Qed.

Lemma trim_suffix_changed p suf : trim_suffix p suf <> p -> p = trim_suffix p suf +:+ suf.
Proof.
  unfold trim_suffix. destruct (cut_suffix suf p) as [q|] eqn:E; simpl; [|done].
  intros _. by apply cut_suffix_Some.
Qed.

Lemma append_neq_self p suf : suf <> "" -> p <> p +:+ suf.
Proof.
  intros Hs Heq. apply (f_equal String.length) in Heq. rewrite length_append in Heq.
  destruct suf; [done | simpl in Heq; lia].
Qed.

(** A path that ends in [Request] does not end in [RequestMsgType]. *)
Lemma last_char_append a b x : b <> "" -> String.get (String.length (a +:+ b) - 1) (a +:+ b) = x ->
  String.get (String.length b - 1) b = x.
Proof.
  intros Hb <-. induction a as [|c a IH]; [done |].
  rewrite append_cons. rewrite IH. simpl String.length.
  destruct (String.length (a +:+ b)) as [|n] eqn:E.
  - rewrite length_append in E. destruct b; [done | simpl in E; lia].
  - simpl. by rewrite Nat.sub_0_r.
Qed.

Lemma request_not_msgtype a b : a +:+ aliasSuffixRequest <> b +:+ aliasSuffixMsgType.
Proof.
  intros Heq. pose proof (last_char_append a aliasSuffixRequest _ ltac:(done) eq_refl) as H1.
  rewrite Heq in H1. rewrite <- (last_char_append b aliasSuffixMsgType _ ltac:(done) eq_refl) in H1.
  done.
Qed.

Lemma request_trim a : trim_suffix (a +:+ aliasSuffixRequest) aliasSuffixMsgType = a +:+ aliasSuffixRequest.
Proof.
  destruct (decide (trim_suffix (a +:+ aliasSuffixRequest) aliasSuffixMsgType = a +:+ aliasSuffixRequest))
    as [|Hn]; [done |].
  apply trim_suffix_changed in Hn. by apply request_not_msgtype in Hn.
Qed.

Lemma is_canonical_true r : is_canonical r = true <-> r ∈ canonicalRoutes.
Proof. apply bool_decide_eq_true. Qed.

Lemma canonical_append r suf :
  r +:+ suf ∈ canonicalRoutes -> suf = aliasSuffixMsgType \/ suf = aliasSuffixRequest -> False.
Proof.
  intros [H1 H2]%canonical_no_alias [-> | ->]; [clear H2; rename H1 into H | clear H1; rename H2 into H];
    unfold has_suffix in H; rewrite cut_suffix_app in H; apply bool_decide_eq_false in H; by apply H.
Qed.

(** The three forms of a route. *)
Definition alias_of (r p : string) : Prop :=
  p = r \/ p = r +:+ aliasSuffixRequest \/ p = r +:+ aliasSuffixMsgType.

Lemma NormalizePath_alias r p : r ∈ canonicalRoutes -> alias_of r p -> NormalizePath p = r.
Proof.
  intros Hr Hp. unfold NormalizePath, is_canonical. destruct Hp as [-> | [-> | ->]].
  - by rewrite bool_decide_true.
  - rewrite bool_decide_false by (intros Hc; apply canonical_append in Hc; auto).
    rewrite request_trim, trim_suffix_app. rewrite decide_False by (intros [Hn _]; done).
    rewrite decide_True; [done |]. split; [by apply append_neq_self | by apply bool_decide_eq_true].
  - rewrite bool_decide_false by (intros Hc; apply canonical_append in Hc; auto).
    rewrite trim_suffix_app. rewrite decide_True; [done |].
    split; [by apply append_neq_self | by apply bool_decide_eq_true].
Qed.

Lemma NormalizePath_cases p :
  NormalizePath p = p \/ (NormalizePath p ∈ canonicalRoutes /\ alias_of (NormalizePath p) p).
Proof.
  unfold NormalizePath. destruct (is_canonical p); [by left |].
  case_decide as H1; [|case_decide as H2; [|by left]]; right.
  - destruct H1 as [Hne Hc]. split; [by apply is_canonical_true |].
    right; right. by apply trim_suffix_changed.
  - destruct H2 as [Hne Hc]. split; [by apply is_canonical_true |].
    right; left. by apply trim_suffix_changed.
Qed.

(** [NormalizePath] maps exactly the three Gateway forms of a canonical route
    to that route. *)
Theorem normalize_path_exact (r p : string) :
  r ∈ canonicalRoutes -> NormalizePath p = r <-> alias_of r p.
Proof.
  intros Hr. split; [|by apply NormalizePath_alias].
  intros <-. destruct (NormalizePath_cases p) as [Hp | [_ Hp]]; [by left | done].
Qed.

(** [NormalizePath] is idempotent, and a path it changes becomes a canonical
    route: it never invents one. *)
Theorem normalize_path_idempotent (p : string) :
  NormalizePath (NormalizePath p) = NormalizePath p
  /\ (NormalizePath p = p \/ Route_Validate (NormalizePath p) = None).
Proof.
  destruct (NormalizePath_cases p) as [Hp | [Hc Ha]]; [by rewrite !Hp; auto |].
  split; [apply NormalizePath_alias; [done | by left] |]. right.
  unfold Route_Validate. by rewrite (proj2 (is_canonical_true _) Hc).
Qed.

(** ** The mutation set *)
Lemma IsMutation_alias r p : r ∈ mutationPaths -> alias_of r p -> IsMutation p = true.
Proof.
  intros Hr Hp. assert (Hs : stripAliasSuffix p = r).
  { pose proof (canonical_no_alias r (mutations_canonical r Hr)) as [H1 H2].
    unfold stripAliasSuffix. destruct Hp as [-> | [-> | ->]].
    - rewrite !trim_suffix_no_suffix by done. by case_decide.
    - rewrite request_trim, decide_False by auto. apply trim_suffix_app.
    - rewrite trim_suffix_app, decide_True by (by apply append_neq_self). done. }
  unfold IsMutation. rewrite Hs. apply bool_decide_eq_true. by apply elem_of_list_to_set.
Qed.

Lemma IsMutation_inv p : IsMutation p = true -> exists r, r ∈ mutationPaths /\ alias_of r p.
Proof.
  intros Hm%bool_decide_eq_true. apply elem_of_list_to_set in Hm. exists (stripAliasSuffix p).
  split; [done |]. unfold stripAliasSuffix in *. case_decide as H1.
  - right; right. by apply trim_suffix_changed.
  - destruct (decide (trim_suffix p aliasSuffixRequest = p)) as [He | Hne]; [by left |].
    right; left. by apply trim_suffix_changed.
Qed.

(** The single-attempt class is exactly the twelve order routes in each of
    their three forms; every one of them is a canonical route, so no order
    mutation reaches the Gateway under a path the retry layer would repeat. *)
Theorem mutation_class_exact (p : string) :
  (IsMutation p = true <-> exists r, r ∈ mutationPaths /\ alias_of r p)
  /\ (IsMutation p = true -> Route_Validate (NormalizePath p) = None).
Proof.
  split; [split; [apply IsMutation_inv | intros (r & Hr & Ha); by apply (IsMutation_alias r)] |].
  intros (r & Hr%mutations_canonical & Ha)%IsMutation_inv.
  rewrite (NormalizePath_alias r p) by done. unfold Route_Validate.
  by rewrite (proj2 (is_canonical_true _) Hr).
Qed.

(** Classifying a path and classifying its canonical form agree, although the
    two packages strip the alias suffixes independently. *)
Theorem mutation_class_normalized (p : string) : IsMutation (NormalizePath p) = IsMutation p.
Proof.
  destruct (NormalizePath_cases p) as [-> | [Hc Ha]]; [done |].
  set (r := NormalizePath p) in *. apply Bool.eq_iff_eq_true; split; intros Hm;
    apply IsMutation_inv in Hm as (m & Hm & Hma); apply (IsMutation_alias m); try done.
  - assert (r = m) as <-; [|done]. rewrite <- (NormalizePath_alias m r) by eauto using mutations_canonical.
    symmetry. apply NormalizePath_alias; [done | by left].
  - left. unfold r. by apply NormalizePath_alias; [apply mutations_canonical |].
Qed.

(** ** The sorted list of routes *)
#[global] Instance str_le_total : Total str_le.
Proof. intros a b. apply String.leb_total. Qed.

#[global] Instance str_le_antisymm : AntiSymm (=) str_le.
Proof. intros a b. apply String.leb_antisym. Qed.

Lemma str_le_cons a s b t :
  str_le (String a s) (String b t) <->
  (Ascii.N_of_ascii a < Ascii.N_of_ascii b)%N \/ (a = b /\ str_le s t).
Proof.
  unfold str_le, String.leb. cbn [String.compare]. unfold Ascii.compare.
  case (N.compare_spec (Ascii.N_of_ascii a) (Ascii.N_of_ascii b)) as [He|Hlt|Hgt].
  - assert (a = b) as <- by (rewrite <- (Ascii.ascii_N_embedding a), He; apply Ascii.ascii_N_embedding).
    split; [auto | intros [Hlt | [_ Hs]]; [lia | done]].
  - split; auto.
  - split; [done |]. intros [Hlt | [-> _]]; lia.
Qed.

#[global] Instance str_le_trans : Transitive str_le.
Proof.
  intros s. induction s as [|a s IH]; intros [|b t] [|c u] H1 H2; try done.
  apply str_le_cons in H1, H2. apply str_le_cons.
  destruct H1 as [H1 | [-> H1]], H2 as [H2 | [-> H2]]; [left; lia | by left | by left | right; eauto].
Qed.

(** Whatever the order in which the map of routes is iterated, [Routes]
    returns one and the same list: sorted, without repetition, and holding
    exactly the paths [Validate] accepts. *)
Theorem routes_deterministic (order : list string) :
  order ≡ₚ canonicalRoutes ->
  Routes order = Routes canonicalRoutes /\ StronglySorted str_le (Routes order)
  /\ NoDup (Routes order) /\ forall r, r ∈ Routes order <-> Route_Validate r = None.
Proof.
  intros Hp. unfold Routes.
  assert (Hs : forall l, StronglySorted str_le (merge_sort str_le l))
    by (intros; apply (StronglySorted_merge_sort str_le)).
  assert (He : merge_sort str_le order ≡ₚ canonicalRoutes) by (by rewrite merge_sort_Permutation).
  split_and!; [| done | rewrite He; apply canonical_NoDup |].
  - apply (StronglySorted_unique str_le); [done | done |]. by rewrite !merge_sort_Permutation.
  - intros r. rewrite He. unfold Route_Validate. rewrite <- is_canonical_true.
    by destruct (is_canonical r).
Qed.

(** ** Witnesses *)
Lemma normalize_path_exact_witness :
  NormalizePath "/trade/TradeEntrustRequestMsgType" = RouteTradeEntrust.
Proof.
  apply (normalize_path_exact RouteTradeEntrust "/trade/TradeEntrustRequestMsgType").
  - apply is_canonical_true. vm_compute. reflexivity.
  - right; right. reflexivity.
Defined.

Lemma mutation_class_exact_witness :
  Route_Validate (NormalizePath "/trade/FuturesEntrustRequest") = None.
Proof.
  apply (proj2 (mutation_class_exact "/trade/FuturesEntrustRequest")).
  vm_compute. reflexivity.
Defined.

Lemma routes_deterministic_witness : Routes (reverse canonicalRoutes) = Routes canonicalRoutes.
Proof.
  exact (proj1 (routes_deterministic (reverse canonicalRoutes) (reverse_Permutation canonicalRoutes))).
Defined.
