(* ===== verification/Logging.v ===== *)
(** Redaction of secrets: [src/internal/logging/logging.go].

    [RedactText] walks a text by byte index; it is used by the transport on
    Gateway error bodies. [RedactAttrs] and the handler work on structured
    attributes. A Go slice expression out of range panics: [None]. *)
From S2P Require Import Prelude.

Set Warnings "-register-all".

Create HintDb logging.

Definition Mask : string := "***".

Definition sensitiveKeys : list string := [
  "password"; "passwd"; "pwd"; "tradepassword"; "token"; "accesstoken"; "refreshtoken";
  "encryptedkey"; "secret"; "apikey"; "privatekey"; "authorization"; "signature"; "cookie";
  "sessionid"; "credential"; "credentials"; "accountid"; "fundaccount"].

Definition normalizeKey (key : bytes) : bytes :=
  List.filter (fun c => negb (char_in c "_- ")) (ToLower key).

Definition IsSensitiveKey (key : bytes) : bool := bool_decide (str (normalizeKey key) ∈ sensitiveKeys).

Definition RedactValue (value : string) : string := if decide (value = "") then "" else Mask.

(** ** [RedactText] *)

(** The class [[A-Za-z0-9_.\-]]. *)
Definition is_key_char (c : ascii) : bool :=
  in_range "A" "Z" c || in_range "a" "z" c || in_range "0" "9" c || char_in c "_.-".

(** [textKeyPattern.FindAllStringIndex]: the maximal runs of key characters of
    [s], whose first byte has index [i]; [run] is the start of the current run. *)
Fixpoint key_runs_from (i : nat) (run : option nat) (s : bytes) : list (nat * nat) :=
  match s with
  | [] => match run with Some st => [(st, i)] | None => [] end
  | c :: s' =>
      if is_key_char c then key_runs_from (S i) (Some (default i run)) s'
      else match run with
           | Some st => (st, i) :: key_runs_from (S i) None s'
           | None => key_runs_from (S i) None s'
           end
  end.
Definition key_runs (s : bytes) : list (nat * nat) := key_runs_from 0 None s.

(** [for i < len(s) && p(s[i]) { i++ }] *)
Definition skip (p : ascii -> bool) (s : bytes) (i : nat) : nat := (i + span p (drop i s))%nat.

Definition is_space (c : ascii) : bool := char_in c " " || bool_decide (c = "009"%char).
Definition skipSpace (s : bytes) (i : nat) : nat := skip is_space s i.

Definition is_quote (c : ascii) : bool := bool_decide (c = "034"%char) || bool_decide (c = "'"%char).
Definition is_newline (c : ascii) : bool := bool_decide (c = "010"%char) || bool_decide (c = "013"%char).

Definition isCredentialTerminator (c : ascii) : bool :=
  is_newline c || char_in c ",;&}]" || is_quote c.
Definition isValueTerminator (c : ascii) (quoted : bool) : bool :=
  if quoted then is_quote c else is_space c || isCredentialTerminator c.

Definition authSchemes : list string := ["bearer"; "basic"; "digest"; "negotiate"; "token"].
Definition isAuthScheme (word : bytes) : bool :=
  bool_decide (str (ToLower (text (trim_suffix (str word) ":"))) ∈ authSchemes).

Definition at_char (p : ascii -> bool) (s : bytes) (i : nat) : bool :=
  match s !! i with Some c => p c | None => false end.

(** The body of the loop for the run [start, end): the value to mask, if any. *)
Definition value_of (s : bytes) (start e : nat) : option (nat * nat) :=
  if negb (IsSensitiveKey (normalizeKey (slice start e s))) then None
  else
    let i := skipSpace s e in
    let i := if at_char is_quote s i then skipSpace s (S i) else i in
    if negb (at_char (fun c => char_in c ":=") s i) then None
    else
      let i := skipSpace s (S i) in
      let quoted := at_char is_quote s i in
      let valStart := if quoted then S i else i in
      let i := skip (fun c => negb (isValueTerminator c quoted)) s valStart in
      if decide (i = valStart) then None
      else
        let i :=
          if decide (i < length s)%nat then
            if negb quoted && isAuthScheme (slice valStart i s)
            then skip (fun c => negb (isCredentialTerminator c)) s i else i
          else i in
        Some (valStart, i).

(** [s[last:valStart]], which panics unless [last <= valStart <= len(s)]. *)
Definition go_slice (s : bytes) (lo hi : nat) : option bytes :=
  if decide (lo <= hi <= length s)%nat then Some (slice lo hi s) else None.

Fixpoint redact_loop (s : bytes) (locs : list (nat * nat)) (b : bytes) (last : nat) : option bytes :=
  match locs with
  | [] =>
      if decide (last = 0%nat) then Some s
      else suffix ← go_slice s last (length s); Some (b ++ suffix)
  | (start, e) :: locs =>
      match value_of s start e with
      | None => redact_loop s locs b last
      | Some (valStart, i) =>
          part ← go_slice s last valStart;
          redact_loop s locs (b ++ part ++ text Mask) i
      end
  end.

Definition redact (s : bytes) : option bytes :=
  if decide (s = []) then Some s else redact_loop s (key_runs s) [] 0.

Definition RedactText (s : string) : option string :=
  (fun l => str l) <$> redact (text s).

(** ** Structured attributes

    A [slog.Value] is a group, a value that resolves to another one when it is
    logged ([slog.LogValuer]), or any other kind, with its [String()]. *)
Inductive attr :=
  | Attr (Key : string) (Value : value)
with value :=
  | VPlain (rendered : string)
  | VGroup (attrs : list attr)
  | VLogValuer (resolved : value).

Section attrs.
(** [Value.String()] of a group or of an unresolved [LogValuer], written by
    [log/slog]. *)
Context (render : value -> string).

Definition Value_String (v : value) : string :=
  match v with VPlain s => s | _ => render v end.

Fixpoint redactAttr (a : attr) : attr :=
  match a with
  | Attr key v =>
      if IsSensitiveKey (text key) then Attr key (VPlain (RedactValue (Value_String v)))
      else
        match v with
        | VGroup attrs => Attr key (VGroup (map redactAttr attrs))
        | v => Attr key v
        end
  end.

Definition RedactAttrs (attrs : list attr) : list attr := map redactAttr attrs.
End attrs.

(** ** Runs of key characters *)
Definition all_key (s : bytes) : Prop := Forall (fun c => is_key_char c = true) s.

Lemma key_runs_from_app i run k l :
  all_key k -> k <> [] ->
  key_runs_from i run (k ++ l) = key_runs_from (i + length k) (Some (default i run)) l.
Proof.
  revert i run. induction k as [|c k IH]; intros i run Hk Hne; [done |].
  apply Forall_cons in Hk as [Hc Hk]. cbn [app key_runs_from]. rewrite Hc. simpl length.
  destruct k as [|c' k']; [simpl; f_equal; lia |].
  rewrite IH by done. simpl default. f_equal. simpl. lia.
Qed.

Lemma key_runs_key k : all_key k -> k <> [] -> key_runs k = [(0, length k)]%nat.
Proof.
  intros Hk Hne. unfold key_runs. rewrite <- (app_nil_r k) at 1. rewrite key_runs_from_app by done. done.
Qed.

(** Runs after a first key and a separator. *)
Lemma key_runs_sep i run k c l :
  all_key k -> k <> [] -> is_key_char c = false ->
  key_runs_from i run (k ++ c :: l)
    = (default i run, (i + length k)%nat) :: key_runs_from (S (i + length k)) None l.
Proof. intros Hk Hne Hc. rewrite key_runs_from_app by done. cbn [key_runs_from]. by rewrite Hc. Qed.

Lemma key_char_plain c :
  is_key_char c = true ->
  is_space c = false /\ is_quote c = false /\ isCredentialTerminator c = false
  /\ char_in c ":=" = false.
Proof.
  pose proof (ascii_forall (fun c => implb (is_key_char c)
    (negb (is_space c) && negb (is_quote c) && negb (isCredentialTerminator c) && negb (char_in c ":=")))
    ltac:(vm_compute; reflexivity) c) as H. simpl in H.
  intros Hk. rewrite Hk in H. simpl in H.
  destruct (is_space c), (is_quote c), (isCredentialTerminator c), (char_in c ":="); done.
Qed.

Lemma key_char_value c : is_key_char c = true -> isValueTerminator c false = false.
Proof. intros (H1 & H2 & H3 & _)%key_char_plain. unfold isValueTerminator. by rewrite H1, H3. Qed.

Lemma skip_none p s i c : s !! i = Some c -> p c = false -> skip p s i = i.
Proof. intros Hi Hp. unfold skip. rewrite (drop_S s c i Hi). simpl. rewrite Hp. lia. Qed.

Lemma skip_end p s i : (length s <= i)%nat -> skip p s i = i.
Proof. intros Hl. unfold skip. rewrite drop_ge by done. simpl. lia. Qed.

Lemma skip_rest p pre l :
  Forall (fun c => p c = true) l -> skip p (pre ++ l) (length pre) = length (pre ++ l).
Proof. intros Hl. unfold skip. rewrite drop_app_length, span_all by done. by rewrite length_app. Qed.

(** ** The value after a key and a separator that runs to the end of the text *)
Definition value_text (l : bytes) : Prop :=
  l <> [] /\ Forall (fun c => isValueTerminator c false = false) l.

Definition is_sep (c : ascii) : Prop := c = "="%char \/ c = ":"%char.

Lemma sep_facts c :
  is_sep c -> is_space c = false /\ is_quote c = false /\ char_in c ":=" = true /\ is_key_char c = false.
Proof. intros [-> | ->]; done. Qed.

Lemma value_not_space_quote c :
  isValueTerminator c false = false -> is_space c = false /\ is_quote c = false.
Proof.
  unfold isValueTerminator, isCredentialTerminator. intros [H1 H2]%orb_false_iff.
  apply orb_false_iff in H2 as [_ H2]. done.
Qed.

Lemma value_of_assignment pre k sep l :
  IsSensitiveKey (normalizeKey k) = true -> is_sep sep -> value_text l ->
  value_of (pre ++ k ++ sep :: l) (length pre) (length pre + length k)
    = Some (S (length pre + length k), length (pre ++ k ++ sep :: l)).
Proof.
  intros Hk (Hs1 & Hs2 & Hs3 & _)%sep_facts [Hne Hl].
  set (s := pre ++ k ++ sep :: l). set (e := (length pre + length k)%nat).
  assert (Hsl : slice (length pre) e s = k) by (apply slice_app; unfold e; lia).
  assert (He : s !! e = Some sep).
  { unfold s. rewrite app_assoc, lookup_app_r; unfold e; rewrite length_app; [|lia].
    by replace (_ - _)%nat with 0%nat by lia. }
  assert (El : exists c l', l = c :: l') by (destruct l; eauto; done). destruct El as (c & l' & El).
  assert (HSe : s !! S e = Some c).
  { unfold s. rewrite app_assoc, lookup_app_r; unfold e; rewrite length_app; [|lia].
    replace (_ - _)%nat with 1%nat by lia. by rewrite El. }
  assert (Hc : isValueTerminator c false = false) by (rewrite El in Hl; by apply Forall_cons in Hl as [? _]).
  destruct (value_not_space_quote c Hc) as [Hc1 Hc2].
  unfold value_of. rewrite Hsl, Hk. cbn [negb]. unfold skipSpace, at_char.
  rewrite (skip_none _ s e sep) by done. rewrite He, Hs2, He, Hs3. cbn [negb].
  rewrite (skip_none _ s (S e) c) by done. rewrite HSe, Hc2.
  assert (Hpre : s = (pre ++ k ++ [sep]) ++ l) by (unfold s; by rewrite <- !app_assoc).
  assert (Hlp : S e = length (pre ++ k ++ [sep])) by (unfold e; rewrite !length_app; simpl; lia).
  rewrite Hlp, Hpre, skip_rest. 2: { eapply Forall_impl; [exact Hl |]. intros x Hx. apply negb_true_iff. exact Hx. }
  rewrite decide_False; [|rewrite length_app, El; simpl; lia].
  by rewrite decide_False by lia.
Qed.

Lemma go_slice_same s : go_slice s (length s) (length s) = Some [].
Proof. unfold go_slice, slice. rewrite decide_True by lia. by rewrite drop_all, Nat.sub_diag. Qed.

Lemma go_slice_key k c l : go_slice (k ++ c :: l) 0 (S (length k)) = Some (k ++ [c]).
Proof.
  unfold go_slice. rewrite decide_True by (rewrite length_app; simpl; lia). f_equal.
  replace (k ++ c :: l) with ([] ++ (k ++ [c]) ++ l) by (by rewrite <- app_assoc).
  apply slice_app; [done | rewrite length_app; simpl; lia].
Qed.

Lemma value_of_end s start : value_of s start (length s) = None.
Proof.
  unfold value_of. destruct (IsSensitiveKey _); [|done]. cbn [negb]. unfold skipSpace, at_char.
  rewrite skip_end by done. rewrite (lookup_ge_None_2 s (length s)) by done.
  rewrite ?(lookup_ge_None_2 s (length s)) by done. done.
Qed.

Lemma redact_nonempty s : s <> [] -> redact s = redact_loop s (key_runs s) [] 0.
Proof. intros. unfold redact. by rewrite decide_False. Qed.

Lemma all_key_value l : l <> [] -> all_key l -> value_text l.
Proof. intros Hne Hl. split; [done |]. eapply Forall_impl; [exact Hl |]. apply key_char_value. Qed.

(** An assignment to a sensitive key has its value replaced by the mask: the
    result depends on neither the content nor the length of the secret. *)
Theorem redact_hides_value (k v : bytes) (sep : ascii) :
  all_key k -> k <> [] -> IsSensitiveKey (normalizeKey k) = true -> is_sep sep ->
  all_key v -> v <> [] ->
  redact (k ++ sep :: v) = Some (k ++ sep :: text Mask).
Proof.
  intros Hk Hkn Hs Hsep Hv Hvn. destruct (sep_facts sep Hsep) as (_ & _ & _ & Hsk).
  rewrite redact_nonempty by (by destruct k). unfold key_runs. rewrite key_runs_sep by done.
  rewrite <- (app_nil_r v) at 2. rewrite key_runs_from_app by done.
  cbn [default key_runs_from redact_loop Nat.add].
  pose proof (value_of_assignment [] k sep v Hs Hsep (all_key_value v Hvn Hv)) as Hval.
  cbn [app length Nat.add] in Hval. rewrite Hval.
  replace (S (length k + length v))%nat with (length (k ++ sep :: v))
    by (rewrite length_app; simpl; lia).
  rewrite go_slice_key. cbn [mbind option_bind redact_loop app]. rewrite value_of_end.
  rewrite decide_False by (rewrite length_app; simpl; lia).
  rewrite go_slice_same. cbn [mbind option_bind]. by rewrite app_nil_r, <- app_assoc.
Qed.

(** A sensitive key inside a value that is already masked makes the slice
    bounds cross and [RedactText] panic: every text "k1=k2=v" with two sensitive
    keys does, for instance "password=token=abc". *)
Theorem redact_nested_key_panics (k1 k2 v : bytes) :
  all_key k1 -> k1 <> [] -> IsSensitiveKey (normalizeKey k1) = true ->
  all_key k2 -> k2 <> [] -> IsSensitiveKey (normalizeKey k2) = true ->
  all_key v -> v <> [] ->
  redact (k1 ++ "="%char :: k2 ++ "="%char :: v) = None.
Proof.
  intros Hk1 Hn1 Hs1 Hk2 Hn2 Hs2 Hv Hvn.
  assert (Hsep : is_sep "="%char) by (by left).
  rewrite redact_nonempty by (by destruct k1). unfold key_runs. rewrite key_runs_sep by done.
  rewrite key_runs_sep by done. cbn [default redact_loop Nat.add].
  set (s := k1 ++ "="%char :: k2 ++ "="%char :: v).
  assert (Hv2 : value_text (k2 ++ "="%char :: v)).
  { split; [by destruct k2 |]. apply Forall_app. split; [by apply all_key_value |].
    apply Forall_cons. split; [done | by apply all_key_value]. }
  pose proof (value_of_assignment [] k1 _ _ Hs1 Hsep Hv2) as Hval1.
  cbn [app length Nat.add] in Hval1. fold s in Hval1. rewrite Hval1.
  pose proof (value_of_assignment (k1 ++ ["="%char]) k2 _ _ Hs2 Hsep (all_key_value v Hvn Hv)) as Hval2.
  replace ((k1 ++ ["="%char]) ++ k2 ++ "="%char :: v) with s in Hval2 by (unfold s; by rewrite <- app_assoc).
  replace (length (k1 ++ ["="%char])) with (S (length k1)) in Hval2 by (rewrite length_app; simpl; lia).
  assert (Hlen : (S (S (length k1) + length k2) < length s)%nat).
  { unfold s. rewrite !length_app. simpl. rewrite length_app. simpl. destruct v; [done | simpl; lia]. }
  assert (Hk0 : go_slice s 0 (S (length k1)) = Some (k1 ++ ["="%char])) by apply go_slice_key. rewrite Hk0. cbn [mbind option_bind redact_loop].
  cbn [Nat.add] in Hval2, Hlen. rewrite Hval2. unfold go_slice. rewrite decide_False by lia. done.
Qed.

Lemma redact_loop_none s locs b last :
  Forall (fun loc => value_of s (fst loc) (snd loc) = None) locs ->
  redact_loop s locs b last = redact_loop s [] b last.
Proof.
  induction 1 as [|[st e] locs Hl _ IH]; [done |]. cbn [redact_loop fst snd] in *. by rewrite Hl.
Qed.

(** A text with no sensitive field name is returned unchanged. *)
Theorem redact_identity (s : bytes) :
  Forall (fun loc => IsSensitiveKey (normalizeKey (slice (fst loc) (snd loc) s)) = false) (key_runs s) ->
  redact s = Some s.
Proof.
  intros Hall. unfold redact. case_decide; [done |].
  rewrite redact_loop_none; [done |].
  eapply Forall_impl; [exact Hall |]. intros [st e] Hf. unfold value_of. simpl in *. by rewrite Hf.
Qed.

(** ** Attributes *)

(** Induction on attributes through their groups. *)
Section attr_ind'.
Context (P : attr -> Prop).
Context (Hp : forall k r, P (Attr k (VPlain r))).
Context (Hg : forall k l, Forall P l -> P (Attr k (VGroup l))).
Context (Hl : forall k v, P (Attr k (VLogValuer v))).

Fixpoint attr_ind' (a : attr) : P a :=
  match a with
  | Attr k (VPlain r) => Hp k r
  | Attr k (VGroup l) =>
      Hg k l ((fix go (l : list attr) : Forall P l :=
                 match l with
                 | [] => Forall_nil_2 _
                 | a :: l => Forall_cons_2 _ _ _ (attr_ind' a) (go l)
                 end) l)
  | Attr k (VLogValuer v) => Hl k v
  end.
End attr_ind'.

(** What a log line shows of an attribute, with every [LogValuer] resolved as
    [log/slog] does when it writes the line: each plain value with the keys above
    it, its own last. *)
Definition path_to (k : string) (kv : list string * string) : list string * string := (k :: fst kv, snd kv).

Fixpoint shown (a : attr) : list (list string * string) :=
  match a with Attr k v => map (path_to k) (value_shown v) end
with value_shown (v : value) : list (list string * string) :=
  match v with
  | VPlain r => [([], r)]
  | VGroup l => mjoin (map shown l)
  | VLogValuer v => value_shown v
  end.

(** The part of it that a [LogValuer] answers, where no key above the [LogValuer]
    is sensitive. *)
Fixpoint behind (a : attr) : list (list string * string) :=
  match a with
  | Attr k v => if IsSensitiveKey (text k) then [] else map (path_to k) (value_behind v)
  end
with value_behind (v : value) : list (list string * string) :=
  match v with
  | VPlain _ => []
  | VGroup l => mjoin (map behind l)
  | VLogValuer v => value_shown v
  end.

(** A value under a sensitive key, at any depth, is empty or the mask. *)
Definition masked (kv : list string * string) : Prop :=
  Exists (fun k => IsSensitiveKey (text k) = true) (fst kv) -> snd kv = "" \/ snd kv = Mask.

Lemma masked_path k kv : IsSensitiveKey (text k) = false -> masked kv -> masked (path_to k kv).
Proof. intros Hk Hm Hs. apply Hm. apply Exists_cons in Hs as [Hs|Hs]; [congruence | done]. Qed.

Lemma elem_of_map {A B} (f : A -> B) l y : y ∈ map f l <-> exists x, y = f x /\ x ∈ l.
Proof. apply list_elem_of_fmap. Qed.

(** Redaction masks everything but what lies behind a [LogValuer], which it leaves. *)
Lemma redactAttr_shown render a :
  (forall kv, kv ∈ shown (redactAttr render a) -> masked kv \/ kv ∈ behind a)
  /\ (forall kv, kv ∈ behind a -> kv ∈ shown (redactAttr render a)).
Proof.
  induction a as [k r|k l IH|k v] using attr_ind'; cbn [redactAttr behind value_behind];
    destruct (IsSensitiveKey (text k)) eqn:Hk; cbn [shown value_shown];
    try (split; [| by intros ? []%not_elem_of_nil]; intros ? ->%list_elem_of_singleton; left; intros _;
         unfold RedactValue; simpl; case_decide; by auto).
  - split; [| by intros ? []%not_elem_of_nil]. intros ? ->%list_elem_of_singleton. left. apply masked_path; [done |].
    intros []%Exists_nil.
  - rewrite Forall_forall in IH. split; intros kv (kv' & -> & (l' & Hkv & Ha)%list_elem_of_join)%elem_of_map;
      apply elem_of_map in Ha as (a & -> & Ha).
    + apply elem_of_map in Ha as (a' & -> & Ha). destruct (proj1 (IH a' Ha) _ Hkv) as [Hm|Hb]; [left; by apply masked_path |].
      right. apply elem_of_map. exists kv'. split; [done |]. apply list_elem_of_join. exists (behind a').
      split; [done |]. apply elem_of_map. by exists a'.
    + apply elem_of_map. exists kv'. split; [done |]. apply list_elem_of_join.
      exists (shown (redactAttr render a)). split; [by apply IH |]. apply elem_of_map. eexists. split; [done |].
      apply elem_of_map. by exists a.
  - split; [by right | done].
Qed.

Lemma redact_attrs_in render attrs a : a ∈ RedactAttrs render attrs <-> exists b, a = redactAttr render b /\ b ∈ attrs.
Proof. apply elem_of_map. Qed.

(** After [RedactAttrs] no value under a sensitive key is anything but the empty
    string or the mask, at any depth of groups, what a [LogValuer] answers apart. *)
Theorem redact_attrs_masks (render : value -> string) (attrs : list attr) (a : attr) (kv : list string * string) :
  a ∈ RedactAttrs render attrs -> kv ∈ shown a -> masked kv \/ exists b, b ∈ attrs /\ kv ∈ behind b.
Proof.
  intros (b & -> & Hb)%redact_attrs_in Hkv. destruct (proj1 (redactAttr_shown render b) kv Hkv); eauto.
Qed.

(** Redaction does not reach into a [LogValuer]: one under a key that is not
    sensitive, which resolves to a group with a password, is logged in clear. *)
Theorem redact_attrs_misses_log_valuer (render : value -> string) :
  exists attrs a kv, a ∈ RedactAttrs render attrs /\ kv ∈ shown a /\ ~ masked kv.
Proof.
  set (secret := Attr "request" (VLogValuer (VGroup [Attr "password" (VPlain "hunter2")]))).
  exists [secret], secret, (["request"; "password"], "hunter2").
  split; [apply list_elem_of_here | split; [apply list_elem_of_here |]].
  intros Hm. destruct Hm; [right; left; reflexivity | done..].
Qed.

(** ** Witnesses *)
Lemma all_key_dec s : forallb is_key_char s = true -> all_key s.
Proof. intros H. apply Forall_forall. intros c Hc. rewrite forallb_forall in H. by apply H, list_elem_of_In. Qed.

Lemma redact_hides_value_witness :
  redact (text "trade_password=hunter2") = Some (text "trade_password=***").
Proof.
  exact (redact_hides_value (text "trade_password") (text "hunter2") "="%char
    ltac:(apply all_key_dec; reflexivity) ltac:(done) ltac:(vm_compute; reflexivity) ltac:(by left)
    ltac:(apply all_key_dec; reflexivity) ltac:(done)).
Defined.

Lemma redact_nested_key_panics_witness : redact (text "password=token=abc") = None.
Proof.
  exact (redact_nested_key_panics (text "password") (text "token") (text "abc")
    ltac:(apply all_key_dec; reflexivity) ltac:(done) ltac:(vm_compute; reflexivity)
    ltac:(apply all_key_dec; reflexivity) ltac:(done) ltac:(vm_compute; reflexivity)
    ltac:(apply all_key_dec; reflexivity) ltac:(done)).
Defined.

Lemma redact_identity_witness :
  redact (text "passwordHash=1, order: 7") = Some (text "passwordHash=1, order: 7").
Proof.
  apply (redact_identity (text "passwordHash=1, order: 7")).
  repeat constructor.
Defined.

Lemma redact_attrs_masks_witness :
  masked (["auth"; "token"], Mask) \/ exists b, b ∈ [Attr "auth" (VGroup [Attr "token" (VPlain "t0p")])]
    /\ (["auth"; "token"], Mask) ∈ behind b.
Proof.
  apply (redact_attrs_masks (fun _ => "group") [Attr "auth" (VGroup [Attr "token" (VPlain "t0p")])]
    (Attr "auth" (VGroup [Attr "token" (VPlain Mask)]))).
  - vm_compute. left.
  - vm_compute. left.
Defined.
