(* ===== verification/RedactText.v ===== *)
(** [RedactText] of [src/internal/logging/logging.go] on free text: every secret of a
    text made of recognised assignments is replaced by the mask, and nothing else is
    changed. *)
From S2P Require Import Prelude Logging.

(** ** Free text

    A text is a list of sensitive assignments, each after some other text, and what
    comes after the last one. *)
Record assignment := mkAssignment {
  before : bytes;
  key : bytes;
  blank1 : bytes; key_quote : option ascii; blank2 : bytes; sep : ascii; blank3 : bytes; value_quote : option ascii;
  word : bytes;
  credential : bytes;
}.

Definition opt_char (c : option ascii) : bytes := match c with Some c => [c] | None => [] end.
Definition link (a : assignment) : bytes :=
  blank1 a ++ opt_char (key_quote a) ++ blank2 a ++ sep a :: blank3 a ++ opt_char (value_quote a).
Definition secret (a : assignment) : bytes := word a ++ credential a.

Fixpoint written (l : list assignment) (tail : bytes) : bytes :=
  match l with
  | [] => tail
  | a :: l => before a ++ key a ++ link a ++ secret a ++ written l tail
  end.

(** The same text with the mask in the place of every secret. *)
Fixpoint masked_text (l : list assignment) (tail : bytes) : bytes :=
  match l with
  | [] => tail
  | a :: l => before a ++ key a ++ link a ++ text Mask ++ masked_text l tail
  end.

(** A text in which nothing is assigned to a sensitive name: the names are not
    sensitive, or something else follows them. *)
Definition no_assignment (s : bytes) : bool :=
  forallb (fun loc => negb (IsSensitiveKey (normalizeKey (slice (fst loc) (snd loc) s)))
                      || at_char (fun c => negb (is_quote c || char_in c ":=")) s (skipSpace s (snd loc))) (key_runs s).

(** The text is over, or goes on with a character of the kind. *)
Definition ends_at (p : ascii -> bool) (rest : bytes) : bool := match rest with [] => true | c :: _ => p c end.

Definition quoted_value (a : assignment) : bool := bool_decide (is_Some (value_quote a)).

(** An assignment in one of the forms that are recognised, in front of [rest]. The
    secret is one word, up to a quote if it is quoted; after the name of an
    authentication scheme it goes on to the end of the credential. *)
Definition assignment_ok (a : assignment) (rest : bytes) : bool :=
  no_assignment (before a) && ends_at (fun c => negb (is_key_char c)) (reverse (before a))
  && forallb is_key_char (key a) && negb (bool_decide (key a = [])) && IsSensitiveKey (normalizeKey (key a))
  && forallb is_space (blank1 a ++ blank2 a ++ blank3 a) && char_in (sep a) ":="
  && forallb is_quote (opt_char (key_quote a) ++ opt_char (value_quote a))
  && negb (bool_decide (word a = [])) && forallb (fun c => negb (isValueTerminator c (quoted_value a))) (word a)
  && no_assignment (secret a)
  && (if negb (quoted_value a) && isAuthScheme (word a)
      then ends_at (fun c => isValueTerminator c false) (credential a)
           && forallb (fun c => negb (isCredentialTerminator c)) (credential a) && ends_at isCredentialTerminator rest
      else bool_decide (credential a = []) && ends_at (fun c => isValueTerminator c (quoted_value a)) rest).

Fixpoint text_ok (l : list assignment) (tail : bytes) : bool :=
  match l with
  | [] => no_assignment tail
  | a :: l => assignment_ok a (written l tail) && text_ok l tail
  end.

(** ** Indices into a text *)
Lemma skip_over p s pre l rest i :
  s = pre ++ l ++ rest -> i = length pre -> forallb p l = true -> ends_at (fun c => negb (p c)) rest = true ->
  skip p s i = (i + length l)%nat.
Proof.
  intros -> -> Hl Hr. unfold skip. rewrite drop_app_length. f_equal. induction l as [|c l IH]; simpl in *.
  - destruct rest as [|c rest]; [done |]. simpl in *. by destruct (p c).
  - apply andb_true_iff in Hl as [-> Hl]. by rewrite IH.
Qed.

Lemma at_char_at p s pre c rest i : s = pre ++ c :: rest -> i = length pre -> at_char p s i = p c.
Proof. intros -> ->. unfold at_char. by rewrite list_lookup_middle. Qed.

Lemma slice_at {A} (s pre l rest : list A) i j : s = pre ++ l ++ rest -> i = length pre -> j = (i + length l)%nat -> slice i j s = l.
Proof. intros -> -> ->. apply slice_app; lia. Qed.

Lemma go_slice_at s pre l rest i j : s = pre ++ l ++ rest -> i = length pre -> j = (i + length l)%nat -> go_slice s i j = Some l.
Proof.
  intros Hs Hi Hj. unfold go_slice. rewrite decide_True by (subst; rewrite !length_app; lia).
  f_equal. by eapply slice_at.
Qed.

(** ** Runs of key characters in a text of parts *)
Definition loc_shift (n : nat) (loc : nat * nat) : nat * nat := ((n + fst loc)%nat, (n + snd loc)%nat).

Lemma key_runs_shift n i run s :
  key_runs_from (n + i) (Nat.add n <$> run) s = map (loc_shift n) (key_runs_from i run s).
Proof.
  revert i run. induction s as [|c s IH]; intros i run; simpl; [by destruct run |].
  rewrite <- Nat.add_succ_r. destruct (is_key_char c).
  - rewrite <- IH. f_equal. by destruct run.
  - destruct run; simpl; [f_equal |]; apply (IH _ None).
Qed.

Lemma key_runs_split i run s rest :
  ends_at (fun c => negb (is_key_char c)) rest = true ->
  key_runs_from i run (s ++ rest) = key_runs_from i run s ++ key_runs_from (i + length s) None rest.
Proof.
  intros Hr. revert i run. induction s as [|c s IH]; intros i run; cbn [app key_runs_from length].
  - rewrite Nat.add_0_r. destruct rest as [|c rest]; cbn [key_runs_from]; [by rewrite app_nil_r |].
    simpl in Hr. apply negb_true_iff in Hr as ->. by destruct run.
  - rewrite !IH, !Nat.add_succ_r. by destruct (is_key_char c), run.
Qed.

Lemma key_runs_end i run s rest :
  ends_at (fun c => negb (is_key_char c)) (reverse s) = true -> run = None ->
  key_runs_from i run (s ++ rest) = key_runs_from i run s ++ key_runs_from (i + length s) None rest.
Proof.
  intros Hs ->. induction s as [|c s _] using rev_ind; [by rewrite Nat.add_0_r |].
  rewrite reverse_app in Hs. simpl in Hs. apply negb_true_iff in Hs as Hc.
  rewrite <- app_assoc. rewrite !(key_runs_split i None s) by done. rewrite length_app. cbn [app key_runs_from length].
  rewrite Hc, <- app_assoc. cbn [app]. do 2 f_equal. lia.
Qed.

Lemma key_runs_none i s rest :
  forallb (fun c => negb (is_key_char c)) s = true ->
  key_runs_from i None (s ++ rest) = key_runs_from (i + length s) None rest.
Proof.
  revert i. induction s as [|c s IH]; intros i Hs; cbn [app length]; [by rewrite Nat.add_0_r |].
  cbn [forallb] in Hs. apply andb_true_iff in Hs as [Hc%negb_true_iff Hs].
  cbn [key_runs_from]. rewrite Hc, IH by done. f_equal. lia.
Qed.

(** Every run lies in its text. *)
Lemma key_runs_range i run s st e : (st, e) ∈ key_runs_from i run s -> (default i run <= i)%nat ->
  (default i run <= st <= e)%nat /\ (e <= i + length s)%nat.
Proof.
  revert i run. induction s as [|c s IH]; intros i run; cbn [key_runs_from length].
  - destruct run; [intros [= -> ->]%list_elem_of_singleton; simpl; lia | by intros []%not_elem_of_nil].
  - intros Hin Hrun. destruct (is_key_char c).
    + destruct (IH _ _ Hin) as [? ?]; [simpl; lia |]. simpl in *. lia.
    + destruct run as [r|]; simpl in *.
      * apply elem_of_cons in Hin as [[= -> ->]|Hin]; [lia |]. destruct (IH _ _ Hin); simpl in *; lia.
      * destruct (IH _ _ Hin); simpl in *; lia.
Qed.

(** Where nothing is assigned in a part, nothing is masked. *)
Lemma part_unmasked s pre part rest :
  s = pre ++ part ++ rest -> no_assignment part = true ->
  Forall (fun loc => value_of s (fst loc) (snd loc) = None) (key_runs_from (length pre) None part).
Proof.
  intros -> Hn. pose proof (key_runs_shift (length pre) 0 None part) as Hsh. rewrite Nat.add_0_r in Hsh. simpl in Hsh. rewrite Hsh.
  apply Forall_forall. intros loc (loc' & -> & Hin)%elem_of_map. destruct loc' as [st e]. cbn [loc_shift fst snd].
  unfold no_assignment in Hn. rewrite forallb_forall in Hn. apply list_elem_of_In in Hin as Hin'. apply Hn in Hin'. clear Hn.
  destruct (key_runs_range _ _ _ _ _ Hin) as [[_ Hse] He]; [done |]. cbn [fst snd] in *.
  assert (Hsl : slice (length pre + st) (length pre + e) (pre ++ part ++ rest) = slice st e part).
  { unfold slice. rewrite <- drop_drop, drop_app_length.
    replace (length pre + e - (length pre + st))%nat with (e - st)%nat by lia.
    rewrite drop_app_le by lia. apply take_app_le. rewrite length_drop. lia. }
  unfold value_of. rewrite Hsl. apply orb_true_iff in Hin' as [Hs|Hs]; [by rewrite Hs |].
  destruct (IsSensitiveKey _); [cbn [negb] | done].
  unfold at_char in Hs. destruct (part !! skipSpace part e) as [c|] eqn:Hc; [| done].
  assert (Hsk : skipSpace (pre ++ part ++ rest) (length pre + e) = (length pre + skipSpace part e)%nat).
  { unfold skipSpace, skip in *. rewrite <- drop_drop, drop_app_length, drop_app_le by lia.
    rewrite <- Nat.add_assoc. f_equal. f_equal. assert (Hd : drop e part !! span is_space (drop e part) = Some c).
    { by rewrite lookup_drop. }
    revert Hd. generalize (drop e part). intros l. induction l as [|x l IH]; [done |]. simpl.
    destruct (is_space x); [| done]. intros Hd. by rewrite IH. }
  rewrite Hsk. assert (Hl : (pre ++ part ++ rest) !! (length pre + skipSpace part e)%nat = Some c).
  { rewrite lookup_app_r by lia. replace (_ - _)%nat with (skipSpace part e) by lia. by apply lookup_app_l_Some. }
  apply negb_true_iff, orb_false_iff in Hs as [Hq Hsep]. unfold at_char. rewrite Hl, Hq, Hl, Hsep. done.
Qed.

Lemma redact_loop_skip s locs rest b last :
  Forall (fun loc => value_of s (fst loc) (snd loc) = None) locs ->
  redact_loop s (locs ++ rest) b last = redact_loop s rest b last.
Proof. induction 1 as [|[st e] locs Hl _ IH]; [done |]. cbn [app redact_loop fst snd] in *. by rewrite Hl. Qed.

(** ** An assignment and its value *)
Lemma char_classes c :
  (is_space c = true -> is_key_char c = false /\ is_quote c = false /\ char_in c ":=" = false)
  /\ (is_quote c = true -> is_key_char c = false /\ is_space c = false /\ char_in c ":=" = false)
  /\ (char_in c ":=" = true -> is_key_char c = false /\ is_space c = false /\ is_quote c = false)
  /\ (isCredentialTerminator c = true -> isValueTerminator c false = true /\ is_key_char c = false)
  /\ (isValueTerminator c false = true -> is_key_char c = false)
  /\ (isValueTerminator c false = false -> is_space c = false /\ is_quote c = false).
Proof.
  pose proof (ascii_forall (fun c =>
    implb (is_space c) (negb (is_key_char c) && negb (is_quote c) && negb (char_in c ":="))
    && implb (is_quote c) (negb (is_key_char c) && negb (is_space c) && negb (char_in c ":="))
    && implb (char_in c ":=") (negb (is_key_char c) && negb (is_space c) && negb (is_quote c))
    && implb (isCredentialTerminator c) (isValueTerminator c false && negb (is_key_char c))
    && implb (isValueTerminator c false) (negb (is_key_char c))
    && implb (negb (isValueTerminator c false)) (negb (is_space c) && negb (is_quote c)))
    ltac:(vm_compute; reflexivity) c) as H. cbv beta in H.
  destruct (is_space c), (is_quote c), (char_in c ":="), (is_key_char c), (isCredentialTerminator c),
    (isValueTerminator c false); simpl in H; try done; by repeat split.
Qed.

Lemma space_class c : is_space c = true -> is_key_char c = false /\ is_quote c = false /\ char_in c ":=" = false.
Proof. apply char_classes. Qed.
Lemma quote_class c : is_quote c = true -> is_key_char c = false /\ is_space c = false /\ char_in c ":=" = false.
Proof. apply char_classes. Qed.
Lemma sep_class c : char_in c ":=" = true -> is_key_char c = false /\ is_space c = false /\ is_quote c = false.
Proof. apply char_classes. Qed.
Lemma credential_class c : isCredentialTerminator c = true -> isValueTerminator c false = true /\ is_key_char c = false.
Proof. apply char_classes. Qed.
Lemma terminator_class c : isValueTerminator c false = true -> is_key_char c = false.
Proof. apply char_classes. Qed.
Lemma value_class c : isValueTerminator c false = false -> is_space c = false /\ is_quote c = false.
Proof. apply char_classes. Qed.

Ltac bools :=
  repeat match goal with
    | H : _ && _ = true |- _ => apply andb_true_iff in H as [? ?]
    | H : negb _ = true |- _ => apply negb_true_iff in H
    end.

Lemma ends_at_impl p q rest : (forall c, p c = true -> q c = true) -> ends_at p rest = true -> ends_at q rest = true.
Proof. intros Hpq. destruct rest; [done |]. apply Hpq. Qed.

Lemma forallb_impl {A} (p q : A -> bool) l : (forall c, p c = true -> q c = true) -> forallb p l = true -> forallb q l = true.
Proof. intros Hpq. rewrite !forallb_forall. auto. Qed.

(** What stands between a name and its value. *)
Definition link_ok (a : assignment) : bool :=
  forallb is_space (blank1 a ++ blank2 a ++ blank3 a) && char_in (sep a) ":="
  && forallb is_quote (opt_char (key_quote a) ++ opt_char (value_quote a)).

Lemma link_plain a : link_ok a = true -> forallb (fun c => negb (is_key_char c)) (link a) = true.
Proof.
  unfold link_ok, link. rewrite !forallb_app. cbn [forallb]. rewrite !forallb_app. intros H. bools.
  repeat (apply andb_true_iff; split); try (by rewrite (proj1 (sep_class (sep a) ltac:(done))));
    (eapply forallb_impl; [| eassumption]; intros c Hc; apply negb_true_iff;
     first [by apply space_class | by apply quote_class]).
Qed.

Section value.
Context (a : assignment) (pre rest : bytes).
Hypothesis Hlink : link_ok a = true.
Hypothesis Hword : word a <> [].
Hypothesis Hchars : forallb (fun c => negb (isValueTerminator c (quoted_value a))) (word a) = true.

Abbreviation from := (pre ++ key a).
Abbreviation whole := (pre ++ key a ++ link a ++ secret a ++ rest).

Lemma word_start : value_quote a = None -> ends_at (fun c => negb (is_space c) && negb (is_quote c)) (word a) = true.
Proof using Hword Hchars.
  intros Hq. unfold quoted_value in Hchars. rewrite Hq in Hchars. simpl in Hchars. destruct (word a) as [|c l]; [done |].
  simpl in *. bools. by destruct (value_class c ltac:(done)) as [-> ->].
Qed.

(** The parser of the link. *)
Lemma link_start :
  let i := skipSpace whole (length from) in
  let i := if at_char is_quote whole i then skipSpace whole (S i) else i in
  i = length (from ++ blank1 a ++ opt_char (key_quote a) ++ blank2 a).
Proof using Hlink.
  unfold link_ok in Hlink. rewrite !forallb_app in Hlink. bools. cbv zeta. unfold skipSpace.
  destruct (sep_class (sep a) ltac:(done)) as (_ & Hs & Hq).
  destruct (key_quote a) as [q|] eqn:Hk.
  - cbn [opt_char forallb] in *. bools.
    destruct (quote_class q ltac:(done)) as (_ & Hqs & _).
    rewrite (skip_over _ _ from (blank1 a) (q :: blank2 a ++ sep a :: blank3 a ++ opt_char (value_quote a) ++ secret a ++ rest));
      [| unfold link; rewrite Hk; by simplify_list_eq | done | done | by simpl; rewrite Hqs].
    rewrite (at_char_at _ _ (from ++ blank1 a) q (blank2 a ++ sep a :: blank3 a ++ opt_char (value_quote a) ++ secret a ++ rest));
      [| unfold link; rewrite Hk; by simplify_list_eq | by rewrite !length_app].
    replace (is_quote q) with true by done.
    rewrite (skip_over _ _ (from ++ blank1 a ++ [q]) (blank2 a) (sep a :: blank3 a ++ opt_char (value_quote a) ++ secret a ++ rest));
      [rewrite !length_app; simpl; lia | unfold link; rewrite Hk; by simplify_list_eq | rewrite !length_app; simpl; lia | done | by simpl; rewrite Hs].
  - rewrite (skip_over _ _ from (blank1 a ++ blank2 a) (sep a :: blank3 a ++ opt_char (value_quote a) ++ secret a ++ rest));
      [| unfold link; rewrite Hk; by simplify_list_eq | done | rewrite forallb_app; by apply andb_true_iff | by simpl; rewrite Hs].
    rewrite (at_char_at _ _ (from ++ blank1 a ++ blank2 a) (sep a) (blank3 a ++ opt_char (value_quote a) ++ secret a ++ rest));
      [| unfold link; rewrite Hk; by simplify_list_eq | rewrite !length_app; lia].
    rewrite Hq. cbn [opt_char app]. rewrite !length_app. lia.
Qed.

(** The start of the value, and whether it is quoted. *)
Lemma value_start :
  let i := skipSpace whole (S (length (from ++ blank1 a ++ opt_char (key_quote a) ++ blank2 a))) in
  at_char is_quote whole i = quoted_value a
  /\ (if quoted_value a then S i else i) = length (from ++ link a).
Proof using Hlink Hword Hchars.
  unfold link_ok in Hlink. rewrite !forallb_app in Hlink. bools. cbv zeta. unfold skipSpace, quoted_value.
  destruct (value_quote a) as [q|] eqn:Hv.
  - cbn [opt_char forallb] in *. bools.
    destruct (quote_class q ltac:(done)) as (_ & Hqs & _).
    rewrite (skip_over _ _ (from ++ blank1 a ++ opt_char (key_quote a) ++ blank2 a ++ [sep a]) (blank3 a) (q :: secret a ++ rest));
      [| unfold link; rewrite Hv; by simplify_list_eq | rewrite !length_app; simpl; lia | done | by simpl; rewrite Hqs].
    rewrite (at_char_at _ _ (from ++ blank1 a ++ opt_char (key_quote a) ++ blank2 a ++ sep a :: blank3 a) q (secret a ++ rest));
      [| unfold link; rewrite Hv; by simplify_list_eq | rewrite !length_app; simpl; rewrite ?length_app; simpl; lia].
    split; [done |]. simpl. unfold link. rewrite Hv, !length_app. simpl. rewrite length_app. simpl. lia.
  - pose proof (word_start Hv) as Hw. unfold secret.
    rewrite (skip_over _ _ (from ++ blank1 a ++ opt_char (key_quote a) ++ blank2 a ++ [sep a]) (blank3 a) (word a ++ credential a ++ rest));
      [| unfold link, secret; rewrite Hv; by simplify_list_eq | rewrite !length_app; simpl; lia | done |].
    2: { destruct (word a) as [|c l]; [done |]. simpl in *. bools. by apply negb_true_iff. }
    destruct (word a) as [|c l] eqn:Hwd; [done |]. simpl in Hw. bools.
    rewrite (at_char_at _ _ (from ++ blank1 a ++ opt_char (key_quote a) ++ blank2 a ++ sep a :: blank3 a) c (l ++ credential a ++ rest));
      [| unfold link, secret; rewrite Hv; by simplify_list_eq | rewrite !length_app; simpl; rewrite ?length_app; simpl; lia].
    split; [done |]. simpl. unfold link. rewrite Hv, !length_app. simpl. rewrite !length_app. simpl. lia.
Qed.
End value.

(** The parts of [assignment_ok]. *)
Record recognised (a : assignment) (rest : bytes) : Prop := {
  rc_before : no_assignment (before a) = true;
  rc_boundary : ends_at (fun c => negb (is_key_char c)) (reverse (before a)) = true;
  rc_key : forallb is_key_char (key a) = true /\ key a <> [] /\ IsSensitiveKey (normalizeKey (key a)) = true;
  rc_link : link_ok a = true;
  rc_word : word a <> [] /\ forallb (fun c => negb (isValueTerminator c (quoted_value a))) (word a) = true;
  rc_secret : no_assignment (secret a) = true;
  rc_scheme : negb (quoted_value a) && isAuthScheme (word a) = true ->
    ends_at (fun c => isValueTerminator c false) (credential a) = true
    /\ forallb (fun c => negb (isCredentialTerminator c)) (credential a) = true
    /\ ends_at isCredentialTerminator rest = true;
  rc_plain : negb (quoted_value a) && isAuthScheme (word a) = false ->
    credential a = [] /\ ends_at (fun c => isValueTerminator c (quoted_value a)) rest = true;
}.

Lemma assignment_recognised a rest : assignment_ok a rest = true -> recognised a rest.
Proof.
  unfold assignment_ok. intros H. bools.
  repeat match goal with H : bool_decide _ = false |- _ => apply bool_decide_eq_false in H end.
  split; try done.
  - unfold link_ok. by repeat (apply andb_true_iff; split).
  - intros Ha. rewrite Ha in *. bools. done.
  - intros Ha. rewrite Ha in *. bools. split; [by eapply bool_decide_eq_true | done].
Qed.

Lemma quote_terminates a c : isValueTerminator c (quoted_value a) = true -> is_key_char c = false.
Proof. destruct (quoted_value a); [apply quote_class | apply terminator_class]. Qed.

(** After a secret a run of key characters cannot go on. *)
Lemma rest_boundary a rest : recognised a rest -> ends_at (fun c => negb (is_key_char c)) rest = true.
Proof.
  intros []. destruct (negb (quoted_value a) && isAuthScheme (word a)).
  - destruct rc_scheme0 as (_ & _ & Hr); [done |]. eapply ends_at_impl; [| exact Hr].
    intros c Hc. apply negb_true_iff. by apply credential_class.
  - destruct rc_plain0 as [_ Hr]; [done |]. eapply ends_at_impl; [| exact Hr].
    intros c Hc. apply negb_true_iff. by apply (quote_terminates a).
Qed.

Lemma word_ends a rest : recognised a rest ->
  ends_at (fun c => negb (negb (isValueTerminator c (quoted_value a)))) (credential a ++ rest) = true.
Proof.
  intros []. destruct (negb (quoted_value a) && isAuthScheme (word a)) eqn:Hs.
  - destruct rc_scheme0 as (Hc & _ & Hr); [done |]. apply andb_true_iff in Hs as [Hq%negb_true_iff _]. rewrite Hq.
    destruct (credential a) as [|c l]; [| simpl in *; by rewrite Hc].
    eapply ends_at_impl; [| exact Hr]. intros c Hc'. rewrite negb_involutive. by apply credential_class.
  - destruct rc_plain0 as [-> Hr]; [done |]. eapply ends_at_impl; [| exact Hr]. intros c Hc. by rewrite negb_involutive.
Qed.

(** The value that is found after a sensitive name is its secret. *)
Lemma value_of_assigned a pre rest :
  recognised a rest ->
  value_of (pre ++ key a ++ link a ++ secret a ++ rest) (length pre) (length (pre ++ key a))
  = Some (length ((pre ++ key a) ++ link a), length ((pre ++ key a) ++ link a ++ secret a)).
Proof.
  intros Ha. pose proof (word_ends _ _ Ha) as Hends. destruct Ha as [_ _ (Hk & Hkn & Hks) Hl [Hw Hwc] _ Hauth Hplain].
  unfold value_of. rewrite (slice_at _ pre (key a) (link a ++ secret a ++ rest)) by (first [done | by rewrite length_app]).
  rewrite Hks. cbn [negb]. pose proof (link_start a pre rest Hl) as E1. cbv zeta in E1 |- *. rewrite E1.
  rewrite (at_char_at _ _ ((pre ++ key a) ++ blank1 a ++ opt_char (key_quote a) ++ blank2 a) (sep a)
    (blank3 a ++ opt_char (value_quote a) ++ secret a ++ rest)) by (first [done | unfold link; by simplify_list_eq]).
  assert (Hsep : char_in (sep a) ":=" = true) by (unfold link_ok in Hl; by bools). rewrite Hsep. cbn [negb].
  destruct (value_start a pre rest Hl Hw Hwc) as [-> ->].
  rewrite (skip_over _ _ ((pre ++ key a) ++ link a) (word a) (credential a ++ rest));
    [| unfold secret; by simplify_list_eq | done | done | exact Hends].
  rewrite decide_False by (destruct (word a); [done | simpl; lia]).
  rewrite (slice_at _ ((pre ++ key a) ++ link a) (word a) (credential a ++ rest)) by (first [done | unfold secret; by simplify_list_eq]).
  do 2 f_equal. unfold secret in *. destruct (negb (quoted_value a) && isAuthScheme (word a)) eqn:Hs.
  - destruct Hauth as (_ & Hc & Hr); [done |]. case_decide as Hlt.
    + rewrite (skip_over _ _ ((pre ++ key a) ++ link a ++ word a) (credential a) rest);
        [rewrite !length_app; lia | by simplify_list_eq | rewrite !length_app; lia | exact Hc |].
      eapply ends_at_impl; [| exact Hr]. intros c ->. done.
    + rewrite !length_app in *. lia.
  - destruct Hplain as [Hc _]; [done |]. rewrite Hc in *. case_decide; rewrite !length_app; simpl; lia.
Qed.

Lemma written_loop l tail pre b :
  text_ok l tail = true -> (pre = [] -> b = []) ->
  redact_loop (pre ++ written l tail) (key_runs_from (length pre) None (written l tail)) b (length pre)
  = Some (b ++ masked_text l tail).
Proof.
  revert pre b. induction l as [|a l IH]; intros pre b Hok Hb; cbn [written masked_text text_ok] in *.
  - rewrite redact_loop_none.
    2: { apply (part_unmasked _ pre tail []); [by rewrite app_nil_r | done]. }
    cbn [redact_loop]. case_decide as Hp.
    + apply nil_length_inv in Hp as ->. by rewrite Hb.
    + rewrite (go_slice_at _ pre tail []); [done | by rewrite app_nil_r | done | by rewrite length_app].
  - apply andb_true_iff in Hok as [Ha%assignment_recognised Hok].
    set (rest := written l tail) in *. pose proof (rest_boundary _ _ Ha) as Hrest.
    pose proof (link_plain a (rc_link _ _ Ha)) as Hlp.
    set (s := pre ++ before a ++ key a ++ link a ++ secret a ++ rest).
    rewrite key_runs_end by (by apply Ha || done).
    rewrite redact_loop_skip by (eapply part_unmasked; [reflexivity | apply Ha]).
    rewrite <- length_app. rewrite key_runs_split.
    2: { destruct (link a) as [|c k] eqn:Hl;
           [unfold link in Hl; apply (f_equal length) in Hl; rewrite !length_app in Hl; simpl in Hl; lia |].
         simpl in Hlp |- *. by apply andb_true_iff in Hlp as [? _]. }
    assert (Hkey : forall i, key_runs_from i None (key a) = [(i, i + length (key a))%nat]).
    { intros i. destruct (rc_key _ _ Ha) as (Hk & Hkn & _). rewrite <- (app_nil_r (key a)) at 1.
      rewrite key_runs_from_app; [done | | done]. apply Forall_forall. intros c Hc. rewrite forallb_forall in Hk.
      by apply Hk, list_elem_of_In. }
    rewrite Hkey, key_runs_none by done. rewrite key_runs_split by exact Hrest.
    cbn [app redact_loop].
    assert (Hval := value_of_assigned a (pre ++ before a) rest Ha).
    replace ((pre ++ before a) ++ key a ++ link a ++ secret a ++ rest) with s in Hval by (unfold s; by simplify_list_eq).
    rewrite <- length_app. rewrite Hval.
    rewrite (go_slice_at s pre (before a ++ key a ++ link a) (secret a ++ rest));
      [| unfold s; by simplify_list_eq | done | rewrite !length_app; lia].
    cbn [mbind option_bind]. rewrite <- !length_app, redact_loop_skip.
    2: { apply (part_unmasked s _ (secret a) rest); [unfold s; by simplify_list_eq | apply Ha]. }
    rewrite <- !app_assoc.
    replace s with ((pre ++ before a ++ key a ++ link a ++ secret a) ++ rest) by (unfold s; by simplify_list_eq).
    rewrite IH; [by simplify_list_eq | done |]; destruct (rc_key _ _ Ha) as (_ & Hkn & _); intros He;
      apply app_eq_nil in He as [_ He]; apply app_eq_nil in He as [_ He]; by apply app_eq_nil in He as [? _].
Qed.

Lemma redact_written l tail : text_ok l tail = true -> redact (written l tail) = Some (masked_text l tail).
Proof.
  intros Hok. unfold redact. case_decide as Hs.
  - destruct l as [|a l]; [by simpl in * |]. simpl in Hok. apply andb_true_iff in Hok as [Ha%assignment_recognised _].
    apply app_eq_nil in Hs as [_ Hs]. apply app_eq_nil in Hs as [Hk _]. by destruct (rc_key _ _ Ha) as (_ & ? & _).
  - exact (written_loop l tail [] [] Hok (fun _ => eq_refl)).
Qed.

(** [RedactText] puts the mask in the place of every secret of a text of recognised
    assignments and changes nothing else. *)
Theorem redact_text_masks l tail : text_ok l tail = true ->
  RedactText (str (written l tail)) = Some (str (masked_text l tail)).
Proof. intros Hok. unfold RedactText. by rewrite text_str, redact_written. Qed.

(** ** A message, a header and a JSON body *)
Definition plain_secret (before name value : string) : assignment :=
  mkAssignment (text before) (text name) [] None [] "=" [] None (text value) [].
Definition header_secret (before name scheme value : string) : assignment :=
  mkAssignment (text before) (text name) [] None [] ":" (text " ") None (text scheme) (text value).
Definition json_secret (before name value : string) : assignment :=
  mkAssignment (text before) (text name) [] (Some "034"%char) [] ":" (text " ") (Some "034"%char) (text value) [].

Definition demo_text : list assignment :=
  [plain_secret "login rejected: " "password" "hunter2"; header_secret ", sent " "Authorization" "Bearer" " abc.def x";
   json_secret "} to {'" "api_key" "s3 cr3t, too"].
Definition demo_tail : bytes := "034"%char :: text ", 'order': 7}, no token left".

Example demo_text_ok : text_ok demo_text demo_tail = true.
Proof. vm_compute. reflexivity. Qed.

Example demo_text_written :
  str (written (firstn 2 demo_text) (text "; 7")) = "login rejected: password=hunter2, sent Authorization: Bearer abc.def x; 7"
  /\ str (masked_text (firstn 2 demo_text) (text "; 7")) = "login rejected: password=***, sent Authorization: ***; 7".
Proof. vm_compute. done. Qed.

Lemma redact_text_masks_witness :
  RedactText "login rejected: password=hunter2, retry" = Some "login rejected: password=***, retry".
Proof.
  exact (redact_text_masks [plain_secret "login rejected: " "password" "hunter2"] (text ", retry")
    ltac:(vm_compute; reflexivity)).
Defined.
