(* ===== verification/Transport.v ===== *)
(** The Gateway envelope over HTTP: [src/internal/transport/transport.go].

    One call encodes the parameters, posts one envelope, reads the response
    under a byte cap and classifies a failure. [net/http], [encoding/json] and
    the codec are operations on a world of any type. *)
From S2P Require Import Prelude Types Errs Retry Logging.

Create HintDb transport.

Definition DefaultBaseURL : string := "http://127.0.0.1:11111".
Definition DefaultTimeout : Z := 10 * Second.
Definition DefaultMaxResponseBytes : Z := Z.shiftl 8 20.

(** ** Failure classification *)
Definition is_digit (c : ascii) : bool := in_range "0" "9" c.

(** The cutset of the source, byte for byte: a space, a colon, a hyphen, and the
    three letters the bytes C3 AF, C2 BC, C5 A1 encode. *)
Definition failure_cutset : list bytes :=
  map bytes_of_nats [[32]; [58]; [45]; [195; 175]; [194; 188]; [197; 161]]%nat.

Definition classifyFailure (errText : string) : string * string :=
  let trimmed := TrimSpace (text errText) in
  if decide (trimmed = []) then ("", "")
  else if KnownCode (str trimmed) then (str trimmed, MessageForCode (str trimmed))
  else
    let e := span is_digit trimmed in
    let code := str (take e trimmed) in
    if decide (4 <= e <= 5)%nat then
      if KnownCode code then
        let rest := TrimSpace (TrimLeft failure_cutset (drop e trimmed)) in
        (code, if decide (rest = []) then MessageForCode code else str rest)
      else ("", str trimmed)
    else ("", str trimmed).

Definition failure (op errText : string) : error :=
  let '(code, message) := classifyFailure errText in
  let message :=
    if decide (message = "") then "gateway reported failure with no error message" else message in
  Errs.New code op message.

Definition transportError (op : string) (err : error) : error :=
  if is_sentinel err DeadlineExceeded then Timeout op (Some err) else Connection op (Some err).

Definition readError (op : string) (err : error) : error :=
  if is_sentinel err DeadlineExceeded then Timeout op (Some err)
  else Connection op (Some (EWrap ("read response body: " +:+ error_text err) err)).

(** [strings.ReplaceAll(text, "\n", " ")]. *)
Definition newlines_to_spaces (s : bytes) : bytes :=
  map (fun c => if decide (c = "010"%char) then " "%char else c) s.

Definition maxSnippet : nat := 256.

(** [None]: [RedactText] panicked. *)
Definition bodySnippet (body : bytes) : option string :=
  let t := TrimSpace body in
  if decide (t = []) then Some ""
  else
    t ← redact t;
    let t := if decide (maxSnippet < length t)%nat then take maxSnippet t ++ text "..." else t in
    Some (": " +:+ str (newlines_to_spaces t)).

(** ** Configuration *)
Record Transport := mkTransport {
  baseURL : string;
  clientTimeout : Z;           (** [client.Timeout] *)
  defaultTimeout : Z;
  maxResponseBytes : Z;
  correlationIDHeader : string;
}.

(** [Config] after the options ran; [cfg_client_timeout] is the [Timeout] of the
    supplied client, [None] when there is none. *)
Record Config := mkConfig {
  cfg_BaseURL : string;
  cfg_client_timeout : option Z;
  cfg_DefaultTimeout : Z;
  cfg_MaxResponseBytes : Z;
  cfg_CorrelationIDHeader : string;
}.

Definition New (cfg : Config) : Transport :=
  let url := if decide (cfg_BaseURL cfg = "") then DefaultBaseURL else cfg_BaseURL cfg in
  let timeout := if decide (cfg_DefaultTimeout cfg <= 0) then DefaultTimeout else cfg_DefaultTimeout cfg in
  let cap := if decide (cfg_MaxResponseBytes cfg <= 0) then DefaultMaxResponseBytes
             else cfg_MaxResponseBytes cfg in
  let client := default 0 (cfg_client_timeout cfg) in
  mkTransport (str (TrimRight [text "/"] (text url)))
    (if decide (client = 0) then timeout else client) timeout cap
    (str (TrimSpace (text (cfg_CorrelationIDHeader cfg)))).

(** [ctx.Deadline()] and the current time; a duration division truncates. *)
Definition timeoutSeconds (t : Transport) (deadline : option Z) (now : Z) : Z :=
  let secs := Z.quot (defaultTimeout t) Second in
  let secs := if decide (secs < 1) then 1 else secs in
  match deadline with
  | None => secs
  | Some d =>
      let remaining := Z.quot (time_sub d now) Second in
      let remaining := if decide (remaining < 1) then 1 else remaining in
      if decide (remaining < secs) then remaining else secs
  end.

(** ** [Do] *)

(** [json.Unmarshal(body, &env)] fills these. *)
Record response := mkResponse { OK : bool; Err : string; Data : bytes }.

(** An HTTP response: the bytes its body delivers before it ends with
    [body_end] ([None] for end of file). *)
Record http_response := mkHttp {
  StatusCode : Z;
  Body : bytes;
  body_end : option error;
}.

Section transport.
Context {World P O : Type}.
Context (codec_Marshal : P -> bytes + error) (codec_Unmarshal : bytes -> O -> option error * O).
Context (json_Marshal : Z -> option bytes -> bytes + error).
Context (json_Unmarshal : bytes -> response + error).
Context (NewRequest : string -> option error) (StatusText : Z -> string).
Context (ctx_deadline : option Z) (time_now : World -> Z * World).
Context (newCorrelationID : World -> option error * World).
Context (http_Do : string -> bytes -> World -> (http_response + error) * World).

(** [io.ReadAll(http.MaxBytesReader(nil, body, cap))]. *)
Definition read_capped (cap : Z) (r : http_response) : bytes + option error :=
  if decide (Z.of_nat (length (Body r)) > cap) then inr None
  else match body_end r with None => inl (Body r) | Some e => inr (Some e) end.

(** The envelope of a 2xx response, and [out]. *)
Definition handle_envelope (op : string) (body : bytes) (out : option O) : option error * option O :=
  match json_Unmarshal body with
  | inr e => (Some (Wrap (Some e) "" op "decode response envelope"), out)
  | inl env =>
      if negb (OK env) then (Some (failure op (Err env)), out)
      else
        match out with
        | None => (None, None)
        | Some o =>
            let data := TrimSpace (Data env) in
            if decide (data = [] \/ data = text "null") then (None, Some o)
            else
              match codec_Unmarshal data o with
              | (Some e, o) => (Some (Wrap (Some e) "" op "decode response data"), Some o)
              | (None, o) => (None, Some o)
              end
        end
  end.

(** What [Do] makes of a response; [None] when it panics. *)
Definition handle_response (t : Transport) (op : string) (r : http_response) (out : option O)
    : option (option error * option O) :=
  match read_capped (maxResponseBytes t) r with
  | inr None =>
      Some (Some (Errs.New "" op ("gateway response exceeds the " +:+ itoa (maxResponseBytes t)
                                  +:+ " byte cap")), out)
  | inr (Some e) => Some (Some (readError op e), out)
  | inl body =>
      if decide (StatusCode r < 200 \/ StatusCode r >= 300) then
        snippet ← bodySnippet body;
        Some (Some (Errs.New "" op ("gateway returned HTTP " +:+ itoa (StatusCode r) +:+ " "
                                    +:+ StatusText (StatusCode r) +:+ snippet)), out)
      else Some (handle_envelope op body out)
  end.

Definition encode_params (op : string) (params : option P) : option bytes + error :=
  match params with
  | None => inl None
  | Some p =>
      match codec_Marshal p with
      | inl b => inl (Some b)
      | inr e => inr (Wrap (Some e) "" op "encode params")
      end
  end.

Definition Do (t : Transport) (op path : string) (params : option P) (out : option O) (w : World)
    : option (option error * option O) * World :=
  match encode_params op params with
  | inr e => (Some (Some e, out), w)
  | inl raw =>
      let '(now, w) := time_now w in
      match json_Marshal (timeoutSeconds t ctx_deadline now) raw with
      | inr e => (Some (Some (Wrap (Some e) "" op "encode request envelope"), out), w)
      | inl envelope =>
          match NewRequest (baseURL t +:+ path) with
          | Some e => (Some (Some (Wrap (Some e) "" op "build request"), out), w)
          | None =>
              let '(idErr, w) :=
                if decide (correlationIDHeader t <> "") then newCorrelationID w else (None, w) in
              match idErr with
              | Some e => (Some (Some (Wrap (Some e) "" op "generate correlation id"), out), w)
              | None =>
                  match http_Do (baseURL t +:+ path) envelope w with
                  | (inr e, w) => (Some (Some (transportError op e), out), w)
                  | (inl r, w) => (handle_response t op r out, w)
                  end
              end
          end
      end
  end.
End transport.

(** ** Trimming *)
Definition printable (c : ascii) : bool := in_range "!" "~" c.

Lemma strip_any_head (P : ascii -> bool) pats c s :
  P c = true -> forallb (fun p => match p with [] => false | a :: _ => negb (P a) end) pats = true ->
  strip_any pats (c :: s) = None.
Proof.
  intros Hc. induction pats as [|p pats IH]; [done |]. cbn [forallb strip_any].
  intros [Hp Hps]%andb_true_iff. destruct p as [|a p]; [done |]. cbn [strip_prefix].
  rewrite decide_False by (intros ->; rewrite Hc in Hp; done). auto.
Qed.

Lemma TrimLeft_head pats c s : strip_any pats (c :: s) = None -> TrimLeft pats (c :: s) = c :: s.
Proof. intros Hs. unfold TrimLeft. cbn [length trim_left_fuel]. by rewrite Hs. Qed.

Lemma TrimSpace_printable c s d :
  printable c = true -> printable d = true -> last (c :: s) = Some d -> TrimSpace (c :: s) = c :: s.
Proof.
  intros Hc Hd Hl. unfold TrimSpace.
  rewrite TrimLeft_head by (by apply (strip_any_head printable)).
  unfold TrimRight. apply last_Some in Hl as [l Hl]. rewrite Hl, reverse_snoc.
  rewrite TrimLeft_head by (by apply (strip_any_head printable)).
  by rewrite <- (reverse_snoc l d), reverse_involutive.
Qed.

Lemma key_char_printable c : is_key_char c = true -> printable c = true.
Proof.
  pose proof (ascii_forall (fun c => implb (is_key_char c) (printable c))
    ltac:(vm_compute; reflexivity) c) as H. simpl in H. intros Hk. by rewrite Hk in H.
Qed.

(** ** Failure classification *)
Lemma str_nil l : str l = "" -> l = [].
Proof. by destruct l. Qed.

Lemma KnownCode_row code : KnownCode code = true -> code ∈ codeTable.*1.
Proof.
  unfold KnownCode, codeTable_lookup. intros [info Hs]%bool_decide_eq_true.
  apply switch_In in Hs as [Hs | Hs]; [done |].
  apply list_elem_of_fmap in Hs as ([c i] & Hci & Hin). injection Hci as -> _.
  apply list_elem_of_fmap. by exists (id c, i).
Qed.

Lemma known_forall (P : string -> bool) :
  forallb P codeTable.*1 = true -> forall code, KnownCode code = true -> P code = true.
Proof.
  rewrite forallb_forall. intros Hall code Hc%KnownCode_row. by apply Hall, list_elem_of_In.
Qed.

Lemma MessageForCode_nonempty code : KnownCode code = true -> MessageForCode code <> "".
Proof.
  intros Hc. apply (known_forall (fun c => negb (String.eqb (MessageForCode c) "")) ltac:(vm_compute; reflexivity)) in Hc.
  intros Hn. by rewrite Hn in Hc.
Qed.

Lemma known_digits code :
  KnownCode code = true ->
  Forall (fun c => is_digit c = true) (text code) /\ (4 <= length (text code) <= 5)%nat.
Proof.
  intros Hc. apply (known_forall (fun c => forallb is_digit (text c)
    && Nat.leb 4 (length (text c)) && Nat.leb (length (text c)) 5) ltac:(vm_compute; reflexivity)) in Hc.
  apply andb_true_iff in Hc as [[H1 H2]%andb_true_iff H3].
  split; [|split; by apply Nat.leb_le]. rewrite forallb_forall in H1.
  apply Forall_forall. intros c Hc. by apply H1, list_elem_of_In.
Qed.

(** What [classifyFailure] extracts is either no code with the whole trimmed
    text, or a documented code the trimmed text begins with and a non-empty
    message: it never invents a code and never loses the text for one. *)
Theorem classify_failure_sound (errText : string) :
  let '(code, message) := classifyFailure errText in
  let trimmed := TrimSpace (text errText) in
  (code = "" /\ text message = trimmed)
  \/ (KnownCode code = true /\ message <> "" /\ text code `prefix_of` trimmed).
Proof.
  unfold classifyFailure. set (t := TrimSpace (text errText)).
  case_decide as Ht; [left; by rewrite Ht |].
  destruct (KnownCode (str t)) eqn:Hk.
  { right. split; [done |]. split; [by apply MessageForCode_nonempty |]. by rewrite text_str. }
  case_decide; [|left; by rewrite text_str].
  cbv zeta. destruct (KnownCode (str (take _ t))) eqn:Hk'; [|left; by rewrite text_str].
  right. split; [done |]. split.
  - case_decide; [by apply MessageForCode_nonempty |]. by intros Hn%str_nil.
  - rewrite text_str. exists (drop (span is_digit t) t). by rewrite take_drop.
Qed.

Lemma span_app p l rest :
  Forall (fun c => p c = true) l ->
  match rest with [] => True | c :: _ => p c = false end ->
  span p (l ++ rest) = length l.
Proof.
  intros Hl Hr. induction Hl as [|c l Hc _ IH]; simpl.
  - destruct rest as [|c rest]; [done |]. simpl. by rewrite Hr.
  - by rewrite Hc, IH.
Qed.

(** Every documented code at the head of a failure text, bare or followed by
    anything but a further digit, is recognised, whatever whitespace surrounds
    the text. *)
Theorem classify_failure_complete (errText code : string) (rest : bytes) :
  KnownCode code = true -> TrimSpace (text errText) = text code ++ rest ->
  match rest with [] => True | c :: _ => is_digit c = false end ->
  fst (classifyFailure errText) = code.
Proof.
  intros Hk Ht Hr. destruct (known_digits code Hk) as [Hd Hlen].
  unfold classifyFailure. rewrite Ht. rewrite decide_False by (intros [Hn _]%app_eq_nil; rewrite Hn in Hlen; simpl in Hlen; lia).
  destruct rest as [|c rest].
  { rewrite app_nil_r, str_text, Hk. done. }
  destruct (KnownCode (str (text code ++ c :: rest))) eqn:Hk'.
  { apply known_digits in Hk' as [Hd' _]. rewrite text_str in Hd'.
    apply Forall_app in Hd' as [_ Hd']. apply Forall_cons in Hd' as [Hc _]. by rewrite Hr in Hc. }
  rewrite span_app by done. rewrite decide_True by done.
  by rewrite take_app_length, str_text, Hk.
Qed.

(** The cutset of the source does not hold the full-width colon. *)
Lemma fullwidth_colon_kept : classifyFailure "1012：未登录" = ("1012", "：未登录").
Proof. vm_compute. reflexivity. Qed.

(** ** The request deadline *)
Lemma quot_pos a b : 0 < b -> 0 <= a -> Z.quot a b = a `div` b.
Proof. intros. by apply Z.quot_div_nonneg. Qed.

(** The advertised timeout is at least one second, at most the configured
    default (rounded down, one second when shorter), and never beyond the
    context's deadline once that is at least one second away. *)
Theorem timeout_seconds_bounds (t : Transport) (deadline : option Z) (now : Z) :
  let secs := timeoutSeconds t deadline now in
  1 <= secs <= Z.max 1 (defaultTimeout t `quot` Second)
  /\ match deadline with
     | Some d => Second <= time_sub d now -> secs * Second <= time_sub d now
     | None => secs = Z.max 1 (defaultTimeout t `quot` Second)
     end.
Proof.
  unfold timeoutSeconds. set (q := defaultTimeout t `quot` Second).
  destruct deadline as [d|]; [|case_decide; lia].
  set (r := time_sub d now). split; [repeat case_decide; lia |]. intros Hr.
  assert (Hq : r `quot` Second * Second <= r /\ 1 <= r `quot` Second).
  { rewrite quot_pos by (unfold Second in *; lia).
    pose proof (Z.div_mod r Second ltac:(done)) as Hdm.
    pose proof (Z.mod_pos_bound r Second ltac:(done)). unfold Second in *. lia. }
  assert (0 < Second) by done. repeat case_decide; nia.
Qed.

(** ** Requests *)

(** Counting operations of a world: [tick] counts a call, [pass] does not. *)
Section counting.
Context {World : Type}.
Definition pass {A} (f : World -> A * World) (wn : World * Z) : A * (World * Z) :=
  let '(a, w) := f (fst wn) in (a, (w, snd wn)).
Definition tick {A} (f : World -> A * World) (wn : World * Z) : A * (World * Z) :=
  let '(a, w) := f (fst wn) in (a, (w, snd wn + 1)).
End counting.

Section transport_facts.
Context {World P O : Type}.
Context (codec_Marshal : P -> bytes + error) (codec_Unmarshal : bytes -> O -> option error * O).
Context (json_Marshal : Z -> option bytes -> bytes + error).
Context (json_Unmarshal : bytes -> response + error).
Context (NewRequest : string -> option error) (StatusText : Z -> string).
Context (ctx_deadline : option Z) (time_now : World -> Z * World).
Context (newCorrelationID : World -> option error * World).
Context (http_Do : string -> bytes -> World -> (http_response + error) * World).

Definition Do_counted (t : Transport) (op path : string) (params : option P) (out : option O)
    (wn : World * Z) : option (option error * option O) * (World * Z) :=
  Do codec_Marshal codec_Unmarshal json_Marshal json_Unmarshal NewRequest StatusText ctx_deadline
    (pass time_now) (pass newCorrelationID) (fun url b => tick (http_Do url b)) t op path params out wn.

(** A result is the one of a response, or the request was never sent or failed. *)
Lemma Do_counted_cases t op path params out w n :
  let '(r, (w', n')) := Do_counted t op path params out (w, n) in
  (n' = n /\ exists e, r = Some (Some e, out))
  \/ (n' = n + 1 /\ ((exists e, r = Some (Some (transportError op e), out))
                     \/ exists resp, r = handle_response codec_Unmarshal json_Unmarshal StatusText t op resp out)).
Proof using Type.
  unfold Do_counted, Do. destruct (encode_params codec_Marshal op params) as [raw|e]; [|by left; eauto].
  unfold pass at 1. simpl. destruct (time_now w) as [now w1]. simpl.
  destruct (json_Marshal _ raw) as [env|e]; [|by left; eauto].
  destruct (NewRequest _) as [e|]; [by left; eauto |].
  assert (Hsend : forall w2, let '(r, (w', n')) :=
      match tick (http_Do (baseURL t +:+ path) env) (w2, n) with
      | (inr e, w) => (Some (Some (transportError op e), out), w)
      | (inl resp, w) =>
          (handle_response codec_Unmarshal json_Unmarshal StatusText t op resp out, w)
      end in
    (n' = n /\ exists e, r = Some (Some e, out))
    \/ (n' = n + 1 /\ ((exists e, r = Some (Some (transportError op e), out))
       \/ exists resp, r = handle_response codec_Unmarshal json_Unmarshal StatusText t op resp out))).
  { intros w2. unfold tick. simpl. destruct (http_Do _ env w2) as [[resp|e] w3]; right; eauto. }
  case_decide.
  - unfold pass. simpl. destruct (newCorrelationID w1) as [[e|] w2]; [by left; eauto | apply Hsend].
  - apply Hsend.
Qed.
End transport_facts.

(** A call sends at most one request, whatever the codec, the network and the
    response do, and one that reports success sent exactly one: the transport
    itself never repeats a request. *)
Theorem transport_sends_once {World P O} codec_Marshal codec_Unmarshal json_Marshal json_Unmarshal
    NewRequest StatusText ctx_deadline time_now newCorrelationID http_Do
    (t : Transport) (op path : string) (params : option P) (out : option O) (w : World) :
  let '(r, (_, n)) := Do_counted codec_Marshal codec_Unmarshal json_Marshal json_Unmarshal NewRequest
      StatusText ctx_deadline time_now newCorrelationID http_Do t op path params out (w, 0) in
  0 <= n <= 1 /\ (forall o, r = Some (None, o) -> n = 1) /\ (r = None -> n = 1).
Proof.
  pose proof (Do_counted_cases codec_Marshal codec_Unmarshal json_Marshal json_Unmarshal NewRequest
    StatusText ctx_deadline time_now newCorrelationID http_Do t op path params out w 0) as H.
  destruct (Do_counted _ _ _ _ _ _ _ _ _ _ _ _ _ _ _ _) as [r [w' n]].
  destruct H as [[-> [e ->]] | [-> _]]; [split; [lia | done] | split; [lia | auto]].
Qed.

(** A response is reported as a success only when it is a 2xx whose body was
    read to its end within the cap and decodes to an envelope that says ok, and
    the data was absent, null, not asked for, or decoded by the codec. *)
Theorem transport_success_sound {O} codec_Unmarshal json_Unmarshal StatusText
    (t : Transport) (op : string) (r : http_response) (out out' : option O) :
  handle_response codec_Unmarshal json_Unmarshal StatusText t op r out = Some (None, out') ->
  200 <= StatusCode r < 300 /\ Z.of_nat (length (Body r)) <= maxResponseBytes t /\ body_end r = None
  /\ exists env, json_Unmarshal (Body r) = inl env /\ OK env = true
     /\ (out' = out \/ exists o o', out = Some o /\ out' = Some o'
           /\ codec_Unmarshal (TrimSpace (Data env)) o = (None, o')).
Proof.
  unfold handle_response, read_capped. case_decide as Hcap; [done |].
  destruct (body_end r) as [e|]; [done |]. case_decide as Hst.
  { destruct (bodySnippet (Body r)); done. }
  unfold handle_envelope. destruct (json_Unmarshal (Body r)) as [env|e] eqn:Hj; [|done].
  destruct (OK env) eqn:Hok; [|done]. cbn [negb]. intros Hr.
  split; [lia |]. split; [lia |]. split; [done |]. exists env. split; [done |]. split; [done |].
  destruct out as [o|]; [|left; congruence]. case_decide; [left; congruence |].
  destruct (codec_Unmarshal _ o) as [[e|] o'] eqn:Hc; [done |]. right. exists o, o'.
  split_and!; congruence.
Qed.

(** An error response whose body assigns one sensitive key to another, such
    as "password=token=abc", makes the call panic instead of returning an
    error. *)
Theorem transport_panics_on_nested_keys {O} codec_Unmarshal json_Unmarshal StatusText
    (t : Transport) (op : string) (code : Z) (out : option O) (k1 k2 v : bytes) :
  all_key k1 -> k1 <> [] -> IsSensitiveKey (normalizeKey k1) = true ->
  all_key k2 -> k2 <> [] -> IsSensitiveKey (normalizeKey k2) = true ->
  all_key v -> v <> [] ->
  code < 200 \/ 300 <= code ->
  let body := k1 ++ "="%char :: k2 ++ "="%char :: v in
  Z.of_nat (length body) <= maxResponseBytes t ->
  handle_response codec_Unmarshal json_Unmarshal StatusText t op (mkHttp code body None) out = None.
Proof.
  intros H1 N1 S1 H2 N2 S2 H3 N3 Hcode body Hcap.
  unfold handle_response, read_capped. cbn [Body body_end StatusCode].
  rewrite decide_False by lia. rewrite decide_True by lia.
  assert (Htrim : TrimSpace body = body).
  { destruct k1 as [|c k1]; [done |]. destruct (exists_last N3) as (v' & d & ->).
    apply Forall_cons in H1 as [Hc _]. apply Forall_app in H3 as [_ Hd].
    apply Forall_cons in Hd as [Hd _]. unfold body. rewrite <- app_comm_cons.
    apply (TrimSpace_printable c _ d); auto using key_char_printable.
    rewrite app_comm_cons, !last_app_cons, app_comm_cons, last_app_cons, app_comm_cons, last_snoc. done. }
  unfold bodySnippet. rewrite Htrim. rewrite decide_False by (by destruct k1).
  unfold body. rewrite redact_nested_key_panics by done. done.
Qed.

(** ** Witnesses *)

(** A Gateway that answers every request with [resp]; its envelope decodes to
    [env], whose data the codec returns as it is. *)
Definition demo_handle (env : response) (t : Transport) (op : string) (r : http_response) :=
  handle_response (fun d (_ : bytes) => (None, d)) (fun _ => inl env) (fun _ => "Status") t op r (Some []).

Definition demo_transport : Transport := New (mkConfig "" None 0 0 "").

Lemma classify_failure_complete_witness : fst (classifyFailure " 1011 busy, retry ") = "1011".
Proof.
  refine (classify_failure_complete " 1011 busy, retry " "1011" (text " busy, retry") _ _ _);
    vm_compute; reflexivity.
Defined.

Lemma transport_success_sound_witness :
  200 <= StatusCode (mkHttp 200 (text "{}") None) < 300.
Proof.
  exact (proj1 (transport_success_sound (fun d (_ : bytes) => (None, d))
    (fun _ => inl (mkResponse true "" (text " 7 "))) (fun _ => "Status") demo_transport "op"
    (mkHttp 200 (text "{}") None) (Some []) (Some (text "7")) ltac:(vm_compute; reflexivity))).
Defined.

Lemma transport_panics_on_nested_keys_witness :
  demo_handle (mkResponse true "" []) demo_transport "order.create"
    (mkHttp 500 (text "password=token=abc") None) = None.
Proof.
  apply (transport_panics_on_nested_keys _ _ _ demo_transport "order.create" 500 (Some [])
    (text "password") (text "token") (text "abc"));
    first [by apply all_key_dec | by vm_compute | by right].
Defined.
