(* ===== verification/Client.v ===== *)
(** The HTTP client: [src/client/client.go], [src/client/options.go],
    [src/client/env.go].

    [Do] validates the route, then [execute] asks the breaker of the route's
    class, runs the attempt (rate limiter, transport) under the retry policy and
    reports the outcome to the breaker. The breakers are shared pointers: the
    three configuration fields can name the same one. *)
From stdpp Require Import functions.
From S2P Require Import Prelude Types Errs Breaker Retry Routes Logging.
From S2P Require Transport.

Create HintDb client.

Definition ErrClientClosed : error := ESentinel "client: client is closed".

Definition EnvGatewayURL : string := "HSTONG_GATEWAY_URL".
Definition EnvPushAddr : string := "HSTONG_PUSH_ADDR".
Definition EnvTimeout : string := "HSTONG_TIMEOUT".
Definition EnvTradePassword : string := "HSTONG_TRADE_PASSWORD".
Definition EnvVerifyPush : string := "HSTONG_VERIFY_PUSH".

Definition DefaultBaseURL : string := Transport.DefaultBaseURL.
Definition DefaultPushAddr : string := "127.0.0.1:11112".
Definition DefaultTimeout : Z := Transport.DefaultTimeout.

(** ** Configuration *)

(** An [http.RoundTripper] by whether it can close idle connections. *)
Record RoundTripper := mkRT { closes_idle : bool }.
Record HTTPClient := mkHTTPClient { hc_Transport : option RoundTripper; hc_Timeout : Z }.

(** A pointer to a breaker. *)
Definition breaker_ptr : Type := nat.
#[global] Instance breaker_ptr_eq_dec : EqDecision breaker_ptr := Nat.eq_dec.

Record Config := mkConfig {
  BaseURL : string;
  PushAddr : string;
  cfg_HTTPClient : option HTTPClient;
  cfg_Timeout : Z;
  TradePassword : string;
  PlatformPublicKey : string;
  VerifyPush : bool;
  CorrelationIDHeader : string;
  Logger : bool;
  Metrics : bool;
  RetryPolicy : option Policy;
  RateLimiter : bool;
  CircuitBreaker : option breaker_ptr;
  QueryBreaker : option breaker_ptr;
  MutationBreaker : option breaker_ptr;
  cfg_err : option error;
}.

(** The options, as data. [PlatformPublicKeyTest] is the key of
    [src/pkg/types/platformkeys.go]. *)
Inductive Option :=
  | WithBaseURL (url : string)
  | WithCorrelationIDHeader (name : string)
  | WithPushAddr (addr : string)
  | WithHTTPClient (client : option HTTPClient)
  | WithTimeout (timeout : Z)
  | WithTradePassword (password : string)
  | WithPlatformPublicKey (key : string)
  | WithEnv
  | WithLogger (l : bool)
  | WithMetrics (m : bool)
  | WithRetryPolicy (p : Policy)
  | WithRateLimiter (l : bool)
  | WithCircuitBreaker (b : option breaker_ptr)
  | WithQueryBreaker (b : option breaker_ptr)
  | WithMutationBreaker (b : option breaker_ptr).

(** Field updates. *)
Definition upd_BaseURL v c := match c with mkConfig _ b d e f g h i j k l m n o p q => mkConfig v b d e f g h i j k l m n o p q end.
Definition upd_PushAddr v c := match c with mkConfig a _ d e f g h i j k l m n o p q => mkConfig a v d e f g h i j k l m n o p q end.
Definition upd_HTTPClient v c := match c with mkConfig a b _ e f g h i j k l m n o p q => mkConfig a b v e f g h i j k l m n o p q end.
Definition upd_Timeout v c := match c with mkConfig a b d _ f g h i j k l m n o p q => mkConfig a b d v f g h i j k l m n o p q end.
Definition upd_TradePassword v c := match c with mkConfig a b d e _ g h i j k l m n o p q => mkConfig a b d e v g h i j k l m n o p q end.
Definition upd_PlatformPublicKey v c := match c with mkConfig a b d e f _ h i j k l m n o p q => mkConfig a b d e f v h i j k l m n o p q end.
Definition upd_VerifyPush v c := match c with mkConfig a b d e f g _ i j k l m n o p q => mkConfig a b d e f g v i j k l m n o p q end.
Definition upd_CorrelationIDHeader v c := match c with mkConfig a b d e f g h _ j k l m n o p q => mkConfig a b d e f g h v j k l m n o p q end.
Definition upd_Logger v c := match c with mkConfig a b d e f g h i _ k l m n o p q => mkConfig a b d e f g h i v k l m n o p q end.
Definition upd_Metrics v c := match c with mkConfig a b d e f g h i j _ l m n o p q => mkConfig a b d e f g h i j v l m n o p q end.
Definition upd_RetryPolicy v c := match c with mkConfig a b d e f g h i j k _ m n o p q => mkConfig a b d e f g h i j k v m n o p q end.
Definition upd_RateLimiter v c := match c with mkConfig a b d e f g h i j k l _ n o p q => mkConfig a b d e f g h i j k l v n o p q end.
Definition upd_CircuitBreaker v c := match c with mkConfig a b d e f g h i j k l m _ o p q => mkConfig a b d e f g h i j k l m v o p q end.
Definition upd_QueryBreaker v c := match c with mkConfig a b d e f g h i j k l m n _ p q => mkConfig a b d e f g h i j k l m n v p q end.
Definition upd_MutationBreaker v c := match c with mkConfig a b d e f g h i j k l m n o _ q => mkConfig a b d e f g h i j k l m n o v q end.
Definition upd_err v c := match c with mkConfig a b d e f g h i j k l m n o p _ => mkConfig a b d e f g h i j k l m n o p v end.

Definition recordErr (c : Config) (e : error) : Config :=
  match cfg_err c with None => upd_err (Some e) c | Some _ => c end.

(** [strconv.ParseBool] *)
Definition ParseBool (s : string) : option bool :=
  if decide (s ∈ ["1"; "t"; "T"; "TRUE"; "true"; "True"]) then Some true
  else if decide (s ∈ ["0"; "f"; "F"; "FALSE"; "false"; "False"]) then Some false
  else None.

Section config.
(** [types.PlatformPublicKeyTest], [url.Parse] (scheme and host),
    [net.SplitHostPort], [time.ParseDuration] and [os.LookupEnv]. *)
Context (PlatformPublicKeyTest : string).
Context (url_Parse SplitHostPort : string -> (string * string) + error).
Context (ParseDuration : string -> Z + error).
Context (LookupEnv : string -> option string).

Definition defaultConfig : Config :=
  mkConfig DefaultBaseURL DefaultPushAddr None DefaultTimeout "" PlatformPublicKeyTest false ""
    false false None false None None None None.

Definition validateBaseURL (raw : string) : option error :=
  match url_Parse raw with
  | inr e => Some (EWrap ("client: invalid " +:+ EnvGatewayURL +:+ ": " +:+ error_text e) e)
  | inl (scheme, host) =>
      if decide (scheme <> "http" /\ scheme <> "https") then
        Some (EText ("client: invalid " +:+ EnvGatewayURL +:+ ": scheme must be http or https"))
      else if decide (host = "") then
        Some (EText ("client: invalid " +:+ EnvGatewayURL +:+ ": missing host"))
      else None
  end.

Definition validatePushAddr (raw : string) : option error :=
  match SplitHostPort raw with
  | inr e => Some (EWrap ("client: invalid " +:+ EnvPushAddr +:+ ": " +:+ error_text e) e)
  | inl (host, port) =>
      if decide (host = "") then Some (EText ("client: invalid " +:+ EnvPushAddr +:+ ": missing host"))
      else if decide (port = "") then
        Some (EText ("client: invalid " +:+ EnvPushAddr +:+ ": missing port"))
      else None
  end.

(** [if raw, ok := os.LookupEnv(name); ok && raw != ""] *)
Definition with_env (name : string) (f : string -> Config -> Config) (c : Config) : Config :=
  match LookupEnv name with
  | Some raw => if decide (raw = "") then c else f raw c
  | None => c
  end.

Definition applyEnv (c : Config) : Config :=
  let c := with_env EnvGatewayURL (fun raw c =>
    match validateBaseURL raw with Some e => recordErr c e | None => upd_BaseURL raw c end) c in
  let c := with_env EnvPushAddr (fun raw c =>
    match validatePushAddr raw with Some e => recordErr c e | None => upd_PushAddr raw c end) c in
  let c := with_env EnvTimeout (fun raw c =>
    match ParseDuration raw with
    | inr e => recordErr c (EWrap ("client: " +:+ EnvTimeout +:+ ": invalid duration " +:+ raw
                                   +:+ ": " +:+ error_text e) e)
    | inl d =>
        if decide (d <= 0) then
          recordErr c (EText ("client: " +:+ EnvTimeout +:+ ": duration " +:+ raw +:+ " must be positive"))
        else upd_Timeout d c
    end) c in
  let c := with_env EnvTradePassword upd_TradePassword c in
  with_env EnvVerifyPush (fun raw c =>
    match ParseBool raw with
    | None => recordErr c (EText ("client: " +:+ EnvVerifyPush +:+ ": invalid boolean " +:+ raw))
    | Some v => upd_VerifyPush v c
    end) c.

Definition apply_option (o : Option) (c : Config) : Config :=
  match o with
  | WithBaseURL url => upd_BaseURL (if decide (url = "") then DefaultBaseURL else url) c
  | WithCorrelationIDHeader name => upd_CorrelationIDHeader name c
  | WithPushAddr addr => upd_PushAddr (if decide (addr = "") then DefaultPushAddr else addr) c
  | WithHTTPClient client => upd_HTTPClient client c
  | WithTimeout t => upd_Timeout (if decide (t <= 0) then DefaultTimeout else t) c
  | WithTradePassword p => upd_TradePassword p c
  | WithPlatformPublicKey key =>
      upd_PlatformPublicKey (if decide (key = "") then PlatformPublicKeyTest else key) c
  | WithEnv => applyEnv c
  | WithLogger l => upd_Logger l c
  | WithMetrics m => upd_Metrics m c
  | WithRetryPolicy p => upd_RetryPolicy (Some p) c
  | WithRateLimiter l => upd_RateLimiter l c
  | WithCircuitBreaker b => upd_MutationBreaker b (upd_QueryBreaker b (upd_CircuitBreaker b c))
  | WithQueryBreaker b => upd_QueryBreaker b c
  | WithMutationBreaker b => upd_MutationBreaker b c
  end.

(** [http.DefaultTransport] can close its idle connections. *)
Definition cloneDefaultTransport : RoundTripper := mkRT true.

Definition resolveHTTPClient (client : option HTTPClient) (timeout : Z) : HTTPClient :=
  match client with
  | None => mkHTTPClient (Some cloneDefaultTransport) timeout
  | Some c =>
      if decide (hc_Timeout c = 0) then
        match hc_Transport c with
        | None => mkHTTPClient (Some cloneDefaultTransport) timeout
        | Some rt => mkHTTPClient (Some rt) timeout
        end
      else c
  end.

Record Client := mkClient { cfg : Config; transport : Transport.Transport }.

Definition New (opts : list Option) : Client + error :=
  let c := foldl (fun c o => apply_option o c) defaultConfig opts in
  match cfg_err c with
  | Some e => inr e
  | None =>
      match validateBaseURL (BaseURL c) with
      | Some e => inr e
      | None =>
          match validatePushAddr (PushAddr c) with
          | Some e => inr e
          | None =>
              let hc := resolveHTTPClient (cfg_HTTPClient c) (cfg_Timeout c) in
              let c := upd_HTTPClient (Some hc) c in
              inl (mkClient c (Transport.New (Transport.mkConfig (BaseURL c) (Some (hc_Timeout hc))
                                 (cfg_Timeout c) Transport.DefaultMaxResponseBytes
                                 (CorrelationIDHeader c))))
          end
      end
  end.
End config.

(** ** Calls *)

(** The operations the client uses of its surroundings: the codec, [encoding/json]
    and [net/http] as in [Transport], the context, the timer, the clock and the
    random source, and the rate limiter's [WaitEndpoint]. *)
Record env (World P O : Type) := mkEnv {
  codec_Marshal : P -> bytes + error;
  codec_Unmarshal : bytes -> O -> option error * O;
  json_Marshal : Z -> option bytes -> bytes + error;
  json_Unmarshal : bytes -> Transport.response + error;
  NewRequest : string -> option error;
  StatusText : Z -> string;
  ctx_deadline : option Z;
  time_now : World -> Z * World;
  ctx_err : World -> option error * World;
  rand_int63n : Z -> World -> Z * World;
  timer_wait : Z -> World -> option error * World;
  newCorrelationID : World -> option error * World;
  http_Do : string -> bytes -> World -> (Transport.http_response + error) * World;
  WaitEndpoint : string -> World -> option error * World;
}.
Arguments mkEnv {World P O}.
Arguments codec_Marshal {World P O}.
Arguments codec_Unmarshal {World P O}.
Arguments json_Marshal {World P O}.
Arguments json_Unmarshal {World P O}.
Arguments NewRequest {World P O}.
Arguments StatusText {World P O}.
Arguments ctx_deadline {World P O}.
Arguments time_now {World P O}.
Arguments ctx_err {World P O}.
Arguments rand_int63n {World P O}.
Arguments timer_wait {World P O}.
Arguments newCorrelationID {World P O}.
Arguments http_Do {World P O}.
Arguments WaitEndpoint {World P O}.

(** Spans, metrics and log lines, in the order they are emitted. *)
Inductive event :=
  | EvSpanStart (op : string)
  | EvSpanEnd (err : option error)
  | EvLogRequest (op route : string)
  | EvRateLimitWait (op : string)
  | EvHTTPRequest (op : string)
  | EvHTTPLatency (op : string) (err : option error)
  | EvHTTPError (op category : string)
  | EvOrderOutcome (op outcome : string)
  | EvLogError (op category : string)
  | EvCloseIdleConnections.

Definition outcomeLabel (err : option error) : string :=
  match err with None => "ok" | Some _ => "error" end.

(** The state of a call: the heap of breakers, the caller's [out], the events,
    and the rest of the world. *)
Record CState (World O : Type) := mkCS {
  breakers : breaker_ptr -> Breaker;
  out_val : option O;
  events : list event;
  closed : bool;
  ext : World;
}.
Arguments mkCS {World O}.
Arguments breakers {World O}.
Arguments out_val {World O}.
Arguments events {World O}.
Arguments closed {World O}.
Arguments ext {World O}.

Section calls.
Context {World P O : Type} (E : env World P O) (c : Client).
Local Abbreviation state := (CState World O).

Definition on_ext {A} (f : World -> A * World) (s : state) : A * state :=
  let '(a, w) := f (ext s) in (a, mkCS (breakers s) (out_val s) (events s) (closed s) w).
Definition emit (e : event) (s : state) : state :=
  mkCS (breakers s) (out_val s) (events s ++ [e]) (closed s) (ext s).
Definition emit_if (b : bool) (e : event) (s : state) : state := if b then emit e s else s.
Definition set_breaker (p : breaker_ptr) (b : Breaker) (s : state) : state :=
  mkCS (<[p := b]> (breakers s)) (out_val s) (events s) (closed s) (ext s).
Definition set_out (o : option O) (s : state) : state :=
  mkCS (breakers s) o (events s) (closed s) (ext s).

(** [c.transport.Do] *)
Definition transport_Do (op path : string) (params : option P) (s : state)
    : outcome (option error) * state :=
  let '(r, s) := on_ext (Transport.Do (codec_Marshal E) (codec_Unmarshal E) (json_Marshal E)
    (json_Unmarshal E) (NewRequest E) (StatusText E) (ctx_deadline E) (time_now E)
    (newCorrelationID E) (http_Do E) (transport c) op path params (out_val s)) s in
  match r with
  | None => (Panic, s)
  | Some (e, out) => (Ret e, set_out out s)
  end.

Definition attempt (op path : string) (params : option P) (s : state) : outcome (option error) * state :=
  if RateLimiter (cfg c) then
    match on_ext (WaitEndpoint E path) s with
    | (Some werr, s) => (Ret (Some werr), s)
    | (None, s) => transport_Do op path params (emit_if (Metrics (cfg c)) (EvRateLimitWait op) s)
    end
  else transport_Do op path params s.

(** The breaker of a route's class, with the fallback to the shared one. *)
Definition breaker_for (path : string) : option breaker_ptr :=
  let cb := if IsMutation path then MutationBreaker (cfg c) else QueryBreaker (cfg c) in
  match cb with Some b => Some b | None => CircuitBreaker (cfg c) end.

(** [cb == nil || cb.Allow()] *)
Definition ask_breaker (cb : option breaker_ptr) (s : state) : bool * state :=
  match cb with
  | None => (true, s)
  | Some p =>
      let '(now, s) := on_ext (time_now E) s in
      let '(ok, b) := Allow now (breakers s p) in (ok, set_breaker p b s)
  end.

Definition tell_breaker (cb : option breaker_ptr) (err : option error) (s : state) : state :=
  match cb with
  | None => s
  | Some p =>
      match err with
      | Some _ =>
          let '(now, s) := on_ext (time_now E) s in set_breaker p (OnFailure now (breakers s p)) s
      | None => set_breaker p (OnSuccess (breakers s p)) s
      end
  end.

(** The attempts of a call, under the retry policy when there is one. *)
Definition run_attempts (op path : string) (params : option P) (s : state)
    : option (outcome (option error) * state) :=
  match RetryPolicy (cfg c) with
  | Some p =>
      match DoRoute (on_ext (ctx_err E)) (fun k => on_ext (rand_int63n E k))
              (fun d => on_ext (timer_wait E d)) p path (attempt op path params) s with
      | None => None
      | Some (Panic, s) => Some (Panic, s)
      | Some (Ret (_, err), s) => Some (Ret err, s)
      end
  | None => Some (attempt op path params s)
  end.

Definition execute (op route : string) (params : option P) (s : state)
    : option (outcome (option error) * state) :=
  let cb := breaker_for route in
  match ask_breaker cb s with
  | (false, s) =>
      Some (Ret (Some (EWrap (error_text ErrCircuitOpen +:+ ": " +:+ op) ErrCircuitOpen)), s)
  | (true, s) =>
      match run_attempts op route params s with
      | None => None
      | Some (Panic, s) => Some (Panic, s)
      | Some (Ret err, s) => Some (Ret err, tell_breaker cb err s)
      end
  end.

(** The metrics and log lines of a finished call. *)
Definition record_call (op route : string) (err : option error) (s : state) : state :=
  let s :=
    if Metrics (cfg c) then
      let s := emit (EvHTTPLatency op err) (emit (EvHTTPRequest op) s) in
      let s := match err with Some _ => emit (EvHTTPError op (CategoryOf err)) s | None => s end in
      emit_if (IsMutation route) (EvOrderOutcome op (outcomeLabel err)) s
    else s in
  match err with
  | Some _ => emit_if (Logger (cfg c)) (EvLogError op (CategoryOf err)) s
  | None => s
  end.

(** [defer endSpan(err)] evaluates its argument where it stands, when [err] is
    still nil, and runs on return and on a panic. *)
Definition Do (op route : string) (params : option P) (s : state)
    : option (outcome (option error) * state) :=
  if closed s then
    Some (Ret (Some (EWrap (error_text ErrClientClosed +:+ ": " +:+ op) ErrClientClosed)), s)
  else
    match Route_Validate route with
    | Some e => Some (Ret (Some e), s)
    | None =>
        let s := emit (EvSpanStart op) s in
        let deferred_err : option error := None in
        let s := emit_if (Logger (cfg c)) (EvLogRequest op route) s in
        match execute op route params s with
        | None => None
        | Some (Panic, s) => Some (Panic, emit (EvSpanEnd deferred_err) s)
        | Some (Ret err, s) =>
            Some (Ret err, emit (EvSpanEnd deferred_err) (record_call op route err s))
        end
    end.

(** [Close]: the body of [closeOnce.Do] runs on the first call only, which is
    the one that finds [closed] unset; [closeErr] is never assigned. *)
Definition Close (s : state) : option error * state :=
  if closed s then (None, s)
  else
    let s := mkCS (breakers s) (out_val s) (events s) true (ext s) in
    match cfg_HTTPClient (cfg c) with
    | Some hc =>
        match hc_Transport hc with
        | Some rt => (None, emit_if (closes_idle rt) EvCloseIdleConnections s)
        | None => (None, s)
        end
    | None => (None, s)
    end.
End calls.

(** ** Requests sent

    [count_env E] counts the calls of [http_Do] beside the world of [E]. *)
Definition count_env {World P O} (E : env World P O) : env (World * Z) P O :=
  mkEnv (codec_Marshal E) (codec_Unmarshal E) (json_Marshal E) (json_Unmarshal E) (NewRequest E)
    (StatusText E) (ctx_deadline E) (Transport.pass (time_now E)) (Transport.pass (ctx_err E))
    (fun k => Transport.pass (rand_int63n E k)) (fun d => Transport.pass (timer_wait E d))
    (Transport.pass (newCorrelationID E)) (fun url b => Transport.tick (http_Do E url b))
    (fun path => Transport.pass (WaitEndpoint E path)).

Section counted.
Context {World P O : Type} (E : env World P O) (c : Client).
Local Abbreviation state := (CState (World * Z) O).
Local Abbreviation CE := (count_env E).

(** The requests sent so far. *)
Definition sent (s : state) : Z := snd (ext s).

Lemma sent_pass {A} (f : World -> A * World) (s : state) :
  sent (snd (on_ext (Transport.pass f) s)) = sent s.
Proof using Type.
  unfold on_ext, Transport.pass, sent. by destruct (f (fst (ext s))) as [a w].
Qed.

Lemma sent_emit e (s : state) : sent (emit e s) = sent s.
Proof using Type. done. Qed.

Lemma sent_emit_if b e (s : state) : sent (emit_if b e s) = sent s.
Proof using Type. by destruct b. Qed.

Lemma sent_record_call op route err (s : state) : sent (record_call c op route err s) = sent s.
Proof using Type.
  unfold record_call. destruct err as [e|], (Metrics (cfg c)); rewrite ?sent_emit_if; done.
Qed.

Lemma sent_ask cb (s : state) : sent (snd (ask_breaker CE cb s)) = sent s.
Proof using Type.
  destruct cb as [p|]; [|done]. unfold ask_breaker. cbn [time_now count_env].
  rewrite <- (sent_pass (time_now E) s). destruct (on_ext _ s) as [now s1].
  by destruct (Allow now (breakers s1 p)).
Qed.

Lemma sent_tell cb err (s : state) : sent (tell_breaker CE cb err s) = sent s.
Proof using Type.
  destruct cb as [p|]; [|done]. unfold tell_breaker. destruct err as [e|]; [|done].
  cbn [time_now count_env]. rewrite <- (sent_pass (time_now E) s). by destruct (on_ext _ s) as [now s1].
Qed.

Lemma sent_transport op path params (s : state) :
  sent s <= sent (snd (transport_Do CE c op path params s)) <= sent s + 1.
Proof using Type.
  unfold transport_Do, on_ext, sent. cbn [codec_Marshal codec_Unmarshal json_Marshal json_Unmarshal
    NewRequest StatusText ctx_deadline time_now newCorrelationID http_Do count_env].
  destruct (ext s) as [w n].
  pose proof (Transport.Do_counted_cases (codec_Marshal E) (codec_Unmarshal E) (json_Marshal E)
    (json_Unmarshal E) (NewRequest E) (StatusText E) (ctx_deadline E) (time_now E)
    (newCorrelationID E) (http_Do E) (transport c) op path params (out_val s) w n) as H.
  unfold Transport.Do_counted in H.
  destruct (Transport.Do _ _ _ _ _ _ _ _ _ _ _ _ _ _ _ _) as [r [w' n']].
  assert (Hn : n <= n' <= n + 1) by (destruct H as [[-> _] | [-> _]]; lia).
  destruct r as [[e out]|]; simpl; lia.
Qed.

Lemma sent_attempt op path params (s : state) :
  sent s <= sent (snd (attempt CE c op path params s)) <= sent s + 1.
Proof using Type.
  unfold attempt. destruct (RateLimiter (cfg c)); [|apply sent_transport].
  cbn [WaitEndpoint count_env]. rewrite <- (sent_pass (WaitEndpoint E path) s).
  destruct (on_ext _ s) as [[e|] s1]; [simpl; lia |].
  rewrite <- (sent_emit_if (Metrics (cfg c)) (EvRateLimitWait op)). apply sent_transport.
Qed.

(** The most requests a call can send. *)
Definition request_bound (route : string) : Z :=
  match RetryPolicy (cfg c) with
  | Some p => max_attempts p (ClassForPath route)
  | None => 1
  end.

Definition policy_ok : Prop := forall p, RetryPolicy (cfg c) = Some p -> in_s 64 (MaxAttempts p).

Lemma sent_run op route params (s : state) :
  policy_ok ->
  exists r s', run_attempts CE c op route params s = Some (r, s')
    /\ sent s <= sent s' <= sent s + request_bound route.
Proof using Type.
  unfold policy_ok, request_bound, run_attempts. destruct (RetryPolicy (cfg c)) as [p|]; intros Hp.
  - destruct (DoRoute_measure (on_ext (ctx_err CE)) (fun k => on_ext (rand_int63n CE k))
      (fun d => on_ext (timer_wait CE d)) p route (attempt CE c op route params) sent s)
      as (r & s' & Hr & Hm); [intros; apply sent_pass.. | intros; apply sent_attempt | by apply Hp |].
    rewrite Hr. destruct r as [[a err]|]; eauto.
  - pose proof (sent_attempt op route params s) as Ha.
    destruct (attempt CE c op route params s) as [r s']. exists r, s'. split; [done | exact Ha].
Qed.
End counted.

(** Every call ends, with the requests it can send. *)
Lemma client_do_bounded {World P O} (E : env World P O) (c : Client) (op route : string)
    (params : option P) (s : CState (World * Z) O) :
  policy_ok c ->
  exists r s', Do (count_env E) c op route params s = Some (r, s')
    /\ 0 <= sent s' - sent s <= request_bound c route
    /\ (IsMutation route = true -> sent s' - sent s <= 1).
Proof.
  intros Hp. assert (Hb : 1 <= request_bound c route).
  { unfold request_bound. destruct (RetryPolicy (cfg c)); [apply max_attempts_pos | lia]. }
  assert (Hm : IsMutation route = true -> request_bound c route = 1).
  { intros Hm. unfold request_bound, ClassForPath. rewrite Hm. by destruct (RetryPolicy (cfg c)). }
  cut (exists r s', Do (count_env E) c op route params s = Some (r, s')
         /\ 0 <= sent s' - sent s <= request_bound c route).
  { intros (r & s' & Hd & Hs). exists r, s'. split_and!; [done | lia | lia |]. intros H%Hm. lia. }
  unfold Do. destruct (closed s); [eexists _, s; split; [done | lia] |].
  destruct (Route_Validate route); [eexists _, s; split; [done | lia] |]. unfold execute.
  set (s0 := emit_if _ _ _). assert (Hs0 : sent s0 = sent s) by (unfold s0; by rewrite sent_emit_if).
  pose proof (sent_ask E (breaker_for c route) s0) as Ha.
  destruct (ask_breaker _ _ s0) as [[|] s1]; simpl in Ha.
  - destruct (sent_run E c op route params s1 Hp) as (r & s2 & -> & Hr).
    destruct r as [err|]; [|eexists _, _; split; [done | rewrite sent_emit; lia]].
    eexists _, _. split; [done |]. rewrite sent_emit, sent_record_call, sent_tell. lia.
  - eexists _, _. split; [done |]. rewrite sent_emit, sent_record_call. lia.
Qed.

(** C1: every call ends, and sends at most as many requests as its policy allows:
    one without a policy, [MaxAttempts] for a query, and one for an order
    mutation whatever the configuration, so no order is ever submitted twice. *)
Theorem client_requests_bounded {World P O} (E : env World P O) (c : Client) (op route : string)
    (params : option P) (s : CState (World * Z) O) :
  policy_ok c ->
  exists r s', Do (count_env E) c op route params s = Some (r, s')
    /\ 0 <= sent s' - sent s <= request_bound c route
    /\ (IsMutation route = true -> sent s' - sent s <= 1).
Proof. apply client_do_bounded. Qed.

(** ** Spans *)
Section call_facts.
Context {World P O : Type} (E : env World P O) (c : Client).
Local Abbreviation state := (CState World O).

(** What the calls below [Do] leave alone. *)
Lemma transport_Do_frame op path params (s : state) :
  breakers (snd (transport_Do E c op path params s)) = breakers s
  /\ closed (snd (transport_Do E c op path params s)) = closed s.
Proof using Type.
  unfold transport_Do, on_ext. destruct (Transport.Do _ _ _ _ _ _ _ _ _ _ _ _ _ _ _ _) as [r w].
  by destruct r as [[e out]|].
Qed.

Lemma attempt_frame op path params (s : state) :
  breakers (snd (attempt E c op path params s)) = breakers s.
Proof using Type.
  unfold attempt. destruct (RateLimiter (cfg c)); [|apply transport_Do_frame].
  unfold on_ext. destruct (WaitEndpoint E path (ext s)) as [[e|] w]; [done |].
  rewrite (proj1 (transport_Do_frame op path params _)). by destruct (Metrics (cfg c)).
Qed.

(** A function of the world that no step of the loop changes is not changed by
    the loop. *)
Lemma do_loop_frame {W B} (ctx_err : W -> option error * W) rand timer p class fn (f : W -> B)
    max fuel a w r w' :
  (forall w, f (snd (ctx_err w)) = f w) -> (forall k w, f (snd (rand k w)) = f w) ->
  (forall d w, f (snd (timer d w)) = f w) -> (forall w, f (snd (fn w)) = f w) ->
  do_loop ctx_err rand timer p class fn max fuel a w = Some (r, w') -> f w' = f w.
Proof using Type.
  intros Hctx Hrand Htimer Hfn. revert a w. induction fuel as [|fuel IH]; intros a w; [done |].
  cbn [do_loop]. pose proof (Hctx w) as H1. destruct (ctx_err w) as [[e|] w1]; simpl in H1.
  { intros [= _ <-]. done. }
  pose proof (Hfn w1) as H2. destruct (fn w1) as [[[e|]|] w2]; simpl in H2.
  2, 3: intros [= _ <-]; congruence.
  case_decide; [intros [= _ <-]; congruence |].
  assert (H3 : f (snd (Delay rand p (swrap 64 (a + 1)) w2)) = f w2).
  { unfold Delay. repeat case_decide; try done. specialize (Hrand (jitter_half (base_delay p
      (swrap 64 (a + 1))) + 1) w2). by destruct (rand _ w2). }
  destruct (Delay rand p _ w2) as [d w3]. simpl in H3.
  assert (H4 : f (snd (sleepCtx ctx_err timer d w3)) = f w3) by (unfold sleepCtx; case_decide; auto).
  destruct (sleepCtx ctx_err timer d w3) as [[e'|] w4]; simpl in H4.
  { intros [= _ <-]. congruence. }
  intros Hr%IH. congruence.
Qed.

Lemma run_attempts_frame op path params (s : state) r s' :
  run_attempts E c op path params s = Some (r, s') -> breakers s' = breakers s.
Proof using Type.
  unfold run_attempts. destruct (RetryPolicy (cfg c)) as [p|].
  - destruct (DoRoute _ _ _ p path _ s) as [[ro so]|] eqn:HD; [|done]. intros Hr.
    assert (breakers so = breakers s) as <-.
    { unfold DoRoute, Retry.Do in HD.
      refine (do_loop_frame _ _ _ _ _ _ breakers _ _ _ _ _ _ _ _ _ _ HD).
      - intros w. unfold on_ext. by destruct (ctx_err E (ext w)).
      - intros k w. unfold on_ext. by destruct (rand_int63n E k (ext w)).
      - intros d w. unfold on_ext. by destruct (timer_wait E d (ext w)).
      - apply attempt_frame. }
    destruct ro as [[a err]|]; injection Hr as _ <-; reflexivity.
  - intros Hr. pose proof (attempt_frame op path params s) as Hf. injection Hr as Hr. rewrite Hr in Hf. exact Hf.
Qed.

Lemma breakers_emit_if b e (s : state) : breakers (emit_if b e s) = breakers s.
Proof using Type. by destruct b. Qed.

Lemma breakers_record_call op route err (s : state) : breakers (record_call c op route err s) = breakers s.
Proof using Type.
  unfold record_call. destruct err, (Metrics (cfg c)); rewrite ?breakers_emit_if; done.
Qed.

(** [execute] touches only the breaker of its route. *)
Lemma execute_other_breakers op route params (s : state) r s' q :
  execute E c op route params s = Some (r, s') -> breaker_for c route <> Some q ->
  breakers s' q = breakers s q.
Proof using Type.
  unfold execute, ask_breaker. intros He Hq. destruct (breaker_for c route) as [p|].
  - assert (Hne : p <> q) by congruence. unfold on_ext in He.
    destruct (time_now E (ext s)) as [now w]. cbn [breakers] in He.
    destruct (Allow now (breakers s p)) as [[|] b].
    + destruct (run_attempts _ _ _ _ _ _) as [[[err|] s2]|] eqn:Hrun; [| |done];
        apply run_attempts_frame in Hrun; cbn [breakers set_breaker] in Hrun.
      * injection He as _ <-. unfold tell_breaker. destruct err; [unfold on_ext; destruct (time_now E _)|];
          cbn [breakers set_breaker]; by rewrite fn_lookup_insert_ne, Hrun, fn_lookup_insert_ne.
      * injection He as _ <-. by rewrite Hrun, fn_lookup_insert_ne.
    + injection He as _ <-. cbn [breakers set_breaker]. by rewrite fn_lookup_insert_ne.
  - destruct (run_attempts _ _ _ _ _ _) as [[[err|] s2]|] eqn:Hrun; [| |done];
      apply run_attempts_frame in Hrun; injection He as _ <-; by rewrite Hrun.
Qed.

(** The state in which [execute] runs, and what [Do] makes of it. *)
Definition entered (op route : string) (s : state) : state :=
  emit_if (Logger (cfg c)) (EvLogRequest op route) (emit (EvSpanStart op) s).

Lemma Do_open op route params (s : state) :
  closed s = false -> Route_Validate route = None ->
  Do E c op route params s
    = match execute E c op route params (entered op route s) with
      | None => None
      | Some (Panic, s) => Some (Panic, emit (EvSpanEnd None) s)
      | Some (Ret err, s) => Some (Ret err, emit (EvSpanEnd None) (record_call c op route err s))
      end.
Proof using Type. intros Hc Hv. unfold Do. rewrite Hc, Hv. done. Qed.

Lemma breakers_entered op route (s : state) : breakers (entered op route s) = breakers s.
Proof using Type. unfold entered. by rewrite breakers_emit_if. Qed.
End call_facts.

(** A breaker configured for one class of routes is never touched by a call
    of another class: order failures cannot open the query breaker, and
    conversely, unless both fields name the same breaker. *)
Theorem client_breaker_isolation {World P O} (E : env World P O) (c : Client) (op route : string)
    (params : option P) (s s' : CState World O) r (q : breaker_ptr) :
  Do E c op route params s = Some (r, s') -> breaker_for c route <> Some q ->
  breakers s' q = breakers s q.
Proof.
  intros HD Hq. destruct (closed s) eqn:Hc; [unfold Do in HD; rewrite Hc in HD; congruence |].
  destruct (Route_Validate route) eqn:Hv; [unfold Do in HD; rewrite Hc, Hv in HD; congruence |].
  rewrite Do_open in HD by done. rewrite <- (breakers_entered c op route s).
  destruct (execute _ _ _ _ _ _) as [[[err|] s2]|] eqn:He; [| |done]; injection HD as _ <-;
    cbn [emit breakers]; rewrite ?breakers_record_call; by eapply execute_other_breakers.
Qed.

(** The span of a call is ended without its error, whatever the call returns:
    the deferred call captures [err] before it is set. *)
Theorem client_span_error_lost {World P O} (E : env World P O) (c : Client) (op route : string)
    (params : option P) (s s' : CState World O) r :
  closed s = false -> Route_Validate route = None ->
  Do E c op route params s = Some (r, s') ->
  last (events s') = Some (EvSpanEnd None).
Proof.
  intros Hc Hv. rewrite Do_open by done.
  destruct (execute _ _ _ _ _ _) as [[[err|] s2]|]; [| |done]; intros [= _ <-];
    cbn [events emit]; by rewrite last_snoc.
Qed.

(** Once closed, a client refuses every call with [ErrClientClosed] and has no
    further effect, and closing it again does nothing. *)
Theorem client_closed_inert {World P O} (E : env World P O) (c : Client) (op route : string)
    (params : option P) (s : CState World O) :
  let s1 := snd (Close c s) in
  (exists e, Do E c op route params s1 = Some (Ret (Some e), s1) /\ is_sentinel e ErrClientClosed = true)
  /\ Close c s1 = (None, s1).
Proof.
  assert (Hc : closed (snd (Close c s)) = true).
  { unfold Close. destruct (closed s) eqn:H; [done |].
    destruct (cfg_HTTPClient (cfg c)) as [hc|]; [|done].
    destruct (hc_Transport hc) as [rt|]; [|done]. by destruct (closes_idle rt). }
  cbv zeta. split.
  - unfold Do. rewrite Hc. eexists. split; [done |].
    done.
  - unfold Close at 1. by rewrite Hc.
Qed.

(** ** A lost probe *)

(** A half-open breaker whose probes are all out. *)
Definition wedged (b : Breaker) : Prop := state b = StateHalfOpen /\ halfOpenProbes b <= probes b.

Lemma wedged_refuses now b : wedged b -> Allow now b = (false, b).
Proof.
  intros [Hs Hp]. unfold Allow, allow_probe. rewrite Hs.
  rewrite decide_False by done. rewrite decide_True by done. by rewrite decide_True by lia.
Qed.

Lemma wedged_call {World P O} (E : env World P O) c op route params (s : CState World O) p :
  closed s = false -> Route_Validate route = None -> breaker_for c route = Some p ->
  wedged (breakers s p) ->
  exists e s', Do E c op route params s = Some (Ret (Some e), s')
    /\ is_sentinel e ErrCircuitOpen = true /\ closed s' = false /\ wedged (breakers s' p).
Proof.
  intros Hc Hv Hp Hw. rewrite Do_open by done. unfold execute, ask_breaker. rewrite Hp.
  pose proof (breakers_entered c op route s) as Hb.
  assert (Hc' : closed (entered c op route s) = false) by (unfold entered; by destruct (Logger (cfg c))).
  unfold on_ext. destruct (time_now E _) as [now w]. cbn [breakers].
  rewrite Hb, wedged_refuses by done. eexists _, _. split; [done |]. split.
  { done. }
  unfold record_call. cbn [closed breakers emit set_breaker].
  destruct (Metrics (cfg c)), (Logger (cfg c)), (IsMutation route); simpl;
    rewrite fn_lookup_insert; auto.
Qed.

(** Calls one after the other. *)
Fixpoint calls {World P O} (E : env World P O) (c : Client) (l : list (string * string * option P))
    (s : CState World O) : option (list (outcome (option error)) * CState World O) :=
  match l with
  | [] => Some ([], s)
  | (op, route, params) :: l =>
      match Do E c op route params s with
      | None => None
      | Some (r, s) => match calls E c l s with None => None | Some (rs, s) => Some (r :: rs, s) end
      end
  end.

Definition refused (r : outcome (option error)) : Prop :=
  exists e, r = Ret (Some e) /\ is_sentinel e ErrCircuitOpen = true.

Lemma allow_probe_wedges now b ok b' :
  halfOpenProbes b = 1 -> state b = StateOpen -> Allow now b = (ok, b') -> ok = true -> wedged b'.
Proof.
  intros Hp Hs. unfold Allow, allow_probe. rewrite (decide_True (P := state b = StateOpen)) by done.
  case_decide; [by intros [= <- <-] |]. cbn [state set_state set_probes probes halfOpenProbes].
  rewrite decide_True by done. rewrite Hp. rewrite decide_False by lia. intros [= <- <-] _.
  split; [done |]. cbn [halfOpenProbes set_probes probes set_state]. rewrite Hp. done.
Qed.

(** When the attempt made with the half-open probe panics, nothing reports
    its outcome to the breaker; every later call on a route of that breaker is
    refused, for as long as the program runs. *)
Theorem client_panic_wedges_breaker {World P O} (E : env World P O) (c : Client) (op route : string)
    (params : option P) (s s' : CState World O) (p : breaker_ptr)
    (later : list (string * string * option P)) :
  closed s = false -> Route_Validate route = None -> breaker_for c route = Some p ->
  halfOpenProbes (breakers s p) = 1 -> state (breakers s p) = StateOpen ->
  Do E c op route params s = Some (Panic, s') ->
  closed s' = false ->
  Forall (fun cl => Route_Validate (snd (fst cl)) = None /\ breaker_for c (snd (fst cl)) = Some p) later ->
  exists rs s'', calls E c later s' = Some (rs, s'') /\ length rs = length later /\ Forall refused rs.
Proof.
  intros Hc Hv Hp H1 Ho HD Hc' Hl.
  assert (Hw : wedged (breakers s' p)).
  { rewrite Do_open in HD by done. unfold execute, ask_breaker in HD. rewrite Hp in HD.
    pose proof (breakers_entered c op route s) as Hb. unfold on_ext in HD.
    destruct (time_now E _) as [now w]. cbn [breakers] in HD. rewrite Hb in HD.
    destruct (Allow now (breakers s p)) as [ok b] eqn:HA. destruct ok; [|done].
    destruct (run_attempts _ _ _ _ _ _) as [[[err|] s2]|] eqn:Hr; [done | |done].
    apply run_attempts_frame in Hr. injection HD as <-. cbn [breakers emit].
    rewrite Hr. cbn [breakers set_breaker]. rewrite fn_lookup_insert.
    by apply (allow_probe_wedges now (breakers s p) true b). }
  clear HD. revert s' Hc' Hw. induction Hl as [|[[op' route'] params'] l [Hv' Hp'] _ IH]; intros s' Hc' Hw.
  { exists [], s'. split; [reflexivity |]. split; [reflexivity | constructor]. }
  cbn [calls fst snd] in *.
  destruct (wedged_call E c op' route' params' s' p Hc' Hv' Hp' Hw) as (e & s2 & -> & He & Hc2 & Hw2).
  destruct (IH s2 Hc2 Hw2) as (rs & s3 & -> & Hlen & Hall).
  exists (Ret (Some e) :: rs), s3. split; [done |]. split; [simpl; lia |].
  apply Forall_cons. split; [exists e; split; [reflexivity | exact He] | exact Hall].
Qed.

(** ** Construction *)

(** The invariant of the options: a positive timeout, and the first error kept. *)
Definition cfg_inv (err0 : option error) (c : Config) : Prop :=
  0 < cfg_Timeout c /\ (forall x, err0 = Some x -> cfg_err c = Some x).

Lemma with_env_inv (Q : Config -> Prop) lookup name f c :
  Q c -> (forall raw, Q (f raw c)) -> Q (with_env lookup name f c).
Proof. unfold with_env. intros Hc Hf. destruct (lookup name); [case_decide|]; auto. Qed.

Lemma recordErr_inv err0 c e : cfg_inv err0 c -> cfg_inv err0 (recordErr c e).
Proof.
  unfold cfg_inv, recordErr. intros [Ht He]. destruct (cfg_err c) eqn:Hc.
  - split; [done |]. by rewrite Hc.
  - destruct c. simpl in *. split; [done |]. intros x Hx. specialize (He x Hx). congruence.
Qed.

(** An update of a field other than the timeout and the error. *)
Lemma upd_inv err0 (c c' : Config) :
  cfg_Timeout c' = cfg_Timeout c -> cfg_err c' = cfg_err c -> cfg_inv err0 c -> cfg_inv err0 c'.
Proof. unfold cfg_inv. by intros -> ->. Qed.

Lemma upd_Timeout_inv err0 c t : 0 < t -> cfg_inv err0 c -> cfg_inv err0 (upd_Timeout t c).
Proof. destruct c. unfold cfg_inv. simpl. intuition. Qed.

Ltac upd_tac := eapply upd_inv; [..| eassumption]; by match goal with |- _ = ?f ?c => destruct c end.

#[export] Hint Resolve recordErr_inv upd_Timeout_inv : client.

Lemma applyEnv_inv url_Parse SplitHostPort ParseDuration lookup err0 c :
  cfg_inv err0 c -> cfg_inv err0 (applyEnv url_Parse SplitHostPort ParseDuration lookup c).
Proof.
  intros H0. unfold applyEnv.
  set (c1 := with_env lookup EnvGatewayURL _ c).
  assert (H1 : cfg_inv err0 c1).
  { apply (with_env_inv (cfg_inv err0)); [done |]. intros raw. case_match; [by apply recordErr_inv | upd_tac]. }
  clearbody c1. set (c2 := with_env lookup EnvPushAddr _ c1).
  assert (H2 : cfg_inv err0 c2).
  { apply (with_env_inv (cfg_inv err0)); [done |]. intros raw. case_match; [by apply recordErr_inv | upd_tac]. }
  clearbody c2. set (c3 := with_env lookup EnvTimeout _ c2).
  assert (H3 : cfg_inv err0 c3).
  { apply (with_env_inv (cfg_inv err0)); [done |]. intros raw. case_match; [|by apply recordErr_inv].
    case_decide; [by apply recordErr_inv | apply upd_Timeout_inv; [lia | done]]. }
  clearbody c3. set (c4 := with_env lookup EnvTradePassword _ c3).
  assert (H4 : cfg_inv err0 c4) by (apply (with_env_inv (cfg_inv err0)); [done | intros raw; upd_tac]).
  clearbody c4. apply (with_env_inv (cfg_inv err0)); [done |].
  intros raw. case_match; [upd_tac | by apply recordErr_inv].
Qed.

Lemma apply_option_inv key url_Parse SplitHostPort ParseDuration lookup err0 c o :
  cfg_inv err0 c ->
  cfg_inv err0 (apply_option key url_Parse SplitHostPort ParseDuration lookup o c).
Proof.
  intros H0. destruct o; cbn [apply_option]; try upd_tac.
  - apply upd_Timeout_inv; [|done]. case_decide; [done | lia].
  - by apply applyEnv_inv.
Qed.

Lemma foldl_option_inv key url_Parse SplitHostPort ParseDuration lookup err0 opts c :
  cfg_inv err0 c ->
  cfg_inv err0 (foldl (fun c o => apply_option key url_Parse SplitHostPort ParseDuration lookup o c) c opts).
Proof. revert c. induction opts as [|o opts IH]; intros c Hc; [done |]. simpl. by apply IH, apply_option_inv. Qed.

(** A client that is built has a validated Gateway URL and push address, a
    positive timeout, an HTTP client that has one too, and its transport uses
    both. An error recorded by any option is the one returned, whatever options
    follow. *)
Theorem client_new_sound key url_Parse SplitHostPort ParseDuration lookup (opts1 opts2 : list Option) :
  let build := New key url_Parse SplitHostPort ParseDuration lookup in
  let run opts := foldl (fun c o => apply_option key url_Parse SplitHostPort ParseDuration lookup o c)
                    (defaultConfig key) opts in
  match build (opts1 ++ opts2) with
  | inl c =>
      validateBaseURL url_Parse (BaseURL (cfg c)) = None
      /\ validatePushAddr SplitHostPort (PushAddr (cfg c)) = None
      /\ 0 < cfg_Timeout (cfg c) /\ Transport.defaultTimeout (transport c) = cfg_Timeout (cfg c)
      /\ cfg_err (run opts1) = None
      /\ exists hc, cfg_HTTPClient (cfg c) = Some hc /\ hc_Timeout hc <> 0
          /\ Transport.clientTimeout (transport c) = hc_Timeout hc
  | inr e => forall e1, cfg_err (run opts1) = Some e1 -> e = e1
  end.
Proof.
  cbv zeta. set (run := foldl _). unfold New. fold run.
  assert (Hrun : run (defaultConfig key) (opts1 ++ opts2) = run (run (defaultConfig key) opts1) opts2)
    by (unfold run; apply foldl_app).
  rewrite Hrun. set (c1 := run (defaultConfig key) opts1). set (c2 := run c1 opts2).
  assert (H1 : cfg_inv None c1) by (apply foldl_option_inv; split; [done | congruence]).
  assert (H2 : cfg_inv (cfg_err c1) c2) by (apply foldl_option_inv; split; [apply H1 | done]).
  destruct H2 as [Ht He]. clear Hrun. clearbody c1 c2.
  destruct (cfg_err c2) as [e|] eqn:Hc2.
  { intros e1 Hc1. specialize (He e1 Hc1). congruence. }
  assert (Hc1 : cfg_err c1 = None) by (destruct (cfg_err c1) as [x|]; [by specialize (He x eq_refl) | done]).
  destruct (validateBaseURL url_Parse (BaseURL c2)) eqn:Hb; [congruence |].
  destruct (validatePushAddr SplitHostPort (PushAddr c2)) eqn:Hp; [congruence |].
  destruct c2 as [bu pa hc t]. simpl in *. split_and!; try done; [by case_decide; lia |].
  assert (Hh : hc_Timeout (resolveHTTPClient hc t) <> 0).
  { unfold resolveHTTPClient. destruct hc as [[rt ht]|]; simpl; [|lia].
    case_decide; [destruct rt; simpl; lia | done]. }
  exists (resolveHTTPClient hc t). split; [done |]. split; [done |]. by rewrite decide_False.
Qed.

(** ** Witnesses *)

(** A Gateway that answers every request with [resp]; the clock is the world. *)
Definition demo_env (resp : Transport.http_response) : env Z bytes bytes :=
  mkEnv inl (fun d _ => (None, d)) (fun _ p => inl (default [] p))
    (fun b => inl (Transport.mkResponse true "" b)) (fun _ => None) (fun _ => "Status") None
    (fun w => (w, w + 1)) (fun w => (None, w)) (fun k w => (k - 1, w)) (fun d w => (None, w + d))
    (fun w => (None, w)) (fun _ _ w => (inl resp, w)) (fun _ w => (None, w)).

Definition demo_client (retry : option Policy) (query mutation : option breaker_ptr) : Client :=
  mkClient (mkConfig DefaultBaseURL DefaultPushAddr None DefaultTimeout "" "" false "" true true retry
              false None query mutation None)
    (Transport.New (Transport.mkConfig "" None 0 0 "")).

Definition resp_busy : Transport.http_response := Transport.mkHttp 500 (text "busy") None.
Definition resp_echo : Transport.http_response := Transport.mkHttp 500 (text "password=token=abc") None.

(** One request sent for an order although the policy allows three attempts. *)
Lemma client_requests_bounded_witness :
  exists r s', Do (count_env (demo_env resp_busy)) (demo_client (Some DefaultPolicy) None None)
      "order" RouteTradeEntrust (Some (text "{}")) (mkCS (fun _ => NewBreaker 0 0) (Some []) [] false (0, 0))
    = Some (r, s') /\ sent s' - 0 <= 1.
Proof.
  destruct (client_requests_bounded (demo_env resp_busy) (demo_client (Some DefaultPolicy) None None)
    "order" RouteTradeEntrust (Some (text "{}"))
    (mkCS (fun _ => NewBreaker 0 0) (Some []) [] false (0, 0))) as (r & s' & HD & _ & Hm).
  { intros p [= <-]. split; vm_compute; congruence. }
  exists r, s'. split; [exact HD | apply Hm; vm_compute; reflexivity].
Defined.

Definition open_breaker : Breaker := OnFailure 0 (NewBreaker 1 10).
Definition demo_state (b : Breaker) : CState Z bytes := mkCS (fun _ => b) (Some []) [] false 100.
Definition after {W O} (r : option (outcome (option error) * CState W O)) (s : CState W O) : CState W O :=
  match r with Some (_, s') => s' | None => s end.

Lemma client_breaker_isolation_witness :
  breakers (after (Do (demo_env resp_busy) (demo_client None (Some 0%nat) (Some 1%nat)) "order"
    RouteTradeEntrust None (demo_state (NewBreaker 1 10))) (demo_state (NewBreaker 1 10))) 0%nat
    = NewBreaker 1 10.
Proof.
  apply (client_breaker_isolation (demo_env resp_busy) (demo_client None (Some 0%nat) (Some 1%nat))
    "order" RouteTradeEntrust None (demo_state (NewBreaker 1 10)) _
    (Ret (Some (Errs.New "" "order" "gateway returned HTTP 500 Status: busy"))) 0%nat).
  - vm_compute. reflexivity.
  - vm_compute. congruence.
Defined.

Lemma client_span_error_lost_witness :
  last (events (after (Do (demo_env resp_busy) (demo_client None None None) "order" RouteTradeEntrust
    None (demo_state (NewBreaker 1 10))) (demo_state (NewBreaker 1 10)))) = Some (EvSpanEnd None).
Proof.
  refine (client_span_error_lost (demo_env resp_busy) (demo_client None None None) "order"
    RouteTradeEntrust None (demo_state (NewBreaker 1 10)) _
    (Ret (Some (Errs.New "" "order" "gateway returned HTTP 500 Status: busy"))) eq_refl _ _);
    vm_compute; reflexivity.
Defined.

Lemma client_panic_wedges_breaker_witness :
  exists rs s'', calls (demo_env resp_echo) (demo_client None (Some 0%nat) (Some 1%nat))
      [("order", RouteTradeEntrust, None); ("order", RouteTradeFuturesEntrust, None)]
      (after (Do (demo_env resp_echo) (demo_client None (Some 0%nat) (Some 1%nat)) "order"
        RouteTradeEntrust None (demo_state open_breaker)) (demo_state open_breaker))
    = Some (rs, s'') /\ length rs = 2%nat /\ Forall refused rs.
Proof.
  refine (client_panic_wedges_breaker (demo_env resp_echo) (demo_client None (Some 0%nat) (Some 1%nat))
    "order" RouteTradeEntrust None (demo_state open_breaker) _ 1%nat
    [("order", RouteTradeEntrust, None); ("order", RouteTradeFuturesEntrust, None)] _ _ _ _ _ _ _ _);
    try (vm_compute; reflexivity).
  repeat constructor; vm_compute; reflexivity.
Defined.
