(* ===== verification/PushClient.v ===== *)
(** The push client: [src/internal/push/client.go], [verify.go].

    Options, reconnect backoff, signature verification, payload decoding and the
    read loop over one connection. The interleavings of the client's goroutines
    are in [PushConc]. *)
From S2P Require Import Prelude Types Errs Retry Frame.

Create HintDb push.

Definition DefaultAddr : string := "127.0.0.1:11112".
Definition DefaultMinReconnect : Z := 500 * Millisecond.
Definition DefaultMaxReconnect : Z := 30 * Second.
Definition dispatchBuffer : nat := 64.
Definition errorBuffer : nat := 16.

Definition ErrClosed : error := ESentinel "push: client is closed".
Definition ErrNoPublicKey : error := ESentinel "push: no platform public key configured".
Definition ErrMissingSignature : error := ESentinel "push: frame has no bodySHA1 signature".
Definition ErrSignatureMismatch : error := ESentinel "push: bodySHA1 signature verification failed".
Definition ErrUnsupportedKey : error := ESentinel "push: unsupported public key encoding".

Abbreviation bytestr := (list Byte.byte).

(** ** Signatures *)
Section verify.
(** RSA keys; [sha1.Sum] and [rsa.VerifyPKCS1v15]; and the decoders
    [bytes.TrimSpace], [pem.Decode], [base64.StdEncoding.DecodeString],
    [x509.ParsePKIXPublicKey] ([Some None] for a key that is not RSA) and
    [x509.ParsePKCS1PublicKey]. *)
Context {Key : Type} (sha1_Sum : bytestr -> bytestr).
Context (VerifyPKCS1v15 : Key -> bytestr -> bytestr -> option error).
Context (bytes_TrimSpace : bytestr -> bytestr) (pem_Decode base64_Decode : bytestr -> option bytestr).
Context (ParsePKIX : bytestr -> option (option Key)) (ParsePKCS1 : bytestr -> option Key).

Record Verifier := mkVerifier { key : option Key; required : bool }.

Definition Required (v : option Verifier) : bool :=
  match v with Some v => required v | None => false end.

Definition Verify (v : option Verifier) (h : Header) (body : bytestr) : option error :=
  match v with
  | None => Some ErrNoPublicKey
  | Some v =>
      match key v with
      | None => Some ErrNoPublicKey
      | Some k =>
          if decide (BodySHA1 h = replicate BodySHA1Len Byte.x00) then Some ErrMissingSignature
          else
            match VerifyPKCS1v15 k (sha1_Sum body) (BodySHA1 h) with
            | Some e => Some (EWrap ("push: bodySHA1 signature verification failed: " +:+ error_text e)
                                ErrSignatureMismatch)
            | None => None
            end
      end
  end.

Definition parseDERPublicKey (der : bytestr) : Key + error :=
  match ParsePKIX der with
  | Some (Some k) => inl k
  | Some None => inr (EWrap "push: unsupported public key encoding: not an RSA public key" ErrUnsupportedKey)
  | None =>
      match ParsePKCS1 der with
      | Some k => inl k
      | None => inr (EWrap ("push: unsupported public key encoding: not a PEM PUBLIC KEY block, "
                            +:+ "base64 SPKI, or SPKI DER") ErrUnsupportedKey)
      end
  end.

Definition ParsePublicKey (encoded : bytestr) : Key + error :=
  let data := bytes_TrimSpace encoded in
  if decide (length data = 0%nat) then
    inr (EWrap "push: unsupported public key encoding: empty input" ErrUnsupportedKey)
  else
    match pem_Decode data with
    | Some block => parseDERPublicKey block
    | None =>
        match base64_Decode data with
        | Some der =>
            match parseDERPublicKey der with
            | inl k => inl k
            | inr _ => parseDERPublicKey data
            end
        | None => parseDERPublicKey data
        end
    end.

(** ** Options and construction *)
Record Options := mkOptions {
  Addr : string;
  MinReconnect : Z;
  MaxReconnect : Z;
  ReadDeadline : Z;
  VerifyPublicKey : bytestr;
  VerifyRequired : bool;
}.

Inductive Option :=
  | WithAddr (addr : string)
  | WithReconnect (min max : Z)
  | WithReadDeadline (d : Z)
  | WithVerification (pubKey : bytestr) (required : bool).

Definition apply_option (o : Options) (opt : Option) : Options :=
  match opt with
  | WithAddr addr =>
      mkOptions (if decide (addr = "") then DefaultAddr else addr) (MinReconnect o) (MaxReconnect o)
        (ReadDeadline o) (VerifyPublicKey o) (VerifyRequired o)
  | WithReconnect min max =>
      mkOptions (Addr o) (if decide (min > 0) then min else MinReconnect o)
        (if decide (max > 0) then max else MaxReconnect o)
        (ReadDeadline o) (VerifyPublicKey o) (VerifyRequired o)
  | WithReadDeadline d =>
      mkOptions (Addr o) (MinReconnect o) (MaxReconnect o) (if decide (d > 0) then d else 0)
        (VerifyPublicKey o) (VerifyRequired o)
  | WithVerification k r =>
      mkOptions (Addr o) (MinReconnect o) (MaxReconnect o) (ReadDeadline o) k r
  end.

(** The part of the client that is fixed by [New]. *)
Record Setup := mkSetup {
  opts : Options;
  verifier : option Verifier;
  initErr : option error;
}.

Definition New (os : list Option) : Setup :=
  let o := foldl apply_option
             (mkOptions DefaultAddr DefaultMinReconnect DefaultMaxReconnect 0 [] false) os in
  let addr := if decide (Addr o = "") then DefaultAddr else Addr o in
  let mn := if decide (MinReconnect o <= 0) then DefaultMinReconnect else MinReconnect o in
  let mx := if decide (MaxReconnect o < mn) then mn else MaxReconnect o in
  let o := mkOptions addr mn mx (ReadDeadline o) (VerifyPublicKey o) (VerifyRequired o) in
  let '(v, e) :=
    if decide (0 < length (VerifyPublicKey o))%nat then
      match ParsePublicKey (VerifyPublicKey o) with
      | inl k => (Some (mkVerifier (Some k) (VerifyRequired o)), None)
      | inr e => (None, Some e)
      end
    else (None, None) in
  mkSetup o v e.

Definition verifyFrame (c : Setup) (h : Header) (body : bytestr) : option error :=
  match verifier c with
  | None => None
  | Some v => Verify (Some v) h body
  end.

Definition VerificationEnabled (c : option Setup) : bool :=
  match c with Some c => bool_decide (is_Some (verifier c)) | None => false end.
Definition VerificationRequired (c : option Setup) : bool :=
  match c with Some c => Required (verifier c) | None => false end.
End verify.
Arguments Verifier : clear implicits.
Arguments Setup : clear implicits.

(** ** Reconnect backoff *)

(** [jitter] is the value [rand.Int63n(next)] draws. *)
Definition nextBackoff (cur max jitter : Z) : Z :=
  let next := swrap 64 (cur * 2) in
  let next := if decide (next > max) then max else next in
  if decide (next <= 0) then cur
  else swrap 64 (Z.quot next 2 + Z.quot jitter 2).

(** ** Decoding *)

(** The payload messages of [gen/], produced by [proto.Unmarshal]. *)
Inductive payload_kind := KTradeStockDeliver | KOrderBookFull | KBroker | KBasicQot | KTicker.

Definition kind_for (t : Z) : option payload_kind :=
  switch t [
    (TrsStockDeliverMsgType, Some KTradeStockDeliver);
    (TradeStockDeliverMsgType, Some KTradeStockDeliver);
    (FuturesTradeStockDeliverMsgType, Some KTradeStockDeliver);
    (OrderBookNotifyMsgType, Some KOrderBookFull);
    (BrokerQueueNotifyMsgType, Some KBroker);
    (BasicQotNotifyMsgType, Some KBasicQot);
    (TickerNotifyMsgType, Some KTicker)] None.

Section decode.
(** [proto.Unmarshal] of each message; the envelope [PBNotify] as its type, id,
    time and optional payload bytes. *)
Context {Msg : Type}.
Context (Unmarshal : payload_kind -> bytestr -> Msg + error).
Context (Unmarshal_PBNotify : bytestr -> (Z * string * Z * option bytestr) + error).

Record Notification := mkNotification {
  Type_ : Z;
  ID : string;
  Time : Z;
  Payload : option Msg;
}.

Definition Decode (t : Z) (payload : bytestr) : Msg + error :=
  match kind_for t with
  | None => inr (EText ("push: unknown notifyMsgType " +:+ itoa t))
  | Some k =>
      match Unmarshal k payload with
      | inl m => inl m
      | inr e => inr (EWrap ("push: decode: " +:+ error_text e) e)
      end
  end.

Definition decodeNotification (body : bytestr) : Notification + error :=
  match Unmarshal_PBNotify body with
  | inr e => inr (EWrap ("push: decode PBNotify: " +:+ error_text e) e)
  | inl (t, id, time, p) =>
      match p with
      | None => inl (mkNotification t id time None)
      | Some b =>
          match Decode t b with
          | inr e => inr e
          | inl m => inl (mkNotification t id time (Some m))
          end
      end
  end.

(** ** The read loop *)

(** What the loop does with the rest of the client. *)
Inductive action := AReport (e : error) | ADispatch (n : Notification).

Context {Key : Type} (verify : Header -> bytestr -> option error) (o : Options).

(** The body of the loop for one frame. *)
Definition handle_frame (h : Header) (body : bytestr) : list action :=
  if decide (MsgType h = MsgHeartbeat \/ MsgType h = MsgRequest \/ MsgType h = MsgResponse) then []
  else if decide (MsgType h = MsgPush) then
    let verr := verify h body in
    let reported := match verr with Some e => [AReport e] | None => [] end in
    if bool_decide (is_Some verr) && VerifyRequired o then reported
    else
      match decodeNotification body with
      | inr e => reported ++ [AReport e]
      | inl n => reported ++ [ADispatch n]
      end
  else [].

(** [SetReadDeadline] fails on a closed connection; its results are [deadline]
    when a read deadline is set. Each frame read consumes at least a header, so
    one unit of fuel per byte, and one for the final error, is enough
    ([readLoop_total]). *)
Fixpoint readLoop (fuel : nat) (deadline : list (option error)) (r : Reader)
    : option (list action * error) :=
  match fuel with
  | O => None
  | S fuel =>
      let next :=
        match ReadFrame r with
        | (inr e, _) => Some ([], e)
        | (inl (h, body), r) =>
            match readLoop fuel (tail deadline) r with
            | Some (l, e) => Some (handle_frame h body ++ l, e)
            | None => None
            end
        end in
      if decide (ReadDeadline o > 0) then
        match head deadline with Some (Some e) => Some ([], e) | _ => next end
      else next
  end.
End decode.
Arguments Notification : clear implicits.
Arguments action : clear implicits.

(** ** Construction *)
Lemma foldl_options_min os o : MinReconnect o > 0 -> MaxReconnect o > 0 ->
  MinReconnect (foldl apply_option o os) > 0 /\ MaxReconnect (foldl apply_option o os) > 0.
Proof.
  revert o. induction os as [|x os IH]; intros o H1 H2; [done |]. simpl.
  apply IH; destruct x; simpl; try done; case_decide; lia.
Qed.

(** Whatever the options, the reconnect bounds of a push client are positive
    and ordered and it has an address; a key that does not parse disables the
    client through [Connect] and [Run] rather than disabling verification; but
    asking for required verification with an empty key leaves every frame
    unverified. *)
Theorem push_new_sound {Key} sha1_Sum VerifyPKCS1v15 bytes_TrimSpace pem_Decode base64_Decode
    ParsePKIX ParsePKCS1 (os : list Option) :
  let c := New (Key := Key) bytes_TrimSpace pem_Decode base64_Decode ParsePKIX ParsePKCS1 os in
  0 < MinReconnect (opts c) <= MaxReconnect (opts c)
  /\ Addr (opts c) <> ""
  /\ (VerifyPublicKey (opts c) <> [] -> verifier c = None -> is_Some (initErr c))
  /\ (forall v, verifier c = Some v -> required v = VerifyRequired (opts c) /\ is_Some (key v))
  /\ (VerifyPublicKey (opts c) = [] ->
      initErr c = None /\ forall h body, verifyFrame sha1_Sum VerifyPKCS1v15 c h body = None).
Proof.
  cbv zeta. unfold New. set (o := foldl apply_option _ os).
  destruct (foldl_options_min os (mkOptions DefaultAddr DefaultMinReconnect DefaultMaxReconnect 0 [] false))
    as [Hmin Hmax]; [done..|]. fold o in Hmin, Hmax.
  cbn [VerifyPublicKey VerifyRequired opts verifier initErr].
  set (ve := if decide (0 < length (VerifyPublicKey o))%nat then _ else _).
  assert (Hve : (VerifyPublicKey o <> [] -> fst ve = None -> is_Some (snd ve))
    /\ (forall v, fst ve = Some v -> required v = VerifyRequired o /\ is_Some (key v))
    /\ (VerifyPublicKey o = [] -> ve = (None, None))).
  { subst ve. case_decide as Hl.
    - destruct (ParsePublicKey _ _ _ _ _ _); simpl; split_and!; try done.
      + intros v [= <-]. eauto.
      + intros Hn. rewrite Hn in Hl. simpl in Hl. lia.
      + intros Hn. rewrite Hn in Hl. simpl in Hl. lia.
    - split_and!; try done. intros Hn. destruct (VerifyPublicKey o); [done | simpl in Hl; lia]. }
  destruct ve as [v e]. cbn [fst snd] in Hve. destruct Hve as (H1 & H2 & H3).
  cbn [opts verifier initErr MinReconnect MaxReconnect Addr VerifyPublicKey VerifyRequired].
  split_and!; try done.
  - unfold DefaultMinReconnect, Millisecond. case_decide; lia.
  - repeat case_decide; lia.
  - case_decide; done.
  - intros Hn. specialize (H3 Hn). injection H3 as -> ->. done.
Qed.

(** ** Backoff *)

(** The next reconnect delay never exceeds the maximum and never falls below
    the current delay or half the maximum, whichever is less; the jitter lies
    within half of the doubled delay, so the delay is not "doubled plus
    jitter". *)
Theorem next_backoff_bounds (cur max jitter : Z) :
  0 < cur <= max -> max <= int_max ->
  let next := Z.min max (cur * 2) in
  0 <= jitter < next ->
  let d := nextBackoff cur max jitter in
  Z.min cur (max `div` 2) <= d <= max /\ (cur * 2 <= int_max -> next `div` 2 <= d < next).
Proof.
  cbv zeta. intros Hc Hm Hj. unfold nextBackoff.
  destruct (decide (cur * 2 <= int_max)) as [Ho|Ho].
  - rewrite swrap64_id by (unfold int_min, int_max in *; lia).
    assert (Hn : (if decide (cur * 2 > max) then max else cur * 2) = Z.min max (cur * 2))
      by (case_decide; lia).
    rewrite Hn. set (next := Z.min max (cur * 2)) in *. rewrite decide_False by lia.
    rewrite !Z.quot_div_nonneg by lia.
    pose proof (Z.div_mod next 2 ltac:(lia)). pose proof (Z.mod_pos_bound next 2 ltac:(lia)).
    pose proof (Z.div_mod jitter 2 ltac:(lia)). pose proof (Z.mod_pos_bound jitter 2 ltac:(lia)).
    pose proof (Z.div_mod max 2 ltac:(lia)). pose proof (Z.mod_pos_bound max 2 ltac:(lia)).
    rewrite swrap64_id by (unfold int_min, int_max in *; lia). lia.
  - pose proof (swrap64_double_overflow cur ltac:(unfold int_max in *; lia) ltac:(lia)).
    rewrite (decide_False (P := swrap 64 (cur * 2) > max)) by lia. rewrite decide_True by lia. lia.
Qed.

(** ** The read loop *)
Section read_loop.
Context {Msg : Type} (Unmarshal : payload_kind -> bytestr -> Msg + error).
Context (Unmarshal_PBNotify : bytestr -> (Z * string * Z * option bytestr) + error).
Context (verify : Header -> bytestr -> option error) (o : Options).
Local Abbreviation handle := (handle_frame Unmarshal Unmarshal_PBNotify verify o).
Local Abbreviation loop := (readLoop Unmarshal Unmarshal_PBNotify verify o).

Lemma handle_dispatch h body n :
  ADispatch n ∈ handle h body ->
  MsgType h = MsgPush /\ decodeNotification Unmarshal Unmarshal_PBNotify body = inl n
  /\ (VerifyRequired o = true -> verify h body = None)
  /\ handle h body = match verify h body with Some e => [AReport e; ADispatch n] | None => [ADispatch n] end.
Proof using Type.
  unfold handle_frame. case_decide; [by intros ?%not_elem_of_nil |].
  case_decide as Hp; [|by intros ?%not_elem_of_nil].
  destruct (verify h body) as [e|], (VerifyRequired o), (decodeNotification _ _ body) as [n'|x]; simpl;
    intros Hn; repeat match type of Hn with
      | _ ∈ _ :: _ => apply elem_of_cons in Hn as [[=]|Hn]
      | _ ∈ [] => by apply not_elem_of_nil in Hn
      end; by subst.
Qed.

Lemma ReadFrame_shorter r h body r' :
  ReadFrame r = (inl (h, body), r') -> (length (data r') < length (data r))%nat.
Proof using Type.
  intros (_ & _ & _ & _ & Hd & _ & Hok)%ReadFrame_inv. apply length_EncodeHeader in Hok.
  rewrite Hd, !length_app, Hok. unfold HeaderSize. lia.
Qed.

(** The actions of the loop are those of the frames the stream begins with. *)
Lemma readLoop_handles fuel deadline r :
  (length (data r) < fuel)%nat ->
  exists fs rest e, loop fuel deadline r = Some (mjoin ((fun f => handle (fst f) (snd f)) <$> fs), e)
    /\ data r = mjoin ((fun f => EncodeHeader (fst f) ++ snd f) <$> fs) ++ rest.
Proof using Type.
  revert deadline r. induction fuel as [|fuel IH]; intros deadline r Hf; [lia |]. cbn [readLoop].
  assert (Hnone : forall e : error, exists fs rest e', Some ([], e) = Some (mjoin ((fun f => handle (fst f) (snd f)) <$> fs), e')
    /\ data r = mjoin ((fun f => EncodeHeader (fst f) ++ snd f) <$> fs) ++ rest)
    by (intros e; by exists [], (data r), e).
  assert (Hnext : exists fs rest e', match ReadFrame r with
      | (inr e, _) => Some ([], e)
      | (inl (h, body), r) =>
          match loop fuel (tail deadline) r with
          | Some (l, e) => Some (handle h body ++ l, e)
          | None => None
          end
      end = Some (mjoin ((fun f => handle (fst f) (snd f)) <$> fs), e')
      /\ data r = mjoin ((fun f => EncodeHeader (fst f) ++ snd f) <$> fs) ++ rest).
  { destruct (ReadFrame r) as [[[h body]|e] r1] eqn:HR; [| apply Hnone].
    pose proof (ReadFrame_shorter _ _ _ _ HR).
    pose proof (ReadFrame_inv _ _ _ _ HR) as (_ & _ & _ & _ & Hd & _).
    destruct (IH (tail deadline) r1 ltac:(lia)) as (fs & rest & e & -> & Hr1).
    exists ((h, body) :: fs), rest, e. split; [done |]. simpl. by rewrite Hd, Hr1, !app_assoc. }
  case_decide; [|exact Hnext].
  destruct (head deadline) as [[e|]|]; [apply Hnone | exact Hnext..].
Qed.

(** The loop over frames written one after the other. *)
Lemma readLoop_frames fs e :
  Forall (fun f => Frame_ok (fst f) (snd f)) fs -> ReadDeadline o <= 0 ->
  loop (S (length fs)) []
      (mkReader (mjoin ((fun f => frame_bytes (fst f) (snd f)) <$> fs)) e)
    = Some (mjoin ((fun f => handle (frame_header (fst f) (snd f)) (snd f)) <$> fs), e).
Proof using Type.
  intros Hall Ho. induction fs as [|[h b] fs IH].
  - cbn [readLoop length]. rewrite decide_False by lia. done.
  - apply Forall_cons in Hall as [H1 H2]. simpl in H1. specialize (IH H2).
    change (length ((h, b) :: fs)) with (S (length fs)).
    remember (S (length fs)) as n eqn:Hn. rewrite !fmap_cons. cbn [readLoop fst snd].
    change (mjoin (?x :: ?l)) with (x ++ mjoin l).
    rewrite ReadFrame_bytes by done. cbn [tail]. rewrite IH. rewrite decide_False by lia. done.
Qed.
End read_loop.

(** The read loop ends on every finite stream, with an error, and every
    notification it dispatches was decoded from a push frame of that stream
    which, when verification is required, passed it. *)
Theorem read_loop_sound {Msg} (Unmarshal : payload_kind -> bytestr -> Msg + error) Unmarshal_PBNotify
    verify (o : Options) (deadline : list (option error)) (r : Reader) :
  exists l e, readLoop Unmarshal Unmarshal_PBNotify verify o (S (length (data r))) deadline r = Some (l, e)
    /\ forall n, ADispatch n ∈ l -> exists h body pre post,
         data r = pre ++ EncodeHeader h ++ body ++ post /\ MsgType h = MsgPush
         /\ decodeNotification Unmarshal Unmarshal_PBNotify body = inl n
         /\ (VerifyRequired o = true -> verify h body = None).
Proof.
  destruct (readLoop_handles Unmarshal Unmarshal_PBNotify verify o (S (length (data r))) deadline r ltac:(lia))
    as (fs & rest & e & Hl & Hd).
  eexists _, e. split; [exact Hl |].
  intros n (l & Hn & ([h body] & -> & (fs1 & fs2 & ->)%list_elem_of_split)%list_elem_of_fmap)%list_elem_of_join.
  simpl in Hn. destruct (handle_dispatch _ _ _ _ _ _ _ Hn) as (Hp & Hdec & Hv & _).
  exists h, body, (mjoin ((fun f => EncodeHeader (fst f) ++ snd f) <$> fs1)),
    (mjoin ((fun f => EncodeHeader (fst f) ++ snd f) <$> fs2) ++ rest).
  split; [| done]. rewrite Hd, fmap_app, join_app. simpl. by rewrite !app_assoc.
Qed.

(** Frames the Gateway writes to the connection are handled in the order they
    were written, each exactly once, until the connection ends: the actions of
    the read loop are those of the frames, concatenated. *)
Theorem read_loop_in_order {Msg} (Unmarshal : payload_kind -> bytestr -> Msg + error) Unmarshal_PBNotify
    verify (o : Options) (fs : list (Header * bytestr)) (e : error) :
  Forall (fun f => Frame_ok (fst f) (snd f)) fs -> ReadDeadline o <= 0 ->
  readLoop Unmarshal Unmarshal_PBNotify verify o (S (length fs)) [] (mkReader (WriteFrames fs) e)
    = Some (mjoin ((fun f => handle_frame Unmarshal Unmarshal_PBNotify verify o
                               (frame_header (fst f) (snd f)) (snd f)) <$> fs), e).
Proof.
  intros Hall Ho. unfold WriteFrames. rewrite foldl_WriteFrame by done. by apply readLoop_frames.
Qed.

(** ** Witnesses *)
Definition demo_opts : Options :=
  mkOptions DefaultAddr DefaultMinReconnect DefaultMaxReconnect 0 [] true.
Definition demo_PB (b : bytestr) : (Z * string * Z * option bytestr) + error :=
  inl (TickerNotifyMsgType, "id", 0, Some b).

Lemma next_backoff_bounds_witness :
  nextBackoff DefaultMinReconnect DefaultMaxReconnect 999999999 < Second.
Proof.
  refine (proj2 (proj2 (next_backoff_bounds DefaultMinReconnect DefaultMaxReconnect 999999999 _ _ _) _));
    first [by vm_compute | split; by vm_compute].
Defined.

Lemma read_loop_in_order_witness :
  readLoop (fun _ b => inl b) demo_PB (fun _ _ => None) demo_opts 3 []
      (mkReader (WriteFrames [(sample_header, sample_body); (sample_header, [])]) EOF)
    = Some ([ADispatch (mkNotification TickerNotifyMsgType "id" 0 (Some sample_body));
             ADispatch (mkNotification TickerNotifyMsgType "id" 0 (Some []))], EOF).
Proof.
  apply (read_loop_in_order (fun _ b => inl b) demo_PB (fun _ _ => None) demo_opts
    [(sample_header, sample_body); (sample_header, [])] EOF); [|done].
  repeat apply Forall_cons_2; [exact sample_frame_ok | | apply Forall_nil_2].
  destruct sample_frame_ok; by split.
Defined.
