(* ===== verification/PushConc.v ===== *)
(** The goroutines of the push client: [src/internal/push/client.go].

    Any number of [Run]s, [Connect], [Close], [SubscribeTypes], the handler
    goroutines and the reader of [Errors] share the client. A step of the
    relation is the work a goroutine does under [mu], or one access to a channel
    or an atomic flag outside it: the three selects of [dispatch] are three
    steps, and so are those of [report], which are taken holding [errcMu]. A
    handler or the reader of [Errors] may receive between any two of them.
    Histories are arbitrary interleavings.

    Notifications carry the [Run] that dispatched them, which is ghost. *)
From S2P Require Import Prelude Chan Errs PushClient.

Create HintDb pushconc.

Section conc.
(** Notifications and their type. *)
Context {N : Type} (ntype : N -> Z).

(** A [dispatcher] and its goroutine. The last three fields are ghost: what was
    handed to [dispatch] while this was the handler of its type, what [dispatch]
    put in the channel, and what was passed to the handler, each in order. *)
Record disp := mkDisp {
  dtype : Z;
  queue : list (nat * N);
  stopped : bool;
  exited : bool;
  offered : list (nat * N);
  accepted : list (nat * N);
  delivered : list (nat * N);
}.

(** Where [Close] is: not started, [closed] set, [done] closed, holding what it
    took under [mu], stopping the dispatchers, finished. *)
Inductive close_pc :=
  | CIdle | CMarked | CSignalled
  | CTaken (conn : option nat) (ds : list nat)
  | CStopping (ds : list nat)
  | CDone.

(** What a [Run] does when [report] has returned: go to the top of its loop, read
    on, or dial again. *)
Inductive after_report :=
  | ToTop | ToRead (conn : nat) | ToRedial.

(** Where a [Run] is: at the top of its loop; dialling, the first time or after a
    read error; holding a connection it dialled; reading; before each select of
    [dispatch]; in [report], before [errcMu], holding it, before each select and
    before the unlock; past a read error; returned. *)
Inductive run_pc :=
  | RTop | RDial (again : bool) | RDialled (conn : nat) | RReading (conn : nat)
  | RSend (conn d : nat) (n : N) | RFull (conn d : nat) (n : N) | RResend (conn d : nat) (n : N)
  | RReport (e : error) (k : after_report) | RLocked (e : error) (k : after_report)
  | RErr (e : error) (k : after_report) | RErrFull (e : error) (k : after_report)
  | RErrAgain (e : error) (k : after_report) | RUnlock (k : after_report)
  | RBroken | RExit.

Definition resume (k : after_report) : run_pc :=
  match k with ToTop => RTop | ToRead x => RReading x | ToRedial => RDial true end.

Record st := mkSt {
  closed : bool;
  done_closed : bool;
  conn : option nat;
  live : gset nat;              (** connections open on the network *)
  handlers : gmap Z nat;
  disps : gmap nat disp;
  errc : list error;
  errc_closed : bool;
  errcMu : option nat;          (** the [Run] that holds it *)
  panicked : bool;              (** a closed channel was closed or sent to *)
  closer : close_pc;
  runs : gmap nat run_pc;
  decoded : list (nat * N);     (** ghost: every notification a [Run] handed to [dispatch] *)
}.

Definition init : st :=
  mkSt false false None ∅ ∅ ∅ [] false None false CIdle ∅ [].

(** Field updates. *)
Definition w_closed v s := mkSt v (done_closed s) (conn s) (live s) (handlers s) (disps s) (errc s)
  (errc_closed s) (errcMu s) (panicked s) (closer s) (runs s) (decoded s).
Definition w_done v s := mkSt (closed s) v (conn s) (live s) (handlers s) (disps s) (errc s)
  (errc_closed s) (errcMu s) (panicked s) (closer s) (runs s) (decoded s).
Definition w_conn v s := mkSt (closed s) (done_closed s) v (live s) (handlers s) (disps s) (errc s)
  (errc_closed s) (errcMu s) (panicked s) (closer s) (runs s) (decoded s).
Definition w_live v s := mkSt (closed s) (done_closed s) (conn s) v (handlers s) (disps s) (errc s)
  (errc_closed s) (errcMu s) (panicked s) (closer s) (runs s) (decoded s).
Definition w_handlers v s := mkSt (closed s) (done_closed s) (conn s) (live s) v (disps s) (errc s)
  (errc_closed s) (errcMu s) (panicked s) (closer s) (runs s) (decoded s).
Definition w_disps v s := mkSt (closed s) (done_closed s) (conn s) (live s) (handlers s) v (errc s)
  (errc_closed s) (errcMu s) (panicked s) (closer s) (runs s) (decoded s).
Definition w_errc v s := mkSt (closed s) (done_closed s) (conn s) (live s) (handlers s) (disps s) v
  (errc_closed s) (errcMu s) (panicked s) (closer s) (runs s) (decoded s).
Definition w_errc_closed v s := mkSt (closed s) (done_closed s) (conn s) (live s) (handlers s) (disps s)
  (errc s) v (errcMu s) (panicked s) (closer s) (runs s) (decoded s).
Definition w_errcMu v s := mkSt (closed s) (done_closed s) (conn s) (live s) (handlers s) (disps s)
  (errc s) (errc_closed s) v (panicked s) (closer s) (runs s) (decoded s).
Definition w_panicked v s := mkSt (closed s) (done_closed s) (conn s) (live s) (handlers s) (disps s)
  (errc s) (errc_closed s) (errcMu s) v (closer s) (runs s) (decoded s).
Definition w_closer v s := mkSt (closed s) (done_closed s) (conn s) (live s) (handlers s) (disps s)
  (errc s) (errc_closed s) (errcMu s) (panicked s) v (runs s) (decoded s).
Definition w_runs v s := mkSt (closed s) (done_closed s) (conn s) (live s) (handlers s) (disps s)
  (errc s) (errc_closed s) (errcMu s) (panicked s) (closer s) v (decoded s).
Definition w_decoded v s := mkSt (closed s) (done_closed s) (conn s) (live s) (handlers s) (disps s)
  (errc s) (errc_closed s) (errcMu s) (panicked s) (closer s) (runs s) v.

(** [d.once.Do(func() { close(d.stop) })] *)
Definition stop_disp (d : disp) : disp :=
  mkDisp (dtype d) (queue d) true (exited d) (offered d) (accepted d) (delivered d).

(** [SubscribeTypes(t, h)], all under [mu]; [fresh] is the new dispatcher, [None]
    for a nil handler. *)
Definition SubscribeTypes (t : Z) (fresh : option nat) (s : st) : st :=
  if closed s then s
  else
    let s :=
      match handlers s !! t with
      | Some old => w_handlers (delete t (handlers s)) (w_disps (alter stop_disp old (disps s)) s)
      | None => s
      end in
    match fresh with
    | None => s
    | Some d =>
        w_handlers (<[t := d]> (handlers s))
          (w_disps (<[d := mkDisp t [] false false [] [] []]> (disps s)) s)
    end.

(** [case n := <-d.ch: h(n)] *)
Definition take_disp (d : disp) : disp :=
  match queue d with
  | [] => d
  | n :: q => mkDisp (dtype d) q (stopped d) (exited d) (offered d) (accepted d) (delivered d ++ [n])
  end.

Definition exit_disp (d : disp) : disp :=
  mkDisp (dtype d) (queue d) (stopped d) true (offered d) (accepted d) (delivered d).

(** [dispatch]: the dispatcher found under [mu] is offered the notification; then
    [select { case d.ch <- n: default: }], [None] for the default; and
    [select { case <-d.ch: default: }]. *)
Definition offer_disp (n : nat * N) (d : disp) : disp :=
  mkDisp (dtype d) (queue d) (stopped d) (exited d) (offered d ++ [n]) (accepted d) (delivered d).

Definition send_disp (n : nat * N) (d : disp) : option disp :=
  (fun q => mkDisp (dtype d) q (stopped d) (exited d) (offered d) (accepted d ++ [n]) (delivered d))
    <$> try_send dispatchBuffer (queue d) n.

Definition drop_disp (d : disp) : disp :=
  mkDisp (dtype d) (try_recv (queue d)) (stopped d) (exited d) (offered d) (accepted d) (delivered d).

(** [report]: [select { case c.errc <- err: default: }], [None] for the default;
    a send on the closed channel panics. *)
Definition send_errc (e : error) (s : st) : option st :=
  if errc_closed s then Some (w_panicked true s)
  else (fun q => w_errc q s) <$> try_send errorBuffer (errc s) e.

(** [setConn] and [closeConn]. *)
Definition setConn (x : nat) (s : st) : st := w_conn (Some x) s.
Definition closeConn (s : st) : st :=
  match conn s with
  | None => s
  | Some x => w_live (live s ∖ {[x]}) (w_conn None s)
  end.

(** The last part of [Connect], under [mu], with the connection it dialled. *)
Definition Connect_install (x : nat) (s : st) : st :=
  if closed s then w_live (live s ∖ {[x]}) s
  else match conn s with
       | Some _ => w_live (live s ∖ {[x]}) s
       | None => w_conn (Some x) s
       end.

(** The parts of [Close]; closing a channel twice panics. *)
Definition mark_closed (s : st) : st := w_closer CMarked (w_closed true s).
Definition close_done (s : st) : st :=
  w_closer CSignalled (w_panicked (panicked s || done_closed s) (w_done true s)).
Definition close_take (ds : list nat) (s : st) : st :=
  w_closer (CTaken (conn s) ds) (w_handlers ∅ (w_conn None s)).
Definition close_conn (c : option nat) (ds : list nat) (s : st) : st :=
  w_closer (CStopping ds) (match c with Some x => w_live (live s ∖ {[x]}) s | None => s end).
Definition close_disp (d : nat) (ds : list nat) (s : st) : st :=
  w_closer (CStopping ds) (w_disps (alter stop_disp d (disps s)) s).
Definition close_errc (s : st) : st :=
  w_closer CDone (w_panicked (panicked s || errc_closed s) (w_errc_closed true s)).

(** A freshly dialled connection. *)
Definition dialled (x : nat) (s : st) : st := w_live ({[x]} ∪ live s) s.

Definition with_disp (d : nat) (dd : disp) (s : st) : st := w_disps (<[d := dd]> (disps s)) s.
Definition note_decoded (r : nat) (n : N) (s : st) : st := w_decoded (decoded s ++ [(r, n)]) s.

(** A step of the [Run] [r], from where it is to where it goes. Its context may
    end at any time. *)
Inductive run_step (r : nat) (s : st) : run_pc -> run_pc -> st -> Prop :=
  (** The top of the loop, and the dials. *)
  | run_closed : closed s = true -> run_step r s RTop RExit s
  | run_ctx : run_step r s RTop RExit s
  | run_current x : conn s = Some x -> run_step r s RTop (RReading x) s
  | run_no_conn : conn s = None -> run_step r s RTop (RDial false) s
  | run_dial again x : x ∉ live s -> run_step r s (RDial again) (RDialled x) (dialled x s)
  | run_dial_err e : run_step r s (RDial false) (RReport e ToTop) s
  | run_dial_stop again : run_step r s (RDial again) RExit s
  | run_set x : run_step r s (RDialled x) RTop (setConn x s)
  (** [readLoop]: a frame that does not verify or decode, a notification without
      and with a handler, and a read error, after which the connection is closed. *)
  | read_report x e : run_step r s (RReading x) (RReport e (ToRead x)) s
  | read_unhandled x n : handlers s !! ntype n = None ->
      run_step r s (RReading x) (RReading x) (note_decoded r n s)
  | read_lookup x n d dd : handlers s !! ntype n = Some d -> disps s !! d = Some dd ->
      run_step r s (RReading x) (RSend x d n)
        (with_disp d (offer_disp (r, n) dd) (note_decoded r n s))
  | read_err x : run_step r s (RReading x) RBroken (closeConn s)
  | broken_exit : run_step r s RBroken RExit s
  | broken_report e : closed s = false -> run_step r s RBroken (RReport e ToRedial) s
  (** The selects of [dispatch]. *)
  | send_ok x d n dd dd' : disps s !! d = Some dd -> send_disp (r, n) dd = Some dd' ->
      run_step r s (RSend x d n) (RReading x) (with_disp d dd' s)
  | send_full x d n dd : disps s !! d = Some dd -> send_disp (r, n) dd = None ->
      run_step r s (RSend x d n) (RFull x d n) s
  | send_drop x d n dd : disps s !! d = Some dd ->
      run_step r s (RFull x d n) (RResend x d n) (with_disp d (drop_disp dd) s)
  | resend_ok x d n dd dd' : disps s !! d = Some dd -> send_disp (r, n) dd = Some dd' ->
      run_step r s (RResend x d n) (RReading x) (with_disp d dd' s)
  | resend_lost x d n dd : disps s !! d = Some dd -> send_disp (r, n) dd = None ->
      run_step r s (RResend x d n) (RReading x) s
  (** [report]: the lock, the check of [closed], the selects, the unlock. *)
  | rep_lock e k : errcMu s = None -> run_step r s (RReport e k) (RLocked e k) (w_errcMu (Some r) s)
  | rep_closed e k : closed s = true -> run_step r s (RLocked e k) (RUnlock k) s
  | rep_open e k : closed s = false -> run_step r s (RLocked e k) (RErr e k) s
  | err_send e k s' : send_errc e s = Some s' -> run_step r s (RErr e k) (RUnlock k) s'
  | err_full e k : send_errc e s = None -> run_step r s (RErr e k) (RErrFull e k) s
  | err_drop e k : run_step r s (RErrFull e k) (RErrAgain e k) (w_errc (try_recv (errc s)) s)
  | err_resend e k s' : send_errc e s = Some s' -> run_step r s (RErrAgain e k) (RUnlock k) s'
  | err_lost e k : send_errc e s = None -> run_step r s (RErrAgain e k) (RUnlock k) s
  | rep_unlock k : run_step r s (RUnlock k) (resume k) (w_errcMu None s).

Definition set_run (r : nat) (p : run_pc) (s : st) : st := w_runs (<[r := p]> (runs s)) s.

Inductive step (s : st) : st -> Prop :=
  (** [SubscribeTypes] and [UnsubscribeTypes] from any goroutine. *)
  | step_subscribe t d : disps s !! d = None -> step s (SubscribeTypes t (Some d) s)
  | step_unsubscribe t : step s (SubscribeTypes t None s)
  (** A handler goroutine receives, or sees [stop]; [select] may choose either. *)
  | step_receive d dd :
      disps s !! d = Some dd -> exited dd = false -> queue dd <> [] ->
      step s (with_disp d (take_disp dd) s)
  | step_exit d dd :
      disps s !! d = Some dd -> exited dd = false -> stopped dd = true ->
      step s (with_disp d (exit_disp dd) s)
  (** The reader of [Errors], also after [Close]. *)
  | step_errors : step s (w_errc (try_recv (errc s)) s)
  (** [Connect]: the dial, then the installation. The connection is the
      goroutine's own between the two. *)
  | step_connect x : x ∉ live s -> step s (Connect_install x (dialled x s))
  (** [Close]; the last part takes [errcMu]. *)
  | step_close_begin : closer s = CIdle -> step s (mark_closed s)
  | step_close_done : closer s = CMarked -> step s (close_done s)
  | step_close_take ds :
      closer s = CSignalled -> ds ≡ₚ (map_to_list (handlers s)).*2 -> step s (close_take ds s)
  | step_close_conn c ds : closer s = CTaken c ds -> step s (close_conn c ds s)
  | step_close_disp d ds : closer s = CStopping (d :: ds) -> step s (close_disp d ds s)
  | step_close_errc : closer s = CStopping [] -> errcMu s = None -> step s (close_errc s)
  (** A new [Run], its goroutine that closes the connection when the context
      ends, and its steps. *)
  | step_run_start r : runs s !! r = None -> step s (set_run r RTop s)
  | step_ctx_done r : is_Some (runs s !! r) -> step s (closeConn s)
  | step_run r p p' s' :
      runs s !! r = Some p -> run_step r s p p' s' -> step s (set_run r p' s').

Inductive reachable : st -> Prop :=
  | reach_init : reachable init
  | reach_step s s' : reachable s -> step s s' -> reachable s'.

(** ** Channels are closed once and never sent to afterwards *)

(** The parts of [report] that hold [errcMu], and those that send. *)
Definition holds (p : run_pc) : bool :=
  match p with
  | RLocked _ _ | RErr _ _ | RErrFull _ _ | RErrAgain _ _ | RUnlock _ => true
  | _ => false
  end.
Definition sends_err (p : run_pc) : bool :=
  match p with RErr _ _ | RErrFull _ _ | RErrAgain _ _ => true | _ => false end.

Record chan_inv (s : st) : Prop := {
  ci_closed : closed s = false <-> closer s = CIdle;
  ci_done : done_closed s = false <-> closer s = CIdle \/ closer s = CMarked;
  ci_errc : errc_closed s = true <-> closer s = CDone;
  ci_panic : panicked s = false;
  ci_bound : (length (errc s) <= errorBuffer)%nat;
  ci_mu r p : runs s !! r = Some p -> holds p = true -> errcMu s = Some r;
  ci_open r p : runs s !! r = Some p -> sends_err p = true -> errc_closed s = false;
}.

(** What [chan_inv] is about, besides the queue of errors, the lock and the
    [Run]s. *)
Definition flags (s : st) : bool * bool * close_pc * bool * bool :=
  (closed s, done_closed s, closer s, errc_closed s, panicked s).

Lemma chan_frame s s' :
  flags s' = flags s -> errcMu s' = errcMu s -> runs s' = runs s ->
  (length (errc s') <= errorBuffer)%nat -> chan_inv s -> chan_inv s'.
Proof using Type.
  unfold flags. intros [= H1 H2 H3 H4 H5] H6 H7 Hb []. split; rewrite ?H1, ?H2, ?H3, ?H4, ?H5, ?H6, ?H7; done.
Qed.

(** A [Run] moves. *)
Lemma chan_move r p p' s s' :
  runs s !! r = Some p -> flags s' = flags s -> runs s' = runs s ->
  (length (errc s') <= errorBuffer)%nat ->
  (holds p' = true -> errcMu s' = Some r) ->
  (forall r', r' <> r -> errcMu s = Some r' -> errcMu s' = Some r') ->
  (sends_err p' = true -> errc_closed s = false) ->
  chan_inv s -> chan_inv (set_run r p' s').
Proof using Type.
  unfold flags. intros Hp [= H1 H2 H3 H4 H5] Hr Hb Hh Ho Hs [I1 I2 I3 I4 _ I6 I7].
  split; unfold set_run; simpl; rewrite ?H1, ?H2, ?H3, ?H4, ?H5; try done.
  - intros r' q Hq Hholds. rewrite Hr in Hq. apply lookup_insert_Some in Hq as [[<- <-] | [Hne Hq]]; eauto.
  - intros r' q Hq Hsend. rewrite Hr in Hq. apply lookup_insert_Some in Hq as [[<- <-] | [_ Hq]]; eauto.
Qed.

Lemma length_try_send {A} cap (q q' : list A) x : try_send cap q x = Some q' -> (length q' <= cap)%nat.
Proof using Type. unfold try_send. case_decide; intros [= <-]. rewrite length_app. simpl. lia. Qed.

Lemma send_errc_open e s s' : errc_closed s = false -> send_errc e s = Some s' ->
  exists q, s' = w_errc q s /\ (length q <= errorBuffer)%nat.
Proof using Type.
  unfold send_errc. intros -> Hs. apply fmap_Some in Hs as (q & Hq & ->). exists q. split; [done |].
  by eapply length_try_send.
Qed.

Lemma closeConn_chan s : chan_inv s -> chan_inv (closeConn s).
Proof using Type.
  intros Hi. pose proof (ci_bound s Hi). by apply (chan_frame s); unfold closeConn; destruct (conn s).
Qed.

Lemma run_chan r p p' s s' :
  runs s !! r = Some p -> run_step r s p p' s' -> chan_inv s -> chan_inv (set_run r p' s').
Proof using Type.
  intros Hp Hst Hi. pose proof (ci_bound s Hi) as Hb. pose proof (ci_mu s Hi r p Hp) as Hm.
  pose proof (ci_open s Hi r p Hp) as Ho.
  destruct Hst; simpl in Hm, Ho; try (apply (chan_move r _ _ s _ Hp); simpl; by auto).
  - apply (chan_move r _ _ s _ Hp); try (unfold closeConn; destruct (conn s)); done.
  - apply (chan_move r _ _ s _ Hp); simpl; [done..|congruence|done|done].
  - apply (chan_move r _ _ s _ Hp); simpl; auto. intros _.
    destruct (errc_closed s) eqn:He; [|done]. apply (ci_errc s Hi) in He.
    rewrite (ci_closed s Hi), He in H. done.
  - destruct (send_errc_open e s s' (Ho eq_refl) H) as (q & -> & Hq).
    apply (chan_move r _ _ s _ Hp); simpl; auto.
  - apply (chan_move r _ _ s _ Hp); simpl; auto. unfold try_recv. rewrite length_drop. lia.
  - destruct (send_errc_open e s s' (Ho eq_refl) H) as (q & -> & Hq).
    apply (chan_move r _ _ s _ Hp); simpl; auto.
  - apply (chan_move r _ _ s _ Hp); simpl; auto; [by destruct k |..| by destruct k].
    intros r' Hne He. rewrite (Hm eq_refl) in He. congruence.
Qed.

(** A step of [Close]. *)
Lemma chan_close s s' :
  errcMu s' = errcMu s -> runs s' = runs s -> errc s' = errc s ->
  (closed s' = false <-> closer s' = CIdle) ->
  (done_closed s' = false <-> closer s' = CIdle \/ closer s' = CMarked) ->
  (errc_closed s' = true <-> closer s' = CDone) -> panicked s' = false ->
  (errcMu s = None \/ errc_closed s' = errc_closed s) -> chan_inv s -> chan_inv s'.
Proof using Type.
  intros Hm Hr He H1 H2 H3 H4 H5 [I1 I2 I3 I4 I5 I6 I7]. split; rewrite ?Hm, ?Hr, ?He; try done.
  intros r p Hp Hs. destruct H5 as [H5 | ->]; [|by eapply I7].
  assert (Hh : holds p = true) by (by destruct p). specialize (I6 r p Hp Hh). congruence.
Qed.

Lemma chan_step s s' : step s s' -> chan_inv s -> chan_inv s'.
Proof using Type.
  intros Hst Hi. pose proof Hi as [I1 I2 I3 I4 I5 I6 I7].
  destruct Hst; try (by eapply run_chan); try (by apply closeConn_chan);
    try (by apply (chan_frame s); unfold SubscribeTypes, Connect_install; repeat case_match).
  - apply (chan_frame s); try done. simpl. unfold try_recv. rewrite length_drop. lia.
  - apply (chan_close s); simpl; auto; rewrite H in *; [split; done | intuition | by rewrite I3].
  - apply (chan_close s); simpl; auto; rewrite H in *.
    + by rewrite I1.
    + split; [done | intros [?|?]; done].
    + by rewrite I3.
    + rewrite I4, (proj2 I2) by auto. done.
  - apply (chan_close s); simpl; auto; rewrite H in *; [by rewrite I1 | | by rewrite I3].
    rewrite I2. split; intros [?|?]; done.
  - destruct c; apply (chan_close s); simpl; auto; rewrite H in *; try (by rewrite I1); try (by rewrite I3);
      rewrite I2; split; intros [?|?]; done.
  - apply (chan_close s); simpl; auto; rewrite H in *; [by rewrite I1 | | by rewrite I3].
    rewrite I2. split; intros [?|?]; done.
  - apply (chan_close s); simpl; auto; rewrite H in *; [by rewrite I1 | | done |].
    + rewrite I2. split; intros [?|?]; done.
    + rewrite I4. destruct (errc_closed s); [by destruct I3 as [I3 _]; specialize (I3 eq_refl) | done].
  - split; unfold set_run; simpl; try done; intros r' p Hp Hq;
      apply lookup_insert_Some in Hp as [[<- <-] | [_ Hp]]; eauto; done.
Qed.

(** ** The registered handlers and the dispatchers [Close] stops *)

(** The dispatchers [Close] has taken and not yet stopped. *)
Definition closing (s : st) : list nat :=
  match closer s with CTaken _ ds | CStopping ds => ds | _ => [] end.

(** [Close] has emptied the registry. *)
Definition taken (k : close_pc) : bool :=
  match k with CTaken _ _ | CStopping _ | CDone => true | _ => false end.

Definition shape (d : disp) : Z * bool := (dtype d, stopped d).
Definition shapes (s : st) (d : nat) : option (Z * bool) := shape <$> disps s !! d.

Record reg_inv (s : st) : Prop := {
  ri_handlers t d : handlers s !! t = Some d -> exists b, shapes s d = Some (t, b);
  ri_live t d : shapes s d = Some (t, false) -> handlers s !! t = Some d \/ d ∈ closing s;
  ri_taken : taken (closer s) = true -> handlers s = ∅;
  ri_marked : closed s = false -> closer s = CIdle;
}.

Lemma reg_frame s s' :
  (forall d, shapes s' d = shapes s d) -> handlers s' = handlers s -> closing s' = closing s ->
  (taken (closer s') = true -> taken (closer s) = true) ->
  (closed s' = false -> closer s' = CIdle) -> reg_inv s -> reg_inv s'.
Proof using Type.
  intros H1 H2 H3 H4 H5 [I1 I2 I3 I4]. split; try done.
  - intros t d. rewrite H1, H2. apply I1.
  - intros t d. rewrite H1, H2, H3. apply I2.
  - rewrite H2. auto.
Qed.

(** A step that leaves [Close] and the handlers alone. *)
Lemma reg_keep s s' :
  (forall d, shapes s' d = shapes s d) -> handlers s' = handlers s -> closer s' = closer s ->
  closed s' = closed s -> reg_inv s -> reg_inv s'.
Proof using Type.
  intros H1 H2 H3 H4 Hi. apply (reg_frame s); try done; unfold closing; rewrite ?H3, ?H4; try done.
  apply Hi.
Qed.

Lemma shapes_with d dd dd' s : disps s !! d = Some dd -> shape dd' = shape dd ->
  forall d', shapes (with_disp d dd' s) d' = shapes s d'.
Proof using Type.
  intros Hd Hs d'. unfold shapes, with_disp. simpl. destruct (decide (d' = d)) as [->|].
  - rewrite lookup_insert_eq, Hd. simpl. by rewrite Hs.
  - by rewrite lookup_insert_ne.
Qed.

Lemma shapes_stop d s d' :
  shapes (w_disps (alter stop_disp d (disps s)) s) d' =
  if decide (d' = d) then (fun x => (fst x, true)) <$> shapes s d' else shapes s d'.
Proof using Type.
  unfold shapes. simpl. case_decide; subst.
  - rewrite lookup_alter_eq. by destruct (disps s !! d).
  - by rewrite lookup_alter_ne.
Qed.

Lemma shapes_new d t s d' :
  shapes (with_disp d (mkDisp t [] false false [] [] []) s) d' =
  if decide (d' = d) then Some (t, false) else shapes s d'.
Proof using Type.
  unfold shapes, with_disp. simpl. case_decide; subst; [by rewrite lookup_insert_eq | by rewrite lookup_insert_ne].
Qed.

Lemma reg_stop s d ds :
  closer s = CStopping (d :: ds) -> reg_inv s -> reg_inv (close_disp d ds s).
Proof using Type.
  intros Hc [I1 I2 I3 I4]. unfold closing in I2. rewrite Hc in *.
  assert (Hsh : forall d', shapes (close_disp d ds s) d' =
    if decide (d' = d) then (fun x => (fst x, true)) <$> shapes s d' else shapes s d') by apply shapes_stop.
  split; simpl; try done.
  - intros t e He. rewrite Hsh. destruct (I1 t e He) as [b ->]. case_decide; simpl; eauto.
  - intros t e. rewrite Hsh. case_decide as Hd.
    + destruct (shapes s e); simpl; [congruence | done].
    + intros Hs. destruct (I2 t e Hs) as [Hh | Hin]; [by left | right].
      apply elem_of_cons in Hin as [-> | Hin]; done.
  - intros Ha. by specialize (I4 Ha).
Qed.

(** [SubscribeTypes] first stops and forgets the old dispatcher of the type. *)
Definition drop_handler (t : Z) (s : st) : st :=
  match handlers s !! t with
  | Some old => w_handlers (delete t (handlers s)) (w_disps (alter stop_disp old (disps s)) s)
  | None => s
  end.

Lemma drop_handler_reg t s :
  reg_inv s -> reg_inv (drop_handler t s) /\ handlers (drop_handler t s) !! t = None.
Proof using Type.
  intros Hi. pose proof Hi as [I1 I2 I3 I4]. unfold drop_handler.
  destruct (handlers s !! t) as [old|] eqn:Ht; [|done].
  destruct (I1 t old Ht) as [b Hold]. split; [|by apply lookup_delete_eq].
  assert (Hsh : forall d', shapes (w_handlers (delete t (handlers s)) (w_disps (alter stop_disp old (disps s)) s)) d' =
    if decide (d' = old) then (fun x => (fst x, true)) <$> shapes s d' else shapes s d') by apply shapes_stop.
  split; simpl; try done.
  - intros t' e. rewrite lookup_delete_Some. intros [Hne He]. rewrite Hsh.
    destruct (I1 t' e He) as [b' ->]. case_decide; simpl; eauto.
  - intros t' e. rewrite Hsh. case_decide as Hd.
    + destruct (shapes s e); simpl; [congruence | done].
    + intros Hs. destruct (I2 t' e Hs) as [Hh | Hin]; [left | by right].
      rewrite lookup_delete_ne; congruence.
  - intros Hk. rewrite I3 by done. by rewrite delete_empty.
Qed.

Lemma add_handler_reg t d s :
  closed s = false -> handlers s !! t = None -> disps s !! d = None -> reg_inv s ->
  reg_inv (w_handlers (<[t := d]> (handlers s)) (with_disp d (mkDisp t [] false false [] [] []) s)).
Proof using Type.
  intros Ha Ht Hd [I1 I2 I3 I4]. assert (Hk : closer s = CIdle) by auto.
  pose proof (shapes_new d t s) as Hsh. split; simpl; try done.
  - intros t' e. rewrite lookup_insert_Some. change (shapes (w_handlers _ ?x)) with (shapes x).
    rewrite Hsh. intros [[<- <-] | [Hne He]]; [rewrite decide_True by done; eauto |].
    case_decide; subst; [|by apply I1]. destruct (I1 t' d He) as [b Hb].
    unfold shapes in Hb. by rewrite Hd in Hb.
  - intros t' e. change (shapes (w_handlers _ ?x)) with (shapes x). rewrite Hsh. case_decide as He.
    + intros [= <-]. left. subst. by rewrite lookup_insert_eq.
    + intros Hs. destruct (I2 t' e Hs) as [Hh | Hin]; [left | by right].
      rewrite lookup_insert_ne; congruence.
  - by rewrite Hk.
Qed.

Lemma SubscribeTypes_reg t f s :
  (forall d, f = Some d -> disps s !! d = None) -> reg_inv s -> reg_inv (SubscribeTypes t f s).
Proof using Type.
  intros Hf Hi. unfold SubscribeTypes. destruct (closed s) eqn:Hc; [done |].
  fold (drop_handler t s). destruct (drop_handler_reg t s Hi) as (Hi' & Ht).
  destruct f as [d|]; [|done]. apply add_handler_reg; try done; unfold drop_handler.
  - by destruct (handlers s !! t).
  - destruct (handlers s !! t); simpl; [rewrite lookup_alter_None |]; auto.
Qed.

Lemma closeConn_reg s : reg_inv s -> reg_inv (closeConn s).
Proof using Type. intros Hi. apply (reg_keep s); unfold closeConn; by destruct (conn s). Qed.

Lemma run_reg r p p' s s' : run_step r s p p' s' -> reg_inv s -> reg_inv (set_run r p' s').
Proof using Type.
  intros Hst Hi. apply (reg_keep s); try done;
    destruct Hst; try done; try (by unfold closeConn; destruct (conn s));
    try (unfold send_errc in *; repeat case_match; simplify_option_eq; done).
  all: intros d'; unfold set_run, note_decoded; change (shapes (w_runs _ ?x)) with (shapes x).
  - exact (shapes_with d dd (offer_disp (r, n) dd) (note_decoded r n s) H0 eq_refl d').
  - unfold send_disp in *. simplify_option_eq. by eapply shapes_with.
  - by eapply shapes_with.
  - unfold send_disp in *. simplify_option_eq. by eapply shapes_with.
Qed.

Lemma reg_step s s' : step s s' -> reg_inv s -> reg_inv s'.
Proof using Type.
  intros Hst Hi. pose proof Hi as [I1 I2 I3 I4].
  destruct Hst; try (by eapply run_reg); try (by apply closeConn_reg); try (by apply (reg_keep s)).
  - apply SubscribeTypes_reg; [|done]. by intros ? [= <-].
  - by apply SubscribeTypes_reg.
  - apply (reg_keep s); try done. eapply shapes_with; [done |]. unfold take_disp. by destruct (queue dd).
  - apply (reg_keep s); try done. by eapply shapes_with.
  - apply (reg_keep s); unfold Connect_install; repeat case_match; done.
  - apply (reg_frame s); unfold closing; simpl; rewrite ?H; done.
  - apply (reg_frame s); unfold closing; simpl; rewrite ?H; try done. intros Hx. specialize (I4 Hx). congruence.
  - unfold closing in I2. rewrite H in I2. split; simpl; try done.
    + intros t d Hs. right. change (d ∈ ds). rewrite H0. destruct (I2 t d Hs) as [Hh | Hin]; [|set_solver].
      apply list_elem_of_fmap. exists (t, d). split; [done |]. by apply elem_of_map_to_list.
    + intros Hx. specialize (I4 Hx). congruence.
  - destruct c; apply (reg_frame s); unfold closing; simpl; rewrite ?H; try done; intros Hx; specialize (I4 Hx); congruence.
  - by apply reg_stop.
  - apply (reg_frame s); unfold closing; simpl; rewrite ?H; try done; intros Hx; specialize (I4 Hx); congruence.
Qed.

(** ** What goes through a dispatcher *)

(** The notifications of one [Run]. *)
Definition of_run (r : nat) (l : list (nat * N)) : list (nat * N) := filter (fun x => fst x = r) l.

Lemma of_run_app r l l' : of_run r (l ++ l') = of_run r l ++ of_run r l'.
Proof using Type. apply filter_app. Qed.

Lemma of_run_same r n : of_run r [(r, n)] = [(r, n)].
Proof using Type. unfold of_run. by rewrite filter_cons_True. Qed.

Lemma of_run_other r r' n : r' <> r -> of_run r' [(r, n)] = [].
Proof using Type. intros Hne. unfold of_run. rewrite filter_cons_False; [done |]. simpl. congruence. Qed.

Lemma of_run_sublist r l l' : l `sublist_of` l' -> of_run r l `sublist_of` of_run r l'.
Proof using Type.
  unfold of_run. induction 1 as [|x l l' _ IH|x l l' _ IH]; [constructor | |]; rewrite !filter_cons.
  - case_decide; [by apply sublist_skip | done].
  - case_decide; [by apply sublist_cons | done].
Qed.

(** What [dispatch] has in its hands for the dispatcher [d], and whether it has
    just made room. *)
Definition flying (r d : nat) (p : run_pc) : list (nat * N) :=
  match p with
  | RSend _ d' n | RFull _ d' n | RResend _ d' n => if decide (d' = d) then [(r, n)] else []
  | _ => []
  end.
Definition resending (d : nat) (p : run_pc) : bool :=
  match p with RResend _ d' _ => bool_decide (d' = d) | _ => false end.

Definition flight (s : st) (d r : nat) : list (nat * N) := from_option (flying r d) [] (runs s !! r).
Definition room (s : st) (d r : nat) : bool := from_option (resending d) false (runs s !! r).

(** No [Run] but [r] was ever started. *)
Definition alone (r : nat) (s : st) : Prop := forall r', is_Some (runs s !! r') -> r' = r.

(** One dispatcher: bounded, offered its own type only, its queue the newest
    values accepted; what was handled is in the order it was accepted, and for
    each [Run] in the order it dispatched. With a single [Run] everything offered
    is accepted, but for what is still in its hands. *)
Record disp_ok (dec : list (nat * N)) (fl : nat -> list (nat * N)) (re : nat -> bool)
    (al : nat -> Prop) (d : disp) : Prop := {
  do_bound : (length (queue d) <= dispatchBuffer)%nat;
  do_type : Forall (fun x => ntype (snd x) = dtype d) (offered d);
  do_offered : offered d `sublist_of` dec;
  do_queue : queue d `suffix_of` accepted d;
  do_order : (delivered d ++ queue d) `sublist_of` accepted d;
  do_run r : (of_run r (accepted d) ++ fl r) `sublist_of` of_run r (offered d);
  do_alone r : al r -> accepted d ++ fl r = offered d
    /\ (re r = true -> (length (queue d) < dispatchBuffer)%nat);
}.

Definition content (d : disp) : Z * list (nat * N) * list (nat * N) * list (nat * N) * list (nat * N) :=
  (dtype d, queue d, offered d, accepted d, delivered d).

Lemma disp_ok_mono dec dec' fl fl' re re' (al al' : nat -> Prop) d d' :
  dec `sublist_of` dec' -> (forall r, fl' r = fl r) -> (forall r, re' r = true -> re r = true) ->
  (forall r, al' r -> al r) -> content d' = content d ->
  disp_ok dec fl re al d -> disp_ok dec' fl' re' al' d'.
Proof using Type.
  unfold content. intros Hdec Hfl Hre Hal [= H1 H2 H3 H4 H5] [I1 I2 I3 I4 I5 I6 I7].
  split; rewrite ?H1, ?H2, ?H3, ?H4, ?H5; try done.
  - by etrans.
  - intros r. by rewrite Hfl.
  - intros r Ha. rewrite Hfl. destruct (I7 r (Hal r Ha)) as [? Hr]. split; auto.
Qed.

Lemma ok_receive dec fl re al d : disp_ok dec fl re al d -> disp_ok dec fl re al (take_disp d).
Proof using Type.
  intros Hi. unfold take_disp. destruct (queue d) as [|n q] eqn:E; [done |].
  destruct Hi as [I1 I2 I3 I4 I5 I6 I7]. rewrite E in *. split; simpl in *; try done.
  - lia.
  - etrans; [|exact I4]. by exists [n].
  - by rewrite <- app_assoc.
  - intros r Ha. destruct (I7 r Ha) as [? Hr]. split; [done |]. intros Hre. specialize (Hr Hre). lia.
Qed.

Section one_run.
Context (dec : list (nat * N)) (fl fl' : nat -> list (nat * N)) (re re' : nat -> bool)
  (al al' : nat -> Prop) (r : nat) (n : N) (d : disp).
Hypotheses (Hother : forall r', r' <> r -> fl' r' = fl r') (Hal : forall r', al' r' -> al r' /\ r' = r)
  (Hok : disp_ok dec fl re al d).

Lemma ok_lookup :
  fl r = [] -> fl' r = [(r, n)] -> re' r = false -> ntype n = dtype d ->
  disp_ok (dec ++ [(r, n)]) fl' re' al' (offer_disp (r, n) d).
Proof using Hother Hal Hok.
  intros Hf Hf' Hre Hn. destruct Hok as [I1 I2 I3 I4 I5 I6 I7]. split; simpl; try done.
  - apply Forall_app. split; [done | by apply Forall_singleton].
  - by apply sublist_app.
  - intros r'. rewrite of_run_app. destruct (decide (r' = r)) as [->|Hne].
    + rewrite Hf', of_run_same. apply sublist_app; [|done]. specialize (I6 r). by rewrite Hf, app_nil_r in I6.
    + rewrite (Hother r' Hne), of_run_other, app_nil_r by done. apply I6.
  - intros r' Ha. destruct (Hal r' Ha) as [Ha' ->]. rewrite Hf', Hre. split; [|done].
    destruct (I7 r Ha') as [Heq _]. rewrite Hf, app_nil_r in Heq. by rewrite Heq.
Qed.

Lemma ok_accept d' :
  send_disp (r, n) d = Some d' -> fl r = [(r, n)] -> fl' r = [] -> re' r = false ->
  disp_ok dec fl' re' al' d'.
Proof using Hother Hal Hok.
  unfold send_disp. intros (q & Hq & ->)%fmap_Some Hf Hf' Hre. destruct Hok as [I1 I2 I3 I4 I5 I6 I7].
  pose proof (length_try_send _ _ _ _ Hq) as Hl. unfold try_send in Hq.
  case_decide; simplify_eq. split; simpl; try done.
  - by apply suffix_app.
  - rewrite app_assoc. by apply sublist_app.
  - intros r'. rewrite of_run_app. destruct (decide (r' = r)) as [->|Hne].
    + rewrite Hf', of_run_same, app_nil_r. specialize (I6 r). by rewrite Hf in I6.
    + rewrite (Hother r' Hne), of_run_other, app_nil_r by done. apply I6.
  - intros r' Ha. destruct (Hal r' Ha) as [Ha' ->]. rewrite Hf', Hre, app_nil_r. split; [|done].
    destruct (I7 r Ha') as [Heq _]. by rewrite Hf in Heq.
Qed.

Lemma ok_drop : fl' r = fl r -> disp_ok dec fl' re' al' (drop_disp d).
Proof using Hother Hal Hok.
  intros Hf. destruct Hok as [I1 I2 I3 I4 I5 I6 I7]. unfold try_recv in *.
  assert (Hs : drop 1 (queue d) `suffix_of` queue d) by apply suffix_drop.
  split; simpl; try done; unfold try_recv.
  - rewrite length_drop. lia.
  - by etrans.
  - etrans; [|exact I5]. apply sublist_app; [done | apply sublist_drop].
  - intros r'. destruct (decide (r' = r)) as [->|Hne]; [rewrite Hf | rewrite (Hother r' Hne)]; apply I6.
  - intros r' Ha. destruct (Hal r' Ha) as [Ha' ->]. rewrite Hf. split; [by apply I7 |]. intros _.
    rewrite length_drop. unfold dispatchBuffer in *. lia.
Qed.

Lemma ok_refuse :
  send_disp (r, n) d = None -> re r = true -> fl r = [(r, n)] -> fl' r = [] -> disp_ok dec fl' re' al' d.
Proof using Hother Hal Hok.
  unfold send_disp, try_send. intros Hs Hre Hf Hf'. case_decide as Hlen; [done |].
  destruct Hok as [I1 I2 I3 I4 I5 I6 I7]. split; simpl; try done.
  - intros r'. destruct (decide (r' = r)) as [->|Hne]; [|rewrite (Hother r' Hne); apply I6].
    rewrite Hf'. etrans; [|apply (I6 r)]. rewrite app_nil_r. by apply sublist_inserts_r.
  - intros r' Ha. destruct (Hal r' Ha) as [Ha' ->]. destruct (I7 r Ha') as [_ Hr]. by specialize (Hr Hre).
Qed.
End one_run.

Record queue_inv (s : st) : Prop := {
  qi_ok d dd : disps s !! d = Some dd ->
    disp_ok (decoded s) (flight s d) (room s d) (fun r => alone r s) dd;
  qi_exists d r : flight s d r <> [] -> is_Some (disps s !! d);
}.

Lemma alone_back s s' r : dom (runs s) ⊆ dom (runs s') -> alone r s' -> alone r s.
Proof using Type. intros Hd Ha r' Hr. apply Ha. rewrite <- !elem_of_dom in *. set_solver. Qed.

(** A step that changes no queue, and after which nothing else is in the hands of
    [dispatch]. *)
Lemma queue_frame s s' :
  (forall d, content <$> disps s' !! d = content <$> disps s !! d) ->
  (forall d r, flight s' d r = flight s d r) ->
  (forall d r, room s' d r = true -> room s d r = true) ->
  dom (runs s) ⊆ dom (runs s') -> decoded s `sublist_of` decoded s' -> queue_inv s -> queue_inv s'.
Proof using Type.
  intros Hc Hf Hr Hd Hdec [I1 I2]. split.
  - intros d dd Hdd. specialize (Hc d). rewrite Hdd in Hc. symmetry in Hc.
    apply fmap_Some in Hc as (dd0 & Hdd0 & Heq).
    eapply disp_ok_mono; [exact Hdec | apply Hf | apply Hr | | exact Heq | by apply I1].
    intros r. by apply alone_back.
  - intros d r. rewrite Hf. intros Hne. destruct (I2 d r Hne) as [dd Hdd]. specialize (Hc d).
    rewrite Hdd in Hc. apply fmap_Some in Hc as (dd' & -> & _). done.
Qed.

Lemma queue_same s s' :
  (forall d, content <$> disps s' !! d = content <$> disps s !! d) -> runs s' = runs s ->
  decoded s' = decoded s -> queue_inv s -> queue_inv s'.
Proof using Type.
  intros Hc Hr Hd. apply queue_frame; unfold flight, room; by rewrite ?Hr, ?Hd.
Qed.

Lemma flight_set r p s d r' :
  flight (set_run r p s) d r' = if decide (r' = r) then flying r d p else flight s d r'.
Proof using Type.
  unfold flight, set_run. simpl. case_decide; subst; [by rewrite lookup_insert_eq | by rewrite lookup_insert_ne].
Qed.

Lemma room_set r p s d r' :
  room (set_run r p s) d r' = if decide (r' = r) then resending d p else room s d r'.
Proof using Type.
  unfold room, set_run. simpl. case_decide; subst; [by rewrite lookup_insert_eq | by rewrite lookup_insert_ne].
Qed.

(** A [Run] moves without touching a queue. *)
Lemma queue_move r p p' s s' :
  runs s !! r = Some p -> disps s' = disps s -> runs s' = runs s -> decoded s `sublist_of` decoded s' ->
  (forall d, flying r d p' = flying r d p) -> (forall d, resending d p' = true -> resending d p = true) ->
  queue_inv s -> queue_inv (set_run r p' s').
Proof using Type.
  intros Hp Hd Hr Hdec Hf Hre. apply queue_frame; simpl; try done.
  - by rewrite Hd.
  - intros d r'. rewrite flight_set. unfold flight. rewrite Hr. case_decide; subst; [by rewrite Hp | done].
  - intros d r'. rewrite room_set. unfold room. rewrite Hr. case_decide; subst; [rewrite Hp; apply Hre | done].
  - rewrite Hr. set_solver.
Qed.

(** A [Run] in [dispatch] works on one dispatcher. *)
Lemma queue_update r p p' d dd dd' s s' :
  runs s !! r = Some p -> disps s !! d = Some dd -> disps s' = <[d := dd']> (disps s) ->
  runs s' = runs s -> decoded s `sublist_of` decoded s' ->
  (forall d', d' <> d -> flying r d' p' = flying r d' p) ->
  (forall d', d' <> d -> resending d' p' = true -> resending d' p = true) ->
  disp_ok (decoded s') (flight (set_run r p' s') d) (room (set_run r p' s') d)
    (fun r' => alone r' (set_run r p' s')) dd' ->
  queue_inv s -> queue_inv (set_run r p' s').
Proof using Type.
  intros Hp Hd Hds Hr Hdec Hf Hre Hok [I1 I2]. split; simpl.
  - intros d' x. rewrite Hds. rewrite lookup_insert_Some. intros [[<- <-] | [Hne Hx]]; [done |].
    eapply disp_ok_mono; [exact Hdec | | | | reflexivity | by apply I1].
    + intros r'. rewrite flight_set. unfold flight. rewrite Hr. case_decide; subst; [by rewrite Hp, Hf | done].
    + intros r'. rewrite room_set. unfold room. rewrite Hr. case_decide; subst; [rewrite Hp; by apply Hre | done].
    + intros r'. apply alone_back. simpl. rewrite Hr. set_solver.
  - intros d' r' Hne. rewrite Hds. destruct (decide (d' = d)) as [->|Hdd]; [by rewrite lookup_insert_eq |].
    rewrite lookup_insert_ne by done. apply (I2 d' r'). revert Hne. rewrite flight_set. unfold flight. rewrite Hr.
    case_decide; subst; [by rewrite Hp, Hf | done].
Qed.

Lemma alone_running r p p' s s' :
  runs s !! r = Some p -> runs s' = runs s ->
  forall r', alone r' (set_run r p' s') -> alone r' s /\ r' = r.
Proof using Type.
  intros Hp Hr r' Ha. split.
  - eapply alone_back; [|exact Ha]. simpl. rewrite Hr. set_solver.
  - symmetry. apply Ha. exists p'. apply lookup_insert_eq.
Qed.

Lemma closeConn_queue s : queue_inv s -> queue_inv (closeConn s).
Proof using Type. apply queue_same; unfold closeConn; by destruct (conn s). Qed.

Ltac elsewhere := intros d' Hne; simpl; rewrite ?decide_False, ?bool_decide_false by congruence; done.
Ltac here := intros; rewrite ?flight_set, ?room_set; rewrite ?decide_True, ?decide_False by done; simpl;
  rewrite ?decide_True by done; try done.

Lemma run_queue r p p' s s' :
  runs s !! r = Some p -> run_step r s p p' s' -> reg_inv s -> queue_inv s -> queue_inv (set_run r p' s').
Proof using Type.
  intros Hp Hst Hreg Hi.
  assert (Hfl : forall d, flight s d r = flying r d p) by (intros d; unfold flight; by rewrite Hp).
  assert (Hro : forall d, room s d r = resending d p) by (intros d; unfold room; by rewrite Hp).
  destruct Hst; try (apply (queue_move r _ _ s _ Hp); done).
  - apply (queue_move r _ _ s _ Hp); try done. simpl. by apply sublist_inserts_r.
  - eapply (queue_update r _ _ d dd _ s _ Hp H0); try done; [simpl; by apply sublist_inserts_r | elsewhere |].
    eapply (ok_lookup _ (flight s d) _ (room s d) _ (fun r' => alone r' s));
      [here | by eapply (alone_running r _ _ s) | by apply Hi | by rewrite Hfl | here | here |].
    destruct (ri_handlers s Hreg _ _ H) as [b Hb]. unfold shapes in Hb. rewrite H0 in Hb. by injection Hb.
  - apply (queue_move r _ _ s _ Hp); try (unfold closeConn; destruct (conn s)); done.
  - eapply (queue_update r _ _ d dd _ s _ Hp H); try done; [elsewhere |].
    eapply (ok_accept _ (flight s d) _ (room s d) _ (fun r' => alone r' s) _ r n dd);
      [here | by eapply (alone_running r _ _ s) | by apply Hi | done | rewrite Hfl; here | here | here].
  - eapply (queue_update r _ _ d dd _ s _ Hp H); try done; [elsewhere |].
    eapply (ok_drop _ (flight s d) _ (room s d) _ (fun r' => alone r' s) _ r dd);
      [here | by eapply (alone_running r _ _ s) | by apply Hi | rewrite Hfl; here].
  - eapply (queue_update r _ _ d dd _ s _ Hp H); try done; [elsewhere |].
    eapply (ok_accept _ (flight s d) _ (room s d) _ (fun r' => alone r' s) _ r n dd);
      [here | by eapply (alone_running r _ _ s) | by apply Hi | done | rewrite Hfl; here | here | here].
  - eapply (queue_update r _ _ d dd dd s _ Hp H); try done; [by rewrite insert_id | elsewhere |].
    eapply (ok_refuse _ (flight s d) _ (room s d) _ (fun r' => alone r' s) _ r n dd);
      [here | by eapply (alone_running r _ _ s) | by apply Hi | done | rewrite Hro; simpl; by apply bool_decide_true | rewrite Hfl; here | here].
  - destruct (errc_closed s) eqn:He; unfold send_errc in H; rewrite He in H; simplify_option_eq;
      by apply (queue_move r _ _ s _ Hp).
  - destruct (errc_closed s) eqn:He; unfold send_errc in H; rewrite He in H; simplify_option_eq;
      by apply (queue_move r _ _ s _ Hp).
  - apply (queue_move r _ _ s _ Hp); destruct k; done.
Qed.

Lemma content_stop d s d' : content <$> alter stop_disp d (disps s) !! d' = content <$> disps s !! d'.
Proof using Type.
  destruct (decide (d' = d)) as [->|]; [|by rewrite lookup_alter_ne].
  rewrite lookup_alter_eq. by destruct (disps s !! d).
Qed.

Lemma content_with d dd dd' s : disps s !! d = Some dd -> content dd' = content dd ->
  forall d', content <$> disps (with_disp d dd' s) !! d' = content <$> disps s !! d'.
Proof using Type.
  intros Hd Hc d'. simpl. destruct (decide (d' = d)) as [->|]; [|by rewrite lookup_insert_ne].
  rewrite lookup_insert_eq, Hd. simpl. by rewrite Hc.
Qed.

(** A new dispatcher: nothing was in the hands of [dispatch] for it. *)
Lemma queue_fresh t d s :
  disps s !! d = None -> queue_inv s -> queue_inv (with_disp d (mkDisp t [] false false [] [] []) s).
Proof using Type.
  intros Hd [I1 I2]. assert (Hf : forall r, flight s d r = []).
  { intros r. destruct (flight s d r) eqn:E; [done |]. destruct (I2 d r) as [x Hx]; [by rewrite E | congruence]. }
  split.
  - intros d' dd. simpl. rewrite lookup_insert_Some. intros [[<- <-] | [Hne Hdd]]; [|by apply I1].
    assert (Hfl : forall r, flight (with_disp d (mkDisp t [] false false [] [] []) s) d r = []) by exact Hf.
    split; simpl; try done.
    + unfold dispatchBuffer. lia.
    + apply sublist_nil_l.
    + intros r. by rewrite Hfl.
    + intros r _. rewrite Hfl. split; [done |]. unfold dispatchBuffer. lia.
  - intros d' r Hne. simpl. destruct (decide (d' = d)) as [->|]; [by rewrite lookup_insert_eq |].
    rewrite lookup_insert_ne by done. by apply (I2 d' r).
Qed.

Lemma SubscribeTypes_queue t f s :
  (forall d, f = Some d -> disps s !! d = None) -> queue_inv s -> queue_inv (SubscribeTypes t f s).
Proof using Type.
  intros Hf Hi. unfold SubscribeTypes. destruct (closed s) eqn:Hc; [done |].
  fold (drop_handler t s). assert (Hd : queue_inv (drop_handler t s)).
  { unfold drop_handler. destruct (handlers s !! t) as [old|]; [|done].
    apply (queue_same s); try done. intros d. apply content_stop. }
  destruct f as [d|]; [|done]. apply (queue_same (with_disp d (mkDisp t [] false false [] [] []) (drop_handler t s))); try done.
  apply queue_fresh; [|done]. unfold drop_handler.
  destruct (handlers s !! t); simpl; [rewrite lookup_alter_None |]; auto.
Qed.

Lemma queue_step s s' : step s s' -> reg_inv s -> queue_inv s -> queue_inv s'.
Proof using Type.
  intros Hst Hreg Hi. destruct Hst; try (by eapply run_queue); try (by apply closeConn_queue);
    try (by apply (queue_same s)).
  - apply SubscribeTypes_queue; [|done]. by intros ? [= <-].
  - by apply SubscribeTypes_queue.
  - destruct Hi as [I1 I2]. split; simpl.
    + intros d' x. rewrite lookup_insert_Some. intros [[<- <-] | [_ Hx]]; [|by apply I1].
      by apply ok_receive, I1.
    + intros d' r Hne. destruct (decide (d' = d)) as [->|]; [by rewrite lookup_insert_eq |].
      rewrite lookup_insert_ne by done. by apply (I2 d' r).
  - apply (queue_same s); try done. by apply content_with with dd.
  - apply (queue_same s); unfold Connect_install; repeat case_match; done.
  - destruct c; by apply (queue_same s).
  - apply (queue_same s); try done. apply content_stop.
  - apply (queue_frame s); try done.
    + intros d r'. rewrite flight_set. unfold flight. case_decide; subst; [by rewrite H | done].
    + intros d r'. rewrite room_set. by case_decide.
    + simpl. set_solver.
Qed.

Lemma push_reachable_inv s : reachable s -> chan_inv s /\ reg_inv s /\ queue_inv s.
Proof using Type.
  induction 1 as [|s s' _ (IH1 & IH2 & IH3) Hs].
  - split; [|split]; split; simpl; try done; try (unfold errorBuffer; lia); try (by intuition).
  - split; [by apply (chan_step s) |]. split; [by apply (reg_step s) | by apply (queue_step s)].
Qed.
End conc.
Arguments st N : clear implicits.
Arguments disp N : clear implicits.

(** C8: in every interleaving of the client's goroutines, with any number of
    [Run]s, nothing is sent to the error channel after [Close] has closed it and
    no channel is closed twice; the error channel holds at most 16 errors and
    every dispatcher at most 64 notifications. *)
Theorem push_no_panic {N} (ntype : N -> Z) (s : st N) :
  reachable ntype s ->
  panicked s = false /\ (length (errc s) <= errorBuffer)%nat
  /\ forall d dd, disps s !! d = Some dd -> (length (queue dd) <= dispatchBuffer)%nat.
Proof.
  intros (Hc & _ & Hq)%push_reachable_inv. split; [apply Hc |]. split; [apply Hc |].
  intros d dd Hdd. apply (qi_ok _ _ Hq d dd Hdd).
Qed.

(** C13: what a handler has received, followed by what is queued for it, is of
    the type it subscribed to and, for each [Run], in the order that [Run] decoded
    it and none twice (between two [Run]s no order is kept); it is also in the
    order the channel accepted it, and the queue is the newest part of that: an
    overflow discards the oldest. When only one [Run] was ever started, everything
    [dispatch] was given for the handler has been accepted, but for the one it is
    working on. *)
Theorem push_delivery_order {N} (ntype : N -> Z) (s : st N) (d : nat) (dd : disp N) :
  reachable ntype s -> disps s !! d = Some dd ->
  Forall (fun x => ntype (snd x) = dtype dd) (delivered dd ++ queue dd)
  /\ (forall r, of_run r (delivered dd ++ queue dd) `sublist_of` of_run r (decoded s))
  /\ (delivered dd ++ queue dd) `sublist_of` accepted dd
  /\ queue dd `suffix_of` accepted dd
  /\ forall r, alone r s -> accepted dd ++ flight s d r = offered dd.
Proof.
  intros (_ & _ & Hq)%push_reachable_inv Hdd.
  destruct (qi_ok _ _ Hq d dd Hdd) as [_ Ht Hoff Hs Ho Hr Ha].
  assert (Hrun : forall r, of_run r (delivered dd ++ queue dd) `sublist_of` of_run r (offered dd)).
  { intros r. etrans; [by apply of_run_sublist |]. etrans; [|apply Hr]. by apply sublist_inserts_r. }
  split; [|split; [|split; [done | split; [done |]]]].
  - rewrite Forall_forall in Ht. apply Forall_forall. intros [r n] Hin. apply Ht.
    assert (Hin' : (r, n) ∈ of_run r (offered dd)).
    { eapply sublist_subseteq; [apply Hrun |]. apply list_elem_of_filter. done. }
    by apply list_elem_of_filter in Hin' as [_ ?].
  - intros r. etrans; [apply Hrun |]. by apply of_run_sublist.
  - intros r Hal. by apply Ha.
Qed.

(** C14: when [Close] has returned there is no handler left and every handler
    goroutine ever started has been told to stop, even if subscriptions raced
    with it; the error channel is closed. *)
Theorem push_close_stops_handlers {N} (ntype : N -> Z) (s : st N) :
  reachable ntype s -> closer s = CDone ->
  handlers s = ∅ /\ errc_closed s = true
  /\ forall d dd, disps s !! d = Some dd -> stopped dd = true.
Proof.
  intros (Hch & [_ Hl Hh _] & _)%push_reachable_inv Hc.
  assert (Hhand : handlers s = ∅) by (apply Hh; by rewrite Hc).
  split; [done |]. split; [by apply Hch |]. intros d dd Hd.
  destruct (stopped dd) eqn:Hs; [done |].
  destruct (Hl (dtype dd) d) as [Hx | Hx].
  - unfold shapes, shape. rewrite Hd. simpl. by rewrite Hs.
  - by rewrite Hhand, lookup_empty in Hx.
  - unfold closing in Hx. rewrite Hc in Hx. by apply not_elem_of_nil in Hx.
Qed.

(** One more step of a concrete run. *)
Ltac lookup_now := simpl; repeat first
  [ rewrite lookup_insert_eq | rewrite lookup_insert_ne by done ]; reflexivity.
Ltac settle H := cbv beta iota zeta delta
  [ init set_run with_disp note_decoded SubscribeTypes take_disp exit_disp offer_disp drop_disp stop_disp
    setConn closeConn Connect_install mark_closed close_done close_take close_conn close_disp close_errc dialled
    resume w_closed w_done w_conn w_live w_handlers w_disps w_errc w_errc_closed w_errcMu w_panicked w_closer
    w_runs w_decoded closed done_closed conn live handlers disps errc errc_closed errcMu panicked closer runs
    decoded dtype queue stopped exited offered accepted delivered orb ] in H.
Tactic Notation "advance" hyp(H) uconstr(c) :=
  match type of H with
  | reachable ?nt ?s =>
      let H' := fresh in
      eassert (H' : step nt s _) by (eapply c; first [lookup_now | done | set_solver]);
      apply (reach_step _ _ _ H) in H'; clear H; rename H' into H; settle H
  end.
Tactic Notation "advance_run" hyp(H) constr(r) uconstr(c) :=
  match type of H with
  | reachable ?nt ?s =>
      let H' := fresh in
      eassert (H' : step nt s _)
        by (eapply (step_run _ _ r); [lookup_now | eapply c; first [lookup_now | done | set_solver]]);
      apply (reach_step _ _ _ H) in H'; clear H; rename H' into H; settle H
  end.

(** A reconnect that completes after [Close] installs its connection in the
    closed client; [Run] then returns and nothing closes the connection. *)
Theorem push_close_leaks_connection {N} (ntype : N -> Z) :
  exists s x, reachable ntype s /\ closer s = CDone /\ runs s = {[ 0%nat := RExit ]}
    /\ conn s = Some x /\ x ∈ live (N := N) s.
Proof.
  pose proof (reach_init ntype) as H.
  advance H (step_run_start _ _ 0%nat).
  advance_run H 0%nat (run_no_conn _ _ _).
  advance_run H 0%nat (run_dial _ _ _ false 0%nat).
  advance_run H 0%nat (run_set _ _ _ _).
  advance_run H 0%nat (run_current _ _ _ 0%nat).
  advance_run H 0%nat (read_err _ _ _ _).
  advance_run H 0%nat (broken_report _ _ _ (EText "read")).
  advance_run H 0%nat (rep_lock _ _ _ _ _).
  advance_run H 0%nat (rep_open _ _ _ _ _).
  advance_run H 0%nat (err_send _ _ _ _ _ _).
  advance_run H 0%nat (rep_unlock _ _ _ _).
  advance H (step_close_begin _ _).
  advance H (step_close_done _ _).
  advance H (step_close_take _ _ []).
  advance H (step_close_conn _ _ None []).
  advance H (step_close_errc _ _).
  advance_run H 0%nat (run_dial _ _ _ true 1%nat).
  advance_run H 0%nat (run_set _ _ _ _).
  advance_run H 0%nat (run_closed _ _ _).
  eexists _, 1%nat. split; [exact H |]. cbn. split; [done |]. split; [|split; [done | set_solver]].
  by rewrite !insert_insert_eq.
Qed.

(** ** Witnesses *)

(** One subscription to type 7; a notification is dispatched and handled, a frame
    does not decode and is reported, then the client is closed. *)
Definition demo_disp : disp Z :=
  mkDisp 7 [] true false [(0%nat, 7)] [(0%nat, 7)] [(0%nat, 7)].

Lemma demo_reachable :
  exists s, reachable (fun n : Z => n) s /\ disps s !! 0%nat = Some demo_disp
    /\ errc s = [EText "decode"] /\ closer s = CDone /\ decoded s = [(0%nat, 7)].
Proof.
  pose proof (reach_init (fun n : Z => n)) as H.
  advance H (step_connect _ _ 5%nat).
  advance H (step_run_start _ _ 0%nat).
  advance H (step_subscribe _ _ 7 0%nat).
  advance_run H 0%nat (run_current _ _ _ 5%nat).
  advance_run H 0%nat (read_lookup _ _ _ 5%nat 7 0%nat).
  advance_run H 0%nat (send_ok _ _ _ _ _ _ _).
  advance H (step_receive _ _ 0%nat).
  advance_run H 0%nat (read_report _ _ _ _ (EText "decode")).
  advance_run H 0%nat (rep_lock _ _ _ _ _).
  advance_run H 0%nat (rep_open _ _ _ _ _).
  advance H (step_close_begin _ _).
  advance H (step_close_done _ _).
  advance_run H 0%nat (err_send _ _ _ _ _ _).
  advance_run H 0%nat (rep_unlock _ _ _ _).
  advance H (step_close_take _ _ [0%nat]).
  advance H (step_close_conn _ _ (Some 5%nat) [0%nat]).
  advance H (step_close_disp _ _ 0%nat []).
  advance H (step_close_errc _ _).
  eexists. split; [exact H |]. cbn. done.
Qed.

Lemma push_no_panic_witness :
  exists s, reachable (fun n : Z => n) s /\ closer s = CDone /\ errc s = [EText "decode"]
    /\ panicked s = false.
Proof.
  destruct demo_reachable as (s & Hs & _ & He & Hc & _). exists s.
  exact (conj Hs (conj Hc (conj He (proj1 (push_no_panic (fun n => n) s Hs))))).
Defined.

Lemma push_delivery_order_witness :
  exists s, reachable (fun n : Z => n) s /\ disps s !! 0%nat = Some demo_disp
    /\ of_run 0 (delivered demo_disp ++ queue demo_disp) `sublist_of` of_run 0 (decoded s).
Proof.
  destruct demo_reachable as (s & Hs & Hd & _). exists s.
  exact (conj Hs (conj Hd
    (proj1 (proj2 (push_delivery_order (fun n => n) s 0%nat demo_disp Hs Hd)) 0%nat))).
Defined.

Lemma push_close_stops_handlers_witness :
  exists s, reachable (fun n : Z => n) s /\ closer s = CDone /\ handlers s = ∅.
Proof.
  destruct demo_reachable as (s & Hs & _ & _ & Hc & _). exists s.
  exact (conj Hs (conj Hc (proj1 (push_close_stops_handlers (fun n => n) s Hs Hc)))).
Defined.
