(* ===== verification/Domain.v ===== *)
(** Domain values: [src/pkg/domain] — prices, quantities, money, ticks and the
    Hong Kong tick tables, symbols, order states, pagination.

    The decimal type is a third-party library ([shopspring/decimal]): it is the
    interface [Decimal] with the laws [DecimalLaws], which give each operation its
    documented meaning on the rational a value stands for. *)
From Stdlib Require Import QArith Qabs Qround Lqa.
From S2P Require Import Prelude Types Errs.
Local Open Scope Z_scope.

Create HintDb domain.

(** ** Decimals *)
Class Decimal (D : Type) := {
  dec_NewFromString : string -> D + error;
  dec_NewFromInt : Z -> D;
  dec_String : D -> string;
  dec_IsZero : D -> bool;
  dec_IsNegative : D -> bool;
  dec_IsPositive : D -> bool;
  dec_IsInteger : D -> bool;
  dec_LessThanOrEqual : D -> D -> bool;
  dec_Mod : D -> D -> outcome D;
  dec_Add : D -> D -> D;
  dec_Sub : D -> D -> D;
  dec_Mul : D -> D -> D;
  dec_Div : D -> D -> outcome D;
  dec_Floor : D -> D;
  dec_Round : D -> Z -> D;
}.

Definition digit_value (c : ascii) : option Z :=
  let n := Z.of_nat (nat_of_ascii c) in
  if decide (48 <= n <= 57) then Some (n - 48) else None.

Fixpoint digits_value (acc : Z) (s : list ascii) : option Z :=
  match s with
  | [] => Some acc
  | c :: s => d ← digit_value c; digits_value (acc * 10 + d) s
  end.

Definition not_dot (c : ascii) : bool := negb (bool_decide (c = "."%char)).

(** The value of a plain numeral: digits, optionally a point and more digits. *)
Definition numeral_value (s : string) : option Q :=
  let b := text s in
  let n := span not_dot b in
  let frac := drop (S n) b in
  if decide (take n b = [] \/ (drop n b <> [] /\ frac = [])) then None
  else
    z ← digits_value 0 (take n b ++ frac);
    Some (z # Z.to_pos (10 ^ Z.of_nat (length frac))).

(** A multiple, in the rationals. *)
Definition multiple (a b : Q) : Prop := exists k : Z, (a == inject_Z k * b)%Q.

Class DecimalLaws (D : Type) `{Decimal D} := {
  val : D -> Q;
  NewFromString_law s q : numeral_value s = Some q ->
    exists d, dec_NewFromString s = inl d /\ (val d == q)%Q;
  NewFromInt_law n : (val (dec_NewFromInt n) == inject_Z n)%Q;
  IsZero_law d : dec_IsZero d = true <-> (val d == 0)%Q;
  IsNegative_law d : dec_IsNegative d = true <-> (val d < 0)%Q;
  IsPositive_law d : dec_IsPositive d = true <-> (0 < val d)%Q;
  IsInteger_law d : dec_IsInteger d = true <-> multiple (val d) 1;
  LessThanOrEqual_law a b : dec_LessThanOrEqual a b = true <-> (val a <= val b)%Q;
  Mod_panics a b : (val b == 0)%Q -> dec_Mod a b = Panic;
  Mod_law a b : ~ (val b == 0)%Q -> exists r, dec_Mod a b = Ret r
    /\ multiple (val a - val r) (val b) /\ (Qabs (val r) < Qabs (val b))%Q;
  Add_law a b : (val (dec_Add a b) == val a + val b)%Q;
  Sub_law a b : (val (dec_Sub a b) == val a - val b)%Q;
  Mul_law a b : (val (dec_Mul a b) == val a * val b)%Q;
}.

Lemma integer_small (k : Z) (b : Q) :
  (Qabs (inject_Z k * b) < Qabs b)%Q -> k = 0.
Proof.
  destruct b as [n d]. unfold Qlt, Qabs, Qmult, inject_Z. simpl. intros Hlt.
  destruct (decide (k = 0)) as [|Hk]; [done | exfalso].
  rewrite Z.abs_mul in Hlt. nia.
Qed.

(** The remainder is zero exactly on multiples. *)
Lemma Mod_zero {D} `{DecimalLaws D} (a b : D) :
  ~ (val b == 0)%Q ->
  exists r, dec_Mod a b = Ret r /\ (dec_IsZero r = true <-> multiple (val a) (val b)).
Proof.
  intros Hb. destruct (Mod_law a b Hb) as (r & Hr & [k Hk] & Hlt). exists r. split; [done |].
  rewrite IsZero_law. split.
  - intros Hz. exists k. rewrite <- Hk, Hz. ring.
  - intros [j Hj]. assert (Hr' : (val r == inject_Z (j - k) * val b)%Q).
    { assert (Hd : (val r == val a - (val a - val r))%Q) by ring.
      rewrite Hk, Hj in Hd. rewrite Hd. unfold Z.sub. rewrite inject_Z_plus, inject_Z_opp. ring. }
    rewrite Hr' in Hlt. apply integer_small in Hlt. rewrite Hr', Hlt. ring.
Qed.

(** ** Values *)
Definition fmt_err (msg : string) : error := EText msg.

Section values.
Context {D : Type} `{Decimal D}.

Record Price := mkPrice { price_dec : D; price_tick : D }.
Record Quantity := mkQuantity { qty_dec : D }.
Record Rate := mkRate { rate_dec : D }.
Record Tick := mkTick { tick_dec : D }.
Record Money := mkMoney { money_dec : D; currency : string; scale : Z }.

Definition MustNewPrice (value tick : string) : outcome Price :=
  match dec_NewFromString value, dec_NewFromString tick with
  | inl d, inl t => Ret (mkPrice d t)
  | _, _ => Panic
  end.

Definition MustNewQuantity (value : string) : outcome Quantity :=
  match dec_NewFromString value with inl d => Ret (mkQuantity d) | inr _ => Panic end.

Definition MustNewRate (value : string) : outcome Rate :=
  match dec_NewFromString value with inl d => Ret (mkRate d) | inr _ => Panic end.

Definition MustNewTick (value : string) : outcome Tick :=
  match dec_NewFromString value with inl d => Ret (mkTick d) | inr _ => Panic end.

Definition NewTick (value : string) : Tick + error :=
  match dec_NewFromString value with
  | inl d => inl (mkTick d)
  | inr e => inr (EWrap ("domain: Tick: invalid decimal string " +:+ Quote value +:+ ": " +:+ error_text e) e)
  end.

Definition MustNewMoney (value currency : string) (scale : Z) : outcome Money :=
  match dec_NewFromString value with inl d => Ret (mkMoney d currency scale) | inr _ => Panic end.

Definition MustNewMoneyWithScale (value currency : string) (scale : Z) : outcome Money :=
  match dec_NewFromString value with
  | inl d => Ret (mkMoney (dec_Round d scale) currency scale)
  | inr _ => Panic
  end.

Definition Money_Add (m other : Money) : outcome Money :=
  if decide (currency m <> currency other) then Panic
  else Ret (mkMoney (dec_Add (money_dec m) (money_dec other)) (currency m) (scale m)).

Definition Money_Sub (m other : Money) : outcome Money :=
  if decide (currency m <> currency other) then Panic
  else Ret (mkMoney (dec_Sub (money_dec m) (money_dec other)) (currency m) (scale m)).

Definition Money_Mul (m : Money) (factor : D) : Money :=
  mkMoney (dec_Mul (money_dec m) factor) (currency m) (scale m).

Definition negative_price (p : Price) : error :=
  fmt_err ("domain: Price: negative price " +:+ dec_String (price_dec p)).
Definition off_grid (p : Price) (tick : D) : error :=
  fmt_err ("domain: Price: " +:+ dec_String (price_dec p) +:+ " is not a multiple of tick "
    +:+ dec_String tick).

Definition Price_Validate (p : Price) (step : bool) : outcome (option error) :=
  if dec_IsNegative (price_dec p) then Ret (Some (negative_price p))
  else if step && negb (dec_IsZero (price_tick p)) then
    match dec_Mod (price_dec p) (price_tick p) with
    | Panic => Panic
    | Ret r => if dec_IsZero r then Ret None else Ret (Some (off_grid p (price_tick p)))
    end
  else Ret None.

Definition ValidateOn (p : Price) (tick : string) : outcome (option error) :=
  if dec_IsNegative (price_dec p) then Ret (Some (negative_price p))
  else if decide (tick = "") then Ret None
  else
    match dec_NewFromString tick with
    | inr e => Ret (Some (EWrap ("domain: Price: invalid tick " +:+ Quote tick +:+ ": " +:+ error_text e) e))
    | inl grid =>
        if dec_IsZero grid || dec_IsNegative grid then Ret None
        else
          match dec_Mod (price_dec p) grid with
          | Panic => Panic
          | Ret r => if dec_IsZero r then Ret None else Ret (Some (off_grid p grid))
          end
    end.

Definition Price_Round (p : Price) : outcome Price :=
  if dec_IsZero (price_tick p) then Ret p
  else
    match dec_Div (price_dec p) (price_tick p) with
    | Panic => Panic
    | Ret q => Ret (mkPrice (dec_Mul (dec_Floor q) (price_tick p)) (price_tick p))
    end.

Definition Quantity_IsPositive (q : Quantity) : bool :=
  dec_IsPositive (qty_dec q) && negb (dec_IsZero (qty_dec q)).

Definition ValidateInteger (q : Quantity) : option error :=
  if dec_IsInteger (qty_dec q) then None
  else Some (fmt_err ("domain: Quantity: " +:+ dec_String (qty_dec q) +:+ " is not an integer")).

(** A lot is a [uint64]. *)
Definition ValidateLot (q : Quantity) (lot : Z) : outcome (option error) :=
  if decide (lot = 0) then Ret None
  else if decide (int_max < lot) then
    Ret (Some (fmt_err ("domain: Quantity: lot " +:+ itoa lot +:+ " is out of range")))
  else
    match dec_Mod (qty_dec q) (dec_NewFromInt lot) with
    | Panic => Panic
    | Ret r =>
        if dec_IsZero r then Ret None
        else Ret (Some (fmt_err ("domain: Quantity: " +:+ dec_String (qty_dec q)
          +:+ " is not a multiple of lot " +:+ itoa lot)))
    end.
End values.

Arguments Price D : clear implicits.
Arguments Quantity D : clear implicits.
Arguments Rate D : clear implicits.
Arguments Tick D : clear implicits.
Arguments Money D : clear implicits.

(** ** Symbols, markets and order states *)
Definition MarketHK : string := "HK".
Definition MarketUS : string := "US".
Definition MarketShenzhenConnect : string := "SZ".
Definition MarketShanghaiConnect : string := "SH".

Definition MarketFromExchange (exchange : string) : string :=
  switch exchange [(ExchangeHK, MarketHK); (ExchangeUS, MarketUS);
    (ExchangeShenzhenConnect, MarketShenzhenConnect); (ExchangeShanghaiConnect, MarketShanghaiConnect)] "".

Record Symbol := mkSymbol {
  Market : string;
  Code : string;
  DataType : Z;
  FullCode : string;
  DisplayName : string;
}.

Definition NewSymbol (market code : string) (dtype : Z) : Symbol :=
  let fullCode := if decide (market <> "") then code +:+ "." +:+ market else code in
  mkSymbol market code dtype fullCode "".

Definition Symbol_IsZero (s : Symbol) : bool := bool_decide (Code s = "").

Definition MarketFromCode (code : string) : string :=
  if has_suffix code ".HK" then MarketHK
  else if has_suffix code ".US" then MarketUS
  else if has_suffix code ".SZ" then MarketShenzhenConnect
  else if has_suffix code ".SH" then MarketShanghaiConnect
  else "".

(** [SymbolFromSecurity]: the fields [Code] and [DataType] of the message. *)
Definition SymbolFromSecurity (s : option (string * Z)) : Symbol :=
  match s with
  | None => mkSymbol "" "" 0 "" ""
  | Some (code, dtype) => NewSymbol (MarketFromCode code) code dtype
  end.

Definition ParseAccountID (s : string) : string + error :=
  if decide (s = "") then inr (fmt_err "domain: AccountID: empty") else inl s.

Definition EventCreated : string := "created".
Definition EventAccepted : string := "accepted".
Definition EventPartiallyFilled : string := "partially_filled".
Definition EventFilled : string := "filled".
Definition EventCancelled : string := "cancelled".
Definition EventPartiallyCancelled : string := "partially_cancelled".
Definition EventRejected : string := "rejected".
Definition EventModifySubmitted : string := "modify_submitted".
Definition EventModifyAccepted : string := "modify_accepted".
Definition EventCancelSubmitted : string := "cancel_submitted".
Definition EventCancelAccepted : string := "cancel_accepted".

Definition transitions : list ((string * string) * string) := [
  ((EntrustStatusNoRegister, EventCreated), EntrustStatusWaitToRegister);
  ((EntrustStatusWaitToRegister, EventAccepted), EntrustStatusRegistered);
  ((EntrustStatusRegistered, EventPartiallyFilled), EntrustStatusPartFilled);
  ((EntrustStatusRegistered, EventFilled), EntrustStatusFilled);
  ((EntrustStatusPartFilled, EventFilled), EntrustStatusFilled);
  ((EntrustStatusRegistered, EventCancelled), EntrustStatusWaitCancel);
  ((EntrustStatusPartFilled, EventCancelled), EntrustStatusPartFilledWaitCancel);
  ((EntrustStatusWaitCancel, EventCancelAccepted), EntrustStatusCancelled);
  ((EntrustStatusPartFilledWaitCancel, EventCancelAccepted), EntrustStatusPartCancelled);
  ((EntrustStatusRegistered, EventRejected), EntrustStatusHostReject);
  ((EntrustStatusRegistered, EventModifySubmitted), EntrustStatusWaitModifyRegistered);
  ((EntrustStatusWaitModifyRegistered, EventModifyAccepted), EntrustStatusRegistered);
  ((EntrustStatusPartFilled, EventModifySubmitted), EntrustStatusWaitModifyPartFilled);
  ((EntrustStatusWaitModifyPartFilled, EventModifyAccepted), EntrustStatusPartFilled)
].

Definition NextOrderState (current event : string) : string := switch (current, event) transitions current.

(** ** Pagination: [src/pkg/domain/pagination.go] *)
Record Pagination := mkPagination { Cursor : string; PageSize : Z; HasMore : bool }.

Definition NextPage (p : Pagination) (cursor : string) : bool * Pagination :=
  if decide (cursor = "") then (false, p) else (true, mkPagination cursor (PageSize p) (HasMore p)).

(** ** Tick schedules *)
Record TickSchedule := mkTickSchedule {
  ts_Market : string;
  ts_DataType : Z;
  Lot : Z;
  TickSize : string;
}.

Definition DefaultHKTickSchedule (dtype : Z) : TickSchedule :=
  if decide (dtype = DataTypeHKStock) then mkTickSchedule MarketHK dtype 100 "0.001"
  else if decide (dtype = DataTypeHKETF) then mkTickSchedule MarketHK dtype 100 "0.001"
  else if decide (dtype = DataTypeHKWarrant \/ dtype = DataTypeHKCBBC) then
    mkTickSchedule MarketHK dtype 1 "0.001"
  else if decide (dtype = DataTypeHKBond) then mkTickSchedule MarketHK dtype 1 "0.0001"
  else mkTickSchedule "" 0 0 "".

(** [RequireFromString] of the band's upper bound, and its tick. *)
Definition hkStockPriceBands : list (string * string) := [
  ("0.25", "0.001");
  ("10", "0.005");
  ("20", "0.010");
  ("50", "0.020");
  ("100", "0.050");
  ("200", "0.100");
  ("500", "0.200");
  ("1000", "0.500");
  ("2000", "1.000");
  ("5000", "2.000");
  ("9995", "5.000")
].

Section schedules.
Context {D : Type} `{Decimal D}.

(** A bound that does not parse panics when the package is initialised. *)
Fixpoint tick_at (bands : list (string * string)) (p : D) : outcome (option string) :=
  match bands with
  | [] => Ret None
  | (upper, tick) :: bands =>
      match dec_NewFromString upper with
      | inr _ => Panic
      | inl u => if dec_LessThanOrEqual p u then Ret (Some tick) else tick_at bands p
      end
  end.

Definition hkStockTickAtPrice (price : Price D) : outcome (option string) :=
  tick_at hkStockPriceBands (price_dec price).

(** [TickScheduleResolver], with the method of [PricedTickScheduleResolver] when
    the implementation has it. *)
Record resolver := mkResolver {
  ScheduleFor : Symbol -> option (Z * string);
  ScheduleForPrice : option (Symbol -> Price D -> outcome (option string));
}.

Definition TickSchedule_ScheduleFor (sym : Symbol) : option (Z * string) :=
  if decide (Market sym <> MarketHK /\ Market sym <> "") then None
  else
    let schedule := DefaultHKTickSchedule (DataType sym) in
    if decide (TickSize schedule = "") then None else Some (Lot schedule, TickSize schedule).

Definition TickSchedule_ScheduleForPrice (sym : Symbol) (price : Price D) : outcome (option string) :=
  if decide (Market sym <> MarketHK /\ Market sym <> "") then Ret None
  else if decide (DataType sym = DataTypeHKStock) then hkStockTickAtPrice price
  else Ret (snd <$> TickSchedule_ScheduleFor sym).

(** The zero [TickSchedule{}] as a resolver. *)
Definition TickSchedule_resolver : resolver :=
  mkResolver TickSchedule_ScheduleFor (Some TickSchedule_ScheduleForPrice).
End schedules.
Arguments resolver D : clear implicits.

(** ** Reading Hong Kong ticks *)

(** The published table: prices over the first number up to the second have the
    tick named by the third. *)
Definition hkex_table : list (Q * Q * string) := [
  (1 # 100, 1 # 4, "0.001");
  (1 # 4, 10 # 1, "0.005");
  (10 # 1, 20 # 1, "0.010");
  (20 # 1, 50 # 1, "0.020");
  (50 # 1, 100 # 1, "0.050");
  (100 # 1, 200 # 1, "0.100");
  (200 # 1, 500 # 1, "0.200");
  (500 # 1, 1000 # 1, "0.500");
  (1000 # 1, 2000 # 1, "1.000");
  (2000 # 1, 5000 # 1, "2.000");
  (5000 # 1, 9995 # 1, "5.000")
].

(** The bounds of a list of bands, read as rationals. *)
Definition band_bounds (bands : list (string * string)) : option (list (Q * string)) :=
  mapM (fun b => q ← numeral_value (fst b); Some (q, snd b)) bands.

Section ticks.
Context {D : Type} `{DecimalLaws D}.

(** The first band whose bound is not below the price. *)
Fixpoint first_band (bounds : list (Q * string)) (v : Q) : option string :=
  match bounds with
  | [] => None
  | (u, tick) :: bounds => if Qle_bool v u then Some tick else first_band bounds v
  end.

Lemma tick_at_first bands bounds (p : D) :
  band_bounds bands = Some bounds -> tick_at bands p = Ret (first_band bounds (val p)).
Proof using Type*.
  revert bounds. induction bands as [|[upper tick] bands IH]; intros bounds Hb.
  - by injection Hb as <-.
  - unfold band_bounds in Hb. cbn [mapM fst snd] in Hb.
    destruct (numeral_value upper) as [u|] eqn:Hu; [|done]. simpl in Hb.
    destruct (mapM _ bands) as [rest|] eqn:Hr; [|done]. injection Hb as <-.
    destruct (NewFromString_law upper u Hu) as (d & Hd & Hv). cbn [tick_at first_band]. rewrite Hd.
    assert (Hle : dec_LessThanOrEqual p d = Qle_bool (val p) u).
    { apply eq_true_iff_eq. rewrite LessThanOrEqual_law, Qle_bool_iff. by rewrite Hv. }
    rewrite Hle. destruct (Qle_bool _ _); [done |]. by apply IH.
Qed.

Lemma hk_tick_first (p : Price D) :
  exists bounds, band_bounds hkStockPriceBands = Some bounds
    /\ hkStockTickAtPrice p = Ret (first_band bounds (val (price_dec p))).
Proof using Type*.
  destruct (band_bounds hkStockPriceBands) as [bounds|] eqn:Hb; [|by vm_compute in Hb].
  exists bounds. split; [done |]. by apply tick_at_first.
Qed.

Lemma hk_tick_cases (p : Price D) :
  (hkStockTickAtPrice p = Ret None /\ (9995 # 1 < val (price_dec p))%Q)
  \/ exists tick, hkStockTickAtPrice p = Ret (Some tick) /\ (val (price_dec p) <= 9995 # 1)%Q.
Proof using Type*.
  destruct (hk_tick_first p) as (bounds & Hb & ->). vm_compute in Hb. injection Hb as <-.
  set (v := val (price_dec p)). clearbody v. cbn [first_band].
  repeat match goal with
  | |- context [if Qle_bool v ?u then _ else _] =>
      let E := fresh in destruct (Qle_bool v u) eqn:E;
      [right; eexists; split; [done |]; apply Qle_bool_iff in E; lra |]
  end.
  left. split; [done |]. apply Qnot_le_lt. rewrite <- Qle_bool_iff. congruence.
Qed.

(** Reading the tick of a price never fails: a price inside a band of the
    published table, upper bound included, gets the tick of that band, a price at
    or below the table's floor gets the smallest tick, and a price above the table
    gets none. *)
Theorem hk_tick_table (p : Price D) (lo hi : Q) (tick : string) :
  (lo, hi, tick) ∈ hkex_table ->
  ((lo < val (price_dec p))%Q /\ (val (price_dec p) <= hi)%Q -> hkStockTickAtPrice p = Ret (Some tick))
  /\ ((val (price_dec p) <= 1 # 100)%Q -> hkStockTickAtPrice p = Ret (Some "0.001"))
  /\ (hkStockTickAtPrice p = Ret None <-> (9995 # 1 < val (price_dec p))%Q).
Proof using Type*.
  intros Hin. destruct (hk_tick_first p) as (bounds & Hb & ->).
  vm_compute in Hb. injection Hb as <-. set (v := val (price_dec p)). clearbody v.
  assert (Hcases : forall u, (v <= u)%Q /\ Qle_bool v u = true \/ (u < v)%Q /\ Qle_bool v u = false).
  { intros u. destruct (Qle_bool v u) eqn:E; [left; by rewrite Qle_bool_iff in E | right].
    split; [|done]. apply Qnot_le_lt. rewrite <- Qle_bool_iff. congruence. }
  cbn [first_band].
  repeat match goal with
  | |- context [Qle_bool v ?u] => destruct (Hcases u) as [[? ->]|[? ->]]
  end.
  all: split_and!; [intros [Hlo Hhi]; f_equal | intros Hv; first [done | exfalso; lra]
    | split; [intros ?; first [done | lra] | intros ?; first [done | exfalso; lra]]].
  all: unfold hkex_table in Hin; rewrite !elem_of_cons in Hin.
  all: repeat (destruct Hin as [[= -> -> ->]|Hin]; [first [done | exfalso; lra] |]).
  all: by apply elem_of_nil in Hin.
Qed.
End ticks.

(** ** Order states *)
Definition final_states : list string :=
  [EntrustStatusFilled; EntrustStatusCancelled; EntrustStatusPartCancelled; EntrustStatusHostReject].

Definition live_states : list string :=
  [EntrustStatusNoRegister; EntrustStatusWaitToRegister; EntrustStatusRegistered; EntrustStatusWaitCancel;
   EntrustStatusPartFilledWaitCancel; EntrustStatusPartFilled; EntrustStatusWaitModifyRegistered;
   EntrustStatusWaitModifyPartFilled].

Lemma next_state_cases s e : NextOrderState s e = s \/ ((s, e), NextOrderState s e) ∈ transitions.
Proof. apply switch_In with (d := s) (cases := transitions). done. Qed.

Lemma transition_ends s e s' : ((s, e), s') ∈ transitions ->
  s ∈ live_states /\ s' ∈ live_states ++ final_states.
Proof.
  unfold transitions. rewrite !elem_of_cons.
  intros Hin. repeat (destruct Hin as [[= -> -> ->]|Hin]; [split; apply (bool_decide_unpack _); by vm_compute |]).
  by apply elem_of_nil in Hin.
Qed.

(** Whatever events arrive, in whatever order, a new order is always in one of
    the twelve documented states, and an order that is filled, cancelled, partly
    cancelled or rejected never changes its state again. *)
Theorem order_states_final (events : list string) (s : string) :
  foldl NextOrderState EntrustStatusNoRegister events ∈ live_states ++ final_states
  /\ (s ∈ final_states -> foldl NextOrderState s events = s).
Proof.
  assert (Hstep : forall x e, x ∈ live_states ++ final_states -> NextOrderState x e ∈ live_states ++ final_states).
  { intros x e Hx. destruct (next_state_cases x e) as [->|Hin]; [done |].
    by destruct (transition_ends _ _ _ Hin). }
  split.
  - assert (Hin : EntrustStatusNoRegister ∈ live_states ++ final_states)
      by (apply (bool_decide_unpack _); by vm_compute).
    revert Hin. generalize EntrustStatusNoRegister. induction events as [|e events IH]; intros x Hx; [done |].
    simpl. apply IH. by apply Hstep.
  - intros Hs. induction events as [|e events IH]; [done |]. simpl.
    destruct (next_state_cases s e) as [->|Hin]; [done |].
    destruct (transition_ends _ _ _ Hin) as [Hl _]. exfalso. clear -Hs Hl.
    unfold final_states in Hs. rewrite !elem_of_cons, elem_of_nil in Hs.
    assert (Hn : s ∉ live_states); [|done].
    destruct Hs as [->|[->|[->|[->|[]]]]]; apply (bool_decide_unpack _); by vm_compute.
Qed.

(** ** A concrete decimal, for the witnesses: rationals *)
Definition Q_parse (s : string) : option Q :=
  match s with
  | String "-"%char s => Qopp <$> numeral_value s
  | _ => numeral_value s
  end.

Definition Q_remainder (a b : Q) : Q := (a - inject_Z (Qfloor (a / b)) * b)%Q.

#[global] Instance Q_decimal : Decimal Q := {
  dec_NewFromString s := match Q_parse s with Some q => inl q | None => inr (EText "not a numeral") end;
  dec_NewFromInt := inject_Z;
  dec_String q := itoa (Qfloor q);
  dec_IsZero q := Qeq_bool q 0;
  dec_IsNegative q := negb (Qle_bool 0 q);
  dec_IsPositive q := negb (Qle_bool q 0);
  dec_IsInteger q := Qeq_bool (q - inject_Z (Qfloor q)) 0;
  dec_LessThanOrEqual := Qle_bool;
  dec_Mod a b := if Qeq_bool b 0 then Panic else Ret (Q_remainder a b);
  dec_Add := Qplus;
  dec_Sub := Qminus;
  dec_Mul := Qmult;
  dec_Div a b := if Qeq_bool b 0 then Panic else Ret (a / b)%Q;
  dec_Floor q := inject_Z (Qfloor q);
  dec_Round q n := (inject_Z (Qfloor (q * inject_Z (10 ^ n)%Z + (1 # 2))%Q) / inject_Z (10 ^ n)%Z)%Q;
}.

Lemma Q_remainder_small a b : ~ (b == 0)%Q -> (Qabs (Q_remainder a b) < Qabs b)%Q.
Proof.
  intros Hb. unfold Q_remainder.
  assert (Hr : (a - inject_Z (Qfloor (a / b)) * b == (a / b - inject_Z (Qfloor (a / b))) * b)%Q)
    by (field; exact Hb).
  rewrite Hr, Qabs_Qmult. set (q := (a / b)%Q).
  pose proof (Qfloor_le q) as Hlo. pose proof (Qlt_floor q) as Hhi.
  rewrite inject_Z_plus in Hhi. change (inject_Z 1) with 1%Q in Hhi.
  rewrite Qabs_pos by lra.
  assert (Hpos : (0 < Qabs b)%Q).
  { apply Qnot_le_lt. intros Hle. apply Hb. apply Qabs_Qle_condition in Hle. lra. }
  rewrite <- (Qmult_1_l (Qabs b)) at 2. apply Qmult_lt_compat_r; [done | lra].
Qed.

#[global] Instance Q_decimal_laws : DecimalLaws Q.
Proof.
  refine {| val := fun q => q |}; simpl.
  - intros s q Hs. exists q. split; [|done]. destruct s as [|c s]; [done |].
    destruct (decide (c = "-"%char)) as [->|Hc].
    { exfalso. unfold numeral_value in Hs. simpl in Hs. by case_decide. }
    replace (Q_parse (String c s)) with (numeral_value (String c s)); [by rewrite Hs |].
    unfold Q_parse. by destruct c as [[] [] [] [] [] [] [] []].
  - done.
  - intros d. apply Qeq_bool_iff.
  - intros d. rewrite negb_true_iff, <- not_true_iff_false, Qle_bool_iff. split; [apply Qnot_le_lt | apply Qlt_not_le].
  - intros d. rewrite negb_true_iff, <- not_true_iff_false, Qle_bool_iff. split; [apply Qnot_le_lt | apply Qlt_not_le].
  - intros d. rewrite Qeq_bool_iff. split.
    + intros Hd. exists (Qfloor d). rewrite Qmult_1_r. lra.
    + intros [k Hk]. assert (Hk' : (d == inject_Z k)%Q) by (rewrite Hk; ring).
      rewrite (Qfloor_comp d (inject_Z k) Hk'), Qfloor_Z. lra.
  - intros a b. apply Qle_bool_iff.
  - intros a b Hb. apply Qeq_bool_iff in Hb. by rewrite Hb.
  - intros a b Hb. exists (Q_remainder a b). split.
    + destruct (Qeq_bool b 0) eqn:E; [|done]. by apply Qeq_bool_iff in E.
    + split; [|by apply Q_remainder_small].
      exists (Qfloor (a / b)). unfold Q_remainder. ring.
  - done.
  - done.
  - done.
Defined.

(** ** Witnesses *)
Lemma hk_tick_table_witness :
  hkStockTickAtPrice (D := Q) (mkPrice (10 # 1)%Q 0%Q) = Ret (Some "0.005").
Proof.
  refine (proj1 (hk_tick_table (D := Q) (mkPrice (10 # 1)%Q 0%Q) (1 # 4) (10 # 1) "0.005" _) _).
  - apply list_elem_of_further, list_elem_of_here.
  - split; [reflexivity | discriminate].
Defined.

Lemma order_states_final_witness :
  foldl NextOrderState EntrustStatusFilled [EventCancelled; EventCancelAccepted] = EntrustStatusFilled.
Proof.
  apply (order_states_final [EventCancelled; EventCancelAccepted] EntrustStatusFilled).
  apply (bool_decide_unpack _). vm_compute. exact I.
Defined.
