(* ===== verification/Trading.v ===== *)
(** The cash-trading use cases: [src/pkg/services/trading.go], with the wire
    mappings of [src/pkg/domain/trading.go].

    Each operation validates, issues at most one request through the [Executor],
    and maps the reply. The executor and the JSON decoding of its replies are
    operations of the model; the resolver of lots and ticks is the interface of
    the source. *)
From Stdlib Require Import QArith.
From S2P Require Import Prelude Types Errs Retry Routes Domain.
Local Open Scope Z_scope.
Local Open Scope go_scope.

Create HintDb trading.

(** ** Constants *)
Definition opEntrust : string := "trade/TradeEntrust".
Definition opCancelEntrust : string := "trade/TradeCancelEntrust".
Definition opBatchCancelEntrust : string := "trade/TradeBatchCancelEntrust".
Definition opChangeEntrust : string := "trade/TradeChangeEntrust".
Definition opMaxAvailableAsset : string := "trade/TradeQueryMaxAvailableAsset".
Definition opRealEntrustList : string := "trade/TradeQueryRealEntrustList".
Definition opRealDeliverList : string := "trade/TradeQueryRealDeliverList".
Definition opRealCondOrderList : string := "trade/TradeQueryRealCondOrderList".
Definition opHistoryEntrustList : string := "trade/TradeQueryHistoryEntrustList".
Definition opHistoryDeliverList : string := "trade/TradeQueryHistoryDeliverList".
Definition opHistoryCondOrderList : string := "trade/TradeQueryHistoryCondOrderList".
Definition opMarginFullInfo : string := "trade/TradeQueryMarginFullInfo".
Definition opBeforeAndAfterSupport : string := "trade/TradeQueryBeforeAndAfterSupport".
Definition opTradeSubscribe : string := "trade/TradeSubscribe".
Definition opTradeUnsubscribe : string := "trade/TradeUnsubscribe".

Definition maxValidDays : Z := 100.
Definition defaultPageSize : Z := 50.
Definition maxPageSize : Z := 500.

Definition knownHKOrderTypes : list string := [
  EntrustTypeAuctionLimit; EntrustTypeAuction; EntrustTypeEnhancedLimit; EntrustTypeLimit;
  EntrustTypeSpecialLimit; EntrustTypeDarkPool; EntrustTypeOddLot; EntrustTypeStopProfitLimit;
  EntrustTypeStopLossLimit; EntrustTypeTrailingStopLimit ].

Record sessionWindow := mkWindow {
  preMarketStart : string;
  preMarketEnd : string;
  regularStart : string;
  regularEnd : string;
  afterHoursStart : string;
  afterHoursEnd : string;
}.

(** [hkSessionWindows[market]]; the map has one key. *)
Definition hkSessionWindows (market : string) : option sessionWindow :=
  switch market [("HK", Some (mkWindow "09:00" "09:30" "09:30" "12:00" "12:00" "16:00"))] None.

(** ** The clock of the session windows

    [now.In(hkZone).Format("15:04")] for a Unix time in seconds. *)
Definition two_digits (n : Z) : string := (if decide (n < 10) then "0" else "") +:+ itoa n.

Definition hkt_clock (now : Z) : string :=
  let s := (now + 8 * 3600) mod 86400 in
  two_digits (s / 3600) +:+ ":" +:+ two_digits (s / 60 mod 60).

(** Go's [a < b] on strings. *)
Definition str_lt (a b : string) : bool := String.ltb a b.

(** ** Orders *)
Section order.
Context {D : Type} `{Decimal D}.

Record Order := mkOrder {
  o_Symbol : Symbol;
  o_Side : string;
  o_OrderType : string;
  o_Quantity : Quantity D;
  o_Price : Price D;
  o_TimeInForce : string;
  o_SessionType : string;
  o_IcebergQty : Quantity D;
  o_ValidDays : Z;
  o_CondValue : string;
  o_CondTrackType : string;
  o_ClientType : Z;
  o_Exchange : string;
}.

Definition invalid_entrust (msg : string) : error := Errs.New StatusInvalidParam opEntrust msg.

Definition from_domain (r : outcome (option error)) : outcome (option error) :=
  match r with
  | Ret (Some e) => Ret (Some (invalid_entrust (error_text e)))
  | r => r
  end.

Definition validateQuantityForHK (qty : Quantity D) (schedule : resolver D) (sym : Symbol)
    : outcome (option error) :=
  match ScheduleFor schedule sym with
  | None => Ret None
  | Some (lot, _) =>
      from_domain (Ret (ValidateInteger qty)) ;?; from_domain (ValidateLot qty lot)
  end.

Definition resolveTickForPrice (price : Price D) (schedule : resolver D) (sym : Symbol)
    : outcome (option string) :=
  match ScheduleForPrice schedule with
  | Some priced => priced sym price
  | None => Ret (snd <$> ScheduleFor schedule sym)
  end.

Definition validatePriceForHK (price : Price D) (schedule : resolver D) (sym : Symbol)
    : outcome (option error) :=
  match resolveTickForPrice price schedule sym with
  | Panic => Panic
  | Ret None => Ret None
  | Ret (Some tick) => from_domain (ValidateOn price tick)
  end.

Definition validateSessionWindow (now : Z) (market sessionType : string) : option error :=
  if decide (market <> MarketHK) then None
  else if decide (sessionType = "") then None
  else
    match hkSessionWindows market with
    | None => None
    | Some w =>
        let currentTime := hkt_clock now in
        let outside a b := str_lt currentTime a || str_lt b currentTime in
        if decide (sessionType = "0" \/ sessionType = "") then None
        else if decide (sessionType = "1") then
          if outside (preMarketStart w) (preMarketEnd w) then
            Some (invalid_entrust "order time is outside pre-market session window (09:00-09:30)")
          else None
        else if decide (sessionType = "2") then
          if outside (regularStart w) (regularEnd w) then
            Some (invalid_entrust
              "order time is outside regular trading session window (09:30-12:00, 12:00-16:00)")
          else None
        else if decide (sessionType = "3") then
          if outside (afterHoursStart w) (afterHoursEnd w) then
            Some (invalid_entrust "order time is outside after-hours session window (12:00-16:00)")
          else None
        else None
    end.

Definition validateOrderTypeEligibility (orderType market : string) : option error :=
  if decide (market <> MarketHK) then None
  else if decide (orderType ∈ knownHKOrderTypes) then None
  else Some (invalid_entrust ("order type " +:+ orderType +:+ " is not eligible for HK market")).

Definition validateTimeInForce (tif : string) : option error :=
  if decide (tif ∈ [""; "DAY"; "IOC"; "FOK"; "GTD"]) then None
  else Some (invalid_entrust ("time-in-force " +:+ tif +:+ " is not valid")).

Definition validateShortSellingFlag (side : string) (dtype : Z) : option error :=
  if decide (dtype <> DataTypeHKStock /\ dtype <> DataTypeHKETF) then None
  else if decide (side ∈ [EntrustBuy; EntrustSell; EntrustOpenShort; EntrustCloseShort]) then None
  else Some (invalid_entrust ("side " +:+ side +:+ " is not valid for HK stocks/ETFs")).

Definition isPriceOptional (t : string) : bool := bool_decide (t ∈ [
  EntrustTypeMarket; EntrustTypeIcebergMarket; EntrustTypeHiddenMarket; EntrustTypeStopProfitLimit;
  EntrustTypeStopProfitMarket; EntrustTypeStopLossLimit; EntrustTypeStopLossMarket;
  EntrustTypeTrailingStopLimit; EntrustTypeTrailingStopMarket]).

Definition isConditionalOrder (t : string) : bool := bool_decide (t ∈ [
  EntrustTypeStopProfitLimit; EntrustTypeStopProfitMarket; EntrustTypeStopLossLimit;
  EntrustTypeStopLossMarket; EntrustTypeTrailingStopLimit; EntrustTypeTrailingStopMarket]).

Definition validateConditional (order : Order) : option error :=
  if isConditionalOrder (o_OrderType order) then
    if decide (o_ValidDays order < 1 \/ maxValidDays < o_ValidDays order) then
      Some (invalid_entrust ("validDays must be between 1 and " +:+ itoa maxValidDays
        +:+ " for conditional orders"))
    else if decide (o_CondValue order = "") then
      Some (invalid_entrust "condValue is required for conditional orders")
    else None
  else None.

Definition validateOrderForHK (now : Z) (order : Order) (schedule : resolver D)
    : outcome (option error) :=
  let market := Market (o_Symbol order) in
  if decide (market <> MarketHK) then Ret None
  else
    validateQuantityForHK (o_Quantity order) schedule (o_Symbol order) ;?;
    (if isPriceOptional (o_OrderType order) then Ret None
     else validatePriceForHK (o_Price order) schedule (o_Symbol order)) ;?;
    Ret (validateSessionWindow now market (o_SessionType order)) ;?;
    Ret (validateOrderTypeEligibility (o_OrderType order) market) ;?;
    Ret (validateTimeInForce (o_TimeInForce order)) ;?;
    Ret (validateShortSellingFlag (o_Side order) (DataType (o_Symbol order))) ;?;
    Ret (validateConditional order).
End order.
Arguments Order D : clear implicits.

(** ** Wire requests *)
Record entrustWireRequest := mkEntrustWire {
  ew_ExchangeType : string;
  ew_StockCode : string;
  ew_EntrustAmount : string;
  ew_EntrustPrice : string;
  ew_EntrustBS : string;
  ew_EntrustType : string;
  ew_ClientType : Z;
  ew_Exchange : string;
  ew_SessionType : string;
  ew_IceBergDisplaySize : string;
  ew_ValidDays : string;
  ew_CondValue : string;
  ew_CondTrackType : string;
}.

Record changeEntrustWireRequest := mkChangeWire {
  cw_ExchangeType : string;
  cw_StockCode : string;
  cw_EntrustAmount : string;
  cw_EntrustPrice : string;
  cw_EntrustID : string;
  cw_EntrustType : string;
  cw_SessionType : string;
  cw_ValidDays : string;
  cw_CondValue : string;
  cw_CondTrackType : string;
}.

Inductive wire :=
  | WEntrust (r : entrustWireRequest)
  | WCancelEntrust (ExchangeType StockCode EntrustAmount EntrustPrice EntrustID EntrustType : string)
  | WBatchCancelEntrust (ExchangeType : string) (EntrustIDs : list string)
  | WChangeEntrust (r : changeEntrustWireRequest)
  | WMaxAvailableAsset (ExchangeType StockCode EntrustPrice EntrustType : string)
  | WRealEntrustList (ExchangeType : string) (QueryCount : Z) (QueryParamStr : string) (EntrustIDs : list string)
  | WRealDeliverList (ExchangeType : string) (QueryCount : Z) (QueryParamStr : string)
  | WCondOrderList (ExchangeType StockCode : string) (PageNo PageSize : Z)
  | WHistoryList (ExchangeType : string) (QueryCount : Z) (QueryParamStr StartDate EndDate : string)
  | WHistoryCondOrderList (ExchangeType StockCode PageNo PageSize StartTime EndTime : string)
  | WMarginFullInfo (DataType StockCode : string)
  | WBeforeAndAfterSupport (StockCode ExchangeType : string)
  | WEmpty.

(** ** Wire replies *)
Record FareWire := mkFareWire {
  Fare0 : string; Fare1 : string; Fare2 : string; Fare3 : string; Fare4 : string; Fare5 : string;
  Fare6 : string; Fare7 : string; Fare8 : string; Fare9 : string; FareX : string; FareT : string;
}.

Record EntrustWire := mkEntrustWireReply {
  r_StockCode : string;
  r_StockName : string;
  r_BusinessPrice : string;
  r_EntrustBS : string;
  r_EntrustPrice : string;
  r_BusinessBalance : string;
  r_EntrustAmount : string;
  r_BusinessAmount : string;
  r_Date : string;
  r_BusinessTime : string;
  r_EntrustTime : string;
  r_QueryParamStr : string;
  r_StatusDesc : string;
  r_Status : string;
  r_EntrustID : string;
  r_UnBusinessAmount : string;
  r_CanBeCanceled : Z;
  r_EntrustType : string;
  r_OpponentSeat : string;
  r_EntrustTypeNum : string;
  r_RemarkType : string;
  r_Remark : string;
  r_FareVo : option FareWire;
  r_ExchangeType : string;
  r_CanBeUpdated : Z;
  r_Exchange : string;
}.

Record CondOrderWire := mkCondOrderWire {
  co_CondOrderID : string;
  co_DataType : string;
  co_StockCode : string;
  co_StockName : string;
  co_StockNameTc : string;
  co_StockNameEn : string;
  co_ExchangeType : string;
  co_EntrustType : string;
  co_SessionType : string;
  co_Status : string;
  co_CanBeCancel : string;
  co_CanBeModify : string;
  co_EntrustBS : string;
  co_EntrustAmount : string;
  co_CreateTime : string;
  co_StartTime : string;
  co_EndTime : string;
  co_ErrorCode : string;
  co_ErrorMsg : string;
  co_CondValue : string;
  co_CondPrice : string;
  co_CondTrackType : string;
}.

Record RateWire := mkRateWire {
  rw_CurrencyCode : string;
  rw_CurrencyDesc : string;
  rw_InterestRateWithinMortgage : string;
}.

Record MarginFullInfoWire := mkMarginWire {
  mw_MarginAllow : string;
  mw_MarginInitRatio : string;
  mw_MarginKeepRatio : string;
  mw_ShortAllow : string;
  mw_ShortInitMarginRatio : string;
  mw_ShortInterestRate : string;
  mw_ShortKeepMarginRatio : string;
  mw_ShortLastAvailableQty : string;
  mw_Rate : list RateWire;
}.

Record MaxAvailableWire := mkMaxWire {
  mx_PositionStatus : string;
  mx_Position : string;
  mx_LongOpenAvailable : string;
  mx_LongCloseAvailable : string;
  mx_CashAvailableToOpen : string;
  mx_MarginAvailableToOpen : string;
  mx_CashAndMarginAvailableToOpen : string;
  mx_CashAvailableAmount : string;
  mx_MarginAvailableAmount : string;
  mx_CashAndMarginAvailableAmount : string;
  mx_ShortOpenAvailable : string;
  mx_ShortCloseAvailable : string;
  mx_ShortCloseCashAvailable : string;
  mx_ShortOpenPool : string;
  mx_ShortBuyPower : string;
  mx_ContractSize : string;
  mx_UnitedBuyPowerStatus : string;
  mx_CreditLimit : string;
  mx_OptionLongMarginAmount : string;
  mx_OptionShortMarginAmount : string;
}.

(** ** Domain results and their mappings *)
Section mappings.
Context {D : Type} `{Decimal D}.

Record Fare := mkFare {
  Commission : Money D;
  StampDuty : Money D;
  TradingFee : Money D;
  TransactionLevy : Money D;
  OptionRegFee : Money D;
  OptionClearingFee : Money D;
  PlatformFee : Money D;
  AFRCLevy : Money D;
  SettlementFee : Money D;
  Total : Money D;
}.

Record Entrust_ := mkEntrust {
  e_Symbol : Symbol;
  e_EntrustID : string;
  e_OrderID : string;
  e_Side : string;
  e_OrderType : string;
  e_Price : Price D;
  e_Quantity : Quantity D;
  e_FilledQty : Quantity D;
  e_AvgPrice : Price D;
  e_Status : string;
  e_StatusDesc : string;
  e_CanCancel : bool;
  e_CanModify : bool;
  e_Date : string;
  e_Time : string;
  e_ExchangeType : string;
  e_RemarkType : string;
  e_Remark : string;
  e_OpponentSeat : string;
  e_Fare : option Fare;
}.

Record Fill := mkFill {
  f_Symbol : Symbol;
  f_EntrustID : string;
  f_OrderID : string;
  f_Side : string;
  f_Price : Price D;
  f_Quantity : Quantity D;
  f_FilledQty : Quantity D;
  f_Turnover : Money D;
  f_Status : string;
  f_StatusDesc : string;
  f_Date : string;
  f_Time : string;
  f_ExchangeType : string;
  f_CounterID : string;
  f_Fare : option Fare;
}.

Record CondOrder := mkCondOrder {
  c_CondOrderID : string;
  c_Symbol : Symbol;
  c_Side : string;
  c_OrderType : string;
  c_Quantity : Quantity D;
  c_Status : string;
  c_StatusDesc : string;
  c_CanCancel : bool;
  c_CanModify : bool;
  c_CreateTime : string;
  c_StartTime : string;
  c_EndTime : string;
  c_CondValue : string;
  c_CondPrice : string;
  c_CondTrackType : string;
  c_ErrorCode : string;
  c_ErrorMsg : string;
  c_SessionType : string;
}.

Record MarginInfo := mkMarginInfo {
  MarginAllow : bool;
  MarginInitRatio : Rate D;
  MarginKeepRatio : Rate D;
  ShortAllow : bool;
  ShortInitMarginRatio : Rate D;
  ShortInterestRate : Rate D;
  ShortKeepMarginRatio : Rate D;
  ShortLastAvailableQty : Quantity D;
  Rates : list (string * string * Rate D);
}.

Record MaxAvailable := mkMaxAvailable {
  PositionStatus : string;
  Position : Quantity D;
  LongOpenAvailable : Quantity D;
  LongCloseAvailable : Quantity D;
  CashAvailableToOpen : Quantity D;
  MarginAvailableToOpen : Quantity D;
  CashAndMarginAvailableToOpen : Quantity D;
  CashAvailableAmount : Money D;
  MarginAvailableAmount : Money D;
  CashAndMarginAvailableAmount : Money D;
  ShortOpenAvailable : Quantity D;
  ShortCloseAvailable : Quantity D;
  ShortCloseCashAvailable : Quantity D;
  ShortOpenPool : Quantity D;
  ShortBuyPower : Money D;
  ContractSize : Quantity D;
  UnitedBuyPowerStatus : string;
  CreditLimit : Money D;
  OptionLongMarginAmount : Money D;
  OptionShortMarginAmount : Money D;
}.

Definition hkd (s : string) : outcome (Money D) := MustNewMoney s "HKD" 3.

Definition FareFromWire (f : option FareWire) : outcome (option Fare) :=
  match f with
  | None => Ret None
  | Some f =>
      a0 ← hkd (Fare0 f); a1 ← hkd (Fare1 f); a2 ← hkd (Fare2 f); a3 ← hkd (Fare3 f);
      a4 ← hkd (Fare4 f); a5 ← hkd (Fare5 f); a6 ← hkd (Fare6 f); a9 ← hkd (Fare9 f);
      ax ← hkd (FareX f); at_ ← hkd (FareT f);
      Ret (Some (mkFare a0 a1 a2 a3 a4 a5 a6 a9 ax at_))
  end.

Definition EntrustFromWire (v : EntrustWire) (exchangeType : string) : outcome Entrust_ :=
  let symbol := NewSymbol (MarketFromExchange exchangeType) (r_StockCode v) 0 in
  price ← MustNewPrice (r_EntrustPrice v) "0";
  qty ← MustNewQuantity (r_EntrustAmount v);
  filled ← MustNewQuantity (r_BusinessAmount v);
  avg ← MustNewPrice (r_BusinessPrice v) "0";
  fare ← FareFromWire (r_FareVo v);
  Ret (mkEntrust symbol (r_EntrustID v) (r_EntrustID v) (r_EntrustBS v) (r_EntrustType v) price qty
    filled avg (r_Status v) (r_StatusDesc v) (bool_decide (r_CanBeCanceled v = 1))
    (bool_decide (r_CanBeUpdated v = 1)) (r_Date v) (r_EntrustTime v) exchangeType (r_RemarkType v)
    (r_Remark v) (r_OpponentSeat v) fare).

Definition FillFromWire (v : EntrustWire) (exchangeType : string) : outcome Fill :=
  let symbol := NewSymbol (MarketFromExchange exchangeType) (r_StockCode v) 0 in
  price ← MustNewPrice (r_BusinessPrice v) "0";
  qty ← MustNewQuantity (r_EntrustAmount v);
  filled ← MustNewQuantity (r_BusinessAmount v);
  turnover ← hkd (r_BusinessBalance v);
  fare ← FareFromWire (r_FareVo v);
  Ret (mkFill symbol (r_EntrustID v) (r_EntrustID v) (r_EntrustBS v) price qty filled turnover
    (r_Status v) (r_StatusDesc v) (r_Date v) (r_BusinessTime v) exchangeType (r_OpponentSeat v) fare).

Definition condOrderStatusDesc (status : string) : string :=
  switch status [("1", "pending trigger"); ("2", "triggered"); ("3", "paused"); ("4", "expired");
    ("5", "deleted"); ("6", "error"); ("8", "stop invalidated"); ("9", "ex-rights invalidated")] status.

Definition CondOrderFromWire (v : CondOrderWire) : outcome CondOrder :=
  qty ← MustNewQuantity (co_EntrustAmount v);
  Ret (mkCondOrder (co_CondOrderID v)
    (NewSymbol (MarketFromExchange (co_ExchangeType v)) (co_StockCode v) 0) (co_EntrustBS v)
    (co_EntrustType v) qty (co_Status v) (condOrderStatusDesc (co_Status v))
    (bool_decide (co_CanBeCancel v = "1")) (bool_decide (co_CanBeModify v = "1")) (co_CreateTime v)
    (co_StartTime v) (co_EndTime v) (co_CondValue v) (co_CondPrice v) (co_CondTrackType v)
    (co_ErrorCode v) (co_ErrorMsg v) (co_SessionType v)).

Definition MaxAvailableFromWire (m : MaxAvailableWire) : outcome MaxAvailable :=
  v1 ← MustNewQuantity (mx_Position m);
  v2 ← MustNewQuantity (mx_LongOpenAvailable m);
  v3 ← MustNewQuantity (mx_LongCloseAvailable m);
  v4 ← MustNewQuantity (mx_CashAvailableToOpen m);
  v5 ← MustNewQuantity (mx_MarginAvailableToOpen m);
  v6 ← MustNewQuantity (mx_CashAndMarginAvailableToOpen m);
  v7 ← hkd (mx_CashAvailableAmount m);
  v8 ← hkd (mx_MarginAvailableAmount m);
  v9 ← hkd (mx_CashAndMarginAvailableAmount m);
  v10 ← MustNewQuantity (mx_ShortOpenAvailable m);
  v11 ← MustNewQuantity (mx_ShortCloseAvailable m);
  v12 ← MustNewQuantity (mx_ShortCloseCashAvailable m);
  v13 ← MustNewQuantity (mx_ShortOpenPool m);
  v14 ← hkd (mx_ShortBuyPower m);
  v15 ← MustNewQuantity (mx_ContractSize m);
  v17 ← hkd (mx_CreditLimit m);
  v18 ← hkd (mx_OptionLongMarginAmount m);
  v19 ← hkd (mx_OptionShortMarginAmount m);
  Ret (mkMaxAvailable (mx_PositionStatus m) v1 v2 v3 v4 v5 v6 v7 v8 v9 v10 v11 v12 v13 v14 v15
    (mx_UnitedBuyPowerStatus m) v17 v18 v19).

(** A loop over the rows of a reply. *)
Fixpoint each {A B} (f : A -> outcome B) (l : list A) : outcome (list B) :=
  match l with
  | [] => Ret []
  | x :: l => y ← f x; ys ← each f l; Ret (y :: ys)
  end.

Definition rate_from_wire (r : RateWire) : outcome (string * string * Rate D) :=
  v ← MustNewRate (rw_InterestRateWithinMortgage r);
  Ret (rw_CurrencyCode r, rw_CurrencyDesc r, v).

Definition MarginInfoFromWire (m : MarginFullInfoWire) : outcome MarginInfo :=
  a ← MustNewRate (mw_MarginInitRatio m);
  b ← MustNewRate (mw_MarginKeepRatio m);
  c ← MustNewRate (mw_ShortInitMarginRatio m);
  d ← MustNewRate (mw_ShortInterestRate m);
  e ← MustNewRate (mw_ShortKeepMarginRatio m);
  f ← MustNewQuantity (mw_ShortLastAvailableQty m);
  rates ← each rate_from_wire (mw_Rate m);
  Ret (mkMarginInfo (bool_decide (mw_MarginAllow m = "1")) a b (bool_decide (mw_ShortAllow m = "1"))
    c d e f rates).

Definition SessionSupportFromWire (symbol : Symbol) (support : string) : Symbol * bool * bool :=
  (symbol, bool_decide (support = "1"), bool_decide (support = "1")).
End mappings.
Arguments Fare D : clear implicits.
Arguments Entrust_ D : clear implicits.
Arguments Fill D : clear implicits.
Arguments CondOrder D : clear implicits.
Arguments MarginInfo D : clear implicits.
Arguments MaxAvailable D : clear implicits.

(** ** The service *)

(** The executor: [Do] sends one request and returns an error or the reply, which
    the decoders read as the struct the caller passed; it may panic. *)
Record executor (W Raw : Type) := mkExecutor {
  exec_Do : string -> string -> wire -> W -> outcome (Raw + error) * W;
  as_entrustId : Raw -> string;
  as_data : Raw -> string;
  as_orders : Raw -> list EntrustWire;
  as_condOrders : Raw -> list CondOrderWire;
  as_maxAvailable : Raw -> MaxAvailableWire;
  as_margin : Raw -> MarginFullInfoWire;
}.
Arguments exec_Do {W Raw} _.
Arguments as_entrustId {W Raw} _.
Arguments as_data {W Raw} _.
Arguments as_orders {W Raw} _.
Arguments as_condOrders {W Raw} _.
Arguments as_maxAvailable {W Raw} _.
Arguments as_margin {W Raw} _.

Record OrderResult := mkOrderResult { or_EntrustID : string; or_OrderID : string; or_Status : string }.

Record CondOrderFilter := mkCondOrderFilter {
  cf_ExchangeType : string;
  cf_StockCode : string;
  cf_PageNo : Z;
  cf_PageSize : Z;
}.

Record HistoryFilter := mkHistoryFilter {
  hf_ExchangeType : string;
  hf_StartDate : string;
  hf_EndDate : string;
  hf_StockCode : string;
  hf_PageNo : Z;
  hf_PageSize : Z;
}.

Definition page_no (n : Z) : Z := if decide (n <= 0) then 1 else n.
Definition page_size (n : Z) : Z :=
  let n := if decide (n <= 0) then defaultPageSize else n in
  if decide (maxPageSize < n) then maxPageSize else n.

Definition exchange_of (market : string) : string :=
  switch market [(MarketHK, ExchangeHK); (MarketUS, ExchangeUS)] "".

Section service.
Context {D W Raw : Type} `{Decimal D}.

Record TradingService := mkTradingService {
  client : executor W Raw;
  schedule : option (resolver D);
}.

Inductive TradingOption :=
  | WithTradingClient (c : executor W Raw)
  | WithTickSchedule (r : option (resolver D)).

Definition apply_option (s : TradingService) (o : TradingOption) : TradingService :=
  match o with
  | WithTradingClient c => mkTradingService c (schedule s)
  | WithTickSchedule None => s
  | WithTickSchedule (Some r) => mkTradingService (client s) (Some r)
  end.

Definition NewTradingService (c : executor W Raw) (opts : list TradingOption) : TradingService :=
  foldl apply_option (mkTradingService c None) opts.

Definition tickSchedule (s : TradingService) : resolver D := default TickSchedule_resolver (schedule s).

(** What a call returns, and the world it leaves. *)
Abbreviation result A := (outcome (A + error) * W)%type.

Definition reject {A} (op msg : string) (w : W) : result A :=
  (Ret (inr (Errs.New StatusInvalidParam op msg)), w).

(** One request, and a mapping of its reply. *)
Definition call {A} (s : TradingService) (op route : string) (req : wire) (w : W)
    (f : Raw -> outcome A) : result A :=
  match exec_Do (client s) op route req w with
  | (Panic, w) => (Panic, w)
  | (Ret (inr e), w) => (Ret (inr e), w)
  | (Ret (inl raw), w) => (match f raw with Ret a => Ret (inl a) | Panic => Panic end, w)
  end.

Definition Entrust (now : Z) (s : TradingService) (accountID : string) (order : Order D) (w : W)
    : result OrderResult :=
  if decide (accountID = "") then reject opEntrust "accountID must not be empty" w
  else
    match validateOrderForHK now order (tickSchedule s) with
    | Panic => (Panic, w)
    | Ret (Some e) => (Ret (inr e), w)
    | Ret None =>
        let req := mkEntrustWire (exchange_of (Market (o_Symbol order))) (Code (o_Symbol order))
          (dec_String (qty_dec (o_Quantity order))) (dec_String (price_dec (o_Price order)))
          (o_Side order) (o_OrderType order) (o_ClientType order) "" (o_SessionType order)
          (dec_String (qty_dec (o_IcebergQty order))) (itoa (o_ValidDays order)) (o_CondValue order)
          (o_CondTrackType order) in
        call s opEntrust RouteTradeEntrust (WEntrust req) w
          (fun raw => Ret (mkOrderResult (as_entrustId (client s) raw) "" EntrustStatusWaitToRegister))
    end.

Definition CancelEntrust (s : TradingService) (accountID entrustID : string) (w : W) : result unit :=
  if decide (accountID = "") then reject opCancelEntrust "accountID must not be empty" w
  else if decide (entrustID = "") then reject opCancelEntrust "entrustID must not be empty" w
  else
    call s opCancelEntrust RouteTradeCancelEntrust (WCancelEntrust ExchangeHK "" "" "" entrustID "") w
      (fun _ => Ret tt).

Definition BatchCancelEntrust (s : TradingService) (accountID : string) (entrustIDs : list string) (w : W)
    : result unit :=
  if decide (accountID = "") then reject opBatchCancelEntrust "accountID must not be empty" w
  else
    call s opBatchCancelEntrust RouteTradeBatchCancelEntrust (WBatchCancelEntrust ExchangeHK entrustIDs) w
      (fun _ => Ret tt).

Definition changeEntrustSymbol : Symbol := mkSymbol MarketHK "" DataTypeHKStock "" "".

Definition ChangeEntrust (s : TradingService) (accountID entrustID : string) (newPrice : Price D)
    (newQty : Quantity D) (w : W) : result unit :=
  if decide (accountID = "") then reject opChangeEntrust "accountID must not be empty" w
  else if decide (entrustID = "") then reject opChangeEntrust "entrustID must not be empty" w
  else
    match (validatePriceForHK newPrice (tickSchedule s) changeEntrustSymbol ;?;
           validateQuantityForHK newQty (tickSchedule s) changeEntrustSymbol) with
    | Panic => (Panic, w)
    | Ret (Some e) => (Ret (inr e), w)
    | Ret None =>
        call s opChangeEntrust RouteTradeChangeEntrust
          (WChangeEntrust (mkChangeWire ExchangeHK "" (dec_String (qty_dec newQty))
            (dec_String (price_dec newPrice)) entrustID "" "" "" "" "")) w (fun _ => Ret tt)
    end.

Definition MaxAvailableAsset (s : TradingService) (accountID : string) (symbol : Symbol) (price : Price D)
    (orderType : string) (w : W) : result (MaxAvailable D) :=
  if decide (accountID = "") then reject opMaxAvailableAsset "accountID must not be empty" w
  else if Symbol_IsZero symbol then reject opMaxAvailableAsset "symbol must not be empty" w
  else
    call s opMaxAvailableAsset RouteTradeQueryMaxAvailableAsset
      (WMaxAvailableAsset (exchange_of (Market symbol)) (Code symbol) (dec_String (price_dec price)) orderType) w
      (fun raw => MaxAvailableFromWire (as_maxAvailable (client s) raw)).

Definition RealEntrustList (s : TradingService) (accountID exchangeType : string) (entrustIDs : list string)
    (w : W) : result (list (Entrust_ D)) :=
  if decide (accountID = "") then reject opRealEntrustList "accountID must not be empty" w
  else
    call s opRealEntrustList RouteTradeQueryRealEntrustList
      (WRealEntrustList exchangeType defaultPageSize "" entrustIDs) w
      (fun raw => each (fun v => EntrustFromWire v exchangeType) (as_orders (client s) raw)).

Definition RealDeliverList (s : TradingService) (accountID exchangeType : string) (w : W)
    : result (list (Fill D)) :=
  if decide (accountID = "") then reject opRealDeliverList "accountID must not be empty" w
  else
    call s opRealDeliverList RouteTradeQueryRealDeliverList
      (WRealDeliverList exchangeType defaultPageSize "") w
      (fun raw => each (fun v => FillFromWire v exchangeType) (as_orders (client s) raw)).

Definition RealCondOrderList (s : TradingService) (accountID : string) (filter : CondOrderFilter) (w : W)
    : result (list (CondOrder D)) :=
  if decide (accountID = "") then reject opRealCondOrderList "accountID must not be empty" w
  else
    call s opRealCondOrderList RouteTradeQueryRealCondOrderList
      (WCondOrderList (cf_ExchangeType filter) (cf_StockCode filter) (page_no (cf_PageNo filter))
        (page_size (cf_PageSize filter))) w
      (fun raw => each CondOrderFromWire (as_condOrders (client s) raw)).

Definition HistoryEntrustList (s : TradingService) (accountID : string) (filter : HistoryFilter) (w : W)
    : result (list (Entrust_ D)) :=
  if decide (accountID = "") then reject opHistoryEntrustList "accountID must not be empty" w
  else
    call s opHistoryEntrustList RouteTradeQueryHistoryEntrustList
      (WHistoryList (hf_ExchangeType filter) defaultPageSize "" (hf_StartDate filter) (hf_EndDate filter)) w
      (fun raw => each (fun v => EntrustFromWire v (hf_ExchangeType filter)) (as_orders (client s) raw)).

Definition HistoryDeliverList (s : TradingService) (accountID : string) (filter : HistoryFilter) (w : W)
    : result (list (Fill D)) :=
  if decide (accountID = "") then reject opHistoryDeliverList "accountID must not be empty" w
  else
    call s opHistoryDeliverList RouteTradeQueryHistoryDeliverList
      (WHistoryList (hf_ExchangeType filter) defaultPageSize "" (hf_StartDate filter) (hf_EndDate filter)) w
      (fun raw => each (fun v => FillFromWire v (hf_ExchangeType filter)) (as_orders (client s) raw)).

Definition HistoryCondOrderList (s : TradingService) (accountID : string) (filter : HistoryFilter) (w : W)
    : result (list (CondOrder D)) :=
  if decide (accountID = "") then reject opHistoryCondOrderList "accountID must not be empty" w
  else
    call s opHistoryCondOrderList RouteTradeQueryHistoryCondOrderList
      (WHistoryCondOrderList (hf_ExchangeType filter) (hf_StockCode filter)
        (itoa (page_no (hf_PageNo filter))) (itoa (page_size (hf_PageSize filter)))
        (hf_StartDate filter +:+ " 00:00:00") (hf_EndDate filter +:+ " 23:59:59")) w
      (fun raw => each CondOrderFromWire (as_condOrders (client s) raw)).

Definition MarginFullInfo (s : TradingService) (accountID : string) (w : W) : result (MarginInfo D) :=
  if decide (accountID = "") then reject opMarginFullInfo "accountID must not be empty" w
  else
    call s opMarginFullInfo RouteTradeQueryMarginFullInfo (WMarginFullInfo "10000" "") w
      (fun raw => MarginInfoFromWire (as_margin (client s) raw)).

Definition BeforeAndAfterSupport (s : TradingService) (symbol : Symbol) (w : W)
    : result (Symbol * bool * bool) :=
  if Symbol_IsZero symbol then reject opBeforeAndAfterSupport "symbol must not be empty" w
  else
    call s opBeforeAndAfterSupport RouteTradeQueryBeforeAndAfterSupport
      (WBeforeAndAfterSupport (Code symbol) (exchange_of (Market symbol))) w
      (fun raw => Ret (SessionSupportFromWire symbol (as_data (client s) raw))).

Definition SubscribeOrders (s : TradingService) (accountID : string) (w : W) : result unit :=
  if decide (accountID = "") then reject opTradeSubscribe "accountID must not be empty" w
  else call s opTradeSubscribe RouteTradeSubscribe WEmpty w (fun _ => Ret tt).

Definition UnsubscribeOrders (s : TradingService) (accountID : string) (w : W) : result unit :=
  if decide (accountID = "") then reject opTradeUnsubscribe "accountID must not be empty" w
  else call s opTradeUnsubscribe RouteTradeUnsubscribe WEmpty w (fun _ => Ret tt).
End service.
Arguments TradingService D W Raw : clear implicits.

(** ** The session windows *)

(** The minute of the Hong Kong day. *)
Definition hkt_minute (now : Z) : Z := (now + 8 * 3600) mod 86400 / 60.

Definition clock_of (m : Z) : string := two_digits (m / 60) +:+ ":" +:+ two_digits (m mod 60).

Lemma hkt_clock_minute now : hkt_clock now = clock_of (hkt_minute now).
Proof.
  unfold hkt_clock, clock_of, hkt_minute. rewrite !Z.div_div by lia.
  change (60 * 60) with 3600. done.
Qed.

Lemma hkt_minute_range now : 0 <= hkt_minute now < 1440.
Proof.
  unfold hkt_minute. pose proof (Z.mod_pos_bound (now + 8 * 3600) 86400 ltac:(lia)).
  pose proof (Z.div_mod ((now + 8 * 3600) mod 86400) 60 ltac:(lia)).
  pose proof (Z.mod_pos_bound ((now + 8 * 3600) mod 86400) 60 ltac:(lia)). lia.
Qed.

(** Comparing clock strings compares minutes, for the bounds the table uses. *)
Definition clock_check (m : Z) : bool :=
  forallb (fun b => bool_decide (str_lt (clock_of m) (clock_of b) = bool_decide (m < b))
                    && bool_decide (str_lt (clock_of b) (clock_of m) = bool_decide (b < m)))
    [540; 570; 720; 960].

Lemma clock_checked : forallb clock_check (seqZ 0 1440) = true.
Proof. vm_compute. reflexivity. Qed.

Lemma clock_lt now b : b ∈ [540; 570; 720; 960] ->
  str_lt (hkt_clock now) (clock_of b) = bool_decide (hkt_minute now < b)
  /\ str_lt (clock_of b) (hkt_clock now) = bool_decide (b < hkt_minute now).
Proof.
  intros Hb. pose proof (hkt_minute_range now) as Hm.
  pose proof (range_checked _ 0 1440 clock_checked (hkt_minute now) ltac:(lia)) as Hall.
  unfold clock_check in Hall. rewrite forallb_forall in Hall.
  rewrite hkt_clock_minute. specialize (Hall b ltac:(by apply list_elem_of_In)).
  apply andb_prop in Hall as [H1 H2]. by apply bool_decide_eq_true in H1, H2.
Qed.

(** The windows the code enforces, in minutes: 09:00-09:30, 09:30-12:00 and
    12:00-16:00, whole last minute included; other session types are not checked. *)
Definition session_open (now : Z) (sessionType : string) : Prop :=
  let m := hkt_minute now in
  (sessionType = "1" -> 540 <= m <= 570)
  /\ (sessionType = "2" -> 570 <= m <= 720)
  /\ (sessionType = "3" -> 720 <= m <= 960).

Lemma outside_window now a b : a ∈ [540; 570; 720; 960] -> b ∈ [540; 570; 720; 960] ->
  str_lt (hkt_clock now) (clock_of a) || str_lt (clock_of b) (hkt_clock now)
    = negb (bool_decide (a <= hkt_minute now <= b)).
Proof.
  intros Ha Hb. destruct (clock_lt now a Ha) as [-> _], (clock_lt now b Hb) as [_ ->].
  repeat case_bool_decide; simpl; try done; lia.
Qed.

Lemma session_window_spec now sessionType :
  validateSessionWindow now MarketHK sessionType = None <-> session_open now sessionType.
Proof.
  unfold validateSessionWindow, session_open. rewrite decide_False by (intros Hn; by apply Hn).
  destruct (decide (sessionType = "")) as [->|Hne]; [done |].
  change (hkSessionWindows MarketHK)
    with (Some (mkWindow (clock_of 540) (clock_of 570) (clock_of 570) (clock_of 720) (clock_of 720) (clock_of 960))).
  cbn [preMarketStart preMarketEnd regularStart regularEnd afterHoursStart afterHoursEnd].
  rewrite !outside_window by (apply (bool_decide_unpack _); by vm_compute).
  destruct (decide (sessionType = "0" \/ sessionType = "")) as [[->|?]|Hn0]; [done | done |].
  repeat case_decide; subst; repeat case_bool_decide; simpl; try (split; [done | naive_solver]).
  all: split; [intros _; split_and!; congruence | done].
Qed.

(** ** What is accepted *)
Section acceptance.
Context {D : Type} `{DecimalLaws D}.

Lemma from_domain_ok r : from_domain r = Ret None <-> r = Ret None.
Proof. destruct r as [[e|]|]; simpl; naive_solver. Qed.

Lemma from_domain_panic r : from_domain r = Panic <-> r = Panic.
Proof. destruct r as [[e|]|]; simpl; naive_solver. Qed.

Lemma ValidateLot_spec (q : Quantity D) (lot : Z) :
  0 < lot <= int_max ->
  exists e, ValidateLot q lot = Ret e /\ (e = None <-> multiple (val (qty_dec q)) (inject_Z lot)).
Proof using Type*.
  intros Hl. unfold ValidateLot. rewrite !decide_False by lia.
  assert (Hnz : ~ (val (dec_NewFromInt lot) == 0)%Q).
  { rewrite NewFromInt_law. unfold Qeq. simpl. lia. }
  destruct (Mod_zero (qty_dec q) (dec_NewFromInt lot) Hnz) as (r & -> & Hr).
  assert (Hm : multiple (val (qty_dec q)) (val (dec_NewFromInt lot)) <-> multiple (val (qty_dec q)) (inject_Z lot)).
  { split; intros [k Hk]; exists k; [by rewrite <- (NewFromInt_law lot) | by rewrite (NewFromInt_law lot)]. }
  destruct (dec_IsZero r); (eexists; split; [done |]); rewrite <- Hm, <- Hr; naive_solver.
Qed.

Lemma ValidateOn_spec (p : Price D) (tick : string) (g : Q) :
  numeral_value tick = Some g -> tick <> "" -> (0 < g)%Q ->
  exists e, ValidateOn p tick = Ret e
    /\ (e = None <-> (0 <= val (price_dec p))%Q /\ multiple (val (price_dec p)) g).
Proof using Type*.
  intros Hg Hne Hpos. unfold ValidateOn. destruct (dec_IsNegative (price_dec p)) eqn:En.
  { apply IsNegative_law in En. eexists. split; [done |]. split; [done |].
    intros [Hle _]. exfalso. by apply Qlt_not_le in En. }
  assert (Hnn : (0 <= val (price_dec p))%Q).
  { apply Qnot_lt_le. rewrite <- IsNegative_law. congruence. }
  rewrite decide_False by done.
  destruct (NewFromString_law tick g Hg) as (d & -> & Hd).
  assert (Hz : dec_IsZero d = false).
  { destruct (dec_IsZero d) eqn:E; [|done]. apply IsZero_law in E. rewrite Hd in E.
    exfalso. apply (Qlt_not_eq _ _ Hpos). by symmetry. }
  assert (Hn : dec_IsNegative d = false).
  { destruct (dec_IsNegative d) eqn:E; [|done]. apply IsNegative_law in E. rewrite Hd in E.
    exfalso. apply Qlt_not_le in E. by apply E, Qlt_le_weak. }
  rewrite Hz, Hn. simpl.
  assert (Hnz : ~ (val d == 0)%Q) by (rewrite <- IsZero_law; congruence).
  destruct (Mod_zero (price_dec p) d Hnz) as (r & -> & Hr).
  assert (Hm : multiple (val (price_dec p)) (val d) <-> multiple (val (price_dec p)) g).
  { split; intros [k Hk]; exists k; [by rewrite <- Hd | by rewrite Hd]. }
  destruct (dec_IsZero r); (eexists; split; [done |]); rewrite <- Hm, <- Hr; naive_solver.
Qed.

(** The ticks of the table are positive numerals. *)
Lemma band_ticks : Forall (fun b => exists g, numeral_value (snd b) = Some g /\ snd b <> "" /\ (0 < g)%Q)
  hkStockPriceBands.
Proof.
  unfold hkStockPriceBands. repeat (constructor; [eexists; split; [vm_compute; reflexivity |]; done |]).
  constructor.
Qed.

Lemma tick_at_from bands (p : D) tick : tick_at bands p = Ret (Some tick) -> tick ∈ bands.*2.
Proof using Type.
  induction bands as [|[u t] bands IH]; simpl; [done |].
  destruct (dec_NewFromString u); [|done]. destruct (dec_LessThanOrEqual p d).
  - intros [= ->]. apply list_elem_of_here.
  - intros Ht. apply list_elem_of_further. by apply IH.
Qed.

(** What the price of a Hong Kong stock must satisfy: on the grid of its band,
    unless it is above the table. *)
Definition hk_price_ok (p : Price D) : Prop :=
  (9995 # 1 < val (price_dec p))%Q
  \/ exists tick g, hkStockTickAtPrice p = Ret (Some tick) /\ numeral_value tick = Some g
       /\ (0 <= val (price_dec p))%Q /\ multiple (val (price_dec p)) g.
End acceptance.

Section hk_stock.
Context {D : Type} `{DecimalLaws D}.

Definition hk_stock (sym : Symbol) : Prop := Market sym = MarketHK /\ DataType sym = DataTypeHKStock.

Lemma hk_price_spec (p : Price D) (sym : Symbol) :
  hk_stock sym ->
  exists e, validatePriceForHK p TickSchedule_resolver sym = Ret e /\ (e = None <-> hk_price_ok p).
Proof using Type*.
  intros [Hm Hd]. unfold validatePriceForHK, resolveTickForPrice. cbn [ScheduleForPrice TickSchedule_resolver].
  unfold TickSchedule_ScheduleForPrice. rewrite decide_False by (intros [Hn _]; by apply Hn).
  rewrite decide_True by done. unfold hk_price_ok.
  destruct (hk_tick_cases p) as [[Ht Hv]|(tick & Ht & Hv)]; rewrite Ht.
  - exists None. split; [done |]. split; [by left | done].
  - pose proof (tick_at_from _ _ _ Ht) as Hin. apply list_elem_of_fmap in Hin as ([u t] & -> & Hin).
    pose proof band_ticks as Hall. rewrite Forall_forall in Hall.
    destruct (Hall _ Hin) as (g & Hg & Hne & Hpos).
    destruct (ValidateOn_spec p _ g Hg Hne Hpos) as (e & -> & He).
    exists (match e with Some e => Some (invalid_entrust (error_text e)) | None => None end).
    split; [by destruct e |]. split.
    + intros Hn. right. exists t, g. destruct e; [done |]. split_and!; try done; by apply He.
    + intros [Hlt|(t' & g' & Ht' & Hg' & Hok)].
      * exfalso. by apply Qlt_not_le in Hlt.
      * injection Ht' as <-. simpl in Hg. rewrite Hg in Hg'. injection Hg' as <-.
        apply He in Hok as ->. done.
Qed.

Lemma hk_quantity_spec (q : Quantity D) (sym : Symbol) :
  hk_stock sym ->
  exists e, validateQuantityForHK q TickSchedule_resolver sym = Ret e
    /\ (e = None <-> multiple (val (qty_dec q)) (inject_Z 100)).
Proof using Type*.
  intros [Hm Hd]. unfold validateQuantityForHK. cbn [ScheduleFor TickSchedule_resolver].
  unfold TickSchedule_ScheduleFor, DefaultHKTickSchedule.
  rewrite decide_False by (intros [Hn _]; by apply Hn). rewrite (decide_True _ _ Hd). simpl.
  destruct (ValidateLot_spec q 100 ltac:(split; [done | by vm_compute])) as (e & -> & He).
  unfold ValidateInteger. destruct (dec_IsInteger (qty_dec q)) eqn:Ei; simpl.
  - destruct e as [e|]; simpl; (eexists; split; [done |]); rewrite <- He; naive_solver.
  - eexists. split; [done |]. split; [done |]. intros [k Hk].
    assert (Hi : dec_IsInteger (qty_dec q) = true); [|congruence].
    apply IsInteger_law. exists (k * 100). rewrite Hk, inject_Z_mult. ring.
Qed.

(** The rules for a Hong Kong stock order, in numbers. *)
Record hk_order_ok (now : Z) (o : Order D) : Prop := {
  ok_quantity : multiple (val (qty_dec (o_Quantity o))) (inject_Z 100);
  ok_price : isPriceOptional (o_OrderType o) = true \/ hk_price_ok (o_Price o);
  ok_session : session_open now (o_SessionType o);
  ok_type : o_OrderType o ∈ knownHKOrderTypes;
  ok_tif : o_TimeInForce o ∈ [""; "DAY"; "IOC"; "FOK"; "GTD"];
  ok_side : o_Side o ∈ [EntrustBuy; EntrustSell; EntrustOpenShort; EntrustCloseShort];
  ok_conditional : isConditionalOrder (o_OrderType o) = true ->
    1 <= o_ValidDays o <= 100 /\ o_CondValue o <> "";
}.

Lemma conditional_spec (o : Order D) :
  validateConditional o = None
  <-> (isConditionalOrder (o_OrderType o) = true -> 1 <= o_ValidDays o <= 100 /\ o_CondValue o <> "").
Proof using Type.
  unfold validateConditional, maxValidDays. destruct (isConditionalOrder _); [|naive_solver].
  repeat case_decide; split; naive_solver lia.
Qed.

Lemma hk_order_spec (now : Z) (o : Order D) :
  hk_stock (o_Symbol o) ->
  exists e, validateOrderForHK now o TickSchedule_resolver = Ret e /\ (e = None <-> hk_order_ok now o).
Proof using Type*.
  intros Hs. pose proof Hs as [Hm Hd]. unfold validateOrderForHK.
  rewrite decide_False by (intros Hn; by apply Hn). rewrite Hm.
  destruct (hk_quantity_spec (o_Quantity o) _ Hs) as (eq & -> & Hq).
  destruct (hk_price_spec (o_Price o) _ Hs) as (ep & Hpe & Hp). rewrite Hpe.
  pose proof (session_window_spec now (o_SessionType o)) as Hw.
  pose proof (conditional_spec o) as Hc.
  assert (Ht : validateOrderTypeEligibility (o_OrderType o) MarketHK = None <-> o_OrderType o ∈ knownHKOrderTypes).
  { unfold validateOrderTypeEligibility. rewrite decide_False by (intros Hn; by apply Hn).
    case_decide; split; done. }
  assert (Hf : validateTimeInForce (o_TimeInForce o) = None <-> o_TimeInForce o ∈ [""; "DAY"; "IOC"; "FOK"; "GTD"]).
  { unfold validateTimeInForce. case_decide; split; done. }
  assert (Hsd : validateShortSellingFlag (o_Side o) (DataType (o_Symbol o)) = None
    <-> o_Side o ∈ [EntrustBuy; EntrustSell; EntrustOpenShort; EntrustCloseShort]).
  { unfold validateShortSellingFlag. rewrite decide_False by (intros [Hn _]; by apply Hn).
    case_decide; split; done. }
  match goal with |- exists e, ?t = Ret e /\ _ =>
    assert (Hret : exists e, t = Ret e) end.
  { repeat apply and_then_returns; eauto. destruct (isPriceOptional _); eauto. }
  destruct Hret as [e He]. exists e. split; [done |].
  assert (Hn : e = None <-> Ret e = Ret (A := option error) None) by (split; congruence).
  rewrite Hn, <- He, !and_then_ok. clear He Hn.
  assert (Hpr : (if isPriceOptional (o_OrderType o) then Ret None else Ret ep) = Ret (A := option error) None
    <-> isPriceOptional (o_OrderType o) = true \/ hk_price_ok (o_Price o)).
  { destruct (isPriceOptional _); [naive_solver |]. rewrite <- Hp. naive_solver. }
  assert (Hinj : forall x : option error, Ret x = Ret None <-> x = None) by naive_solver.
  rewrite Hpr, !Hinj, Hq, Hw, Ht, Hf, Hsd, Hc. split.
  - intros (? & ? & ? & ? & ? & ? & ?). by split.
  - intros [? ? ? ? ? ? ?]. done.
Qed.
End hk_stock.

(** ** Requests *)

(** An executor that records what it sends: routes and bodies, oldest first. *)
Definition log_exec {W Raw} (E : executor W Raw) : executor (W * list (string * wire)) Raw :=
  mkExecutor _ _
    (fun op route req w =>
       let '(r, w') := exec_Do E op route req (fst w) in (r, (w', snd w ++ [(route, req)])))
    (as_entrustId E) (as_data E) (as_orders E) (as_condOrders E) (as_maxAvailable E) (as_margin E).

Definition log_service {D W Raw} `{Decimal D} (E : executor W Raw) (sch : option (resolver D))
    : TradingService D (W * list (string * wire)) Raw :=
  mkTradingService (log_exec E) sch.

Section requests.
Context {D W Raw : Type} `{Decimal D} (E : executor W Raw) (sch : option (resolver D)).

Lemma call_log {A} op route req w log (f : Raw -> outcome A) :
  snd (snd (call (log_service E sch) op route req (w, log) f)) = log ++ [(route, req)].
Proof using Type. unfold call. simpl. destruct (exec_Do E op route req w) as [[[raw|e]|] w']; done. Qed.

(** Each of the four order-changing calls sends at most one request, to its own
    route of the mutation class, and sends none when it rejects its arguments,
    whatever the resolver of ticks answers. *)
Theorem trading_mutations_once (now : Z) (acct entrustID : string) (o : Order D) (ids : list string)
    (p : Price D) (q : Quantity D) (w : W) log :
  let s := log_service E sch in
  let sent route out := out = log \/ exists req, out = log ++ [(route, req)] /\ IsMutation route = true in
  sent RouteTradeEntrust (snd (snd (Entrust now s acct o (w, log))))
  /\ sent RouteTradeCancelEntrust (snd (snd (CancelEntrust s acct entrustID (w, log))))
  /\ sent RouteTradeBatchCancelEntrust (snd (snd (BatchCancelEntrust s acct ids (w, log))))
  /\ sent RouteTradeChangeEntrust (snd (snd (ChangeEntrust s acct entrustID p q (w, log))))
  /\ (acct = "" \/ entrustID = "" ->
      snd (snd (CancelEntrust s acct entrustID (w, log))) = log
      /\ snd (snd (ChangeEntrust s acct entrustID p q (w, log))) = log).
Proof using Type.
  intros s sent.
  assert (Hone : forall A route op req (f : Raw -> outcome A), IsMutation route = true ->
    sent route (snd (snd (call s op route req (w, log) f)))).
  { intros A route op req f Hm. right. exists req. split; [apply call_log | done]. }
  split_and!.
  - unfold Entrust. case_decide; [by left |].
    destruct (validateOrderForHK _ _ _) as [[e|]|]; [by left | | by left]. apply Hone. by vm_compute.
  - unfold CancelEntrust. repeat (case_decide; [by left |]). apply Hone. by vm_compute.
  - unfold BatchCancelEntrust. case_decide; [by left |]. apply Hone. by vm_compute.
  - unfold ChangeEntrust. repeat (case_decide; [by left |]).
    destruct (and_then _ _) as [[e|]|]; [by left | | by left]. apply Hone. by vm_compute.
  - intros Hor. unfold CancelEntrust, ChangeEntrust. repeat case_decide; try done; naive_solver.
Qed.

(** The numeric fields of a row of an order list parse. *)
Definition parses (s : string) : bool :=
  match dec_NewFromString (D := D) s with inl _ => true | inr _ => false end.

Definition fare_ok (f : option FareWire) : bool :=
  match f with
  | Some f => forallb parses [Fare0 f; Fare1 f; Fare2 f; Fare3 f; Fare4 f; Fare5 f; Fare6 f; Fare9 f;
                              FareX f; FareT f]
  | None => true
  end.

Definition row_ok (v : EntrustWire) : bool :=
  forallb parses [r_EntrustPrice v; "0"; r_EntrustAmount v; r_BusinessAmount v; r_BusinessPrice v; "0"]
  && fare_ok (r_FareVo v).

Lemma fare_total f : (fare_ok f = true /\ exists x, FareFromWire (D := D) f = Ret x)
  \/ (fare_ok f = false /\ FareFromWire (D := D) f = Panic).
Proof using Type.
  destruct f as [f|]; [|eauto]. unfold fare_ok, FareFromWire, hkd, MustNewMoney, parses. simpl.
  repeat (match goal with |- context [dec_NewFromString ?s] => destruct (dec_NewFromString s) end;
    simpl; [|by right]). eauto.
Qed.

Lemma EntrustFromWire_total v x :
  (row_ok v = true /\ exists e, EntrustFromWire v x = Ret e)
  \/ (row_ok v = false /\ EntrustFromWire v x = Panic).
Proof using Type.
  unfold row_ok, EntrustFromWire, MustNewPrice, MustNewQuantity, parses. simpl.
  repeat (match goal with |- context [dec_NewFromString ?s] => destruct (dec_NewFromString s) end;
    simpl; [|by right]).
  destruct (fare_total (r_FareVo v)) as [[-> [f ->]]|[-> ->]]; simpl; eauto.
Qed.

Lemma each_total {A B} (f : A -> outcome B) (ok : A -> bool) l :
  (forall a, (ok a = true /\ exists b, f a = Ret b) \/ (ok a = false /\ f a = Panic)) ->
  (forallb ok l = true /\ exists bs, each f l = Ret bs /\ Forall2 (fun a b => f a = Ret b) l bs)
  \/ (forallb ok l = false /\ each f l = Panic).
Proof using Type.
  intros Hf. induction l as [|a l IH]; [left; simpl; eauto |]. simpl.
  destruct (Hf a) as [[-> [b Hb]]|[-> Ha]]; [|right; by rewrite Ha].
  rewrite Hb. simpl. destruct IH as [[-> (bs & -> & Hall)]|[-> ->]]; [left | by right].
  split; [done |]. exists (b :: bs). split; [done |]. by constructor.
Qed.

(** A list of orders is returned complete and in order exactly when every
    numeric field of every row parses; one empty or malformed number anywhere in
    the reply of the Gateway panics the caller's goroutine instead of returning an
    error. *)
Theorem entrust_list_panics (acct x : string) (ids : list string) (w w' : W) log raw :
  acct <> "" ->
  exec_Do E opRealEntrustList RouteTradeQueryRealEntrustList (WRealEntrustList x defaultPageSize "" ids) w
    = (Ret (inl raw), w') ->
  let out := fst (RealEntrustList (log_service E sch) acct x ids (w, log)) in
  (forallb row_ok (as_orders E raw) = true <->
     exists es, out = Ret (inl es) /\ Forall2 (fun v e => EntrustFromWire v x = Ret e) (as_orders E raw) es)
  /\ (forallb row_ok (as_orders E raw) = false <-> out = Panic).
Proof using Type.
  intros Ha Hd out. unfold out, RealEntrustList. rewrite decide_False by done.
  unfold call. simpl. rewrite Hd. simpl.
  destruct (each_total (fun v => EntrustFromWire v x) row_ok (as_orders E raw)
    (fun v => EntrustFromWire_total v x)) as [[Hok (bs & Hbs & Hall)]|[Hok Hbs]]; rewrite Hok, Hbs; simpl.
  - split; [|done]. split; [intros _; by exists bs | done].
  - split; [|done]. split; [done | by intros (es & ? & _)].
Qed.
End requests.

(** ** Hong Kong stock orders *)
Section hk_entrust.
Context {D W Raw : Type} `{DecimalLaws D} (E : executor W Raw).

(** The request of an order. *)
Definition hk_request (o : Order D) : entrustWireRequest :=
  mkEntrustWire ExchangeHK (Code (o_Symbol o)) (dec_String (qty_dec (o_Quantity o)))
    (dec_String (price_dec (o_Price o))) (o_Side o) (o_OrderType o) (o_ClientType o) ""
    (o_SessionType o) (dec_String (qty_dec (o_IcebergQty o))) (itoa (o_ValidDays o)) (o_CondValue o)
    (o_CondTrackType o).

(** C40: With the default tick schedule, an order for a Hong Kong stock is sent, once
    and unchanged, exactly when it satisfies the numeric rules: a multiple of the
    lot of 100, a non-negative price on the grid of its band or above the table
    (unless the order type takes no price), an open session window, a known order
    type, time in force and side, and 1 to 100 days and a condition for a
    conditional order; otherwise nothing is sent and an error is returned. *)
Theorem entrust_hk_stock_exact (now : Z) (acct : string) (o : Order D) (w : W) log :
  acct <> "" -> hk_stock (o_Symbol o) ->
  let r := Entrust now (log_service E None) acct o (w, log) in
  (hk_order_ok now o -> snd (snd r) = log ++ [(RouteTradeEntrust, WEntrust (hk_request o))])
  /\ (~ hk_order_ok now o -> exists e, r = (Ret (inr e), (w, log))).
Proof using Type*.
  intros Ha Hs r. unfold r, Entrust. rewrite decide_False by done. cbn [log_service tickSchedule schedule default].
  unfold tickSchedule. simpl.
  destruct (hk_order_spec now o Hs) as (e & -> & He). split.
  - intros ->%He. rewrite call_log. destruct Hs as [Hm _].
    unfold hk_request, exchange_of. by rewrite Hm.
  - intros Hn. destruct e as [e|]; [by exists e |]. by destruct Hn; apply He.
Qed.

(** An order marked for the regular session is refused, and nothing is sent,
    during the whole afternoon session of the exchange (13:00 to 16:00), although
    the error itself names 12:00-16:00 as part of the window; at that time only
    the type the code calls after-hours is let through. *)
Theorem afternoon_session_refused (now : Z) (acct : string) (o : Order D) (w : W) log :
  acct <> "" -> hk_stock (o_Symbol o) ->
  780 <= hkt_minute now < 960 ->
  (o_SessionType o = "2" ->
     exists e, Entrust now (log_service E None) acct o (w, log) = (Ret (inr e), (w, log)))
  /\ validateSessionWindow now MarketHK "2"
     = Some (invalid_entrust
         "order time is outside regular trading session window (09:30-12:00, 12:00-16:00)")
  /\ validateSessionWindow now MarketHK "3" = None.
Proof using Type*.
  intros Ha Hs Hm.
  assert (H2 : validateSessionWindow now MarketHK "2" <> None).
  { rewrite session_window_spec. intros (_ & Hw & _). specialize (Hw eq_refl). lia. }
  split_and!.
  - intros Hst. unfold Entrust. rewrite decide_False by done. unfold tickSchedule. simpl.
    destruct (hk_order_spec now o Hs) as ([e|] & -> & He); [by exists e |].
    exfalso. apply H2. apply session_window_spec. rewrite <- Hst. by apply He.
  - revert H2. unfold validateSessionWindow. simpl. by case_match.
  - apply session_window_spec. split_and!; try done. lia.
Qed.
End hk_entrust.

(** ** Witnesses *)
Definition example_row (amount : string) : EntrustWire :=
  mkEntrustWireReply "00700" "" "0" EntrustBuy "350.2" "" amount "0" "" "" "" "" "" EntrustStatusRegistered
    "1" "" 1 EntrustTypeLimit "" "" "" "" None ExchangeHK 0 "".

Definition example_exec : executor unit (list EntrustWire) :=
  mkExecutor _ _ (fun _ _ _ w => (Ret (inl [example_row "100"; example_row ""]), w)) (fun _ => "1") (fun _ => "1")
    (fun raw => raw) (fun _ => [])
    (fun _ => mkMaxWire "" "" "" "" "" "" "" "" "" "" "" "" "" "" "" "" "" "" "" "")
    (fun _ => mkMarginWire "" "" "" "" "" "" "" "" []).

(** A limit order for a Hong Kong stock at 350.2; the quantity is negative. *)
Definition example_order : Order Q :=
  mkOrder (NewSymbol MarketHK "00700" DataTypeHKStock) EntrustBuy EntrustTypeLimit
    (mkQuantity (inject_Z (-100))) (mkPrice (3502 # 10) 0%Q) "DAY" "" (mkQuantity 0%Q) 0 "" "" 0 "".

Lemma trading_mutations_once_witness :
  snd (snd (CancelEntrust (log_service (D := Q) example_exec None) "" "1" (tt, []))) = [].
Proof.
  exact (proj1 (proj2 (proj2 (proj2 (proj2 (trading_mutations_once example_exec None 0 "" "1" example_order []
    (o_Price example_order) (o_Quantity example_order) tt [])))) (or_introl eq_refl))).
Defined.

Lemma entrust_list_panics_witness :
  fst (RealEntrustList (log_service (D := Q) example_exec None) "A" ExchangeHK [] (tt, [])) = Panic.
Proof.
  apply (proj2 (entrust_list_panics (D := Q) example_exec None "A" ExchangeHK [] tt tt []
    [example_row "100"; example_row ""] ltac:(discriminate) eq_refl)).
  vm_compute. reflexivity.
Defined.

Lemma example_order_ok : hk_order_ok 0 example_order.
Proof.
  split.
  - exists (-1). reflexivity.
  - right. right. exists "0.200", (200 # 1000)%Q. split_and!; try (vm_compute; reflexivity).
    + vm_compute. discriminate.
    + exists 1751. reflexivity.
  - by split_and!.
  - apply (bool_decide_unpack _). vm_compute. exact I.
  - apply (bool_decide_unpack _). vm_compute. exact I.
  - apply (bool_decide_unpack _). vm_compute. exact I.
  - vm_compute. discriminate.
Qed.

Lemma entrust_hk_stock_exact_witness :
  snd (snd (Entrust 0 (log_service example_exec None) "A" example_order (tt, [])))
    = [(RouteTradeEntrust, WEntrust (hk_request example_order))].
Proof.
  exact (proj1 (entrust_hk_stock_exact example_exec 0 "A" example_order tt []
    ltac:(discriminate) ltac:(split; reflexivity)) example_order_ok).
Defined.

(** 14:00 in Hong Kong is 06:00 UTC. *)
Lemma afternoon_session_refused_witness :
  validateSessionWindow (6 * 3600) MarketHK "2"
    = Some (invalid_entrust
        "order time is outside regular trading session window (09:30-12:00, 12:00-16:00)").
Proof.
  refine (proj1 (proj2 (afternoon_session_refused example_exec (6 * 3600) "A" example_order tt []
    ltac:(discriminate) ltac:(split; reflexivity) _))).
  vm_compute. split; [discriminate | reflexivity].
Defined.
