(* ===== verification/Pagination.v ===== *)
(** Cursor pagination: [src/pkg/hstong/trade/pagination.go].

    [Paginate] loops without a bound of its own; the loop takes fuel and the
    theorems give the fuel that is enough, or show that none is. *)
From S2P Require Import Prelude Types Errs.

Create HintDb pagination.

Definition DefaultPageSize : Z := 20.
Definition MaxPageSize : Z := 99.

Definition ClampPageSize (pageSize : Z) : Z :=
  if decide (pageSize <= 0) then DefaultPageSize
  else if decide (MaxPageSize < pageSize) then MaxPageSize
  else pageSize.

Lemma ClampPageSize_range n : 1 <= ClampPageSize n <= 99.
Proof. unfold ClampPageSize, DefaultPageSize, MaxPageSize. repeat case_decide; lia. Qed.

Record Page (T : Type) := mkPage { Items : list T; Cursor : string }.
Arguments mkPage {T} _ _.
Arguments Items {T} _.
Arguments Cursor {T} _.

Section paginate.
Context {T W : Type}.

(** [ctx.Err()], and [fetch] with a page size and a cursor. *)
Context (ctx_err : W -> option error * W).
Abbreviation PageFunc := (Z -> string -> W -> (Page T + error) * W).

(** The rows so far, the error, the world; [None] when the fuel is spent. *)
Fixpoint paginate_loop (fetch : PageFunc) (size : Z) (fuel : nat) (cursor : string) (all : list T) (w : W)
    : option (list T * option error * W) :=
  match fuel with
  | O => None
  | S fuel =>
      match ctx_err w with
      | (Some e, w) => Some (all, Some e, w)
      | (None, w) =>
          match fetch size cursor w with
          | (inr e, w) => Some (all, Some e, w)
          | (inl page, w) =>
              let all := all ++ Items page in
              if decide (Items page = [] \/ Z.of_nat (length (Items page)) < size) then Some (all, None, w)
              else if decide (Cursor page = "" \/ Cursor page = cursor) then Some (all, None, w)
              else paginate_loop fetch size fuel (Cursor page) all w
          end
      end
  end.

Definition Paginate (fuel : nat) (pageSize : Z) (fetch : option PageFunc) (w : W)
    : option (list T * option error * W) :=
  match fetch with
  | None => Some ([], None, w)
  | Some fetch => paginate_loop fetch (ClampPageSize pageSize) fuel "0" [] w
  end.
End paginate.

(** ** Walking a list of pages *)
Section walk.
Context {T W : Type} (fetch : Z -> string -> W -> (Page T + error) * W) (size : Z).

(** The walk from a cursor fetches these pages, one call each, and ends in [w']. *)
Inductive walk : string -> W -> list (Page T) -> option error -> W -> Prop :=
  | walk_error c w e w' : fetch size c w = (inr e, w') -> walk c w [] (Some e) w'
  | walk_last c w p w' : fetch size c w = (inl p, w') ->
      (Items p = [] \/ Z.of_nat (length (Items p)) < size \/ Cursor p = "" \/ Cursor p = c) ->
      walk c w [p] None w'
  | walk_next c w p w1 ps e w' : fetch size c w = (inl p, w1) ->
      Items p <> [] -> size <= Z.of_nat (length (Items p)) -> Cursor p <> "" -> Cursor p <> c ->
      walk (Cursor p) w1 ps e w' -> walk c w (p :: ps) e w'.

Lemma loop_S fuel c all w :
  paginate_loop (fun w => (None, w)) fetch size (S fuel) c all w
    = match fetch size c w with
      | (inr e, w) => Some (all, Some e, w)
      | (inl page, w) =>
          let all := all ++ Items page in
          if decide (Items page = [] \/ Z.of_nat (length (Items page)) < size) then Some (all, None, w)
          else if decide (Cursor page = "" \/ Cursor page = c) then Some (all, None, w)
          else paginate_loop (fun w => (None, w)) fetch size fuel (Cursor page) all w
      end.
Proof using Type. done. Qed.

Lemma loop_walk c w ps e w' all :
  walk c w ps e w' ->
  paginate_loop (fun w => (None, w)) fetch size (S (length ps)) c all w
    = Some (all ++ concat (Items <$> ps), e, w').
Proof using Type.
  intros Hw. revert all. induction Hw as [c w e w' Hf|c w p w' Hf Hl|c w p w1 ps e w' Hf Hi Hs Hc Hd Hw IH];
    intros all; cbn [length]; rewrite loop_S, Hf.
  - by rewrite app_nil_r.
  - simpl. rewrite app_nil_r. case_decide as H1; [done |]. case_decide as H2; [done |]. naive_solver lia.
  - rewrite decide_False by (intros [?|?]; [done | lia]). rewrite decide_False by (intros [?|?]; done).
    rewrite IH. simpl. by rewrite app_assoc.
Qed.

(** Some fuel that is enough, from a result. *)
Lemma walk_loop fuel c w all rows e w' :
  paginate_loop (fun w => (None, w)) fetch size fuel c all w = Some (rows, e, w') ->
  exists ps, walk c w ps e w' /\ rows = all ++ concat (Items <$> ps).
Proof using Type.
  revert c w all. induction fuel as [|fuel IH]; intros c w all; [done |]. cbn [paginate_loop].
  destruct (fetch size c w) as [[p|x] w1] eqn:Hf.
  - case_decide as H1; [|case_decide as H2].
    + intros [= <- <- <-]. exists [p]. simpl. rewrite app_nil_r. split; [|done].
      apply walk_last; [done | tauto].
    + intros [= <- <- <-]. exists [p]. simpl. rewrite app_nil_r. split; [|done].
      apply walk_last; [done | tauto].
    + intros (ps & Hw & ->)%IH. exists (p :: ps). simpl. rewrite app_assoc. split; [|done].
      apply Decidable.not_or in H1 as [H1 H1'], H2 as [H2 H2']. eapply walk_next; eauto. lia.
  - intros [= <- <- <-]. exists []. simpl. rewrite app_nil_r. split; [by apply walk_error | done].
Qed.
End walk.

(** [Paginate] asks for pages of 1 to 99 rows and returns all their rows in
    order, one fetch per page, up to the first short, empty or non-advancing page
    or the first error; it returns for every fetch whose full pages move the cursor
    down some ranking, in as many rounds as the rank of the first cursor. *)
Theorem paginate_collects {T W} (fetch : Z -> string -> W -> (Page T + error) * W)
    (pageSize : Z) (rank : string -> nat) (w : W) :
  (forall size c w p w', fetch size c w = (inl p, w') -> Items p <> [] ->
     size <= Z.of_nat (length (Items p)) -> Cursor p <> "" -> Cursor p <> c ->
     (rank (Cursor p) < rank c)%nat) ->
  1 <= ClampPageSize pageSize <= 99
  /\ exists ps e w', walk fetch (ClampPageSize pageSize) "0" w ps e w'
       /\ Paginate (fun w => (None, w)) (S (rank "0")) pageSize (Some fetch) w
          = Some (concat (Items <$> ps), e, w').
Proof.
  intros Hrank. split; [apply ClampPageSize_range |]. unfold Paginate.
  set (size := ClampPageSize pageSize).
  assert (Hloop : forall n c w all, (rank c <= n)%nat ->
    exists r, paginate_loop (fun w => (None, w)) fetch size (S n) c all w = Some r).
  { induction n as [|n IH]; intros c w0 all Hn; cbn [paginate_loop];
      destruct (fetch size c w0) as [[p|x] w1] eqn:Hf; try (eexists; reflexivity);
      case_decide as H1; try (eexists; reflexivity); case_decide as H2; try (eexists; reflexivity);
      apply Decidable.not_or in H1 as [H1 H1'], H2 as [H2 H2'];
      pose proof (Hrank size c w0 p w1 Hf H1 ltac:(lia) H2 H2') as Hlt; [lia |].
    apply IH. lia. }
  destruct (Hloop (rank "0") "0" w [] ltac:(lia)) as [[[rows e] w'] Hr].
  destruct (walk_loop fetch size _ _ _ _ _ _ _ Hr) as (ps & Hw & Hrows).
  exists ps, e, w'. split; [done |]. rewrite Hr, Hrows. done.
Qed.

(** Without such a ranking it need not return: a Gateway that answers full pages
    whose cursors alternate between two values keeps [Paginate] fetching for ever,
    although its documentation says a Gateway that ignores the cursor cannot. *)
Theorem paginate_cycle_diverges {T} (row : T) (pageSize : Z) (fuel : nat) :
  let full size := replicate (Z.to_nat size) row in
  let fetch size c (n : nat) :=
    (inl (mkPage (full size) (if decide (c = "a") then "b" else "a")), S n) in
  Paginate (fun n => (None, n)) fuel pageSize (Some fetch) 0%nat = None.
Proof.
  intros full fetch. unfold Paginate. pose proof (ClampPageSize_range pageSize) as Hs.
  generalize (@nil T). generalize "0". generalize 0%nat.
  induction fuel as [|fuel IH]; intros n c all; [done |]. cbn [paginate_loop fetch Items Cursor].
  assert (Hl : length (full (ClampPageSize pageSize)) = Z.to_nat (ClampPageSize pageSize))
    by apply length_replicate.
  rewrite decide_False; [|intros [Hn|Hn]; [rewrite Hn in Hl; simpl in Hl; lia | lia]].
  rewrite decide_False; [apply IH |]. case_decide as Ha; subst; intros [?|?]; done.
Qed.

(** ** Witnesses *)
Lemma paginate_collects_witness :
  exists e w', Paginate (fun w : unit => (None, w)) 3 2 (Some (fun _ c w =>
    (inl (if decide (c = "0") then mkPage [1; 2] "1" else mkPage [3] ""), w))) tt = Some ([1; 2; 3], e, w').
Proof.
  destruct (paginate_collects (fun _ c (w : unit) =>
    (inl (if decide (c = "0") then mkPage [1; 2] "1" else mkPage [3] ""), w)) 2
    (fun c => if decide (c = "0") then 2%nat else 0%nat) tt) as [_ (ps & e & w' & _ & Hp)].
  - intros size c w p w'. case_decide; intros [= <- <-] Hi Hl Hc Hn; simpl in *; [lia | done].
  - exists e, w'. vm_compute in Hp. injection Hp as _ <- <-. vm_compute. reflexivity.
Defined.
