(* ===== verification/PushKeys.v ===== *)
(** The vocabulary of the push orchestration: delivered updates
    ([src/pkg/domain/push_event.go]), the topics and their payload types, the
    registry keys and the routing keys ([src/pkg/services/push.go],
    [src/pkg/services/market.go]).

    A [time.Time] is the number of nanoseconds since its zero value, January 1
    of year 1 UTC. Instrument codes are ASCII: [strings.ToUpper] leaves the
    other bytes as they are. *)
From stdpp Require Import pretty sorting.
From S2P Require Import Prelude Types Errs Domain.

(** ** Delivered updates *)
Section events.
Context {D : Type}.

Record QuoteEvent := mkQuoteEvent {
  qe_Symbol : Symbol;
  qe_LastPrice : Price D; qe_OpenPrice : Price D; qe_HighPrice : Price D;
  qe_LowPrice : Price D; qe_ClosePrice : Price D;
  qe_Volume : Quantity D; qe_Turnover : Money D;
  qe_BidPrice : Price D; qe_AskPrice : Price D;
  qe_BidQty : Quantity D; qe_AskQty : Quantity D;
  qe_Timestamp : string;
}.

Record TickerEvent := mkTickerEvent {
  te_Symbol : Symbol; te_Price : Price D; te_Volume : Quantity D; te_Turnover : Money D;
  te_Timestamp : string; te_Side : string;
}.

Record OrderBookLevel := mkOrderBookLevel {
  obl_Level : Z; obl_Price : Price D; obl_Quantity : Quantity D;
}.

Record OrderBookEvent := mkOrderBookEvent {
  ob_Symbol : Symbol; ob_Bids : list OrderBookLevel; ob_Asks : list OrderBookLevel;
  ob_Depth : Z; ob_Timestamp : string;
}.

Record BrokerLevel := mkBrokerLevel {
  bl_Level : Z; bl_Item : string; bl_Type : Z; bl_Name : string;
}.

Record BrokerEvent := mkBrokerEvent {
  be_Symbol : Symbol; be_Buyers : list BrokerLevel; be_Sellers : list BrokerLevel;
  be_Timestamp : string;
}.

Record TradeEvent := mkTradeEvent {
  tr_Symbol : Symbol; tr_OrderID : string; tr_EntrustID : string;
  tr_Price : Price D; tr_Quantity : Quantity D; tr_Turnover : Money D;
  tr_Side : string; tr_Timestamp : string; tr_CounterID : string; tr_OrderStatus : string;
}.

Record AccountEvent := mkAccountEvent {
  ae_AccountID : string; ae_TotalAssets : Money D; ae_Cash : Money D;
  ae_MarketValues : gmap string (Money D); ae_Frozen : Money D; ae_Timestamp : string;
}.

Record SystemEvent := mkSystemEvent { se_Code : string; se_Message : string; se_Level : string }.

(** The implementations of the interface [PushEvent]. *)
Inductive PushEvent :=
  | Quote_ (e : QuoteEvent)
  | Ticker_ (e : TickerEvent)
  | OrderBook_ (e : OrderBookEvent)
  | Broker_ (e : BrokerEvent)
  | Trade_ (e : TradeEvent)
  | Account_ (e : AccountEvent)
  | System_ (e : SystemEvent).

Record PushUpdate := mkPushUpdate {
  pu_Type : Z;
  pu_ID : string;
  pu_Time : Z;
  pu_Event : option PushEvent;   (* [None]: the nil interface *)
}.

Definition SecurityCode (u : PushUpdate) : string :=
  match pu_Event u with
  | Some (Quote_ e) => Domain.Code (qe_Symbol e)
  | Some (Ticker_ e) => Domain.Code (te_Symbol e)
  | Some (OrderBook_ e) => Domain.Code (ob_Symbol e)
  | Some (Broker_ e) => Domain.Code (be_Symbol e)
  | Some (Trade_ e) => Domain.Code (tr_Symbol e)
  | _ => ""
  end.

Definition eventTimestamp (ev : option PushEvent) : option string :=
  match ev with
  | Some (Quote_ e) => Some (qe_Timestamp e)
  | Some (Ticker_ e) => Some (te_Timestamp e)
  | Some (OrderBook_ e) => Some (ob_Timestamp e)
  | Some (Broker_ e) => Some (be_Timestamp e)
  | Some (Trade_ e) => Some (tr_Timestamp e)
  | _ => None
  end.
End events.
Arguments PushEvent D : clear implicits.
Arguments PushUpdate D : clear implicits.

(** ** Topics and payload types *)
Record Security := mkSecurity { sec_DataType : Z; sec_Code : string }.

#[global] Instance Security_eq_dec : EqDecision Security.
Proof. solve_decision. Defined.

Definition opPushSubscribe : string := "push.Subscribe".
Definition opPushSubscribeOrders : string := "push.SubscribeOrders".
Definition DefaultPushBuffer : Z := 64.
Definition DefaultResubscribeTimeout : Z := 10000000000.
Definition DefaultStaleTolerance : Z := 300000000000.
Definition unroutedReportCap : nat := 64.

Definition ErrPushClosed : error := ESentinel "services: push orchestration is closed".
Definition ErrNoPushTransport : error := ESentinel "services: push orchestration has no transport".
Definition ErrReconnected : string := "services: push connection re-established".
Definition ErrUnrouted : string := "services: push update matched no subscription".
Definition ErrTradeBacklog : string := "services: trade delivery buffer overflowed".
Definition ErrSubscriptionLost : string :=
  "services: push subscription terminated after a failed re-subscribe".
Definition ErrUpdateOutOfOrder : string := "services: push frame arrived out of order".

(** The keys of the map [knownTopics]. *)
Definition knownTopics : list Z :=
  [TopicBasicQot; TopicQuoteVariant35; TopicTicker; TopicTickVariant27; TopicTickVariant28;
   TopicTickVariant37; TopicBroker; TopicOrderBook; TopicOrderBookArcabook;
   TopicOrderBookTotalView; TopicOrderBookVariant36].

Definition validateTopic (op : string) (topic : Z) : option error :=
  if decide (topic ∈ knownTopics) then None
  else Some (Errs.New StatusInvalidParam op ("unknown topicId " +:+ itoa topic)).

Definition NotifyTypeForTopic (t : Z) : option Z :=
  switch t [
    (TopicBasicQot, Some BasicQotNotifyMsgType); (TopicQuoteVariant35, Some BasicQotNotifyMsgType);
    (TopicTicker, Some TickerNotifyMsgType); (TopicTickVariant27, Some TickerNotifyMsgType);
    (TopicTickVariant28, Some TickerNotifyMsgType); (TopicTickVariant37, Some TickerNotifyMsgType);
    (TopicBroker, Some BrokerQueueNotifyMsgType);
    (TopicOrderBook, Some OrderBookNotifyMsgType);
    (TopicOrderBookArcabook, Some OrderBookNotifyMsgType);
    (TopicOrderBookTotalView, Some OrderBookNotifyMsgType);
    (TopicOrderBookVariant36, Some OrderBookNotifyMsgType)
  ] None.

Definition marketTopics : list Z := merge_sort Z.le knownTopics.

(** The first occurrences, in order: a loop that skips what [seen] holds. *)
Fixpoint distinct {A} `{EqDecision A} (seen l : list A) : list A :=
  match l with
  | [] => []
  | x :: l => if decide (x ∈ seen) then distinct seen l else x :: distinct (x :: seen) l
  end.

Definition marketNotifyTypes : list Z :=
  merge_sort Z.le (distinct [] (omap NotifyTypeForTopic marketTopics)).

Definition tradeNotifyTypes : list Z :=
  [TrsStockDeliverMsgType; TradeStockDeliverMsgType; FuturesTradeStockDeliverMsgType].

Definition isTradeNotifyType (t : Z) : bool := existsb (Z.eqb t) tradeNotifyTypes.

Definition deliverablePayloadNames : list string :=
  merge_sort String.le (NotifyMsgType_String <$> marketNotifyTypes).

Definition strings_Join (l : list string) (sep : string) : string := String.concat sep l.

Definition unmappedTopicMessage (topic : Z) : string :=
  "topicId " +:+ itoa topic
  +:+ " has no push payload this SDK can deliver; the deliverable payload types are "
  +:+ strings_Join deliverablePayloadNames ", "
  +:+ "; consult services.NotifyTypeForTopic, which holds the docs/SPEC.md section 4 mapping".

(** ** Keys *)
Definition upper (c : ascii) : ascii :=
  if in_range "a" "z" c then Ascii.ascii_of_N (Ascii.N_of_ascii c - 32) else c.
Definition ToUpper (s : bytes) : bytes := upper <$> s.

Definition marketSuffixes : list string := [".HK"; ".US"; ".SZ"; ".SH"].

Fixpoint strip_market (suffixes : list string) (u : string) : string :=
  match suffixes with
  | [] => u
  | suffix :: rest =>
      if decide (String.length suffix < String.length u)%nat then
        if has_suffix u suffix then trim_suffix u suffix else strip_market rest u
      else strip_market rest u
  end.

Definition normaliseRoutingKey (code : string) : string :=
  strip_market marketSuffixes (str (ToUpper (TrimSpace (text code)))).

Definition routing_keys (codes : list string) : list string :=
  distinct [] (normaliseRoutingKey <$> filter (fun c => c <> "") codes).

(** The stored instruments are never nil. *)
Definition securityKeys (securities : list Security) : list string :=
  routing_keys (sec_Code <$> securities).

Definition updateRoutingKeys {D} (u : PushUpdate D) : list string :=
  routing_keys [pu_ID u; SecurityCode u].

Definition key_part (s : Security) : string :=
  sec_Code s +:+ String "000" EmptyString +:+ itoa (sec_DataType s).

Definition canonicalPushKey (topic : Z) (securities : list Security) : string :=
  itoa topic +:+ String "000" EmptyString
  +:+ strings_Join (merge_sort String.le (key_part <$> securities)) (String "001" EmptyString).

Definition keyList (securities : list Security) : string := strings_Join (sec_Code <$> securities) ", ".

(** [None] in the argument is a nil pointer. *)
Fixpoint copy_securities (i : Z) (securities : list (option Security)) : error + list Security :=
  match securities with
  | [] => inr []
  | None :: _ =>
      inl (Errs.New StatusInvalidParam opPushSubscribe ("security[" +:+ itoa i +:+ "] must not be nil"))
  | Some s :: rest =>
      if decide (sec_Code s = "") then
        inl (Errs.New StatusInvalidParam opPushSubscribe
               ("security[" +:+ itoa i +:+ "] must carry a code"))
      else match copy_securities (i + 1) rest with inl e => inl e | inr l => inr (s :: l) end
  end.

Definition copyAndValidateSecurities (topic : Z) (securities : list (option Security)) :
    error + list Security :=
  match securities with
  | [] => inl (Errs.New StatusInvalidParam opPushSubscribe
                 ("topicId " +:+ itoa topic +:+ " needs at least one security"))
  | _ => copy_securities 0 securities
  end.

(** ** Stream errors

    [streamError] and [newReconnectNotice] are [ETagged]: [Is] answers for the
    sentinel, [Unwrap] for the cause. *)
Definition streamError (tag : string) (cause : error) : error := ETagged tag (Some cause).

Definition newReconnectNotice (cause : option error) : error :=
  match cause with
  | None => ESentinel ErrReconnected
  | Some e => ETagged ErrReconnected (Some e)
  end.

(** [t.UTC().Format(time.RFC3339Nano)]: the civil date of a day count, then the
    fraction without its trailing zeros. *)
Definition pad (width : nat) (z : Z) : string :=
  let s := itoa z in String.concat "" (repeat "0" (width - String.length s)) +:+ s.

Definition civil (days : Z) : Z * Z * Z :=
  let z := days + 306 in
  let era := z / 146097 in
  let doe := z mod 146097 in
  let yoe := (doe - doe / 1460 + doe / 36524 - doe / 146096) / 365 in
  let doy := doe - (365 * yoe + yoe / 4 - yoe / 100) in
  let mp := (5 * doy + 2) / 153 in
  let m := if decide (mp < 10) then mp + 3 else mp - 9 in
  (yoe + era * 400 + (if decide (m <= 2) then 1 else 0), m, doy - (153 * mp + 2) / 5 + 1).

Fixpoint drop_zeros (l : bytes) : bytes :=
  match l with "0"%char :: l => drop_zeros l | l => l end.

Definition fraction (ns : Z) : string :=
  let digits := drop_zeros (reverse (text (pad 9 ns))) in
  if decide (digits = []) then "" else "." +:+ str (reverse digits).

Definition RFC3339Nano (t : Z) : string :=
  let secs := t / 1000000000 in
  let '(y, m, d) := civil (secs / 86400) in
  let s := secs mod 86400 in
  pad 4 y +:+ "-" +:+ pad 2 m +:+ "-" +:+ pad 2 d +:+ "T" +:+ pad 2 (s / 3600) +:+ ":"
  +:+ pad 2 (s mod 3600 / 60) +:+ ":" +:+ pad 2 (s mod 60)
  +:+ fraction (t mod 1000000000) +:+ "Z".

Example RFC3339Nano_epoch : RFC3339Nano (62135596800000000000 + 1500000000) = "1970-01-01T00:00:01.5Z".
Proof. reflexivity. Qed.

Example RFC3339Nano_leap : RFC3339Nano ((62135596800 + 951782400) * 1000000000) = "2000-02-29T00:00:00Z".
Proof. reflexivity. Qed.

(** ** Distinct elements *)
Section distinct.
Context {A : Type} `{EqDecision A}.
Implicit Types l seen : list A.

Lemma elem_of_distinct seen l x : x ∈ distinct seen l <-> x ∈ l /\ x ∉ seen.
Proof.
  revert seen. induction l as [|y l IH]; intros seen; simpl; [set_solver |].
  case_decide; [rewrite IH; set_solver |].
  rewrite !elem_of_cons, IH, elem_of_cons. destruct (decide (x = y)); set_solver.
Qed.

Lemma NoDup_distinct seen l : NoDup (distinct seen l).
Proof.
  revert seen. induction l as [|y l IH]; intros seen; simpl; [constructor |].
  case_decide; [done |]. constructor; [rewrite elem_of_distinct; set_solver | done].
Qed.
End distinct.

Lemma elem_of_routing_keys codes k :
  k ∈ routing_keys codes <-> exists c, c ∈ codes /\ c <> "" /\ k = normaliseRoutingKey c.
Proof.
  unfold routing_keys. rewrite elem_of_distinct, list_elem_of_fmap.
  setoid_rewrite list_elem_of_filter. set_solver.
Qed.

(** ** Digits and separators *)
Definition digit (c : ascii) : bool := char_in c "-0123456789".

Lemma pretty_N_char_digit n : digit (pretty_N_char (n mod 10)) = true.
Proof.
  assert (Hn : (n mod 10 < 10)%N) by (by apply N.mod_lt). revert Hn.
  generalize (n mod 10)%N. intros m Hm.
  rewrite <- (N2Z.id m). by apply (range_checked (fun z => digit (pretty_N_char (Z.to_N z))) 0 10); [| lia].
Qed.

Lemma pretty_N_go_digits n s :
  Forall (fun c => digit c = true) (text s) -> Forall (fun c => digit c = true) (text (pretty_N_go n s)).
Proof.
  revert s. induction (N.lt_wf_0 n) as [n _ IH]. intros s Hs.
  destruct (decide (n = 0)%N) as [->|]; [by rewrite pretty_N_go_0 |].
  rewrite pretty_N_go_step by lia. apply IH; [apply N.div_lt; lia |].
  simpl. constructor; [apply pretty_N_char_digit | done].
Qed.

Lemma itoa_digits z : Forall (fun c => digit c = true) (text (itoa z)).
Proof.
  unfold itoa, pretty, pretty_Z.
  assert (Hp : forall p, Forall (fun c => digit c = true) (text (pretty (N.pos p)))).
  { intros p. unfold pretty, pretty_N. case_decide; [done |]. apply pretty_N_go_digits. constructor. }
  destruct z as [|p|p]; [repeat constructor | apply Hp |].
  rewrite text_app. apply Forall_app. split; [repeat constructor | apply Hp].
Qed.

Lemma itoa_not_in z c : digit c = false -> c ∉ text (itoa z).
Proof.
  intros Hc Hin. pose proof (itoa_digits z) as Hd. rewrite Forall_forall in Hd.
  specialize (Hd c Hin). congruence.
Qed.

(** A separator that the left parts do not contain splits in one way, and so
    does one that the right parts do not contain. *)
Lemma split_first {A} (x : A) l1 l2 r1 r2 :
  x ∉ l1 -> x ∉ l2 -> l1 ++ x :: r1 = l2 ++ x :: r2 -> l1 = l2 /\ r1 = r2.
Proof.
  revert l2. induction l1 as [|a l1 IH]; intros [|b l2] H1 H2 Heq; simplify_eq/=; [done | | |].
  { by apply not_elem_of_cons in H2 as [? _]. }
  { by apply not_elem_of_cons in H1 as [? _]. }
  apply not_elem_of_cons in H1 as [_ H1], H2 as [_ H2].
  destruct (IH l2 H1 H2 ltac:(done)) as [-> ->]. done.
Qed.

Lemma split_last {A} (x : A) l1 l2 r1 r2 :
  x ∉ r1 -> x ∉ r2 -> l1 ++ x :: r1 = l2 ++ x :: r2 -> l1 = l2 /\ r1 = r2.
Proof.
  intros H1 H2 Heq. apply (f_equal reverse) in Heq.
  rewrite !reverse_app, !reverse_cons, <- !app_assoc in Heq. simpl in Heq.
  apply split_first in Heq as [Hr Hl]; [|by rewrite elem_of_reverse..].
  by apply (inj reverse) in Hr, Hl.
Qed.

Lemma text_inj s t : text s = text t -> s = t.
Proof. intros Heq. rewrite <- (str_text s), <- (str_text t). by rewrite Heq. Qed.

Lemma Join_cons x y l sep : strings_Join (x :: y :: l) sep = x +:+ sep +:+ strings_Join (y :: l) sep.
Proof. reflexivity. Qed.

Definition joinable (c : ascii) (s : string) : Prop := s <> "" /\ c ∉ text s.

Lemma Join_inj c l1 l2 :
  Forall (joinable c) l1 -> Forall (joinable c) l2 ->
  strings_Join l1 (String c EmptyString) = strings_Join l2 (String c EmptyString) -> l1 = l2.
Proof.
  intros H1. revert l2. induction H1 as [|x l1 [Hx Hcx] H1 IH]; intros l2 H2 Heq.
  { destruct H2 as [|y [|z l2] [Hy _] _]; [done | by destruct Hy |].
    rewrite Join_cons in Heq. apply (f_equal String.list_ascii_of_string) in Heq. rewrite !text_app in Heq.
    by destruct (text y). }
  destruct H2 as [|y l2 [Hy Hcy] H2].
  { destruct l1 as [|z l1]; [by destruct Hx |].
    rewrite Join_cons in Heq. apply (f_equal String.list_ascii_of_string) in Heq. rewrite !text_app in Heq.
    by destruct (text x). }
  destruct l1 as [|x' l1], l2 as [|y' l2].
  - unfold strings_Join in Heq. simpl in Heq. by subst.
  - exfalso. rewrite Join_cons in Heq. change (strings_Join [x] _) with x in Heq. subst x.
    apply Hcx. rewrite !text_app. set_solver.
  - exfalso. rewrite Join_cons in Heq. change (strings_Join [y] _) with y in Heq. subst y.
    apply Hcy. rewrite !text_app. set_solver.
  - rewrite !Join_cons in Heq. apply (f_equal String.list_ascii_of_string) in Heq. rewrite !text_app in Heq.
    apply split_first in Heq as [Hxy Heq]; [|done..].
    apply text_inj in Hxy as ->. apply text_inj in Heq. by rewrite (IH _ H2 Heq).
Qed.

Lemma key_part_inj s1 s2 : key_part s1 = key_part s2 -> s1 = s2.
Proof.
  intros Heq. apply (f_equal String.list_ascii_of_string) in Heq. unfold key_part in Heq. rewrite !text_app in Heq.
  apply split_last in Heq as [Hc Hd]; [|by apply itoa_not_in..].
  apply text_inj in Hc, Hd. apply (inj pretty) in Hd. destruct s1, s2; simpl in *. by subst.
Qed.

#[global] Instance key_part_Inj : Inj (=) (=) key_part := key_part_inj.

(** No instrument code holds the separator of the parts. *)
Definition keyed (securities : list Security) : Prop :=
  Forall (fun s => "001"%char ∉ text (sec_Code s)) securities.

Lemma key_parts_joinable securities :
  keyed securities -> Forall (joinable "001"%char) (merge_sort String.le (key_part <$> securities)).
Proof.
  intros Hk. rewrite merge_sort_Permutation. apply Forall_fmap. eapply Forall_impl; [exact Hk |].
  intros s Hs. split.
  - intros Heq. apply (f_equal String.list_ascii_of_string) in Heq. unfold key_part in Heq. rewrite !text_app in Heq.
    by destruct (text (sec_Code s)).
  - unfold key_part. rewrite !text_app, !elem_of_app. intros [Hc | [Hc | Hc]]; [done | set_solver |].
    by apply itoa_not_in in Hc.
Qed.

Lemma canonicalPushKey_inj t1 t2 l1 l2 :
  keyed l1 -> keyed l2 -> canonicalPushKey t1 l1 = canonicalPushKey t2 l2 -> t1 = t2 /\ l1 ≡ₚ l2.
Proof.
  intros H1 H2 Heq. unfold canonicalPushKey in Heq. apply (f_equal String.list_ascii_of_string) in Heq.
  rewrite !text_app in Heq. apply split_first in Heq as [Ht Heq]; [|by apply itoa_not_in..].
  apply text_inj in Ht. apply (inj pretty) in Ht. split; [done |].
  apply text_inj in Heq. apply Join_inj in Heq; [|by apply key_parts_joinable..].
  assert (Hp : key_part <$> l1 ≡ₚ key_part <$> l2).
  { by rewrite <- (merge_sort_Permutation String.le), Heq, merge_sort_Permutation. }
  apply Permutation_map_inv in Hp as (l3 & Hl & Hp).
  apply (inj (fmap key_part)) in Hl as <-. done.
Qed.

Lemma canonicalPushKey_perm t l1 l2 : l1 ≡ₚ l2 -> canonicalPushKey t l1 = canonicalPushKey t l2.
Proof.
  intros Hp. unfold canonicalPushKey. do 3 f_equal.
  apply (StronglySorted_unique String.le); [apply (StronglySorted_merge_sort _).. |].
  by rewrite !merge_sort_Permutation, Hp.
Qed.

(** ** Properties *)

(** C15: Two subscriptions share a registry key exactly when they name the same
    topic and the same instruments in some order, whatever the data types and
    however the codes look, as long as no code holds the byte 1 that separates
    the parts. *)
Theorem push_key_exact t1 t2 (l1 l2 : list Security) :
  keyed l1 -> keyed l2 ->
  canonicalPushKey t1 l1 = canonicalPushKey t2 l2 <-> t1 = t2 /\ l1 ≡ₚ l2.
Proof.
  intros H1 H2. split; [by apply canonicalPushKey_inj |].
  intros [-> Hp]. by apply canonicalPushKey_perm.
Qed.

Lemma push_key_exact_witness :
  canonicalPushKey 11 [mkSecurity 10000 "00700.HK"; mkSecurity 20000 "AAPL"]
    = canonicalPushKey 11 [mkSecurity 20000 "AAPL"; mkSecurity 10000 "00700.HK"].
Proof.
  apply (push_key_exact 11 11 [mkSecurity 10000 "00700.HK"; mkSecurity 20000 "AAPL"]
    [mkSecurity 20000 "AAPL"; mkSecurity 10000 "00700.HK"]).
  - repeat constructor; apply (bool_decide_unpack _); reflexivity.
  - repeat constructor; apply (bool_decide_unpack _); reflexivity.
  - split; [reflexivity | apply Permutation_swap].
Defined.

(** The topics that [/hq/Subscribe] accepts are the topics with a payload
    type; that type has a handler and is never one of the three order types, so
    no topic subscriber is ever handed an order notification; and the handler
    list has no duplicates and no type outside the image. *)
Theorem topic_payload_types (topic : Z) :
  (topic ∈ knownTopics <-> is_Some (NotifyTypeForTopic topic))
  /\ (forall m, NotifyTypeForTopic topic = Some m -> m ∈ marketNotifyTypes)
  /\ (forall m, m ∈ marketNotifyTypes ->
        isTradeNotifyType m = false /\ exists t, t ∈ knownTopics /\ NotifyTypeForTopic t = Some m)
  /\ NoDup (marketNotifyTypes ++ tradeNotifyTypes).
Proof.
  assert (Hk : topic ∈ knownTopics <-> is_Some (NotifyTypeForTopic topic)).
  { unfold NotifyTypeForTopic, knownTopics. rewrite !elem_of_cons, elem_of_nil. simpl.
    repeat case_decide; split; intros; try naive_solver; by destruct H. }
  assert (Hm : marketNotifyTypes = [OrderBookNotifyMsgType; BrokerQueueNotifyMsgType;
                                    BasicQotNotifyMsgType; TickerNotifyMsgType])
    by (vm_compute; reflexivity).
  split; [done |]. rewrite Hm. split; [| split].
  - unfold NotifyTypeForTopic. simpl. intros m Hn.
    apply (bool_decide_unpack (m ∈ _)). clear Hm Hk.
    repeat (destruct (decide _) in Hn; [injection Hn as <-; reflexivity |]). done.
  - intros m Hin. rewrite !elem_of_cons, elem_of_nil in Hin.
    destruct Hin as [-> | [-> | [-> | [-> | []]]]]; (split; [reflexivity |]);
      [exists TopicOrderBook | exists TopicBroker | exists TopicBasicQot | exists TopicTicker];
      (split; [apply (bool_decide_unpack _); reflexivity | reflexivity]).
  - apply (bool_decide_unpack _). reflexivity.
Qed.
