(* ===== verification/PushOrch.v ===== *)
(** The push orchestration, [src/pkg/services/push.go]: the registry of coalesced
    market subscriptions, the routing index, the session-wide order
    subscriptions, the bounded error stream, and the calls that work on them
    concurrently: [Subscribe], [SubscribeOrders], the two [Cancel] methods, the
    reconnect hook with its re-subscribes, the dispatch of an update, and
    [Close].

    Subscriptions and registry entries are pointers, so they live in heaps and
    are named by numbers. A call is a thread with a program counter; one step
    is what the code does between two points where another goroutine can be
    seen: a section under a lock, a request sent, a reply received. A section
    under [mu] or [sub.mu] that holds no request is one step. [subMu] is held
    across the request of [Subscribe] and [SubscribeOrders], so it has an owner.
    The replies of the Gateway, the clock and what the consumers take from the
    channels meanwhile are the [choice] of a step. Contexts are not modelled: a
    cancelled request is one that is answered with an error.

    The sections under [subMu] exclude each other. A dispatch reads the routing
    index and the order list under [mu] and not under [subMu], so it can overlap
    such a section: an unsynchronised map access, to which Go gives no meaning.
    The model takes a dispatch that reads before or after a section and leaves
    the overlap out; no theorem says what an update that arrives during one is
    matched with. *)
From stdpp Require Import sorting.
From S2P Require Import Prelude Chan Types Errs Domain PushKeys.

Section orch.
Context {D : Type}.
Abbreviation update := (PushUpdate D).

(** ** Subscriptions *)
Record Subscription := mkSubscription {
  s_topic : Z;
  s_msgType : Z;
  s_securities : list Security;
  s_updates : list update;      (* the queue of the channel *)
  s_closed : bool;
  s_dropped : Z;
  s_outOfOrder : Z;
  s_lastSeen : Z;
  s_lastUpdate : string;
  s_lastWire : Z;
  s_taken : list update;        (* history: what the consumer received *)
  s_accepted : list update;     (* history: what [deliver] accepted *)
}.

Record OrderSubscription := mkOrderSubscription {
  o_accountID : string;
  o_updates : list update;
  o_closed : bool;
  o_dropped : Z;
  o_backlogRaised : bool;
  o_lastSeen : Z;
  o_taken : list update;
  o_accepted : list update;
}.

Definition newSubscription (topic msgType : Z) (securities : list Security) : Subscription :=
  mkSubscription topic msgType securities [] false 0 0 0 "" 0 [] [].

Definition newOrderSubscription (accountID : string) : OrderSubscription :=
  mkOrderSubscription accountID [] false 0 false 0 [] [].

(** A [uint64] counter. *)
Definition bump (n : Z) : Z := uwrap 64 (n + 1).

(** What a step observes: the clock, the values the consumer of the channel takes
    between the non-blocking selects, and the Gateway's reply. *)
Record choice := mkChoice { ch_now : Z; ch_c1 : nat; ch_c2 : nat; ch_reply : option error }.

(** The enqueue of both [deliver] methods: the values the consumer takes
    meanwhile, the queue left, and whether the channel was full. *)
Definition enqueue {A} (cap : nat) (ch : choice) (q : list A) (x : A) : list A * list A * bool :=
  match try_send cap q x with
  | Some q' => ([], q', false)
  | None =>
      (take (ch_c1 ch) q ++ take (ch_c2 ch) (try_recv (drop (ch_c1 ch) q)),
       send_drop_oldest_racing cap (ch_c1 ch) (ch_c2 ch) q x, true)
  end.

(** The new [outOfOrder], whether to report, and the new [lastWire]. *)
Definition wire_order (u : update) (x : Subscription) : Z * bool * Z :=
  if decide (pu_Time u = 0) then (s_outOfOrder x, false, s_lastWire x)
  else if decide (s_lastWire x <> 0 /\ pu_Time u < s_lastWire x) then
    (bump (s_outOfOrder x), bool_decide (bump (s_outOfOrder x) = 1), s_lastWire x)
  else (s_outOfOrder x, false, pu_Time u).

Definition Subscription_deliver (buffer : nat) (ch : choice) (u : update) (x : Subscription) :
    Subscription * bool :=
  if s_closed x then (x, false) else
  let '(late, outOfOrder, wire) := wire_order u x in
  let '(taken, queue, full) := enqueue buffer ch (s_updates x) u in
  (mkSubscription (s_topic x) (s_msgType x) (s_securities x) queue false
     (if full then bump (s_dropped x) else s_dropped x) late (ch_now ch)
     (default (s_lastUpdate x) (eventTimestamp (pu_Event u))) wire
     (s_taken x ++ taken) (s_accepted x ++ [u]),
   outOfOrder).

Definition Subscription_shutdown (x : Subscription) : Subscription :=
  mkSubscription (s_topic x) (s_msgType x) (s_securities x) (s_updates x) true (s_dropped x)
    (s_outOfOrder x) (s_lastSeen x) (s_lastUpdate x) (s_lastWire x) (s_taken x) (s_accepted x).

(** A receive by the consumer; a closed channel is drained first. *)
Definition Subscription_recv (x : Subscription) : Subscription :=
  mkSubscription (s_topic x) (s_msgType x) (s_securities x) (drop 1 (s_updates x)) (s_closed x)
    (s_dropped x) (s_outOfOrder x) (s_lastSeen x) (s_lastUpdate x) (s_lastWire x)
    (s_taken x ++ take 1 (s_updates x)) (s_accepted x).

Definition Stale (now after : Z) (x : Subscription) : bool :=
  let after := if decide (after <= 0) then DefaultStaleTolerance else after in
  if s_closed x then false
  else if decide (s_lastSeen x = 0) then false
  else bool_decide (time_sub now (s_lastSeen x) > after).

(** The stamp in the message is the [lastWire] read when the report is built. *)
Definition out_of_order_error (u : update) (x : Subscription) : error :=
  streamError ErrUpdateOutOfOrder (EText ("topicId " +:+ itoa (s_topic x)
    +:+ " accepted a frame stamped " +:+ RFC3339Nano (pu_Time u) +:+ " after one stamped "
    +:+ RFC3339Nano (s_lastWire x)
    +:+ "; the frame was delivered and the count is on Subscription.OutOfOrder")).

Definition OrderSubscription_deliver (buffer : nat) (ch : choice) (u : update)
    (x : OrderSubscription) : OrderSubscription * bool :=
  if o_closed x then (x, false) else
  let '(taken, queue, full) := enqueue buffer ch (o_updates x) u in
  (mkOrderSubscription (o_accountID x) queue false
     (if full then bump (o_dropped x) else o_dropped x)
     (full || o_backlogRaised x) (ch_now ch) (o_taken x ++ taken) (o_accepted x ++ [u]),
   full && negb (o_backlogRaised x)).

Definition OrderSubscription_shutdown (x : OrderSubscription) : OrderSubscription :=
  mkOrderSubscription (o_accountID x) (o_updates x) true (o_dropped x) (o_backlogRaised x)
    (o_lastSeen x) (o_taken x) (o_accepted x).

Definition OrderSubscription_recv (x : OrderSubscription) : OrderSubscription :=
  mkOrderSubscription (o_accountID x) (drop 1 (o_updates x)) (o_closed x) (o_dropped x)
    (o_backlogRaised x) (o_lastSeen x) (o_taken x ++ take 1 (o_updates x)) (o_accepted x).

Definition backlog_error (buffer : nat) (x : OrderSubscription) : error :=
  streamError ErrTradeBacklog (EText ("order delivery for account " +:+ o_accountID x
    +:+ " overflowed its " +:+ itoa (Z.of_nat buffer)
    +:+ "-entry buffer; a fill was discarded and the running total is " +:+ itoa (o_dropped x)
    +:+ " (Subscription.Dropped is the per-subscription count; drain Updates or raise the"
    +:+ " buffer with services.WithBuffer)")).

(** ** The orchestration *)
Record pushEntry := mkEntry {
  e_topic : Z;
  e_securities : list Security;
  e_subs : list nat;
  e_subscribed : bool;
}.

(** The requests sent to the Gateway, and the close of the transport. *)
Inductive request :=
  | HqSubscribe (topic : Z) (securities : list Security)
  | HqUnsubscribe (topic : Z) (securities : list Security)
  | TradeSubscribe (account : string)
  | TradeUnsubscribe (account : string)
  | TransportClose.

(** What a call returned. *)
Inductive result :=
  | RSubscription (i : nat)
  | ROrders (i : nat)
  | RDone (e : option error).

(** The point a call has reached. *)
Inductive pc :=
  | Subscribe_lock (topic msgType : Z) (sec : list Security)
  | Subscribe_sent (topic msgType : Z) (sec : list Security)
  | Orders_lock (account : string)
  | Orders_sent (account : string)
  | Cancel_lock (i : nat)
  | Cancel_shut (i : nat) (entry : option nat)
  | Cancel_send (entry : nat)
  | Cancel_sent (entry : nat)
  | CancelOrders_lock (i : nat)
  | CancelOrders_shut (i : nat) (last : bool) (account : string)
  | CancelOrders_send (account : string)
  | CancelOrders_sent (account : string)
  | Reconnect_report (cause : option error)
  | Resubscribe_lock
  | Resubscribe_next (keys : list nat) (trade : option string)
  | Resubscribe_sent (e : nat) (keys : list nat) (trade : option string)
  | Kill_lock (e : nat) (keys : list nat) (trade : option string)
  | Kill_shut (doomed : list nat) (e : nat) (keys : list nat) (trade : option string)
  | Kill_sent (e : nat) (keys : list nat) (trade : option string)
  | ResubscribeTrade_sent (account : string)
  | KillOrders_lock
  | KillOrders_shut (doomed : list nat)
  | Dispatch_market (u : update)
  | Dispatch_trade (u : update)
  | Deliver (u : update) (targets : list nat)
  | Deliver_stamp (u : update) (i : nat) (targets : list nat)
  | Deliver_report (e : error) (u : update) (targets : list nat)
  | DeliverOrders (u : update) (targets : list nat)
  | DeliverOrders_report (e : error) (u : update) (targets : list nat)
  | Unrouted_record (u : update)
  | Unrouted_report (u : update)
  | Close_transport
  | Close_wait
  | Close_lock
  | Close_shut (markets orders : list nat)
  | Close_errc
  | Close_blocked.

Inductive once := NotClosed | Closing | Closed.
Inductive drainer := NoDrain | Draining | Forwarding (e : error) | Drained.

Record config := mkConfig {
  cf_market : bool;       (* [o.market != nil] *)
  cf_trade : bool;        (* [o.trade != nil] *)
  cf_transport : bool;    (* [o.transport != nil] *)
  cf_buffer : nat;        (* [o.buffer] *)
}.

(** [NewPushOrchestration]: the options applied in order ([None] is a nil one),
    and the payload types a handler is installed for. *)
Inductive PushOption :=
  | WithBuffer (n : Z)
  | WithResubscribeTimeout (d : Z)
  | WithTradeSubscriber (tr : bool).

Record orch_setup := mkOrchSetup {
  os_trade : bool;
  os_buffer : Z;
  os_resubTimeout : Z;
}.

Definition apply_push_option (opt : option PushOption) (o : orch_setup) : orch_setup :=
  match opt with
  | None => o
  | Some (WithBuffer n) =>
      mkOrchSetup (os_trade o) (if decide (n > 0) then n else DefaultPushBuffer) (os_resubTimeout o)
  | Some (WithResubscribeTimeout d) =>
      mkOrchSetup (os_trade o) (os_buffer o) (if decide (d > 0) then d else DefaultResubscribeTimeout)
  | Some (WithTradeSubscriber tr) => mkOrchSetup tr (os_buffer o) (os_resubTimeout o)
  end.

Definition NewPushOrchestration (sub tr : bool) (opts : list (option PushOption)) :
    orch_setup * config * list Z :=
  let o := foldl (fun o opt => apply_push_option opt o)
             (mkOrchSetup false DefaultPushBuffer DefaultResubscribeTimeout) opts in
  (o, mkConfig sub (os_trade o) tr (Z.to_nat (os_buffer o)),
   if tr then marketNotifyTypes ++ tradeNotifyTypes else []).

Lemma NewPushOrchestration_positive sub tr opts :
  let '(o, cf, _) := NewPushOrchestration sub tr opts in
  0 < os_buffer o /\ 0 < os_resubTimeout o /\ (0 < cf_buffer cf)%nat.
Proof.
  unfold NewPushOrchestration. simpl.
  assert (H : forall o, 0 < os_buffer o /\ 0 < os_resubTimeout o ->
    let o' := foldl (fun o opt => apply_push_option opt o) o opts in
    0 < os_buffer o' /\ 0 < os_resubTimeout o').
  { induction opts as [|opt opts IH]; intros o Ho; simpl; [done |]. apply IH.
    destruct opt as [[n|d|b]|]; simpl; [| | done..]; case_decide;
      unfold DefaultPushBuffer, DefaultResubscribeTimeout; lia. }
  specialize (H (mkOrchSetup false DefaultPushBuffer DefaultResubscribeTimeout)). simpl in H.
  unfold DefaultPushBuffer, DefaultResubscribeTimeout in *. lia.
Qed.

Record st := mkSt {
  subs : gmap nat Subscription;
  osubs : gmap nat OrderSubscription;
  heap : gmap nat pushEntry;
  entries : gmap string nat;
  byKey : gmap string (list nat);
  orders : list nat;
  tradeOn : bool;
  tradeSubs : Z;
  tradeAccount : string;
  unrouted : Z;
  seenIDs : gset string;
  errc : list error;
  errsDrop : Z;
  errc_closed : bool;
  closed : bool;
  close_once : once;
  drain : drainer;
  subMu : option nat;
  calls : gmap nat pc;
  results : gmap nat result;
  log : list request;         (* history: the requests sent, oldest first *)
  orphans : gset nat;         (* history: see [killEntry] *)
  panicked : bool;
}.


(** Field updates. *)
Definition w_subs v (s : st) : st :=
  mkSt v (osubs s) (heap s) (entries s) (byKey s) (orders s) (tradeOn s) (tradeSubs s)
    (tradeAccount s) (unrouted s) (seenIDs s) (errc s) (errsDrop s) (errc_closed s) (closed s)
    (close_once s) (drain s) (subMu s) (calls s) (results s) (log s) (orphans s) (panicked s).
Definition w_osubs v (s : st) : st :=
  mkSt (subs s) v (heap s) (entries s) (byKey s) (orders s) (tradeOn s) (tradeSubs s)
    (tradeAccount s) (unrouted s) (seenIDs s) (errc s) (errsDrop s) (errc_closed s) (closed s)
    (close_once s) (drain s) (subMu s) (calls s) (results s) (log s) (orphans s) (panicked s).
Definition w_heap v (s : st) : st :=
  mkSt (subs s) (osubs s) v (entries s) (byKey s) (orders s) (tradeOn s) (tradeSubs s)
    (tradeAccount s) (unrouted s) (seenIDs s) (errc s) (errsDrop s) (errc_closed s) (closed s)
    (close_once s) (drain s) (subMu s) (calls s) (results s) (log s) (orphans s) (panicked s).
Definition w_entries v (s : st) : st :=
  mkSt (subs s) (osubs s) (heap s) v (byKey s) (orders s) (tradeOn s) (tradeSubs s)
    (tradeAccount s) (unrouted s) (seenIDs s) (errc s) (errsDrop s) (errc_closed s) (closed s)
    (close_once s) (drain s) (subMu s) (calls s) (results s) (log s) (orphans s) (panicked s).
Definition w_byKey v (s : st) : st :=
  mkSt (subs s) (osubs s) (heap s) (entries s) v (orders s) (tradeOn s) (tradeSubs s)
    (tradeAccount s) (unrouted s) (seenIDs s) (errc s) (errsDrop s) (errc_closed s) (closed s)
    (close_once s) (drain s) (subMu s) (calls s) (results s) (log s) (orphans s) (panicked s).
Definition w_orders v (s : st) : st :=
  mkSt (subs s) (osubs s) (heap s) (entries s) (byKey s) v (tradeOn s) (tradeSubs s)
    (tradeAccount s) (unrouted s) (seenIDs s) (errc s) (errsDrop s) (errc_closed s) (closed s)
    (close_once s) (drain s) (subMu s) (calls s) (results s) (log s) (orphans s) (panicked s).
Definition w_tradeOn v (s : st) : st :=
  mkSt (subs s) (osubs s) (heap s) (entries s) (byKey s) (orders s) v (tradeSubs s)
    (tradeAccount s) (unrouted s) (seenIDs s) (errc s) (errsDrop s) (errc_closed s) (closed s)
    (close_once s) (drain s) (subMu s) (calls s) (results s) (log s) (orphans s) (panicked s).
Definition w_tradeSubs v (s : st) : st :=
  mkSt (subs s) (osubs s) (heap s) (entries s) (byKey s) (orders s) (tradeOn s) v (tradeAccount
    s) (unrouted s) (seenIDs s) (errc s) (errsDrop s) (errc_closed s) (closed s) (close_once s)
    (drain s) (subMu s) (calls s) (results s) (log s) (orphans s) (panicked s).
Definition w_tradeAccount v (s : st) : st :=
  mkSt (subs s) (osubs s) (heap s) (entries s) (byKey s) (orders s) (tradeOn s) (tradeSubs s) v
    (unrouted s) (seenIDs s) (errc s) (errsDrop s) (errc_closed s) (closed s) (close_once s)
    (drain s) (subMu s) (calls s) (results s) (log s) (orphans s) (panicked s).
Definition w_unrouted v (s : st) : st :=
  mkSt (subs s) (osubs s) (heap s) (entries s) (byKey s) (orders s) (tradeOn s) (tradeSubs s)
    (tradeAccount s) v (seenIDs s) (errc s) (errsDrop s) (errc_closed s) (closed s) (close_once
    s) (drain s) (subMu s) (calls s) (results s) (log s) (orphans s) (panicked s).
Definition w_seenIDs v (s : st) : st :=
  mkSt (subs s) (osubs s) (heap s) (entries s) (byKey s) (orders s) (tradeOn s) (tradeSubs s)
    (tradeAccount s) (unrouted s) v (errc s) (errsDrop s) (errc_closed s) (closed s) (close_once
    s) (drain s) (subMu s) (calls s) (results s) (log s) (orphans s) (panicked s).
Definition w_errc v (s : st) : st :=
  mkSt (subs s) (osubs s) (heap s) (entries s) (byKey s) (orders s) (tradeOn s) (tradeSubs s)
    (tradeAccount s) (unrouted s) (seenIDs s) v (errsDrop s) (errc_closed s) (closed s)
    (close_once s) (drain s) (subMu s) (calls s) (results s) (log s) (orphans s) (panicked s).
Definition w_errsDrop v (s : st) : st :=
  mkSt (subs s) (osubs s) (heap s) (entries s) (byKey s) (orders s) (tradeOn s) (tradeSubs s)
    (tradeAccount s) (unrouted s) (seenIDs s) (errc s) v (errc_closed s) (closed s) (close_once
    s) (drain s) (subMu s) (calls s) (results s) (log s) (orphans s) (panicked s).
Definition w_errc_closed v (s : st) : st :=
  mkSt (subs s) (osubs s) (heap s) (entries s) (byKey s) (orders s) (tradeOn s) (tradeSubs s)
    (tradeAccount s) (unrouted s) (seenIDs s) (errc s) (errsDrop s) v (closed s) (close_once s)
    (drain s) (subMu s) (calls s) (results s) (log s) (orphans s) (panicked s).
Definition w_closed v (s : st) : st :=
  mkSt (subs s) (osubs s) (heap s) (entries s) (byKey s) (orders s) (tradeOn s) (tradeSubs s)
    (tradeAccount s) (unrouted s) (seenIDs s) (errc s) (errsDrop s) (errc_closed s) v
    (close_once s) (drain s) (subMu s) (calls s) (results s) (log s) (orphans s) (panicked s).
Definition w_close_once v (s : st) : st :=
  mkSt (subs s) (osubs s) (heap s) (entries s) (byKey s) (orders s) (tradeOn s) (tradeSubs s)
    (tradeAccount s) (unrouted s) (seenIDs s) (errc s) (errsDrop s) (errc_closed s) (closed s) v
    (drain s) (subMu s) (calls s) (results s) (log s) (orphans s) (panicked s).
Definition w_drain v (s : st) : st :=
  mkSt (subs s) (osubs s) (heap s) (entries s) (byKey s) (orders s) (tradeOn s) (tradeSubs s)
    (tradeAccount s) (unrouted s) (seenIDs s) (errc s) (errsDrop s) (errc_closed s) (closed s)
    (close_once s) v (subMu s) (calls s) (results s) (log s) (orphans s) (panicked s).
Definition w_subMu v (s : st) : st :=
  mkSt (subs s) (osubs s) (heap s) (entries s) (byKey s) (orders s) (tradeOn s) (tradeSubs s)
    (tradeAccount s) (unrouted s) (seenIDs s) (errc s) (errsDrop s) (errc_closed s) (closed s)
    (close_once s) (drain s) v (calls s) (results s) (log s) (orphans s) (panicked s).
Definition w_calls v (s : st) : st :=
  mkSt (subs s) (osubs s) (heap s) (entries s) (byKey s) (orders s) (tradeOn s) (tradeSubs s)
    (tradeAccount s) (unrouted s) (seenIDs s) (errc s) (errsDrop s) (errc_closed s) (closed s)
    (close_once s) (drain s) (subMu s) v (results s) (log s) (orphans s) (panicked s).
Definition w_results v (s : st) : st :=
  mkSt (subs s) (osubs s) (heap s) (entries s) (byKey s) (orders s) (tradeOn s) (tradeSubs s)
    (tradeAccount s) (unrouted s) (seenIDs s) (errc s) (errsDrop s) (errc_closed s) (closed s)
    (close_once s) (drain s) (subMu s) (calls s) v (log s) (orphans s) (panicked s).
Definition w_log v (s : st) : st :=
  mkSt (subs s) (osubs s) (heap s) (entries s) (byKey s) (orders s) (tradeOn s) (tradeSubs s)
    (tradeAccount s) (unrouted s) (seenIDs s) (errc s) (errsDrop s) (errc_closed s) (closed s)
    (close_once s) (drain s) (subMu s) (calls s) (results s) v (orphans s) (panicked s).
Definition w_orphans v (s : st) : st :=
  mkSt (subs s) (osubs s) (heap s) (entries s) (byKey s) (orders s) (tradeOn s) (tradeSubs s)
    (tradeAccount s) (unrouted s) (seenIDs s) (errc s) (errsDrop s) (errc_closed s) (closed s)
    (close_once s) (drain s) (subMu s) (calls s) (results s) (log s) v (panicked s).
Definition w_panicked v (s : st) : st :=
  mkSt (subs s) (osubs s) (heap s) (entries s) (byKey s) (orders s) (tradeOn s) (tradeSubs s)
    (tradeAccount s) (unrouted s) (seenIDs s) (errc s) (errsDrop s) (errc_closed s) (closed s)
    (close_once s) (drain s) (subMu s) (calls s) (results s) (log s) (orphans s) v.

Definition init (transport : bool) : st :=
  mkSt ∅ ∅ ∅ ∅ ∅ [] false 0 "" 0 ∅ [] 0 false false NotClosed
    (if transport then Draining else NoDrain) None ∅ ∅ [] ∅ false.

(** *** Error stream *)
Definition errc_cap : nat := Z.to_nat DefaultPushBuffer.

(** [report]: under [errcMu]; nothing is sent after [Close] has begun. *)
Definition report (ch : choice) (e : error) (s : st) : st :=
  if closed s then s
  else if errc_closed s then w_panicked true s
  else
    match try_send errc_cap (errc s) e with
    | Some q => w_errc q s
    | None =>
        let q := drop (ch_c1 ch) (errc s) in
        let s := if decide (q = []) then s else w_errsDrop (bump (errsDrop s)) s in
        let q := drop (ch_c2 ch) (try_recv q) in
        w_errc (default q (try_send errc_cap q e)) s
    end.

(** *** Registry *)
Definition bucket (k : string) (s : st) : list nat := default [] (byKey s !! k).

Fixpoint remove_first (i : nat) (l : list nat) : list nat :=
  match l with
  | [] => []
  | x :: l => if decide (x = i) then l else x :: remove_first i l
  end.

Definition index_add (i : nat) (k : string) (s : st) : st :=
  w_byKey (<[k := bucket k s ++ [i]]> (byKey s)) s.

Definition attachLocked (e : pushEntry) (i : nat) (s : st) : st :=
  foldl (fun s k => index_add i k s) s (securityKeys (e_securities e)).

Definition removeFromIndexLocked (k : string) (i : nat) (s : st) : st :=
  let b := remove_first i (bucket k s) in
  if decide (b = []) then w_byKey (delete k (byKey s)) s else w_byKey (<[k := b]> (byKey s)) s.

Definition unindex (securities : list Security) (i : nat) (s : st) : st :=
  foldl (fun s k => removeFromIndexLocked k i s) s (securityKeys securities).

Definition with_subs (l : list nat) (e : pushEntry) : pushEntry :=
  mkEntry (e_topic e) (e_securities e) l (e_subscribed e).

Definition entry_key (e : pushEntry) : string := canonicalPushKey (e_topic e) (e_securities e).
Definition sub_key (x : Subscription) : string := canonicalPushKey (s_topic x) (s_securities x).

(** [detachLocked]: the entry whose last subscriber left. *)
Definition detachLocked (i : nat) (s : st) : option nat * st :=
  match subs s !! i with
  | None => (None, s)
  | Some x =>
      match entries s !! sub_key x with
      | None => (None, s)
      | Some en =>
          match heap s !! en with
          | None => (None, s)
          | Some e =>
              let e' := with_subs (remove_first i (e_subs e)) e in
              let s := w_heap (<[en := e']> (heap s)) s in
              if decide (e_subs e' = []) then
                (Some en, unindex (e_securities e) i (w_entries (delete (sub_key x) (entries s)) s))
              else (None, unindex (e_securities e) i s)
          end
      end
  end.

Definition shutdown (i : nat) (s : st) : st := w_subs (alter Subscription_shutdown i (subs s)) s.
Definition shutdown_order (i : nat) (s : st) : st :=
  w_osubs (alter OrderSubscription_shutdown i (osubs s)) s.

Definition isClosed (i : nat) (s : st) : bool := from_option s_closed true (subs s !! i).
Definition order_isClosed (i : nat) (s : st) : bool := from_option o_closed true (osubs s !! i).

(** *** Threads *)
Definition set_call (t : nat) (p : pc) (s : st) : st := w_calls (<[t := p]> (calls s)) s.
Definition return_ (t : nat) (r : result) (s : st) : st :=
  w_calls (delete t (calls s)) (w_results (<[t := r]> (results s)) s).
Definition send (r : request) (s : st) : st := w_log (log s ++ [r]) s.

(** ** Calls

    What a caller, the reconnect hook or a handler of the transport starts. *)
Inductive call :=
  | CSubscribe (topic : Z) (sec : list (option Security))
  | CSubscribeOrders (accountID : string)
  | CCancel (i : nat)
  | CCancelOrders (i : nat)
  | CReconnect (cause : option error)
  | CUpdate (u : option update)
  | CClose.

Definition no_trade_subscriber : error :=
  Errs.New StatusInvalidParam opPushSubscribeOrders
    ("order push needs a trade subscriber; construct the orchestration"
     +:+ " with services.WithTradeSubscriber").

(** [Subscribe], to the lock of [subscribeUnderLock]. *)
Definition Subscribe (cf : config) (topic : Z) (sec : list (option Security)) (s : st) : pc + result :=
  if closed s then inr (RDone (Some ErrPushClosed))
  else if negb (cf_transport cf && cf_market cf) then inr (RDone (Some ErrNoPushTransport))
  else
    match NotifyTypeForTopic topic with
    | None => inr (RDone (Some (Errs.New StatusInvalidParam opPushSubscribe (unmappedTopicMessage topic))))
    | Some msgType =>
        match copyAndValidateSecurities topic sec with
        | inl e => inr (RDone (Some e))
        | inr securities => inl (Subscribe_lock topic msgType securities)
        end
    end.

Definition SubscribeOrders (cf : config) (accountID : string) (s : st) : pc + result :=
  if closed s then inr (RDone (Some ErrPushClosed))
  else if negb (cf_transport cf) then inr (RDone (Some ErrNoPushTransport))
  else if negb (cf_trade cf) then inr (RDone (Some no_trade_subscriber))
  else if decide (accountID = "") then
    inr (RDone (Some (Errs.New StatusInvalidParam opPushSubscribeOrders "accountID must not be empty")))
  else inl (Orders_lock accountID).

(** The handler of [install]. *)
Definition handle_update (u : option update) : pc + result :=
  match u with
  | None => inr (RDone None)
  | Some u =>
      match pu_Event u with
      | None => inr (RDone None)
      | Some _ => inl (if isTradeNotifyType (pu_Type u) then Dispatch_trade u else Dispatch_market u)
      end
  end.

Definition onReconnect (cause : option error) (s : st) : pc + result :=
  if closed s then inr (RDone None) else inl (Reconnect_report cause).

Definition goto (t : nat) (r : pc + result) (s : st) : st :=
  match r with inl p => set_call t p s | inr r => return_ t r s end.

(** [Close] to [o.transport.Close()]: [closeCh] is closed with [closed]. *)
Definition Close (t : nat) (s : st) : st :=
  match close_once s with
  | NotClosed => set_call t Close_transport (w_closed true (w_close_once Closing s))
  | Closing => set_call t Close_blocked s
  | Closed => return_ t (RDone None) s
  end.

(** [Connect] and [Run]: [answer] is what the transport's own method returns. *)
Definition Connect (cf : config) (answer : option error) (s : st) : option error :=
  if closed s then Some ErrPushClosed
  else if negb (cf_transport cf) then Some ErrNoPushTransport
  else answer.

(** The transport calls the hook and the handlers only when there is one. *)
Definition start (cf : config) (t : nat) (c : call) (s : st) : st :=
  match c with
  | CSubscribe topic sec => goto t (Subscribe cf topic sec s) s
  | CSubscribeOrders a => goto t (SubscribeOrders cf a s) s
  | CCancel i => set_call t (Cancel_lock i) s
  | CCancelOrders i => set_call t (CancelOrders_lock i) s
  | CReconnect cause => goto t (if cf_transport cf then onReconnect cause s else inr (RDone None)) s
  | CUpdate u => goto t (if cf_transport cf then handle_update u else inr (RDone None)) s
  | CClose => Close t s
  end.

(** ** Steps of a call *)
Definition lost (what : string) (e : error) : error :=
  streamError ErrSubscriptionLost (EWrap (what +:+ ": " +:+ error_text e) e).

Definition of_topic (e : pushEntry) : string :=
  "topicId " +:+ itoa (e_topic e) +:+ " for " +:+ keyList (e_securities e).

(** A new subscription of the entry [en]. *)
Definition add_subscriber (t en : nat) (e : pushEntry) (topic msgType : Z) (sec : list Security)
    (s : st) : st :=
  let i := fresh (dom (subs s)) in
  let s := w_subs (<[i := newSubscription topic msgType sec]> (subs s)) s in
  let s := w_heap (<[en := with_subs (e_subs e ++ [i]) e]> (heap s)) s in
  return_ t (RSubscription i) (attachLocked e i s).

Definition subscribe_locked (t : nat) (topic msgType : Z) (sec : list Security) (s : st) : st :=
  if closed s then return_ t (RDone (Some ErrPushClosed)) s
  else
    match entries s !! canonicalPushKey topic sec with
    | Some en =>
        match heap s !! en with
        | Some e => add_subscriber t en e topic msgType sec s
        | None => s
        end
    | None =>
        set_call t (Subscribe_sent topic msgType sec)
          (send (HqSubscribe topic sec) (w_subMu (Some t) s))
    end.

Definition subscribe_replied (reply : option error) (t : nat) (topic msgType : Z)
    (sec : list Security) (s : st) : st :=
  let s := w_subMu None s in
  match reply with
  | Some e => return_ t (RDone (Some e)) s
  | None =>
      let en := fresh (dom (heap s)) in
      let s := w_entries (<[canonicalPushKey topic sec := en]> (entries s)) s in
      add_subscriber t en (mkEntry topic sec [] true) topic msgType sec s
  end.

Definition add_order (t : nat) (account : string) (s : st) : st :=
  let i := fresh (dom (osubs s)) in
  let s := w_osubs (<[i := newOrderSubscription account]> (osubs s)) s in
  let s := w_orders (orders s ++ [i]) s in
  return_ t (ROrders i) (w_tradeSubs (tradeSubs s +! 1)%go s).

Definition orders_locked (t : nat) (account : string) (s : st) : st :=
  if closed s then return_ t (RDone (Some ErrPushClosed)) s
  else if tradeOn s then add_order t account s
  else set_call t (Orders_sent account) (send (TradeSubscribe account) (w_subMu (Some t) s)).

Definition orders_replied (reply : option error) (t : nat) (account : string) (s : st) : st :=
  let s := w_subMu None s in
  match reply with
  | Some e => return_ t (RDone (Some e)) s
  | None => add_order t account (w_tradeAccount account (w_tradeOn true s))
  end.

Definition cancel_locked (t i : nat) (s : st) : st :=
  if isClosed i s then return_ t (RDone None) s
  else let '(entry, s) := detachLocked i s in set_call t (Cancel_shut i entry) s.

Definition cancel_orders_locked (t i : nat) (s : st) : st :=
  if order_isClosed i s then return_ t (RDone None) s
  else
    let s := w_orders (remove_first i (orders s)) s in
    let s := w_tradeSubs (tradeSubs s -! 1)%go s in
    let last := bool_decide (tradeSubs s <= 0) in
    let s := if last then w_tradeOn false s else s in
    set_call t (CancelOrders_shut i last (tradeAccount s)) s.

(** The entries to re-subscribe, by key. *)
Definition key_le (p q : string * nat) : Prop := String.le (fst p) (fst q).
#[local] Instance key_le_dec : RelDecision key_le.
Proof. intros p q. apply String.le_dec. Defined.

Definition resubscribe_keys (s : st) : list nat :=
  let accepted := filter (fun en => from_option e_subscribed false (heap s !! en) = true)
                    (snd <$> map_to_list (entries s)) in
  snd <$> merge_sort key_le ((fun en => (from_option entry_key "" (heap s !! en), en)) <$> accepted).

(** [killEntry] under the lock. The entry found under the key may be a newer one:
    its subscriptions are recorded in [orphans]. *)
Definition entry_subs (en : nat) (s : st) : list nat := from_option e_subs [] (heap s !! en).

Definition sub_securities (i : nat) (s : st) : list Security :=
  from_option s_securities [] (subs s !! i).

Definition displaced (key : string) (en : nat) (s : st) : gset nat :=
  match entries s !! key with
  | Some en' => if decide (en' = en) then ∅ else list_to_set (entry_subs en' s)
  | None => ∅
  end.

Definition kill_locked (en : nat) (e : pushEntry) (s : st) : st :=
  let s := foldl (fun s i => unindex (sub_securities i s) i s) s (e_subs e) in
  let s := w_orphans (displaced (entry_key e) en s ∪ orphans s) s in
  w_entries (delete (entry_key e) (entries s)) s.

(** [dispatchMarket] under [mu], at a moment when no section under [subMu] is
    writing the index. *)
Definition market_targets (u : update) (s : st) : list nat :=
  distinct [] (updateRoutingKeys u ≫= fun k => bucket k s).

Definition unrouted_error (u : update) : error :=
  streamError ErrUnrouted (EText ("notifyMsgType " +:+ NotifyMsgType_String (pu_Type u) +:+ " id "
    +:+ Quote (pu_ID u) +:+ " securityCode " +:+ Quote (SecurityCode u)
    +:+ " matched no live subscription (the Gateway's notifyId may differ from the code sent to"
    +:+ " /hq/Subscribe; both are matched)")).

Definition record_unrouted (t : nat) (u : update) (s : st) : st :=
  let known := bool_decide (pu_ID u ∈ seenIDs s) in
  let s := w_unrouted (bump (unrouted s)) s in
  let s :=
    if negb known && bool_decide (size (seenIDs s) < unroutedReportCap)%nat
    then w_seenIDs ({[pu_ID u]} ∪ seenIDs s) s else s in
  if known then return_ t (RDone None) s else set_call t (Unrouted_report u) s.

Definition deliver_at (buffer : nat) (ch : choice) (u : update) (i : nat) (s : st) : bool * st :=
  match subs s !! i with
  | None => (false, s)
  | Some x =>
      let '(x, late) := Subscription_deliver buffer ch u x in (late, w_subs (<[i := x]> (subs s)) s)
  end.

Definition deliver_order_at (buffer : nat) (ch : choice) (u : update) (i : nat) (s : st) :
    option error * st :=
  match osubs s !! i with
  | None => (None, s)
  | Some x =>
      let '(x, overflow) := OrderSubscription_deliver buffer ch u x in
      (if overflow then Some (backlog_error buffer x) else None, w_osubs (<[i := x]> (osubs s)) s)
  end.

(** A section under [subMu] waits for its owner. *)
Definition locked (s : st) (f : st -> st) : option st :=
  match subMu s with None => Some (f s) | Some _ => None end.

Definition report_opt (ch : choice) (e : option error) (s : st) : st :=
  match e with None => s | Some e => report ch e s end.

(** The steps of [Subscribe], [SubscribeOrders] and the [Cancel] methods. *)
Definition cancel_replied (ch : choice) (what : string) (t : nat) (s : st) : st :=
  return_ t (RDone (ch_reply ch)) (report_opt ch (lost what <$> ch_reply ch) s).

Definition unsubscribe_topic (e : pushEntry) : request := HqUnsubscribe (e_topic e) (e_securities e).

Definition cancel_shut (cf : config) (t i : nat) (entry : option nat) (s : st) : st :=
  let s := shutdown i s in
  match entry with
  | Some en =>
      if from_option e_subscribed false (heap s !! en) && cf_market cf
      then set_call t (Cancel_send en) s else return_ t (RDone None) s
  | None => return_ t (RDone None) s
  end.

(** The steps of the reconnect hook. *)
Definition resubscribe_locked (cf : config) (t : nat) (s : st) : st :=
  let trade := if tradeOn s && cf_trade cf then Some (tradeAccount s) else None in
  set_call t (Resubscribe_next (resubscribe_keys s) trade) s.

Definition resubscribe_next (t : nat) (keys : list nat) (trade : option string) (s : st) : st :=
  match keys, trade with
  | en :: keys, _ =>
      match heap s !! en with
      | Some e => set_call t (Resubscribe_sent en keys trade)
                    (send (HqSubscribe (e_topic e) (e_securities e)) s)
      | None => s
      end
  | [], Some account => set_call t (ResubscribeTrade_sent account) (send (TradeSubscribe account) s)
  | [], None => return_ t (RDone None) s
  end.

Definition resubscribe_replied (ch : choice) (t en : nat) (keys : list nat) (trade : option string)
    (s : st) : st :=
  match ch_reply ch, heap s !! en with
  | Some err, Some e =>
      set_call t (Kill_lock en keys trade)
        (report ch (lost ("resubscribe " +:+ of_topic e +:+ " after reconnect") err) s)
  | _, _ => set_call t (Resubscribe_next keys trade) s
  end.

Definition kill_shut (t : nat) (doomed : list nat) (en : nat) (keys : list nat)
    (trade : option string) (s : st) : st :=
  match doomed, heap s !! en with
  | i :: doomed, _ => set_call t (Kill_shut doomed en keys trade) (shutdown i s)
  | [], Some e => set_call t (Kill_sent en keys trade) (send (unsubscribe_topic e) s)
  | [], None => s
  end.

Definition kill_replied (ch : choice) (t en : nat) (keys : list nat) (trade : option string)
    (s : st) : st :=
  let what := "unsubscribe " +:+ from_option of_topic "" (heap s !! en)
              +:+ " after a failed re-subscribe" in
  set_call t (Resubscribe_next keys trade) (report_opt ch (lost what <$> ch_reply ch) s).

Definition trade_replied (ch : choice) (t : nat) (account : string) (s : st) : st :=
  match ch_reply ch with
  | None => return_ t (RDone None) s
  | Some err =>
      set_call t KillOrders_lock
        (report ch (lost ("resubscribe session-wide order push for account " +:+ account) err) s)
  end.

Definition kill_orders_locked (t : nat) (s : st) : st :=
  set_call t (KillOrders_shut (orders s)) (w_tradeSubs 0 (w_tradeOn false (w_orders [] s))).

Definition kill_orders_shut (t : nat) (doomed : list nat) (s : st) : st :=
  match doomed with
  | i :: doomed => set_call t (KillOrders_shut doomed) (shutdown_order i s)
  | [] => return_ t (RDone None) s
  end.

(** The steps of a dispatch. *)
Definition dispatch_market (t : nat) (u : update) (s : st) : st :=
  match market_targets u s with
  | [] => set_call t (Unrouted_record u) s
  | targets => set_call t (Deliver u targets) s
  end.

Definition deliver_step (cf : config) (ch : choice) (t : nat) (u : update) (targets : list nat)
    (s : st) : st :=
  match targets with
  | [] => return_ t (RDone None) s
  | i :: targets =>
      let '(late, s) := deliver_at (cf_buffer cf) ch u i s in
      set_call t (if late then Deliver_stamp u i targets else Deliver u targets) s
  end.

Definition deliver_stamp (t : nat) (u : update) (i : nat) (targets : list nat) (s : st) : st :=
  match subs s !! i with
  | Some x => set_call t (Deliver_report (out_of_order_error u x) u targets) s
  | None => s
  end.

Definition deliver_orders_step (cf : config) (ch : choice) (t : nat) (u : update)
    (targets : list nat) (s : st) : st :=
  match targets with
  | [] => return_ t (RDone None) s
  | i :: targets =>
      let '(overflow, s) := deliver_order_at (cf_buffer cf) ch u i s in
      set_call t (match overflow with
                  | Some e => DeliverOrders_report e u targets
                  | None => DeliverOrders u targets
                  end) s
  end.

(** The steps of [Close]; [close(o.errc)] panics on a closed channel. *)
Definition close_locked (t : nat) (s : st) : st :=
  let markets := (map_to_list (entries s)).*2 ≫= fun en => entry_subs en s in
  set_call t (Close_shut markets (orders s)) (w_orders [] (w_byKey ∅ (w_entries ∅ s))).

Definition close_shut (t : nat) (markets os : list nat) (s : st) : st :=
  match markets, os with
  | i :: markets, _ => set_call t (Close_shut markets os) (shutdown i s)
  | [], i :: os => set_call t (Close_shut [] os) (shutdown_order i s)
  | [], [] => set_call t Close_errc s
  end.

Definition close_errc (t : nat) (s : st) : st :=
  if errc_closed s then w_panicked true s
  else return_ t (RDone None) (w_close_once Closed (w_errc_closed true s)).

Definition thread_step (cf : config) (ch : choice) (t : nat) (p : pc) (s : st) : option st :=
  match p with
  | Subscribe_lock topic m sec => locked s (subscribe_locked t topic m sec)
  | Subscribe_sent topic m sec => Some (subscribe_replied (ch_reply ch) t topic m sec s)
  | Orders_lock a => locked s (orders_locked t a)
  | Orders_sent a => Some (orders_replied (ch_reply ch) t a s)
  | Cancel_lock i => locked s (cancel_locked t i)
  | Cancel_shut i entry => Some (cancel_shut cf t i entry s)
  | Cancel_send en =>
      Some (set_call t (Cancel_sent en)
              (match heap s !! en with Some e => send (unsubscribe_topic e) s | None => s end))
  | Cancel_sent en =>
      Some (cancel_replied ch ("unsubscribe " +:+ from_option of_topic "" (heap s !! en)) t s)
  | CancelOrders_lock i => locked s (cancel_orders_locked t i)
  | CancelOrders_shut i last a =>
      let s := shutdown_order i s in
      Some (if last && cf_trade cf then set_call t (CancelOrders_send a) s
            else return_ t (RDone None) s)
  | CancelOrders_send a => Some (set_call t (CancelOrders_sent a) (send (TradeUnsubscribe a) s))
  | CancelOrders_sent a =>
      Some (cancel_replied ch ("unsubscribe session-wide order push for account " +:+ a) t s)
  | Reconnect_report cause =>
      Some (set_call t Resubscribe_lock (report ch (newReconnectNotice cause) s))
  | Resubscribe_lock => locked s (resubscribe_locked cf t)
  | Resubscribe_next keys trade => Some (resubscribe_next t keys trade s)
  | Resubscribe_sent en keys trade => Some (resubscribe_replied ch t en keys trade s)
  | Kill_lock en keys trade =>
      match heap s !! en with
      | Some e => locked s (fun s => set_call t (Kill_shut (e_subs e) en keys trade) (kill_locked en e s))
      | None => None
      end
  | Kill_shut doomed en keys trade => Some (kill_shut t doomed en keys trade s)
  | Kill_sent en keys trade => Some (kill_replied ch t en keys trade s)
  | ResubscribeTrade_sent a => Some (trade_replied ch t a s)
  | KillOrders_lock => locked s (kill_orders_locked t)
  | KillOrders_shut doomed => Some (kill_orders_shut t doomed s)
  | Dispatch_market u => Some (dispatch_market t u s)
  | Dispatch_trade u => Some (set_call t (DeliverOrders u (orders s)) s)
  | Deliver u targets => Some (deliver_step cf ch t u targets s)
  | Deliver_stamp u i targets => Some (deliver_stamp t u i targets s)
  | Deliver_report e u targets => Some (set_call t (Deliver u targets) (report ch e s))
  | DeliverOrders u targets => Some (deliver_orders_step cf ch t u targets s)
  | DeliverOrders_report e u targets => Some (set_call t (DeliverOrders u targets) (report ch e s))
  | Unrouted_record u => Some (record_unrouted t u s)
  | Unrouted_report u => Some (return_ t (RDone None) (report ch (unrouted_error u) s))
  | Close_transport =>
      Some (set_call t Close_wait (if cf_transport cf then send TransportClose s else s))
  | Close_wait =>
      match drain s with
      | NoDrain | Drained => Some (set_call t Close_lock s)
      | _ => None
      end
  | Close_lock => locked s (close_locked t)
  | Close_shut markets os => Some (close_shut t markets os s)
  | Close_errc => Some (close_errc t s)
  | Close_blocked =>
      match close_once s with Closed => Some (return_ t (RDone None) s) | _ => None end
  end.

(** [drainTransportErrors]: it forwards an error, and stops when the upstream or
    [closeCh] is closed. *)
Definition drain_recv (e : option error) (s : st) : option st :=
  match drain s, e with
  | Draining, Some e => Some (w_drain (Forwarding e) s)
  | Draining, None => Some (w_drain Drained s)
  | _, _ => None
  end.

Definition drain_forward (ch : choice) (s : st) : option st :=
  match drain s with
  | Forwarding e => Some (w_drain Draining (report ch e s))
  | _ => None
  end.
End orch.
Arguments Subscription D : clear implicits.
Arguments OrderSubscription D : clear implicits.
Arguments pc D : clear implicits.
Arguments st D : clear implicits.
Arguments call D : clear implicits.

(** ** Executions *)
Section executions.
Context {D : Type} (cf : config).

(** A step of a call under way, of the forwarding goroutine, of a consumer, or a
    new call. *)
Inductive step (s : st D) : st D -> Prop :=
  | step_start t c : calls s !! t = None -> results s !! t = None -> step s (start cf t c s)
  | step_thread t p ch s' :
      calls s !! t = Some p -> thread_step cf ch t p s = Some s' -> step s s'
  | step_drain_recv e s' : drain_recv e s = Some s' -> step s s'
  | step_drain_forward ch s' : drain_forward ch s = Some s' -> step s s'
  | step_recv i : step s (w_subs (alter Subscription_recv i (subs s)) s)
  | step_recv_order i : step s (w_osubs (alter OrderSubscription_recv i (osubs s)) s)
  | step_recv_err : step s (w_errc (drop 1 (errc s)) s).

Inductive reachable : st D -> Prop :=
  | reachable_init : reachable (init (cf_transport cf))
  | reachable_step s s' : reachable s -> step s s' -> reachable s'.

(** A schedule: a call to start, or the next step of a call under way. *)
Inductive event :=
  | Start (t : nat) (c : call D)   (* a call *)
  | Run (t : nat) (ch : choice)
  | StopDrain.

Definition exec_event (ev : event) (s : st D) : option (st D) :=
  match ev with
  | Start t c =>
      if decide (calls s !! t = None /\ results s !! t = None) then Some (start cf t c s) else None
  | Run t ch => calls s !! t ≫= fun p => thread_step cf ch t p s
  | StopDrain => drain_recv None s
  end.

Fixpoint exec (evs : list event) (s : st D) : option (st D) :=
  match evs with [] => Some s | ev :: evs => exec_event ev s ≫= exec evs end.

Lemma exec_reachable evs s s' : reachable s -> exec evs s = Some s' -> reachable s'.
Proof.
  revert s. induction evs as [|ev evs IH]; intros s Hs; simpl; [by intros [= <-] |].
  intros (s1 & Hev & Hex)%bind_Some. apply (IH s1); [| done]. apply (reachable_step s); [done |].
  destruct ev as [t c | t ch |]; simpl in Hev.
  - case_decide as Hf; [injection Hev as <- | done]. destruct Hf. by apply step_start.
  - apply bind_Some in Hev as (p & Hp & Hst). by eapply step_thread.
  - by eapply step_drain_recv.
Qed.
End executions.
Arguments event D : clear implicits.
