(* ===== verification/PushOrchInv.v ===== *)
(** Invariants of the push orchestration ([PushOrch]): the error stream and the
    channels, the lock, the registry and its routing index, and the order
    subscriptions, in every interleaving of the calls. *)
From S2P Require Import Prelude Chan Types Errs Domain PushKeys PushOrch.

(** ** Removing an element *)
Lemma remove_first_sublist i l : remove_first i l `sublist_of` l.
Proof.
  induction l as [|x l IH]; simpl; [done |].
  case_decide; [by apply sublist_cons | by apply sublist_skip].
Qed.

Lemma remove_first_NoDup i l : NoDup l -> NoDup (remove_first i l).
Proof. intros Hl. eapply sublist_NoDup; [done | apply remove_first_sublist]. Qed.

Lemma elem_of_remove_first i j l : NoDup l -> j ∈ remove_first i l <-> j ∈ l /\ j <> i.
Proof.
  induction 1 as [|x l Hx Hl IH]; simpl; [set_solver |].
  case_decide; [subst; set_solver |]. rewrite elem_of_cons, IH. set_solver.
Qed.

Lemma remove_first_not_in i l : i ∉ l -> remove_first i l = l.
Proof.
  induction l as [|x l IH]; simpl; [done |]. intros [Hx Hl]%not_elem_of_cons.
  rewrite decide_False by done. by rewrite IH.
Qed.

Section inv.
Context {D : Type}.
Implicit Types (s : st D) (p : pc D).

(** ** The routing index *)
Definition at_key (B : gmap string (list nat)) (k : string) : list nat := default [] (B !! k).

Lemma attach_spec e i s :
  exists B, attachLocked e i s = w_byKey B s /\
    forall k, at_key B k = at_key (byKey s) k ++ (if decide (k ∈ securityKeys (e_securities e)) then [i] else []).
Proof.
  unfold attachLocked. pose proof (NoDup_distinct (A := string) [] (normaliseRoutingKey <$>
    filter (fun c => c <> "") (sec_Code <$> e_securities e))) as Hnd.
  change (distinct [] _) with (securityKeys (e_securities e)) in Hnd. revert Hnd.
  generalize (securityKeys (e_securities e)) as keys. intros keys. revert s.
  induction keys as [|k keys IH]; intros s Hnd; simpl.
  { exists (byKey s). split; [by destruct s |]. intros k.
    by rewrite app_nil_r. }
  apply NoDup_cons in Hnd as [Hk Hnd].
  destruct (IH (index_add i k s) Hnd) as (B & -> & HB). exists B. split; [done |].
  intros k'. rewrite HB. unfold at_key, index_add, bucket. simpl.
  destruct (decide (k' = k)) as [->|Hne].
  - rewrite lookup_insert_eq, decide_False, decide_True by set_solver. simpl. by rewrite app_nil_r.
  - rewrite lookup_insert_ne by done. f_equal. apply decide_ext. set_solver.
Qed.

Lemma remove_spec k i s :
  exists B, removeFromIndexLocked k i s = w_byKey B s /\
    (forall k', at_key B k' =
       if decide (k' = k) then remove_first i (at_key (byKey s) k) else at_key (byKey s) k') /\
    (byKey s = ∅ -> B = ∅).
Proof.
  unfold removeFromIndexLocked, bucket, at_key. case_decide as Hb; eexists; (split; [done |]);
    (split; [intros k'; case_decide; subst;
      rewrite ?lookup_delete_eq, ?lookup_insert_eq, ?lookup_delete_ne, ?lookup_insert_ne by done;
      simpl; congruence |]); intros He; rewrite He in *; [apply delete_empty |].
  by rewrite lookup_empty in Hb.
Qed.

Lemma unindex_spec l i s :
  exists B, unindex l i s = w_byKey B s /\
    (forall k, at_key B k =
       if decide (k ∈ securityKeys l) then remove_first i (at_key (byKey s) k)
       else at_key (byKey s) k) /\
    (byKey s = ∅ -> B = ∅).
Proof.
  unfold unindex. pose proof (NoDup_distinct (A := string) [] (normaliseRoutingKey <$>
    filter (fun c => c <> "") (sec_Code <$> l))) as Hnd.
  change (distinct [] _) with (securityKeys l) in Hnd. revert Hnd.
  generalize (securityKeys l) as keys. intros keys. revert s.
  induction keys as [|k keys IH]; intros s Hnd; simpl.
  { exists (byKey s). split; [by destruct s |]. done. }
  apply NoDup_cons in Hnd as [Hk Hnd].
  destruct (IH (removeFromIndexLocked k i s) Hnd) as (B & HB & Hat & Hemp). exists B.
  destruct (remove_spec k i s) as (B1 & HB1 & Hat1 & Hemp1). rewrite HB1 in Hat, Hemp.
  split; [by rewrite HB, HB1 |]. split; [| auto].
  intros k'. rewrite Hat. simpl. rewrite !Hat1.
  destruct (decide (k' = k)) as [->|Hne].
  - rewrite decide_False, decide_True by set_solver. done.
  - apply decide_ext. set_solver.
Qed.

(** ** Data *)
Definition doomed_of p : list nat :=
  match p with
  | Cancel_shut i _ => [i]
  | Kill_shut doomed _ _ _ => doomed
  | Close_shut markets _ => markets
  | _ => []
  end.

Definition order_doomed p : list nat :=
  match p with
  | CancelOrders_shut i _ _ => [i]
  | KillOrders_shut doomed => doomed
  | Close_shut _ os => os
  | _ => []
  end.

(** The subscriptions whose shutdown a call still has to do. *)
Definition pending_in (f : pc D -> list nat) s (i : nat) : Prop :=
  exists t p, calls s !! t = Some p /\ i ∈ f p.
Definition pending : st D -> nat -> Prop := pending_in doomed_of.

#[global] Instance pending_in_dec f s i : Decision (pending_in f s i).
Proof.
  destruct (decide (map_Exists (fun _ p => i ∈ f p) (calls s))) as [He|He]; [left | right].
  - destruct He as (t & p & ? & ?). by exists t, p.
  - intros (t & p & ? & ?). apply He. by exists t, p.
Defined.

Definition past_drain p : bool :=
  match p with Close_shut _ _ | Close_errc => true | _ => false end.

(** [Close] has emptied the registry. *)
Definition drained s : Prop :=
  close_once s = Closed \/ exists t p, calls s !! t = Some p /\ past_drain p = true.

Definition live (S : gmap nat (Subscription D)) (i : nat) : Prop :=
  exists x, S !! i = Some x /\ s_closed x = false.

Definition registered (S : gmap nat (Subscription D)) (H : gmap nat pushEntry)
    (E : gmap string nat) (i : nat) : Prop :=
  exists x en e, S !! i = Some x /\ E !! sub_key x = Some en /\ H !! en = Some e /\ i ∈ e_subs e.

Definition keys_of (S : gmap nat (Subscription D)) (i : nat) : list string :=
  from_option (fun x => securityKeys (s_securities x)) [] (S !! i).

(** The heap of entries and the registry. *)
Record heap_inv (S : gmap nat (Subscription D)) (H : gmap nat pushEntry) (E : gmap string nat) :
    Prop := {
  hi_entry k en : E !! k = Some en ->
    exists e, H !! en = Some e /\ entry_key e = k /\ e_subs e <> [];
  hi_heap en e : H !! en = Some e -> NoDup (e_subs e) /\ keyed (e_securities e);
  hi_subs en e i : H !! en = Some e -> i ∈ e_subs e ->
    exists x, S !! i = Some x /\ sub_key x = entry_key e;
  hi_disjoint en en' e e' i : H !! en = Some e -> H !! en' = Some e' ->
    i ∈ e_subs e -> i ∈ e_subs e' -> en = en';
}.

(** The routing index and what is pending, for a set [O] of orphans. *)
Record index_inv (S : gmap nat (Subscription D)) (H : gmap nat pushEntry) (E : gmap string nat)
    (B : gmap string (list nat)) (O : gset nat) (P : nat -> Prop) (dr : Prop) : Prop := {
  ii_live_subs k en e i : E !! k = Some en -> H !! en = Some e -> i ∈ e_subs e ->
    live S i /\ ~ P i;
  ii_bucket k : NoDup (at_key B k);
  ii_in_bucket k i : i ∈ at_key B k -> k ∈ keys_of S i /\ (live S i /\ ~ P i \/ i ∈ O);
  ii_registered i : live S i -> ~ P i -> i ∈ O \/ registered S H E i;
  ii_routed i k : live S i -> ~ P i -> ~ dr -> k ∈ keys_of S i -> i ∈ at_key B k;
  ii_pending i : P i -> is_Some (S !! i);
  ii_drained : dr -> E = ∅ /\ B = ∅;
}.

Definition data_inv S H E B O P dr : Prop := heap_inv S H E /\ index_inv S H E B O P dr.

Definition all_keyed s : Prop := forall i x, subs s !! i = Some x -> keyed (s_securities x).

Definition registry_inv s : Prop :=
  data_inv (subs s) (heap s) (entries s) (byKey s) (orphans s) (pending s) (drained s).

(** Changes that keep the topics, the instruments and the closed flags, and may
    end some pending shutdowns of closed subscriptions. *)
Definition shape (x : Subscription D) : Z * list Security * bool :=
  (s_topic x, s_securities x, s_closed x).

Lemma shape_live S S' i : shape <$> S !! i = shape <$> S' !! i -> live S i -> live S' i.
Proof.
  intros Hs (x & Hx & Hc). rewrite Hx in Hs. destruct (S' !! i) as [y|] eqn:Hy; [| done].
  exists y. split; [done |]. unfold shape in Hs. simplify_eq/=. congruence.
Qed.

Lemma shape_keys S S' i : shape <$> S !! i = shape <$> S' !! i -> keys_of S i = keys_of S' i.
Proof.
  unfold keys_of, shape. intros Hs.
  destruct (S !! i), (S' !! i); simplify_eq/=; congruence.
Qed.

Definition same_keys (S S' : gmap nat (Subscription D)) : Prop :=
  forall i x, S !! i = Some x -> exists y, S' !! i = Some y /\ sub_key y = sub_key x.

Lemma heap_frame S S' H E : same_keys S S' -> heap_inv S H E -> heap_inv S' H E.
Proof.
  intros Hs [H1 H2 H3 H4]. constructor; try done. intros en e i He Hin.
  destruct (H3 _ _ _ He Hin) as (x & Hx & <-). destruct (Hs _ _ Hx) as (y & Hy & <-). eauto.
Qed.

Lemma registered_frame S S' H E i : same_keys S S' -> registered S H E i -> registered S' H E i.
Proof.
  intros Hs (x & en & e & Hx & HE & HH & Hin). destruct (Hs _ _ Hx) as (y & Hy & Hk).
  exists y, en, e. by rewrite Hk.
Qed.

Lemma shape_same_keys S S' : (forall i, shape <$> S !! i = shape <$> S' !! i) -> same_keys S S'.
Proof.
  intros Hs i x Hx. specialize (Hs i). rewrite Hx in Hs. destruct (S' !! i) as [y|]; [| done].
  exists y. split; [done |]. unfold shape in Hs. unfold sub_key. simplify_eq/=. congruence.
Qed.

Lemma data_frame S S' H E B O (P P' : nat -> Prop) (dr dr' : Prop) :
  (forall i, shape <$> S !! i = shape <$> S' !! i) ->
  (forall i, P' i -> P i) -> (forall i, live S i -> P i -> P' i) -> (dr <-> dr') ->
  data_inv S H E B O P dr -> data_inv S' H E B O P' dr'.
Proof.
  intros Hs HP HP' Hdr [Hh [H5 H6 H7 H8 H9 H10 H11]].
  assert (Hl : forall i, live S i <-> live S' i).
  { intros i. split; apply shape_live; [apply Hs | symmetry; apply Hs]. }
  pose proof (shape_same_keys S S' Hs) as Hk.
  split; [by apply (heap_frame S) |]. constructor; try done.
  - intros k en e i HE He Hin. rewrite <- Hl. destruct (H5 _ _ _ _ HE He Hin). naive_solver.
  - intros k i Hin. rewrite <- Hl, <- (shape_keys S S' i (Hs i)). destruct (H7 k i Hin). naive_solver.
  - intros i. rewrite <- Hl. intros Hli HPi. destruct (H8 i Hli) as [Hr | Hr]; [naive_solver | by left |].
    right. by apply (registered_frame S).
  - intros i k. rewrite <- Hl, <- (shape_keys S S' i (Hs i)). naive_solver.
  - intros i Hi. destruct (H10 i (HP i Hi)) as [x Hx]. destruct (Hk _ _ Hx) as (y & -> & _). eauto.
  - naive_solver.
Qed.

(** A pending shutdown is done. *)
Lemma shutdown_facts i (S : gmap nat (Subscription D)) :
  same_keys S (alter Subscription_shutdown i S)
  /\ (forall j, keys_of (alter Subscription_shutdown i S) j = keys_of S j)
  /\ (forall j, live (alter Subscription_shutdown i S) j <-> live S j /\ j <> i).
Proof.
  split; [| split].
  - intros j x Hx. destruct (decide (j = i)) as [->|]; [| rewrite lookup_alter_ne by done; eauto].
    rewrite lookup_alter_eq, Hx. eexists. by split.
  - intros j. unfold keys_of. destruct (decide (j = i)) as [->|]; [| by rewrite lookup_alter_ne].
    rewrite lookup_alter_eq. by destruct (S !! i).
  - intros j. unfold live. destruct (decide (j = i)) as [->|]; [| rewrite lookup_alter_ne by done; naive_solver].
    rewrite lookup_alter_eq. destruct (S !! i); naive_solver.
Qed.

Lemma data_shutdown i S H E B O (P : nat -> Prop) dr :
  P i -> data_inv S H E B O P dr -> data_inv (alter Subscription_shutdown i S) H E B O P dr.
Proof.
  intros HPi [Hh [H5 H6 H7 H8 H9 H10 H11]].
  destruct (shutdown_facts i S) as (Hk & Hkeys & Hl).
  assert (Hne : forall j, ~ P j -> j <> i) by (by intros j Hj ->).
  split; [by apply (heap_frame S) |]. constructor; try done.
  - intros k en e j Hkk He Hin. destruct (H5 _ _ _ _ Hkk He Hin). rewrite Hl. naive_solver.
  - intros k j Hin. rewrite Hkeys, Hl. destruct (H7 k j Hin) as [? [[] | ?]]; naive_solver.
  - intros j [Hlj _]%Hl HPj. destruct (H8 j Hlj HPj); [by left | right]. by apply (registered_frame S).
  - intros j k [Hlj _]%Hl HPj Hd. rewrite Hkeys. auto.
  - intros j HPj. destruct (H10 j HPj) as [x Hx]. destruct (Hk _ _ Hx) as (y & -> & _). eauto.
Qed.

(** A new subscription, of a registered entry or of a new one. *)
Lemma securityKeys_perm (l l' : list Security) k : l ≡ₚ l' -> k ∈ securityKeys l -> k ∈ securityKeys l'.
Proof.
  unfold securityKeys. rewrite !elem_of_routing_keys. intros Hp (c & Hc & Hne & ->).
  exists c. split; [| done]. by rewrite <- Hp.
Qed.

Lemma entry_sub_keys (e : pushEntry) (x : Subscription D) :
  keyed (e_securities e) -> keyed (s_securities x) -> sub_key x = entry_key e ->
  forall k, k ∈ securityKeys (e_securities e) <-> k ∈ securityKeys (s_securities x).
Proof.
  intros He Hx Hk k. apply canonicalPushKey_inj in Hk as [_ Hp]; [| done..].
  split; by apply securityKeys_perm.
Qed.

(** The entry that a subscription joins: registered, or new. *)
Definition joins (H : gmap nat pushEntry) (E : gmap string nat) (k : string) (en : nat) (e : pushEntry) : Prop :=
  E !! k = Some en /\ H !! en = Some e \/ E !! k = None /\ H !! en = None /\ e_subs e = [].

Section add.
Context (S : gmap nat (Subscription D)) (H : gmap nat pushEntry) (E : gmap string nat).
Context (i : nat) (x : Subscription D) (en : nat) (e : pushEntry).
Hypothesis (Hi : S !! i = None) (Hkx : keyed (s_securities x)) (Hke : keyed (e_securities e)).
Hypothesis (Hsk : sub_key x = entry_key e) (Hen : joins H E (sub_key x) en e).

Let S' := <[i := x]> S.
Let H' := <[en := with_subs (e_subs e ++ [i]) e]> H.
Let E' := <[sub_key x := en]> E.

Lemma joins_old en' e' j : H' !! en' = Some e' -> j ∈ e_subs e' ->
  j = i /\ en' = en \/ exists e0, H !! en' = Some e0 /\ j ∈ e_subs e0 /\ entry_key e0 = entry_key e'.
Proof using All.
  subst S' H' E'. intros He' Hin. destruct (decide (en' = en)) as [->|].
  - rewrite lookup_insert_eq in He'. simplify_eq/=. apply elem_of_app in Hin as [Hin | Hin]; [| set_solver].
    right. destruct Hen as [[_ He] | (_ & _ & Hnil)]; [eauto | rewrite Hnil in Hin; set_solver].
  - rewrite lookup_insert_ne in He' by done. eauto.
Qed.

Lemma heap_add : heap_inv S H E -> heap_inv S' H' E'.
Proof using All.
  intros [H1 H2 H3 H4].
  assert (Hfresh : forall en' e', H !! en' = Some e' -> i ∉ e_subs e').
  { intros en' e' He' Hin. destruct (H3 _ _ _ He' Hin) as (y & Hy & _). congruence. }
  constructor.
  - intros k en' Hk. subst S' H' E'. destruct (decide (k = sub_key x)) as [->|Hne].
    + rewrite lookup_insert_eq in Hk. simplify_eq. eexists. rewrite lookup_insert_eq.
      split; [done |]. split; [done | simpl; by destruct (e_subs e)].
    + rewrite lookup_insert_ne in Hk by done. destruct (H1 _ _ Hk) as (e' & He' & Hek & Hs).
      destruct (decide (en' = en)) as [->|]; [| rewrite lookup_insert_ne by done; eauto].
      exfalso. destruct Hen as [[HE HH] | (HE & HH & _)]; simplify_eq; congruence.
  - intros en' e'. subst S' H' E'. destruct (decide (en' = en)) as [->|]; [| rewrite lookup_insert_ne by done; apply H2].
    rewrite lookup_insert_eq. intros [= <-]. split; [| done]. simpl. apply NoDup_app.
    destruct Hen as [[_ He] | (_ & _ & ->)]; [destruct (H2 _ _ He) |];
      (split; [done || constructor | split; [| apply NoDup_singleton]]); [| set_solver].
    intros j Hj ->%list_elem_of_singleton. by destruct (Hfresh _ _ He).
  - intros en' e' j He' Hin. destruct (joins_old _ _ _ He' Hin) as [[-> ->] | (e0 & He0 & Hin0 & <-)].
    + exists x. subst S' H'. rewrite lookup_insert_eq in He'. rewrite lookup_insert_eq. by simplify_eq.
    + destruct (H3 _ _ _ He0 Hin0) as (y & Hy & Hk). exists y. subst S'.
      rewrite lookup_insert_ne; [done | congruence].
  - intros en1 en2 e1 e2 j He1 He2 Hj1 Hj2.
    destruct (joins_old _ _ _ He1 Hj1) as [[-> ->] | (e1' & He1' & Hj1' & _)],
      (joins_old _ _ _ He2 Hj2) as [[Hj ->] | (e2' & He2' & Hj2' & _)]; subst; try done.
    + by destruct (Hfresh _ _ He2').
    + by destruct (Hfresh _ _ He1').
    + by eapply H4.
Qed.

Lemma live_add j : s_closed x = false -> live S' j <-> live S j \/ j = i.
Proof using All.
  intros Hc. unfold live. subst S'. destruct (decide (j = i)) as [->|].
  - rewrite lookup_insert_eq. naive_solver.
  - rewrite lookup_insert_ne by done. naive_solver.
Qed.

Lemma keys_of_add j : keys_of S' j = if decide (j = i) then securityKeys (s_securities x) else keys_of S j.
Proof using All.
  unfold keys_of. subst S'. case_decide; subst; [by rewrite lookup_insert_eq | by rewrite lookup_insert_ne].
Qed.

Lemma registered_add j : heap_inv S H E -> (j = i \/ registered S H E j) -> registered S' H' E' j.
Proof using All.
  intros Hh [-> | (y & en' & e' & Hy & HE & HH & Hin)].
  - exists x, en, (with_subs (e_subs e ++ [i]) e). subst S' H' E'. rewrite !lookup_insert_eq.
    repeat split; try done. simpl. set_solver.
  - assert (Hj : j <> i) by congruence. subst S' H' E'. destruct (decide (en' = en)) as [->|].
    + exists y, en, (with_subs (e_subs e ++ [i]) e). rewrite lookup_insert_ne, lookup_insert_eq by done.
      destruct Hen as [[HEx He] | (_ & HH' & _)]; [| congruence].
      destruct (hi_subs _ _ _ Hh _ _ _ HH Hin) as (y' & Hy' & Hyk).
      assert (e' = e) as -> by congruence. assert (y' = y) as -> by congruence.
      rewrite Hyk, <- Hsk, lookup_insert_eq. repeat split; try done. simpl. set_solver.
    + exists y, en', e'. rewrite (lookup_insert_ne S), (lookup_insert_ne H) by done.
      repeat split; try done. rewrite lookup_insert_ne; [done |]. intros Heq.
      destruct Hen as [[HEx _] | (HEx & _)]; congruence.
Qed.

Lemma data_add B B' O (P : nat -> Prop) (dr : Prop) :
  ~ dr -> s_closed x = false ->
  (forall k, at_key B' k = at_key B k ++ (if decide (k ∈ securityKeys (e_securities e)) then [i] else [])) ->
  data_inv S H E B O P dr -> data_inv S' H' E' B' O P dr.
Proof using All.
  intros Hdr Hc HB' [Hh [H5 H6 H7 H8 H9 H10 H11]].
  assert (HPi : ~ P i) by (intros Hp; destruct (H10 i Hp); congruence).
  assert (Hnk : forall k, i ∉ at_key B k).
  { intros k Hk. destruct (H7 _ _ Hk) as [Hkk _]. unfold keys_of in Hkk. rewrite Hi in Hkk. set_solver. }
  split; [by apply heap_add |].
  constructor; try done; [| intros k | intros k j | intros j | intros j k | intros j HPj].
  - intros k en' e' j Hk He' Hin. rewrite live_add by done.
    destruct (joins_old _ _ _ He' Hin) as [[-> ->] | (e0 & He0 & Hin0 & Hek)]; [by auto |].
    assert (HE : exists k0, E !! k0 = Some en').
    { subst E'. destruct (decide (k = sub_key x)) as [->|]; [| rewrite lookup_insert_ne in Hk by done; eauto].
      rewrite lookup_insert_eq in Hk. injection Hk as <-. destruct Hen as [[? _] | (_ & ? & _)]; [eauto | congruence]. }
    destruct HE as [k0 HE]. destruct (H5 _ _ _ _ HE He0 Hin0). auto.
  - rewrite HB'. case_decide; [| by rewrite app_nil_r].
    apply NoDup_app. split; [done |]. split; [| apply NoDup_singleton].
    intros j Hj ->%list_elem_of_singleton. by apply (Hnk k).
  - rewrite HB', elem_of_app, keys_of_add, live_add by done. intros [Hj | Hj].
    + destruct (H7 _ _ Hj) as [Hkk Hr]. rewrite decide_False; [naive_solver |].
      intros ->. by apply (Hnk k).
    + case_decide as Hkk; [| set_solver]. apply list_elem_of_singleton in Hj as ->.
      rewrite decide_True by done. rewrite <- (entry_sub_keys e x) by done. auto.
  - rewrite live_add by done. intros [Hl | ->] HPj; [| right; apply registered_add; auto].
    destruct (H8 _ Hl HPj); [by left | right; apply registered_add; auto].
  - rewrite live_add, keys_of_add, HB', elem_of_app by done. intros Hl HPj _. case_decide as Hj.
    + subst. intros Hk. right. rewrite decide_True by (by apply (entry_sub_keys e x)). set_solver.
    + intros Hk. left. apply H9; naive_solver.
  - subst S'. rewrite lookup_insert_is_Some. destruct (decide (i = j)); [by left | right].
    split; [done | by apply H10].
Qed.
End add.

(** A cancelled subscription whose key has no entry: nothing changes. *)
Lemma data_unregistered S H E B O (P : nat -> Prop) (dr : Prop) i x :
  S !! i = Some x -> E !! sub_key x = None ->
  data_inv S H E B O P dr -> data_inv S H E B O (fun j => P j \/ j = i) dr.
Proof.
  intros Hx HE [Hh [H5 H6 H7 H8 H9 H10 H11]].
  assert (Hn : ~ registered S H E i).
  { intros (y & en & e & Hy & HEy & _). congruence. }
  split; [done |]. constructor; try done.
  - intros k en e j Hk He Hin. destruct (H5 _ _ _ _ Hk He Hin) as [Hl HP]. split; [done |].
    intros [? | ->]; [done |]. apply Hn. exists x, en, e.
    destruct (hi_entry _ _ _ Hh _ _ Hk) as (e' & He' & Hek & _), (hi_subs _ _ _ Hh _ _ _ He Hin) as (y & Hy & Hyk).
    repeat split; try done. congruence.
  - intros k j Hj. destruct (H7 _ _ Hj) as [Hk [[Hl HP] | HO]]; [| auto]. split; [done |].
    destruct (decide (j = i)) as [->|]; [| naive_solver]. destruct (H8 i Hl HP); [by right | done].
  - intros j Hl HP. apply H8; auto.
  - intros j k Hl HP. apply H9; auto.
  - intros j [? | ->]; [auto | eauto].
Qed.

(** A cancelled subscription leaves its entry and the index. *)
Section detach.
Context (S : gmap nat (Subscription D)) (H : gmap nat pushEntry) (E E' : gmap string nat).
Context (i : nat) (x : Subscription D) (en : nat) (e : pushEntry).
Hypothesis (Hi : S !! i = Some x) (Hkx : keyed (s_securities x)).
Hypothesis (HE : E !! sub_key x = Some en) (He : H !! en = Some e) (Hh : heap_inv S H E).
Lemma detach_key : entry_key e = sub_key x.
Proof using He HE Hh.
  destruct (hi_entry _ _ _ Hh _ _ HE) as (e' & He' & Hk & _). by simplify_eq.
Qed.

Let l' := remove_first i (e_subs e).
Let H' := <[en := with_subs l' e]> H.
Hypothesis (HE' : E' = if decide (l' = []) then delete (sub_key x) E else E).

Lemma detach_old en' e' : H' !! en' = Some e' ->
  exists e0, H !! en' = Some e0 /\ entry_key e0 = entry_key e' /\ e_securities e0 = e_securities e'
    /\ (NoDup (e_subs e0) -> NoDup (e_subs e'))
    /\ forall j, j ∈ e_subs e' <-> j ∈ e_subs e0 /\ (en' = en -> j <> i).
Proof using All.
  pose proof (proj1 (hi_heap _ _ _ Hh _ _ He)) as Hnd. subst H' l'.
  destruct (decide (en' = en)) as [->|].
  - rewrite lookup_insert_eq. intros [= <-]. exists e. do 3 (split; [done |]). simpl.
    split; [apply remove_first_NoDup |]. intros j. rewrite elem_of_remove_first by done. naive_solver.
  - rewrite lookup_insert_ne by done. intros. exists e'. naive_solver.
Qed.

Lemma detach_registry k en' : E' !! k = Some en' -> E !! k = Some en' /\ (en' = en -> l' <> []).
Proof using All.
  rewrite HE'. destruct (decide (l' = [])) as [Hl|]; [| by auto]. rewrite lookup_delete_Some. intros [Hne Hk].
  split; [done |]. intros ->. destruct Hne. destruct (hi_entry _ _ _ Hh _ _ Hk) as (e' & He' & <- & _).
  assert (e' = e) as -> by congruence. apply eq_sym, detach_key.
Qed.

Lemma heap_detach : heap_inv S H' E'.
Proof using All.
  constructor.
  - intros k en' [Hk Hl]%detach_registry. destruct (hi_entry _ _ _ Hh _ _ Hk) as (e' & He' & Hek & Hs).
    subst H'. destruct (decide (en' = en)) as [->|].
    + rewrite lookup_insert_eq. eexists. split; [done |]. simplify_eq. split; [done | by apply Hl].
    + rewrite lookup_insert_ne by done. eauto.
  - intros en' e' (e0 & He0 & _ & Hsec & Hnd & _)%detach_old.
    destruct (hi_heap _ _ _ Hh _ _ He0) as [? ?]. rewrite <- Hsec. auto.
  - intros en' e' j (e0 & He0 & Hk & _ & _ & Hj)%detach_old [Hin _]%Hj.
    destruct (hi_subs _ _ _ Hh _ _ _ He0 Hin) as (y & Hy & Hyk). exists y. by rewrite <- Hk.
  - intros en1 en2 e1 e2 j (e1' & He1 & _ & _ & _ & Hj1)%detach_old (e2' & He2 & _ & _ & _ & Hj2)%detach_old
      [Hin1 _]%Hj1 [Hin2 _]%Hj2. by eapply (hi_disjoint _ _ _ Hh).
Qed.

Lemma data_detach B B' O (P : nat -> Prop) (dr : Prop) :
  (forall k, at_key B' k = if decide (k ∈ securityKeys (e_securities e))
                           then remove_first i (at_key B k) else at_key B k) ->
  index_inv S H E B O P dr -> data_inv S H' E' B' O (fun j => P j \/ j = i) dr.
Proof using All.
  intros HB' [H5 H6 H7 H8 H9 H10 H11]. split; [apply heap_detach |].
  assert (HB : forall k j, j ∈ at_key B' k <-> j ∈ at_key B k /\ (k ∈ securityKeys (e_securities e) -> j <> i)).
  { intros k j. rewrite HB'. destruct (decide (k ∈ securityKeys (e_securities e))).
    - rewrite elem_of_remove_first by done. naive_solver.
    - naive_solver. }
  assert (Hkeys : forall k, k ∈ keys_of S i <-> k ∈ securityKeys (e_securities e)).
  { intros k. unfold keys_of. rewrite Hi. symmetry. apply entry_sub_keys; [| done | symmetry; apply detach_key].
    by destruct (hi_heap _ _ _ Hh _ _ He). }
  constructor; [| intros k | intros k j | intros j | intros j k | intros j |].
  - intros k en' e' j [Hk _]%detach_registry (e0 & He0 & Hek & _ & _ & Hj)%detach_old [Hin Hne]%Hj.
    destruct (H5 _ _ _ _ Hk He0 Hin) as [Hl HP]. split; [done |]. intros [? | ->]; [done |].
    apply Hne; [| done]. destruct (hi_subs _ _ _ Hh _ _ _ He0 Hin) as (y & Hy & Hyk).
    destruct (hi_entry _ _ _ Hh _ _ Hk) as (e1 & He1 & Hk1 & _). congruence.
  - rewrite HB'. destruct (decide (k ∈ _)); [by apply remove_first_NoDup | done].
  - rewrite HB. intros [Hj Hne]. destruct (H7 _ _ Hj) as [Hk Hr]. split; [done |].
    assert (j <> i) by (intros ->; apply Hne; [by apply Hkeys | done]). naive_solver.
  - intros Hl HP. destruct (H8 j Hl ltac:(auto)) as [? | (y & en' & e' & Hy & HEy & HHy & Hin)]; [by left | right].
    assert (Hji : j <> i) by auto. subst H'. destruct (decide (en' = en)) as [->|].
    + exists y, en, (with_subs l' e). rewrite lookup_insert_eq. assert (e' = e) as -> by congruence.
      assert (Hin' : j ∈ l').
      { apply elem_of_remove_first; [by destruct (hi_heap _ _ _ Hh _ _ He) | done]. }
      rewrite HE', decide_False by (by intros ->; set_solver). done.
    + exists y, en', e'. rewrite lookup_insert_ne by done. repeat split; try done.
      rewrite HE'. destruct (decide (l' = [])); [| done]. rewrite lookup_delete_ne; [done | congruence].
  - intros Hl HP Hd Hk. apply HB. split; [apply H9; auto |]. intros _ ->. auto.
  - intros [HP | ->]; [auto | eauto].
  - intros Hd. destruct (H11 Hd) as [-> _]. by rewrite lookup_empty in HE.
Qed.
End detach.

(** The subscriptions of a killed entry leave the index. *)
Lemma sub_securities_keys i s : securityKeys (sub_securities i s) = keys_of (subs s) i.
Proof. unfold sub_securities, keys_of. by destruct (subs s !! i). Qed.

Lemma kill_index_spec doomed s :
  (forall k, NoDup (at_key (byKey s) k)) ->
  exists B, foldl (fun s i => unindex (sub_securities i s) i s) s doomed = w_byKey B s /\
    (forall k, NoDup (at_key B k)) /\
    (forall k j, j ∈ at_key B k <-> j ∈ at_key (byKey s) k /\ ~ (j ∈ doomed /\ k ∈ keys_of (subs s) j)) /\
    (byKey s = ∅ -> B = ∅).
Proof.
  revert s. induction doomed as [|i doomed IH]; intros s Hnd; simpl.
  { exists (byKey s). split; [by destruct s |]. split; [done |]. split; [set_solver | done]. }
  destruct (unindex_spec (sub_securities i s) i s) as (B1 & -> & HB1 & Hemp1).
  rewrite sub_securities_keys in HB1.
  assert (Hnd1 : forall k, NoDup (at_key B1 k)).
  { intros k. rewrite HB1. case_decide; [by apply remove_first_NoDup | done]. }
  destruct (IH (w_byKey B1 s) Hnd1) as (B & -> & HB & Hin & Hemp). exists B.
  split; [done |]. split; [done |]. split; [| auto]. simpl in *.
  intros k j. rewrite Hin, HB1, elem_of_cons. case_decide; [rewrite elem_of_remove_first by done |]; naive_solver.
Qed.

Lemma data_kill S H E B B' O (P : nat -> Prop) (dr : Prop) en e O' :
  H !! en = Some e ->
  (forall k, NoDup (at_key B' k)) ->
  (forall k j, j ∈ at_key B' k <-> j ∈ at_key B k /\ ~ (j ∈ e_subs e /\ k ∈ keys_of S j)) ->
  (B = ∅ -> B' = ∅) ->
  O ⊆ O' ->
  (forall en' e' j, E !! entry_key e = Some en' -> en' <> en -> H !! en' = Some e' -> j ∈ e_subs e' -> j ∈ O') ->
  data_inv S H E B O P dr ->
  data_inv S H (delete (entry_key e) E) B' O' (fun j => P j \/ j ∈ e_subs e) dr.
Proof.
  intros He Hnd HB Hemp HO HO' [Hh [H5 H6 H7 H8 H9 H10 H11]]. split.
  { destruct Hh as [H1 H2 H3 H4]. constructor; try done. intros k en' [_ Hk]%lookup_delete_Some. by apply H1. }
  constructor; try done.
  - intros k en' e' j [Hne Hk]%lookup_delete_Some He' Hin.
    destruct (H5 _ _ _ _ Hk He' Hin) as [Hl HP]. split; [done |]. intros [? | Hj]; [done |].
    assert (en' = en) as -> by (by eapply (hi_disjoint _ _ _ Hh)).
    destruct (hi_entry _ _ _ Hh _ _ Hk) as (e1 & He1 & Hek & _). congruence.
  - intros k j [Hj Hno]%HB. destruct (H7 _ _ Hj) as [Hk Hr]. split; [done |].
    assert (j ∉ e_subs e) by naive_solver. set_solver.
  - intros j Hl HP. destruct (H8 j Hl ltac:(auto)) as [? | (y & en' & e' & Hy & HE & HH & Hin)]; [set_solver |].
    assert (Hen : en' <> en) by (intros ->; apply HP; right; congruence).
    destruct (decide (sub_key y = entry_key e)) as [Heq|Hne].
    + left. eapply HO'; [rewrite <- Heq; done | done..].
    + right. exists y, en', e'. by rewrite lookup_delete_ne.
  - intros j k Hl HP Hd Hk. apply HB. split; [apply H9; auto | naive_solver].
  - intros j [HP | Hj]; [auto |]. destruct (hi_subs _ _ _ Hh _ _ _ He Hj) as (y & ? & _). eauto.
  - intros Hd. destruct (H11 Hd) as [-> ?]. split; [apply delete_empty | auto].
Qed.

(** [Close] empties the registry. *)
Lemma data_close S H E B O (P P' : nat -> Prop) (dr : Prop) :
  (forall j, P' j <-> P j \/ exists k en e, E !! k = Some en /\ H !! en = Some e /\ j ∈ e_subs e) ->
  data_inv S H E B O P dr -> data_inv S H ∅ ∅ O P' True.
Proof.
  intros HP' [Hh [H5 H6 H7 H8 H9 H10 H11]]. split.
  { destruct Hh as [H1 H2 H3 H4]. constructor; done. }
  assert (Hb : forall k, at_key ∅ k = []) by (intros k; unfold at_key; by rewrite lookup_empty).
  constructor; try done.
  - intros k. rewrite Hb. constructor.
  - intros k i. rewrite Hb. set_solver.
  - intros i Hl HPi. rewrite HP' in HPi. left.
    destruct (H8 i Hl ltac:(auto)) as [? | (y & en & e & Hr)]; [done | destruct HPi; naive_solver].
  - intros i [HPi | (k & en & e & Hk & He & Hin)]%HP'; [auto |].
    destruct (hi_subs _ _ _ Hh _ _ _ He Hin) as (y & ? & _). eauto.
Qed.
End inv.
