(* ===== verification/PushOrchStep.v ===== *)
(** Steps of the push orchestration: how a call moves, what each operation of
    [PushOrch] can change, and the tactics that open a step into its cases. *)
From S2P Require Import Prelude Chan Types Errs Domain PushKeys PushOrch PushOrchInv.

(** ** Moving a call *)
Section control.
Context {D : Type}.
Implicit Types (s : st D) (p : pc D) (o : option (pc D)).

Definition moved (t : nat) o (s s' : st D) : Prop :=
  calls s' = match o with Some p => <[t := p]> (calls s) | None => delete t (calls s) end.

Lemma moved_other t o s s' t' : moved t o s s' -> t' <> t -> calls s' !! t' = calls s !! t'.
Proof.
  unfold moved. intros -> Hne. destruct o; [by rewrite lookup_insert_ne | by rewrite lookup_delete_ne].
Qed.

Lemma moved_same t o s s' : moved t o s s' -> calls s' !! t = o.
Proof. unfold moved. intros ->. destruct o; [by rewrite lookup_insert_eq | by rewrite lookup_delete_eq]. Qed.

Lemma moved_inv t o s s' t' p : moved t o s s' -> calls s' !! t' = Some p ->
  t' = t /\ o = Some p \/ t' <> t /\ calls s !! t' = Some p.
Proof.
  intros Hm. destruct (decide (t' = t)) as [->|Hne].
  - rewrite (moved_same _ _ _ _ Hm). auto.
  - rewrite (moved_other _ _ _ _ _ Hm Hne). auto.
Qed.

Definition owner p : bool :=
  match p with Subscribe_sent _ _ _ | Orders_sent _ => true | _ => false end.
Definition closer p : bool :=
  match p with Close_transport | Close_wait | Close_lock | Close_shut _ _ | Close_errc => true | _ => false end.
Definition of_next (f : pc D -> bool) o : bool := from_option f false o.

(** The lock, [Close] and the error stream. *)
Record ctl := mkCtl {
  c_panicked : bool; c_errc_closed : bool; c_closed : bool; c_once : once; c_subMu : option nat;
}.
Definition ctl_of s : ctl := mkCtl (panicked s) (errc_closed s) (closed s) (close_once s) (subMu s).

Inductive ctl_step (t : nat) p o : ctl -> ctl -> Prop :=
  | ctl_same c :
      owner p = false -> of_next owner o = false -> of_next closer o = closer p ->
      of_next past_drain o = past_drain p -> ctl_step t p o c c
  | ctl_take c :
      c_subMu c = None -> c_closed c = false -> owner p = false -> of_next owner o = true ->
      closer p = false -> of_next closer o = false -> past_drain p = false ->
      of_next past_drain o = false ->
      ctl_step t p o c (mkCtl (c_panicked c) (c_errc_closed c) (c_closed c) (c_once c) (Some t))
  | ctl_release c :
      owner p = true -> of_next owner o = false -> closer p = false -> of_next closer o = false ->
      past_drain p = false -> of_next past_drain o = false ->
      ctl_step t p o c (mkCtl (c_panicked c) (c_errc_closed c) (c_closed c) (c_once c) None)
  | ctl_drain c :
      c_subMu c = None -> owner p = false -> of_next owner o = false ->
      closer p = true -> of_next closer o = true -> past_drain p = false ->
      ctl_step t p o c c
  | ctl_errc c :
      owner p = false -> o = None -> closer p = true -> past_drain p = true ->
      ctl_step t p o c (mkCtl (c_panicked c) true (c_closed c) Closed (c_subMu c)).

Record ctl_inv s : Prop := {
  ci_panicked : panicked s = false;
  ci_errc : (length (errc s) <= errc_cap)%nat;
  ci_once : match close_once s with
            | NotClosed => closed s = false /\ errc_closed s = false
            | Closing => closed s = true /\ errc_closed s = false
            | Closed => closed s = true /\ errc_closed s = true
            end;
  ci_closer t p : calls s !! t = Some p -> closer p = true -> close_once s = Closing;
  ci_unique t t' p p' : calls s !! t = Some p -> calls s !! t' = Some p' ->
    closer p = true -> closer p' = true -> t = t';
  ci_lock t : subMu s = Some t <-> exists p, calls s !! t = Some p /\ owner p = true;
  ci_drained : drained s -> subMu s = None;
}.

Lemma closer_open t p s : ctl_inv s -> calls s !! t = Some p -> closer p = true -> errc_closed s = false.
Proof.
  intros Hc Hp Hcl. pose proof (ci_once _ Hc) as Ho. rewrite (ci_closer _ Hc _ _ Hp Hcl) in Ho. by destruct Ho.
Qed.

(** ** Frames: what each operation can change *)
Lemma report_frame ch e s : exists q d b,
  report ch e s = w_errc q (w_errsDrop d (w_panicked b s))
  /\ ((length (errc s) <= errc_cap)%nat -> (length q <= errc_cap)%nat)
  /\ (closed s = true \/ errc_closed s = false -> b = panicked s).
Proof.
  unfold report.
  destruct (closed s) eqn:Hc; [exists (errc s), (errsDrop s), (panicked s); by destruct s |].
  destruct (errc_closed s) eqn:Hf.
  { exists (errc s), (errsDrop s), true. split; [by destruct s |]. naive_solver. }
  unfold try_send at 1. case_decide.
  { eexists _, (errsDrop s), (panicked s). split; [by destruct s |]. rewrite length_app. simpl.
    split; [lia | done]. }
  set (q := drop (ch_c2 ch) (try_recv (drop (ch_c1 ch) (errc s)))).
  exists (default q (try_send errc_cap q e)),
    (if decide (drop (ch_c1 ch) (errc s) = []) then errsDrop s else bump (errsDrop s)), (panicked s).
  split; [by case_decide; destruct s |]. split; [| done]. intros Hl.
  assert (length q <= errc_cap)%nat by (unfold q, try_recv; rewrite !length_drop; lia).
  unfold try_send. case_decide; simpl; [rewrite length_app; simpl; lia | done].
Qed.

Lemma report_opt_frame ch e s : exists q d b,
  report_opt ch e s = w_errc q (w_errsDrop d (w_panicked b s))
  /\ ((length (errc s) <= errc_cap)%nat -> (length q <= errc_cap)%nat)
  /\ (closed s = true \/ errc_closed s = false -> b = panicked s).
Proof.
  destruct e as [e|]; [apply report_frame |]. exists (errc s), (errsDrop s), (panicked s). by destruct s.
Qed.

Lemma ctl_reports s : ctl_inv s -> closed s = true \/ errc_closed s = false.
Proof. intros [_ _ Ho _ _ _ _]. destruct (close_once s); naive_solver. Qed.

Lemma w_byKey_w B B' s : w_byKey B (w_byKey B' s) = w_byKey B s.
Proof. done. Qed.

Lemma unindex_frame l i s : exists B, unindex l i s = w_byKey B s
  /\ (forall k j, j ∈ at_key B k -> j ∈ at_key (byKey s) k).
Proof.
  destruct (unindex_spec l i s) as (B & -> & HB & _). exists B. split; [done |].
  intros k j. rewrite HB. case_decide; [| done]. by apply sublist_subseteq, remove_first_sublist.
Qed.

Lemma kill_index_frame doomed s :
  exists B, foldl (fun s i => unindex (sub_securities i s) i s) s doomed = w_byKey B s
  /\ (forall k j, j ∈ at_key B k -> j ∈ at_key (byKey s) k).
Proof.
  revert s. induction doomed as [|i doomed IH]; intros s; simpl; [exists (byKey s); by destruct s |].
  destruct (unindex_frame (sub_securities i s) i s) as (B1 & -> & H1).
  destruct (IH (w_byKey B1 s)) as (B & -> & H2). exists B. split; [done | auto].
Qed.

Lemma detach_frame i s : exists r H E B,
  detachLocked i s = (r, w_heap H (w_entries E (w_byKey B s)))
  /\ dom H = dom (heap s) /\ (forall en, r = Some en -> is_Some (H !! en))
  /\ (forall k en, E !! k = Some en -> entries s !! k = Some en)
  /\ (forall k j, j ∈ at_key B k -> j ∈ at_key (byKey s) k)
  /\ (forall en e', H !! en = Some e' -> exists e, heap s !! en = Some e /\ (length (e_subs e') <= length (e_subs e))%nat).
Proof.
  assert (Hid : exists r H E B,
    (None : option nat, s) = (r, w_heap H (w_entries E (w_byKey B s)))
    /\ dom H = dom (heap s) /\ (forall en, r = Some en -> is_Some (H !! en))
    /\ (forall k en, E !! k = Some en -> entries s !! k = Some en)
    /\ (forall k j, j ∈ at_key B k -> j ∈ at_key (byKey s) k)
    /\ (forall en e', H !! en = Some e' -> exists e, heap s !! en = Some e /\ (length (e_subs e') <= length (e_subs e))%nat)).
  { exists None, (heap s), (entries s), (byKey s). split; [by destruct s |]. do 4 (split; [done |]). eauto. }
  unfold detachLocked. destruct (subs s !! i) as [x|]; [| done].
  destruct (entries s !! sub_key x) as [en|]; [| done]. destruct (heap s !! en) as [e|] eqn:He; [| done].
  assert (Hdom : forall e', dom (<[en := e']> (heap s)) = dom (heap s)).
  { intros e'. apply dom_insert_lookup_L. eauto. }
  assert (Hle : forall en' e', <[en := with_subs (remove_first i (e_subs e)) e]> (heap s) !! en' = Some e' ->
    exists e0, heap s !! en' = Some e0 /\ (length (e_subs e') <= length (e_subs e0))%nat).
  { intros en' e' [[<- <-] | [_ ?]]%lookup_insert_Some; [| by eauto]. exists e. split; [done |].
    apply sublist_length, remove_first_sublist. }
  case_decide.
  - match goal with |- context [unindex ?l ?i ?s] => destruct (unindex_frame l i s) as (B & -> & HB) end.
    exists (Some en), (<[en := with_subs (remove_first i (e_subs e)) e]> (heap s)),
      (delete (sub_key x) (entries s)), B.
    split; [reflexivity |]. split; [apply Hdom |]. split.
    + intros en' [= <-]. rewrite lookup_insert_eq. eauto.
    + split; [| by split]. intros k en' [_ Hk]%lookup_delete_Some. done.
  - match goal with |- context [unindex ?l ?i ?s] => destruct (unindex_frame l i s) as (B & -> & HB) end.
    exists None, (<[en := with_subs (remove_first i (e_subs e)) e]> (heap s)), (entries s), B.
    split; [reflexivity |]. split; [apply Hdom |]. by split.
Qed.

Lemma deliver_shape buffer ch u (x : Subscription D) :
  shape (fst (Subscription_deliver buffer ch u x)) = shape x.
Proof.
  unfold Subscription_deliver. destruct (s_closed x) eqn:Hc; [done |].
  destruct (wire_order u x) as [[late out] wire], (enqueue buffer ch (s_updates x) u) as [[taken queue] full].
  unfold shape. simpl. by rewrite Hc.
Qed.

Lemma deliver_at_frame buffer ch u i s : exists b S',
  deliver_at buffer ch u i s = (b, w_subs S' s)
  /\ (forall j, shape <$> subs s !! j = shape <$> S' !! j)
  /\ (b = true -> is_Some (S' !! i))
  /\ (forall Q : Subscription D -> Prop, (forall x, Q x -> Q (fst (Subscription_deliver buffer ch u x))) ->
        map_Forall (fun _ => Q) (subs s) -> map_Forall (fun _ => Q) S').
Proof.
  unfold deliver_at. destruct (subs s !! i) as [x|] eqn:Hx; [| exists false, (subs s); by destruct s].
  pose proof (deliver_shape buffer ch u x) as Hs. set (r := Subscription_deliver buffer ch u x) in *.
  assert (Hr : r = (fst r, snd r)) by (by destruct r).
  exists (snd r), (<[i := fst r]> (subs s)). split; [by rewrite Hr |]. split; [| split].
  - intros j. destruct (decide (j = i)) as [->|]; [| by rewrite lookup_insert_ne].
    rewrite lookup_insert_eq, Hx. simpl. by rewrite Hs.
  - by rewrite lookup_insert_eq.
  - intros Q HQ Hall. apply map_Forall_insert_2; [| done]. apply HQ. by apply (Hall i).
Qed.

Definition order_shape (x : OrderSubscription D) : string * bool := (o_accountID x, o_closed x).

Lemma deliver_order_shape buffer ch u (x : OrderSubscription D) :
  order_shape (fst (OrderSubscription_deliver buffer ch u x)) = order_shape x.
Proof.
  unfold OrderSubscription_deliver. destruct (o_closed x) eqn:Hc; [done |].
  destruct (enqueue buffer ch (o_updates x) u) as [[taken queue] full].
  unfold order_shape. simpl. by rewrite Hc.
Qed.

Lemma deliver_order_at_frame buffer ch u i s : exists r S',
  deliver_order_at buffer ch u i s = (r, w_osubs S' s)
  /\ (forall j, order_shape <$> osubs s !! j = order_shape <$> S' !! j)
  /\ (forall Q : OrderSubscription D -> Prop,
        (forall x, Q x -> Q (fst (OrderSubscription_deliver buffer ch u x))) ->
        map_Forall (fun _ => Q) (osubs s) -> map_Forall (fun _ => Q) S').
Proof.
  unfold deliver_order_at. destruct (osubs s !! i) as [x|] eqn:Hx; [| exists None, (osubs s); by destruct s].
  pose proof (deliver_order_shape buffer ch u x) as Hs. set (r := OrderSubscription_deliver buffer ch u x) in *.
  assert (Hr : r = (fst r, snd r)) by (by destruct r).
  eexists _, (<[i := fst r]> (osubs s)). split; [rewrite Hr; reflexivity |]. split.
  - intros j. destruct (decide (j = i)) as [->|]; [| by rewrite lookup_insert_ne].
    rewrite lookup_insert_eq, Hx. simpl. by rewrite Hs.
  - intros Q HQ Hall. apply map_Forall_insert_2; [| done]. apply HQ. by apply (Hall i).
Qed.

(** ** What a move does to the pending shutdowns *)
Definition next_of (f : pc D -> list nat) o : list nat := from_option f [] o.
Definition next_doomed : option (pc D) -> list nat := next_of doomed_of.

Section moves.
Context (t : nat) (p : pc D) (o : option (pc D)) (s s' : st D).
Hypothesis (Hp : calls s !! t = Some p) (Hm : moved t o s s').

Lemma pending_in_new f i : pending_in f s' i -> pending_in f s i \/ i ∈ next_of f o.
Proof using All.
  intros (t' & p' & Hp' & Hi). destruct (moved_inv _ _ _ _ _ _ Hm Hp') as [[-> ->] | [_ Hq]];
    [by right | left]. exists t', p'. done.
Qed.

Lemma pending_in_old f i : pending_in f s i -> pending_in f s' i \/ i ∈ f p.
Proof using All.
  intros (t' & p' & Hp' & Hi). destruct (decide (t' = t)) as [->|Hne]; [right; congruence | left].
  exists t', p'. by rewrite (moved_other _ _ _ _ _ Hm Hne).
Qed.

Lemma pending_in_next f i : i ∈ next_of f o -> pending_in f s' i.
Proof using All.
  intros Hi. destruct o as [p'|] eqn:Ho; [| by apply not_elem_of_nil in Hi].
  exists t, p'. by rewrite (moved_same _ _ _ _ Hm).
Qed.

Lemma pending_new i : pending s' i -> pending s i \/ i ∈ next_doomed o.
Proof using All. apply pending_in_new. Qed.

Lemma pending_old i : pending s i -> pending s' i \/ i ∈ doomed_of p.
Proof using All. apply pending_in_old. Qed.

Lemma pending_next i : i ∈ next_doomed o -> pending s' i.
Proof using All. apply pending_in_next. Qed.

Definition keeps_drain : Prop :=
  of_next past_drain o = past_drain p /\ close_once s' = close_once s
  \/ past_drain p = true /\ close_once s' = Closed.

Lemma drained_move : keeps_drain -> drained s <-> drained s'.
Proof using All.
  intros [[Ho Hc] | [Hpd Hc]]; [| split; [by left | right; eauto]]. unfold drained. rewrite Hc.
  split; (intros [? | (t' & p' & Hp' & Hd)]; [by left | right]).
  - destruct (decide (t' = t)) as [->|Hne].
    + rewrite Hp in Hp'. injection Hp' as <-. destruct o as [q|] eqn:Hq; simpl in Ho; [| congruence].
      exists t, q. rewrite (moved_same _ _ _ _ Hm). split; congruence.
    + exists t', p'. by rewrite (moved_other _ _ _ _ _ Hm Hne).
  - destruct (moved_inv _ _ _ _ _ _ Hm Hp') as [[-> ->] | [_ Hq]]; [| eauto].
    exists t, p. split; [done |]. simpl in Ho. congruence.
Qed.

Hypothesis (Hheap : heap s' = heap s) (Hentries : entries s' = entries s).
Hypothesis (HbyKey : byKey s' = byKey s) (Horphans : orphans s' = orphans s).
Hypothesis (Hkeep : keeps_drain).

Lemma data_same :
  (forall i, shape <$> subs s !! i = shape <$> subs s' !! i) -> next_doomed o = doomed_of p ->
  registry_inv s -> registry_inv s'.
Proof using All.
  intros Hs Hd. unfold registry_inv. rewrite Hheap, Hentries, HbyKey, Horphans.
  apply data_frame; [done | | | by apply drained_move].
  - intros i [? | Hi]%pending_new; [done |]. rewrite Hd in Hi. exists t, p. done.
  - intros i _ [? | Hi]%pending_old; [done |]. apply pending_next. by rewrite Hd.
Qed.

Lemma data_shut i :
  subs s' = alter Subscription_shutdown i (subs s) -> doomed_of p = i :: next_doomed o ->
  registry_inv s -> registry_inv s'.
Proof using All.
  intros Hs Hd Hr. unfold registry_inv. rewrite Hheap, Hentries, HbyKey, Horphans, Hs.
  assert (Hpi : pending s i).
  { exists t, p. split; [done |]. rewrite Hd. apply list_elem_of_here. }
  eapply data_frame; [done | | | by apply drained_move | by apply (data_shutdown i)].
  - intros j [? | Hj]%pending_new; [done |]. exists t, p. split; [done |]. rewrite Hd. by right.
  - intros j Hl [? | Hj]%pending_old; [done |]. rewrite Hd in Hj. apply elem_of_cons in Hj as [-> | Hj].
    + apply shutdown_facts in Hl as [_ Hl]. done.
    + by apply pending_next.
Qed.
End moves.

(** ** References *)
Definition entry_refs p : list nat :=
  match p with
  | Cancel_shut _ (Some en) | Cancel_send en | Cancel_sent en => [en]
  | Resubscribe_next keys _ => keys
  | Resubscribe_sent en keys _ | Kill_lock en keys _ | Kill_shut _ en keys _ | Kill_sent en keys _ =>
      en :: keys
  | _ => []
  end.

Definition sub_refs p : list nat :=
  match p with Deliver_stamp _ i _ => [i] | _ => [] end.

Record ref_inv s : Prop := {
  ri_entries k en : entries s !! k = Some en -> is_Some (heap s !! en);
  ri_heap t p en : calls s !! t = Some p -> en ∈ entry_refs p -> is_Some (heap s !! en);
  ri_subs t p i : calls s !! t = Some p -> i ∈ sub_refs p -> is_Some (subs s !! i);
  ri_bucket k i : i ∈ at_key (byKey s) k -> is_Some (subs s !! i);
}.

Lemma ref_step t p o s s' :
  ref_inv s -> calls s !! t = Some p -> moved t o s s' ->
  dom (heap s) ⊆ dom (heap s') -> dom (subs s) ⊆ dom (subs s') ->
  (forall k en, entries s' !! k = Some en -> entries s !! k = Some en \/ is_Some (heap s' !! en)) ->
  (forall p', o = Some p' -> forall en, en ∈ entry_refs p' -> en ∈ entry_refs p \/ is_Some (heap s' !! en)) ->
  (forall p', o = Some p' -> forall i, i ∈ sub_refs p' -> is_Some (subs s' !! i)) ->
  (forall k i, i ∈ at_key (byKey s') k -> i ∈ at_key (byKey s) k \/ is_Some (subs s' !! i)) ->
  ref_inv s'.
Proof.
  intros [H1 H2 H3 H4] Hp Hm Hh Hs HE Hen Hsub HB.
  assert (Hs' : forall i, is_Some (subs s !! i) -> is_Some (subs s' !! i)).
  { intros i. rewrite <- !elem_of_dom. set_solver. }
  assert (Hh' : forall en, is_Some (heap s !! en) -> is_Some (heap s' !! en)).
  { intros en. rewrite <- !elem_of_dom. set_solver. }
  constructor.
  - intros k en [? | ?]%HE; eauto.
  - intros t' p' en Hp' Hin. destruct (moved_inv _ _ _ _ _ _ Hm Hp') as [[-> Ho] | [Hne Hp'']]; [| eauto].
    destruct (Hen p' Ho en Hin); eauto.
  - intros t' p' i Hp' Hin. destruct (moved_inv _ _ _ _ _ _ Hm Hp') as [[-> Ho] | [Hne Hp'']]; [eauto |]. eauto.
  - intros k i [Hi | ?]%HB; eauto.
Qed.

End control.

(** Opens a step into its cases, each operation rewritten by what it can
    change. *)
Ltac frames :=
  repeat match goal with
  | |- context [<[?k := _]> _ !! ?k] => rewrite lookup_insert_eq
  | |- context [report ?ch ?e ?s] =>
      destruct (report_frame ch e s) as (? & ? & ? & -> & ? & ?)
  | |- context [report_opt ?ch ?e ?s] =>
      destruct (report_opt_frame ch e s) as (? & ? & ? & -> & ? & ?)
  | |- context [attachLocked ?e ?i ?s] => destruct (attach_spec e i s) as (? & -> & ?)
  | |- context [detachLocked ?i ?s] => destruct (detach_frame i s) as (? & ? & ? & ? & -> & ? & ? & ? & ? & ?)
  | |- context [deliver_at ?b ?ch ?u ?i ?s] =>
      destruct (deliver_at_frame b ch u i s) as (? & ? & -> & ? & ? & ?)
  | |- context [deliver_order_at ?b ?ch ?u ?i ?s] =>
      destruct (deliver_order_at_frame b ch u i s) as (? & ? & -> & ? & ?)
  | |- context [foldl _ ?s ?l] =>
      destruct (kill_index_frame l s) as (? & -> & ?)
  | |- context [match ?x with _ => _ end] => destruct x eqn:?
  end.

Ltac open_step Hst :=
  simpl in Hst;
  repeat match type of Hst with
  | locked _ _ = Some _ => unfold locked in Hst
  | Some _ = Some _ => injection Hst as <-
  | None = Some _ => discriminate Hst
  | match ?x with _ => _ end = Some _ => destruct x eqn:?
  end;
  unfold subscribe_locked, subscribe_replied, orders_locked, orders_replied, add_order,
    cancel_locked, cancel_orders_locked, cancel_shut, cancel_replied, resubscribe_locked,
    resubscribe_next, resubscribe_replied, kill_locked, kill_shut, kill_replied, trade_replied,
    kill_orders_locked, kill_orders_shut, dispatch_market, record_unrouted, deliver_step,
    deliver_stamp, deliver_orders_step, close_locked, close_shut, close_errc,
    add_subscriber.

(** A step never finds a dangling reference. *)
Ltac dangling Hr Hp :=
  match goal with
  | H : heap _ !! ?en = None |- _ =>
      first
        [ destruct (ri_heap _ Hr _ _ en Hp); [simpl; first [apply list_elem_of_here | set_solver] | congruence]
        | match goal with HE : entries _ !! _ = Some en |- _ =>
            destruct (ri_entries _ Hr _ _ HE); congruence end ]
  | H : subs _ !! ?i = None |- _ =>
      destruct (ri_subs _ Hr _ _ i Hp); [simpl; apply list_elem_of_here | congruence]
  end.

(** Reads a field of an updated state. *)
Ltac proj :=
  cbn [return_ set_call send shutdown shutdown_order subs osubs heap entries byKey
    orders tradeOn tradeSubs tradeAccount unrouted seenIDs errc errsDrop errc_closed
    closed close_once drain subMu calls results log orphans panicked w_subs w_osubs w_heap
    w_entries w_byKey w_orders w_tradeOn w_tradeSubs w_tradeAccount w_unrouted w_seenIDs
    w_errc w_errsDrop w_errc_closed w_closed w_close_once w_drain w_subMu w_calls
    w_results w_log w_orphans w_panicked].

