(* ===== verification/PushOrchSafe.v ===== *)
(** The invariants of [PushOrchInv] hold in every reachable state of the push
    orchestration: the control state of the lock, of [Close] and of the error
    stream, and the registry with its routing index. *)
From stdpp Require Import sorting.
From S2P Require Import Prelude Chan Types Errs Domain PushKeys PushOrch PushOrchInv PushOrchStep.

Section control.
Context {D : Type} (cf : config).
Implicit Types (s : st D) (p : pc D) (o : option (pc D)).

(** ** Control *)
Ltac next_pc := first [exists None; split; [reflexivity |] | eexists (Some _); split; [reflexivity |]].

Ltac close_ctl :=
  first [ apply ctl_same; reflexivity
        | apply ctl_take; simpl; first [reflexivity | assumption]
        | apply ctl_release; reflexivity
        | apply ctl_drain; simpl; first [reflexivity | assumption]
        | apply ctl_errc; reflexivity ].

Lemma thread_ctl t p ch s s' :
  ctl_inv s -> ref_inv s -> calls s !! t = Some p -> thread_step cf ch t p s = Some s' ->
  exists o, moved t o s s' /\ ctl_step t p o (ctl_of s) (ctl_of s')
    /\ (length (errc s') <= errc_cap)%nat.
Proof.
  intros Hc Hr Hp Hst. pose proof (ci_errc _ Hc) as Hq. pose proof (ctl_reports _ Hc) as Hok.
  destruct p; open_step Hst; frames; try dangling Hr Hp.
  all: repeat match goal with H : ?P -> ?b = panicked _, Hok : ?P |- _ => rewrite (H Hok) in *; clear H end.
  all: try next_pc.
  all: try (split; [close_ctl | simpl; auto]; fail).
  - pose proof (closer_open _ _ _ Hc Hp eq_refl). congruence.
Qed.

Lemma drained_closed s : ctl_inv s -> drained s -> closed s = true.
Proof.
  intros [H1 H2 H3 H4 H5 H6 H7] [Ho | (t & p & Hp & Hd)]; [by rewrite Ho in H3; destruct H3 |].
  rewrite (H4 t p Hp) in H3 by (by destruct p). by destruct H3.
Qed.

Lemma past_drain_closer p : past_drain p = true -> closer p = true.
Proof. by destruct p. Qed.

Section thread.
Context (t : nat) (p : pc D) (o : option (pc D)) (s s' : st D).
Hypothesis (Hc : ctl_inv s) (Hp : calls s !! t = Some p) (Hm : moved t o s s').
Hypothesis (Hs : ctl_step t p o (ctl_of s) (ctl_of s')).

Lemma ctl_thread_flags :
  panicked s' = panicked s /\ closed s' = closed s /\
  (errc_closed s' = errc_closed s /\ close_once s' = close_once s
   \/ errc_closed s' = true /\ close_once s' = Closed /\ closer p = true /\ o = None).
Proof using All. inversion Hs; unfold ctl_of in *; simplify_eq/=; naive_solver congruence. Qed.

Lemma ctl_thread_closer t' p' : calls s' !! t' = Some p' -> closer p' = true ->
  exists p0, calls s !! t' = Some p0 /\ closer p0 = true.
Proof using All.
  intros Hp' Hcl. destruct (moved_inv _ _ _ _ _ _ Hm Hp') as [[-> ->] | [_ Hq]]; [| eauto].
  exists p. split; [done |]. inversion Hs; simplify_eq/=; congruence.
Qed.

Lemma ctl_thread_lock t' : subMu s' = Some t' <-> exists p', calls s' !! t' = Some p' /\ owner p' = true.
Proof using All.
  assert (Hl : subMu s = Some t' <-> exists p', calls s !! t' = Some p' /\ owner p' = true) by apply Hc.
  assert (Ht : subMu s = Some t <-> exists p', calls s !! t = Some p' /\ owner p' = true) by apply Hc.
  destruct (decide (t' = t)) as [->|Hne].
  - rewrite (moved_same _ _ _ _ Hm). rewrite Hp in Hl. clear Ht.
    destruct o as [p1|]; inversion Hs; unfold ctl_of in *; simplify_eq/=; naive_solver congruence.
  - rewrite (moved_other _ _ _ _ _ Hm Hne), <- Hl. rewrite Hp in Ht.
    inversion Hs; unfold ctl_of in *; simplify_eq/=; naive_solver congruence.
Qed.

(** The registry is emptied by the step itself or was before. *)
Lemma ctl_thread_drained : drained s' -> drained s \/ subMu s = None /\ subMu s' = None.
Proof using All.
  intros [Ho | (t' & p' & Hp' & Hpd)].
  - destruct ctl_thread_flags as (_ & _ & [[_ He] | (_ & _ & _ & ->)]); [left; left; congruence |].
    inversion Hs; simplify_eq/=; try congruence; unfold ctl_of in *; simplify_eq/=.
    all: left; first [by (right; eauto) | left; congruence].
  - destruct (moved_inv _ _ _ _ _ _ Hm Hp') as [[-> ->] | [_ Hq]]; [| left; right; eauto].
    inversion Hs; unfold ctl_of in *; simplify_eq/=; try congruence; [left; right; exists t, p; split; congruence | auto].
Qed.

Lemma ctl_thread_unlocked : drained s' -> subMu s' = None.
Proof using All.
  intros Hd. destruct (ctl_thread_drained Hd) as [Hd' | [_ ?]]; [| done].
  pose proof (ci_drained _ Hc Hd'). pose proof (drained_closed _ Hc Hd').
  inversion Hs; unfold ctl_of in *; simplify_eq/=; congruence.
Qed.

Lemma ctl_thread : (length (errc s') <= errc_cap)%nat -> ctl_inv s'.
Proof using All.
  intros Hq. destruct ctl_thread_flags as (Hpan & Hcl & Hone). pose proof Hc as [H1 H2 H3 H4 H5 H6 H7].
  constructor; [congruence | done | | | | apply ctl_thread_lock | apply ctl_thread_unlocked].
  - rewrite Hcl. destruct Hone as [[-> ->] | (-> & -> & Hcp & _)]; [done |].
    rewrite (H4 t p Hp Hcp) in H3. naive_solver.
  - intros t' p' Hp' Hcp'. destruct (ctl_thread_closer _ _ Hp' Hcp') as (p0 & Hp0 & Hcp0).
    destruct Hone as [[_ ->] | (_ & _ & Hcp & ->)]; [eauto |].
    assert (t' = t) as -> by (by eapply H5). by rewrite (moved_same _ _ _ _ Hm) in Hp'.
  - intros t1 t2 p1 p2 Hp1 Hp2 Hc1 Hc2.
    destruct (ctl_thread_closer _ _ Hp1 Hc1) as (q1 & ? & ?), (ctl_thread_closer _ _ Hp2 Hc2) as (q2 & ? & ?).
    by eapply H5.
Qed.
End thread.

(** A new call. *)
Definition quiet p : Prop :=
  owner p = false /\ closer p = false /\ doomed_of p = [] /\ order_doomed p = []
  /\ entry_refs p = [] /\ sub_refs p = [].

(** The state after a call has been started: it waits, or has returned. *)
Definition started (t : nat) o (rs : gmap nat result) s : st D :=
  w_calls (match o with Some p => <[t := p]> (calls s) | None => delete t (calls s) end) (w_results rs s).

Lemma goto_spec t (r : pc D + result) s : (forall p, r = inl p -> quiet p) ->
  exists o rs, goto t r s = started t o rs s /\ (forall p, o = Some p -> quiet p).
Proof.
  destruct r as [p | r]; intros Hq.
  - exists (Some p), (results s). split; [by destruct s |]. intros p' [= <-]. auto.
  - by exists None, (<[t := r]> (results s)).
Qed.

Lemma start_spec t c s :
  (exists o rs, start cf t c s = started t o rs s /\ forall p, o = Some p -> quiet p)
  \/ close_once s = NotClosed /\
     start cf t c s = w_calls (<[t := Close_transport]> (calls s)) (w_closed true (w_close_once Closing s)).
Proof.
  destruct c as [topic sec|a|i|i|cause|u|]; simpl.
  - left. apply goto_spec. unfold Subscribe. intros p. repeat case_match; intros [= <-]. by repeat split.
  - left. apply goto_spec. unfold SubscribeOrders. intros p. repeat case_match; intros [= <-]; by repeat split.
  - left. apply (goto_spec t (inl (Cancel_lock i))). intros p [= <-]. by repeat split.
  - left. apply (goto_spec t (inl (CancelOrders_lock i))). intros p [= <-]. by repeat split.
  - left. apply goto_spec. unfold onReconnect. intros p. repeat case_match; intros [= <-]; by repeat split.
  - left. apply goto_spec. unfold handle_update. intros p. repeat case_match; intros [= <-]; by repeat split.
  - unfold Close. destruct (close_once s) eqn:Ho; [by right | left..].
    + apply (goto_spec t (inl Close_blocked)). intros p [= <-]. by repeat split.
    + by apply (goto_spec t (inr (RDone None))).
Qed.

Lemma started_calls t o rs s t' p : calls s !! t = None ->
  calls (started t o rs s) !! t' = Some p <-> calls s !! t' = Some p \/ t' = t /\ o = Some p.
Proof.
  intros Ht. assert (Hm : moved t o s (started t o rs s)) by done. destruct (decide (t' = t)) as [->|Hne].
  - rewrite (moved_same _ _ _ _ Hm), Ht. naive_solver.
  - rewrite (moved_other _ _ _ _ _ Hm Hne). naive_solver.
Qed.

Lemma ctl_started t o rs s : calls s !! t = None -> (forall p, o = Some p -> quiet p) ->
  ctl_inv s -> ctl_inv (started t o rs s).
Proof.
  intros Ht Hq [H1 H2 H3 H4 H5 H6 H7]. pose proof (fun t' p => started_calls t o rs s t' p Ht) as Hcalls.
  constructor; try done.
  - intros t' p. rewrite Hcalls. intros [Hp | [-> Ho]] Hcp; [by eapply H4 |]. destruct (Hq _ Ho) as (_ & ? & _). congruence.
  - intros t1 t2 p1 p2. rewrite !Hcalls. intros [Hp1 | [-> Ho1]] [Hp2 | [-> Ho2]] Hc1 Hc2.
    + by eapply H5.
    + destruct (Hq _ Ho2) as (_ & ? & _). congruence.
    + destruct (Hq _ Ho1) as (_ & ? & _). congruence.
    + done.
  - intros t'. simpl. rewrite H6. setoid_rewrite Hcalls. split.
    + intros (p & Hp & Ho). eauto.
    + intros (p & [Hp | [-> Hop]] & Ho); [eauto |]. destruct (Hq _ Hop) as (? & _). congruence.
  - intros [Ho | (t' & p & Hp & Hd)]; [apply H7; by left |]. apply Hcalls in Hp as [Hp | [-> Ho]].
    + apply H7. right. eauto.
    + destruct (Hq _ Ho) as (_ & Hcl & _). by rewrite past_drain_closer in Hcl.
Qed.

Lemma ctl_close t s : calls s !! t = None -> close_once s = NotClosed -> ctl_inv s ->
  ctl_inv (w_calls (<[t := Close_transport]> (calls s)) (w_closed true (w_close_once Closing s))).
Proof.
  intros Ht Ho [H1 H2 H3 H4 H5 H6 H7]. rewrite Ho in H3.
  pose proof (fun t' p => started_calls t (Some Close_transport) (results s) s t' p Ht) as Hcalls. simpl in Hcalls.
  constructor; try done; simpl.
  - naive_solver.
  - intros t1 t2 p1 p2. rewrite !Hcalls. intros [Hp1 | [-> Ho1]] [Hp2 | [-> Ho2]] Hc1 Hc2; try done;
      [specialize (H4 _ _ Hp1 Hc1) | specialize (H4 _ _ Hp1 Hc1) | specialize (H4 _ _ Hp2 Hc2)]; congruence.
  - intros t'. rewrite H6. setoid_rewrite Hcalls. naive_solver.
  - intros [Hcl | (t' & p & Hp & Hd)]; [done |]. simpl in Hp. apply Hcalls in Hp as [Hp | [-> [= <-]]]; [| done].
    apply H7. right. eauto.
Qed.

Lemma ctl_frame s s' : ctl_of s' = ctl_of s -> calls s' = calls s ->
  (length (errc s') <= errc_cap)%nat -> ctl_inv s -> ctl_inv s'.
Proof.
  unfold ctl_of. intros Heq Hc Hq [H1 H2 H3 H4 H5 H6 H7]. injection Heq as Hp Hec Hcl Ho Hl.
  constructor; unfold drained; rewrite ?Hp, ?Hec, ?Hcl, ?Ho, ?Hl, ?Hc; done.
Qed.

Ltac next_ref Hr Hp :=
  first [ eapply (ref_step _ _ None _ _ Hr Hp); [reflexivity |..]
        | eapply (ref_step _ _ (Some _) _ _ Hr Hp); [reflexivity |..] ]; proj.

Lemma shape_dom (S S' : gmap nat (Subscription D)) :
  (forall i, shape <$> S !! i = shape <$> S' !! i) -> dom S ⊆ dom S'.
Proof.
  intros Hs i. rewrite !elem_of_dom. specialize (Hs i). destruct (S !! i), (S' !! i); naive_solver.
Qed.

Lemma elem_of_resubscribe_keys s en :
  en ∈ resubscribe_keys s <->
  (exists k, entries s !! k = Some en) /\ from_option e_subscribed false (heap s !! en) = true.
Proof.
  unfold resubscribe_keys. rewrite list_elem_of_fmap. split.
  - intros ([k en'] & -> & Hin). rewrite merge_sort_Permutation, list_elem_of_fmap in Hin.
    destruct Hin as (en & [= -> ->] & Hin). apply list_elem_of_filter in Hin as [Hs Hin].
    apply list_elem_of_fmap in Hin as ([k en'] & -> & Hin%elem_of_map_to_list). eauto.
  - intros [(k & Hk) Hs]. exists (from_option entry_key "" (heap s !! en), en). split; [done |].
    rewrite merge_sort_Permutation, list_elem_of_fmap. exists en. split; [done |].
    apply list_elem_of_filter. split; [done |]. apply list_elem_of_fmap. exists (k, en).
    split; [done |]. by apply elem_of_map_to_list.
Qed.

Lemma thread_refs t p ch s s' :
  ctl_inv s -> ref_inv s -> calls s !! t = Some p -> thread_step cf ch t p s = Some s' -> ref_inv s'.
Proof.
  intros Hc Hr Hp Hst.
  destruct p; open_step Hst; frames; try dangling Hr Hp; try next_ref Hr Hp.
  all: try done.
  all: try (intros ? [= <-] ? Hin; simpl in Hin |- *;
    first [ by apply not_elem_of_nil in Hin | left; rewrite ?elem_of_cons in *; tauto
          | apply list_elem_of_singleton in Hin as ->; by auto ]).
  all: try (rewrite !dom_insert; set_solver).
  all: try (intros ? ? [[_ Hk]%lookup_delete_Some | Hk]; by left).
  all: try (intros ? ? [_ ?]%lookup_delete_Some; by left).
  all: try (intros ? ? ?; by left).
  all: try (rewrite dom_alter; done).
  all: try by apply shape_dom.
  all: try (intros ? [= <-] en Hen; simpl in *; right; apply elem_of_resubscribe_keys in Hen as [[k Hk] _];
    by eapply (ri_entries _ Hr)).
  all: try (intros k j Hj; left; by eauto).
  all: try by (intros k j Hj; apply not_elem_of_nil in Hj).
  all: try (intros k j; match goal with H : forall k, at_key ?B k = _ |- j ∈ at_key ?B k -> _ => rewrite H end;
    rewrite elem_of_app; intros [Hj | Hj]; [by left | right]; case_decide;
    [apply list_elem_of_singleton in Hj as -> | by apply not_elem_of_nil in Hj];
    rewrite lookup_insert_eq; eauto).
  - intros k en Hk. apply lookup_insert_Some in Hk as [[<- <-] | [_ Hk]]; [right | by left].
    rewrite lookup_insert_eq. eauto.
  - set_solver.
  - intros ? [= <-] en Hen. simpl in Hen. right. destruct x as [en'|]; [| set_solver].
    apply list_elem_of_singleton in Hen as ->. eauto.
  - pose proof (closer_open _ _ _ Hc Hp eq_refl). congruence.
Qed.

(** ** The registry *)

(** Topics and instruments never change. *)
Definition sub_mono s s' : Prop :=
  forall i x, subs s !! i = Some x ->
    exists y, subs s' !! i = Some y /\ s_topic y = s_topic x /\ s_securities y = s_securities x
      /\ (s_closed x = true -> s_closed y = true).

Lemma sub_mono_refl s s' : subs s' = subs s -> sub_mono s s'.
Proof. intros Hs i x Hx. rewrite Hs. eauto. Qed.

Lemma sub_mono_shape s s' : (forall i, shape <$> subs s !! i = shape <$> subs s' !! i) -> sub_mono s s'.
Proof.
  intros Hs i x Hx. specialize (Hs i). rewrite Hx in Hs. destruct (subs s' !! i) as [y|]; [| done].
  exists y. unfold shape in Hs. simplify_eq/=. split; [done |]. repeat split; congruence.
Qed.

Lemma sub_mono_shutdown s s' i : subs s' = alter Subscription_shutdown i (subs s) -> sub_mono s s'.
Proof.
  intros Hs j x Hx. rewrite Hs. destruct (decide (j = i)) as [->|]; [| rewrite lookup_alter_ne by done; eauto].
  rewrite lookup_alter_eq, Hx. eexists. by repeat split.
Qed.

Lemma sub_mono_fresh s s' x : subs s' = <[fresh (dom (subs s)) := x]> (subs s) -> sub_mono s s'.
Proof.
  intros Hs i y Hy. rewrite Hs, lookup_insert_ne; [eauto |].
  intros <-. apply (is_fresh (dom (subs s))). apply elem_of_dom. eauto.
Qed.

Lemma thread_mono t p ch s s' :
  ref_inv s -> calls s !! t = Some p -> thread_step cf ch t p s = Some s' -> sub_mono s s'.
Proof.
  intros Hr Hp Hst. destruct p; open_step Hst; frames; try dangling Hr Hp.
  all: first [ by apply sub_mono_refl | by eapply sub_mono_shutdown | by eapply sub_mono_fresh
             | by apply sub_mono_shape ].
Qed.

Lemma all_keyed_back s s' : sub_mono s s' -> all_keyed s' -> all_keyed s.
Proof. intros Hm Hk i x Hx. destruct (Hm i x Hx) as (y & Hy & _ & <- & _). eauto. Qed.

(** Joining an entry, new or registered. *)
Lemma data_join t p o s s' en e topic m sec :
  let i := fresh (dom (subs s)) in
  calls s !! t = Some p -> moved t o s s' -> keeps_drain p o s s' -> ~ drained s ->
  next_doomed o = doomed_of p -> keyed sec -> keyed (e_securities e) ->
  canonicalPushKey topic sec = entry_key e ->
  joins (heap s) (entries s) (canonicalPushKey topic sec) en e ->
  subs s' = <[i := newSubscription topic m sec]> (subs s) ->
  heap s' = <[en := with_subs (e_subs e ++ [i]) e]> (heap s) ->
  entries s' = <[canonicalPushKey topic sec := en]> (entries s) ->
  orphans s' = orphans s ->
  (forall k, at_key (byKey s') k =
     at_key (byKey s) k ++ (if decide (k ∈ securityKeys (e_securities e)) then [i] else [])) ->
  registry_inv s -> registry_inv s'.
Proof.
  intros i Hp Hm Hd Hnd Hdoom Hkx Hke Hek Hj Hs Hh HE HO HB Hr.
  assert (Hi : subs s !! i = None) by (apply not_elem_of_dom, is_fresh).
  unfold registry_inv. rewrite Hs, Hh, HE, HO.
  eapply (data_frame _ _ _ _ _ _ (pending s) _ (drained s)); [done | | | by eapply drained_move |].
  - intros j [? | Hj']%(pending_new _ _ _ _ _ Hp Hm); [done |]. rewrite Hdoom in Hj'. exists t, p. done.
  - intros j _ [? | Hj']%(pending_old _ _ _ _ _ Hp Hm); [done |]. eapply pending_next; [done.. | by rewrite Hdoom].
  - by apply (data_add _ _ _ i (newSubscription topic m sec) en e Hi Hkx Hke Hek Hj (byKey s)).
Qed.

Lemma fresh_keyed s s' x : all_keyed s' -> subs s' = <[fresh (dom (subs s)) := x]> (subs s) ->
  keyed (s_securities x).
Proof. intros Hk Hs. apply (Hk (fresh (dom (subs s)))). by rewrite Hs, lookup_insert_eq. Qed.

Lemma data_subscribe_join t topic m sec en e s :
  calls s !! t = Some (Subscribe_lock topic m sec) -> closed s = false ->
  entries s !! canonicalPushKey topic sec = Some en -> heap s !! en = Some e ->
  all_keyed (add_subscriber t en e topic m sec s) -> ctl_inv s ->
  registry_inv s -> registry_inv (add_subscriber t en e topic m sec s).
Proof.
  intros Hp Hcl HE He Hk Hc Hr. unfold add_subscriber in *.
  match goal with |- context [attachLocked e ?i ?s] => destruct (attach_spec e i s) as (B & HB & Hat) end.
  rewrite HB in *. pose proof Hr as [Hh _]. destruct (hi_entry _ _ _ Hh _ _ HE) as (e' & He' & Hek & _).
  assert (e' = e) as -> by congruence.
  eapply (data_join t _ None); [exact Hp | reflexivity | by left; split | | reflexivity | | | | |
    reflexivity | reflexivity | | reflexivity | exact Hat | done].
  - intros Hd%drained_closed; [congruence | done].
  - exact (fresh_keyed s _ (newSubscription topic m sec) Hk eq_refl).
  - by apply (hi_heap _ _ _ Hh en).
  - done.
  - left. by split.
  - symmetry. by apply insert_id.
Qed.

Lemma data_subscribe_new t topic m sec s :
  let en := fresh (dom (heap s)) in
  let s1 := w_entries (<[canonicalPushKey topic sec := en]> (entries s)) (w_subMu None s) in
  let s' := add_subscriber t en (mkEntry topic sec [] true) topic m sec s1 in
  calls s !! t = Some (Subscribe_sent topic m sec) ->
  entries s !! canonicalPushKey topic sec = None ->
  all_keyed s' -> ctl_inv s -> registry_inv s -> registry_inv s'.
Proof.
  intros en s1 s' Hp HE Hk Hc Hr. subst s' s1. unfold add_subscriber in *.
  match goal with |- context [attachLocked ?e ?i ?s] => destruct (attach_spec e i s) as (B & HB & Hat) end.
  rewrite HB in *.
  eapply (data_join t _ None _ _ en (mkEntry topic sec [] true)); [exact Hp | reflexivity | by left; split | |
    reflexivity | | | reflexivity | | reflexivity | reflexivity | reflexivity | reflexivity | exact Hat | done].
  - intros Hd%(ci_drained _ Hc). assert (Hs : subMu s = Some t) by (apply Hc; eauto). congruence.
  - exact (fresh_keyed s _ (newSubscription topic m sec) Hk eq_refl).
  - exact (fresh_keyed s _ (newSubscription topic m sec) Hk eq_refl).
  - right. split; [done |]. split; [| done]. apply not_elem_of_dom, is_fresh.
Qed.

(** [Cancel] under the lock. *)
Lemma data_cancel t i s x :
  calls s !! t = Some (Cancel_lock i) -> subs s !! i = Some x -> s_closed x = false -> all_keyed s ->
  registry_inv s ->
  registry_inv (let '(entry, s) := detachLocked i s in set_call t (Cancel_shut i entry) s).
Proof.
  intros Hp Hx Hcl Hk Hr.
  assert (Hgo : forall r s1, calls s1 = calls s -> close_once s1 = close_once s ->
    data_inv (subs s1) (heap s1) (entries s1) (byKey s1) (orphans s1) (fun j => pending s j \/ j = i) (drained s) ->
    registry_inv (set_call t (Cancel_shut i r) s1)).
  { intros r s1 Hc1 Ho1 Hd1. unfold registry_inv.
    assert (Hm : moved t (Some (Cancel_shut i r)) s (set_call t (Cancel_shut i r) s1)).
    { unfold moved. simpl. by rewrite Hc1. }
    eapply (data_frame _ _ _ _ _ _ _ _ _ _); [done | | | | exact Hd1].
    - intros j [Hj | Hj]%(pending_new _ _ _ _ _ Hp Hm); [by left | right]. set_solver.
    - intros j _ [Hj | ->]; [| eapply pending_next; [done.. | simpl; set_solver]].
      apply (pending_old _ _ _ _ _ Hp Hm) in Hj as [? | Hj]; [done | by apply not_elem_of_nil in Hj].
    - eapply drained_move; [done.. |]. left. by split. }
  unfold detachLocked. rewrite Hx. pose proof Hr as [Hh Hi].
  destruct (entries s !! sub_key x) as [en|] eqn:HE; [| by apply Hgo; [..| apply (data_unregistered _ _ _ _ _ _ _ i x)]].
  destruct (hi_entry _ _ _ Hh _ _ HE) as (e & He & _). rewrite He.
  case_decide as Hl.
  - match goal with |- context [unindex ?l ?i ?s] => destruct (unindex_spec l i s) as (B & -> & HB & _) end.
    apply Hgo; [done..|]. eapply (data_detach _ _ _ _ i x en e Hx (Hk _ _ Hx) HE He Hh); [| exact HB | done].
    by rewrite decide_True.
  - match goal with |- context [unindex ?l ?i ?s] => destruct (unindex_spec l i s) as (B & -> & HB & _) end.
    apply Hgo; [done..|]. eapply (data_detach _ _ _ _ i x en e Hx (Hk _ _ Hx) HE He Hh); [| exact HB | done].
    by rewrite decide_False.
Qed.

(** [killEntry] under the lock. *)
Lemma data_killed t en e keys trade s :
  calls s !! t = Some (Kill_lock en keys trade) -> heap s !! en = Some e -> registry_inv s ->
  registry_inv (set_call t (Kill_shut (e_subs e) en keys trade) (kill_locked en e s)).
Proof.
  intros Hp He Hr. pose proof Hr as [Hh Hi]. unfold kill_locked.
  destruct (kill_index_spec (e_subs e) s (ii_bucket _ _ _ _ _ _ _ Hi)) as (B & -> & Hnd & HB & Hemp).
  match goal with |- registry_inv ?s1 => assert (Hm : moved t (Some (Kill_shut (e_subs e) en keys trade)) s s1) by done end.
  apply (data_frame (subs s) _ _ _ _ _ (fun j => pending s j \/ j ∈ e_subs e) _ (drained s) _);
    [done | | | | apply (data_kill _ _ _ (byKey s) B (orphans s) _ _ en e);
                  [exact He | exact Hnd | exact HB | exact Hemp | | | exact Hr]].
  - intros j [Hj | Hj]%(pending_new _ _ _ _ _ Hp Hm); [by left | by right].
  - intros j _ [Hj | Hj]; [| by eapply pending_next].
    apply (pending_old _ _ _ _ _ Hp Hm) in Hj as [? | Hj]; [done | by apply not_elem_of_nil in Hj].
  - eapply drained_move; [done.. |]. left. by split.
  - proj. set_solver.
  - intros en' e' j HE Hne He' Hj. change (entries s !! entry_key e = Some en') in HE.
    change (heap s !! en' = Some e') in He'. proj. apply elem_of_union_l. unfold displaced. proj. rewrite HE.
    rewrite decide_False by done. apply elem_of_list_to_set. unfold entry_subs. proj. by rewrite He'.
Qed.

(** [closeAll] under the lock. *)
Lemma data_close_locked t s :
  calls s !! t = Some Close_lock -> registry_inv s -> registry_inv (close_locked t s).
Proof.
  intros Hp Hr. unfold close_locked.
  match goal with |- registry_inv (set_call t ?p _) =>
    match goal with |- registry_inv ?s1 => assert (Hm : moved t (Some p) s s1) by done end end.
  assert (Hd : drained (set_call t (Close_shut ((map_to_list (entries s)).*2 ≫= (fun en => entry_subs en s)) (orders s))
    (w_orders [] (w_byKey ∅ (w_entries ∅ s))))).
  { right. exists t. eexists. split; [apply lookup_insert_eq | done]. }
  apply (data_frame (subs s) _ _ _ _ _ (fun j => pending s j \/ exists k en e,
      entries s !! k = Some en /\ heap s !! en = Some e /\ j ∈ e_subs e) _ True _);
    [done | | | | eapply data_close; [| exact Hr]; intros j; reflexivity].
  - intros j [Hj | Hj]%(pending_new _ _ _ _ _ Hp Hm); [by left | right]. simpl in Hj.
    apply list_elem_of_bind in Hj as (en & Hj & Hin). apply list_elem_of_fmap in Hin as ([k en'] & -> & Hin).
    apply elem_of_map_to_list in Hin. unfold entry_subs in Hj. simpl in Hj.
    destruct (heap s !! en') as [e|] eqn:He; [| by apply not_elem_of_nil in Hj]. by exists k, en', e.
  - intros j _ [Hj | (k & en & e & HE & He & Hj)].
    + apply (pending_old _ _ _ _ _ Hp Hm) in Hj as [? | Hj]; [done | by apply not_elem_of_nil in Hj].
    + eapply pending_next; [done.. |]. simpl. apply list_elem_of_bind. exists en.
      unfold entry_subs. rewrite He. split; [done |]. apply list_elem_of_fmap. exists (k, en).
      split; [done |]. by apply elem_of_map_to_list.
  - by split.
Qed.

(** Every step keeps the registry. *)
Ltac move_data Hp :=
  first [ eapply (data_same _ _ None _ _ Hp); [reflexivity.. | by left; split | | reflexivity | done]
        | eapply (data_same _ _ (Some _) _ _ Hp); [reflexivity.. | by left; split | | reflexivity | done]
        | eapply (data_shut _ _ None _ _ Hp); [reflexivity.. | by left; split | reflexivity | reflexivity | done]
        | eapply (data_shut _ _ (Some _) _ _ Hp); [reflexivity.. | by left; split | reflexivity | reflexivity | done] ].

Record sent_inv s : Prop := {
  si_sent t topic m sec : calls s !! t = Some (Subscribe_sent topic m sec) ->
    entries s !! canonicalPushKey topic sec = None;
}.

Lemma data_subscribe_locked t topic m sec s :
  calls s !! t = Some (Subscribe_lock topic m sec) -> ctl_inv s -> ref_inv s ->
  all_keyed (subscribe_locked t topic m sec s) -> registry_inv s ->
  registry_inv (subscribe_locked t topic m sec s).
Proof.
  intros Hp Hc Hr Hk Hd. unfold subscribe_locked in *.
  destruct (closed s) eqn:Hcl; [by move_data Hp |].
  destruct (entries s !! canonicalPushKey topic sec) as [en|] eqn:HE; [| by move_data Hp].
  destruct (heap s !! en) as [e|] eqn:He; [by apply data_subscribe_join |].
  destruct (ri_entries _ Hr _ _ HE). congruence.
Qed.

Lemma data_subscribe_replied reply t topic m sec s :
  calls s !! t = Some (Subscribe_sent topic m sec) -> ctl_inv s -> sent_inv s ->
  all_keyed (subscribe_replied reply t topic m sec s) -> registry_inv s ->
  registry_inv (subscribe_replied reply t topic m sec s).
Proof.
  intros Hp Hc Hs Hk Hd. unfold subscribe_replied in *. destruct reply as [e|]; [by move_data Hp |].
  apply (data_subscribe_new t topic m sec s); [done | | done..]. by apply (si_sent _ Hs t topic m).
Qed.

Lemma data_cancel_locked t i s :
  calls s !! t = Some (Cancel_lock i) -> all_keyed s -> registry_inv s ->
  registry_inv (cancel_locked t i s).
Proof.
  intros Hp Hk Hd. unfold cancel_locked, isClosed. destruct (subs s !! i) as [x|] eqn:Hx; simpl.
  - destruct (s_closed x) eqn:Hc; [by move_data Hp | by apply data_cancel with x].
  - by move_data Hp.
Qed.

Lemma thread_data t p ch s s' :
  ctl_inv s -> ref_inv s -> sent_inv s -> all_keyed s' -> calls s !! t = Some p ->
  thread_step cf ch t p s = Some s' -> registry_inv s -> registry_inv s'.
Proof.
  intros Hc Hr Hsent Hk Hp Hst Hd.
  assert (Hks : all_keyed s) by (eapply all_keyed_back; [by eapply thread_mono | done]).
  destruct p; first
    [ simpl in Hst; unfold locked in Hst; repeat case_match; simplify_eq;
      first [ by apply data_subscribe_locked | by apply data_subscribe_replied
            | by apply data_cancel_locked | by apply data_killed | by apply data_close_locked ]
    | open_step Hst; frames; try dangling Hr Hp; try (by move_data Hp) ].
  - pose proof (closer_open _ _ _ Hc Hp eq_refl). congruence.
  - eapply (data_same _ _ None _ _ Hp); [reflexivity..| by right | done | reflexivity | done].
Qed.

(** The registry changes only under the lock. *)
Lemma thread_entries t p ch s s' :
  ref_inv s -> calls s !! t = Some p -> thread_step cf ch t p s = Some s' ->
  (entries s' = entries s \/ subMu s = None \/ owner p = true)
  /\ forall topic m sec, calls s' !! t = Some (Subscribe_sent topic m sec) ->
       p = Subscribe_lock topic m sec /\ entries s' = entries s
       /\ entries s !! canonicalPushKey topic sec = None.
Proof.
  intros Hr Hp Hst. destruct p; open_step Hst; frames; try dangling Hr Hp.
  all: split; [first [by left | by right; left | by right; right] |].
  all: intros topic0 m0 sec0; proj; rewrite ?lookup_insert_eq, ?lookup_delete_eq;
    first [congruence | intros [= <- <- <-]; done].
Qed.

Lemma sent_thread t p o ch s s' :
  ctl_inv s -> ref_inv s -> calls s !! t = Some p -> moved t o s s' ->
  thread_step cf ch t p s = Some s' -> sent_inv s -> sent_inv s'.
Proof.
  intros Hc Hr Hp Hm Hst [Hs]. constructor. intros t' topic m sec Hp'.
  destruct (thread_entries t p ch s s' Hr Hp Hst) as [He Hnew].
  destruct (decide (t' = t)) as [->|Hne].
  - by destruct (Hnew _ _ _ Hp') as (_ & -> & ?).
  - rewrite (moved_other _ _ _ _ _ Hm Hne) in Hp'.
    assert (Hl : subMu s = Some t') by (apply Hc; eauto).
    destruct He as [-> | [Hn | Ho]]; [eauto | congruence |].
    assert (subMu s = Some t) by (apply Hc; eauto). congruence.
Qed.

(** ** Every reachable state *)
Definition inv s : Prop := ctl_inv s /\ ref_inv s /\ sent_inv s /\ (all_keyed s -> registry_inv s).

(** Steps that move no call and keep the registry. *)
Lemma inv_frame s s' : ctl_of s' = ctl_of s -> calls s' = calls s ->
  (length (errc s') <= errc_cap)%nat -> heap s' = heap s -> entries s' = entries s ->
  byKey s' = byKey s -> orphans s' = orphans s ->
  (forall i, shape <$> subs s !! i = shape <$> subs s' !! i) -> inv s -> inv s'.
Proof.
  intros Hctl Hc Hq Hh HE HB HO Hs (H1 & [R1 R2 R3 R4] & [S1] & H4).
  assert (Hp : forall i, pending s' i <-> pending s i) by (intros i; unfold pending, pending_in; by rewrite Hc).
  assert (Hdr : drained s <-> drained s').
  { unfold ctl_of in Hctl. unfold drained. rewrite Hc. naive_solver congruence. }
  split; [by eapply ctl_frame |]. split; [| split].
  - assert (Hsub : forall i, is_Some (subs s !! i) -> is_Some (subs s' !! i)).
    { intros i Hi. by apply elem_of_dom, (shape_dom (subs s)), elem_of_dom. }
    constructor; rewrite ?Hc, ?HE, ?Hh, ?HB; eauto.
  - constructor. rewrite Hc, HE. done.
  - intros Hk. unfold registry_inv. rewrite Hh, HE, HB, HO.
    eapply data_frame; [exact Hs | | | exact Hdr | apply H4].
    + intros i. by rewrite Hp.
    + intros i _. by rewrite Hp.
    + eapply all_keyed_back; [by apply sub_mono_shape | done].
Qed.

Lemma inv_started t o rs s : calls s !! t = None -> (forall p, o = Some p -> quiet p) ->
  inv s -> inv (started t o rs s).
Proof.
  intros Ht Hq (H1 & [R1 R2 R3 R4] & [S1] & H4). pose proof (fun t' p => started_calls t o rs s t' p Ht) as Hcalls.
  split; [by apply ctl_started |]. split; [| split].
  - constructor; [done | | | done]; intros t' p j Hp Hj; apply Hcalls in Hp as [Hp | [-> Ho]]; eauto.
    + destruct (Hq _ Ho) as (_ & _ & _ & _ & Hn & _). rewrite Hn in Hj. by apply not_elem_of_nil in Hj.
    + destruct (Hq _ Ho) as (_ & _ & _ & _ & _ & Hn). rewrite Hn in Hj. by apply not_elem_of_nil in Hj.
  - constructor. intros t' topic m sec Hp. apply Hcalls in Hp as [Hp | [-> Ho]]; [by eapply S1 |].
    destruct (Hq _ Ho) as (Hn & _). done.
  - intros Hk. eapply data_frame; [done | | | | by apply H4].
    + intros i (t' & p & Hp & Hi). apply Hcalls in Hp as [Hp | [-> Ho]]; [by exists t', p |].
      destruct (Hq _ Ho) as (_ & _ & Hn & _). rewrite Hn in Hi. by apply not_elem_of_nil in Hi.
    + intros i _ (t' & p & Hp & Hi). exists t', p. rewrite Hcalls. auto.
    + split; (intros [Ho | (t' & p & Hp & Hd)]; [by left | right]).
      * exists t', p. rewrite Hcalls. auto.
      * apply Hcalls in Hp as [Hp | [-> Ho]]; [eauto |]. destruct (Hq _ Ho) as (_ & Hn & _).
        by rewrite past_drain_closer in Hn.
Qed.

Lemma inv_close t s : calls s !! t = None -> close_once s = NotClosed -> inv s ->
  inv (w_calls (<[t := Close_transport]> (calls s)) (w_closed true (w_close_once Closing s))).
Proof.
  intros Ht Ho (H1 & [R1 R2 R3 R4] & [S1] & H4).
  pose proof (fun t' p => started_calls t (Some Close_transport) (results s) s t' p Ht) as Hcalls. simpl in Hcalls.
  split; [by apply ctl_close |]. split; [| split].
  - constructor; [done | | | done]; simpl; intros t' p j Hp Hj; apply Hcalls in Hp as [Hp | [-> [= <-]]]; eauto;
      by apply not_elem_of_nil in Hj.
  - constructor. simpl. intros t' topic m sec Hp. apply Hcalls in Hp as [Hp | [-> [=]]]. by eapply S1.
  - intros Hk. eapply data_frame; [done | | | | by apply H4].
    + intros i (t' & p & Hp & Hi). simpl in Hp. apply Hcalls in Hp as [Hp | [-> [= <-]]]; [by exists t', p |].
      by apply not_elem_of_nil in Hi.
    + intros i _ (t' & p & Hp & Hi). exists t', p. simpl. rewrite Hcalls. auto.
    + split; (intros [Hcl | (t' & p & Hp & Hd)]; [simpl in Hcl; congruence |]); exfalso.
      * specialize (ci_closer _ H1 _ _ Hp (past_drain_closer _ Hd)). congruence.
      * simpl in Hp. apply Hcalls in Hp as [Hp | [-> [= <-]]]; [| done].
        specialize (ci_closer _ H1 _ _ Hp (past_drain_closer _ Hd)). congruence.
Qed.

Lemma inv_thread t p ch s s' :
  calls s !! t = Some p -> thread_step cf ch t p s = Some s' -> inv s -> inv s'.
Proof.
  intros Hp Hst (H1 & H2 & H3 & H4).
  destruct (thread_ctl t p ch s s' H1 H2 Hp Hst) as (o & Hm & Hs & Hq).
  split; [by eapply ctl_thread |]. split; [by eapply thread_refs |]. split; [by eapply sent_thread |].
  intros Hk. eapply thread_data; [done..|]. apply H4. eapply all_keyed_back; [by eapply thread_mono | done].
Qed.

Lemma recv_shape i (S : gmap nat (Subscription D)) j :
  shape <$> S !! j = shape <$> alter Subscription_recv i S !! j.
Proof.
  destruct (decide (j = i)) as [->|]; [| by rewrite lookup_alter_ne].
  rewrite lookup_alter_eq. by destruct (S !! i).
Qed.

Lemma inv_step s s' : step cf s s' -> inv s -> inv s'.
Proof.
  intros Hst Hi. pose proof Hi as (H1 & _). pose proof (ci_errc _ H1) as Hq.
  destruct Hst as [t c Ht Hr | t p ch s' Hp Hst | e s' Hst | ch s' Hst | i | i |].
  - destruct (start_spec t c s) as [(o & rs & -> & Ho) | [Ho ->]]; [by apply inv_started | by apply inv_close].
  - by eapply inv_thread.
  - unfold drain_recv in Hst. repeat case_match; simplify_eq; eapply (inv_frame s); first [exact Hq | exact Hi | reflexivity | by intros].
  - unfold drain_forward in Hst. destruct (drain s) as [| |e|]; simplify_eq.
    destruct (report_frame ch e s) as (q & d & b & -> & Hl & Hb). rewrite (Hb (ctl_reports _ H1)).
    eapply (inv_frame s); first [exact (Hl Hq) | exact Hi | reflexivity | by intros].
  - eapply (inv_frame s); first [exact Hq | exact Hi | reflexivity | apply recv_shape].
  - eapply (inv_frame s); first [exact Hq | exact Hi | reflexivity | by intros].
  - eapply (inv_frame s); first [exact Hi | reflexivity | by intros | simpl; rewrite length_drop; lia].
Qed.

Lemma init_calls b t : calls (init (D := D) b) !! t = None.
Proof. apply lookup_empty. Qed.

Lemma init_entries b k : entries (init (D := D) b) !! k = None.
Proof. apply lookup_empty. Qed.

Lemma init_heap b en : heap (init (D := D) b) !! en = None.
Proof. apply lookup_empty. Qed.

Lemma init_subs b i : subs (init (D := D) b) !! i = None.
Proof. apply lookup_empty. Qed.

Lemma inv_init b : inv (init b).
Proof.
  assert (Hd : drained (D := D) (init b) -> False).
  { intros [Hc | (t & p & Hp & _)]; [done |]. by rewrite init_calls in Hp. }
  assert (Hb : forall k, at_key (byKey (init (D := D) b)) k = []) by (intros k; apply (f_equal (default []) (lookup_empty k))).
  split; [| split; [| split]].
  - constructor; [done | simpl; lia | done | | | | by intros].
    + intros t p Hp. by rewrite init_calls in Hp.
    + intros t t' p p' Hp. by rewrite init_calls in Hp.
    + intros t. split; [by intros |]. intros (p & Hp & _). by rewrite init_calls in Hp.
  - constructor.
    + intros k en Hk. by rewrite init_entries in Hk.
    + intros t p j Hp. by rewrite init_calls in Hp.
    + intros t p j Hp. by rewrite init_calls in Hp.
    + intros k i. rewrite Hb. by intros ?%not_elem_of_nil.
  - constructor. intros t topic m sec Hp. by rewrite init_calls in Hp.
  - intros _. assert (Hl : forall i, live (subs (init (D := D) b)) i -> False).
    { intros i (x & Hx & _). by rewrite init_subs in Hx. }
    split; constructor; try (intros *; rewrite ?init_entries, ?init_heap; done).
    + intros k. rewrite Hb. constructor.
    + intros k i. rewrite Hb. by intros ?%not_elem_of_nil.
    + intros i Hi. by destruct (Hl i).
    + intros i k Hi. by destruct (Hl i).
    + intros i (t & p & Hp & _). by rewrite init_calls in Hp.
Qed.

Lemma inv_reachable s : reachable cf s -> inv s.
Proof. induction 1; [apply inv_init | by eapply inv_step]. Qed.
End control.
