(* ===== verification/PushOrchData.v ===== *)
(** What the subscriptions of the push orchestration hold: the order
    subscriptions, and the queues and counters of the two [deliver] methods. *)
From S2P Require Import Prelude Chan Types Errs Domain PushKeys PushOrch PushOrchInv PushOrchStep PushOrchSafe.

(** ** Deliveries *)
Section enqueue.
Context {A : Type}.
Implicit Types (q l : list A) (x : A).

(** Whatever the consumer takes meanwhile: nothing is lost while there is room,
    an overflow loses at most one value and never the new one, and the order is
    kept. *)
Lemma enqueue_spec cap ch q x taken q' full :
  (0 < cap)%nat -> (length q <= cap)%nat -> enqueue cap ch q x = (taken, q', full) ->
  (length q' <= cap)%nat /\ (taken ++ q') `sublist_of` (q ++ [x]) /\ last q' = Some x
  /\ (length q + (if full then 0 else 1) <= length (taken ++ q'))%nat.
Proof.
  intros Hcap Hq. unfold enqueue, send_drop_oldest_racing, try_send, try_recv.
  destruct (decide (length q < cap)%nat) as [Hl|Hl].
  { intros [= <- <- <-]. rewrite last_snoc, length_app. simpl. rewrite length_app. simpl.
    repeat split; [lia | done | lia]. }
  set (r := drop (ch_c1 ch) q). set (r2 := drop (ch_c2 ch) (drop 1 r)).
  assert (Hr2 : (length r2 < cap)%nat) by (unfold r2, r; rewrite !length_drop; lia).
  rewrite decide_True by done. intros [= <- <- <-]. simpl. rewrite last_snoc. repeat split.
  - rewrite length_app. simpl. lia.
  - rewrite <- !app_assoc, (app_assoc (take (ch_c2 ch) (drop 1 r))). unfold r2. rewrite take_drop.
    rewrite <- (take_drop (ch_c1 ch) q) at 2. fold r. rewrite <- app_assoc.
    apply sublist_app; [done |]. apply sublist_app; [apply sublist_drop | done].
  - rewrite !length_app, !length_take. unfold r2, r. rewrite !length_drop. simpl. lia.
Qed.
End enqueue.

Lemma bump_spec n : bump (uwrap 64 (Z.of_nat n)) = uwrap 64 (Z.of_nat (S n)).
Proof.
  unfold bump, uwrap. rewrite Zplus_mod_idemp_l. f_equal. lia.
Qed.

Section deliver.
Context {D : Type}.
Implicit Types (u : PushUpdate D) (l : list (PushUpdate D)) (x : Subscription D).

(** The newest wire time of a sequence, 0 when no frame carries one. *)
Fixpoint newest (acc : Z) l : Z :=
  match l with
  | [] => acc
  | u :: l =>
      newest (if decide (pu_Time u = 0) then acc
              else if decide (acc = 0) then pu_Time u else Z.max acc (pu_Time u)) l
  end.

(** A frame is late when an earlier one of the sequence carries a newer time. *)
Definition late_after l u : Prop :=
  pu_Time u <> 0 /\ Exists (fun v => pu_Time v <> 0 /\ pu_Time u < pu_Time v) l.

#[local] Instance late_after_dec l u : Decision (late_after l u).
Proof. unfold late_after. apply _. Defined.

(** How many frames of [l] are late, [pre] having come before. *)
Fixpoint late_frames (pre l : list (PushUpdate D)) : nat :=
  match l with
  | [] => 0
  | u :: l => (if decide (late_after pre u) then 1 else 0) + late_frames (pre ++ [u]) l
  end.

Lemma late_frames_snoc pre l u :
  late_frames pre (l ++ [u]) =
    (late_frames pre l + if decide (late_after (pre ++ l) u) then 1 else 0)%nat.
Proof.
  revert pre. induction l as [|v l IH]; intros pre; simpl.
  - rewrite app_nil_r. lia.
  - rewrite IH, <- app_assoc. simpl. lia.
Qed.

Lemma newest_snoc acc l u : newest acc (l ++ [u]) = newest (newest acc l) [u].
Proof. revert acc. induction l as [|v l IH]; intros acc; [done |]. apply IH. Qed.

Lemma newest_max l :
  (newest 0 l = 0 /\ Forall (fun v => pu_Time v = 0) l)
  \/ newest 0 l <> 0 /\ Exists (fun v => pu_Time v = newest 0 l) l
     /\ Forall (fun v => pu_Time v = 0 \/ pu_Time v <= newest 0 l) l.
Proof.
  induction l as [|u l IH] using rev_ind; [by left |].
  rewrite newest_snoc, Exists_app, !Forall_app, Exists_cons, Exists_nil, !Forall_singleton. simpl.
  set (m := newest 0 l) in *. clearbody m.
  repeat case_decide; destruct IH as [[Hm Hl] | (Hm & He & Hl)]; try (left; by split); try done.
  - right. auto.
  - right. split; [done |]. split; [auto |]. split; [| lia].
    eapply Forall_impl; [exact Hl |]. simpl. lia.
  - right. split; [lia |]. split.
    + destruct (Z.max_spec m (pu_Time u)) as [[_ ->] | [_ ->]]; auto.
    + split; [| lia]. eapply Forall_impl; [exact Hl |]. simpl. lia.
Qed.

Lemma late_after_newest l u :
  late_after l u <-> pu_Time u <> 0 /\ newest 0 l <> 0 /\ pu_Time u < newest 0 l.
Proof.
  unfold late_after. rewrite Exists_exists.
  destruct (newest_max l) as [[Hm Hl] | (Hm & He & Hl)]; rewrite Forall_forall in Hl.
  - split; [intros (? & v & Hv & ? & _); by rewrite (Hl v Hv) in * | naive_solver].
  - apply Exists_exists in He as (w & Hw & Hwm). split.
    + intros (? & v & Hv & Hz & Hlt). destruct (Hl v Hv); [done |]. repeat split; [done.. | lia].
    + intros (? & ? & ?). split; [done |]. exists w. rewrite Hwm. auto.
Qed.

(** What a subscription holds, of what it accepted. *)
Record queue_ok (cap : nat) (accepted taken queue : list (PushUpdate D)) (dropped : Z) : Prop := {
  qo_bound : (length queue <= cap)%nat;
  qo_order : (taken ++ queue) `sublist_of` accepted;
  qo_newest : last (taken ++ queue) = last accepted;
  qo_dropped : exists n, dropped = uwrap 64 (Z.of_nat n) /\ (n <= length accepted)%nat
    /\ (length accepted <= length (taken ++ queue) + n)%nat;
}.

Record sub_ok (cap : nat) x : Prop := {
  so_queue : queue_ok cap (s_accepted x) (s_taken x) (s_updates x) (s_dropped x);
  so_late : s_outOfOrder x = uwrap 64 (Z.of_nat (late_frames [] (s_accepted x)));
  so_wire : s_lastWire x = newest 0 (s_accepted x);
}.

Definition order_ok (cap : nat) (x : OrderSubscription D) : Prop :=
  queue_ok cap (o_accepted x) (o_taken x) (o_updates x) (o_dropped x).

Lemma queue_deliver cap ch acc taken q dropped u t' q' full :
  (0 < cap)%nat -> queue_ok cap acc taken q dropped -> enqueue cap ch q u = (t', q', full) ->
  queue_ok cap (acc ++ [u]) (taken ++ t') q' (if full then bump dropped else dropped).
Proof.
  intros Hcap [H1 H2 H3 (n & -> & Hn & Hl)] He.
  destruct (enqueue_spec cap ch q u t' q' full Hcap H1 He) as (Hb & Hs & Hlast & Hlen).
  constructor.
  - done.
  - rewrite <- app_assoc. etrans; [by apply sublist_app |]. rewrite app_assoc. by apply sublist_app.
  - rewrite last_snoc, last_app, Hlast. done.
  - exists (if full then S n else n). split; [destruct full; [apply bump_spec | done] |].
    rewrite !length_app in *. simpl. destruct full; lia.
Qed.

Lemma queue_recv cap acc taken q dropped :
  queue_ok cap acc taken q dropped -> queue_ok cap acc (taken ++ take 1 q) (drop 1 q) dropped.
Proof.
  intros [H1 H2 H3 H4].
  constructor; rewrite <- ?app_assoc, ?take_drop; [rewrite length_drop; lia | done..].
Qed.

Lemma sub_deliver cap ch u x : (0 < cap)%nat -> sub_ok cap x ->
  sub_ok cap (fst (Subscription_deliver cap ch u x)).
Proof.
  intros Hcap Hx. unfold Subscription_deliver. destruct (s_closed x); [done |]. destruct Hx as [Hq Hl Hw].
  destruct (wire_order u x) as [[late out] wire] eqn:Hwo.
  destruct (enqueue cap ch (s_updates x) u) as [[t' q'] full] eqn:He. simpl.
  assert (Hlate : late = uwrap 64 (Z.of_nat (late_frames [] (s_accepted x ++ [u])))
                  /\ wire = newest 0 (s_accepted x ++ [u])).
  { rewrite newest_snoc, late_frames_snoc, <- Hw. simpl.
    pose proof (late_after_newest (s_accepted x) u) as Hla. rewrite <- Hw in Hla.
    unfold wire_order in Hwo. destruct (decide (pu_Time u = 0)) as [Hz|Hz].
    { simplify_eq. rewrite decide_False by naive_solver. by rewrite Nat.add_0_r. }
    destruct (decide (s_lastWire x <> 0 /\ pu_Time u < s_lastWire x)) as [[Hn Hlt]|Hn]; simplify_eq.
    - rewrite decide_True by (by apply Hla). rewrite decide_False by done.
      split; [rewrite Hl, bump_spec; do 2 f_equal; lia | lia].
    - rewrite decide_False by (intros (_ & ? & ?)%Hla; auto). rewrite Nat.add_0_r.
      split; [done |]. case_decide; lia. }
  destruct Hlate as [-> ->]. constructor; simpl; [by eapply queue_deliver | done..].
Qed.

Lemma sub_recv cap x : sub_ok cap x -> sub_ok cap (Subscription_recv x).
Proof. intros [Hq Hl Hw]. constructor; simpl; [by apply queue_recv | done..]. Qed.

Lemma sub_shutdown cap x : sub_ok cap x -> sub_ok cap (Subscription_shutdown x).
Proof. by intros [Hq Hl Hw]. Qed.

Lemma queue_new cap : queue_ok cap [] [] [] 0.
Proof. constructor; simpl; [lia | done | done |]. exists 0%nat. by repeat split. Qed.

Lemma sub_new cap topic m sec : sub_ok cap (newSubscription topic m sec).
Proof. constructor; simpl; [apply queue_new | done..]. Qed.

Lemma order_deliver cap ch u (x : OrderSubscription D) : (0 < cap)%nat -> order_ok cap x ->
  order_ok cap (fst (OrderSubscription_deliver cap ch u x)).
Proof.
  intros Hcap Hx. unfold OrderSubscription_deliver. destruct (o_closed x); [done |].
  destruct (enqueue cap ch (o_updates x) u) as [[t' q'] full] eqn:He. by eapply queue_deliver.
Qed.
End deliver.

(** ** Every reachable state *)
Section reachable.
Context {D : Type} (cf : config) (Hcap : (0 < cf_buffer cf)%nat).
Implicit Types (s : st D) (p : pc D) (o : option (pc D)).
Local Abbreviation cap := (cf_buffer cf).

Definition data_ok s : Prop :=
  map_Forall (fun _ x => sub_ok cap x) (subs s) /\ map_Forall (fun _ x => order_ok cap x) (osubs s).

Lemma forall_alter {A} (P : A -> Prop) f i (m : gmap nat A) :
  (forall x, P x -> P (f x)) -> map_Forall (fun _ => P) m -> map_Forall (fun _ => P) (alter f i m).
Proof. intros Hf Hm j x Hj. apply lookup_alter_Some in Hj. destruct Hj as [(-> & y & Hy & ->) | [_ Hy]]; eauto. Qed.

Lemma thread_data_ok t p ch s s' :
  ctl_inv s -> ref_inv s -> calls s !! t = Some p -> thread_step cf ch t p s = Some s' ->
  data_ok s -> data_ok s'.
Proof using Hcap.
  intros Hc Hr Hp Hst [Hs Ho]. destruct p; open_step Hst; frames; try dangling Hr Hp; split; proj;
    try assumption.
  all: first
    [ by apply map_Forall_insert_2; [apply sub_new |]
    | by apply map_Forall_insert_2; [apply queue_new |]
    | apply forall_alter; [intros ?; apply sub_shutdown | done]
    | by apply forall_alter
    | match goal with H : forall Q : _ -> Prop, _ |- _ => apply H; [| assumption] end;
      intros ?; by first [apply sub_deliver | apply order_deliver] ].
Qed.

Lemma data_ok_step s s' : inv s -> step cf s s' -> data_ok s -> data_ok s'.
Proof using Hcap.
  intros (H1 & H2 & _) Hst Hd. destruct Hst as [t c Ht Hr | t p ch s' Hp Hst | e s' Hst | ch s' Hst | i | i |].
  - destruct (start_spec cf t c s) as [(o & rs & -> & _) | [_ ->]]; exact Hd.
  - by eapply thread_data_ok.
  - unfold drain_recv in Hst. repeat case_match; simplify_eq; exact Hd.
  - unfold drain_forward in Hst. destruct (drain s); simplify_eq.
    destruct (report_frame ch e s) as (q & d & b & -> & _). exact Hd.
  - split; [| apply Hd]. apply forall_alter; [intros x; apply sub_recv | apply Hd].
  - split; [apply Hd |]. apply forall_alter; [| apply Hd]. intros x. apply queue_recv.
  - exact Hd.
Qed.

Lemma data_ok_reachable s : reachable cf s -> data_ok s.
Proof using Hcap.
  induction 1 as [|s s' Hr IH Hst]; [split; apply map_Forall_empty |].
  apply (data_ok_step s); [by eapply inv_reachable | done..].
Qed.
End reachable.
