(* ===== verification/PushOrchOrders.v ===== *)
(** The order subscriptions of the push orchestration: in every reachable state
    the list that [dispatchTrade] reads holds exactly the live subscriptions
    that no call is shutting down. *)
From S2P Require Import Prelude Chan Types Errs Domain PushKeys PushOrch PushOrchInv PushOrchStep PushOrchSafe PushOrchData.

Section orders.
Context {D : Type}.
Implicit Types (s : st D) (p : pc D) (o : option (pc D)) (S : gmap nat (OrderSubscription D)).

Definition order_pending : st D -> nat -> Prop := pending_in order_doomed.

Definition order_live S (i : nat) : Prop := exists x, S !! i = Some x /\ o_closed x = false.

Record orders_inv S (L : list nat) (P : nat -> Prop) (dr : Prop) : Prop := {
  oi_nodup : NoDup L;
  oi_in i : i ∈ L -> order_live S i /\ ~ P i;
  oi_live i : order_live S i -> ~ P i -> i ∈ L;
  oi_pending i : P i -> is_Some (S !! i);
  oi_drained : dr -> L = [];
}.

Definition order_inv s : Prop := orders_inv (osubs s) (orders s) (order_pending s) (drained s).

Lemma order_shape_live S S' i : order_shape <$> S !! i = order_shape <$> S' !! i ->
  order_live S i -> order_live S' i.
Proof.
  intros Hs (x & Hx & Hc). rewrite Hx in Hs. destruct (S' !! i) as [y|] eqn:Hy; [| done].
  exists y. split; [done |]. unfold order_shape in Hs. simplify_eq/=. congruence.
Qed.

Lemma orders_frame S S' L (P P' : nat -> Prop) (dr dr' : Prop) :
  (forall i, order_shape <$> S !! i = order_shape <$> S' !! i) ->
  (forall i, P' i -> P i) -> (forall i, order_live S i -> P i -> P' i) -> (dr' -> dr) ->
  orders_inv S L P dr -> orders_inv S' L P' dr'.
Proof.
  intros Hs HP HP' Hdr [H1 H2 H3 H4 H5].
  assert (Hl : forall i, order_live S i <-> order_live S' i).
  { intros i. split; apply order_shape_live; [apply Hs | symmetry; apply Hs]. }
  constructor; [done | | | | auto].
  - intros i Hi. destruct (H2 i Hi). rewrite <- Hl. naive_solver.
  - intros i. rewrite <- Hl. naive_solver.
  - intros i Hi. specialize (Hs i). destruct (H4 i (HP i Hi)) as [x Hx]. rewrite Hx in Hs.
    destruct (S' !! i); naive_solver.
Qed.

Lemma orders_shut i S L (P : nat -> Prop) dr :
  P i -> orders_inv S L P dr -> orders_inv (alter OrderSubscription_shutdown i S) L P dr.
Proof.
  intros Hi [H1 H2 H3 H4 H5].
  assert (Hl : forall j, order_live (alter OrderSubscription_shutdown i S) j <-> order_live S j /\ j <> i).
  { intros j. unfold order_live. destruct (decide (j = i)) as [->|]; [| rewrite lookup_alter_ne by done; naive_solver].
    rewrite lookup_alter_eq. destruct (S !! i); naive_solver. }
  constructor; [done | | | | done].
  - intros j Hj. destruct (H2 j Hj). rewrite Hl. naive_solver.
  - intros j. rewrite Hl. naive_solver.
  - intros j Hj. rewrite lookup_alter_is_Some. auto.
Qed.

Lemma orders_add S L (P : nat -> Prop) (dr : Prop) i x :
  S !! i = None -> o_closed x = false -> ~ dr ->
  orders_inv S L P dr -> orders_inv (<[i := x]> S) (L ++ [i]) P dr.
Proof.
  intros Hi Hx Hdr [H1 H2 H3 H4 H5].
  assert (Hl : forall j, order_live (<[i := x]> S) j <-> order_live S j \/ j = i).
  { intros j. unfold order_live. destruct (decide (j = i)) as [->|].
    - rewrite lookup_insert_eq. naive_solver.
    - rewrite lookup_insert_ne by done. naive_solver. }
  assert (HPi : ~ P i) by (intros Hp; destruct (H4 i Hp); congruence).
  assert (HiL : i ∉ L) by (intros (? & _)%H2; destruct H; naive_solver congruence).
  constructor; [| | | | done].
  - apply NoDup_app. split; [done |]. split; [set_solver | apply NoDup_singleton].
  - intros j. rewrite elem_of_app, list_elem_of_singleton, Hl. intros [Hj | ->]; [destruct (H2 j Hj); auto | auto].
  - intros j. rewrite elem_of_app, list_elem_of_singleton, Hl. naive_solver.
  - intros j Hj. rewrite lookup_insert_is_Some'. auto.
Qed.

Lemma orders_cancel S L (P : nat -> Prop) (dr : Prop) i :
  is_Some (S !! i) -> orders_inv S L P dr -> orders_inv S (remove_first i L) (fun j => P j \/ j = i) dr.
Proof.
  intros Hi [H1 H2 H3 H4 H5]. constructor.
  - by apply remove_first_NoDup.
  - intros j [Hj Hne]%elem_of_remove_first; [| done]. destruct (H2 j Hj). naive_solver.
  - intros j Hl HP. apply elem_of_remove_first; [done |]. naive_solver.
  - intros j [? | ->]; auto.
  - intros Hd. by rewrite (H5 Hd).
Qed.

Lemma orders_clear S L (P : nat -> Prop) (dr dr' : Prop) :
  orders_inv S L P dr -> orders_inv S [] (fun j => P j \/ j ∈ L) dr'.
Proof.
  intros [H1 H2 H3 H4 H5]. constructor; [constructor | set_solver | naive_solver | | done].
  intros j [? | Hj]; [auto |]. destruct (H2 j Hj) as [(x & ? & _) _]. eauto.
Qed.

(** ** Steps *)
Section moves.
Context (t : nat) (p : pc D) (o : option (pc D)) (s s' : st D).
Hypothesis (Hp : calls s !! t = Some p) (Hm : moved t o s s').
Hypothesis (Hdr : keeps_drain p o s s' \/ orders s' = []).
Local Abbreviation next := (next_of order_doomed o).

Lemma order_drained L : orders_inv (osubs s') (orders s') L (drained s) -> orders_inv (osubs s') (orders s') L (drained s').
Proof using All.
  intros [H1 H2 H3 H4 H5]. constructor; [done.. |]. intros Hd.
  destruct Hdr as [Hk | ?]; [| done]. apply H5. by apply (drained_move t p o s s' Hp Hm Hk).
Qed.

Lemma order_same : (forall i, order_shape <$> osubs s !! i = order_shape <$> osubs s' !! i) ->
  orders s' = orders s -> next = order_doomed p -> order_inv s -> order_inv s'.
Proof using All.
  intros Hs Ho Hn Hi. apply order_drained. rewrite Ho. eapply orders_frame; [exact Hs | | | done | exact Hi].
  - intros i [? | Hj]%(pending_in_new _ _ _ _ _ Hp Hm); [done |]. rewrite Hn in Hj. exists t, p. done.
  - intros i _ [? | Hj]%(pending_in_old _ _ _ _ _ Hp Hm); [done |].
    apply (pending_in_next _ _ _ _ _ Hp Hm). by rewrite Hn.
Qed.

Lemma order_shut i : osubs s' = alter OrderSubscription_shutdown i (osubs s) ->
  orders s' = orders s -> order_doomed p = i :: next -> order_inv s -> order_inv s'.
Proof using All.
  intros Hs Ho Hn Hi. apply order_drained. rewrite Ho, Hs.
  assert (Hpi : order_pending s i) by (exists t, p; split; [done | rewrite Hn; apply list_elem_of_here]).
  eapply orders_frame; [done | | | done | by apply (orders_shut i)].
  - intros j [? | Hj]%(pending_in_new _ _ _ _ _ Hp Hm); [done |]. exists t, p. split; [done |]. rewrite Hn. by right.
  - intros j (x & Hx & Hc) [? | Hj]%(pending_in_old _ _ _ _ _ Hp Hm); [done |]. rewrite Hn in Hj.
    apply elem_of_cons in Hj as [-> | Hj]; [| by apply (pending_in_next _ _ _ _ _ Hp Hm)].
    rewrite lookup_alter_eq in Hx. destruct (osubs s !! i); naive_solver.
Qed.

(** The orders that leave the list become pending. *)
Lemma order_take (Q : nat -> Prop) : osubs s' = osubs s ->
  orders_inv (osubs s) (orders s') (fun j => order_pending s j \/ Q j) (drained s) ->
  order_doomed p = [] -> (forall j, j ∈ next <-> Q j) -> order_inv s'.
Proof using All.
  intros Hs Hi Hn Hin. apply order_drained. rewrite Hs. eapply orders_frame; [done | | | done | exact Hi].
  - intros j [? | Hj]%(pending_in_new _ _ _ _ _ Hp Hm); [by left | right]. by apply Hin.
  - intros j _ [Hj | Hj]; [| apply (pending_in_next _ _ _ _ _ Hp Hm); by apply Hin].
    apply (pending_in_old _ _ _ _ _ Hp Hm) in Hj as [? | Hj]; [done |]. rewrite Hn in Hj. by apply not_elem_of_nil in Hj.
Qed.
End moves.

Lemma order_added t a s s1 :
  subMu s = None /\ closed s = false \/ subMu s = Some t ->
  ctl_inv s -> order_inv s -> (exists p, calls s !! t = Some p /\ order_doomed p = [] /\ past_drain p = false) ->
  osubs s1 = osubs s -> orders s1 = orders s -> calls s1 = calls s -> close_once s1 = close_once s ->
  order_inv (add_order t a s1).
Proof.
  intros Hl Hc Hi (p & Hp & Hd & Hpd) Hs Ho Hcalls Hone.
  assert (Hnd : ~ drained s).
  { intros Hdr. destruct Hl as [[_ Hcl] | Hl].
    - apply drained_closed in Hdr; [congruence | done].
    - apply Hc in Hdr. congruence. }
  set (s' := add_order t a s1). set (i := fresh (dom (osubs s))).
  assert (Hs' : osubs s' = <[i := newOrderSubscription a]> (osubs s)) by (subst s' i; unfold add_order; proj; by rewrite Hs).
  assert (Ho' : orders s' = orders s ++ [i]) by (subst s' i; unfold add_order; proj; by rewrite Hs, Ho).
  assert (Hm : moved t None s s') by (subst s'; unfold moved, add_order; proj; by rewrite Hcalls).
  apply (order_drained t p None s); [done.. | left; left; by split |]. rewrite Hs', Ho'.
  apply orders_add; [by apply not_elem_of_dom, is_fresh | done | exact Hnd |].
  eapply (orders_frame _ _ _ _ _ (drained s)); [done | | | done | exact Hi].
  - intros j [? | Hj]%(pending_in_new _ _ _ _ _ Hp Hm); [done |]. by apply not_elem_of_nil in Hj.
  - intros j _ [? | Hj]%(pending_in_old _ _ _ _ _ Hp Hm); [done |]. rewrite Hd in Hj. by apply not_elem_of_nil in Hj.
Qed.

(** Every step keeps the order subscriptions. *)
Ltac keep_drain := first [left; left; by split | left; by right | by right].
Ltac move_order Hp :=
  first [ eapply (order_same _ _ None _ _ Hp); [reflexivity | keep_drain | reflexivity | reflexivity | reflexivity | done]
        | eapply (order_same _ _ (Some _) _ _ Hp); [reflexivity | keep_drain | reflexivity | reflexivity | reflexivity | done]
        | eapply (order_same _ _ (Some _) _ _ Hp); [reflexivity | keep_drain | assumption | reflexivity | reflexivity | done]
        | eapply (order_shut _ _ None _ _ Hp); [reflexivity | keep_drain | reflexivity | reflexivity | reflexivity | done]
        | eapply (order_shut _ _ (Some _) _ _ Hp); [reflexivity | keep_drain | reflexivity | reflexivity | reflexivity | done] ].

Lemma order_cancelled t i s :
  calls s !! t = Some (CancelOrders_lock i) -> order_inv s -> order_inv (cancel_orders_locked t i s).
Proof.
  intros Hp Hi. unfold cancel_orders_locked, order_isClosed.
  destruct (osubs s !! i) as [x|] eqn:Hx; simpl; [| by move_order Hp].
  destruct (o_closed x); [by move_order Hp |].
  case_match; eapply (order_take t _ (Some _) s _ Hp) with (Q := fun j => j = i);
    first [ reflexivity | keep_drain | apply orders_cancel; [eauto | exact Hi]
          | intros j; apply list_elem_of_singleton ].
Qed.

Lemma order_killed t s :
  calls s !! t = Some KillOrders_lock -> order_inv s -> order_inv (kill_orders_locked t s).
Proof.
  intros Hp Hi. unfold kill_orders_locked.
  eapply (order_take t _ (Some _) s _ Hp) with (Q := fun j => j ∈ orders s);
    first [reflexivity | keep_drain | by eapply orders_clear | done].
Qed.

Lemma order_closed t s :
  calls s !! t = Some Close_lock -> order_inv s -> order_inv (close_locked t s).
Proof.
  intros Hp Hi. unfold close_locked.
  eapply (order_take t _ (Some _) s _ Hp) with (Q := fun j => j ∈ orders s);
    first [reflexivity | keep_drain | by eapply orders_clear | done].
Qed.

Lemma thread_orders cf t p ch s s' :
  ctl_inv s -> ref_inv s -> calls s !! t = Some p ->
  thread_step cf ch t p s = Some s' -> order_inv s -> order_inv s'.
Proof.
  intros Hc Hr Hp Hst Hi.
  assert (Hadd : forall a s1, subMu s = None /\ closed s = false \/ subMu s = Some t ->
    order_doomed p = [] -> past_drain p = false -> osubs s1 = osubs s -> orders s1 = orders s ->
    calls s1 = calls s -> close_once s1 = close_once s -> order_inv (add_order t a s1)).
  { intros. eapply order_added; eauto. }
  destruct p; first
    [ simpl in Hst; unfold locked in Hst; repeat case_match; simplify_eq;
      first [ by apply order_cancelled | by apply order_killed | by apply order_closed ]
    | open_step Hst; frames; try dangling Hr Hp; try (by move_order Hp) ].
  - apply (Hadd account s); [by left | done..].
  - apply (Hadd account (w_tradeAccount account (w_tradeOn true (w_subMu None s)))); try done.
    right. apply Hc. eauto.
  - pose proof (closer_open _ _ _ Hc Hp eq_refl). congruence.
Qed.

Lemma order_frame s s' :
  calls s' = calls s -> close_once s' = close_once s -> orders s' = orders s ->
  (forall i, order_shape <$> osubs s !! i = order_shape <$> osubs s' !! i) -> order_inv s -> order_inv s'.
Proof.
  intros Hc Ho HL Hs Hi. unfold order_inv. rewrite HL. eapply orders_frame; [exact Hs | | | | exact Hi].
  - intros i. unfold order_pending, pending_in. by rewrite Hc.
  - intros i _. unfold order_pending, pending_in. by rewrite Hc.
  - unfold drained. by rewrite Hc, Ho.
Qed.

Lemma order_started t o rs s : calls s !! t = None -> (forall p, o = Some p -> order_doomed p = [] /\ past_drain p = false) ->
  order_inv s -> order_inv (started t o rs s).
Proof.
  intros Ht Hq Hi. pose proof (fun t' p => started_calls t o rs s t' p Ht) as Hcalls.
  eapply orders_frame; [done | | | | exact Hi].
  - intros i (t' & p & Hp & Hin). apply Hcalls in Hp as [Hp | [-> Ho]]; [by exists t', p |].
    destruct (Hq _ Ho) as [Hn _]. rewrite Hn in Hin. by apply not_elem_of_nil in Hin.
  - intros i _ (t' & p & Hp & Hin). exists t', p. rewrite Hcalls. auto.
  - intros [Hcl | (t' & p & Hp & Hd)]; [by left | right]. apply Hcalls in Hp as [Hp | [-> Ho]]; [eauto |].
    destruct (Hq _ Ho) as [_ Hn]. congruence.
Qed.

Lemma order_step cf s s' : inv s -> step cf s s' -> order_inv s -> order_inv s'.
Proof.
  intros (H1 & H2 & _) Hst Hi. destruct Hst as [t c Ht Hr | t p ch s' Hp Hst | e s' Hst | ch s' Hst | i | i |].
  - destruct (start_spec cf t c s) as [(o & rs & -> & Ho) | [Ho ->]].
    + apply order_started; [done | | done]. intros p Hp. destruct (Ho p Hp) as (_ & Hcl & _ & Hod & _).
      split; [done |]. destruct (past_drain p) eqn:Hd; [| done]. by rewrite past_drain_closer in Hcl.
    + assert (Hi' : order_inv (started t (Some Close_transport) (results s) s)).
      { apply order_started; [done | | done]. by intros p [= <-]. }
      eapply orders_frame; [done | by intros | by intros | | exact Hi']. intros [Hcl | Hd]; [done | by right].
  - by eapply thread_orders.
  - unfold drain_recv in Hst. repeat case_match; simplify_eq; by apply (order_frame s).
  - unfold drain_forward in Hst. destruct (drain s); simplify_eq.
    destruct (report_frame ch e s) as (q & d & b & -> & _). by apply (order_frame s).
  - by apply (order_frame s).
  - apply (order_frame s); [done..| | done]. intros j. simpl.
    destruct (decide (j = i)) as [->|]; [| by rewrite lookup_alter_ne].
    rewrite lookup_alter_eq. by destruct (osubs s !! i).
  - by apply (order_frame s).
Qed.

Lemma order_reachable cf s : reachable cf s -> order_inv s.
Proof.
  induction 1 as [|s s' Hr IH Hst].
  - constructor; [constructor | intros i Hi; by apply not_elem_of_nil in Hi | | | done].
    + intros i (x & Hx & _). by apply (f_equal is_Some) in Hx as Hx'.
    + intros i (t & p & Hp & _). by rewrite init_calls in Hp.
  - eapply order_step; [by eapply inv_reachable | done..].
Qed.
End orders.
