(* ===== verification/PushOrchProps.v ===== *)
(** What the push orchestration guarantees in every interleaving of its calls,
    and the races its locking leaves open. *)
From S2P Require Import Prelude Chan Types Errs Domain PushKeys PushOrch PushOrchInv PushOrchStep PushOrchSafe PushOrchData PushOrchOrders.

(** ** [Close] closes the transport *)
Section transport.
Context {D : Type} (cf : config).
Implicit Types s : st D.

Definition transport_inv s : Prop :=
  cf_transport cf = true -> close_once s <> NotClosed ->
  TransportClose ∈ log s \/ exists t, calls s !! t = Some Close_transport.

Lemma thread_log t p ch s s' :
  ref_inv s -> calls s !! t = Some p -> thread_step cf ch t p s = Some s' -> log s `prefix_of` log s'.
Proof.
  intros Hr Hp Hst. destruct p; open_step Hst; frames; try dangling Hr Hp.
  all: proj; first [done | by apply prefix_app_r].
Qed.

Lemma transport_thread t p ch s s' :
  ctl_inv s -> ref_inv s -> calls s !! t = Some p -> thread_step cf ch t p s = Some s' ->
  transport_inv s -> transport_inv s'.
Proof.
  intros Hc Hr Hp Hst Hi Htr Hone. destruct (thread_ctl cf t p ch s s' Hc Hr Hp Hst) as (o & Hm & Hs & _).
  destruct (ctl_thread_flags cf t p o s s' Hc Hp Hm Hs) as (_ & _ & Hfl).
  assert (Hone' : close_once s <> NotClosed).
  { destruct Hfl as [[_ <-] | (_ & _ & Hcl & _)]; [done |]. by rewrite (ci_closer _ Hc _ _ Hp Hcl). }
  destruct (Hi Htr Hone') as [Hin | [t' Ht']].
  - left. eapply elem_of_prefix; [exact Hin | by eapply thread_log].
  - destruct (decide (t' = t)) as [->|Hne].
    + left. rewrite Hp in Ht'. injection Ht' as ->. simpl in Hst. rewrite Htr in Hst.
      injection Hst as <-. simpl. apply elem_of_app. right. apply list_elem_of_here.
    + right. exists t'. by rewrite (moved_other _ _ _ _ _ Hm Hne).
Qed.

Lemma transport_step s s' : inv s -> step cf s s' -> transport_inv s -> transport_inv s'.
Proof.
  intros (H1 & H2 & _) Hst Hi. destruct Hst as [t c Ht Hr | t p ch s' Hp Hst | e s' Hst | ch s' Hst | i | i |];
    try done.
  - destruct (start_spec cf t c s) as [(o & rs & -> & Ho) | [Ho ->]].
    + intros Htr Hone. destruct (Hi Htr Hone) as [? | [t' Ht']]; [by left | right].
      exists t'. apply (started_calls t o rs s t' _ Ht). by left.
    + intros _ _. right. exists t. apply lookup_insert_eq.
  - by eapply transport_thread.
  - unfold drain_recv in Hst. repeat case_match; simplify_eq; exact Hi.
  - unfold drain_forward in Hst. destruct (drain s); simplify_eq.
    destruct (report_frame ch e s) as (q & d & b & -> & _). exact Hi.
Qed.

Lemma transport_closed s : reachable cf s -> close_once s = Closed -> cf_transport cf = true ->
  TransportClose ∈ log s.
Proof.
  intros Hr Ho Htr. assert (Hi : transport_inv s).
  { clear Ho Htr. induction Hr as [|s s' Hr IH Hst]; [by intros _ |]. eapply transport_step; [| done..].
    by eapply inv_reachable. }
  destruct (Hi Htr) as [? | [t Ht]]; [by rewrite Ho | done |].
  pose proof (inv_reachable cf s Hr) as (Hc & _). pose proof (ci_closer _ Hc _ _ Ht eq_refl). congruence.
Qed.
End transport.

(** ** Guarantees *)
Section props.
Context {D : Type} (cf : config) (s : st D).

Lemma no_calls_pending (f : pc D -> list nat) i : calls s = ∅ -> ~ pending_in f s i.
Proof. intros Hc (t & p & Hp & _). by rewrite Hc, lookup_empty in Hp. Qed.

(** When [Close] has returned an open subscription waits for the call that took
    it out of the registry, or is an orphan. *)
Lemma closed_or_pending : reachable cf s -> all_keyed s -> close_once s = Closed ->
  forall i x, subs s !! i = Some x -> s_closed x = true \/ pending s i \/ i ∈ orphans s.
Proof.
  intros Hr Hk Ho i x Hx. pose proof (inv_reachable cf s Hr) as (_ & _ & _ & Hreg).
  destruct (Hreg Hk) as [_ Hi]. assert (Hd : drained s) by (by left).
  destruct (ii_drained _ _ _ _ _ _ _ Hi Hd) as [HE _].
  destruct (s_closed x) eqn:Hcl; [by left | right].
  destruct (decide (pending_in doomed_of s i)) as [HP|HP]; [by left | right].
  assert (Hl : live (subs s) i) by (by exists x).
  destruct (ii_registered _ _ _ _ _ _ _ Hi i Hl HP) as [? | (y & en & e & _ & HE' & _)]; [done |].
  by rewrite HE, lookup_empty in HE'.
Qed.

Lemma orders_closed_or_pending : reachable cf s -> close_once s = Closed ->
  forall i x, osubs s !! i = Some x -> o_closed x = true \/ order_pending s i.
Proof.
  intros Hr Ho i x Hx. assert (Hd : drained s) by (by left).
  destruct (order_reachable cf s Hr) as [_ _ Hlive _ Hempty].
  destruct (o_closed x) eqn:Hcl; [by left | right].
  destruct (decide (pending_in order_doomed s i)) as [HP|HP]; [done |].
  assert (Hin : i ∈ orders s) by (apply Hlive; [by exists x | done]).
  rewrite (Hempty Hd) in Hin. by apply not_elem_of_nil in Hin.
Qed.

(** In every interleaving nothing is sent to the error stream after it is
    closed and it is closed once; it never holds more than 64 errors, and no
    subscription more updates than its buffer. *)
Theorem push_orch_no_panic :
  (0 < cf_buffer cf)%nat -> reachable cf s ->
  panicked s = false /\ (length (errc s) <= 64)%nat /\ (errc_closed s = true -> closed s = true)
  /\ (forall i x, subs s !! i = Some x -> (length (s_updates x) <= cf_buffer cf)%nat)
  /\ (forall i x, osubs s !! i = Some x -> (length (o_updates x) <= cf_buffer cf)%nat).
Proof.
  intros Hcap Hr. pose proof (inv_reachable cf s Hr) as (Hc & _).
  destruct (data_ok_reachable cf Hcap s Hr) as [Hs Ho].
  split; [apply Hc |]. split; [apply (ci_errc _ Hc) |]. split; [| split].
  - intros He. pose proof (ci_once _ Hc) as Hone. destruct (close_once s); naive_solver congruence.
  - intros i x Hx. apply (so_queue _ _ (Hs i x Hx)).
  - intros i x Hx. apply (Ho i x Hx).
Qed.


(** C6: When [Close] has returned, the transport has been closed (if there is
    one), the error stream is closed, nothing is registered or indexed, and no
    subscribe request is under way. The channel of a subscription is then closed,
    with two exceptions: a subscription that a cancel or a kill still under way
    took out of the registry before, whose channel that call closes; and an
    orphan of a kill, whose channel may stay open for good. Once every call has
    returned only the orphans are left, and the channel of every order
    subscription is closed. *)
Theorem push_orch_close_complete :
  reachable cf s -> all_keyed s -> close_once s = Closed ->
  (cf_transport cf = true -> TransportClose ∈ log s)
  /\ errc_closed s = true /\ entries s = ∅ /\ byKey s = ∅ /\ orders s = [] /\ subMu s = None
  /\ (forall i x, subs s !! i = Some x -> s_closed x = true \/ pending s i \/ i ∈ orphans s)
  /\ (forall i x, osubs s !! i = Some x -> o_closed x = true \/ order_pending s i)
  /\ (calls s = ∅ ->
       (forall i x, subs s !! i = Some x -> s_closed x = true \/ i ∈ orphans s)
       /\ forall i x, osubs s !! i = Some x -> o_closed x = true).
Proof.
  intros Hr Hk Ho. pose proof (inv_reachable cf s Hr) as (Hc & _ & _ & Hreg).
  destruct (Hreg Hk) as [_ Hi]. assert (Hd : drained s) by (by left).
  destruct (order_reachable cf s Hr) as [_ _ _ _ Hempty].
  destruct (ii_drained _ _ _ _ _ _ _ Hi Hd) as [HE HB].
  pose proof (ci_once _ Hc) as Hone. rewrite Ho in Hone.
  pose proof (closed_or_pending Hr Hk Ho) as Hs. pose proof (orders_closed_or_pending Hr Ho) as Hos.
  split; [by apply transport_closed |]. split; [apply Hone |].
  do 2 (split; [done |]). split; [by apply Hempty |]. split; [by apply Hc |].
  split; [exact Hs |]. split; [exact Hos |]. intros Hcalls. split.
  - intros i x Hx. destruct (Hs i x Hx) as [? | [Hp | ?]]; [by left | | by right].
    by destruct (no_calls_pending doomed_of i Hcalls).
  - intros i x Hx. destruct (Hos i x Hx) as [? | Hp]; [done |].
    by destruct (no_calls_pending order_doomed i Hcalls).
Qed.
End props.

Section accounting.
Context {D : Type} (cf : config) (s : st D).

(** C7: A subscription hands its consumer what it accepted, in order and each
    update at most once, the newest always included. Whatever the consumer takes while a
    full channel is being emptied, [Dropped] is at least the number of updates
    lost; [OutOfOrder] is exactly the number of accepted frames stamped earlier than a frame
    accepted before them, and the stamp the next frame is compared with is the
    newest one (counters modulo 2^64). *)
Theorem push_orch_accounting (i : nat) (x : Subscription D) :
  (0 < cf_buffer cf)%nat -> reachable cf s -> subs s !! i = Some x ->
  (s_taken x ++ s_updates x) `sublist_of` s_accepted x
  /\ last (s_taken x ++ s_updates x) = last (s_accepted x)
  /\ (exists full : nat, s_dropped x = uwrap 64 (Z.of_nat full)
       /\ (length (s_accepted x) - length (s_taken x ++ s_updates x) <= full <= length (s_accepted x))%nat)
  /\ s_outOfOrder x = uwrap 64 (Z.of_nat (late_frames [] (s_accepted x)))
  /\ s_lastWire x = newest 0 (s_accepted x).
Proof.
  intros Hcap Hr Hx. destruct (data_ok_reachable cf Hcap s Hr) as [Hs _].
  destruct (Hs i x Hx) as [[_ H1 H2 (n & H3 & H4 & H5)] H6 H7].
  split; [done |]. split; [done |]. split; [exists n; split; [done | lia] | done].
Qed.
End accounting.

(** ** Races *)
Definition both : config := mkConfig true true true 64.
Definition accepted_reply : choice := mkChoice 1 0 0 None.
Definition refused_reply : choice := mkChoice 1 0 0 (Some (EText "refused")).
Definition tencent : Security := mkSecurity 10000 "00700.HK".

(** [n] steps of the call [t], each reply accepting. *)
Definition steps {D} (n t : nat) : list (event D) := repeat (Run t accepted_reply) n.

Section races.
Context {D : Type}.

Definition after (evs : list (event D)) : st D := default (init true) (exec both evs (init true)).

Lemma after_reachable evs : is_Some (exec both evs (init (D := D) true)) -> reachable both (after evs).
Proof. intros [s Hs]. unfold after. rewrite Hs. eapply exec_reachable; [constructor | exact Hs]. Qed.

(** The reconnect hook has sent the re-subscribe of an entry; its last
    subscription is cancelled, a new one is made of the same key, and the
    re-subscribe is refused. *)
Definition kill_race : list (event D) :=
  [Start 0 (CSubscribe TopicBasicQot [Some tencent])] ++ steps 2 0
  ++ [Start 1 (CReconnect None)] ++ steps 3 1
  ++ [Start 2 (CCancel 0)] ++ steps 4 2
  ++ [Start 3 (CSubscribe TopicBasicQot [Some tencent])] ++ steps 2 3
  ++ [Run 1 refused_reply] ++ steps 4 1.

Definition quote : PushUpdate D := mkPushUpdate BasicQotNotifyMsgType "00700" 0 (Some (System_ (mkSystemEvent "" "" ""))).

(** A kill of an old entry can hit a new subscription: the call returned it
    and it is live, but its registry entry is gone and the Gateway has been told to unsubscribe, so no
    reconnect renews it; [Close] leaves its channel open for good; and when it is
    cancelled instead, it stays in the routing index, so that later updates of
    its instrument are neither delivered nor counted as unrouted. *)
Theorem push_orch_kill_race :
  let s := after kill_race in
  let closed := after (kill_race ++ [Start 4 CClose; StopDrain] ++ steps 5 4) in
  let cancelled := after (kill_race ++ [Start 4 (CCancel 1)] ++ steps 2 4
                          ++ [Start 5 (CUpdate (Some quote))] ++ steps 3 5) in
  reachable both s /\ calls s = ∅ /\ results s !! 3%nat = Some (RSubscription 1)
  /\ live (subs s) 1 /\ market_targets quote s = [1%nat] /\ entries s = ∅ /\ resubscribe_keys s = []
  /\ last (log s) = Some (HqUnsubscribe TopicBasicQot [tencent])
  /\ reachable both closed /\ calls closed = ∅ /\ close_once closed = Closed /\ live (subs closed) 1
  /\ reachable both cancelled /\ calls cancelled = ∅ /\ ~ live (subs cancelled) 1
  /\ market_targets quote cancelled = [1%nat] /\ unrouted cancelled = 0.
Proof.
  intros s closed cancelled.
  split; [apply after_reachable; vm_compute; eauto |].
  do 7 (split; [first [vm_compute; reflexivity | vm_compute; eexists; split; reflexivity] |]).
  split; [apply after_reachable; vm_compute; eauto |].
  do 3 (split; [first [vm_compute; reflexivity | vm_compute; eexists; split; reflexivity] |]).
  split; [apply after_reachable; vm_compute; eauto |].
  split; [vm_compute; reflexivity |]. split; [| split; vm_compute; reflexivity].
  intros (x & Hx & Hc). revert Hc. vm_compute in Hx. injection Hx as <-. discriminate.
Qed.

(** The last subscription of a key is cancelled; before its unsubscribe is sent a
    new one is made. *)
Definition unsubscribe_race : list (event D) :=
  [Start 0 (CSubscribe TopicBasicQot [Some tencent])] ++ steps 2 0
  ++ [Start 1 (CCancel 0)] ++ steps 2 1
  ++ [Start 2 (CSubscribe TopicBasicQot [Some tencent])] ++ steps 2 2
  ++ steps 2 1.

(** One of two order subscriptions is cancelled by two goroutines. *)
Definition double_cancel : list (event D) :=
  [Start 0 (CSubscribeOrders "A")] ++ steps 2 0 ++ [Start 1 (CSubscribeOrders "A")] ++ steps 1 1
  ++ [Start 2 (CCancelOrders 0); Start 3 (CCancelOrders 0)] ++ steps 1 2 ++ steps 4 3 ++ steps 1 2.

(** The request that turns a feed off is sent after the lock is released, so
    a live, registered subscription can be left without its feed and without
    any error: a market subscription made while the last one of its key is being cancelled, whose
    subscribe is followed by the older unsubscribe; and an order
    subscription when another one is cancelled twice at once, since both calls
    count themselves off. *)
Theorem push_orch_feed_races :
  let m := after unsubscribe_race in
  let o := after double_cancel in
  reachable both m /\ calls m = ∅ /\ results m !! 2%nat = Some (RSubscription 1)
  /\ live (subs m) 1 /\ registered (subs m) (heap m) (entries m) 1 /\ market_targets quote m = [1%nat]
  /\ log m = [HqSubscribe TopicBasicQot [tencent]; HqSubscribe TopicBasicQot [tencent];
              HqUnsubscribe TopicBasicQot [tencent]]
  /\ errc m = []
  /\ reachable both o /\ calls o = ∅ /\ results o !! 1%nat = Some (ROrders 1)
  /\ order_live (osubs o) 1 /\ orders o = [1%nat] /\ tradeOn o = false
  /\ log o = [TradeSubscribe "A"; TradeUnsubscribe "A"] /\ errc o = [].
Proof.
  intros m o. split; [apply after_reachable; vm_compute; eauto |].
  do 3 (split; [first [vm_compute; reflexivity | vm_compute; eexists; split; reflexivity] |]).
  split; [eexists _, 1%nat, _; split; [vm_compute; reflexivity |]; split; [vm_compute; reflexivity |];
          split; [vm_compute; reflexivity | apply list_elem_of_here] |].
  do 3 (split; [vm_compute; reflexivity |]).
  split; [apply after_reachable; vm_compute; eauto |].
  do 3 (split; [first [vm_compute; reflexivity | vm_compute; eexists; split; reflexivity] |]).
  repeat split; vm_compute; reflexivity.
Qed.
End races.

(** ** Witnesses *)
Definition one_update : list (event unit) :=
  [Start 0 (CSubscribe TopicBasicQot [Some tencent])] ++ steps 2 0
  ++ [Start 1 (CUpdate (Some quote))] ++ steps 3 1.

Definition one_closed : list (event unit) := one_update ++ [Start 2 CClose; StopDrain] ++ steps 6 2.

Lemma keyed_after (evs : list (event unit)) :
  bool_decide (map_Forall (fun _ x => keyed (s_securities x)) (subs (after evs))) = true ->
  all_keyed (after evs).
Proof. intros H i x Hx. apply bool_decide_eq_true in H. by apply (H i x). Qed.

Lemma one_update_reachable : reachable both (after one_update).
Proof. apply after_reachable. vm_compute. eauto. Qed.

Lemma one_closed_reachable : reachable both (after one_closed).
Proof. apply after_reachable. vm_compute. eauto. Qed.

Lemma push_orch_no_panic_witness : panicked (after one_closed) = false.
Proof. apply (push_orch_no_panic both (after one_closed)); [simpl; lia | apply one_closed_reachable]. Defined.


Lemma push_orch_close_complete_witness :
  exists x, subs (after one_closed) !! 0%nat = Some x /\ TransportClose ∈ log (after one_closed)
    /\ s_updates x = [quote].
Proof.
  eexists. split; [vm_compute; reflexivity |]. split; [| reflexivity].
  apply (push_orch_close_complete both (after one_closed)).
  - apply one_closed_reachable.
  - apply keyed_after. vm_compute. reflexivity.
  - vm_compute. reflexivity.
  - reflexivity.
Defined.

Lemma push_orch_accounting_witness :
  exists x, subs (after one_update) !! 0%nat = Some x /\ s_updates x = [quote]
    /\ last (s_taken x ++ s_updates x) = last (s_accepted x).
Proof.
  eexists. split; [vm_compute; reflexivity |]. split; [reflexivity |].
  apply (push_orch_accounting both (after one_update) 0); [simpl; lia | apply one_update_reachable |].
  vm_compute. reflexivity.
Defined.
