(* ===== verification/PushOrchLive.v ===== *)
(** Every call of the push orchestration returns, once the Gateway answers the
    requests and the calls under way are scheduled: while one is under way some
    call can take a step, and no sequence of such steps is infinite. *)
From stdpp Require Import sorting.
From S2P Require Import Prelude Chan Types Errs Domain PushKeys PushOrch PushOrchInv PushOrchStep PushOrchSafe PushOrchData PushOrchOrders PushOrchProps.

(** ** Sums over a map *)
Section total.
Context {A : Type}.
Implicit Types (m : gmap nat A) (f : A -> nat).

Definition total f m : nat := map_fold (fun _ x n => f x + n)%nat 0%nat m.

Lemma total_fresh f m i x : m !! i = None -> total f (<[i := x]> m) = (f x + total f m)%nat.
Proof. intros Hi. unfold total. rewrite map_fold_insert_L; [done | intros; lia | done]. Qed.

Lemma total_delete f m i x : m !! i = Some x -> total f m = (f x + total f (delete i m))%nat.
Proof.
  intros Hi. rewrite <- (insert_delete_id m i x Hi) at 1. apply total_fresh, lookup_delete_eq.
Qed.

Lemma total_insert f m i x y : m !! i = Some y -> (total f (<[i := x]> m) + f y = total f m + f x)%nat.
Proof.
  intros Hi. rewrite <- (insert_delete_eq m i x), total_fresh by apply lookup_delete_eq.
  rewrite (total_delete f m i y Hi). lia.
Qed.

Lemma total_lookup f m i x : m !! i = Some x -> (f x <= total f m)%nat.
Proof. intros Hi. rewrite (total_delete f m i x Hi). lia. Qed.

Lemma total_le f g m m' : dom m' = dom m ->
  (forall i x', m' !! i = Some x' -> exists x, m !! i = Some x /\ (f x' <= g x)%nat) ->
  (total f m' <= total g m)%nat.
Proof.
  revert m'. induction m as [|i x m Hi IH] using map_ind; intros m' Hd Hle.
  - rewrite dom_empty_L in Hd. apply dom_empty_inv_L in Hd as ->. done.
  - assert (Hi' : is_Some (m' !! i)) by (apply elem_of_dom; rewrite Hd, dom_insert_L; set_solver).
    destruct Hi' as [x' Hx']. rewrite (total_delete f m' i x' Hx'), total_fresh by done.
    destruct (Hle i x' Hx') as (x0 & Hx0 & Hl). rewrite lookup_insert_eq in Hx0. injection Hx0 as <-.
    assert (total f (delete i m') <= total g m)%nat; [| lia]. apply IH.
    + rewrite dom_delete_L, Hd, dom_insert_L. apply not_elem_of_dom in Hi. set_solver.
    + intros j y [Hne Hy]%lookup_delete_Some. destruct (Hle j y Hy) as (y0 & Hy0 & ?).
      rewrite lookup_insert_ne in Hy0 by done. eauto.
Qed.

Lemma total_mono f g m : (forall x, f x <= g x)%nat -> (total f m <= total g m)%nat.
Proof. intros Hle. apply total_le; [done |]. eauto. Qed.
End total.

Lemma size_dom_eq {A} (m m' : gmap nat A) : dom m' = dom m -> size m' = size m.
Proof. intros Hd. by rewrite <- !size_dom, Hd. Qed.

Lemma size_sub_map {A} (m m' : gmap string A) :
  (forall k x, m' !! k = Some x -> m !! k = Some x) -> (size m' <= size m)%nat.
Proof. intros Hs. rewrite <- !size_dom. apply subseteq_size. intros k. rewrite !elem_of_dom. intros [x Hx]. eauto. Qed.

(** ** The measure *)
Section measure.
Context {D : Type}.
Implicit Types (s : st D) (p : pc D) (o : option (pc D)) (K : nat).
Open Scope nat_scope.

(** What the calls under way may still add to the heaps. *)
Definition adds p : nat :=
  match p with
  | Subscribe_lock _ _ _ | Subscribe_sent _ _ _ => 4
  | Orders_lock _ | Orders_sent _ => 1
  | _ => 0
  end.

Definition heap_size s : nat :=
  size (subs s) + size (osubs s) + size (heap s) + size (entries s)
  + total (fun e => length (e_subs e)) (heap s).

(** A bound that no step raises on every list a call walks through. *)
Definition bound s : nat := heap_size s + total adds (calls s).

Definition resub_weight K (keys : list nat) (trade : option string) : nat :=
  length keys * (K + 5) + (match trade with Some _ => K + 5 | None => 0 end) + 1.

Definition weight K p : nat :=
  match p with
  | Subscribe_lock _ _ _ | Orders_lock _ => 3
  | Subscribe_sent _ _ _ | Orders_sent _ => 2
  | Cancel_lock _ | CancelOrders_lock _ => 4
  | Cancel_shut _ _ | CancelOrders_shut _ _ _ => 3
  | Cancel_send _ | CancelOrders_send _ => 2
  | Cancel_sent _ | CancelOrders_sent _ => 1
  | Reconnect_report _ => K * (K + 5) + K + 8
  | Resubscribe_lock => K * (K + 5) + K + 7
  | Resubscribe_next keys trade => resub_weight K keys trade
  | Resubscribe_sent _ keys trade => resub_weight K keys trade + K + 4
  | Kill_lock _ keys trade => resub_weight K keys trade + K + 3
  | Kill_shut doomed _ keys trade => resub_weight K keys trade + length doomed + 2
  | Kill_sent _ keys trade => resub_weight K keys trade + 1
  | ResubscribeTrade_sent _ => K + 4
  | KillOrders_lock => K + 3
  | KillOrders_shut doomed => length doomed + 1
  | Dispatch_market _ => 3 * K + 5
  | Dispatch_trade _ => 2 * K + 2
  | Deliver _ targets => 3 * length targets + 1
  | Deliver_stamp _ _ targets => 3 * length targets + 3
  | Deliver_report _ _ targets => 3 * length targets + 2
  | DeliverOrders _ targets => 2 * length targets + 1
  | DeliverOrders_report _ _ targets => 2 * length targets + 2
  | Unrouted_record _ => 3
  | Unrouted_report _ => 2
  | Close_transport => K * K + K + 5
  | Close_wait => K * K + K + 4
  | Close_lock => K * K + K + 3
  | Close_shut markets os => length markets + length os + 2
  | Close_errc | Close_blocked => 1
  end.

Definition weight_next K o : nat := from_option (weight K) 0 o.
Definition adds_next o : nat := from_option adds 0 o.

Definition drain_weight s : nat :=
  match drain s with Forwarding _ => 2 | Draining => 1 | _ => 0 end.

Definition measure s : nat := total (weight (bound s)) (calls s) + drain_weight s.

Lemma weight_mono K K' p : K <= K' -> weight K p <= weight K' p.
Proof.
  intros HK. destruct p; simpl; unfold resub_weight; try lia; try nia;
    repeat match goal with |- context [match ?t with Some _ => _ | None => _ end] => destruct t end; nia.
Qed.

Lemma total_moved (f : pc D -> nat) t p o s s' : calls s !! t = Some p -> moved t o s s' ->
  total f (calls s') + f p = total f (calls s) + from_option f 0 o.
Proof.
  unfold moved. intros Hp ->. destruct o as [p'|]; simpl.
  - by apply total_insert.
  - rewrite (total_delete f (calls s) t p Hp). lia.
Qed.

(** A step that moves a call down and adds no more than it had announced. *)
Lemma measure_moved t p o s s' :
  calls s !! t = Some p -> moved t o s s' -> drain s' = drain s ->
  heap_size s' + adds_next o <= heap_size s + adds p ->
  weight_next (bound s) o < weight (bound s) p -> measure s' < measure s.
Proof.
  intros Hp Hm Hd Hh Hw. assert (HK : bound s' <= bound s).
  { pose proof (total_moved adds t p o s s' Hp Hm). unfold bound, adds_next in *. lia. }
  pose proof (total_moved (weight (bound s)) t p o s s' Hp Hm) as Ht.
  pose proof (total_mono (weight (bound s')) (weight (bound s)) (calls s') (fun x => weight_mono _ _ x HK)).
  unfold measure, drain_weight, weight_next in *. rewrite Hd. lia.
Qed.

(** ** The lists a call walks through *)
Lemma subs_bound en e s : heap s !! en = Some e -> length (e_subs e) <= bound s.
Proof.
  intros He. pose proof (total_lookup (fun e => length (e_subs e)) _ _ _ He). unfold bound, heap_size. lia.
Qed.

Lemma NoDup_bound {A} (l : list nat) (m : gmap nat A) :
  NoDup l -> (forall i, i ∈ l -> is_Some (m !! i)) -> length l <= size m.
Proof.
  intros Hnd Hin. rewrite <- size_dom, <- (size_list_to_set (C := gset nat) l Hnd).
  apply subseteq_size. intros i. rewrite elem_of_list_to_set, elem_of_dom. apply Hin.
Qed.

Lemma targets_bound u s : ref_inv s -> length (market_targets u s) <= bound s.
Proof.
  intros Hr. assert (length (market_targets u s) <= size (subs s)).
  { apply NoDup_bound; [apply NoDup_distinct |]. intros i. unfold market_targets.
    rewrite elem_of_distinct, list_elem_of_bind. intros [(k & Hk & _) _]. by apply (ri_bucket _ Hr k). }
  unfold bound, heap_size. lia.
Qed.

Lemma orders_bound s : order_inv s -> length (orders s) <= bound s.
Proof.
  intros [Hnd Hin _ _ _]. assert (length (orders s) <= size (osubs s)).
  { apply NoDup_bound; [done |]. intros i Hi. destruct (Hin i Hi) as [(x & ? & _) _]. eauto. }
  unfold bound, heap_size. lia.
Qed.

Lemma keys_bound s : length (resubscribe_keys s) <= bound s.
Proof.
  assert (length (resubscribe_keys s) <= size (entries s)).
  { unfold resubscribe_keys. rewrite length_fmap, merge_sort_Permutation, length_fmap.
    etrans; [apply length_filter |]. by rewrite length_fmap, length_map_to_list. }
  unfold bound, heap_size. lia.
Qed.

Lemma markets_bound s :
  length ((map_to_list (entries s)).*2 ≫= fun en => entry_subs en s) <= bound s * bound s.
Proof.
  assert (Hl : forall l : list nat, length (l ≫= fun en => entry_subs en s) <= length l * bound s).
  { induction l as [|en l IH]; [done |]. rewrite bind_cons, length_app, length_cons.
    assert (length (entry_subs en s) <= bound s); [| nia]. unfold entry_subs.
    destruct (heap s !! en) as [e|] eqn:He; simpl; [by eapply subs_bound | lia]. }
  etrans; [apply Hl |]. rewrite length_fmap, length_map_to_list. apply Nat.mul_le_mono_r.
  unfold bound, heap_size. lia.
Qed.
End measure.

(** ** Every step of a call lowers the measure *)
Lemma size_alter {A} (f : A -> A) i (m : gmap nat A) : size (alter f i m) = size m.
Proof. apply size_dom_eq, dom_alter_L. Qed.

Lemma size_fresh {A} (m : gmap nat A) x : size (<[fresh (dom m) := x]> m) = S (size m).
Proof. apply map_size_insert_None, not_elem_of_dom, is_fresh. Qed.

Lemma size_known {A} (m : gmap nat A) i x y : m !! i = Some y -> size (<[i := x]> m) = size m.
Proof. intros Hi. apply size_dom_eq, dom_insert_lookup_L. eauto. Qed.

Lemma size_insert_le {A} (m : gmap string A) k x : (size (<[k := x]> m) <= S (size m))%nat.
Proof. rewrite map_size_insert. case_match; simpl; lia. Qed.

Lemma size_delete_le {A} (m : gmap string A) k : (size (delete k m) <= size m)%nat.
Proof. rewrite map_size_delete. case_match; simpl; lia. Qed.

Lemma size_shape {A B} (f : A -> B) (m m' : gmap nat A) :
  (forall i, f <$> m !! i = f <$> m' !! i) -> size m' = size m.
Proof.
  intros Hs. apply size_dom_eq. apply set_eq. intros i. rewrite !elem_of_dom. specialize (Hs i).
  destruct (m !! i), (m' !! i); naive_solver.
Qed.

Section live.
Context {D : Type} (cf : config).
Implicit Types (s : st D) (p : pc D).
Open Scope nat_scope.

Ltac sizes :=
  unfold heap_size; proj;
  repeat match goal with
  | |- context [size (alter ?f ?i ?m)] => rewrite (size_alter f i m)
  | |- context [size (<[fresh (dom ?m) := ?x]> ?m)] => rewrite (size_fresh m x)
  | H : heap ?s !! ?i = Some ?y |- context [size (<[?i := ?x]> (heap ?s))] =>
      rewrite (size_known (heap s) i x y H); pose proof (total_insert (fun e => length (e_subs e)) (heap s) i x y H)
  | |- context [total ?f (<[fresh (dom ?m) := ?x]> ?m)] =>
      rewrite (total_fresh f m (fresh (dom m)) x) by (apply not_elem_of_dom, is_fresh)
  | |- context [size (<[?k := ?x]> (entries ?s))] =>
      pose proof (size_insert_le (entries s) k x); generalize dependent (size (<[k := x]> (entries s))); intros
  | |- context [size (delete ?k (entries ?s))] =>
      pose proof (size_delete_le (entries s) k); generalize dependent (size (delete k (entries s))); intros
  | H : forall i, shape <$> _ !! i = shape <$> ?m !! i |- context [size ?m] => rewrite (size_shape shape _ m H)
  | H : forall i, order_shape <$> _ !! i = order_shape <$> ?m !! i |- context [size ?m] =>
      rewrite (size_shape order_shape _ m H)
  end.

Ltac lower Hp :=
  first [ eapply (measure_moved _ _ None _ _ Hp); [reflexivity | reflexivity | |]
        | eapply (measure_moved _ _ (Some _) _ _ Hp); [reflexivity | reflexivity | |] ].

Lemma thread_lowers t p ch s s' :
  ctl_inv s -> ref_inv s -> order_inv s -> calls s !! t = Some p ->
  thread_step cf ch t p s = Some s' -> measure s' < measure s.
Proof.
  intros Hc Hr Ho Hp Hst.
  destruct p; open_step Hst; frames; try dangling Hr Hp; try lower Hp.
  all: try (sizes; simpl; rewrite ?length_app; simpl; lia).
  all: try (simpl; unfold resub_weight; simpl; lia).
  - sizes. simpl in *. rewrite length_app in *. simpl in *. lia.
  - sizes. simpl. rewrite (size_dom_eq (heap s) x0) by done.
    pose proof (size_sub_map (entries s) x1 ltac:(done)).
    pose proof (total_le (fun e => length (e_subs e)) (fun e => length (e_subs e)) (heap s) x0 ltac:(done) ltac:(done)).
    lia.
  - pose proof (keys_bound s). simpl. unfold resub_weight. nia.
  - pose proof (keys_bound s). simpl. unfold resub_weight. nia.
  - pose proof (subs_bound e p s ltac:(done)). simpl. lia.
  - pose proof (orders_bound s Ho). simpl. lia.
  - pose proof (targets_bound u s Hr) as Hl. match goal with H : market_targets u s = _ |- _ => rewrite H in Hl end.
    simpl in *. lia.
  - pose proof (orders_bound s Ho). simpl. lia.
  - sizes. rewrite map_size_empty. simpl. lia.
  - pose proof (markets_bound s). pose proof (orders_bound s Ho). simpl. lia.
  - pose proof (closer_open _ _ _ Hc Hp eq_refl). congruence.
Qed.

(** ** A call under way can always take a step *)
Record close_inv s : Prop := {
  li_blocked t : calls s !! t = Some Close_blocked -> close_once s <> NotClosed;
  li_closer : close_once s = Closing -> exists t p, calls s !! t = Some p /\ closer p = true;
}.

Lemma thread_not_blocked t p ch s s' :
  ref_inv s -> calls s !! t = Some p -> thread_step cf ch t p s = Some s' -> panicked s' = panicked s ->
  calls s' !! t <> Some Close_blocked.
Proof.
  intros Hr Hp Hst. destruct p; open_step Hst; frames; try dangling Hr Hp.
  all: proj; rewrite ?lookup_insert_eq, ?lookup_delete_eq; try discriminate.
  all: congruence.
Qed.

Lemma start_blocked t c s : calls s !! t = None -> calls (start cf t c s) !! t = Some Close_blocked ->
  close_once s = Closing.
Proof.
  intros Ht. assert (Hg : forall r, (forall p, r = inl p -> p <> Close_blocked) ->
    calls (goto t r s) !! t = Some Close_blocked -> close_once s = Closing).
  { intros [p|r] Hne; simpl; rewrite ?lookup_insert_eq, ?lookup_delete_eq; [| done].
    intros [= ->]. by destruct (Hne Close_blocked). }
  destruct c; simpl; try (apply Hg).
  - unfold Subscribe. intros p. repeat case_match; by intros [= <-].
  - unfold SubscribeOrders. intros p. repeat case_match; by intros [= <-].
  - by rewrite lookup_insert_eq.
  - by rewrite lookup_insert_eq.
  - unfold onReconnect. intros p. repeat case_match; by intros [= <-].
  - unfold handle_update. intros p. repeat case_match; by intros [= <-].
  - unfold Close. destruct (close_once s); simpl; rewrite ?lookup_insert_eq, ?lookup_delete_eq; done.
Qed.

Lemma close_thread t p ch s s' :
  ctl_inv s -> ref_inv s -> calls s !! t = Some p -> thread_step cf ch t p s = Some s' ->
  close_inv s -> close_inv s'.
Proof.
  intros Hc Hr Hp Hst [H1 H2]. destruct (thread_ctl cf t p ch s s' Hc Hr Hp Hst) as (o & Hm & Hs & _).
  destruct (ctl_thread_flags cf t p o s s' Hc Hp Hm Hs) as (Hpan & _ & Hone).
  assert (Hcl : close_once s' = close_once s -> closer p = true -> of_next closer o = true).
  { intros He Hcp. inversion Hs; unfold ctl_of in *; simplify_eq/=; try congruence.
    pose proof (ci_closer _ Hc _ _ Hp Hcp). congruence. }
  constructor.
  - intros t' Hp'. destruct (decide (t' = t)) as [->|Hne].
    + by destruct (thread_not_blocked t p ch s s' Hr Hp Hst Hpan).
    + rewrite (moved_other _ _ _ _ _ Hm Hne) in Hp'. destruct Hone as [[_ ->] | (_ & -> & _)]; [eauto | done].
  - intros Ho. destruct Hone as [[_ He] | (_ & He & _)]; [| congruence]. rewrite He in Ho.
    destruct (H2 Ho) as (t' & p' & Hp' & Hcp). destruct (decide (t' = t)) as [->|Hne].
    + rewrite Hp in Hp'. injection Hp' as <-. specialize (Hcl He Hcp). destruct o as [q|]; [| done].
      exists t, q. by rewrite (moved_same _ _ _ _ Hm).
    + exists t', p'. by rewrite (moved_other _ _ _ _ _ Hm Hne).
Qed.

Lemma close_step s s' : inv s -> step cf s s' -> close_inv s -> close_inv s'.
Proof.
  intros (H1 & H2 & _) Hst Hi. pose proof Hi as [Hb Hc].
  destruct Hst as [t c Ht Hr | t p ch s' Hp Hst | e s' Hst | ch s' Hst | i | i |]; try done.
  - pose proof (start_blocked t c s Ht) as Hsb.
    destruct (start_spec cf t c s) as [(o & rs & He & Ho) | [Ho He]]; rewrite He in *.
    + pose proof (fun t' p => started_calls t o rs s t' p Ht) as Hcalls. constructor.
      * intros t' Hp. simpl. destruct (decide (t' = t)) as [->|Hne]; [rewrite (Hsb Hp); done |].
        apply Hcalls in Hp as [Hp | [-> _]]; [by eapply Hb | done].
      * intros Hcl. destruct (Hc Hcl) as (t' & p & Hp & Hcp). exists t', p. rewrite Hcalls. auto.
    + constructor; [done |]. intros _. exists t, Close_transport. split; [apply lookup_insert_eq | done].
  - by eapply close_thread.
  - unfold drain_recv in Hst. repeat case_match; simplify_eq; by constructor.
  - unfold drain_forward in Hst. destruct (drain s); simplify_eq.
    destruct (report_frame ch e s) as (q & d & b & -> & _). by constructor.
Qed.

Lemma close_reachable s : reachable cf s -> close_inv s.
Proof.
  induction 1 as [|s s' Hr IH Hst].
  - constructor; [| done]. intros t Hp. by rewrite init_calls in Hp.
  - eapply close_step; [by eapply inv_reachable | done..].
Qed.

(** ** Progress and termination *)

(** A step of a call under way, or of the forwarding goroutine winding down. *)
Inductive advance s : st D -> Prop :=
  | advance_call t p ch s' :
      calls s !! t = Some p -> thread_step cf ch t p s = Some s' -> advance s s'
  | advance_forward ch s' : drain_forward ch s = Some s' -> advance s s'
  | advance_stop s' : closed s = true -> drain_recv None s = Some s' -> advance s s'.

Lemma advance_step s s' : advance s s' -> step cf s s'.
Proof.
  destruct 1; [by eapply step_thread | by eapply step_drain_forward | by eapply step_drain_recv].
Qed.

Lemma advance_reachable s s' : reachable cf s -> rtc advance s s' -> reachable cf s'.
Proof.
  intros Hr Ha. induction Ha as [|s s1 s2 Ha _ IH]; [done |]. apply IH.
  eapply reachable_step; [done | by apply advance_step].
Qed.

Lemma advance_lowers s s' : reachable cf s -> advance s s' -> measure s' < measure s.
Proof.
  intros Hr Ha. destruct (inv_reachable cf s Hr) as (Hc & Hri & _).
  destruct Ha as [t p ch s' Hp Hst | ch s' Hst | s' _ Hst].
  - eapply thread_lowers; [done | done | by eapply order_reachable | done..].
  - unfold drain_forward in Hst. destruct (drain s) eqn:Hd; simplify_eq.
    destruct (report_frame ch e s) as (q & d & b & -> & _).
    unfold measure, drain_weight. proj. rewrite Hd. unfold bound, heap_size. proj. lia.
  - unfold drain_recv in Hst. destruct (drain s) eqn:Hd; simplify_eq.
    unfold measure, drain_weight. proj. rewrite Hd. unfold bound, heap_size. proj. lia.
Qed.

Definition any : choice := mkChoice 0 0 0 None.

Lemma owner_steps t p s : owner p = true -> is_Some (thread_step cf any t p s).
Proof. destruct p; try done; intros _; simpl; eauto. Qed.

Lemma locked_advance t p s f : reachable cf s -> calls s !! t = Some p ->
  thread_step cf any t p s = locked s f -> exists s', advance s s'.
Proof.
  intros Hr Hp Hst. destruct (inv_reachable cf s Hr) as (Hc & _).
  destruct (subMu s) as [t'|] eqn:Hl.
  - assert (Hown : exists p', calls s !! t' = Some p' /\ owner p' = true) by (by apply Hc).
    destruct Hown as (p' & Hp' & Ho). destruct (owner_steps t' p' s Ho) as [s' Hs'].
    exists s'. by eapply advance_call.
  - exists (f s). apply (advance_call s t p any); [done |]. rewrite Hst. unfold locked. by rewrite Hl.
Qed.

Lemma call_advances t p s : reachable cf s -> calls s !! t = Some p -> p <> Close_blocked ->
  exists s', advance s s'.
Proof.
  intros Hr Hp Hne. destruct (inv_reachable cf s Hr) as (Hc & Hri & _).
  assert (Hgo : forall s', thread_step cf any t p s = Some s' -> exists s', advance s s').
  { intros s' Hs'. exists s'. by eapply advance_call. }
  destruct p; try (by destruct Hne); try (by eapply Hgo); try (by eapply locked_advance).
  - destruct (ri_heap _ Hri _ _ e Hp) as [x Hx]; [apply list_elem_of_here |].
    eapply (locked_advance t); [done | exact Hp |]. simpl. rewrite Hx. reflexivity.
  - pose proof (ci_once _ Hc) as Ho. rewrite (ci_closer _ Hc _ _ Hp eq_refl) in Ho.
    destruct (drain s) eqn:Hd; try (eapply Hgo; simpl; rewrite Hd; reflexivity).
    + exists (w_drain Drained s). apply advance_stop; [by destruct Ho |]. unfold drain_recv. by rewrite Hd.
    + eexists. apply (advance_forward s any). unfold drain_forward. by rewrite Hd.
Qed.

Lemma advance_exists s : reachable cf s -> calls s <> ∅ -> exists s', advance s s'.
Proof.
  intros Hr Hne. apply map_choose in Hne as (t & p & Hp).
  assert (Hd : p = Close_blocked \/ p <> Close_blocked) by (destruct p; auto).
  destruct Hd as [-> | Hp']; [| by eapply call_advances].
  destruct (close_reachable s Hr) as [Hb Hcl]. specialize (Hb t Hp).
  destruct (close_once s) eqn:Ho; [done | |].
  - destruct (Hcl eq_refl) as (t' & p' & Hp' & Hc). eapply (call_advances t'); [done.. |]. by intros ->.
  - eexists. apply (advance_call s t Close_blocked any); [done |]. simpl. by rewrite Ho.
Qed.

(** C5: Every call returns. While a call is under way, in any reachable state,
    some call can take a step; no sequence of steps of the calls under
    way goes on for ever, however they are interleaved and whatever the
    Gateway replies; so when no step is left every call has returned, and such a state can
    always be reached. In particular a reconnect, a kill, and [Close] called from several
    goroutines end, and no two calls wait for each other. *)
Theorem push_orch_calls_return s : reachable cf s ->
  Acc (fun s2 s1 => advance s1 s2) s
  /\ (forall s', rtc advance s s' -> (forall s2, ~ advance s' s2) -> calls s' = ∅)
  /\ exists s', rtc advance s s' /\ calls s' = ∅.
Proof.
  intros Hr. split; [| split].
  - remember (measure s) as n eqn:Hn. revert s Hr Hn.
    induction n as [n IH] using lt_wf_ind. intros s Hr ->. constructor. intros s' Ha.
    eapply IH; [by apply advance_lowers | | done]. eapply reachable_step; [done | by apply advance_step].
  - intros s' Ha Hstop. destruct (decide (calls s' = ∅)) as [|Hne]; [done |].
    destruct (advance_exists s') as [s2 Hs2]; [by eapply advance_reachable | done |]. by destruct (Hstop s2).
  - remember (measure s) as n eqn:Hn. revert s Hr Hn.
    induction n as [n IH] using lt_wf_ind. intros s Hr ->.
    destruct (decide (calls s = ∅)) as [|Hne]; [by exists s |].
    destruct (advance_exists s Hr Hne) as [s1 Hs1].
    destruct (IH (measure s1) (advance_lowers _ _ Hr Hs1) s1) as (s' & Ha & He); [| done |].
    + eapply reachable_step; [done | by apply advance_step].
    + exists s'. split; [by eapply rtc_l | done].
Qed.
End live.

Lemma push_orch_calls_return_witness :
  exists s', rtc (advance both) (after (one_update ++ [Start 2 CClose])) s' /\ calls s' = ∅.
Proof. apply (push_orch_calls_return both). apply after_reachable. vm_compute. eauto. Defined.
