(* ===== verification/Decimals.v ===== *)
(** A concrete decimal: a coefficient and a number of fraction digits, with the
    text of [decimal.String]. It satisfies the laws of [Decimal], and the laws on
    that text that the callers of [String] rely on. *)
From Stdlib Require Import QArith Qabs Qround Lqa.
From stdpp Require Import pretty.
From S2P Require Import Prelude Types Errs Domain.
Local Open Scope Z_scope.

(** [String] writes a decimal in fixed point, never with an exponent and without
    trailing zeros; the laws are its documented behaviour on the values the code
    writes. *)
Class DecimalText (D : Type) `{DecimalLaws D} := {
  String_whole d n : 0 <= n -> (val d == inject_Z n)%Q -> dec_String d = itoa n;
  String_plain d : (0 <= val d)%Q -> exists q, numeral_value (dec_String d) = Some q;
  String_value d q : numeral_value (dec_String d) = Some q -> (val d == q)%Q;
}.

(** ** Digits *)
Lemma digits_value_app acc s t :
  digits_value acc (s ++ t) = v ← digits_value acc s; digits_value v t.
Proof.
  revert acc. induction s as [|c s IH]; intros acc; [done |]. cbn [digits_value app].
  destruct (digit_value c); [apply IH | done].
Qed.

Lemma digits_value_zeros k s : digits_value 0 (repeat "0"%char k ++ s) = digits_value 0 s.
Proof. induction k as [|k IH]; [done |]. exact IH. Qed.

Lemma digit_value_char n : (n < 10)%N -> digit_value (pretty_N_char n) = Some (Z.of_N n).
Proof.
  intros Hn. rewrite <- (N2Z.id n) at 1. apply (range_decided (fun z => digit_value (pretty_N_char (Z.to_N z)) = Some z) 0 10); [done | lia].
Qed.

(** [pretty_N_go] writes the digits of its argument in front of its accumulator. *)
Lemma pretty_go_digits n s :
  exists ds, text (pretty_N_go n s) = ds ++ text s /\ digits_value 0 ds = Some (Z.of_N n)
    /\ ((0 < n)%N -> ds <> []).
Proof.
  revert s. induction (N.lt_wf_0 n) as [n _ IH]. intros s.
  destruct (decide (n = 0)%N) as [->|Hn]; [by exists []; rewrite pretty_N_go_0 |].
  rewrite pretty_N_go_step by lia.
  destruct (IH (n / 10)%N ltac:(apply N.div_lt; lia) (String (pretty_N_char (n mod 10)) s))
    as (ds & -> & Hd & _).
  exists (ds ++ [pretty_N_char (n mod 10)]). simpl. rewrite <- app_assoc. split; [done |].
  rewrite digits_value_app, Hd. simpl. rewrite digit_value_char by (apply N.mod_lt; lia). simpl.
  pose proof (N.div_mod n 10 ltac:(lia)) as Hdm. split; [f_equal; lia |].
  intros _. by destruct ds.
Qed.

Lemma itoa_value z : 0 <= z -> digits_value 0 (text (itoa z)) = Some z /\ text (itoa z) <> [].
Proof.
  intros Hz. destruct z as [|p|p]; [done | | lia]. change (itoa (Z.pos p)) with (pretty (N.pos p)).
  unfold pretty, pretty_N.
  case_decide; [done |].
  destruct (pretty_go_digits (N.pos p) "") as (ds & Ht & Hd & Hne). rewrite Ht, app_nil_r. auto with lia.
Qed.

Definition all_digits (s : bytes) : Prop := Forall (fun c => is_Some (digit_value c)) s.

Lemma digits_value_all acc s : is_Some (digits_value acc s) <-> all_digits s.
Proof.
  revert acc. induction s as [|c s IH]; intros acc; cbn [digits_value].
  { split; [constructor | eauto]. }
  split.
  - intros [v Hv]. destruct (digit_value c) as [d|] eqn:Hc; [|done]. constructor; [by eauto |].
    apply (IH (acc * 10 + d)). simpl in Hv. eauto.
  - intros [[d ->] Hs]%Forall_cons. simpl. by apply IH.
Qed.

Lemma digit_not_dot c : is_Some (digit_value c) -> c <> "."%char.
Proof. intros Hc ->. by destruct Hc. Qed.

Lemma digit_not_dash c : is_Some (digit_value c) -> c <> "-"%char.
Proof. intros Hc ->. by destruct Hc. Qed.

Lemma all_digits_span ds : all_digits ds -> Forall (fun c => not_dot c = true) ds.
Proof.
  intros Hd. eapply Forall_impl; [exact Hd |]. intros c Hc. unfold not_dot.
  rewrite bool_decide_eq_false_2; [done | by apply digit_not_dot].
Qed.

(** A plain numeral: digits, or digits, a point and digits. *)
Lemma numeral_digits s z : s <> [] -> digits_value 0 s = Some z ->
  numeral_value (str s) = Some (z # 1).
Proof.
  intros Hne Hd. unfold numeral_value. rewrite text_str.
  assert (Ha : all_digits s) by (by apply (digits_value_all 0); eauto).
  rewrite (span_all _ s (all_digits_span s Ha)). rewrite take_ge, !drop_ge by lia.
  rewrite decide_False by (intros [?|[Hn _]]; done). rewrite app_nil_r, Hd. done.
Qed.

Lemma span_app_dot ds rest : all_digits ds -> span not_dot (ds ++ "."%char :: rest) = length ds.
Proof. intros Hd. induction (all_digits_span ds Hd) as [|c ds Hc _ IH]; [done |]. simpl. rewrite Hc.
  inversion Hd; subst. by rewrite IH. Qed.

Lemma numeral_point a b z : a <> [] -> b <> [] -> digits_value 0 (a ++ b) = Some z ->
  numeral_value (str (a ++ "."%char :: b)) = Some (z # Z.to_pos (10 ^ Z.of_nat (length b))).
Proof.
  intros Ha Hb Hd. unfold numeral_value. rewrite text_str.
  assert (Hall : all_digits (a ++ b)) by (by apply (digits_value_all 0); eauto).
  apply Forall_app in Hall as [Hda Hdb].
  rewrite (span_app_dot a b Hda). rewrite take_app_length, drop_app_length.
  rewrite decide_False.
  - replace (drop (S (length a)) (a ++ "."%char :: b)) with b; [by rewrite Hd |].
    rewrite drop_app_ge by lia. by replace (S (length a) - length a)%nat with 1%nat by lia.
  - intros [?|[_ He]]; [done |]. rewrite drop_app_ge in He by lia.
    replace (S (length a) - length a)%nat with 1%nat in He by lia. done.
Qed.

Lemma numeral_dash s : numeral_value (String "-"%char s) = None.
Proof. unfold numeral_value. cbv zeta. simpl. by case_decide. Qed.

(** ** The decimal *)
Record dec := mkDec { coef : Z; expo : nat }.

Definition ten (k : nat) : Z := 10 ^ Z.of_nat k.
Definition dec_val (d : dec) : Q := coef d # Z.to_pos (ten (expo d)).

Lemma ten_pos k : 0 < ten k.
Proof. apply Z.pow_pos_nonneg; lia. Qed.

Lemma ten_S k : ten (S k) = 10 * ten k.
Proof. unfold ten. rewrite Nat2Z.inj_succ, Z.pow_succ_r by lia. done. Qed.

Lemma ten_add j k : ten (j + k) = ten j * ten k.
Proof. unfold ten. rewrite Nat2Z.inj_add, Z.pow_add_r by lia. done. Qed.

Lemma val_eq (c : Z) (k : nat) (q : Q) :
  (c # Z.to_pos (ten k) == q)%Q <-> c * QDen q = Qnum q * ten k.
Proof. unfold Qeq. simpl. rewrite Z2Pos.id by apply ten_pos. done. Qed.

Lemma val_eq_Z (c : Z) (k : nat) (n : Z) : (c # Z.to_pos (ten k) == inject_Z n)%Q <-> c = n * ten k.
Proof. rewrite val_eq. simpl. lia. Qed.

Definition digit_char (z : Z) : ascii := Ascii.ascii_of_N (48 + Z.to_N z).

(** The [k] last digits of [n]. *)
Fixpoint fixed (k : nat) (n : Z) : bytes :=
  match k with O => [] | S k => fixed k (n / 10) ++ [digit_char (n mod 10)] end.

(** Trailing zeros of the fraction are dropped. *)
Fixpoint trim (k : nat) (n : Z) : nat * Z :=
  match k with
  | O => (O, n)
  | S k' => if decide (n mod 10 = 0) then trim k' (n / 10) else (k, n)
  end.

Definition dec_text (d : dec) : string :=
  let '(k, n) := trim (expo d) (Z.abs (coef d)) in
  (if decide (coef d < 0) then "-" else "")
  +:+ match k with
      | O => itoa n
      | _ => itoa (n / ten k) +:+ str ("."%char :: fixed k n)
      end.

Definition numeral_dec (s : string) : option dec :=
  let b := text s in
  let n := span not_dot b in
  let frac := drop (S n) b in
  if decide (take n b = [] \/ (drop n b <> [] /\ frac = [])) then None
  else z ← digits_value 0 (take n b ++ frac); Some (mkDec z (length frac)).

Definition dec_parse (s : string) : option dec :=
  match s with
  | String "-"%char s => (fun d => mkDec (- coef d) (expo d)) <$> numeral_dec s
  | _ => numeral_dec s
  end.

Definition dec_round (d : dec) (n : Z) : dec :=
  if decide (Z.of_nat (expo d) <= n \/ n < 0) then d
  else
    let m := ten (expo d - Z.to_nat n) in
    mkDec (Z.quot (2 * coef d + Z.sgn (coef d) * m) (2 * m)) (Z.to_nat n).

#[global] Instance dec_decimal : Decimal dec := {
  dec_NewFromString s := match dec_parse s with Some d => inl d | None => inr (EText "not a decimal") end;
  dec_NewFromInt n := mkDec n 0;
  dec_String := dec_text;
  dec_IsZero d := bool_decide (coef d = 0);
  dec_IsNegative d := bool_decide (coef d < 0);
  dec_IsPositive d := bool_decide (0 < coef d);
  dec_IsInteger d := bool_decide (coef d mod ten (expo d) = 0);
  dec_LessThanOrEqual a b := bool_decide (coef a * ten (expo b) <= coef b * ten (expo a));
  dec_Mod a b :=
    if decide (coef b = 0) then Panic
    else Ret (mkDec (Z.rem (coef a * ten (expo b)) (coef b * ten (expo a))) (expo a + expo b));
  dec_Add a b := mkDec (coef a * ten (expo b) + coef b * ten (expo a)) (expo a + expo b);
  dec_Sub a b := mkDec (coef a * ten (expo b) - coef b * ten (expo a)) (expo a + expo b);
  dec_Mul a b := mkDec (coef a * coef b) (expo a + expo b);
  dec_Div a b :=
    if decide (coef b = 0) then Panic
    else Ret (mkDec (Z.quot (coef a * ten (expo b) * ten 16) (coef b * ten (expo a))) 16);
  dec_Floor d := mkDec (coef d / ten (expo d)) 0;
  dec_Round := dec_round;
}.

Example dec_text_examples :
  map dec_text [mkDec 12300 2; mkDec (-5) 3; mkDec 100 3; mkDec 0 2; mkDec 3502 1]
    = ["123"; "-0.005"; "0.1"; "0"; "350.2"].
Proof. reflexivity. Qed.

Lemma numeral_dec_val s : numeral_value s = dec_val <$> numeral_dec s.
Proof.
  unfold numeral_value, numeral_dec. cbv zeta. case_decide; [done |].
  by destruct (digits_value 0 _).
Qed.

Lemma fixed_digits acc k n :
  digits_value acc (fixed k n) = Some (acc * ten k + n mod ten k) /\ length (fixed k n) = k.
Proof.
  revert n. induction k as [|k IH]; intros n.
  { split; [|done]. simpl. f_equal. unfold ten. simpl. rewrite Z.mod_1_r. lia. }
  destruct (IH (n / 10)) as [Hd Hl]. cbn [fixed]. rewrite digits_value_app, Hd, length_app, Hl. simpl.
  assert (Hm : 0 <= n mod 10 < 10) by (apply Z.mod_pos_bound; lia).
  assert (Hc : digit_value (digit_char (n mod 10)) = Some (n mod 10)).
  { apply (range_decided (fun m => digit_value (digit_char m) = Some m) 0 10); [done | lia]. }
  rewrite Hc. split; [|lia]. simpl. f_equal. rewrite ten_S.
  pose proof (ten_pos k). rewrite Z.rem_mul_r by lia. lia.
Qed.

Lemma trim_spec k n : 0 <= n ->
  let '(k', n') := trim k n in 0 <= n' /\ n * ten k' = n' * ten k.
Proof.
  revert n. induction k as [|k IH]; intros n Hn; cbn [trim]; [done |]. case_decide as Hz; [|done].
  specialize (IH (n / 10) ltac:(apply Z.div_pos; lia)). destruct (trim k (n / 10)) as [k' n'].
  destruct IH as [Hn' Heq]. split; [done |]. rewrite ten_S.
  pose proof (Z.div_mod n 10 ltac:(lia)) as Hdm. rewrite Hz in Hdm. nia.
Qed.

Lemma trim_whole k n : trim k (n * ten k) = (O, n).
Proof.
  induction k as [|k IH]; cbn [trim]; [f_equal; unfold ten; simpl; lia |]. rewrite ten_S.
  replace (n * (10 * ten k)) with (n * ten k * 10) by lia.
  rewrite decide_True by (apply Z.mod_mul; lia). rewrite Z.div_mul by lia. exact IH.
Qed.

(** The text of a decimal that is not negative, and of one that is. *)
Lemma dec_text_plain d : 0 <= coef d ->
  exists q, numeral_value (dec_text d) = Some q /\ (dec_val d == q)%Q.
Proof.
  intros Hc. unfold dec_text. rewrite Z.abs_eq by done.
  pose proof (trim_spec (expo d) (coef d) Hc) as Ht. destruct (trim (expo d) (coef d)) as [k n].
  destruct Ht as [Hn Ht]. rewrite decide_False by lia. rewrite append_nil_l. unfold dec_val.
  destruct k as [|k].
  - destruct (itoa_value n Hn) as [Hd Hne]. exists (n # 1). split.
    + rewrite <- (str_text (itoa n)). by apply numeral_digits.
    + apply val_eq. simpl. unfold ten in Ht at 1. simpl in Ht. lia.
  - pose proof (ten_pos (S k)) as Hp.
    destruct (itoa_value (n / ten (S k)) ltac:(apply Z.div_pos; lia)) as [Hd Hne].
    destruct (fixed_digits (n / ten (S k)) (S k) n) as [Hf Hl].
    exists (n # Z.to_pos (ten (S k))). split.
    + rewrite <- (str_text (itoa _ +:+ _)), text_app, text_str.
      rewrite (numeral_point _ _ n); [by rewrite Hl | done | by destruct (fixed (S k) n) |].
      rewrite digits_value_app, Hd. cbn [mbind option_bind]. rewrite Hf. f_equal.
      pose proof (Z.div_mod n (ten (S k)) ltac:(lia)). lia.
    + apply val_eq. simpl. rewrite Z2Pos.id by lia. lia.
Qed.

#[global] Instance dec_decimal_laws : DecimalLaws dec.
Proof.
  refine {| val := dec_val |}; unfold dec_val.
  - intros s q Hs. simpl. unfold dec_parse. destruct s as [|c s].
    { discriminate Hs. }
    destruct (decide (c = "-"%char)) as [->|Hc]; [by rewrite numeral_dash in Hs |].
    rewrite numeral_dec_val in Hs.
    destruct (numeral_dec (String c s)) as [d|] eqn:Hd; [|done]. injection Hs as <-.
    exists d. split; [|done]. by destruct c as [[] [] [] [] [] [] [] []].
  - intros n. reflexivity.
  - intros d. simpl. rewrite bool_decide_eq_true. change 0%Q with (inject_Z 0). rewrite val_eq_Z. lia.
  - intros d. simpl. rewrite bool_decide_eq_true. unfold Qlt. simpl. lia.
  - intros d. simpl. rewrite bool_decide_eq_true. unfold Qlt. simpl. lia.
  - intros d. simpl. rewrite bool_decide_eq_true. pose proof (ten_pos (expo d)). split.
    + intros Hm. exists (coef d / ten (expo d)). rewrite Qmult_1_r. apply val_eq_Z.
      pose proof (Z.div_mod (coef d) (ten (expo d)) ltac:(lia)). lia.
    + intros [k Hk]. rewrite Qmult_1_r in Hk. apply val_eq_Z in Hk. rewrite Hk. apply Z.mod_mul. lia.
  - intros a b. simpl. rewrite bool_decide_eq_true. unfold Qle. simpl.
    rewrite !Z2Pos.id by apply ten_pos. done.
  - intros a b Hb. change 0%Q with (inject_Z 0) in Hb. apply val_eq_Z in Hb. simpl. by rewrite decide_True by lia.
  - intros a b Hb. change 0%Q with (inject_Z 0) in Hb. rewrite val_eq_Z in Hb. simpl.
    rewrite decide_False by lia. eexists. split; [done |]. simpl.
    pose proof (ten_pos (expo a)) as Ha. pose proof (ten_pos (expo b)) as Hb'.
    set (x := coef a * ten (expo b)). set (y := coef b * ten (expo a)).
    assert (Hy : y <> 0) by (unfold y; nia). pose proof (Z.quot_rem' x y) as Hqr.
    pose proof (Z.rem_bound_abs x y Hy) as Hlt. split.
    + exists (Z.quot x y). unfold Qeq. simpl. rewrite !Pos2Z.inj_mul, !Z2Pos.id, ten_add by apply ten_pos.
      unfold x, y in *. nia.
    + unfold Qlt. simpl. rewrite !Z2Pos.id, ten_add by apply ten_pos. unfold x, y in *.
      rewrite Z.abs_mul, (Z.abs_eq (ten (expo a))) in Hlt by lia. nia.
  - intros a b. simpl. unfold Qeq. simpl. rewrite !Pos2Z.inj_mul, !Z2Pos.id, ten_add by apply ten_pos. ring.
  - intros a b. simpl. unfold Qeq. simpl. rewrite !Pos2Z.inj_mul, !Z2Pos.id, ten_add by apply ten_pos. ring.
  - intros a b. simpl. unfold Qeq. simpl. rewrite !Pos2Z.inj_mul, !Z2Pos.id, ten_add by apply ten_pos. ring.
Defined.

#[global] Instance dec_decimal_text : DecimalText dec.
Proof.
  assert (Hneg : forall d, coef d < 0 -> numeral_value (dec_text d) = None).
  { intros d Hc. unfold dec_text. destruct (trim _ _) as [k n]. rewrite decide_True by done.
    apply numeral_dash. }
  assert (Hle : forall d, (0 <= dec_val d)%Q -> 0 <= coef d).
  { intros d. unfold Qle, dec_val. simpl. lia. }
  split; simpl.
  - intros d n Hn Hv. unfold dec_val in Hv. apply val_eq_Z in Hv. unfold dec_text.
    pose proof (ten_pos (expo d)). rewrite decide_False, Z.abs_eq, Hv, trim_whole by nia. done.
  - intros d Hv. destruct (dec_text_plain d (Hle d Hv)) as (q & Hq & _). eauto.
  - intros d q Hq. destruct (decide (coef d < 0)) as [Hc|Hc].
    + by rewrite (Hneg d Hc) in Hq.
    + destruct (dec_text_plain d ltac:(lia)) as (q' & Hq' & Hv). rewrite Hq' in Hq. by injection Hq as <-.
Defined.
