(* ===== verification/DomainJson.v ===== *)
(** The JSON of the decimal values of [src/pkg/domain]: [price.go], [quantity.go],
    [rate.go], [tick.go] and [money.go].

    The five types write their decimal between quotes, and read what is between the
    first and the last byte of the data into the decimal of the receiver. What else a
    value holds (the tick of a price, the currency and the scale of an amount) is not
    in its JSON and stays what the receiver had. *)
From Stdlib Require Import QArith.
From S2P Require Import Prelude Types Errs Domain Decimals.
Local Open Scope Z_scope.

Definition dquoted (s : string) : string := let q := str [Ascii.ascii_of_nat 34] in q +:+ s +:+ q.

(** [s[1 : len(s)-1]] *)
Definition inner (data : string) : outcome string :=
  let b := text data in
  if decide (length b < 2)%nat then Panic
  else Ret (str (take (length b - 2) (drop 1 b))).

(** ** What the five types share *)
Class JsonValue (V D : Type) := {
  json_name : string;
  amount : V -> D;
  with_amount : V -> D -> V;
}.

Section values.
Context {V D : Type} `{Decimal D} `{JsonValue V D}.

Definition marshal (v : V) : string := dquoted (dec_String (amount v)).

Definition unmarshal (receiver : V) (data : string) : outcome (V + error) :=
  match inner data with
  | Panic => Panic
  | Ret s =>
      match dec_NewFromString s with
      | inl d => Ret (inl (with_amount receiver d))
      | inr e => Ret (inr (EWrap ("domain: " +:+ json_name +:+ ": UnmarshalJSON: invalid decimal " +:+ Quote s
                                    +:+ ": " +:+ error_text e) e))
      end
  end.
End values.

(** ** The types *)
Section types.
Context {D : Type} `{Decimal D}.

#[export] Instance price_json : JsonValue (Price D) D :=
  { json_name := "Price"; amount := price_dec; with_amount p d := mkPrice d (price_tick p) }.
#[export] Instance quantity_json : JsonValue (Quantity D) D :=
  { json_name := "Quantity"; amount := qty_dec; with_amount _ := mkQuantity }.
#[export] Instance rate_json : JsonValue (Rate D) D :=
  { json_name := "Rate"; amount := rate_dec; with_amount _ := mkRate }.
#[export] Instance tick_json : JsonValue (Tick D) D :=
  { json_name := "Tick"; amount := tick_dec; with_amount _ := mkTick }.
#[export] Instance money_json : JsonValue (Money D) D :=
  { json_name := "Money"; amount := money_dec; with_amount m d := mkMoney d (currency m) (scale m) }.

Definition Price_MarshalJSON : Price D -> string := marshal.
Definition Price_UnmarshalJSON : Price D -> string -> outcome (Price D + error) := unmarshal.
Definition Quantity_MarshalJSON : Quantity D -> string := marshal.
Definition Quantity_UnmarshalJSON : Quantity D -> string -> outcome (Quantity D + error) := unmarshal.
Definition Rate_MarshalJSON : Rate D -> string := marshal.
Definition Rate_UnmarshalJSON : Rate D -> string -> outcome (Rate D + error) := unmarshal.
Definition Tick_MarshalJSON : Tick D -> string := marshal.
Definition Tick_UnmarshalJSON : Tick D -> string -> outcome (Tick D + error) := unmarshal.
Definition Money_MarshalJSON : Money D -> string := marshal.
Definition Money_UnmarshalJSON : Money D -> string -> outcome (Money D + error) := unmarshal.
End types.

(** ** Round trip *)
Lemma inner_wrapped (a b : ascii) (s : string) : inner (str (a :: text s ++ [b])) = Ret s.
Proof.
  unfold inner. rewrite text_str. simpl. rewrite length_app. simpl.
  rewrite decide_False by lia. f_equal. replace (length (text s) + 1 - 1)%nat with (length (text s)) by lia.
  by rewrite drop_0, take_app_length, str_text.
Qed.

Lemma inner_dquoted s : inner (dquoted s) = Ret s.
Proof.
  rewrite <- (inner_wrapped (Ascii.ascii_of_nat 34) (Ascii.ascii_of_nat 34) s). f_equal.
  unfold dquoted. rewrite <- (str_text (_ +:+ _)). f_equal. by rewrite !text_app.
Qed.

Section roundtrip.
Context {V D : Type} `{DecimalText D} `{JsonValue V D}.

(** A value that is not negative is read back as its number, into whatever receiver.
    But the quotes are never looked at: any two bytes around a text do as well, so
    that a bare JSON number loses its first and last digit, and data of one byte or
    none panics. *)
Theorem domain_json_values (v receiver : V) (a b : ascii) (s : string) :
  ((0 <= val (amount v))%Q ->
     exists d, unmarshal receiver (marshal v) = Ret (inl (with_amount receiver d)) /\ (val d == val (amount v))%Q)
  /\ unmarshal receiver (str (a :: text s ++ [b])) = unmarshal receiver (dquoted s)
  /\ unmarshal receiver (str [a]) = Panic /\ unmarshal receiver "" = Panic.
Proof using Type*.
  unfold unmarshal, marshal. rewrite !inner_dquoted, inner_wrapped. split_and!; [| done..].
  intros Hv. destruct (String_plain _ Hv) as [q Hq]. destruct (NewFromString_law _ _ Hq) as (d & -> & Hd).
  exists d. split; [done |]. by rewrite Hd, (String_value _ _ Hq).
Qed.
End roundtrip.

(** The tick of a price is not in its JSON; the number 12345 is read as 234; what is
    not a decimal is an error that names the type. *)
Example json_values_run :
  let zero := mkPrice (mkDec 0 0) (mkDec 0 0) in
  (Price_UnmarshalJSON zero (Price_MarshalJSON (mkPrice (mkDec 3502 1) (mkDec 2 1))),
   Price_UnmarshalJSON zero "12345",
   match Money_UnmarshalJSON (mkMoney (mkDec 0 0) "HKD" 3) "[abc]" with Ret (inr e) => Some (error_text e) | _ => None end)
  = (Ret (inl (mkPrice (mkDec 3502 1) (mkDec 0 0))), Ret (inl (mkPrice (mkDec 234 0) (mkDec 0 0))),
     Some ("domain: Money: UnmarshalJSON: invalid decimal " +:+ Quote "abc" +:+ ": not a decimal")).
Proof. vm_compute. reflexivity. Qed.

Lemma domain_json_values_witness :
  exists d, Money_UnmarshalJSON (mkMoney (mkDec 0 0) "HKD" 3) (Money_MarshalJSON (mkMoney (mkDec 12345 2) "USD" 2))
    = Ret (inl (mkMoney d "HKD" 3)) /\ (val d == 12345 # 100)%Q.
Proof.
  exact (proj1 (domain_json_values (mkMoney (mkDec 12345 2) "USD" 2) (mkMoney (mkDec 0 0) "HKD" 3) "a" "b" "")
    ltac:(by apply Qle_bool_iff; vm_compute)).
Defined.
