(* ===== verification/Service.v ===== *)
(** What the use-case services share: the bodies they send, the request path, the
    guards in front of a request ([src/pkg/services/executor.go]), and the calendar
    and code checks of the order surfaces. *)
From Stdlib Require Import QArith.
From S2P Require Import Prelude Types Errs Retry Domain Decimals.
Local Open Scope Z_scope.
Local Open Scope go_scope.

Create HintDb service.

(** ** Bodies

    A JSON object as its fields, in the order of the struct; [omitempty] drops a
    field that holds its zero value. *)
#[warnings="-register-all"]
Inductive json :=
  | JStr (s : string)
  | JInt (z : Z)
  | JArr (l : list json)
  | JObj (l : list (string * json)).

Abbreviation body := (list (string * json)).

Definition str_field (k v : string) : body := [(k, JStr v)].
Definition str_omitempty (k v : string) : body := if decide (v = "") then [] else [(k, JStr v)].
Definition int_field (k : string) (v : Z) : body := [(k, JInt v)].
Definition int_omitempty (k : string) (v : Z) : body := if decide (v = 0) then [] else [(k, JInt v)].

(** ** Requests *)

(** [Executor.Do]: it may panic, and returns an error or the reply, which the
    decoders of a service read as the struct the caller passed. *)
Definition executor (W Raw : Type) : Type :=
  string -> string -> body -> W -> outcome (Raw + error) * W.

(** What a call returns, and the world it leaves. *)
Abbreviation result W A := (outcome (A + error) * W)%type.

(** [if err := check; err != nil { return err }] before the rest. *)
Definition guard {W A} (checks : outcome (option error)) (w : W) (k : result W A) : result W A :=
  match checks with
  | Panic => (Panic, w)
  | Ret (Some e) => (Ret (inr e), w)
  | Ret None => k
  end.

(** One request, and a mapping of its reply. *)
Definition call {W Raw A} (X : executor W Raw) (op route : string) (req : body) (w : W)
    (f : Raw -> outcome A) : result W A :=
  match X op route req w with
  | (Panic, w) => (Panic, w)
  | (Ret (inr e), w) => (Ret (inr e), w)
  | (Ret (inl raw), w) => (match f raw with Ret a => Ret (inl a) | Panic => Panic end, w)
  end.

(** A check on a condition. *)
Definition require (P : Prop) {HP : Decision P} (op msg : string) : outcome (option error) :=
  if decide P then Ret None else Ret (Some (Errs.New StatusInvalidParam op msg)).

Definition present (op msg s : string) : outcome (option error) := require (s <> "") op msg.

(** An absent number is a zero. *)
Definition or_zero (s : string) : string := if decide (s = "") then "0" else s.

(** A loop over the rows of a reply. *)
Fixpoint rows {A B} (f : A -> outcome B) (l : list A) : outcome (list B) :=
  match l with
  | [] => Ret []
  | x :: l => y ← f x; ys ← rows f l; Ret (y :: ys)
  end.

(** The first check that fails, over a list. *)
Fixpoint all_checks {A} (f : A -> outcome (option error)) (l : list A) : outcome (option error) :=
  match l with [] => Ret None | x :: l => f x ;?; all_checks f l end.

(** The page of a query, shared by the futures and algorithm surfaces
    ([src/pkg/services/futures.go]). *)
Record PageRequest := mkPageRequest {
  PageNo : Z;
  PageSize : Z;
  StartDate : string;
  EndDate : string;
}.

(** ** Codes and dates *)
Definition blank_chars : string :=
  String "032" (String "009" (String "010" (String "013" EmptyString))).

(** [strings.ContainsAny] *)
Definition contains_any (s : bytes) (chars : string) : bool := existsb (fun c => char_in c chars) s.

Definition is_dig (c : ascii) : bool := in_range "0" "9" c.

Definition dig (c : ascii) : Z := Z.of_nat (nat_of_ascii c) - 48.

(** [getnum] of [time]: two digits, or one when [fixed] is false. *)
Definition getnum (s : bytes) (fixed : bool) : option (Z * bytes) :=
  match s with
  | c :: d :: s' =>
      if negb (is_dig c) then None
      else if is_dig d then Some (dig c * 10 + dig d, s')
      else if fixed then None else Some (dig c, d :: s')
  | [c] => if is_dig c && negb fixed then Some (dig c, []) else None
  | [] => None
  end.

Fixpoint skip_digits (s : bytes) : bytes :=
  match s with c :: s' => if is_dig c then skip_digits s' else s | [] => [] end.

(** The seconds of the layout take a fraction that the layout does not name. *)
Definition skip_fraction (s : bytes) : bytes :=
  match s with
  | p :: d :: s' => if char_in p ".," && is_dig d then skip_digits s' else s
  | _ => s
  end.

Definition bounded (n hi : Z) : option unit := if decide (n < hi) then Some tt else None.

(** [time.Parse("150405", value)] succeeds. *)
Definition parse_clock (value : string) : option (Z * Z * Z) :=
  '(hour, s) ← getnum (text value) false;
  _ ← bounded hour 24;
  '(min, s) ← getnum s true;
  _ ← bounded min 60;
  '(sec, s) ← getnum s true;
  _ ← bounded sec 60;
  match skip_fraction s with [] => Some (hour, min, sec) | _ => None end.

Definition is_leap (y : Z) : bool :=
  bool_decide (y mod 4 = 0 /\ (y mod 100 <> 0 \/ y mod 400 = 0)).

Definition days_in (m y : Z) : Z :=
  if decide (m = 2) then (if is_leap y then 29 else 28)
  else if decide (m ∈ [4; 6; 9; 11]) then 30 else 31.

(** The four digits of a year. *)
Definition get_year (s : bytes) : option (Z * bytes) :=
  match s with
  | a :: b :: c :: d :: s' =>
      if is_dig a && is_dig b && is_dig c && is_dig d
      then Some (dig a * 1000 + dig b * 100 + dig c * 10 + dig d, s') else None
  | _ => None
  end.

(** [time.Parse("20060102", value)] *)
Definition parse_date (value : string) : option (Z * Z * Z) :=
  '(year, s) ← get_year (text value);
  '(month, s) ← getnum s true;
  (if decide (1 <= month <= 12) then
     '(day, s) ← getnum s true;
     match s with
     | [] => if decide (1 <= day <= days_in month year) then Some (year, month, day) else None
     | _ => None
     end
   else None).

Example parse_clock_examples :
  map (fun s => bool_decide (is_Some (parse_clock s)))
    ["093000"; "235959"; "240000"; "9300"; "093000.5"; "093000,123"; "0930005"; ""]
  = [true; true; false; false; true; true; false; false].
Proof. reflexivity. Qed.

Example parse_date_examples :
  map (fun s => bool_decide (is_Some (parse_date s)))
    ["20240229"; "20230229"; "20261301"; "20260100"; "2026-01-01"; "20000229"; "19000229"]
  = [true; false; false; false; false; true; false].
Proof. reflexivity. Qed.

(** ** Guards *)
Definition checks_of (op : string) (c : outcome (option error)) : Prop :=
  c = Ret None \/ exists msg, c = Ret (Some (Errs.New StatusInvalidParam op msg)).

Lemma checks_of_require op P `{Decision P} msg : checks_of op (require P op msg).
Proof. unfold require. case_decide; [by left | right; eauto]. Qed.

Lemma checks_of_none op : checks_of op (Ret None).
Proof. by left. Qed.

Lemma checks_of_reject op msg : checks_of op (Ret (Some (Errs.New StatusInvalidParam op msg))).
Proof. right; eauto. Qed.

Lemma checks_of_and op a b : checks_of op a -> checks_of op b -> checks_of op (a ;?; b).
Proof. intros [-> | [m ->]] Hb; [exact Hb | right; by exists m]. Qed.

Lemma checks_of_all {A} op (f : A -> outcome (option error)) l :
  (forall x, checks_of op (f x)) -> checks_of op (all_checks f l).
Proof. intros Hf. induction l as [|x l IH]; [by left | by apply checks_of_and]. Qed.

Lemma checks_of_if op (b : bool) a c : checks_of op a -> checks_of op c -> checks_of op (if b then a else c).
Proof. by destruct b. Qed.

#[export] Hint Resolve checks_of_reject : service.

(** The checks of a call: the named ones are unfolded, the hints close those that
    are not conditions. *)
Ltac head_of c := lazymatch c with ?f _ => head_of f | _ => c end.
Ltac service_checks := repeat
  lazymatch goal with
  | |- checks_of _ (and_then _ _) => apply checks_of_and
  | |- checks_of _ (require _ _ _) => apply checks_of_require
  | |- checks_of _ (Ret None) => apply checks_of_none
  | |- checks_of _ (all_checks _ _) => apply checks_of_all; intros ?
  | |- checks_of _ (if ?b then _ else _) => destruct b
  | |- checks_of _ ?c => first [solve [eauto with service nocore] | let h := head_of c in unfold h; cbv zeta]
  end.

Lemma require_ok P `{Decision P} op msg : require P op msg = Ret None <-> P.
Proof. unfold require. case_decide; naive_solver. Qed.

Lemma present_ok op msg s : present op msg s = Ret None <-> s <> "".
Proof. apply require_ok. Qed.

(** A check that an empty argument skips. *)
Lemma unless_empty_ok s (c : outcome (option error)) :
  (if decide (s <> "") then c else Ret None) = Ret None <-> s = "" \/ c = Ret None.
Proof.
  case_decide as Hs; [| split; auto]. split; [by right | by intros [?|?]].
Qed.

Lemma all_checks_ok {A} (f : A -> outcome (option error)) l :
  all_checks f l = Ret None <-> Forall (fun x => f x = Ret None) l.
Proof.
  induction l as [|x l IH]; simpl; [split; [constructor | done] |].
  by rewrite and_then_ok, IH, Forall_cons.
Qed.

(** ** Requests sent *)

(** An executor that records what it sends: routes and bodies, oldest first. *)
Definition logged {W Raw} (X : executor W Raw) : executor (W * list (string * body)) Raw :=
  fun op route req w => let '(r, w') := X op route req (fst w) in (r, (w', snd w ++ [(route, req)])).

(** The call sends the one request when [ok], and is refused without sending
    otherwise. *)
Definition sends_exactly {W A} (ok : Prop) (op route : string) (req : body)
    (m : result (W * list (string * body)) A) (w : W) (log : list (string * body)) : Prop :=
  (ok -> snd (snd m) = log ++ [(route, req)])
  /\ (~ ok -> exists msg, m = (Ret (inr (Errs.New StatusInvalidParam op msg)), (w, log))).

Lemma call_logged {W Raw A} (X : executor W Raw) op route req w log (f : Raw -> outcome A) :
  snd (snd (call (logged X) op route req (w, log) f)) = log ++ [(route, req)].
Proof. unfold call, logged. simpl. by destruct (X op route req w) as [[[raw|e]|] w']. Qed.

Lemma guard_sends {W Raw A} (X : executor W Raw) (ok : Prop) op route req checks w log (f : Raw -> outcome A) :
  checks_of op checks -> (checks = Ret None <-> ok) ->
  sends_exactly ok op route req (guard checks (w, log) (call (logged X) op route req (w, log) f)) w log.
Proof.
  intros Hc Hok. split.
  - intros H. apply Hok in H as ->. apply call_logged.
  - intros H. destruct Hc as [Hn | [msg ->]]; [by destruct H; apply Hok | by exists msg].
Qed.

(** A call of another executor sends what its checks let through and nothing
    else, so at most one request reaches the executor. *)
Definition at_most_one {W A} (route : string) (m : result (W * list (string * body)) A)
    (log : list (string * body)) : Prop :=
  snd (snd m) = log \/ exists req, snd (snd m) = log ++ [(route, req)].

Lemma guard_at_most_one {W Raw A} (X : executor W Raw) op route req checks w log (f : Raw -> outcome A) :
  at_most_one route (guard checks (w, log) (call (logged X) op route req (w, log) f)) log.
Proof.
  unfold at_most_one. destruct checks as [[e|]|]; [by left | right | by left]. exists req. apply call_logged.
Qed.

(** Rows that map or panic: the reply maps when every row does, each row as it
    stands for, and panics when one of them does not. *)
Definition total_row {A B} (f : A -> outcome B) (ok : A -> bool) (stands : A -> B -> Prop) : Prop :=
  forall a, (ok a = true /\ exists b, f a = Ret b /\ stands a b) \/ (ok a = false /\ f a = Panic).

Definition total_reply {A B} (ok : A -> bool) (stands : A -> B -> Prop) (l : list A) (reply : outcome (list B)) : Prop :=
  if forallb ok l then exists bs, reply = Ret bs /\ Forall2 stands l bs else reply = Panic.

Lemma rows_total {A B} (f : A -> outcome B) ok stands l :
  total_row f ok stands -> total_reply ok stands l (rows f l).
Proof.
  intros Hf. unfold total_reply. induction l as [|a l IH]; simpl; [eauto |].
  destruct (Hf a) as [[-> (b & -> & Hb)]|[-> ->]]; simpl; [|done].
  destruct (forallb ok l); [|by rewrite IH].
  destruct IH as (bs & -> & Hall). exists (b :: bs). split; [done | by constructor].
Qed.

(** A list of rows asked for: sent, and answered with the rows of the reply. *)
Definition answers {W Raw A B} (X : executor W Raw) (op route : string) (req : body) (w : W) (rows_of : Raw -> list A)
    (ok : A -> bool) (stands : A -> B -> Prop) (reply : outcome (list B + error)) : Prop :=
  forall raw w', X op route req w = (Ret (inl raw), w') ->
    if forallb ok (rows_of raw)
    then exists bs, reply = Ret (inl bs) /\ Forall2 stands (rows_of raw) bs
    else reply = Panic.

Lemma call_answers {W Raw A B} (X : executor W Raw) op route req w (rows_of : Raw -> list A)
    (f : A -> outcome B) ok stands :
  total_row f ok stands ->
  answers X op route req w rows_of ok stands (fst (call X op route req w (fun raw => rows f (rows_of raw)))).
Proof.
  intros Hf raw w' HX. unfold call. rewrite HX. cbn [fst].
  pose proof (rows_total f ok stands (rows_of raw) Hf) as Ht. unfold total_reply in Ht.
  destruct (forallb ok (rows_of raw)); [|by rewrite Ht]. destruct Ht as (bs & -> & ?). eauto.
Qed.

(** One number of a row, read by a lemma that says it is read or panics: the row
    goes on, or panics. *)
Ltac read_field lem :=
  let Hok := fresh "Hok" in
  destruct lem as [[Hok (? & -> & ?)]|[Hok ->]]; rewrite Hok; cbn [andb mbind outcome_bind]; [| by right].

(** ** Numbers of a reply *)
Section numbers.
Context {D : Type} `{DecimalLaws D}.

(** A number of a reply: absent and zero, or the decimal it writes. *)
Definition reads (s : string) (d : D) : Prop :=
  s = "" /\ (val d == 0)%Q \/ s <> "" /\ dec_NewFromString s = inl d.

Definition number_ok (s : string) : bool :=
  bool_decide (s = "") || match dec_NewFromString (D := D) s with inl _ => true | inr _ => false end.

Lemma zero_parses : exists z, dec_NewFromString (D := D) "0" = inl z /\ (val z == 0)%Q.
Proof using Type*. by apply (NewFromString_law "0" (0 # 1)). Qed.

Lemma or_zero_total s :
  (number_ok s = true /\ exists d, dec_NewFromString (or_zero s) = inl d /\ reads s d)
  \/ (number_ok s = false /\ exists e, dec_NewFromString (D := D) (or_zero s) = inr e).
Proof using Type*.
  unfold number_ok, or_zero, reads. case_decide as Hs.
  - left. rewrite bool_decide_eq_true_2 by done. split; [done |].
    destruct zero_parses as (z & Hz & Hv). exists z. split; [done | by left].
  - rewrite bool_decide_eq_false_2 by done. simpl.
    destruct (dec_NewFromString s) as [d|e] eqn:Hd; [left | right]; (split; [done |]); eauto.
Qed.

Lemma quantity_total s :
  (number_ok s = true /\ exists q, MustNewQuantity (or_zero s) = Ret q /\ reads s (qty_dec q))
  \/ (number_ok s = false /\ MustNewQuantity (D := D) (or_zero s) = Panic).
Proof using Type*.
  unfold MustNewQuantity.
  destruct (or_zero_total s) as [(Hok & d & -> & Hr)|(Hok & e & ->)]; [left | by right].
  split; [done |]. by exists (mkQuantity d).
Qed.

Lemma rate_total s :
  (number_ok s = true /\ exists q, MustNewRate (or_zero s) = Ret q /\ reads s (rate_dec q))
  \/ (number_ok s = false /\ MustNewRate (D := D) (or_zero s) = Panic).
Proof using Type*.
  unfold MustNewRate.
  destruct (or_zero_total s) as [(Hok & d & -> & Hr)|(Hok & e & ->)]; [left | by right].
  split; [done |]. by exists (mkRate d).
Qed.

Lemma price_total s :
  (number_ok s = true /\ exists q, MustNewPrice (or_zero s) "0" = Ret q /\ reads s (price_dec q) /\ (val (price_tick q) == 0)%Q)
  \/ (number_ok s = false /\ MustNewPrice (D := D) (or_zero s) "0" = Panic).
Proof using Type*.
  unfold MustNewPrice. destruct zero_parses as (z & -> & Hz).
  destruct (or_zero_total s) as [(Hok & d & -> & Hr)|(Hok & e & ->)]; [left | by right].
  split; [done |]. by exists (mkPrice d z).
Qed.

Lemma money_total s cur scale :
  (number_ok s = true /\ exists q, MustNewMoney (or_zero s) cur scale = Ret q /\ reads s (money_dec q) /\ currency q = cur)
  \/ (number_ok s = false /\ MustNewMoney (D := D) (or_zero s) cur scale = Panic).
Proof using Type*.
  unfold MustNewMoney.
  destruct (or_zero_total s) as [(Hok & d & -> & Hr)|(Hok & e & ->)]; [left | by right].
  split; [done |]. by exists (mkMoney d cur scale).
Qed.

(** A number that a mapping hands to its constructor as it came: an absent one
    does not parse. *)
Definition parses (s : string) : bool :=
  match dec_NewFromString (D := D) s with inl _ => true | inr _ => false end.

Definition is_number (s : string) (d : D) : Prop := dec_NewFromString s = inl d.

Lemma quantity_strict s :
  (parses s = true /\ exists q, MustNewQuantity s = Ret q /\ is_number s (qty_dec q))
  \/ (parses s = false /\ MustNewQuantity (D := D) s = Panic).
Proof using Type.
  unfold parses, MustNewQuantity, is_number. destruct (dec_NewFromString s) as [d|]; [left | by right].
  split; [done |]. by exists (mkQuantity d).
Qed.

Lemma rate_strict s :
  (parses s = true /\ exists q, MustNewRate s = Ret q /\ is_number s (rate_dec q))
  \/ (parses s = false /\ MustNewRate (D := D) s = Panic).
Proof using Type.
  unfold parses, MustNewRate, is_number. destruct (dec_NewFromString s) as [d|]; [left | by right].
  split; [done |]. by exists (mkRate d).
Qed.

Lemma price_strict s :
  (parses s = true /\ exists q, MustNewPrice s "0" = Ret q /\ is_number s (price_dec q))
  \/ (parses s = false /\ MustNewPrice (D := D) s "0" = Panic).
Proof using Type*.
  unfold parses, MustNewPrice, is_number. destruct zero_parses as (z & -> & _).
  destruct (dec_NewFromString s) as [d|]; [left | by right].
  split; [done |]. by exists (mkPrice d z).
Qed.

Lemma money_strict s cur sc :
  (parses s = true /\ exists q, MustNewMoney s cur sc = Ret q /\ is_number s (money_dec q) /\ currency q = cur)
  \/ (parses s = false /\ MustNewMoney (D := D) s cur sc = Panic).
Proof using Type.
  unfold parses, MustNewMoney, is_number. destruct (dec_NewFromString s) as [d|]; [left | by right].
  split; [done |]. by exists (mkMoney d cur sc).
Qed.

End numbers.

(** A closed decidable proposition. *)
Ltac decided := apply (bool_decide_unpack _); vm_compute; exact I.

(** One number of a row: the row goes on when it reads, and panics otherwise. *)
Ltac field_total lem :=
  let Hok := fresh "Hok" in
  destruct lem as [[Hok (? & -> & ?)]|[Hok ->]]; rewrite Hok; cbn [andb mbind outcome_bind]; [| by right].

(** The numbers of a row, one by one. *)
Ltac all_read := rewrite ?Forall2_cons, Forall2_nil; tauto.

(** ** What the checks accept *)
Definition digits2 (n : Z) : bytes := [digit_char (n / 10); digit_char (n mod 10)].
Definition digits4 (n : Z) : bytes := digits2 (n / 100) ++ digits2 (n mod 100).

Lemma dig_checked :
  forallb (fun c => implb (is_dig c) (bool_decide (0 <= dig c <= 9 /\ c = digit_char (dig c)))) all_ascii = true.
Proof. vm_compute. reflexivity. Qed.

Lemma dig_cases c : is_dig c = true -> 0 <= dig c <= 9 /\ c = digit_char (dig c).
Proof.
  intros Hc. pose proof (ascii_forall _ dig_checked c) as H. simpl in H. rewrite Hc in H.
  by apply bool_decide_eq_true in H.
Qed.

Lemma digit_char_dig n : 0 <= n <= 9 -> is_dig (digit_char n) = true /\ dig (digit_char n) = n.
Proof.
  intros Hn. apply (range_decided (fun n => is_dig (digit_char n) = true /\ dig (digit_char n) = n) 0 10); [done | lia].
Qed.

Lemma getnum_digits2 n s fixed : 0 <= n < 100 -> getnum (digits2 n ++ s) fixed = Some (n, s).
Proof.
  intros Hn. pose proof (Z.div_mod n 10 ltac:(lia)) as Hd. pose proof (Z.mod_pos_bound n 10 ltac:(lia)).
  assert (0 <= n / 10 <= 9) by (split; [apply Z.div_pos; lia | apply Z.lt_succ_r, Z.div_lt_upper_bound; lia]).
  destruct (digit_char_dig (n / 10)) as [H1 H2]; [done |].
  destruct (digit_char_dig (n mod 10)) as [H3 H4]; [lia |].
  unfold getnum. cbn [digits2 app]. rewrite H1, H2, H3, H4. simpl. do 2 f_equal. lia.
Qed.

Lemma getnum_fixed s n s' : getnum s true = Some (n, s') -> 0 <= n < 100 /\ s = digits2 n ++ s'.
Proof.
  destruct s as [|c [|d s]]; simpl; [done | by rewrite andb_false_r |].
  destruct (is_dig c) eqn:Hc; [|done]. destruct (is_dig d) eqn:Hd; [|done]. simpl. intros [= <- <-].
  destruct (dig_cases c Hc) as [Hrc Hec], (dig_cases d Hd) as [Hrd Hed]. split; [lia |].
  unfold digits2. rewrite Z.div_add_l, (Z.div_small (dig d)), Z.add_0_r by lia.
  rewrite (Z.add_comm (dig c * 10)), Z.mod_add, (Z.mod_small (dig d)) by lia. by rewrite <- Hec, <- Hed.
Qed.

Lemma digits2_cons n s : digits2 n ++ s = digit_char (n / 10) :: digit_char (n mod 10) :: s.
Proof. reflexivity. Qed.

(** A one-digit hour leaves a minute that does not start with a digit. *)
Lemma getnum_hour s n s' : getnum s false = Some (n, s') -> is_Some (getnum s' true) ->
  0 <= n < 100 /\ s = digits2 n ++ s'.
Proof.
  intros Hg Hm. destruct (getnum s true) as [[n' s'']|] eqn:Hf.
  - apply getnum_fixed in Hf as [Hn ->]. rewrite getnum_digits2 in Hg by done. by injection Hg as <- <-.
  - exfalso. destruct s as [|c [|d s]]; simpl in Hg, Hf; [done | |].
    + destruct (is_dig c); simpl in Hg; [|done]. injection Hg as <- <-. by destruct Hm.
    + destruct (is_dig c); [|done]. destruct (is_dig d) eqn:Hd; [done |]. simpl in Hg. injection Hg as <- <-.
      destruct Hm as [[k s'] Hk]. destruct s as [|e s]; simpl in Hk; [by rewrite andb_false_r in Hk |].
      by rewrite Hd in Hk.
Qed.

Definition is_fraction (s : bytes) : Prop :=
  s = [] \/ exists p ds, char_in p ".," = true /\ ds <> [] /\ Forall (fun c => is_dig c = true) ds /\ s = p :: ds.

Lemma skip_digits_nil s : skip_digits s = [] <-> Forall (fun c => is_dig c = true) s.
Proof.
  induction s as [|c s IH]; simpl; [split; [constructor | done] |].
  rewrite Forall_cons. destruct (is_dig c); [rewrite IH | split; [done | by intros [? _]]].
  split; [done | by intros [_ ?]].
Qed.

Lemma skip_fraction_nil s : skip_fraction s = [] <-> is_fraction s.
Proof.
  unfold is_fraction. destruct s as [|p [|d s]]; simpl.
  - split; [by left | done].
  - split; [done |]. intros [?|(q & ds & _ & Hne & _ & [= -> <-])]; done.
  - destruct (char_in p ".,") eqn:Hp; simpl; [|split; [done |]].
    + destruct (is_dig d) eqn:Hd; simpl.
      * rewrite skip_digits_nil. split.
        -- intros Hs. right. exists p, (d :: s). repeat split; [done | done | by constructor].
        -- intros [?|(q & ds & _ & _ & Hs & [= <- <-])]; [done | by inversion Hs].
      * split; [done |]. intros [?|(q & ds & _ & _ & Hs & [= <- <-])]; [done |].
        apply Forall_cons in Hs as [? _]. congruence.
    + intros [?|(q & ds & Hq & _ & _ & [= <- <-])]; [done | congruence].
Qed.

Lemma bounded_Some n hi : bounded n hi = Some tt <-> n < hi.
Proof. unfold bounded. case_decide; split; done. Qed.

(** A time of day as six digits, which may be followed by a fraction. *)
Lemma parse_clock_spec value h m s :
  parse_clock value = Some (h, m, s)
  <-> 0 <= h < 24 /\ 0 <= m < 60 /\ 0 <= s < 60
      /\ exists rest, is_fraction rest /\ text value = digits2 h ++ digits2 m ++ digits2 s ++ rest.
Proof.
  unfold parse_clock. split.
  - intros ((h' & s1) & H1 & H)%bind_Some. apply bind_Some in H as ([] & Hb1%bounded_Some & H).
    apply bind_Some in H as ((m' & s2) & H2 & H). apply bind_Some in H as ([] & Hb2%bounded_Some & H).
    apply bind_Some in H as ((s' & s3) & H3 & H). apply bind_Some in H as ([] & Hb3%bounded_Some & H).
    destruct (skip_fraction s3) eqn:Hf; [|done]. injection H as -> -> ->.
    apply skip_fraction_nil in Hf.
    destruct (getnum_hour _ _ _ H1 ltac:(eauto)) as [Hh Ht].
    apply getnum_fixed in H2 as [Hm ->], H3 as [Hs ->].
    split; [lia |]. split; [lia |]. split; [lia |]. by exists s3.
  - intros (Hh & Hm & Hs & rest & Hr & ->).
    rewrite getnum_digits2 by lia. cbn [mbind option_bind]. rewrite (proj2 (bounded_Some h 24)) by lia. cbn [mbind option_bind].
    rewrite getnum_digits2 by lia. cbn [mbind option_bind]. rewrite (proj2 (bounded_Some m 60)) by lia. cbn [mbind option_bind].
    rewrite getnum_digits2 by lia. cbn [mbind option_bind]. rewrite (proj2 (bounded_Some s 60)) by lia. cbn [mbind option_bind].
    apply skip_fraction_nil in Hr. by rewrite Hr.
Qed.

Lemma get_year_spec s y s' : get_year s = Some (y, s') <-> 0 <= y < 10000 /\ s = digits4 y ++ s'.
Proof.
  split.
  - destruct s as [|a [|b [|c [|d s]]]]; simpl; [done.. |].
    destruct (is_dig a) eqn:Ha, (is_dig b) eqn:Hb, (is_dig c) eqn:Hc, (is_dig d) eqn:Hd; simpl; try done.
    intros [= <- <-].
    destruct (dig_cases a Ha) as [? Ea], (dig_cases b Hb) as [? Eb], (dig_cases c Hc) as [? Ec],
      (dig_cases d Hd) as [? Ed].
    split; [lia |]. unfold digits4.
    assert (Hq : (dig a * 1000 + dig b * 100 + dig c * 10 + dig d) / 100 = dig a * 10 + dig b).
    { symmetry. apply (Z.div_unique_pos _ 100 _ (dig c * 10 + dig d)); lia. }
    assert (Hr : (dig a * 1000 + dig b * 100 + dig c * 10 + dig d) mod 100 = dig c * 10 + dig d).
    { symmetry. apply (Z.mod_unique_pos _ 100 (dig a * 10 + dig b)); lia. }
    rewrite Hq, Hr. unfold digits2.
    assert (Hs : forall x y, 0 <= y <= 9 -> (x * 10 + y) / 10 = x /\ (x * 10 + y) mod 10 = y).
    { intros x z Hz. split; symmetry;
        [apply (Z.div_unique_pos _ 10 _ z) | apply (Z.mod_unique_pos _ 10 x)]; lia. }
    destruct (Hs (dig a) (dig b) ltac:(lia)) as [-> ->], (Hs (dig c) (dig d) ltac:(lia)) as [-> ->].
    by rewrite <- Ea, <- Eb, <- Ec, <- Ed.
  - intros [Hy ->]. unfold digits4, digits2. simpl.
    pose proof (Z.div_mod y 100 ltac:(lia)). pose proof (Z.mod_pos_bound y 100 ltac:(lia)).
    assert (0 <= y / 100 < 100) by (split; [apply Z.div_pos; lia | apply Z.div_lt_upper_bound; lia]).
    assert (Hd : forall x, 0 <= x < 100 -> 0 <= x / 10 <= 9 /\ 0 <= x mod 10 <= 9 /\ x = 10 * (x / 10) + x mod 10).
    { intros x Hx. pose proof (Z.div_mod x 10 ltac:(lia)). pose proof (Z.mod_pos_bound x 10 ltac:(lia)). lia. }
    destruct (Hd (y / 100)) as (A1 & A2 & A3); [lia |]. destruct (Hd (y mod 100)) as (B1 & B2 & B3); [lia |].
    destruct (digit_char_dig _ A1) as [-> ->], (digit_char_dig _ A2) as [-> ->],
      (digit_char_dig _ B1) as [-> ->], (digit_char_dig _ B2) as [-> ->]. simpl. do 2 f_equal. lia.
Qed.

(** Eight digits that are a day of the calendar. *)
Lemma parse_date_spec value y m d :
  parse_date value = Some (y, m, d)
  <-> 0 <= y < 10000 /\ 1 <= m <= 12 /\ 1 <= d <= days_in m y
      /\ text value = digits4 y ++ digits2 m ++ digits2 d.
Proof.
  unfold parse_date. split.
  - intros ((y' & s1) & H1 & H)%bind_Some. apply bind_Some in H as ((m' & s2) & H2 & H).
    case_decide; [|done]. apply bind_Some in H as ((d' & s3) & H3 & H). destruct s3; [|done].
    case_decide; [|done]. injection H as -> -> ->.
    apply get_year_spec in H1 as [Hy ->]. apply getnum_fixed in H2 as [_ ->], H3 as [_ ->].
    by rewrite app_nil_r.
  - intros (Hy & Hm & Hd & ->).
    assert (days_in m y <= 31) by (unfold days_in; repeat case_decide; try case_match; lia).
    rewrite (proj2 (get_year_spec _ _ _) (conj Hy eq_refl)). cbn [mbind option_bind].
    rewrite getnum_digits2 by lia. cbn [mbind option_bind]. rewrite decide_True by done.
    rewrite <- (app_nil_r (digits2 d)), getnum_digits2 by lia. cbn [mbind option_bind]. by rewrite decide_True.
Qed.

(** An instrument code: something, and no blank inside. *)
Definition code_ok (code : string) : Prop :=
  TrimSpace (text code) <> [] /\ forall c, c ∈ TrimSpace (text code) -> char_in c blank_chars = false.

Definition id_ok (id : string) : Prop := TrimSpace (text id) <> [].

(** A time of the window: none, or six digits of a time of day, and as the parser
    has it a fraction of a second may follow. *)
Definition clock_ok (value : string) : Prop :=
  value = "" \/ exists h m s rest, 0 <= h < 24 /\ 0 <= m < 60 /\ 0 <= s < 60 /\ is_fraction rest
    /\ text value = digits2 h ++ digits2 m ++ digits2 s ++ rest.

(** What the documentation of a window time says: none, or a time of day HHmmSS. *)
Definition clock_documented (value : string) : Prop :=
  value = "" \/ exists h m s, 0 <= h < 24 /\ 0 <= m < 60 /\ 0 <= s < 60
    /\ text value = digits2 h ++ digits2 m ++ digits2 s.

(** A day of the calendar, as eight digits. *)
Definition day_ok (date : string) : Prop :=
  exists y m d, 0 <= y < 10000 /\ 1 <= m <= 12 /\ 1 <= d <= days_in m y
    /\ text date = digits4 y ++ digits2 m ++ digits2 d.

Lemma contains_any_false s chars : contains_any s chars = false <-> forall c, c ∈ s -> char_in c chars = false.
Proof.
  unfold contains_any. rewrite <- not_true_iff_false, existsb_exists. split.
  - intros Hn c Hc. destruct (char_in c chars) eqn:E; [|done]. destruct Hn. exists c.
    split; [by apply list_elem_of_In | done].
  - intros Hall (c & Hc & Ht). rewrite (Hall c) in Ht; [done | by apply list_elem_of_In].
Qed.

(** The check the order surfaces put on an instrument code. *)
Lemma stock_code_check op code :
  (require (TrimSpace (text code) <> []) op "stockCode must not be empty" ;?;
   require (contains_any (TrimSpace (text code)) blank_chars = false) op "stockCode must not contain whitespace")
  = Ret None <-> code_ok code.
Proof. unfold code_ok. by rewrite and_then_ok, !require_ok, contains_any_false. Qed.

Lemma clock_parses value : value = "" \/ is_Some (parse_clock value) <-> clock_ok value.
Proof.
  unfold clock_ok. split; (intros [?|Hv]; [by left | right]).
  - destruct Hv as [[[h m] s] Hp]. apply parse_clock_spec in Hp as (? & ? & ? & rest & ? & ?). by exists h, m, s, rest.
  - destruct Hv as (h & m & s & rest & ? & ? & ? & ? & ?). exists (h, m, s). apply parse_clock_spec.
    do 3 (split; [done |]). by exists rest.
Qed.

(** The parser takes the documented times, and those with a fraction. *)
Lemma clock_documented_ok value :
  clock_documented value <-> clock_ok value /\ (length (text value) <= 6)%nat.
Proof.
  unfold clock_documented, clock_ok. split.
  - intros [->|(h & m & s & Hh & Hm & Hs & He)]; [by split; [left | simpl; lia] |].
    split; [right; exists h, m, s, []; rewrite !app_nil_r; repeat split; first [done | lia | by left] |].
    rewrite He. simpl. lia.
  - intros [[->|(h & m & s & rest & Hh & Hm & Hs & Hr & He)] Hl]; [by left | right].
    exists h, m, s. do 3 (split; [done |]). rewrite He in Hl |- *. rewrite !length_app in Hl. simpl in Hl.
    destruct rest; [by rewrite !app_nil_r | simpl in Hl; lia].
Qed.

Lemma fractional_clock start fraction :
  start <> "" -> clock_documented start -> fraction <> "" -> is_fraction (text fraction) ->
  ~ clock_documented (start +:+ fraction) /\ clock_ok (start +:+ fraction).
Proof.
  intros Hs [?|(h & m & s & Hh & Hm & Hss & He)] Hf Hr; [done |].
  assert (Ht : text (start +:+ fraction) = digits2 h ++ digits2 m ++ digits2 s ++ text fraction)
    by (rewrite text_app, He; by rewrite <- !app_assoc).
  split; [| right; by exists h, m, s, (text fraction)].
  rewrite clock_documented_ok, Ht. intros [_ Hl]. destruct fraction; [done |]. simpl in Hl. lia.
Qed.

Lemma date_parses date : is_Some (parse_date date) <-> day_ok date.
Proof.
  unfold day_ok. split.
  - intros [[[y m] d] Hp]. apply parse_date_spec in Hp as (? & ? & ? & ?). by exists y, m, d.
  - intros (y & m & d & ? & ? & ? & ?). exists (y, m, d). by apply parse_date_spec.
Qed.

Lemma is_dig_digit_char n : 0 <= n < 10 -> is_dig (digit_char n) = true.
Proof. intros Hn. apply digit_char_dig. lia. Qed.

Lemma digits2_shaped n : 0 <= n < 100 -> forallb is_dig (digits2 n) = true.
Proof.
  intros Hn. unfold digits2. simpl.
  assert (0 <= n / 10 < 10) by (split; [apply Z.div_pos; lia | apply Z.div_lt_upper_bound; lia]).
  pose proof (Z.mod_pos_bound n 10 ltac:(lia)). by rewrite !is_dig_digit_char.
Qed.

Lemma days_in_le m y : days_in m y <= 31.
Proof. unfold days_in. repeat case_decide; try case_match; lia. Qed.

Lemma day_shaped date : day_ok date -> length (text date) = 8%nat /\ forallb is_dig (text date) = true.
Proof.
  intros (y & m & d & Hy & Hm & Hd & ->). split; [done |]. unfold digits4. pose proof (days_in_le m y).
  assert (0 <= y / 100 < 100) by (split; [apply Z.div_pos; lia | apply Z.div_lt_upper_bound; lia]).
  pose proof (Z.mod_pos_bound y 100 ltac:(lia)).
  by rewrite !forallb_app, !digits2_shaped by lia.
Qed.

Section amounts.
Context {D : Type} `{DecimalLaws D}.

Lemma negative_ok (d : D) : dec_IsNegative d = false <-> (0 <= val d)%Q.
Proof using Type*.
  rewrite <- not_true_iff_false, IsNegative_law. split; [apply Qnot_lt_le | apply Qle_not_lt].
Qed.

Lemma positive_ok (q : Quantity D) : Quantity_IsPositive q = true <-> (0 < val (qty_dec q))%Q.
Proof using Type*.
  unfold Quantity_IsPositive. rewrite andb_true_iff, negb_true_iff, <- not_true_iff_false, IsPositive_law,
    IsZero_law. split; [by intros [? _] |]. intros Hp. split; [done |]. intros Hz. rewrite Hz in Hp.
  by apply Qlt_irrefl in Hp.
Qed.

(** The check the order surfaces put on a price: not negative, no step. *)
Lemma order_price_check op (p : Price D) :
  let check := match Price_Validate p false with
    | Ret (Some e) => Ret (Some (Errs.New StatusInvalidParam op
        ("entrustPrice must be a non-negative decimal: " +:+ error_text e)))
    | r => r
    end in
  checks_of op check /\ (check = Ret None <-> (0 <= val (price_dec p))%Q).
Proof using Type*.
  cbv zeta. rewrite <- negative_ok. unfold Price_Validate, checks_of.
  destruct (dec_IsNegative (price_dec p)); simpl; (split; [eauto | done]).
Qed.
End amounts.
