(* ===== verification/Algo.v ===== *)
(** Algorithm trading: the dictionaries, wire rows and mappings of
    [src/pkg/domain/algo.go], and the seven operations of
    [src/pkg/services/algo.go]. *)
From Stdlib Require Import QArith.
From S2P Require Import Prelude Types Errs Retry Routes Domain Decimals Service.
Local Open Scope Z_scope.
Local Open Scope go_scope.

(** ** Dictionaries *)
Definition algoZeroTick : string := "0".
Definition algoBaseCurrency : string := "HKD".
Definition algoMoneyScale : Z := 3.

Definition AlgoEntrustTypeLimit : string := "1".
Definition AlgoEntrustTypeMarket : string := "2".
Definition AlgoEntrustType_Valid (t : string) : bool :=
  bool_decide (t = AlgoEntrustTypeLimit \/ t = AlgoEntrustTypeMarket).

Definition AlgoSessionTypeOff : string := "0".
Definition AlgoSessionTypeOn : string := "1".
Definition AlgoSessionType_Valid (s : string) : bool :=
  bool_decide (s = AlgoSessionTypeOff \/ s = AlgoSessionTypeOn).

Definition AlgoSensitivityNeutral : string := "1".
Definition AlgoSensitivityAggressive : string := "2".
Definition AlgoSensitivityPassive : string := "3".
Definition AlgoSensitivity_Valid (s : string) : bool :=
  bool_decide (s ∈ [AlgoSensitivityNeutral; AlgoSensitivityAggressive; AlgoSensitivityPassive]).

Definition AlgoStatusRegistered : string := "0".
Definition AlgoStatusPartFilled : string := "1".
Definition AlgoStatusFilled : string := "2".
Definition AlgoStatusCompleted : string := "3".
Definition AlgoStatusCancelled : string := "4".
Definition AlgoStatusModified : string := "5".
Definition AlgoStatusWaitCancel : string := "6".
Definition AlgoStatusRejected : string := "8".
Definition AlgoStatusPending : string := "A".
Definition AlgoStatusExpired : string := "C".
Definition AlgoStatusWaitModify : string := "E".

Definition AlgoStrategyStatusStart : string := "1".
Definition AlgoStrategyStatusStop : string := "2".
Definition AlgoStrategyStatusSuspend : string := "3".
Definition AlgoStrategyStatusResume : string := "4".

Definition AlgoStrategyVWAP : string := "1".
Definition AlgoStrategyTWAP : string := "1001".
Definition AlgoStrategyIceberg : string := "1002".
Definition AlgoStrategyTPOV : string := "1003".
Definition AlgoStrategyPOV : string := "1005".

Definition AlgoActionStart : string := "1".
Definition AlgoActionStop : string := "2".
Definition AlgoActionSuspend : string := "3".
Definition AlgoActionResume : string := "4".
Definition AlgoAction_Valid (a : string) : bool :=
  bool_decide (a ∈ [AlgoActionStart; AlgoActionStop; AlgoActionSuspend; AlgoActionResume]).
Definition AlgoAction_String (a : string) : string :=
  switch a [(AlgoActionStart, "START"); (AlgoActionStop, "STOP"); (AlgoActionSuspend, "SUSPEND");
            (AlgoActionResume, "RESUME")] ("AlgoAction(" +:+ a +:+ ")").

(** ** Rows of the replies *)
Record AlgoStrategyParamWire := mkAlgoStrategyWire {
  asw_OrigStartTime : string;
  asw_OrigEndTime : string;
  asw_MaxVolume : string;
  asw_MinAmount : string;
  asw_Sensitivity : string;
  asw_ShowQty : string;
  asw_QtyPercent : string;
  asw_Interval : Z;
}.

Record AlgoMasterOrderWire := mkAlgoMasterWire {
  amw_OrderID : string;
  amw_StockCode : string;
  amw_ExchangeType : string;
  amw_TradeDate : string;
  amw_EntrustType : string;
  amw_EntrustPrice : string;
  amw_EntrustAmount : string;
  amw_CumQty : string;
  amw_LeavesQty : string;
  amw_Status : string;
  amw_EntrustBS : string;
  amw_TargetStrategy : string;
  amw_StrategyStatus : string;
  amw_StrategyParam : AlgoStrategyParamWire;
  amw_RoundLot : string;
  amw_SendingTime : string;
  amw_TransactionTime : string;
  amw_AvgPx : string;
}.

Section algo.
Context {D : Type} `{Decimal D}.

(** The tuning object of both layers: [domain.AlgoStrategyParam] and
    [services.AlgoStrategyParam] have the same fields. *)
Record AlgoStrategyParam := mkAlgoStrategyParam {
  as_OrigStartTime : string;
  as_OrigEndTime : string;
  as_MaxVolume : Quantity D;
  as_MinAmount : Money D;
  as_Sensitivity : string;
  as_ShowQty : Quantity D;
  as_QtyPercent : Rate D;
  as_Interval : Z;
}.

Record AlgoMasterOrder := mkAlgoMaster {
  am_OrderID : string;
  am_StockCode : string;
  am_ExchangeType : string;
  am_TradeDate : string;
  am_EntrustType : string;
  am_EntrustPrice : Price D;
  am_EntrustAmount : Quantity D;
  am_CumQty : Quantity D;
  am_LeavesQty : Quantity D;
  am_Status : string;
  am_EntrustBS : string;
  am_TargetStrategy : string;
  am_StrategyStatus : string;
  am_StrategyParam : AlgoStrategyParam;
  am_RoundLot : Quantity D;
  am_SendingTime : string;
  am_TransactionTime : string;
  am_AvgPx : Price D;
}.

Definition algoPrice (value : string) : outcome (Price D) := MustNewPrice (or_zero value) algoZeroTick.
Definition algoQuantity (value : string) : outcome (Quantity D) := MustNewQuantity (or_zero value).
Definition algoMoney (value : string) : outcome (Money D) :=
  MustNewMoney (or_zero value) algoBaseCurrency algoMoneyScale.
Definition algoRate (value : string) : outcome (Rate D) := MustNewRate (or_zero value).

Definition AlgoStrategyParamFromDTO (v : AlgoStrategyParamWire) : outcome AlgoStrategyParam :=
  maxVolume ← algoQuantity (asw_MaxVolume v);
  minAmount ← algoMoney (asw_MinAmount v);
  showQty ← algoQuantity (asw_ShowQty v);
  qtyPercent ← algoRate (asw_QtyPercent v);
  Ret (mkAlgoStrategyParam (asw_OrigStartTime v) (asw_OrigEndTime v) maxVolume minAmount
    (asw_Sensitivity v) showQty qtyPercent (asw_Interval v)).

Definition AlgoMasterOrderFromDTO (v : AlgoMasterOrderWire) : outcome AlgoMasterOrder :=
  price ← algoPrice (amw_EntrustPrice v);
  amount ← algoQuantity (amw_EntrustAmount v);
  cum ← algoQuantity (amw_CumQty v);
  leaves ← algoQuantity (amw_LeavesQty v);
  param ← AlgoStrategyParamFromDTO (amw_StrategyParam v);
  lot ← algoQuantity (amw_RoundLot v);
  avg ← algoPrice (amw_AvgPx v);
  Ret (mkAlgoMaster (amw_OrderID v) (amw_StockCode v) (amw_ExchangeType v) (amw_TradeDate v)
    (amw_EntrustType v) price amount cum leaves (amw_Status v) (amw_EntrustBS v)
    (amw_TargetStrategy v) (amw_StrategyStatus v) param lot (amw_SendingTime v)
    (amw_TransactionTime v) avg).
End algo.
Arguments AlgoStrategyParam D : clear implicits.
Arguments AlgoMasterOrder D : clear implicits.

(** ** Requests *)
Definition opAlgoAddOrder : string := "trade/AlgoAddOrder".
Definition opAlgoCancelOrder : string := "trade/AlgoCancelOrder".
Definition opAlgoCancelEntrust : string := "trade/AlgoCancelEntrust".
Definition opAlgoChangeOrder : string := "trade/AlgoChangeOrder".
Definition opAlgoActionOrder : string := "trade/AlgoActionOrder".
Definition opAlgoQueryOrderList : string := "trade/AlgoQueryOrderList".
Definition opAlgoQueryEntrustIDList : string := "trade/AlgoQueryEntrustIdList".

Definition algoDefaultPageNo : Z := 1.
Definition algoDefaultPageSize : Z := 30.
Definition algoQtyPercentMaxDigits : nat := 2.

Section requests.
Context {D : Type} `{Decimal D}.

Record AlgoAddOrderRequest := mkAlgoAdd {
  aa_StockCode : string;
  aa_ExchangeType : string;
  aa_OrderType : string;
  aa_Price : Price D;
  aa_Quantity : Quantity D;
  aa_Side : string;
  aa_TargetStrategy : string;
  aa_SessionType : string;
  aa_StrategyParam : AlgoStrategyParam D;
}.

Record AlgoChangeOrderRequest := mkAlgoChange {
  ac_OrderID : string;
  ac_StockCode : string;
  ac_ExchangeType : string;
  ac_Price : Price D;
  ac_Quantity : Quantity D;
  ac_StrategyParam : AlgoStrategyParam D;
}.

Record AlgoCancelOrderRequest := mkAlgoCancel { al_OrderID : string; al_ExchangeType : string }.

Record AlgoCancelEntrustRequest := mkAlgoCancelEntrust {
  ae_OrderID : string;
  ae_EntrustID : string;
  ae_ExchangeType : string;
}.

Record AlgoActionRequest := mkAlgoAction {
  at_OrderID : string;
  at_Action : string;
  at_TargetStrategy : string;
  at_ExchangeType : string;
}.

Record AlgoOrderQuery := mkAlgoQuery { aq_Page : PageRequest; aq_ExchangeType : string; aq_StockCode : string }.

Record AlgoEntrustIDQuery := mkAlgoIDQuery {
  ai_OrderID : string;
  ai_TradeDate : string;
  ai_ExchangeType : string;
}.

(** The members of the tuning that are not zero. *)
Definition text_unless_zero (d : D) : string := if dec_IsZero d then "" else dec_String d.

Definition algoStrategyParamWireFrom (p : AlgoStrategyParam D) : body :=
  str_omitempty "origStartTime" (as_OrigStartTime p)
  ++ str_omitempty "origEndTime" (as_OrigEndTime p)
  ++ str_omitempty "maxVolume" (text_unless_zero (qty_dec (as_MaxVolume p)))
  ++ str_omitempty "minAmount" (text_unless_zero (money_dec (as_MinAmount p)))
  ++ str_omitempty "sensitivity" (as_Sensitivity p)
  ++ str_omitempty "showQty" (text_unless_zero (qty_dec (as_ShowQty p)))
  ++ str_omitempty "qtyPercent" (text_unless_zero (rate_dec (as_QtyPercent p)))
  ++ int_omitempty "interval" (as_Interval p).

Definition algoAddOrderWireRequest (o : AlgoAddOrderRequest) : body := [
  ("exchangeType", JStr (aa_ExchangeType o));
  ("stockCode", JStr (aa_StockCode o));
  ("entrustType", JStr (aa_OrderType o));
  ("entrustBs", JStr (aa_Side o));
  ("entrustAmount", JStr (dec_String (qty_dec (aa_Quantity o))));
  ("entrustPrice", JStr (dec_String (price_dec (aa_Price o))));
  ("targetStrategy", JStr (aa_TargetStrategy o));
  ("sessionType", JStr (aa_SessionType o));
  ("strategyParam", JObj (algoStrategyParamWireFrom (aa_StrategyParam o)))].

Definition algoChangeOrderWireRequest (c : AlgoChangeOrderRequest) : body := [
  ("orderId", JStr (ac_OrderID c));
  ("exchangeType", JStr (ac_ExchangeType c));
  ("stockCode", JStr (ac_StockCode c));
  ("entrustAmount", JStr (dec_String (qty_dec (ac_Quantity c))));
  ("entrustPrice", JStr (dec_String (price_dec (ac_Price c))));
  ("strategyParam", JObj (algoStrategyParamWireFrom (ac_StrategyParam c)))].

Definition algoCancelOrderWireRequest (r : AlgoCancelOrderRequest) : body := [
  ("exchangeType", JStr (al_ExchangeType r)); ("orderId", JStr (al_OrderID r))].

Definition algoCancelEntrustWireRequest (r : AlgoCancelEntrustRequest) : body := [
  ("exchangeType", JStr (ae_ExchangeType r));
  ("orderId", JStr (ae_OrderID r));
  ("entrustId", JStr (ae_EntrustID r))].

Definition algoActionOrderWireRequest (r : AlgoActionRequest) : body := [
  ("orderId", JStr (at_OrderID r));
  ("exchangeType", JStr (at_ExchangeType r));
  ("action", JStr (at_Action r));
  ("targetStrategy", JStr (at_TargetStrategy r))].

Definition algoOrderQueryWireRequest (q : AlgoOrderQuery) : body :=
  let page := aq_Page q in
  int_field "pageNo" (if decide (PageNo page <= 0) then algoDefaultPageNo else PageNo page)
  ++ int_field "pageSize" (if decide (PageSize page <= 0) then algoDefaultPageSize else PageSize page)
  ++ str_field "startDate" (StartDate page)
  ++ str_field "endDate" (EndDate page)
  ++ str_omitempty "exchangeType" (aq_ExchangeType q)
  ++ str_omitempty "stockCode" (aq_StockCode q).

Definition algoEntrustIDQueryWireRequest (q : AlgoEntrustIDQuery) : body := [
  ("orderId", JStr (ai_OrderID q));
  ("tradeDate", JStr (ai_TradeDate q));
  ("exchangeType", JStr (ai_ExchangeType q))].
End requests.
Arguments AlgoAddOrderRequest D : clear implicits.
Arguments AlgoChangeOrderRequest D : clear implicits.

(** ** Validation *)
Section validation.
Context {D : Type} `{Decimal D}.

Abbreviation checks := (outcome (option error)).

Definition algoValidateStockCode (op code : string) : checks :=
  let trimmed := TrimSpace (text code) in
  require (trimmed <> []) op "stockCode must not be empty" ;?;
  require (contains_any trimmed blank_chars = false) op "stockCode must not contain whitespace".

Definition algo_markets : list string :=
  [ExchangeHK; ExchangeUS; ExchangeShenzhenConnect; ExchangeShanghaiConnect].

Definition algoValidateExchangeType (op exchange : string) : checks :=
  require (exchange ∈ algo_markets) op
    "exchangeType must be K (Hong Kong), P (US), v (Shenzhen Connect) or t (Shanghai Connect)".

Definition algo_sides : list string := [EntrustBuy; EntrustSell; EntrustCloseShort; EntrustOpenShort].

Definition algoValidateDirection (op side : string) : checks :=
  require (side ∈ algo_sides) op "entrustBs must be 1, 2, 3 or 4".

Definition algoValidateOrderType (op orderType : string) : checks :=
  require (AlgoEntrustType_Valid orderType = true) op "entrustType must be 1 (limit) or 2 (market)".

Definition algoValidateSessionType (op session : string) : checks :=
  require (AlgoSessionType_Valid session = true) op "sessionType must be 0 (off) or 1 (on)".

Definition algoValidateAction (op action : string) : checks :=
  require (AlgoAction_Valid action = true) op "action must be 1 (START), 2 (STOP), 3 (SUSPEND) or 4 (RESUME)".

Definition algoValidateStrategy (op strategy : string) : checks :=
  present op "targetStrategy must not be empty" strategy.

Definition algoValidateOrderPrice (op : string) (price : Price D) : checks :=
  match Price_Validate price false with
  | Ret (Some e) => Ret (Some (Errs.New StatusInvalidParam op
      ("entrustPrice must be a non-negative decimal: " +:+ error_text e)))
  | r => r
  end.

Definition algoValidateOrderQuantity (op : string) (qty : Quantity D) : checks :=
  require (Quantity_IsPositive qty = true) op "entrustAmount must be a positive decimal".

Definition algoValidateMaxVolume (op : string) (maxVolume : Quantity D) : checks :=
  require (dec_IsNegative (qty_dec maxVolume) = false) op "strategyParam.maxVolume must not be negative".

Definition algoValidateOptionalQuantity (op field : string) (qty : Quantity D) : checks :=
  require (dec_IsNegative (qty_dec qty) = false) op ("strategyParam." +:+ field +:+ " must not be negative").

Definition algoValidateOptionalMoney (op field : string) (amount : Money D) : checks :=
  require (dec_IsNegative (money_dec amount) = false) op
    ("strategyParam." +:+ field +:+ " must not be negative").

Definition algoValidateRequiredMaxVolume (op : string) (maxVolume : Quantity D) : checks :=
  require (Quantity_IsPositive maxVolume = true) op "strategyParam.maxVolume must be a positive decimal".

Definition sensitivity_message : string :=
  "strategyParam.sensitivity must be 1 (neutral), 2 (aggressive) or 3 (passive)".

Definition algoValidateRequiredSensitivity (op sensitivity : string) : checks :=
  require (AlgoSensitivity_Valid sensitivity = true) op sensitivity_message.

Definition algoValidateOptionalSensitivity (op sensitivity : string) : checks :=
  require (sensitivity = "" \/ AlgoSensitivity_Valid sensitivity = true) op sensitivity_message.

Definition algoDigitsShaped (code : bytes) : bool :=
  bool_decide (code <> []) && forallb is_dig code.

Definition algoDateShaped (date : string) : bool :=
  bool_decide (length (text date) = 8%nat) && algoDigitsShaped (text date).

Definition algoValidateDate (op field date : string) : checks :=
  require (algoDateShaped date = true) op (field +:+ " must be yyyyMMdd") ;?;
  require (is_Some (parse_date date)) op (field +:+ " must be a valid calendar date").

Definition algoValidateTimeShaped (op field value : string) : checks :=
  require (value = "" \/ is_Some (parse_clock value)) op (field +:+ " must be HHmmSS").

Definition algoValidateInterval (op : string) (interval : Z) : checks :=
  require (0 <= interval) op "strategyParam.interval must not be negative".

(** [strings.Trim(s, "0")] *)
Definition trim_zeros (s : bytes) : bytes := TrimRight [["0"%char]] (TrimLeft [["0"%char]] s).

Definition percent_range : string := "strategyParam.qtyPercent must be between 1 and 99".

Definition algoValidateQtyPercent (op : string) (percent : Rate D) : checks :=
  if dec_IsZero (rate_dec percent) then Ret None
  else
    let digits := text (dec_String (rate_dec percent)) in
    require (dec_IsNegative (rate_dec percent) = false) op percent_range ;?;
    require (algoDigitsShaped digits = true) op "strategyParam.qtyPercent must be a whole number" ;?;
    require (~ ((algoQtyPercentMaxDigits < length digits)%nat \/ trim_zeros digits = [])) op percent_range.

Definition algoValidateOrderID (op orderID : string) : checks :=
  require (TrimSpace (text orderID) <> []) op "orderId must not be empty".

Definition algoValidateEntrustID (op entrustID : string) : checks :=
  require (TrimSpace (text entrustID) <> []) op "entrustId must not be empty".

Definition algoValidateStrategyParamTimes (op : string) (p : AlgoStrategyParam D) : checks :=
  algoValidateTimeShaped op "strategyParam.origStartTime" (as_OrigStartTime p) ;?;
  algoValidateTimeShaped op "strategyParam.origEndTime" (as_OrigEndTime p).

(** ** Operations *)
Definition account_check (op accountID : string) : checks := present op "accountID must not be empty" accountID.

Definition AddOrder_checks (accountID : string) (o : AlgoAddOrderRequest D) : checks :=
  let op := opAlgoAddOrder in
  let p := aa_StrategyParam o in
  account_check op accountID ;?;
  algoValidateStockCode op (aa_StockCode o) ;?;
  algoValidateExchangeType op (aa_ExchangeType o) ;?;
  algoValidateOrderType op (aa_OrderType o) ;?;
  algoValidateOrderPrice op (aa_Price o) ;?;
  algoValidateOrderQuantity op (aa_Quantity o) ;?;
  algoValidateDirection op (aa_Side o) ;?;
  algoValidateStrategy op (aa_TargetStrategy o) ;?;
  algoValidateSessionType op (aa_SessionType o) ;?;
  algoValidateRequiredMaxVolume op (as_MaxVolume p) ;?;
  algoValidateRequiredSensitivity op (as_Sensitivity p) ;?;
  algoValidateStrategyParamTimes op p ;?;
  algoValidateOptionalMoney op "minAmount" (as_MinAmount p) ;?;
  algoValidateOptionalQuantity op "showQty" (as_ShowQty p) ;?;
  algoValidateQtyPercent op (as_QtyPercent p) ;?;
  algoValidateInterval op (as_Interval p).

Definition ChangeOrder_checks (accountID : string) (c : AlgoChangeOrderRequest D) : checks :=
  let op := opAlgoChangeOrder in
  let p := ac_StrategyParam c in
  account_check op accountID ;?;
  algoValidateOrderID op (ac_OrderID c) ;?;
  algoValidateStockCode op (ac_StockCode c) ;?;
  algoValidateExchangeType op (ac_ExchangeType c) ;?;
  algoValidateOrderPrice op (ac_Price c) ;?;
  algoValidateOrderQuantity op (ac_Quantity c) ;?;
  algoValidateOptionalSensitivity op (as_Sensitivity p) ;?;
  algoValidateStrategyParamTimes op p ;?;
  algoValidateMaxVolume op (as_MaxVolume p) ;?;
  algoValidateOptionalMoney op "minAmount" (as_MinAmount p) ;?;
  algoValidateOptionalQuantity op "showQty" (as_ShowQty p) ;?;
  algoValidateQtyPercent op (as_QtyPercent p) ;?;
  algoValidateInterval op (as_Interval p).

Definition CancelOrder_checks (accountID : string) (r : AlgoCancelOrderRequest) : checks :=
  let op := opAlgoCancelOrder in
  account_check op accountID ;?;
  algoValidateOrderID op (al_OrderID r) ;?;
  algoValidateExchangeType op (al_ExchangeType r).

Definition CancelEntrust_checks (accountID : string) (r : AlgoCancelEntrustRequest) : checks :=
  let op := opAlgoCancelEntrust in
  account_check op accountID ;?;
  algoValidateOrderID op (ae_OrderID r) ;?;
  algoValidateEntrustID op (ae_EntrustID r) ;?;
  algoValidateExchangeType op (ae_ExchangeType r).

Definition ActionOrder_checks (accountID : string) (r : AlgoActionRequest) : checks :=
  let op := opAlgoActionOrder in
  account_check op accountID ;?;
  algoValidateOrderID op (at_OrderID r) ;?;
  algoValidateStrategy op (at_TargetStrategy r) ;?;
  algoValidateExchangeType op (at_ExchangeType r) ;?;
  algoValidateAction op (at_Action r).

Definition QueryOrderList_checks (accountID : string) (q : AlgoOrderQuery) : checks :=
  let op := opAlgoQueryOrderList in
  account_check op accountID ;?;
  algoValidateDate op "startDate" (StartDate (aq_Page q)) ;?;
  algoValidateDate op "endDate" (EndDate (aq_Page q)) ;?;
  require (~ (aq_StockCode q <> "" /\ aq_ExchangeType q = "")) op
    "exchangeType is required when stockCode is set" ;?;
  (if decide (aq_ExchangeType q <> "") then algoValidateExchangeType op (aq_ExchangeType q) else Ret None) ;?;
  (if decide (aq_StockCode q <> "") then algoValidateStockCode op (aq_StockCode q) else Ret None).

Definition QueryEntrustIDList_checks (accountID : string) (q : AlgoEntrustIDQuery) : checks :=
  let op := opAlgoQueryEntrustIDList in
  account_check op accountID ;?;
  algoValidateOrderID op (ai_OrderID q) ;?;
  algoValidateDate op "tradeDate" (ai_TradeDate q) ;?;
  algoValidateExchangeType op (ai_ExchangeType q).
End validation.

(** The replies, read as the structs the service passes. *)
Record algo_replies (Raw : Type) := mkAlgoReplies {
  as_algoOrderList : Raw -> list AlgoMasterOrderWire;
  as_entrustIDs : Raw -> list string;
  as_mutation : Raw -> string;
}.
Arguments as_algoOrderList {Raw} _.
Arguments as_entrustIDs {Raw} _.
Arguments as_mutation {Raw} _.

Section operations.
Context {D W Raw : Type} `{Decimal D} (X : executor W Raw) (R : algo_replies Raw).

Definition AddOrder (accountID : string) (order : AlgoAddOrderRequest D) (w : W) : result W string :=
  guard (AddOrder_checks accountID order) w
    (call X opAlgoAddOrder RouteTradeAlgoAddOrder (algoAddOrderWireRequest order) w
       (fun raw => Ret (as_mutation R raw))).

Definition CancelOrder (accountID : string) (req : AlgoCancelOrderRequest) (w : W) : result W string :=
  guard (CancelOrder_checks accountID req) w
    (call X opAlgoCancelOrder RouteTradeAlgoCancelOrder (algoCancelOrderWireRequest req) w
       (fun raw => Ret (as_mutation R raw))).

Definition CancelEntrust (accountID : string) (req : AlgoCancelEntrustRequest) (w : W) : result W string :=
  guard (CancelEntrust_checks accountID req) w
    (call X opAlgoCancelEntrust RouteTradeAlgoCancelEntrust (algoCancelEntrustWireRequest req) w
       (fun raw => Ret (as_mutation R raw))).

Definition ChangeOrder (accountID : string) (change : AlgoChangeOrderRequest D) (w : W) : result W string :=
  guard (ChangeOrder_checks accountID change) w
    (call X opAlgoChangeOrder RouteTradeAlgoChangeOrder (algoChangeOrderWireRequest change) w
       (fun raw => Ret (as_mutation R raw))).

Definition ActionOrder (accountID : string) (req : AlgoActionRequest) (w : W) : result W string :=
  guard (ActionOrder_checks accountID req) w
    (call X opAlgoActionOrder RouteTradeAlgoActionOrder (algoActionOrderWireRequest req) w
       (fun raw => Ret (as_mutation R raw))).

Definition QueryOrderList (accountID : string) (query : AlgoOrderQuery) (w : W)
    : result W (list (AlgoMasterOrder D)) :=
  guard (QueryOrderList_checks accountID query) w
    (call X opAlgoQueryOrderList RouteTradeAlgoQueryOrderList (algoOrderQueryWireRequest query) w
       (fun raw => rows AlgoMasterOrderFromDTO (as_algoOrderList R raw))).

Definition QueryEntrustIDList (accountID : string) (query : AlgoEntrustIDQuery) (w : W)
    : result W (list string) :=
  guard (QueryEntrustIDList_checks accountID query) w
    (call X opAlgoQueryEntrustIDList RouteTradeAlgoQueryEntrustIdList
       (algoEntrustIDQueryWireRequest query) w (fun raw => Ret (as_entrustIDs R raw))).
End operations.

(** ** What the checks accept *)

Lemma stock_code_ok op code : algoValidateStockCode op code = Ret None <-> code_ok code.
Proof. exact (stock_code_check op code). Qed.

Lemma time_shaped_ok op field value : algoValidateTimeShaped op field value = Ret None <-> clock_ok value.
Proof. unfold algoValidateTimeShaped, clock_ok. by rewrite require_ok, clock_parses. Qed.

Lemma date_ok op field date : algoValidateDate op field date = Ret None <-> day_ok date.
Proof.
  unfold algoValidateDate. rewrite and_then_ok, !require_ok, date_parses. split; [by intros [_ ?] |].
  intros Hd. split; [|done]. destruct (day_shaped date Hd) as [Hl Hds].
  unfold algoDateShaped, algoDigitsShaped. rewrite Hl, Hds. by destruct (text date).
Qed.

Section accepted.
Context {D : Type} `{DecimalText D}.

Abbreviation pval p := (val (price_dec p)).
Abbreviation qval q := (val (qty_dec q)).

Lemma order_price_ok op (p : Price D) :
  checks_of op (algoValidateOrderPrice op p)
  /\ (algoValidateOrderPrice op p = Ret None <-> (0 <= pval p)%Q).
Proof using Type*. exact (order_price_check op p). Qed.

(** A percentage: absent, or a whole number from 1 to 99. *)
Definition percent_ok (d : D) : Prop :=
  (val d == 0)%Q \/ exists n, 1 <= n <= 99 /\ (val d == inject_Z n)%Q.

Lemma percent_numbers :
  forallb (fun n => let s := text (itoa n) in
    algoDigitsShaped s && bool_decide (length s <= 2)%nat && bool_decide (trim_zeros s <> [])) (seqZ 1 99) = true.
Proof. vm_compute. reflexivity. Qed.

(** One or two digits that are not all zero. *)
Lemma two_digits_value s : algoDigitsShaped s = true -> (length s <= 2)%nat -> trim_zeros s <> [] ->
  exists n, digits_value 0 s = Some n /\ 1 <= n <= 99.
Proof using Type.
  unfold algoDigitsShaped. rewrite andb_true_iff, bool_decide_eq_true. intros [Hne Hd] Hl Ht.
  assert (Hdv : forall c, is_dig c = true -> digit_value c = Some (dig c)).
  { intros c Hc. destruct (dig_cases c Hc) as [Hr _]. unfold digit_value, dig in *.
    by rewrite decide_True by lia. }
  assert (Hz : forall c, is_dig c = true -> dig c = 0 -> c = "0"%char).
  { intros c Hc Hz. destruct (dig_cases c Hc) as [_ ->]. by rewrite Hz. }
  destruct s as [|a [|b [|? ?]]]; [done | | | simpl in Hl; lia]; simpl in Hd;
    rewrite !andb_true_iff in Hd.
  - destruct Hd as [Ha _]. destruct (dig_cases a Ha) as [Hra _]. simpl. rewrite (Hdv a Ha). simpl.
    eexists. split; [done |]. destruct (decide (dig a = 0)) as [Hz0|]; [|lia].
    apply (Hz a Ha) in Hz0 as ->. by destruct Ht.
  - destruct Hd as (Ha & Hb & _). destruct (dig_cases a Ha) as [Hra _], (dig_cases b Hb) as [Hrb _].
    simpl. rewrite (Hdv a Ha). simpl. rewrite (Hdv b Hb). simpl. eexists. split; [done |].
    destruct (decide (dig a = 0)) as [Hza|], (decide (dig b = 0)) as [Hzb|]; [|lia..].
    apply (Hz a Ha) in Hza as ->. apply (Hz b Hb) in Hzb as ->. by destruct Ht.
Qed.

Lemma qty_percent_ok op (r : Rate D) :
  checks_of op (algoValidateQtyPercent op r)
  /\ (algoValidateQtyPercent op r = Ret None <-> percent_ok (rate_dec r)).
Proof using Type*.
  unfold algoValidateQtyPercent, percent_ok. destruct (dec_IsZero (rate_dec r)) eqn:Hz.
  { apply IsZero_law in Hz. split; [by left |]. split; [by left | done]. }
  assert (Hnz : ~ (val (rate_dec r) == 0)%Q) by (rewrite <- IsZero_law; congruence).
  split; [service_checks |]. rewrite !and_then_ok, !require_ok. split.
  - intros (Hn & Hd & Hr). right. apply Decidable.not_or in Hr as [Hl Ht].
    destruct (two_digits_value _ Hd ltac:(unfold algoQtyPercentMaxDigits in *; lia) Ht) as (n & Hv & Hb).
    exists n. split; [done |].
    rewrite (String_value (rate_dec r) (n # 1)); [done |].
    rewrite <- (str_text (dec_String _)). apply numeral_digits; [|done].
    intros He. by rewrite He in Hv, Ht.
  - intros [?|(n & Hb & Hv)]; [done |].
    assert (Hs : dec_String (rate_dec r) = itoa n) by (apply String_whole; [lia | done]).
    pose proof (range_checked _ 1 99 percent_numbers n ltac:(lia)) as Hall. cbv zeta in Hall.
    apply andb_prop in Hall as [Hall Hall3]. apply andb_prop in Hall as [Hall1 Hall2].
    apply bool_decide_eq_true in Hall2, Hall3. rewrite Hs. split; [|split; [done |]].
    + apply negative_ok. rewrite Hv. unfold Qle. simpl. lia.
    + unfold algoQtyPercentMaxDigits. intros [?|?]; [lia | done].
Qed.

(** *** The rules of the two order forms, in numbers *)
Definition algo_window_ok (p : AlgoStrategyParam D) : Prop :=
  clock_ok (as_OrigStartTime p) /\ clock_ok (as_OrigEndTime p).

Definition algo_add_ok (accountID : string) (o : AlgoAddOrderRequest D) : Prop :=
  let p := aa_StrategyParam o in
  accountID <> "" /\ code_ok (aa_StockCode o) /\ aa_ExchangeType o ∈ ["K"; "P"; "v"; "t"]
  /\ aa_OrderType o ∈ ["1"; "2"] /\ (0 <= pval (aa_Price o))%Q /\ (0 < qval (aa_Quantity o))%Q
  /\ aa_Side o ∈ ["1"; "2"; "3"; "4"] /\ aa_TargetStrategy o <> "" /\ aa_SessionType o ∈ ["0"; "1"]
  /\ (0 < qval (as_MaxVolume p))%Q /\ as_Sensitivity p ∈ ["1"; "2"; "3"] /\ algo_window_ok p
  /\ (0 <= val (money_dec (as_MinAmount p)))%Q /\ (0 <= qval (as_ShowQty p))%Q
  /\ percent_ok (rate_dec (as_QtyPercent p)) /\ 0 <= as_Interval p.

Definition algo_change_ok (accountID : string) (c : AlgoChangeOrderRequest D) : Prop :=
  let p := ac_StrategyParam c in
  accountID <> "" /\ id_ok (ac_OrderID c) /\ code_ok (ac_StockCode c)
  /\ ac_ExchangeType c ∈ ["K"; "P"; "v"; "t"]
  /\ (0 <= pval (ac_Price c))%Q /\ (0 < qval (ac_Quantity c))%Q
  /\ (as_Sensitivity p = "" \/ as_Sensitivity p ∈ ["1"; "2"; "3"]) /\ algo_window_ok p
  /\ (0 <= qval (as_MaxVolume p))%Q /\ (0 <= val (money_dec (as_MinAmount p)))%Q
  /\ (0 <= qval (as_ShowQty p))%Q /\ percent_ok (rate_dec (as_QtyPercent p)) /\ 0 <= as_Interval p.

Lemma market_ok op e : algoValidateExchangeType op e = Ret None <-> e ∈ ["K"; "P"; "v"; "t"].
Proof using Type. unfold algoValidateExchangeType. by rewrite require_ok. Qed.

Lemma side_ok op b : algoValidateDirection op b = Ret None <-> b ∈ ["1"; "2"; "3"; "4"].
Proof using Type.
  unfold algoValidateDirection. by rewrite require_ok.
Qed.

Lemma sensitivity_ok s : AlgoSensitivity_Valid s = true <-> s ∈ ["1"; "2"; "3"].
Proof using Type. apply bool_decide_eq_true. Qed.

Lemma order_type_ok op t : algoValidateOrderType op t = Ret None <-> t ∈ ["1"; "2"].
Proof using Type.
  unfold algoValidateOrderType, AlgoEntrustType_Valid. rewrite require_ok, bool_decide_eq_true.
  rewrite !elem_of_cons, elem_of_nil. unfold AlgoEntrustTypeLimit, AlgoEntrustTypeMarket. tauto.
Qed.

Lemma session_ok op t : algoValidateSessionType op t = Ret None <-> t ∈ ["0"; "1"].
Proof using Type.
  unfold algoValidateSessionType, AlgoSessionType_Valid. rewrite require_ok, bool_decide_eq_true.
  rewrite !elem_of_cons, elem_of_nil. unfold AlgoSessionTypeOff, AlgoSessionTypeOn. tauto.
Qed.

Lemma window_ok op (p : AlgoStrategyParam D) :
  algoValidateStrategyParamTimes op p = Ret None <-> algo_window_ok p.
Proof using Type. unfold algoValidateStrategyParamTimes. by rewrite and_then_ok, !time_shaped_ok. Qed.
End accepted.

#[export] Hint Extern 1 (checks_of _ (algoValidateOrderPrice _ _)) => apply order_price_ok : service.
#[export] Hint Extern 1 (checks_of _ (algoValidateQtyPercent _ _)) => apply qty_percent_ok : service.

(** ** What a reply means *)
Section replies.
Context {D : Type} `{DecimalLaws D}.

Definition algo_row_ok (v : AlgoMasterOrderWire) : bool :=
  let p := amw_StrategyParam v in
  forallb number_ok [amw_EntrustPrice v; amw_EntrustAmount v; amw_CumQty v; amw_LeavesQty v;
    asw_MaxVolume p; asw_MinAmount p; asw_ShowQty p; asw_QtyPercent p; amw_RoundLot v; amw_AvgPx v].

(** The order a row stands for: every code as it came, every number read. *)
Definition algo_row_reads (v : AlgoMasterOrderWire) (o : AlgoMasterOrder D) : Prop :=
  let p := amw_StrategyParam v in
  let q := am_StrategyParam o in
  (am_OrderID o, am_StockCode o, am_ExchangeType o, am_TradeDate o, am_EntrustType o, am_Status o,
   am_EntrustBS o, am_TargetStrategy o, am_StrategyStatus o, am_SendingTime o, am_TransactionTime o)
  = (amw_OrderID v, amw_StockCode v, amw_ExchangeType v, amw_TradeDate v, amw_EntrustType v, amw_Status v,
     amw_EntrustBS v, amw_TargetStrategy v, amw_StrategyStatus v, amw_SendingTime v, amw_TransactionTime v)
  /\ (as_OrigStartTime q, as_OrigEndTime q, as_Sensitivity q, as_Interval q)
     = (asw_OrigStartTime p, asw_OrigEndTime p, asw_Sensitivity p, asw_Interval p)
  /\ reads (amw_EntrustPrice v) (price_dec (am_EntrustPrice o))
  /\ reads (amw_EntrustAmount v) (qty_dec (am_EntrustAmount o))
  /\ reads (amw_CumQty v) (qty_dec (am_CumQty o))
  /\ reads (amw_LeavesQty v) (qty_dec (am_LeavesQty o))
  /\ reads (asw_MaxVolume p) (qty_dec (as_MaxVolume q))
  /\ reads (asw_MinAmount p) (money_dec (as_MinAmount q))
  /\ reads (asw_ShowQty p) (qty_dec (as_ShowQty q))
  /\ reads (asw_QtyPercent p) (rate_dec (as_QtyPercent q))
  /\ reads (amw_RoundLot v) (qty_dec (am_RoundLot o))
  /\ reads (amw_AvgPx v) (price_dec (am_AvgPx o)).

Lemma algo_row_total : total_row (AlgoMasterOrderFromDTO (D := D)) algo_row_ok algo_row_reads.
Proof using Type*.
  intros v. unfold algo_row_ok, AlgoMasterOrderFromDTO, AlgoStrategyParamFromDTO, algoPrice, algoQuantity, algoMoney,
    algoRate, algoZeroTick. cbv zeta. cbn [forallb].
  field_total (price_total (amw_EntrustPrice v)).
  field_total (quantity_total (amw_EntrustAmount v)).
  field_total (quantity_total (amw_CumQty v)).
  field_total (quantity_total (amw_LeavesQty v)).
  field_total (quantity_total (asw_MaxVolume (amw_StrategyParam v))).
  field_total (money_total (asw_MinAmount (amw_StrategyParam v)) algoBaseCurrency algoMoneyScale).
  field_total (quantity_total (asw_ShowQty (amw_StrategyParam v))).
  field_total (rate_total (asw_QtyPercent (amw_StrategyParam v))).
  field_total (quantity_total (amw_RoundLot v)).
  field_total (price_total (amw_AvgPx v)).
  left. split; [done |]. eexists. split; [reflexivity |]. unfold algo_row_reads. simpl. naive_solver.
Qed.
End replies.

(** ** Properties *)
Section properties.
Context {D W Raw : Type} `{DecimalText D} (X : executor W Raw) (R : algo_replies Raw).

Lemma add_checks_ok acct (o : AlgoAddOrderRequest D) : AddOrder_checks acct o = Ret None <-> algo_add_ok acct o.
Proof using Type*.
  unfold AddOrder_checks, algo_add_ok, account_check, algoValidateOrderQuantity,
    algoValidateStrategy, algoValidateRequiredMaxVolume, algoValidateRequiredSensitivity,
    algoValidateOptionalMoney, algoValidateOptionalQuantity, algoValidateInterval. cbv zeta.
  rewrite !and_then_ok, !present_ok, !require_ok, stock_code_ok, market_ok, side_ok, order_type_ok, session_ok,
    window_ok, !positive_ok, !negative_ok, sensitivity_ok.
  rewrite (proj2 (order_price_ok _ _)), (proj2 (qty_percent_ok _ _)).
  done.
Qed.

Lemma change_checks_ok acct (c : AlgoChangeOrderRequest D) :
  ChangeOrder_checks acct c = Ret None <-> algo_change_ok acct c.
Proof using Type*.
  unfold ChangeOrder_checks, algo_change_ok, account_check, algoValidateOrderQuantity,
    algoValidateOrderID, algoValidateMaxVolume, algoValidateOptionalSensitivity,
    algoValidateOptionalMoney, algoValidateOptionalQuantity, algoValidateInterval. cbv zeta.
  rewrite !and_then_ok, !present_ok, !require_ok, stock_code_ok, market_ok, window_ok, !positive_ok, !negative_ok,
    sensitivity_ok.
  by rewrite (proj2 (order_price_ok _ _)), (proj2 (qty_percent_ok _ _)).
Qed.

Lemma add_checks_of acct (o : AlgoAddOrderRequest D) : checks_of opAlgoAddOrder (AddOrder_checks acct o).
Proof using Type*.
  service_checks.
Qed.

Lemma change_checks_of acct (c : AlgoChangeOrderRequest D) :
  checks_of opAlgoChangeOrder (ChangeOrder_checks acct c).
Proof using Type*.
  service_checks.
Qed.

(** An order with another start of its window. *)
Definition starting (start : string) (o : AlgoAddOrderRequest D) : AlgoAddOrderRequest D :=
  match o with
  | mkAlgoAdd code market kind price qty side strategy session (mkAlgoStrategyParam _ to vol money sens show pct iv) =>
      mkAlgoAdd code market kind price qty side strategy session (mkAlgoStrategyParam start to vol money sens show pct iv)
  end.

Lemma starting_sent start o : start <> "" ->
  ("origStartTime", JStr start) ∈ algoStrategyParamWireFrom (aa_StrategyParam (starting start o)).
Proof using Type*.
  intros Hs. destruct o as [???????? []]. cbn. unfold algoStrategyParamWireFrom. cbn.
  unfold str_omitempty. rewrite decide_False by done. left.
Qed.

(** C21: each of the five calls that change an algorithm order sends exactly one
    request, to its own route of the mutation class, with the prices and
    quantities as given, when its arguments satisfy the rules the code enforces
    (read as numbers and calendar values), and otherwise sends nothing and returns
    an invalid-parameter error of its own operation. The account is in no body.
    The rules are the documented ones but for the times of the window, documented
    as HHmmSS: an order is accepted with one of these, and just as well with a
    fraction of a second after it, as in 093000.5, which is sent as it was given. *)
Theorem algo_mutations_exact (acct : string) (o : AlgoAddOrderRequest D) (c : AlgoChangeOrderRequest D)
    (l : AlgoCancelOrderRequest) (e : AlgoCancelEntrustRequest) (t : AlgoActionRequest) (w : W) log :
  let X := logged X in
  let known_market m := m ∈ ["K"; "P"; "v"; "t"] in
  sends_exactly (algo_add_ok acct o) opAlgoAddOrder RouteTradeAlgoAddOrder (algoAddOrderWireRequest o)
    (AddOrder X R acct o (w, log)) w log
  /\ sends_exactly (algo_change_ok acct c) opAlgoChangeOrder RouteTradeAlgoChangeOrder
       (algoChangeOrderWireRequest c) (ChangeOrder X R acct c (w, log)) w log
  /\ sends_exactly (acct <> "" /\ id_ok (al_OrderID l) /\ known_market (al_ExchangeType l))
       opAlgoCancelOrder RouteTradeAlgoCancelOrder (algoCancelOrderWireRequest l)
       (CancelOrder X R acct l (w, log)) w log
  /\ sends_exactly (acct <> "" /\ id_ok (ae_OrderID e) /\ id_ok (ae_EntrustID e)
         /\ known_market (ae_ExchangeType e))
       opAlgoCancelEntrust RouteTradeAlgoCancelEntrust (algoCancelEntrustWireRequest e)
       (CancelEntrust X R acct e (w, log)) w log
  /\ sends_exactly (acct <> "" /\ id_ok (at_OrderID t) /\ at_TargetStrategy t <> ""
         /\ known_market (at_ExchangeType t) /\ at_Action t ∈ ["1"; "2"; "3"; "4"])
       opAlgoActionOrder RouteTradeAlgoActionOrder (algoActionOrderWireRequest t)
       (ActionOrder X R acct t (w, log)) w log
  /\ Forall (fun route => IsMutation route = true)
       [RouteTradeAlgoAddOrder; RouteTradeAlgoChangeOrder; RouteTradeAlgoCancelOrder;
        RouteTradeAlgoCancelEntrust; RouteTradeAlgoActionOrder]
  /\ (forall start fraction, start <> "" -> clock_documented start -> fraction <> "" -> is_fraction (text fraction) ->
       let late := start +:+ fraction in
       ~ clock_documented late
       /\ (algo_add_ok acct (starting start o) <-> algo_add_ok acct (starting late o))
       /\ ("origStartTime", JStr late) ∈ algoStrategyParamWireFrom (aa_StrategyParam (starting late o))).
Proof using Type*.
  intros X' known. split_and!.
  - apply guard_sends; [apply add_checks_of | apply add_checks_ok].
  - apply guard_sends; [apply change_checks_of | apply change_checks_ok].
  - apply guard_sends; [service_checks |]. unfold CancelOrder_checks.
    by rewrite !and_then_ok, market_ok; unfold account_check, algoValidateOrderID; rewrite present_ok, !require_ok.
  - apply guard_sends; [service_checks |]. unfold CancelEntrust_checks.
    rewrite !and_then_ok, market_ok; unfold account_check, algoValidateOrderID, algoValidateEntrustID.
    by rewrite !present_ok, !require_ok.
  - apply guard_sends; [service_checks |]. unfold ActionOrder_checks.
    rewrite !and_then_ok, market_ok; unfold account_check, algoValidateOrderID, algoValidateStrategy,
      algoValidateAction, AlgoAction_Valid. by rewrite !present_ok, !require_ok, bool_decide_eq_true.
  - repeat constructor; vm_compute; reflexivity.
  - intros start fraction Hs Hd Hf Hr late. destruct (fractional_clock start fraction) as [Hnot Hok]; [done..|].
    split; [exact Hnot |]. split; [| apply starting_sent].
    + apply clock_documented_ok in Hd as [Hd _]. fold late in Hok. clearbody late.
      destruct o as [???????? []]. unfold algo_add_ok, algo_window_ok. cbn. tauto.
    + intros E. apply Hnot. by left.
Qed.

Definition algo_list_ok (accountID : string) (q : AlgoOrderQuery) : Prop :=
  accountID <> "" /\ day_ok (StartDate (aq_Page q)) /\ day_ok (EndDate (aq_Page q))
  /\ (aq_ExchangeType q = "" \/ aq_ExchangeType q ∈ ["K"; "P"; "v"; "t"])
  /\ (aq_StockCode q = "" \/ aq_ExchangeType q <> "" /\ code_ok (aq_StockCode q)).

Definition algo_ids_ok (accountID : string) (q : AlgoEntrustIDQuery) : Prop :=
  accountID <> "" /\ id_ok (ai_OrderID q) /\ day_ok (ai_TradeDate q)
  /\ ai_ExchangeType q ∈ ["K"; "P"; "v"; "t"].

Lemma list_checks_ok acct q : QueryOrderList_checks acct q = Ret None <-> algo_list_ok acct q.
Proof using Type.
  unfold QueryOrderList_checks, algo_list_ok, account_check. cbv zeta.
  rewrite !and_then_ok, present_ok, !date_ok, require_ok, !unless_empty_ok, market_ok, stock_code_ok.
  destruct (decide (aq_StockCode q = "")), (decide (aq_ExchangeType q = "")); tauto.
Qed.

Lemma list_checks_of acct q : checks_of opAlgoQueryOrderList (QueryOrderList_checks acct q).
Proof using Type.
  service_checks.
Qed.

Lemma ids_checks_of acct q : checks_of opAlgoQueryEntrustIDList (QueryEntrustIDList_checks acct q).
Proof using Type.
  service_checks.
Qed.

(** The two algorithm queries send one request, with a positive page number
    and page size whatever the caller gave, exactly when the account is named, the
    dates are days of the calendar and a stock code comes with a market; otherwise
    nothing is sent. A list reply is returned row for row with every number as the
    decimal it writes, or zero when absent, unless some number of some row does
    not parse, and then the call panics. *)
Theorem algo_queries_exact (acct : string) (q : AlgoOrderQuery) (i : AlgoEntrustIDQuery) (w : W) log :
  sends_exactly (algo_list_ok acct q) opAlgoQueryOrderList RouteTradeAlgoQueryOrderList
    (algoOrderQueryWireRequest q) (QueryOrderList (D := D) (logged X) R acct q (w, log)) w log
  /\ (exists n k rest, algoOrderQueryWireRequest q = ("pageNo", JInt n) :: ("pageSize", JInt k) :: rest
       /\ 0 < n /\ 0 < k)
  /\ sends_exactly (algo_ids_ok acct i) opAlgoQueryEntrustIDList RouteTradeAlgoQueryEntrustIdList
       (algoEntrustIDQueryWireRequest i) (QueryEntrustIDList (logged X) R acct i (w, log)) w log
  /\ (algo_list_ok acct q ->
      answers X opAlgoQueryOrderList RouteTradeAlgoQueryOrderList (algoOrderQueryWireRequest q) w
        (as_algoOrderList R) (algo_row_ok (D := D)) algo_row_reads (fst (QueryOrderList X R acct q w))).
Proof using Type*.
  split_and!.
  - apply guard_sends; [apply list_checks_of | apply list_checks_ok].
  - unfold algoOrderQueryWireRequest, int_field, algoDefaultPageNo, algoDefaultPageSize. do 3 eexists.
    split; [reflexivity |]. split; case_decide; lia.
  - apply guard_sends; [apply ids_checks_of |].
    unfold QueryEntrustIDList_checks, algo_ids_ok, account_check, algoValidateOrderID, id_ok. cbv zeta.
    by rewrite !and_then_ok, present_ok, require_ok, date_ok, market_ok.
  - intros Hok. unfold QueryOrderList, guard. apply list_checks_ok in Hok as ->.
    apply call_answers, algo_row_total.
Qed.
End properties.

(** ** The theorems on concrete calls *)
Definition demo_param : AlgoStrategyParam dec :=
  mkAlgoStrategyParam "093000" "" (mkQuantity (mkDec 500 0)) (mkMoney (mkDec 0 0) "HKD" 3) "1"
    (mkQuantity (mkDec 0 0)) (mkRate (mkDec 20 0)) 60.

Definition demo_order : AlgoAddOrderRequest dec :=
  mkAlgoAdd "00700.HK" "K" "1" (mkPrice (mkDec 3502 1) (mkDec 0 0)) (mkQuantity (mkDec 100 0)) "1" "1001" "0"
    demo_param.

Definition demo_executor (row : AlgoMasterOrderWire) : executor unit (list AlgoMasterOrderWire) :=
  fun _ _ _ w => (Ret (inl [row]), w).

Definition demo_replies : algo_replies (list AlgoMasterOrderWire) :=
  mkAlgoReplies _ (fun l => l) (fun _ => []) (fun _ => "OK").

Definition demo_row (amount : string) : AlgoMasterOrderWire :=
  mkAlgoMasterWire "A1" "00700.HK" "K" "20260105" "1" "350.2" amount "" "" "1" "1" "1001" "1"
    (mkAlgoStrategyWire "093000" "" "500" "" "1" "" "20" 60) "100" "" "" "".

Example demo_order_ok : algo_add_ok "acct" demo_order.
Proof.
  unfold algo_add_ok. cbv zeta. split_and!; try decided; try (vm_compute; discriminate); try reflexivity.
  - split; [decided | apply Forall_forall; decided].
  - split; [right | by left]. exists 9, 30, 0, []. repeat (split; [first [lia | by left] |]). reflexivity.
  - right. exists 20. split; [lia | reflexivity].
Qed.

Lemma algo_mutations_exact_witness :
  algo_add_ok "acct" demo_order
  /\ snd (snd (AddOrder (logged (demo_executor (demo_row "100"))) demo_replies "acct" demo_order (tt, [])))
     = [] ++ [(RouteTradeAlgoAddOrder, algoAddOrderWireRequest demo_order)]
  /\ algo_add_ok "acct" (starting "093000.5" demo_order)
  /\ exists msg, CancelOrder (logged (demo_executor (demo_row "100"))) demo_replies "acct" (mkAlgoCancel " " "K") (tt, [])
     = (Ret (inr (Errs.New StatusInvalidParam opAlgoCancelOrder msg)), (tt, [])).
Proof.
  pose proof (algo_mutations_exact (demo_executor (demo_row "100")) demo_replies "acct" demo_order
    (mkAlgoChange "" "" "" (aa_Price demo_order) (aa_Quantity demo_order) demo_param)
    (mkAlgoCancel " " "K") (mkAlgoCancelEntrust "" "" "") (mkAlgoAction "" "" "" "") tt [])
    as ((Ha & _) & _ & (_ & Hc) & _ & _ & _ & Hf).
  split; [exact demo_order_ok |]. split; [exact (Ha demo_order_ok) |]. split.
  { apply (Hf "093000" ".5"); [done | | done | | exact demo_order_ok].
    - right. exists 9, 30, 0. repeat (split; [lia |]). reflexivity.
    - right. exists (Ascii.ascii_of_nat 46), (text "5"). repeat split; first [done | repeat constructor]. }
  apply Hc. intros (_ & Hid & _). by apply Hid.
Defined.

Definition demo_query : AlgoOrderQuery := mkAlgoQuery (mkPageRequest 0 0 "20260105" "20260228") "K" "00700.HK".

Example demo_query_ok : algo_list_ok "acct" demo_query.
Proof.
  unfold algo_list_ok. split_and!; try decided.
  - exists 2026, 1, 5. repeat (split; [decided |]). reflexivity.
  - exists 2026, 2, 28. repeat (split; [decided |]). reflexivity.
  - right. split; [decided |]. split; [decided | apply Forall_forall; decided].
Qed.

Lemma algo_queries_exact_witness :
  (exists o, fst (QueryOrderList (demo_executor (demo_row "100")) demo_replies "acct" demo_query tt) = Ret (inl [o])
     /\ algo_row_reads (demo_row "100") o)
  /\ fst (QueryOrderList (D := dec) (demo_executor (demo_row "1,000")) demo_replies "acct" demo_query tt) = Panic.
Proof.
  split.
  - destruct (algo_queries_exact (D := dec) (demo_executor (demo_row "100")) demo_replies "acct" demo_query
      (mkAlgoIDQuery "" "" "") tt []) as (_ & _ & _ & Hr).
    destruct (Hr demo_query_ok [demo_row "100"] tt eq_refl) as (os & He & Hall).
    apply Forall2_cons_inv_l in Hall as (o & os' & Ho & Hnil & ->).
    apply Forall2_nil_inv_l in Hnil as ->. by exists o.
  - destruct (algo_queries_exact (D := dec) (demo_executor (demo_row "1,000")) demo_replies "acct" demo_query
      (mkAlgoIDQuery "" "" "") tt []) as (_ & _ & _ & Hr).
    exact (Hr demo_query_ok [demo_row "1,000"] tt eq_refl).
Defined.
