(* ===== verification/Futures.v ===== *)
(** Futures: the rows and mappings of [src/pkg/domain/futures.go], and the eleven
    operations of [src/pkg/services/futures.go]. The services only map rows they
    have decoded, so the nil row of a mapper is not modelled. *)
From Stdlib Require Import QArith.
From S2P Require Import Prelude Types Errs Retry Routes Domain Decimals Service.
From S2P Require Trading.
Local Open Scope Z_scope.
Local Open Scope go_scope.

(** ** Rows of the replies *)
Definition futuresZeroTick : string := "0".
Definition futuresCurrencyHKD : string := "HKD".
Definition futuresCurrencyUSD : string := "USD".
Definition futuresCurrencyCNH : string := "CNH".
Definition futuresBaseCurrency : string := futuresCurrencyHKD.
Definition futuresMoneyScale : Z := 3.

Record FuturesProductInfoWire := mkProductWire {
  pw_ProdCode : string;
  pw_InstCode : string;
  pw_LotSize : Z;
  pw_DecInPrice : Z;
  pw_ContractSize : string;
  pw_PriceDecimalPoint : string;
  pw_ExpiryDate : string;
  pw_IsSupportT1 : Z;
}.

Record FuturesMaxBuySellAmountWire := mkCapacityWire {
  mw_PositionStatus : Z;
  mw_MaxBuyAmount : Z;
  mw_MaxSellAmount : Z;
  mw_InitialMargin : string;
  mw_Ccy : string;
}.

Record FuturesFundInfoWire := mkFundWire {
  fw_AssetBalance : string;
  fw_EnableBalance : string;
  fw_MarginCall : string;
  fw_IncomeBalance : string;
  fw_CashBal : string;
  fw_IMargin : string;
  fw_MMargin : string;
  fw_MarginLevel : string;
  fw_MaxMargin : string;
  fw_CreditLimit : string;
  fw_CtrlLevel : string;
  fw_MarginClass : string;
  fw_AEID : string;
  fw_CashBalHKD : string;
  fw_CashBalUSD : string;
  fw_CycRateUSDtoHSD : string;
  fw_MarginStatus : string;
  fw_StatusPercent : string;
  fw_CloseProfit : string;
  fw_CashBalCNH : string;
}.

Record FuturesHoldWire := mkHoldWire {
  hw_StockName : string;
  hw_StockCode : string;
  hw_LastDayQty : string;
  hw_LastDayPrice : string;
  hw_DepQty : string;
  hw_DayLongQty : string;
  hw_DayLongPrice : string;
  hw_DayShortQty : string;
  hw_DayShortPrice : string;
  hw_DayNetQty : string;
  hw_DayNetPrice : string;
  hw_CurrentQty : string;
  hw_CostPrice : string;
  hw_LastPrice : string;
  hw_PreClosePrice : string;
  hw_ProfitLoss : string;
  hw_CcyRate : string;
  hw_ContractValue : string;
  hw_ProfitLossBaseCcy : string;
  hw_Ccy : string;
  hw_DataType : string;
  hw_CloseProfit : string;
  hw_CloseProfitHKD : string;
}.

Record FuturesOrderWire := mkOrderWire {
  ow_StockCode : string;
  ow_StockName : string;
  ow_BusinessPrice : string;
  ow_EntrustBS : string;
  ow_EntrustPrice : string;
  ow_EntrustAmount : string;
  ow_BusinessAmount : string;
  ow_Date : string;
  ow_BusinessTime : string;
  ow_EntrustTime : string;
  ow_QueryParamStr : string;
  ow_StatusDesc : string;
  ow_Status : string;
  ow_EntrustID : string;
  ow_CanBeCanceled : Z;
  ow_EntrustType : string;
  ow_EntrustTypeNum : string;
  ow_IsValid : Z;
  ow_CanBeUpdated : Z;
  ow_ValidType : string;
  ow_ValidTypeDesc : string;
  ow_OrderOptions : Z;
  ow_ValidTime : string;
}.

Section domain.
Context {D : Type} `{Decimal D}.

Record FuturesProduct := mkFuturesProduct {
  fp_ProdCode : string;
  fp_InstCode : string;
  fp_LotSize : Z;
  fp_DecInPrice : Z;
  fp_ContractSize : Quantity D;
  fp_PriceDecimalPoint : string;
  fp_ExpiryDate : string;
  fp_IsSupportT1 : bool;
}.

Record FuturesCapacity := mkFuturesCapacity {
  fc_PositionStatus : Z;
  fc_MaxBuyAmount : Quantity D;
  fc_MaxSellAmount : Quantity D;
  fc_InitialMargin : Money D;
  fc_Ccy : string;
}.

Record FuturesAccount := mkFuturesAccount {
  fa_AssetBalance : Money D;
  fa_EnableBalance : Money D;
  fa_MarginCall : Money D;
  fa_IncomeBalance : Money D;
  fa_CashBal : Money D;
  fa_IMargin : Money D;
  fa_MMargin : Money D;
  fa_MaxMargin : Money D;
  fa_CreditLimit : Money D;
  fa_CloseProfit : Money D;
  fa_CashBalHKD : Money D;
  fa_CashBalUSD : Money D;
  fa_CashBalCNH : Money D;
  fa_MarginLevel : Rate D;
  fa_StatusPercent : Rate D;
  fa_CycRateUSDtoHSD : Rate D;
  fa_AEID : string;
  fa_CtrlLevel : string;
  fa_MarginClass : string;
  fa_MarginStatus : string;
}.

Record FuturesPosition := mkFuturesPosition {
  po_StockName : string;
  po_StockCode : string;
  po_DataType : string;
  po_Ccy : string;
  po_CcyRate : Rate D;
  po_ContractValue : Quantity D;
  po_LastDayQty : Quantity D;
  po_DepQty : Quantity D;
  po_DayLongQty : Quantity D;
  po_DayShortQty : Quantity D;
  po_DayNetQty : Quantity D;
  po_CurrentQty : Quantity D;
  po_LastDayPrice : Price D;
  po_DayLongPrice : Price D;
  po_DayShortPrice : Price D;
  po_DayNetPrice : Price D;
  po_CostPrice : Price D;
  po_LastPrice : Price D;
  po_PreClosePrice : Price D;
  po_ProfitLoss : Money D;
  po_ProfitLossBaseCcy : Money D;
  po_CloseProfit : Money D;
  po_CloseProfitHKD : Money D;
}.

Record FuturesHoldResult := mkHoldResult { Account : FuturesAccount; Positions : list FuturesPosition }.

Record FuturesOrder := mkFuturesOrder {
  fo_StockCode : string;
  fo_StockName : string;
  fo_EntrustID : string;
  fo_Side : string;
  fo_OrderType : string;
  fo_OrderTypeNum : string;
  fo_OrderPrice : Price D;
  fo_FillPrice : Price D;
  fo_Quantity : Quantity D;
  fo_FilledQty : Quantity D;
  fo_Status : string;
  fo_StatusDesc : string;
  fo_ValidType : string;
  fo_ValidTypeDesc : string;
  fo_ValidTime : string;
  fo_OrderOptions : Z;
  fo_Date : string;
  fo_EntrustTime : string;
  fo_BusinessTime : string;
  fo_QueryParamStr : string;
  fo_IsValid : bool;
  fo_CanBeCanceled : bool;
  fo_CanBeUpdated : bool;
}.

Record FuturesOrderPage := mkOrderPage {
  Orders : list FuturesOrder;
  op_CurPageNo : Z;
  op_CurPageSize : Z;
  op_TotalPageNo : Z;
  op_LastPage : bool;
}.

Record FuturesFill := mkFuturesFill {
  ff_StockCode : string;
  ff_StockName : string;
  ff_EntrustID : string;
  ff_Side : string;
  ff_OrderType : string;
  ff_OrderTypeNum : string;
  ff_Price : Price D;
  ff_OrderPrice : Price D;
  ff_Quantity : Quantity D;
  ff_FilledQty : Quantity D;
  ff_Status : string;
  ff_StatusDesc : string;
  ff_ValidType : string;
  ff_ValidTypeDesc : string;
  ff_ValidTime : string;
  ff_OrderOptions : Z;
  ff_Date : string;
  ff_BusinessTime : string;
  ff_EntrustTime : string;
  ff_QueryParamStr : string;
  ff_IsValid : bool;
  ff_CanBeCanceled : bool;
  ff_CanBeUpdated : bool;
}.

Record FuturesFillPage := mkFillPage {
  Fills : list FuturesFill;
  fl_CurPageNo : Z;
  fl_CurPageSize : Z;
  fl_TotalPageNo : Z;
  fl_LastPage : bool;
}.

Definition futuresMoney (value currency : string) : outcome (Money D) :=
  let currency := if decide (currency = "") then futuresBaseCurrency else currency in
  MustNewMoney (or_zero value) currency futuresMoneyScale.
Definition futuresQuantity (value : string) : outcome (Quantity D) := MustNewQuantity (or_zero value).
Definition futuresPrice (value : string) : outcome (Price D) := MustNewPrice (or_zero value) futuresZeroTick.
Definition futuresRate (value : string) : outcome (Rate D) := MustNewRate (or_zero value).

Definition is_one (n : Z) : bool := bool_decide (n = 1).

Definition FuturesProductFromDTO (v : FuturesProductInfoWire) : outcome FuturesProduct :=
  contract ← futuresQuantity (pw_ContractSize v);
  Ret (mkFuturesProduct (pw_ProdCode v) (pw_InstCode v) (pw_LotSize v) (pw_DecInPrice v) contract
    (pw_PriceDecimalPoint v) (pw_ExpiryDate v) (is_one (pw_IsSupportT1 v))).

Definition FuturesCapacityFromDTO (v : FuturesMaxBuySellAmountWire) : outcome FuturesCapacity :=
  buy ← MustNewQuantity (itoa (mw_MaxBuyAmount v));
  sell ← MustNewQuantity (itoa (mw_MaxSellAmount v));
  margin ← futuresMoney (mw_InitialMargin v) (mw_Ccy v);
  Ret (mkFuturesCapacity (mw_PositionStatus v) buy sell margin (mw_Ccy v)).

Definition FuturesAccountFromDTO (v : FuturesFundInfoWire) : outcome FuturesAccount :=
  asset ← futuresMoney (fw_AssetBalance v) futuresBaseCurrency;
  enable ← futuresMoney (fw_EnableBalance v) futuresBaseCurrency;
  marginCall ← futuresMoney (fw_MarginCall v) futuresBaseCurrency;
  income ← futuresMoney (fw_IncomeBalance v) futuresBaseCurrency;
  cash ← futuresMoney (fw_CashBal v) futuresBaseCurrency;
  iMargin ← futuresMoney (fw_IMargin v) futuresBaseCurrency;
  mMargin ← futuresMoney (fw_MMargin v) futuresBaseCurrency;
  maxMargin ← futuresMoney (fw_MaxMargin v) futuresBaseCurrency;
  credit ← futuresMoney (fw_CreditLimit v) futuresBaseCurrency;
  close ← futuresMoney (fw_CloseProfit v) futuresBaseCurrency;
  hkd ← futuresMoney (fw_CashBalHKD v) futuresCurrencyHKD;
  usd ← futuresMoney (fw_CashBalUSD v) futuresCurrencyUSD;
  cnh ← futuresMoney (fw_CashBalCNH v) futuresCurrencyCNH;
  level ← futuresRate (fw_MarginLevel v);
  percent ← futuresRate (fw_StatusPercent v);
  rate ← futuresRate (fw_CycRateUSDtoHSD v);
  Ret (mkFuturesAccount asset enable marginCall income cash iMargin mMargin maxMargin credit close
    hkd usd cnh level percent rate (fw_AEID v) (fw_CtrlLevel v) (fw_MarginClass v) (fw_MarginStatus v)).

Definition FuturesPositionFromDTO (v : FuturesHoldWire) : outcome FuturesPosition :=
  ccyRate ← futuresRate (hw_CcyRate v);
  contract ← futuresQuantity (hw_ContractValue v);
  lastDay ← futuresQuantity (hw_LastDayQty v);
  dep ← futuresQuantity (hw_DepQty v);
  long ← futuresQuantity (hw_DayLongQty v);
  short ← futuresQuantity (hw_DayShortQty v);
  net ← futuresQuantity (hw_DayNetQty v);
  current ← futuresQuantity (hw_CurrentQty v);
  lastDayPrice ← futuresPrice (hw_LastDayPrice v);
  longPrice ← futuresPrice (hw_DayLongPrice v);
  shortPrice ← futuresPrice (hw_DayShortPrice v);
  netPrice ← futuresPrice (hw_DayNetPrice v);
  cost ← futuresPrice (hw_CostPrice v);
  last ← futuresPrice (hw_LastPrice v);
  preClose ← futuresPrice (hw_PreClosePrice v);
  profit ← futuresMoney (hw_ProfitLoss v) futuresBaseCurrency;
  profitBase ← futuresMoney (hw_ProfitLossBaseCcy v) futuresBaseCurrency;
  close ← futuresMoney (hw_CloseProfit v) futuresBaseCurrency;
  closeHKD ← futuresMoney (hw_CloseProfitHKD v) futuresCurrencyHKD;
  Ret (mkFuturesPosition (hw_StockName v) (hw_StockCode v) (hw_DataType v) (hw_Ccy v) ccyRate contract
    lastDay dep long short net current lastDayPrice longPrice shortPrice netPrice cost last preClose
    profit profitBase close closeHKD).

Definition FuturesOrderFromDTO (v : FuturesOrderWire) : outcome FuturesOrder :=
  price ← futuresPrice (ow_EntrustPrice v);
  fill ← futuresPrice (ow_BusinessPrice v);
  qty ← futuresQuantity (ow_EntrustAmount v);
  filled ← futuresQuantity (ow_BusinessAmount v);
  Ret (mkFuturesOrder (ow_StockCode v) (ow_StockName v) (ow_EntrustID v) (ow_EntrustBS v)
    (ow_EntrustType v) (ow_EntrustTypeNum v) price fill qty filled (ow_Status v) (ow_StatusDesc v)
    (ow_ValidType v) (ow_ValidTypeDesc v) (ow_ValidTime v) (ow_OrderOptions v) (ow_Date v)
    (ow_EntrustTime v) (ow_BusinessTime v) (ow_QueryParamStr v) (is_one (ow_IsValid v))
    (is_one (ow_CanBeCanceled v)) (is_one (ow_CanBeUpdated v))).

Definition FuturesFillFromDTO (v : FuturesOrderWire) : outcome FuturesFill :=
  fill ← futuresPrice (ow_BusinessPrice v);
  price ← futuresPrice (ow_EntrustPrice v);
  qty ← futuresQuantity (ow_EntrustAmount v);
  filled ← futuresQuantity (ow_BusinessAmount v);
  Ret (mkFuturesFill (ow_StockCode v) (ow_StockName v) (ow_EntrustID v) (ow_EntrustBS v)
    (ow_EntrustType v) (ow_EntrustTypeNum v) fill price qty filled (ow_Status v) (ow_StatusDesc v)
    (ow_ValidType v) (ow_ValidTypeDesc v) (ow_ValidTime v) (ow_OrderOptions v) (ow_Date v)
    (ow_BusinessTime v) (ow_EntrustTime v) (ow_QueryParamStr v) (is_one (ow_IsValid v))
    (is_one (ow_CanBeCanceled v)) (is_one (ow_CanBeUpdated v))).
End domain.
Arguments FuturesProduct D : clear implicits.
Arguments FuturesCapacity D : clear implicits.
Arguments FuturesAccount D : clear implicits.
Arguments FuturesPosition D : clear implicits.
Arguments FuturesHoldResult D : clear implicits.
Arguments FuturesOrder D : clear implicits.
Arguments FuturesOrderPage D : clear implicits.
Arguments FuturesFill D : clear implicits.
Arguments FuturesFillPage D : clear implicits.

(** The zeros between the point and the last digit: the loop that starts at 1. *)
Definition futuresTickString (decInPrice : Z) : string :=
  if decide (decInPrice < 0) then futuresZeroTick
  else if decide (decInPrice = 0) then "1"
  else str (text "0." ++ repeat "0"%char (Z.to_nat (decInPrice - 1)) ++ ["1"%char]).

Example futuresTickString_examples :
  map futuresTickString [-1; 0; 1; 2; 3] = ["0"; "1"; "0.1"; "0.01"; "0.001"].
Proof. reflexivity. Qed.

(** ** Requests *)
Definition opFuturesQueryProductInfo : string := "trade/FuturesQueryProductInfo".
Definition opFuturesQueryMaxBuySellAmount : string := "trade/FuturesQueryMaxBuySellAmount".
Definition opFuturesQueryFundInfo : string := "trade/FuturesQueryFundInfo".
Definition opFuturesQueryHoldsList : string := "trade/FuturesQueryHoldsList".
Definition opFuturesQueryRealEntrustList : string := "trade/FuturesQueryRealEntrustList".
Definition opFuturesQueryHistoryEntrust : string := "trade/FuturesQueryHistoryEntrustList".
Definition opFuturesQueryRealDeliverList : string := "trade/FuturesQueryRealDeliverList".
Definition opFuturesQueryHistoryDeliver : string := "trade/FuturesQueryHistoryDeliverList".
Definition opFuturesEntrust : string := "trade/FuturesEntrust".
Definition opFuturesCancelEntrust : string := "trade/FuturesCancelEntrust".
Definition opFuturesModifyEntrust : string := "trade/FuturesModifyEntrust".

Definition futuresDefaultPageNo : Z := 1.
Definition futuresDefaultPageSize : Z := 20.
Definition futuresDefaultOrderOptions : string := "0".
Definition futuresValidTimeTypeSpecifiedDate : string := "4".
Definition futuresValidTimeTypes : list string := ["0"; "1"; "2"; "3"; "4"].
Definition futuresOrderOptionCodes : list string := [futuresDefaultOrderOptions; "1"].
Definition futuresMaxPageSizeExclusive : Z := 100.

Section requests.
Context {D : Type} `{Decimal D}.

Record FuturesOrderRequest := mkOrderRequest {
  fr_Symbol : Symbol;
  fr_Side : string;
  fr_OrderType : string;
  fr_Price : Price D;
  fr_Quantity : Quantity D;
  fr_ValidTimeType : string;
  fr_ValidTime : string;
  fr_OrderOptions : string;
}.

Record FuturesModifyRequest := mkModifyRequest {
  fm_EntrustID : string;
  fm_Symbol : Symbol;
  fm_Price : Price D;
  fm_Quantity : Quantity D;
  fm_Side : string;
  fm_ValidTimeType : string;
  fm_ValidTime : string;
  fm_OrderOptions : string;
}.

Definition futuresProductInfoWireRequest (codes : list string) : body :=
  [("stockCode", JArr (map JStr codes))].

Definition futuresMaxBuySellAmountWireRequest (code : string) : body := [("stockCode", JStr code)].

(** The page with its two defaults. *)
Definition futuresPageQueryParams (page : PageRequest) : body :=
  int_field "pageNo" (if decide (PageNo page <= 0) then futuresDefaultPageNo else PageNo page)
  ++ int_field "pageSize" (if decide (PageSize page <= 0) then futuresDefaultPageSize else PageSize page)
  ++ str_omitempty "startDate" (StartDate page)
  ++ str_omitempty "endDate" (EndDate page).

Definition futuresOrderOptionsParam (options : string) : string :=
  if decide (options = "") then futuresDefaultOrderOptions else options.

Definition futuresEntrustWireRequest (order : FuturesOrderRequest) (orderOptions : string) : body :=
  [("stockCode", JStr (Code (fr_Symbol order)));
   ("entrustType", JStr (fr_OrderType order));
   ("entrustPrice", JStr (dec_String (price_dec (fr_Price order))));
   ("entrustAmount", JStr (dec_String (qty_dec (fr_Quantity order))));
   ("entrustBs", JStr (fr_Side order));
   ("validTimeType", JStr (fr_ValidTimeType order));
   ("orderOptions", JStr orderOptions)]
  ++ str_omitempty "validTime" (fr_ValidTime order).

Definition futuresCancelEntrustWireRequest (entrustID code : string) : body :=
  [("entrustId", JStr entrustID); ("stockCode", JStr code)].

Definition futuresModifyEntrustWireRequest (change : FuturesModifyRequest) (orderOptions : string) : body :=
  [("entrustId", JStr (fm_EntrustID change));
   ("stockCode", JStr (Code (fm_Symbol change)));
   ("entrustPrice", JStr (dec_String (price_dec (fm_Price change))));
   ("entrustAmount", JStr (dec_String (qty_dec (fm_Quantity change))));
   ("entrustBs", JStr (fm_Side change));
   ("validTimeType", JStr (fm_ValidTimeType change));
   ("orderOptions", JStr orderOptions)]
  ++ str_omitempty "validTime" (fm_ValidTime change).

(** ** Validation *)
Abbreviation checks := (outcome (option error)).

Definition futuresValidateStockCode (op code : string) : checks :=
  let trimmed := TrimSpace (text code) in
  require (trimmed <> []) op "stockCode must not be empty" ;?;
  require (contains_any trimmed blank_chars = false) op "stockCode must not contain whitespace".

Definition futuresDateShaped (date : string) : bool :=
  bool_decide (length (text date) = 8%nat) && forallb is_dig (text date).

Definition futuresValidateDate (op field date : string) : checks :=
  require (futuresDateShaped date = true) op (field +:+ " must be yyyyMMdd") ;?;
  require (is_Some (parse_date date)) op (field +:+ " must be a valid calendar date").

(** The check half of [futuresValidatePage]; the page it returns is
    [futuresPageQueryParams page]. *)
Definition futuresValidatePage (op : string) (page : PageRequest) : checks :=
  require (PageSize page < futuresMaxPageSizeExclusive) op "pageSize must be below 100" ;?;
  (if decide (StartDate page <> "") then futuresValidateDate op "startDate" (StartDate page) else Ret None) ;?;
  (if decide (EndDate page <> "") then futuresValidateDate op "endDate" (EndDate page) else Ret None).

Definition futuresDigitsShaped (code : string) : bool :=
  bool_decide (code <> "") && forallb is_dig (text code).

Definition futuresValidateOrderType (op orderType : string) : checks :=
  require (futuresDigitsShaped orderType = true) op "entrustType must be a non-empty run of decimal digits".

Definition futuresValidateEntrustBS (op side : string) : checks :=
  require (side ∈ [EntrustBuy; EntrustSell]) op
    ("entrustBs must be 1 (buy) or 2 (sell) on the futures endpoint; "
     +:+ "3 and 4 are cash-only values - see docs/SPEC.md 7.4").

Definition futuresValidateOrderPrice (op : string) (price : Price D) : checks :=
  match Price_Validate price false with
  | Ret (Some e) => Ret (Some (Errs.New StatusInvalidParam op
      ("entrustPrice must be a non-negative decimal: " +:+ error_text e)))
  | r => r
  end.

Definition futuresValidateOrderQuantity (op : string) (qty : Quantity D) : checks :=
  require (Quantity_IsPositive qty = true) op "entrustAmount must be a positive decimal".

Definition futuresValidateEntrustID (op entrustID : string) : checks :=
  require (TrimSpace (text entrustID) <> []) op "entrustId must not be empty".

Definition futuresValidateValidTimeType (op validTimeType validTime : string) : checks :=
  require (validTimeType ∈ futuresValidTimeTypes) op "validTimeType must be 0, 1, 2, 3 or 4" ;?;
  (if decide (validTime = "") then
     require (validTimeType <> futuresValidTimeTypeSpecifiedDate) op
       "validTime is required when validTimeType is 4"
   else futuresValidateDate op "validTime" validTime).

Definition futuresValidateOrderOptions (op orderOptions : string) : checks :=
  require (orderOptions ∈ futuresOrderOptionCodes) op "orderOptions must be 0 or 1".

(** The checks of each call, in the order they are made. *)
Definition account_check (op accountID : string) : checks := present op "accountID must not be empty" accountID.

Definition Entrust_checks (accountID : string) (order : FuturesOrderRequest) : checks :=
  let op := opFuturesEntrust in
  account_check op accountID ;?;
  futuresValidateStockCode op (Code (fr_Symbol order)) ;?;
  futuresValidateOrderType op (fr_OrderType order) ;?;
  futuresValidateEntrustBS op (fr_Side order) ;?;
  futuresValidateOrderPrice op (fr_Price order) ;?;
  futuresValidateOrderQuantity op (fr_Quantity order) ;?;
  futuresValidateValidTimeType op (fr_ValidTimeType order) (fr_ValidTime order) ;?;
  futuresValidateOrderOptions op (futuresOrderOptionsParam (fr_OrderOptions order)).

Definition CancelEntrust_checks (accountID entrustID : string) (symbol : Symbol) : checks :=
  let op := opFuturesCancelEntrust in
  account_check op accountID ;?;
  futuresValidateEntrustID op entrustID ;?;
  futuresValidateStockCode op (Code symbol).

Definition ModifyEntrust_checks (accountID : string) (change : FuturesModifyRequest) : checks :=
  let op := opFuturesModifyEntrust in
  account_check op accountID ;?;
  futuresValidateEntrustID op (fm_EntrustID change) ;?;
  futuresValidateStockCode op (Code (fm_Symbol change)) ;?;
  futuresValidateOrderPrice op (fm_Price change) ;?;
  futuresValidateOrderQuantity op (fm_Quantity change) ;?;
  futuresValidateEntrustBS op (fm_Side change) ;?;
  futuresValidateValidTimeType op (fm_ValidTimeType change) (fm_ValidTime change) ;?;
  futuresValidateOrderOptions op (futuresOrderOptionsParam (fm_OrderOptions change)).

Definition QueryProductInfo_checks (accountID : string) (codes : list string) : checks :=
  let op := opFuturesQueryProductInfo in
  account_check op accountID ;?;
  require (codes <> []) op "stockCode must contain at least one contract code" ;?;
  all_checks (futuresValidateStockCode op) codes.
End requests.
Arguments FuturesOrderRequest D : clear implicits.
Arguments FuturesModifyRequest D : clear implicits.

(** ** Operations *)
Record futuresHoldsListWireResponse := mkHoldsReply { FundInfo : FuturesFundInfoWire; HoldsList : list FuturesHoldWire }.

Record futuresOrderListWireResponse := mkOrderListReply {
  Data : list FuturesOrderWire;
  CurPageNo : Z;
  CurPageSize : Z;
  TotalPageNo : Z;
  LastPage : Z;
}.

(** The replies, read as the structs the service passes. *)
Record futures_replies (Raw : Type) := mkFuturesReplies {
  as_products : Raw -> list FuturesProductInfoWire;
  as_capacity : Raw -> FuturesMaxBuySellAmountWire;
  as_fund : Raw -> FuturesFundInfoWire;
  as_holds : Raw -> futuresHoldsListWireResponse;
  as_orders : Raw -> futuresOrderListWireResponse;
  as_order_no : Raw -> string;
}.
Arguments as_products {Raw} _.
Arguments as_capacity {Raw} _.
Arguments as_fund {Raw} _.
Arguments as_holds {Raw} _.
Arguments as_orders {Raw} _.
Arguments as_order_no {Raw} _.

Section operations.
Context {D W Raw : Type} `{Decimal D} (X : executor W Raw) (R : futures_replies Raw).

Definition futuresHoldResultFromDTO (v : futuresHoldsListWireResponse) : outcome (FuturesHoldResult D) :=
  positions ← rows FuturesPositionFromDTO (HoldsList v);
  account ← FuturesAccountFromDTO (FundInfo v);
  Ret (mkHoldResult account positions).

Definition futuresOrderPageFromDTO (v : futuresOrderListWireResponse) : outcome (FuturesOrderPage D) :=
  orders ← rows FuturesOrderFromDTO (Data v);
  Ret (mkOrderPage orders (CurPageNo v) (CurPageSize v) (TotalPageNo v) (is_one (LastPage v))).

Definition futuresFillPageFromDTO (v : futuresOrderListWireResponse) : outcome (FuturesFillPage D) :=
  fills ← rows FuturesFillFromDTO (Data v);
  Ret (mkFillPage fills (CurPageNo v) (CurPageSize v) (TotalPageNo v) (is_one (LastPage v))).

Definition QueryProductInfo (accountID : string) (codes : list string) (w : W) : result W (list (FuturesProduct D)) :=
  guard (QueryProductInfo_checks accountID codes) w
    (call X opFuturesQueryProductInfo RouteTradeFuturesQueryProductInfo (futuresProductInfoWireRequest codes) w
       (fun raw => rows FuturesProductFromDTO (as_products R raw))).

Definition QueryMaxBuySellAmount (accountID : string) (symbol : Symbol) (w : W) : result W (FuturesCapacity D) :=
  let op := opFuturesQueryMaxBuySellAmount in
  guard (account_check op accountID ;?; futuresValidateStockCode op (Code symbol)) w
    (call X op RouteTradeFuturesQueryMaxBuySellAmount (futuresMaxBuySellAmountWireRequest (Code symbol)) w
       (fun raw => FuturesCapacityFromDTO (as_capacity R raw))).

Definition QueryFundInfo (accountID : string) (w : W) : result W (FuturesAccount D) :=
  guard (account_check opFuturesQueryFundInfo accountID) w
    (call X opFuturesQueryFundInfo RouteTradeFuturesQueryFundInfo [] w
       (fun raw => FuturesAccountFromDTO (as_fund R raw))).

Definition QueryHoldsList (accountID : string) (w : W) : result W (FuturesHoldResult D) :=
  guard (account_check opFuturesQueryHoldsList accountID) w
    (call X opFuturesQueryHoldsList RouteTradeFuturesQueryHoldsList [] w
       (fun raw => futuresHoldResultFromDTO (as_holds R raw))).

Definition QueryRealEntrustList (accountID : string) (w : W) : result W (list (FuturesOrder D)) :=
  guard (account_check opFuturesQueryRealEntrustList accountID) w
    (call X opFuturesQueryRealEntrustList RouteTradeFuturesQueryRealEntrustList [] w
       (fun raw => rows FuturesOrderFromDTO (Data (as_orders R raw)))).

Definition QueryHistoryEntrustPage (accountID : string) (page : PageRequest) (w : W) : result W (FuturesOrderPage D) :=
  let op := opFuturesQueryHistoryEntrust in
  guard (account_check op accountID ;?; futuresValidatePage op page) w
    (call X op RouteTradeFuturesQueryHistoryEntrustList (futuresPageQueryParams page) w
       (fun raw => futuresOrderPageFromDTO (as_orders R raw))).

Definition QueryRealDeliverList (accountID : string) (w : W) : result W (list (FuturesFill D)) :=
  guard (account_check opFuturesQueryRealDeliverList accountID) w
    (call X opFuturesQueryRealDeliverList RouteTradeFuturesQueryRealDeliverList [] w
       (fun raw => rows FuturesFillFromDTO (Data (as_orders R raw)))).

Definition QueryHistoryDeliverPage (accountID : string) (page : PageRequest) (w : W) : result W (FuturesFillPage D) :=
  let op := opFuturesQueryHistoryDeliver in
  guard (account_check op accountID ;?; futuresValidatePage op page) w
    (call X op RouteTradeFuturesQueryHistoryDeliverList (futuresPageQueryParams page) w
       (fun raw => futuresFillPageFromDTO (as_orders R raw))).

Definition Entrust (accountID : string) (order : FuturesOrderRequest D) (w : W) : result W Trading.OrderResult :=
  guard (Entrust_checks accountID order) w
    (call X opFuturesEntrust RouteTradeFuturesEntrust
       (futuresEntrustWireRequest order (futuresOrderOptionsParam (fr_OrderOptions order))) w
       (fun raw => Ret (Trading.mkOrderResult (as_order_no R raw) "" EntrustStatusWaitToRegister))).

Definition CancelEntrust (accountID entrustID : string) (symbol : Symbol) (w : W) : result W unit :=
  guard (CancelEntrust_checks accountID entrustID symbol) w
    (call X opFuturesCancelEntrust RouteTradeFuturesCancelEntrust
       (futuresCancelEntrustWireRequest entrustID (Code symbol)) w (fun _ => Ret tt)).

Definition ModifyEntrust (accountID : string) (change : FuturesModifyRequest D) (w : W) : result W unit :=
  guard (ModifyEntrust_checks accountID change) w
    (call X opFuturesModifyEntrust RouteTradeFuturesModifyEntrust
       (futuresModifyEntrustWireRequest change (futuresOrderOptionsParam (fm_OrderOptions change))) w
       (fun _ => Ret tt)).
End operations.

(** ** What the checks accept *)
Definition valid_time_ok (validTimeType validTime : string) : Prop :=
  validTimeType ∈ ["0"; "1"; "2"; "3"; "4"] /\ (validTime = "" /\ validTimeType <> "4" \/ day_ok validTime).

Definition digits_ok (code : string) : Prop := code <> "" /\ Forall (fun c => is_dig c = true) (text code).

Definition page_ok (page : PageRequest) : Prop :=
  PageSize page < 100 /\ (StartDate page = "" \/ day_ok (StartDate page))
  /\ (EndDate page = "" \/ day_ok (EndDate page)).

Lemma day_not_empty : ~ day_ok "".
Proof. intros Hd. by destruct (day_shaped "" Hd). Qed.

Lemma futures_date_ok op field date : futuresValidateDate op field date = Ret None <-> day_ok date.
Proof.
  unfold futuresValidateDate. rewrite and_then_ok, !require_ok, date_parses. split; [by intros [_ ?] |].
  intros Hd. split; [|done]. destruct (day_shaped date Hd) as [Hl Hds].
  unfold futuresDateShaped. by rewrite Hl, Hds.
Qed.

Lemma futures_code_ok op code : futuresValidateStockCode op code = Ret None <-> code_ok code.
Proof. exact (stock_code_check op code). Qed.

Lemma valid_time_checks op t v : futuresValidateValidTimeType op t v = Ret None <-> valid_time_ok t v.
Proof.
  unfold futuresValidateValidTimeType, valid_time_ok. rewrite and_then_ok, require_ok.
  pose proof day_not_empty. case_decide as Hv; [rewrite require_ok, Hv | rewrite futures_date_ok]; tauto.
Qed.

Lemma options_checks op o :
  futuresValidateOrderOptions op (futuresOrderOptionsParam o) = Ret None <-> o ∈ [""; "0"; "1"].
Proof.
  unfold futuresValidateOrderOptions, futuresOrderOptionsParam, futuresOrderOptionCodes, futuresDefaultOrderOptions.
  rewrite require_ok, !elem_of_cons, !elem_of_nil. case_decide as Ho; [|tauto]. split; [auto | by left].
Qed.

Lemma order_type_checks op t : futuresValidateOrderType op t = Ret None <-> digits_ok t.
Proof.
  unfold futuresValidateOrderType, futuresDigitsShaped, digits_ok.
  rewrite require_ok, andb_true_iff, bool_decide_eq_true, forallb_forall, Forall_forall.
  by setoid_rewrite list_elem_of_In.
Qed.

Lemma page_checks op page : futuresValidatePage op page = Ret None <-> page_ok page.
Proof.
  unfold futuresValidatePage, page_ok.
  by rewrite !and_then_ok, require_ok, !unless_empty_ok, !futures_date_ok.
Qed.

Section accepted.
Context {D W Raw : Type} `{DecimalText D} (X : executor W Raw) (R : futures_replies Raw).

Definition futures_order_ok (accountID : string) (o : FuturesOrderRequest D) : Prop :=
  accountID <> "" /\ code_ok (Code (fr_Symbol o)) /\ digits_ok (fr_OrderType o) /\ fr_Side o ∈ ["1"; "2"]
  /\ (0 <= val (price_dec (fr_Price o)))%Q /\ (0 < val (qty_dec (fr_Quantity o)))%Q
  /\ valid_time_ok (fr_ValidTimeType o) (fr_ValidTime o) /\ fr_OrderOptions o ∈ [""; "0"; "1"].

Definition futures_modify_ok (accountID : string) (c : FuturesModifyRequest D) : Prop :=
  accountID <> "" /\ id_ok (fm_EntrustID c) /\ code_ok (Code (fm_Symbol c))
  /\ (0 <= val (price_dec (fm_Price c)))%Q /\ (0 < val (qty_dec (fm_Quantity c)))%Q
  /\ fm_Side c ∈ ["1"; "2"]
  /\ valid_time_ok (fm_ValidTimeType c) (fm_ValidTime c) /\ fm_OrderOptions c ∈ [""; "0"; "1"].

Lemma price_checks op (p : Price D) :
  checks_of op (futuresValidateOrderPrice op p)
  /\ (futuresValidateOrderPrice op p = Ret None <-> (0 <= val (price_dec p))%Q).
Proof using Type*. exact (order_price_check op p). Qed.

#[local] Hint Extern 1 (checks_of _ (futuresValidateOrderPrice _ _)) => apply price_checks : service.

Lemma side_checks op side : futuresValidateEntrustBS op side = Ret None <-> side ∈ ["1"; "2"].
Proof using Type. apply require_ok. Qed.

Lemma entrust_checks_ok acct (o : FuturesOrderRequest D) : Entrust_checks acct o = Ret None <-> futures_order_ok acct o.
Proof using Type*.
  unfold Entrust_checks, futures_order_ok, account_check, futuresValidateOrderQuantity. cbv zeta.
  rewrite !and_then_ok, present_ok, futures_code_ok, order_type_checks, side_checks, require_ok, positive_ok,
    valid_time_checks, options_checks.
  by rewrite (proj2 (price_checks _ _)).
Qed.

Lemma modify_checks_ok acct (c : FuturesModifyRequest D) :
  ModifyEntrust_checks acct c = Ret None <-> futures_modify_ok acct c.
Proof using Type*.
  unfold ModifyEntrust_checks, futures_modify_ok, account_check, futuresValidateOrderQuantity,
    futuresValidateEntrustID, id_ok. cbv zeta.
  rewrite !and_then_ok, present_ok, futures_code_ok, side_checks, !require_ok, positive_ok,
    valid_time_checks, options_checks.
  by rewrite (proj2 (price_checks _ _)).
Qed.

Lemma entrust_checks_of acct (o : FuturesOrderRequest D) : checks_of opFuturesEntrust (Entrust_checks acct o).
Proof using Type*.
  service_checks.
Qed.

Lemma modify_checks_of acct (c : FuturesModifyRequest D) :
  checks_of opFuturesModifyEntrust (ModifyEntrust_checks acct c).
Proof using Type*.
  service_checks.
Qed.

(** The keys of a body. *)
Definition keys (b : body) : list string := map fst b.

(** C22: each of the three calls that change a futures order sends exactly one
    request, to its own route of the mutation class, when its arguments satisfy
    the rules read as numbers and calendar values, and otherwise sends nothing and
    returns an invalid-parameter error of its own operation. The order options
    sent are never empty, and an expiry is sent exactly when the caller supplied
    one, whatever the time-in-force code. *)
Theorem futures_mutations_exact (acct : string) (o : FuturesOrderRequest D) (id : string) (sym : Symbol)
    (c : FuturesModifyRequest D) (w : W) log :
  let X := logged X in
  let sent_options s := if decide (s = "") then "0" else s in
  sends_exactly (futures_order_ok acct o) opFuturesEntrust RouteTradeFuturesEntrust
    (futuresEntrustWireRequest o (sent_options (fr_OrderOptions o))) (Entrust X R acct o (w, log)) w log
  /\ sends_exactly (acct <> "" /\ id_ok id /\ code_ok (Code sym)) opFuturesCancelEntrust
       RouteTradeFuturesCancelEntrust (futuresCancelEntrustWireRequest id (Code sym))
       (CancelEntrust X acct id sym (w, log)) w log
  /\ sends_exactly (futures_modify_ok acct c) opFuturesModifyEntrust RouteTradeFuturesModifyEntrust
       (futuresModifyEntrustWireRequest c (sent_options (fm_OrderOptions c))) (ModifyEntrust X acct c (w, log)) w log
  /\ (forall s, "validTime" ∈ keys (futuresEntrustWireRequest o s) <-> fr_ValidTime o <> "")
  /\ (forall s, "validTime" ∈ keys (futuresModifyEntrustWireRequest c s) <-> fm_ValidTime c <> "")
  /\ Forall (fun route => IsMutation route = true)
       [RouteTradeFuturesEntrust; RouteTradeFuturesCancelEntrust; RouteTradeFuturesModifyEntrust].
Proof using Type*.
  intros X' so. split_and!.
  - apply guard_sends; [apply entrust_checks_of | apply entrust_checks_ok].
  - apply guard_sends; [service_checks |].
    unfold CancelEntrust_checks, account_check, futuresValidateEntrustID, id_ok.
    by rewrite !and_then_ok, present_ok, require_ok, futures_code_ok.
  - apply guard_sends; [apply modify_checks_of | apply modify_checks_ok].
  - intros s. unfold keys, futuresEntrustWireRequest, str_omitempty.
    case_decide as Hv; simpl; rewrite !elem_of_cons, elem_of_nil; intuition congruence.
  - intros s. unfold keys, futuresModifyEntrustWireRequest, str_omitempty.
    case_decide as Hv; simpl; rewrite !elem_of_cons, elem_of_nil; intuition congruence.
  - repeat constructor; vm_compute; reflexivity.
Qed.
End accepted.

(** ** What a reply means *)
Section replies.
Context {D : Type} `{DecimalLaws D}.

Abbreviation all_ok := (forallb (number_ok (D := D))).

Lemma futures_money_total s cur :
  (number_ok s = true /\ exists q, futuresMoney s cur = Ret q
     /\ reads s (money_dec q) /\ currency q = (if decide (cur = "") then "HKD" else cur))
  \/ (number_ok s = false /\ futuresMoney (D := D) s cur = Panic).
Proof using Type*. apply money_total. Qed.

Definition order_ok (v : FuturesOrderWire) : bool :=
  all_ok [ow_EntrustPrice v; ow_BusinessPrice v; ow_EntrustAmount v; ow_BusinessAmount v].

Definition order_reads (v : FuturesOrderWire) (o : FuturesOrder D) : Prop :=
  [fo_StockCode o; fo_StockName o; fo_EntrustID o; fo_Side o; fo_OrderType o; fo_OrderTypeNum o; fo_Status o;
   fo_StatusDesc o; fo_ValidType o; fo_ValidTypeDesc o; fo_ValidTime o; fo_Date o; fo_EntrustTime o;
   fo_BusinessTime o; fo_QueryParamStr o]
  = [ow_StockCode v; ow_StockName v; ow_EntrustID v; ow_EntrustBS v; ow_EntrustType v; ow_EntrustTypeNum v;
     ow_Status v; ow_StatusDesc v; ow_ValidType v; ow_ValidTypeDesc v; ow_ValidTime v; ow_Date v; ow_EntrustTime v;
     ow_BusinessTime v; ow_QueryParamStr v]
  /\ fo_OrderOptions o = ow_OrderOptions v
  /\ (fo_IsValid o = true <-> ow_IsValid v = 1) /\ (fo_CanBeCanceled o = true <-> ow_CanBeCanceled v = 1)
  /\ (fo_CanBeUpdated o = true <-> ow_CanBeUpdated v = 1)
  /\ Forall2 reads [ow_EntrustPrice v; ow_BusinessPrice v; ow_EntrustAmount v; ow_BusinessAmount v]
       [price_dec (fo_OrderPrice o); price_dec (fo_FillPrice o); qty_dec (fo_Quantity o); qty_dec (fo_FilledQty o)].

Lemma is_one_spec n : is_one n = true <-> n = 1.
Proof using Type. apply bool_decide_eq_true. Qed.

Lemma order_total : total_row (FuturesOrderFromDTO (D := D)) order_ok order_reads.
Proof using Type*.
  intros v. unfold order_ok, FuturesOrderFromDTO, futuresPrice, futuresQuantity, futuresZeroTick. cbn [forallb].
  field_total (price_total (ow_EntrustPrice v)).
  field_total (price_total (ow_BusinessPrice v)).
  field_total (quantity_total (ow_EntrustAmount v)).
  field_total (quantity_total (ow_BusinessAmount v)).
  left. split; [done |]. eexists. split; [reflexivity |]. unfold order_reads. simpl. rewrite !is_one_spec.
  split_and!; try done. all_read.
Qed.

(** A fill reads the same row, its price being the price of the business done. *)
Definition fill_reads (v : FuturesOrderWire) (f : FuturesFill D) : Prop :=
  [ff_StockCode f; ff_StockName f; ff_EntrustID f; ff_Side f; ff_OrderType f; ff_OrderTypeNum f; ff_Status f;
   ff_StatusDesc f; ff_ValidType f; ff_ValidTypeDesc f; ff_ValidTime f; ff_Date f; ff_EntrustTime f;
   ff_BusinessTime f; ff_QueryParamStr f]
  = [ow_StockCode v; ow_StockName v; ow_EntrustID v; ow_EntrustBS v; ow_EntrustType v; ow_EntrustTypeNum v;
     ow_Status v; ow_StatusDesc v; ow_ValidType v; ow_ValidTypeDesc v; ow_ValidTime v; ow_Date v; ow_EntrustTime v;
     ow_BusinessTime v; ow_QueryParamStr v]
  /\ ff_OrderOptions f = ow_OrderOptions v
  /\ (ff_IsValid f = true <-> ow_IsValid v = 1) /\ (ff_CanBeCanceled f = true <-> ow_CanBeCanceled v = 1)
  /\ (ff_CanBeUpdated f = true <-> ow_CanBeUpdated v = 1)
  /\ Forall2 reads [ow_EntrustPrice v; ow_BusinessPrice v; ow_EntrustAmount v; ow_BusinessAmount v]
       [price_dec (ff_OrderPrice f); price_dec (ff_Price f); qty_dec (ff_Quantity f); qty_dec (ff_FilledQty f)].

Definition fill_ok (v : FuturesOrderWire) : bool :=
  all_ok [ow_BusinessPrice v; ow_EntrustPrice v; ow_EntrustAmount v; ow_BusinessAmount v].

Lemma fill_total : total_row (FuturesFillFromDTO (D := D)) fill_ok fill_reads.
Proof using Type*.
  intros v. unfold fill_ok, FuturesFillFromDTO, futuresPrice, futuresQuantity, futuresZeroTick. cbn [forallb].
  field_total (price_total (ow_BusinessPrice v)).
  field_total (price_total (ow_EntrustPrice v)).
  field_total (quantity_total (ow_EntrustAmount v)).
  field_total (quantity_total (ow_BusinessAmount v)).
  left. split; [done |]. eexists. split; [reflexivity |]. unfold fill_reads. simpl. rewrite !is_one_spec.
  split_and!; try done. all_read.
Qed.

(** The funds of an account: sixteen numbers, the amounts in the currency their
    field names, Hong Kong dollars when it names none. *)
Definition fund_numbers (v : FuturesFundInfoWire) : list string :=
  [fw_AssetBalance v; fw_EnableBalance v; fw_MarginCall v; fw_IncomeBalance v; fw_CashBal v; fw_IMargin v;
   fw_MMargin v; fw_MaxMargin v; fw_CreditLimit v; fw_CloseProfit v; fw_CashBalHKD v; fw_CashBalUSD v;
   fw_CashBalCNH v; fw_MarginLevel v; fw_StatusPercent v; fw_CycRateUSDtoHSD v].

Definition account_amounts (a : FuturesAccount D) : list (Money D) :=
  [fa_AssetBalance a; fa_EnableBalance a; fa_MarginCall a; fa_IncomeBalance a; fa_CashBal a; fa_IMargin a;
   fa_MMargin a; fa_MaxMargin a; fa_CreditLimit a; fa_CloseProfit a; fa_CashBalHKD a; fa_CashBalUSD a; fa_CashBalCNH a].

Definition account_reads (v : FuturesFundInfoWire) (a : FuturesAccount D) : Prop :=
  [fa_AEID a; fa_CtrlLevel a; fa_MarginClass a; fa_MarginStatus a]
    = [fw_AEID v; fw_CtrlLevel v; fw_MarginClass v; fw_MarginStatus v]
  /\ map currency (account_amounts a) = repeat "HKD" 11 ++ ["USD"; "CNH"]
  /\ Forall2 reads (fund_numbers v)
       (map money_dec (account_amounts a)
        ++ map rate_dec [fa_MarginLevel a; fa_StatusPercent a; fa_CycRateUSDtoHSD a]).

Lemma account_total :
  total_row (FuturesAccountFromDTO (D := D)) (fun v => all_ok (fund_numbers v)) account_reads.
Proof using Type*.
  intros v. unfold fund_numbers, FuturesAccountFromDTO, futuresRate. cbn [forallb].
  field_total (futures_money_total (fw_AssetBalance v) futuresBaseCurrency).
  field_total (futures_money_total (fw_EnableBalance v) futuresBaseCurrency).
  field_total (futures_money_total (fw_MarginCall v) futuresBaseCurrency).
  field_total (futures_money_total (fw_IncomeBalance v) futuresBaseCurrency).
  field_total (futures_money_total (fw_CashBal v) futuresBaseCurrency).
  field_total (futures_money_total (fw_IMargin v) futuresBaseCurrency).
  field_total (futures_money_total (fw_MMargin v) futuresBaseCurrency).
  field_total (futures_money_total (fw_MaxMargin v) futuresBaseCurrency).
  field_total (futures_money_total (fw_CreditLimit v) futuresBaseCurrency).
  field_total (futures_money_total (fw_CloseProfit v) futuresBaseCurrency).
  field_total (futures_money_total (fw_CashBalHKD v) futuresCurrencyHKD).
  field_total (futures_money_total (fw_CashBalUSD v) futuresCurrencyUSD).
  field_total (futures_money_total (fw_CashBalCNH v) futuresCurrencyCNH).
  field_total (rate_total (fw_MarginLevel v)).
  field_total (rate_total (fw_StatusPercent v)).
  field_total (rate_total (fw_CycRateUSDtoHSD v)).
  left. split; [done |]. eexists. split; [reflexivity |]. unfold account_reads, fund_numbers. simpl.
  split; [done |]. split; [| all_read]. destruct_and?. repeat match goal with Hc : currency _ = _ |- _ => rewrite Hc; clear Hc end. reflexivity.
Qed.

Definition position_numbers (v : FuturesHoldWire) : list string :=
  [hw_CcyRate v; hw_ContractValue v; hw_LastDayQty v; hw_DepQty v; hw_DayLongQty v; hw_DayShortQty v; hw_DayNetQty v;
   hw_CurrentQty v; hw_LastDayPrice v; hw_DayLongPrice v; hw_DayShortPrice v; hw_DayNetPrice v; hw_CostPrice v;
   hw_LastPrice v; hw_PreClosePrice v; hw_ProfitLoss v; hw_ProfitLossBaseCcy v; hw_CloseProfit v; hw_CloseProfitHKD v].

Definition position_reads (v : FuturesHoldWire) (p : FuturesPosition D) : Prop :=
  [po_StockName p; po_StockCode p; po_DataType p; po_Ccy p]
    = [hw_StockName v; hw_StockCode v; hw_DataType v; hw_Ccy v]
  /\ Forall2 reads (position_numbers v)
       (rate_dec (po_CcyRate p)
        :: map qty_dec [po_ContractValue p; po_LastDayQty p; po_DepQty p; po_DayLongQty p; po_DayShortQty p;
                        po_DayNetQty p; po_CurrentQty p]
        ++ map price_dec [po_LastDayPrice p; po_DayLongPrice p; po_DayShortPrice p; po_DayNetPrice p; po_CostPrice p;
                          po_LastPrice p; po_PreClosePrice p]
        ++ map money_dec [po_ProfitLoss p; po_ProfitLossBaseCcy p; po_CloseProfit p; po_CloseProfitHKD p]).

Lemma futures_position_total :
  total_row (FuturesPositionFromDTO (D := D)) (fun v => all_ok (position_numbers v)) position_reads.
Proof using Type*.
  intros v. unfold position_numbers, FuturesPositionFromDTO, futuresRate, futuresPrice, futuresQuantity, futuresZeroTick.
  cbn [forallb].
  field_total (rate_total (hw_CcyRate v)).
  field_total (quantity_total (hw_ContractValue v)).
  field_total (quantity_total (hw_LastDayQty v)).
  field_total (quantity_total (hw_DepQty v)).
  field_total (quantity_total (hw_DayLongQty v)).
  field_total (quantity_total (hw_DayShortQty v)).
  field_total (quantity_total (hw_DayNetQty v)).
  field_total (quantity_total (hw_CurrentQty v)).
  field_total (price_total (hw_LastDayPrice v)).
  field_total (price_total (hw_DayLongPrice v)).
  field_total (price_total (hw_DayShortPrice v)).
  field_total (price_total (hw_DayNetPrice v)).
  field_total (price_total (hw_CostPrice v)).
  field_total (price_total (hw_LastPrice v)).
  field_total (price_total (hw_PreClosePrice v)).
  field_total (futures_money_total (hw_ProfitLoss v) futuresBaseCurrency).
  field_total (futures_money_total (hw_ProfitLossBaseCcy v) futuresBaseCurrency).
  field_total (futures_money_total (hw_CloseProfit v) futuresBaseCurrency).
  field_total (futures_money_total (hw_CloseProfitHKD v) futuresCurrencyHKD).
  left. split; [done |]. eexists. split; [reflexivity |]. unfold position_reads, position_numbers. simpl. split; [done | all_read].
Qed.

(** Counts of contracts are kept exactly, however large. *)
Lemma whole_quantity n : 0 <= n ->
  exists q, MustNewQuantity (D := D) (itoa n) = Ret q /\ (val (qty_dec q) == inject_Z n)%Q.
Proof using Type*.
  intros Hn. destruct (itoa_value n Hn) as [Hd Hne]. unfold MustNewQuantity.
  assert (Hv : numeral_value (itoa n) = Some (n # 1)).
  { rewrite <- (str_text (itoa n)). by apply numeral_digits. }
  destruct (NewFromString_law _ _ Hv) as (d & -> & Hq). by exists (mkQuantity d).
Qed.

Context {W Raw : Type} (X : executor W Raw) (R : futures_replies Raw).

(** The reads of the futures surface hand over everything the Gateway sent:
    every position, order and fill in order with each number as the decimal it
    writes (an absent one being zero), the funds with the currency of each amount,
    the page counters as they came; when some number does not parse the call
    panics. The contract counts of a capacity reply keep their exact value over
    the whole range of the type. *)
Theorem futures_replies_exact (acct : string) (page : PageRequest) (w w' : W) (raw : Raw) :
  acct <> "" ->
  let asked op route req := X op route req w = (Ret (inl raw), w') in
  (asked opFuturesQueryHoldsList RouteTradeFuturesQueryHoldsList [] ->
   let reply := fst (QueryHoldsList X R acct w) in
   if forallb (fun v => all_ok (position_numbers v)) (HoldsList (as_holds R raw))
      && all_ok (fund_numbers (FundInfo (as_holds R raw)))
   then exists r, reply = Ret (inl r) /\ Forall2 position_reads (HoldsList (as_holds R raw)) (Positions r)
          /\ account_reads (FundInfo (as_holds R raw)) (Account r)
   else reply = Panic)
  /\ (page_ok page -> asked opFuturesQueryHistoryEntrust RouteTradeFuturesQueryHistoryEntrustList (futuresPageQueryParams page) ->
      let reply := fst (QueryHistoryEntrustPage X R acct page w) in
      let v := as_orders R raw in
      if forallb order_ok (Data v)
      then exists r, reply = Ret (inl r) /\ Forall2 order_reads (Data v) (Orders r)
             /\ (op_CurPageNo r, op_CurPageSize r, op_TotalPageNo r) = (CurPageNo v, CurPageSize v, TotalPageNo v)
             /\ (op_LastPage r = true <-> LastPage v = 1)
      else reply = Panic)
  /\ (asked opFuturesQueryRealDeliverList RouteTradeFuturesQueryRealDeliverList [] ->
      let reply := fst (QueryRealDeliverList X R acct w) in
      if forallb fill_ok (Data (as_orders R raw))
      then exists fs, reply = Ret (inl fs) /\ Forall2 fill_reads (Data (as_orders R raw)) fs
      else reply = Panic)
  /\ (forall v, 0 <= mw_MaxBuyAmount v < 2 ^ 63 -> 0 <= mw_MaxSellAmount v < 2 ^ 63 ->
      number_ok (D := D) (mw_InitialMargin v) = true ->
      exists c, FuturesCapacityFromDTO (D := D) v = Ret c
        /\ (val (qty_dec (fc_MaxBuyAmount c)) == inject_Z (mw_MaxBuyAmount v))%Q
        /\ (val (qty_dec (fc_MaxSellAmount c)) == inject_Z (mw_MaxSellAmount v))%Q
        /\ reads (mw_InitialMargin v) (money_dec (fc_InitialMargin c))
        /\ currency (fc_InitialMargin c) = (if decide (mw_Ccy v = "") then "HKD" else mw_Ccy v)).
Proof using Type*.
  intros Ha asked. pose proof (fun op => proj2 (present_ok op "accountID must not be empty" acct) Ha) as Hacct.
  unfold asked, QueryHoldsList, QueryHistoryEntrustPage, QueryRealDeliverList, account_check. split_and!.
  - intros HX. cbv zeta. rewrite Hacct. cbn [guard]. unfold call. rewrite HX. cbn [fst].
    unfold futuresHoldResultFromDTO.
    pose proof (rows_total _ _ _ (HoldsList (as_holds R raw)) futures_position_total) as Hp. unfold total_reply in Hp.
    destruct (forallb _ (HoldsList _)); [destruct Hp as (ps & -> & Hps) | by rewrite Hp]. cbn [andb mbind outcome_bind].
    destruct (account_total (FundInfo (as_holds R raw))) as [(-> & a & -> & Hr)|[-> ->]]; [| done].
    eexists. split; [reflexivity | done].
  - intros Hpage HX. cbv zeta. rewrite Hacct, (proj2 (page_checks _ _) Hpage). cbn [guard and_then]. unfold call.
    rewrite HX. cbn [fst]. unfold futuresOrderPageFromDTO.
    pose proof (rows_total _ _ _ (Data (as_orders R raw)) order_total) as Hp. unfold total_reply in Hp.
    destruct (forallb _ (Data _)); [destruct Hp as (os & -> & Hos) | by rewrite Hp].
    eexists. split; [reflexivity |]. split; [done |]. split; [done | apply is_one_spec].
  - intros HX. cbv zeta. rewrite Hacct. cbn [guard].
    exact (call_answers X _ _ [] w (fun raw => Data (as_orders R raw)) _ _ _ fill_total raw w' HX).
  - intros v [Hb _] [Hs _] Hm. unfold FuturesCapacityFromDTO.
    destruct (whole_quantity _ Hb) as (b & -> & Hb'), (whole_quantity _ Hs) as (c & -> & Hs').
    destruct (futures_money_total (mw_InitialMargin v) (mw_Ccy v)) as [(_ & m & -> & Hr & Hc)|[Hf _]]; [| congruence].
    eexists. split; [reflexivity | done].
Qed.

Lemma tick_numeral n : 0 < n ->
  numeral_value (futuresTickString n) = Some (1 # Z.to_pos (10 ^ n))
  /\ Z.of_nat (length (text (futuresTickString n))) = n + 2.
Proof using Type.
  intros Hn. unfold futuresTickString. rewrite !decide_False by lia.
  set (zeros := repeat "0"%char (Z.to_nat (n - 1))).
  assert (Hl : Z.of_nat (length (zeros ++ ["1"%char])) = n).
  { unfold zeros. rewrite length_app, repeat_length. simpl. lia. }
  split.
  - change (text "0." ++ zeros ++ ["1"%char]) with (["0"%char] ++ "."%char :: (zeros ++ ["1"%char])).
    rewrite (numeral_point _ _ 1); [by rewrite Hl | done | by destruct zeros |].
    exact (digits_value_zeros (S (Z.to_nat (n - 1))) ["1"%char]).
  - rewrite text_str, length_app. simpl. simpl in Hl. lia.
Qed.

(** The tick derived from a product's price decimal power [n] is a plain
    numeral with [n] places whose value is exactly 10^-n for every power that is
    not negative; a negative power gives the zero tick, which checks nothing. *)
Theorem futures_tick_exact (n : Z) :
  (0 <= n -> exists t, NewTick (D := D) (futuresTickString n) = inl t
     /\ (val (tick_dec t) * inject_Z (10 ^ n) == 1)%Q
     /\ Z.of_nat (length (text (futuresTickString n))) = (if decide (n = 0) then 1 else n + 2))
  /\ (n < 0 -> futuresTickString n = "0").
Proof using Type*.
  split; [intros Hn | intros Hn; unfold futuresTickString; by rewrite decide_True by lia]. unfold NewTick.
  case_decide as Hz.
  - subst n. destruct (NewFromString_law "1" (1 # 1) eq_refl) as (d & Hd & Hv).
    change (futuresTickString 0) with "1". rewrite Hd. exists (mkTick d). split; [done |]. split; [|done].
    simpl. rewrite Hv. reflexivity.
  - destruct (tick_numeral n ltac:(lia)) as [Hv Hl]. destruct (NewFromString_law _ _ Hv) as (d & -> & Hd).
    exists (mkTick d). split; [done |]. split; [|done]. simpl. rewrite Hd.
    assert (0 < 10 ^ n) by (apply Z.pow_pos_nonneg; lia).
    unfold Qeq, inject_Z. simpl. rewrite Pos.mul_1_r, Z2Pos.id by lia. lia.
Qed.
End replies.

(** ** The theorems on concrete calls *)
Definition demo_symbol : Symbol := mkSymbol "" "HSI2609.HK" 0 "" "".

Definition demo_order (validTime : string) : FuturesOrderRequest dec :=
  mkOrderRequest demo_symbol "1" "0" (mkPrice (mkDec 25000 0) (mkDec 0 0)) (mkQuantity (mkDec 2 0)) "0" validTime "".

Definition demo_change : FuturesModifyRequest dec :=
  mkModifyRequest "E1" demo_symbol (mkPrice (mkDec 25001 0) (mkDec 0 0)) (mkQuantity (mkDec 2 0)) "3" "0" "" "".

Definition demo_executor {Raw} (reply : Raw) : executor unit Raw := fun _ _ _ w => (Ret (inl reply), w).

Definition demo_row (price : string) : FuturesOrderWire :=
  mkOrderWire "HSI2609.HK" "HSI" "" "1" price "2" "" "2026/01/05" "" "093000" "" "" "1" "E1" 1 "0" "0" 1 1 "0" "" 0 "".

Definition demo_fund : FuturesFundInfoWire :=
  mkFundWire "1000" "" "" "" "" "" "" "" "" "" "" "" "" "" "" "" "" "" "" "".

Definition demo_replies : futures_replies (list FuturesOrderWire) :=
  mkFuturesReplies _ (fun _ => []) (fun _ => mkCapacityWire 0 0 0 "" "") (fun _ => demo_fund)
    (fun _ => mkHoldsReply demo_fund []) (fun l => mkOrderListReply l 1 20 1 1) (fun _ => "E1").

Example futures_demo_order_ok : futures_order_ok "acct" (demo_order "20261231").
Proof.
  unfold futures_order_ok. split_and!; try decided; try (vm_compute; discriminate); try reflexivity.
  - split; [decided | apply Forall_forall; decided].
  - split; [decided |]. right. exists 2026, 12, 31. repeat (split; [decided |]). reflexivity.
Qed.

(** An order that is good for today carries the expiry the caller supplied; a
    change that sells short is refused. *)
Lemma futures_mutations_exact_witness :
  futures_order_ok "acct" (demo_order "20261231")
  /\ snd (snd (Entrust (logged (demo_executor (Raw := list FuturesOrderWire) [])) demo_replies "acct" (demo_order "20261231") (tt, [])))
     = [(RouteTradeFuturesEntrust, futuresEntrustWireRequest (demo_order "20261231") "0")]
  /\ "validTime" ∈ keys (futuresEntrustWireRequest (demo_order "20261231") "0")
  /\ exists msg, ModifyEntrust (logged (demo_executor (Raw := list FuturesOrderWire) [])) "acct" demo_change (tt, [])
       = (Ret (inr (Errs.New StatusInvalidParam opFuturesModifyEntrust msg)), (tt, [])).
Proof.
  pose proof (futures_mutations_exact (demo_executor (Raw := list FuturesOrderWire) []) demo_replies "acct" (demo_order "20261231") "" demo_symbol
    demo_change tt []) as ((Hs & _) & _ & (_ & Hm) & Hv & _).
  split; [exact futures_demo_order_ok |]. split; [exact (Hs futures_demo_order_ok) |]. split; [by apply Hv |].
  apply Hm. intros (_ & _ & _ & _ & _ & Hside & _). revert Hside. apply (bool_decide_unpack _). vm_compute. exact I.
Defined.

Definition demo_page : PageRequest := mkPageRequest 0 99 "" "20260228".

Example demo_page_ok : page_ok demo_page.
Proof.
  unfold page_ok. split; [done |]. split; [by left |]. right. exists 2026, 2, 28.
  repeat (split; [decided |]). reflexivity.
Qed.

Lemma futures_replies_exact_witness :
  (exists r o, fst (QueryHistoryEntrustPage (demo_executor [demo_row "25000"]) demo_replies "acct" demo_page tt) = Ret (inl r)
     /\ Orders r = [o] /\ order_reads (demo_row "25000") o /\ op_LastPage (D := dec) r = true)
  /\ fst (QueryHistoryEntrustPage (D := dec) (demo_executor [demo_row "25,000"]) demo_replies "acct" demo_page tt) = Panic.
Proof.
  split.
  - destruct (futures_replies_exact (D := dec) (demo_executor [demo_row "25000"]) demo_replies "acct" demo_page
      tt tt [demo_row "25000"] ltac:(discriminate)) as (_ & Hp & _).
    destruct (Hp demo_page_ok eq_refl) as (r & Hr & Hos & _ & Hl).
    apply Forall2_cons_inv_l in Hos as (o & os' & Ho & Hnil & Heq). apply Forall2_nil_inv_l in Hnil as ->.
    exists r, o. split; [exact Hr |]. split; [exact Heq |]. split; [exact Ho | by apply Hl].
  - destruct (futures_replies_exact (D := dec) (demo_executor [demo_row "25,000"]) demo_replies "acct" demo_page
      tt tt [demo_row "25,000"] ltac:(discriminate)) as (_ & Hp & _).
    exact (Hp demo_page_ok eq_refl).
Defined.

Lemma futures_tick_exact_witness :
  (exists t, NewTick (D := dec) "0.001" = inl t /\ (val (tick_dec t) * inject_Z 1000 == 1)%Q)
  /\ futuresTickString (-1) = "0".
Proof.
  destruct (futures_tick_exact (D := dec) 3) as [H3 _]. destruct (futures_tick_exact (D := dec) (-1)) as [_ Hn].
  split; [| by apply Hn]. destruct (H3 ltac:(done)) as (t & Ht & Hv & _). exists t. split; [exact Ht | exact Hv].
Defined.
