(* ===== verification/Account.v ===== *)
(** Accounts: the rows and mappings of [src/pkg/domain/account.go], and the reads
    of [src/pkg/services/account.go], with the bounded walk of the fund journal.
    The mappings panic on a number they cannot parse, an absent one included. *)
From Stdlib Require Import QArith.
From S2P Require Import Prelude Types Errs Retry Routes Domain Decimals Service.
Local Open Scope Z_scope.
Local Open Scope go_scope.

(** ** Rows of the replies *)
Record MarginFundInfoWire := mkMarginWire {
  mi_HoldsBalance : string;
  mi_AssetBalance : string;
  mi_EnableBalance : string;
  mi_MarketValue : string;
  mi_CashOnHold : string;
  mi_CreditValue : string;
  mi_CreditLine : string;
  mi_FetchBalance : string;
  mi_FrozenBalance : string;
  mi_AccountStatus : string;
  mi_SpentRatio : string;
  mi_CurrentCreditLimit : string;
  mi_MaxCreditLimit : string;
  mi_UnitCreditLimit : string;
  mi_UnitMaxCreditLimit : string;
  mi_BuyPower : string;
  mi_BuyPowerCredit : string;
  mi_BuyPowerHk : string;
  mi_BuyPowerUs : string;
  mi_BuyPowerCn : string;
  mi_UnitedBuyPowerHk : string;
  mi_UnitedBuyPowerUs : string;
  mi_UnitedBuyPowerCn : string;
  mi_ThirdBuyPowerHk : string;
  mi_ThirdBuyPowerUs : string;
  mi_ThirdBuyPowerCn : string;
  mi_BuyPowerShortMarket : string;
  mi_BuyPowerMoney : string;
}.

Record HoldsVoWire := mkHoldsWire {
  hv_StockName : string;
  hv_EnableAmount : string;
  hv_CurrentAmount : string;
  hv_StockCode : string;
  hv_CostPrice : string;
  hv_LastPrice : string;
  hv_IncomeBalance : string;
  hv_MarketValue : string;
  hv_MarketValueRate : string;
  hv_IncomeRatio : string;
  hv_DayCostPrice : string;
  hv_DayInComeAmount : string;
  hv_DayOutComeAmount : string;
  hv_KeepCostPrice : string;
  hv_ExchangeType : string;
}.

Record FundJourVoWire := mkJourWire {
  jw_BusinessBalance : string;
  jw_Type : string;
  jw_TypeDesc : string;
  jw_FundJourParentType : string;
  jw_Time : string;
  jw_QueryParamStr : string;
}.

Section domain.
Context {D : Type} `{Decimal D}.

Record AccountBalance := mkAccountBalance {
  ab_HoldsBalance : Money D;
  ab_AssetBalance : Money D;
  ab_EnableBalance : Money D;
  ab_MarketValue : Money D;
  ab_CashOnHold : Money D;
  ab_CreditValue : Money D;
  ab_CreditLine : Money D;
  ab_FetchBalance : Money D;
  ab_FrozenBalance : Money D;
  ab_AccountStatus : string;
  ab_SpentRatio : Rate D;
  ab_CurrentCreditLimit : Money D;
  ab_MaxCreditLimit : Money D;
  ab_UnitCreditLimit : Money D;
  ab_UnitMaxCreditLimit : Money D;
  ab_BuyPower : Money D;
  ab_BuyPowerCredit : Money D;
  ab_BuyPowerHk : Money D;
  ab_BuyPowerUs : Money D;
  ab_BuyPowerCn : Money D;
  ab_UnitedBuyPowerHk : Money D;
  ab_UnitedBuyPowerUs : Money D;
  ab_UnitedBuyPowerCn : Money D;
  ab_ThirdBuyPowerHk : Money D;
  ab_ThirdBuyPowerUs : Money D;
  ab_ThirdBuyPowerCn : Money D;
  ab_BuyPowerShortMarket : Money D;
  ab_BuyPowerMoney : Money D;
}.

Record Position := mkPosition {
  ps_StockName : string;
  ps_EnableAmount : Quantity D;
  ps_CurrentAmount : Quantity D;
  ps_StockCode : string;
  ps_CostPrice : Price D;
  ps_LastPrice : Price D;
  ps_IncomeBalance : Money D;
  ps_MarketValue : Money D;
  ps_MarketValueRate : Rate D;
  ps_IncomeRatio : Rate D;
  ps_DayCostPrice : Price D;
  ps_DayInComeAmount : Money D;
  ps_DayOutComeAmount : Money D;
  ps_KeepCostPrice : Price D;
  ps_ExchangeType : string;
}.

Record FundJournalEntry := mkJournalEntry {
  je_BusinessBalance : Money D;
  je_Type : string;
  je_TypeDesc : string;
  je_FundJourParentType : string;
  je_Time : string;
  je_QueryParamStr : string;
}.

Record InterestRate := mkInterestRate { SourceCurrency : string; TargetCurrency : string; ir_Rate : Rate D }.

Definition AccountBalanceFromDTO (v : MarginFundInfoWire) : outcome AccountBalance :=
  holdsBalance ← MustNewMoney (mi_HoldsBalance v) "HKD" 3;
  assetBalance ← MustNewMoney (mi_AssetBalance v) "HKD" 3;
  enableBalance ← MustNewMoney (mi_EnableBalance v) "HKD" 3;
  marketValue ← MustNewMoney (mi_MarketValue v) "HKD" 3;
  cashOnHold ← MustNewMoney (mi_CashOnHold v) "HKD" 3;
  creditValue ← MustNewMoney (mi_CreditValue v) "HKD" 3;
  creditLine ← MustNewMoney (mi_CreditLine v) "HKD" 3;
  fetchBalance ← MustNewMoney (mi_FetchBalance v) "HKD" 3;
  frozenBalance ← MustNewMoney (mi_FrozenBalance v) "HKD" 3;
  spentRatio ← MustNewRate (mi_SpentRatio v);
  currentCreditLimit ← MustNewMoney (mi_CurrentCreditLimit v) "HKD" 3;
  maxCreditLimit ← MustNewMoney (mi_MaxCreditLimit v) "HKD" 3;
  unitCreditLimit ← MustNewMoney (mi_UnitCreditLimit v) "HKD" 3;
  unitMaxCreditLimit ← MustNewMoney (mi_UnitMaxCreditLimit v) "HKD" 3;
  buyPower ← MustNewMoney (mi_BuyPower v) "HKD" 3;
  buyPowerCredit ← MustNewMoney (mi_BuyPowerCredit v) "HKD" 3;
  buyPowerHk ← MustNewMoney (mi_BuyPowerHk v) "HKD" 3;
  buyPowerUs ← MustNewMoney (mi_BuyPowerUs v) "USD" 3;
  buyPowerCn ← MustNewMoney (mi_BuyPowerCn v) "CNY" 3;
  unitedBuyPowerHk ← MustNewMoney (mi_UnitedBuyPowerHk v) "HKD" 3;
  unitedBuyPowerUs ← MustNewMoney (mi_UnitedBuyPowerUs v) "USD" 3;
  unitedBuyPowerCn ← MustNewMoney (mi_UnitedBuyPowerCn v) "CNY" 3;
  thirdBuyPowerHk ← MustNewMoney (mi_ThirdBuyPowerHk v) "HKD" 3;
  thirdBuyPowerUs ← MustNewMoney (mi_ThirdBuyPowerUs v) "USD" 3;
  thirdBuyPowerCn ← MustNewMoney (mi_ThirdBuyPowerCn v) "CNY" 3;
  buyPowerShortMarket ← MustNewMoney (mi_BuyPowerShortMarket v) "HKD" 3;
  buyPowerMoney ← MustNewMoney (mi_BuyPowerMoney v) "HKD" 3;
  Ret (mkAccountBalance holdsBalance assetBalance enableBalance marketValue cashOnHold creditValue
    creditLine fetchBalance frozenBalance (mi_AccountStatus v) spentRatio currentCreditLimit maxCreditLimit
    unitCreditLimit unitMaxCreditLimit buyPower buyPowerCredit buyPowerHk buyPowerUs buyPowerCn
    unitedBuyPowerHk unitedBuyPowerUs unitedBuyPowerCn thirdBuyPowerHk thirdBuyPowerUs thirdBuyPowerCn
    buyPowerShortMarket buyPowerMoney).

Definition PositionFromDTO (v : HoldsVoWire) : outcome Position :=
  enableAmount ← MustNewQuantity (hv_EnableAmount v);
  currentAmount ← MustNewQuantity (hv_CurrentAmount v);
  costPrice ← MustNewPrice (hv_CostPrice v) "0";
  lastPrice ← MustNewPrice (hv_LastPrice v) "0";
  incomeBalance ← MustNewMoney (hv_IncomeBalance v) "HKD" 3;
  marketValue ← MustNewMoney (hv_MarketValue v) "HKD" 3;
  marketValueRate ← MustNewRate (hv_MarketValueRate v);
  incomeRatio ← MustNewRate (hv_IncomeRatio v);
  dayCostPrice ← MustNewPrice (hv_DayCostPrice v) "0";
  dayInComeAmount ← MustNewMoney (hv_DayInComeAmount v) "HKD" 3;
  dayOutComeAmount ← MustNewMoney (hv_DayOutComeAmount v) "HKD" 3;
  keepCostPrice ← MustNewPrice (hv_KeepCostPrice v) "0";
  Ret (mkPosition (hv_StockName v) enableAmount currentAmount (hv_StockCode v) costPrice lastPrice
    incomeBalance marketValue marketValueRate incomeRatio dayCostPrice dayInComeAmount dayOutComeAmount
    keepCostPrice (hv_ExchangeType v)).

Definition FundJournalEntryFromDTO (v : FundJourVoWire) : outcome FundJournalEntry :=
  businessBalance ← MustNewMoney (jw_BusinessBalance v) "HKD" 3;
  Ret (mkJournalEntry businessBalance (jw_Type v) (jw_TypeDesc v) (jw_FundJourParentType v) (jw_Time v)
    (jw_QueryParamStr v)).

Definition InterestRateFromDTO (source target rate : string) : outcome InterestRate :=
  r ← MustNewRate rate;
  Ret (mkInterestRate source target r).
End domain.
Arguments AccountBalance D : clear implicits.
Arguments Position D : clear implicits.
Arguments FundJournalEntry D : clear implicits.
Arguments InterestRate D : clear implicits.

(** ** Operations *)
Definition opMarginFundInfo : string := "trade/TradeQueryMarginFundInfo".
Definition opHoldsList : string := "trade/TradeQueryHoldsList".
Definition opRealFundJourList : string := "trade/TradeQueryRealFundJourList".
Definition opHistoryFundJourList : string := "trade/TradeQueryHistoryFundJourList".
Definition opRateQueryList : string := "hs/rate/queryList".

Definition DefaultPageSize : Z := 50.
Definition MaxPageSize : Z := 99.
Definition maxPages : nat := 1000.

Definition clampPageSize (pageSize : Z) : Z :=
  if decide (pageSize <= 0) then DefaultPageSize
  else if decide (MaxPageSize < pageSize) then MaxPageSize
  else pageSize.

Record FundJourFilter := mkJourFilter { fj_ExchangeType : string; fj_StartDate : string; fj_EndDate : string }.

Definition marginFundInfoWireRequest (exchange : string) : body := str_field "exchangeType" exchange.
Definition holdsListWireRequest (exchange : string) : body := str_omitempty "exchangeType" exchange.
Definition rateQueryListWireRequest (rateType : string) : body := str_omitempty "rateType" rateType.

Definition realFundJourListWireRequest (f : FundJourFilter) (pageSize : Z) (cursor : string) : body :=
  [("exchangeType", JStr (fj_ExchangeType f)); ("queryCount", JInt pageSize); ("queryParamStr", JStr cursor)].

Definition historyFundJourListWireRequest (f : FundJourFilter) (pageSize : Z) (cursor : string) : body :=
  realFundJourListWireRequest f pageSize cursor
  ++ [("startDate", JStr (fj_StartDate f)); ("endDate", JStr (fj_EndDate f))].

(** The replies, read as the structs the service passes. *)
Record account_replies (Raw : Type) := mkAccountReplies {
  as_margin : Raw -> MarginFundInfoWire;
  as_positions : Raw -> list HoldsVoWire;
  as_journal : Raw -> list FundJourVoWire;
  as_rates : Raw -> gmap string (gmap string string);
}.
Arguments as_margin {Raw} _.
Arguments as_positions {Raw} _.
Arguments as_journal {Raw} _.
Arguments as_rates {Raw} _.

(** The cursor of the next page: that of the last row. *)
Definition next_cursor (data : list FundJourVoWire) : string :=
  match last data with Some row => jw_QueryParamStr row | None => "" end.

Section operations.
Context {D W Raw : Type} `{Decimal D} (X : executor W Raw) (R : account_replies Raw).

(** [ctx.Err()] between the pages, and the order in which a map is ranged over. *)
Context (ctx_err : W -> option error * W).
Context (range : forall A, gmap string A -> list (string * A)).

Abbreviation page_of := (list (FundJournalEntry D) * string)%type.
Abbreviation fetcher := (Z -> string -> W -> outcome (page_of + error) * W).

(** The rows gathered and the error: rows already gathered come with it. *)
Fixpoint walk_loop (fetch : fetcher) (size : Z) (pages : nat) (cursor : string) (all : list (FundJournalEntry D))
    (w : W) : outcome (list (FundJournalEntry D) * option error) * W :=
  match pages with
  | O => (Ret (all, None), w)
  | S pages =>
      match ctx_err w with
      | (Some e, w) => (Ret (all, Some e), w)
      | (None, w) =>
          match fetch size cursor w with
          | (Panic, w) => (Panic, w)
          | (Ret (inr e), w) => (Ret (all, Some e), w)
          | (Ret (inl (entries, next)), w) =>
              let all := all ++ entries in
              if decide (entries = [] \/ next = "" \/ next = cursor) then (Ret (all, None), w)
              else walk_loop fetch size pages next all w
          end
      end
  end.

Definition walkFundJourPages (pageSize : Z) (cursor : string) (fetch : fetcher) (w : W)
    : outcome (list (FundJournalEntry D) * option error) * W :=
  walk_loop fetch (clampPageSize pageSize) maxPages cursor [] w.

(** One page: the request, its rows and the cursor of the last one. *)
Definition fetch_page (op route : string) (req : Z -> string -> body) : fetcher :=
  fun pageSize cursor w =>
    call X op route (req pageSize cursor) w (fun raw =>
      entries ← rows FundJournalEntryFromDTO (as_journal R raw);
      Ret (entries, next_cursor (as_journal R raw))).

Definition journal_list (op route : string) (req : Z -> string -> body) (accountID : string)
    (pagination : Pagination) (w : W) : outcome (list (FundJournalEntry D) * option error) * W :=
  match present op "accountID must not be empty" accountID with
  | Ret (Some e) => (Ret ([], Some e), w)
  | Panic => (Panic, w)
  | Ret None => walkFundJourPages (Domain.PageSize pagination) (Cursor pagination) (fetch_page op route req) w
  end.

Definition RealFundJourList (accountID : string) (filter : FundJourFilter) (pagination : Pagination) (w : W) :=
  journal_list opRealFundJourList RouteTradeQueryRealFundJourList (realFundJourListWireRequest filter)
    accountID pagination w.

Definition HistoryFundJourList (accountID : string) (filter : FundJourFilter) (pagination : Pagination) (w : W) :=
  journal_list opHistoryFundJourList RouteTradeQueryHistoryFundJourList (historyFundJourListWireRequest filter)
    accountID pagination w.

Definition MarginFundInfo (accountID exchange : string) (w : W) : result W (AccountBalance D) :=
  guard (present opMarginFundInfo "accountID must not be empty" accountID) w
    (call X opMarginFundInfo RouteTradeQueryMarginFundInfo (marginFundInfoWireRequest exchange) w
       (fun raw => AccountBalanceFromDTO (as_margin R raw))).

Definition HoldsList (accountID exchange : string) (w : W) : result W (list (Position D)) :=
  guard (present opHoldsList "accountID must not be empty" accountID) w
    (call X opHoldsList RouteTradeQueryHoldsList (holdsListWireRequest exchange) w
       (fun raw => rows PositionFromDTO (as_positions R raw))).

(** The two nested loops over the reply. *)
Definition rate_rows (m : gmap string (gmap string string)) : list (string * string * string) :=
  '(source, targets) ← range _ m; '(target, rate) ← range _ targets; [(source, target, rate)].

Definition RateQueryList (w : W) : result W (list (InterestRate D)) :=
  call X opRateQueryList RouteHsRateQueryList (rateQueryListWireRequest "") w
    (fun raw => rows (fun '(source, target, rate) => InterestRateFromDTO source target rate)
                  (rate_rows (as_rates R raw))).
End operations.

(** ** The walk of the journal *)
Inductive ending :=
  | Done
  | Cut
  | Stopped (e : error)
  | Failed (e : error)
  | Crashed.

Section walk.
Context {D W : Type} (ctx_err : W -> option error * W).
Context (fetch : Z -> string -> W -> outcome ((list (FundJournalEntry D) * string) + error) * W) (size : Z).

(** The pages fetched from a cursor with at most [n] requests left, each page with
    the cursor it names for the next, and how the walk ends. *)
Inductive walked : nat -> string -> W -> list (list (FundJournalEntry D) * string) -> ending -> W -> Prop :=
  | walked_cut c w : walked 0 c w [] Cut w
  | walked_stopped n c w e w' : ctx_err w = (Some e, w') -> walked (S n) c w [] (Stopped e) w'
  | walked_failed n c w w1 e w' : ctx_err w = (None, w1) -> fetch size c w1 = (Ret (inr e), w') ->
      walked (S n) c w [] (Failed e) w'
  | walked_crashed n c w w1 w' : ctx_err w = (None, w1) -> fetch size c w1 = (Panic, w') ->
      walked (S n) c w [] Crashed w'
  | walked_last n c w w1 es next w' : ctx_err w = (None, w1) -> fetch size c w1 = (Ret (inl (es, next)), w') ->
      (es = [] \/ next = "" \/ next = c) -> walked (S n) c w [(es, next)] Done w'
  | walked_next n c w w1 es next w2 ps st w' :
      ctx_err w = (None, w1) -> fetch size c w1 = (Ret (inl (es, next)), w2) ->
      es <> [] -> next <> "" -> next <> c ->
      walked n next w2 ps st w' -> walked (S n) c w ((es, next) :: ps) st w'.

(** What the caller gets: every row fetched, in order, with the error if any. *)
Definition gathered (all : list (FundJournalEntry D)) (ps : list (list (FundJournalEntry D) * string)) (st : ending)
    : outcome (list (FundJournalEntry D) * option error) :=
  let all := all ++ concat (fst <$> ps) in
  match st with
  | Done | Cut => Ret (all, None)
  | Stopped e | Failed e => Ret (all, Some e)
  | Crashed => Panic
  end.

Lemma walk_total n c w all :
  exists ps st w', walked n c w ps st w' /\ walk_loop ctx_err fetch size n c all w = (gathered all ps st, w').
Proof using Type.
  revert c w all. induction n as [|n IH]; intros c w all; cbn [walk_loop].
  { exists [], Cut, w. split; [constructor |]. simpl. by rewrite app_nil_r. }
  destruct (ctx_err w) as [[e|] w1] eqn:Hc.
  { exists [], (Stopped e), w1. split; [by constructor |]. simpl. by rewrite app_nil_r. }
  destruct (fetch size c w1) as [[[[es next]|e]|] w2] eqn:Hf.
  - case_decide as Hd.
    + exists [(es, next)], Done, w2. split; [by eapply walked_last |]. simpl. by rewrite app_nil_r.
    + apply Decidable.not_or in Hd as [Hes Hd]. apply Decidable.not_or in Hd as [Hne Hnc].
      destruct (IH next w2 (all ++ es)) as (ps & st & w' & Hw & ->).
      exists ((es, next) :: ps), st, w'. split; [by eapply walked_next |].
      unfold gathered. simpl. by rewrite app_assoc.
  - exists [], (Failed e), w2. split; [by eapply walked_failed |]. simpl. by rewrite app_nil_r.
  - exists [], Crashed, w2. split; [by eapply walked_crashed |]. done.
Qed.

Lemma walked_length n c w ps st w' : walked n c w ps st w' ->
  (length ps <= n)%nat /\ (st = Cut -> length ps = n).
Proof using Type.
  induction 1 as [| | | | |n c w w1 es next w2 ps st w' _ _ _ _ _ _ [IHn IHc]]; simpl; split; try done; try lia.
  intros Hs. by rewrite IHc.
Qed.
End walk.

Section logged_walk.
Context {D W Raw : Type} `{Decimal D} (X : executor W Raw) (R : account_replies Raw).
Context (ctx_err : W -> option error * W) (op route : string) (req : Z -> string -> body) (size : Z).

Abbreviation log_world := (W * list (string * body))%type.
Definition on_world (w : log_world) : option error * log_world :=
  let '(e, w') := ctx_err (fst w) in (e, (w', snd w)).

(** One request for each page, and one for a page that failed. *)
Lemma walked_log n c w ps st w' :
  walked on_world (fetch_page (logged X) R op route req) size n c w ps st w' ->
  exists cursors, snd w' = snd w ++ map (fun c => (route, req size c)) cursors /\ (length cursors <= n)%nat
    /\ (cursors = [] \/ head cursors = Some c).
Proof using Type.
  assert (Hctx : forall w e w', on_world w = (e, w') -> snd w' = snd w).
  { intros [w0 l] e [w1 l1]. unfold on_world. simpl. destruct (ctx_err w0). by intros [= _ _ <-]. }
  assert (Hfetch : forall c w r w', fetch_page (logged X) R op route req size c w = (r, w') ->
    snd w' = snd w ++ [(route, req size c)]).
  { intros c0 [w0 l] r w1 Hf. unfold fetch_page in Hf.
    pose proof (call_logged X op route (req size c0) w0 l (fun raw =>
      entries ← rows (FundJournalEntryFromDTO (D := D)) (as_journal R raw); Ret (entries, next_cursor (as_journal R raw)))) as Hl.
    rewrite Hf in Hl. exact Hl. }
  induction 1 as [c w|n c w e w' Hc|n c w w1 e w' Hc Hf|n c w w1 w' Hc Hf|n c w w1 es next w' Hc Hf Hl
    |n c w w1 es next w2 ps st w' Hc Hf Hes Hne Hnc Hw IH].
  - exists []. rewrite app_nil_r. split; [done |]. split; [done | by left].
  - exists []. rewrite app_nil_r. apply Hctx in Hc. split; [done |]. split; [simpl; lia | by left].
  - exists [c]. rewrite (Hfetch _ _ _ _ Hf), (Hctx _ _ _ Hc). split; [done |]. split; [simpl; lia | by right].
  - exists [c]. rewrite (Hfetch _ _ _ _ Hf), (Hctx _ _ _ Hc). split; [done |]. split; [simpl; lia | by right].
  - exists [c]. rewrite (Hfetch _ _ _ _ Hf), (Hctx _ _ _ Hc). split; [done |]. split; [simpl; lia | by right].
  - destruct IH as (cs & Hlog & Hn & _). exists (c :: cs).
    rewrite Hlog, (Hfetch _ _ _ _ Hf), (Hctx _ _ _ Hc), <- app_assoc. split; [done |]. simpl. split; [lia | by right].
Qed.
End logged_walk.

(** ** What a reply means *)
Section replies.
Context {D : Type} `{DecimalLaws D}.

Abbreviation all_parse := (forallb (parses (D := D))).

Definition margin_numbers (v : MarginFundInfoWire) : list string :=
  [mi_HoldsBalance v; mi_AssetBalance v; mi_EnableBalance v; mi_MarketValue v; mi_CashOnHold v;
   mi_CreditValue v; mi_CreditLine v; mi_FetchBalance v; mi_FrozenBalance v; mi_SpentRatio v;
   mi_CurrentCreditLimit v; mi_MaxCreditLimit v; mi_UnitCreditLimit v; mi_UnitMaxCreditLimit v;
   mi_BuyPower v; mi_BuyPowerCredit v; mi_BuyPowerHk v; mi_BuyPowerUs v; mi_BuyPowerCn v;
   mi_UnitedBuyPowerHk v; mi_UnitedBuyPowerUs v; mi_UnitedBuyPowerCn v; mi_ThirdBuyPowerHk v;
   mi_ThirdBuyPowerUs v; mi_ThirdBuyPowerCn v; mi_BuyPowerShortMarket v; mi_BuyPowerMoney v].

Definition balance_numbers (a : AccountBalance D) : list D :=
  [money_dec (ab_HoldsBalance a); money_dec (ab_AssetBalance a); money_dec (ab_EnableBalance a);
   money_dec (ab_MarketValue a); money_dec (ab_CashOnHold a); money_dec (ab_CreditValue a);
   money_dec (ab_CreditLine a); money_dec (ab_FetchBalance a); money_dec (ab_FrozenBalance a);
   rate_dec (ab_SpentRatio a); money_dec (ab_CurrentCreditLimit a); money_dec (ab_MaxCreditLimit a);
   money_dec (ab_UnitCreditLimit a); money_dec (ab_UnitMaxCreditLimit a); money_dec (ab_BuyPower a);
   money_dec (ab_BuyPowerCredit a); money_dec (ab_BuyPowerHk a); money_dec (ab_BuyPowerUs a);
   money_dec (ab_BuyPowerCn a); money_dec (ab_UnitedBuyPowerHk a); money_dec (ab_UnitedBuyPowerUs a);
   money_dec (ab_UnitedBuyPowerCn a); money_dec (ab_ThirdBuyPowerHk a); money_dec (ab_ThirdBuyPowerUs a);
   money_dec (ab_ThirdBuyPowerCn a); money_dec (ab_BuyPowerShortMarket a); money_dec (ab_BuyPowerMoney a)].

Definition balance_currencies (a : AccountBalance D) : list string :=
  map currency
    [ab_HoldsBalance a; ab_AssetBalance a; ab_EnableBalance a; ab_MarketValue a; ab_CashOnHold a;
     ab_CreditValue a; ab_CreditLine a; ab_FetchBalance a; ab_FrozenBalance a; ab_CurrentCreditLimit a;
     ab_MaxCreditLimit a; ab_UnitCreditLimit a; ab_UnitMaxCreditLimit a; ab_BuyPower a;
     ab_BuyPowerCredit a; ab_BuyPowerHk a; ab_BuyPowerUs a; ab_BuyPowerCn a; ab_UnitedBuyPowerHk a;
     ab_UnitedBuyPowerUs a; ab_UnitedBuyPowerCn a; ab_ThirdBuyPowerHk a; ab_ThirdBuyPowerUs a;
     ab_ThirdBuyPowerCn a; ab_BuyPowerShortMarket a; ab_BuyPowerMoney a].

Definition balance_reads (v : MarginFundInfoWire) (a : AccountBalance D) : Prop :=
  ab_AccountStatus a = mi_AccountStatus v
  /\ balance_currencies a
     = repeat "HKD" 16 ++ ["USD"; "CNY"; "HKD"; "USD"; "CNY"; "HKD"; "USD"; "CNY"; "HKD"; "HKD"]
  /\ Forall2 is_number (margin_numbers v) (balance_numbers a).

Lemma balance_total :
  total_row (AccountBalanceFromDTO (D := D)) (fun v => all_parse (margin_numbers v)) balance_reads.
Proof using Type*.
  intros v. unfold margin_numbers, AccountBalanceFromDTO. cbn [forallb].
  field_total (money_strict (mi_HoldsBalance v) "HKD" 3).
  field_total (money_strict (mi_AssetBalance v) "HKD" 3).
  field_total (money_strict (mi_EnableBalance v) "HKD" 3).
  field_total (money_strict (mi_MarketValue v) "HKD" 3).
  field_total (money_strict (mi_CashOnHold v) "HKD" 3).
  field_total (money_strict (mi_CreditValue v) "HKD" 3).
  field_total (money_strict (mi_CreditLine v) "HKD" 3).
  field_total (money_strict (mi_FetchBalance v) "HKD" 3).
  field_total (money_strict (mi_FrozenBalance v) "HKD" 3).
  field_total (rate_strict (mi_SpentRatio v)).
  field_total (money_strict (mi_CurrentCreditLimit v) "HKD" 3).
  field_total (money_strict (mi_MaxCreditLimit v) "HKD" 3).
  field_total (money_strict (mi_UnitCreditLimit v) "HKD" 3).
  field_total (money_strict (mi_UnitMaxCreditLimit v) "HKD" 3).
  field_total (money_strict (mi_BuyPower v) "HKD" 3).
  field_total (money_strict (mi_BuyPowerCredit v) "HKD" 3).
  field_total (money_strict (mi_BuyPowerHk v) "HKD" 3).
  field_total (money_strict (mi_BuyPowerUs v) "USD" 3).
  field_total (money_strict (mi_BuyPowerCn v) "CNY" 3).
  field_total (money_strict (mi_UnitedBuyPowerHk v) "HKD" 3).
  field_total (money_strict (mi_UnitedBuyPowerUs v) "USD" 3).
  field_total (money_strict (mi_UnitedBuyPowerCn v) "CNY" 3).
  field_total (money_strict (mi_ThirdBuyPowerHk v) "HKD" 3).
  field_total (money_strict (mi_ThirdBuyPowerUs v) "USD" 3).
  field_total (money_strict (mi_ThirdBuyPowerCn v) "CNY" 3).
  field_total (money_strict (mi_BuyPowerShortMarket v) "HKD" 3).
  field_total (money_strict (mi_BuyPowerMoney v) "HKD" 3).
  left. split; [done |]. eexists. split; [reflexivity |].
  unfold balance_reads, balance_currencies, margin_numbers, balance_numbers. simpl.
  split; [done |]. split; [| all_read]. destruct_and?.
  repeat match goal with Hc : currency _ = _ |- _ => rewrite Hc; clear Hc end. reflexivity.
Qed.

Definition position_numbers (v : HoldsVoWire) : list string :=
  [hv_EnableAmount v; hv_CurrentAmount v; hv_CostPrice v; hv_LastPrice v; hv_IncomeBalance v;
   hv_MarketValue v; hv_MarketValueRate v; hv_IncomeRatio v; hv_DayCostPrice v; hv_DayInComeAmount v;
   hv_DayOutComeAmount v; hv_KeepCostPrice v].

Definition position_reads (v : HoldsVoWire) (p : Position D) : Prop :=
  [ps_StockName p; ps_StockCode p; ps_ExchangeType p] = [hv_StockName v; hv_StockCode v; hv_ExchangeType v]
  /\ Forall2 is_number (position_numbers v)
       [qty_dec (ps_EnableAmount p); qty_dec (ps_CurrentAmount p); price_dec (ps_CostPrice p);
        price_dec (ps_LastPrice p); money_dec (ps_IncomeBalance p); money_dec (ps_MarketValue p);
        rate_dec (ps_MarketValueRate p); rate_dec (ps_IncomeRatio p); price_dec (ps_DayCostPrice p);
        money_dec (ps_DayInComeAmount p); money_dec (ps_DayOutComeAmount p); price_dec (ps_KeepCostPrice p)].

Lemma position_total :
  total_row (PositionFromDTO (D := D)) (fun v => all_parse (position_numbers v)) position_reads.
Proof using Type*.
  intros v. unfold position_numbers, PositionFromDTO. cbn [forallb].
  field_total (quantity_strict (hv_EnableAmount v)).
  field_total (quantity_strict (hv_CurrentAmount v)).
  field_total (price_strict (hv_CostPrice v)).
  field_total (price_strict (hv_LastPrice v)).
  field_total (money_strict (hv_IncomeBalance v) "HKD" 3).
  field_total (money_strict (hv_MarketValue v) "HKD" 3).
  field_total (rate_strict (hv_MarketValueRate v)).
  field_total (rate_strict (hv_IncomeRatio v)).
  field_total (price_strict (hv_DayCostPrice v)).
  field_total (money_strict (hv_DayInComeAmount v) "HKD" 3).
  field_total (money_strict (hv_DayOutComeAmount v) "HKD" 3).
  field_total (price_strict (hv_KeepCostPrice v)).
  left. split; [done |]. eexists. split; [reflexivity |].
  unfold position_reads, position_numbers. simpl. split; [done | all_read].
Qed.

Definition rate_reads (v : string * string * string) (r : InterestRate D) : Prop :=
  (SourceCurrency r, TargetCurrency r) = fst v /\ is_number (snd v) (rate_dec (ir_Rate r)).

Lemma interest_rate_total :
  total_row (fun '(source, target, rate) => InterestRateFromDTO (D := D) source target rate)
    (fun v => parses (D := D) (snd v)) rate_reads.
Proof using Type*.
  intros [[source target] rate]. unfold InterestRateFromDTO. cbn [snd].
  destruct (rate_strict (D := D) rate) as [[-> (r & -> & Hr)]|[-> ->]]; [left | by right].
  split; [done |]. eexists. split; [reflexivity | by split].
Qed.
End replies.

(** ** Properties *)
Section properties.
Context {D W Raw : Type} `{DecimalLaws D} (X : executor W Raw) (R : account_replies Raw).

(** A journal call is a walk of at most 1000 pages of 1 to 99 rows: one request
    for a page, from the caller's cursor on. *)
Definition walks (ctx_err : W -> option error * W) (op route : string) (req : Z -> string -> body)
    (pagination : Pagination) (w : W) (log : list (string * body))
    (run : outcome (list (FundJournalEntry D) * option error) * (W * list (string * body))) : Prop :=
  let size := clampPageSize (Domain.PageSize pagination) in
  1 <= size <= 99
  /\ exists ps st w' cursors,
       walked (on_world ctx_err) (fetch_page (logged X) R op route req) size 1000 (Cursor pagination) (w, log) ps st
         (w', log ++ map (fun c => (route, req size c)) cursors)
       /\ run = (gathered [] ps st, (w', log ++ map (fun c => (route, req size c)) cursors))
       /\ (length cursors <= 1000)%nat /\ (cursors = [] \/ head cursors = Some (Cursor pagination))
       /\ (length ps <= 1000)%nat /\ (st = Cut -> length ps = 1000%nat).

Lemma clampPageSize_range n : 1 <= clampPageSize n <= 99.
Proof using Type. unfold clampPageSize, DefaultPageSize, MaxPageSize. repeat case_decide; lia. Qed.

Lemma journal_walks ctx_err op route req acct pagination (w : W) log : acct <> "" ->
  walks ctx_err op route req pagination w log
    (journal_list (D := D) (logged X) R (on_world ctx_err) op route req acct pagination (w, log)).
Proof using Type.
  intros Ha. unfold journal_list, walkFundJourPages. rewrite (proj2 (present_ok op _ acct) Ha).
  split; [apply clampPageSize_range |]. set (size := clampPageSize _).
  destruct (walk_total (on_world ctx_err) (fetch_page (D := D) (logged X) R op route req) size maxPages
    (Cursor pagination) (w, log) []) as (ps & st & [w' log'] & Hw & ->).
  destruct (walked_log X R ctx_err op route req size _ _ _ _ _ _ Hw) as (cs & Hlog & Hn & Hh). simpl in Hlog. subst log'.
  destruct (walked_length _ _ _ _ _ _ _ _ _ Hw) as [Hl Hc].
  by exists ps, st, w', cs.
Qed.

(** C23: both fund journal calls end after at most a thousand requests, whatever
    the Gateway answers, each for 1 to 99 rows, starting at the caller's cursor;
    every row fetched is returned in order, with the error that stopped the walk
    if one did. A walk cut at the thousandth page returns without an error; a row
    whose amount does not parse makes it panic. A call without an account sends
    nothing. *)
Theorem fund_journal_bounded (ctx_err : W -> option error * W) (acct : string) (f : FundJourFilter)
    (pagination : Pagination) (w : W) log :
  let real acct := RealFundJourList (D := D) (logged X) R (on_world ctx_err) acct f pagination (w, log) in
  let history acct := HistoryFundJourList (D := D) (logged X) R (on_world ctx_err) acct f pagination (w, log) in
  (acct <> "" ->
   walks ctx_err opRealFundJourList RouteTradeQueryRealFundJourList (realFundJourListWireRequest f) pagination w log (real acct)
   /\ walks ctx_err opHistoryFundJourList RouteTradeQueryHistoryFundJourList (historyFundJourListWireRequest f)
        pagination w log (history acct))
  /\ (exists msg, real "" = (Ret ([], Some (Errs.New StatusInvalidParam opRealFundJourList msg)), (w, log)))
  /\ (exists msg, history "" = (Ret ([], Some (Errs.New StatusInvalidParam opHistoryFundJourList msg)), (w, log))).
Proof using Type.
  intros real history. split; [intros Ha; split; by apply journal_walks |]. split; by eexists.
Qed.

(** The order of a map's entries is not fixed. *)
Context (range : forall A, gmap string A -> list (string * A)).
Context (range_entries : forall A (m : gmap string A), range A m ≡ₚ map_to_list m).

Lemma range_lookup A (m : gmap string A) k a : (k, a) ∈ range A m <-> m !! k = Some a.
Proof using range_entries. by rewrite range_entries, elem_of_map_to_list. Qed.

Lemma range_NoDup A (m : gmap string A) : NoDup (fst <$> range A m).
Proof using range_entries. rewrite range_entries. apply NoDup_fst_map_to_list. Qed.

Lemma rate_rows_spec m source target rate :
  (source, target, rate) ∈ rate_rows range m
  <-> exists targets, m !! source = Some targets /\ targets !! target = Some rate.
Proof using range_entries.
  unfold rate_rows. rewrite list_elem_of_bind. split.
  - intros ([s targets] & Hin & Hs). apply range_lookup in Hs. apply list_elem_of_bind in Hin as ([t r] & Hin & Ht).
    apply range_lookup in Ht. apply list_elem_of_singleton in Hin as [= -> -> ->]. eauto.
  - intros (targets & Hs & Ht). exists (source, targets). split; [| by apply range_lookup].
    apply list_elem_of_bind. exists (target, rate). split; [by apply list_elem_of_singleton | by apply range_lookup].
Qed.

(** A balance and a list of positions are handed over with every number as
    the Gateway wrote it and each amount in the currency of its field, and the
    call panics as soon as one number is missing or does not parse; the rates are
    handed over one for each pair of currencies of the reply, whatever order the
    map is ranged over. *)
Theorem account_replies_exact (acct exchange : string) (w w' : W) (raw : Raw) :
  acct <> "" ->
  let asked op route req := X op route req w = (Ret (inl raw), w') in
  (asked opMarginFundInfo RouteTradeQueryMarginFundInfo (marginFundInfoWireRequest exchange) ->
   let reply := fst (MarginFundInfo X R acct exchange w) in
   if forallb (parses (D := D)) (margin_numbers (as_margin R raw))
   then exists b, reply = Ret (inl b) /\ balance_reads (as_margin R raw) b
   else reply = Panic)
  /\ (asked opHoldsList RouteTradeQueryHoldsList (holdsListWireRequest exchange) ->
      let reply := fst (HoldsList X R acct exchange w) in
      if forallb (fun v => forallb (parses (D := D)) (position_numbers v)) (as_positions R raw)
      then exists ps, reply = Ret (inl ps) /\ Forall2 position_reads (as_positions R raw) ps
      else reply = Panic)
  /\ (asked opRateQueryList RouteHsRateQueryList [] ->
      let reply := fst (RateQueryList X R range w) in
      exists entries,
        (forall s t r, (s, t, r) ∈ entries <-> exists ts, as_rates R raw !! s = Some ts /\ ts !! t = Some r)
        /\ if forallb (fun v => parses (D := D) (snd v)) entries
           then exists rs, reply = Ret (inl rs) /\ Forall2 rate_reads entries rs
           else reply = Panic).
Proof using Type*.
  intros Ha asked. unfold asked. split_and!.
  - intros HX. cbv zeta. unfold MarginFundInfo. rewrite (proj2 (present_ok _ _ acct) Ha). cbn [guard].
    unfold call. rewrite HX. cbn [fst].
    destruct (balance_total (as_margin R raw)) as [(-> & b & -> & Hb)|[-> ->]]; [by exists b | done].
  - intros HX. cbv zeta. unfold HoldsList. rewrite (proj2 (present_ok _ _ acct) Ha). cbn [guard].
    exact (call_answers X _ _ _ w (as_positions R) _ _ _ position_total raw w' HX).
  - intros HX. cbv zeta. exists (rate_rows range (as_rates R raw)). split; [apply rate_rows_spec |].
    exact (call_answers X _ _ _ w (fun raw => rate_rows range (as_rates R raw)) _ _ _ interest_rate_total raw w' HX).
Qed.
End properties.

(** ** The theorems on concrete calls *)

(** A Gateway that names a fresh cursor with every row, for ever. *)
Definition endless : executor Z Z := fun _ _ _ w => (Ret (inl w), w + 1).

Definition demo_position (amount : string) : HoldsVoWire :=
  mkHoldsWire "Tencent" amount "100" "00700.HK" "350" "352.2" "220" "35220" "1" "0.0063" "350" "0" "0" "350" "K".

Definition demo_replies : account_replies Z :=
  mkAccountReplies _ (fun _ => mkMarginWire "" "" "" "" "" "" "" "" "" "" "" "" "" "" "" "" "" "" "" "" "" "" "" "" "" "" "" "")
    (fun raw => [demo_position (if decide (raw = 0) then "100" else "")])
    (fun raw => [mkJourWire "1.5" "" "" "" "" (itoa raw)])
    (fun _ => {["USD" := {["HKD" := "7.8"]}]}).

(** The walk that never reaches an end is cut at a thousand rows, without an
    error. *)
Lemma fund_journal_bounded_witness :
  let run := RealFundJourList (D := dec) (logged endless) demo_replies (on_world (fun w => (None, w))) "acct"
    (mkJourFilter "K" "" "") (mkPagination "" 0 false) (1, []) in
  (exists w log, snd run = (w, log) /\ (length log <= 1000)%nat)
  /\ (exists rows, fst run = Ret (rows, None) /\ length rows = 1000%nat).
Proof.
  intros run. split.
  - destruct (fund_journal_bounded (D := dec) endless demo_replies (fun w => (None, w)) "acct"
      (mkJourFilter "K" "" "") (mkPagination "" 0 false) 1 []) as [Hw _].
    destruct (Hw ltac:(discriminate)) as [(_ & ps & st & w' & cs & _ & Hrun & Hl & _) _].
    unfold run. rewrite Hrun. eexists _, _. split; [reflexivity |]. rewrite app_nil_l, length_map. exact Hl.
  - assert (Hr : match fst run with Ret (rows, None) => length rows = 1000%nat | _ => False end)
      by (vm_compute; reflexivity).
    destruct (fst run) as [[rows [e|]]|]; [done | by exists rows | done].
Defined.

(** A position without one of its amounts takes the whole list down. *)
Lemma account_replies_exact_witness :
  (exists p, fst (HoldsList (D := dec) endless demo_replies "acct" "K" 0) = Ret (inl [p])
     /\ position_reads (demo_position "100") p)
  /\ fst (HoldsList (D := dec) endless demo_replies "acct" "K" 1) = Panic.
Proof.
  assert (Hr : forall A (m : gmap string A), map_to_list m ≡ₚ map_to_list m) by done.
  split.
  - destruct (account_replies_exact (D := dec) endless demo_replies (fun A m => map_to_list m) Hr "acct" "K" 0 1 0
      ltac:(discriminate)) as (_ & Hp & _).
    destruct (Hp eq_refl) as (ps & Hps & Hall). apply Forall2_cons_inv_l in Hall as (p & ps' & Hp' & Hnil & ->).
    apply Forall2_nil_inv_l in Hnil as ->. by exists p.
  - destruct (account_replies_exact (D := dec) endless demo_replies (fun A m => map_to_list m) Hr "acct" "K" 1 2 1
      ltac:(discriminate)) as (_ & Hp & _).
    exact (Hp eq_refl).
Defined.
