(* ===== verification/Stack.v ===== *)
(** The service stack, [src/pkg/services/stack.go]: the services over one request
    path, closed as a unit, and the composition of the order-changing calls of
    [Trading], [Algo] and [Futures] with the HTTP client of [Client]. *)
From S2P Require Import Prelude Types Errs Retry Routes Domain Decimals Service.
From S2P Require Breaker Transport Client Trading Algo Futures.
Local Open Scope Z_scope.

(** ** Construction and closing

    An executor and a push transport are pointers: what matters is which one a
    service holds. *)
Section stack.
Context {Exec Tr W : Type}.

(** The orchestration built by the stack: its market half, its transport and its
    trade half. *)
Record PushHalves := mkPush { push_market : option Exec; push_transport : Tr; push_trade : option Exec }.

(** Each service is the executor it was constructed with; [closeOnce] has run when
    [closed] is set. *)
Record Stack := mkStack {
  MarketService : option Exec;
  AccountService : option Exec;
  TradingService : option Exec;
  AlgoService : option Exec;
  FuturesService : option Exec;
  SessionService : option Exec;
  Push : option PushHalves;
  exec : option Exec;
  pushTransport : option Tr;
  closed : bool;
  closeErr : option error;
}.

Inductive StackOption :=
  | WithPushTransport (tr : option Tr)
  | WithStackExecutor (c : option Exec).

Definition apply_stack_option (s : Stack) (o : option StackOption) : Stack :=
  match s, o with
  | s, None => s
  | mkStack a b c d e f p _ t l r, Some (WithStackExecutor x) => mkStack a b c d e f p x t l r
  | mkStack a b c d e f p x _ l r, Some (WithPushTransport t) => mkStack a b c d e f p x t l r
  end.

Definition NewStack (c : option Exec) (opts : list (option StackOption)) : Stack :=
  let s := foldl apply_stack_option (mkStack c c c c c c None c None false None) opts in
  match pushTransport s with
  | Some tr =>
      mkStack (MarketService s) (AccountService s) (TradingService s) (AlgoService s) (FuturesService s)
        (SessionService s) (Some (mkPush (MarketService s) tr (TradingService s))) (exec s) (pushTransport s)
        (closed s) (closeErr s)
  | None => s
  end.

(** [Close] of the orchestration and of the request path. *)
Context (push_Close : PushHalves -> W -> option error * W) (exec_Close : Exec -> W -> option error * W).

Definition set_closed (err : option error) (s : Stack) : Stack :=
  match s with mkStack a b c d e f p x t _ _ => mkStack a b c d e f p x t true err end.

Definition Close (s : option Stack) (w : W) : option error * (option Stack * W) :=
  match s with
  | None => (None, (None, w))
  | Some s =>
      if closed s then (closeErr s, (Some s, w))
      else
        let '(err, w) := match Push s with Some p => push_Close p w | None => (None, w) end in
        match exec s with
        | None => (err, (Some (set_closed err s), w))
        | Some x =>
            let '(err', w) := exec_Close x w in
            let err := match err with None => err' | Some _ => err end in
            (err, (Some (set_closed err s), w))
        end
  end.

(** The last option of each kind decides. *)
Definition last_transport (opts : list (option StackOption)) : option Tr :=
  foldl (fun t o => match o with Some (WithPushTransport t') => t' | _ => t end) None opts.

Definition released (c : option Exec) (opts : list (option StackOption)) : option Exec :=
  foldl (fun x o => match o with Some (WithStackExecutor x') => x' | _ => x end) c opts.

Lemma options_fold opts a b c d e f p x t l r :
  foldl apply_stack_option (mkStack a b c d e f p x t l r) opts
  = mkStack a b c d e f p
      (foldl (fun x o => match o with Some (WithStackExecutor x') => x' | _ => x end) x opts)
      (foldl (fun t o => match o with Some (WithPushTransport t') => t' | _ => t end) t opts) l r.
Proof using Type.
  revert x t. induction opts as [|[[t'|x']|] opts IH]; intros x t; [done | apply IH..].
Qed.

(** Repeated calls of [Close]: their results. *)
Fixpoint closes (n : nat) (s : option Stack) (w : W) : list (option error) * (option Stack * W) :=
  match n with
  | O => ([], (s, w))
  | S n => let '(e, (s, w)) := Close s w in let '(es, sw) := closes n s w in (e :: es, sw)
  end.

Lemma Close_closed s w : closed s = true -> Close (Some s) w = (closeErr s, (Some s, w)).
Proof using Type. intros Hc. unfold Close. by rewrite Hc. Qed.

Lemma closes_closed n s w : closed s = true -> closes n (Some s) w = (replicate n (closeErr s), (Some s, w)).
Proof using Type.
  intros Hc. induction n as [|n IH]; [done |]. cbn [closes]. by rewrite Close_closed, IH.
Qed.

(** Whatever its options, a stack keeps the one executor in all six services
    and both halves of push, which exists exactly when the last transport option
    gave one; [WithStackExecutor] changes only what is released. However often
    [Close] is called, the push client is closed once and then, whatever it
    answered, the request path once; every call returns the first error of the
    two. *)
Theorem stack_close_once (c : option Exec) (opts : list (option StackOption)) (n : nat) (w : W) :
  let s := NewStack c opts in
  [MarketService s; AccountService s; TradingService s; AlgoService s; FuturesService s; SessionService s]
    = replicate 6 c
  /\ exec s = released c opts
  /\ Push s = (fun tr => mkPush c tr c) <$> last_transport opts
  /\ let '(push_err, w1) := match Push s with Some p => push_Close p w | None => (None, w) end in
     let '(exec_err, w2) := match released c opts with Some x => exec_Close x w1 | None => (None, w1) end in
     let err := match push_err with None => exec_err | Some _ => push_err end in
     exists s', closes (S n) (Some s) w = (replicate (S n) err, (Some s', w2)).
Proof using Type.
  intros s. unfold s, NewStack. rewrite options_fold. cbn [pushTransport].
  fold (last_transport opts). fold (released c opts).
  assert (Hclose : forall s, closed s = false ->
    let '(push_err, w1) := match Push s with Some p => push_Close p w | None => (None, w) end in
    let '(exec_err, w2) := match exec s with Some x => exec_Close x w1 | None => (None, w1) end in
    let err := match push_err with None => exec_err | Some _ => push_err end in
    exists s', closes (S n) (Some s) w = (replicate (S n) err, (Some s', w2))).
  { intros s0 Ho. destruct (match Push s0 with Some p => push_Close p w | None => (None, w) end)
      as [pe w1] eqn:Hp.
    destruct (exec s0) as [x|] eqn:Hx; [destruct (exec_Close x w1) as [xe w2] eqn:He |];
      cbn [closes]; unfold Close at 1; rewrite Ho, Hp, Hx, ?He;
      destruct s0; cbn [set_closed]; rewrite closes_closed by done; destruct pe; by eexists. }
  destruct (last_transport opts) as [tr|] eqn:Ht; (split; [done |]; split; [done |]; split; [done |]).
  - apply (Hclose (mkStack c c c c c c (Some (mkPush c tr c)) (released c opts) (Some tr) false None)). done.
  - apply (Hclose (mkStack c c c c c c None (released c opts) None false None)). done.
Qed.
End stack.

(** ** The request path *)

(** What the code promises of an executor: a mutation route is attempted once, and
    no call takes requests back. [sent] counts the requests of a world. *)
Class SingleAttempt {W P Raw : Type} (sent : W -> Z)
    (do : string -> string -> P -> W -> outcome (Raw + error) * W) : Prop := {
  sent_monotone op route req w : sent w <= sent (snd (do op route req w));
  mutation_once op route req w : IsMutation route = true -> sent (snd (do op route req w)) <= sent w + 1;
}.

(** The parameters a service passes to the client: the two ways the models of the
    services write a request struct. *)
Inductive request_params :=
  | PBody (b : body)
  | PTrading (r : Trading.wire).

Section client.
Context {World Raw : Type} (E : Client.env World request_params Raw) (c : Client.Client) (zero : Raw).

(** [Client.Do] with a fresh [out]; that the attempts end is [client_Do_returns]. *)
Definition client_Do (op route : string) (req : request_params) (s : Client.CState World Raw)
    : outcome (Raw + error) * Client.CState World Raw :=
  match Client.Do E c op route (Some req) (Client.set_out (Some zero) s) with
  | Some (Panic, s) => (Panic, s)
  | Some (Ret (Some e), s) => (Ret (inr e), s)
  | Some (Ret None, s) => (Ret (inl (default zero (Client.out_val s))), s)
  | None => (Panic, s)
  end.

Definition client_executor : Service.executor (Client.CState World Raw) Raw :=
  fun op route req => client_Do op route (PBody req).

Definition trading_executor (R : Trading.executor unit Raw) : Trading.executor (Client.CState World Raw) Raw :=
  Trading.mkExecutor _ _ (fun op route req => client_Do op route (PTrading req))
    (Trading.as_entrustId R) (Trading.as_data R) (Trading.as_orders R) (Trading.as_condOrders R)
    (Trading.as_maxAvailable R) (Trading.as_margin R).
End client.

Section counted.
Context {World Raw : Type} (E : Client.env World request_params Raw) (c : Client.Client) (zero : Raw).
Context (Hpolicy : Client.policy_ok c).
Abbreviation CE := (Client.count_env E).

Lemma client_Do_returns op route req s :
  exists r s', client_Do CE c zero op route req s = (r, s')
    /\ Client.Do CE c op route (Some req) (Client.set_out (Some zero) s)
       = Some (match r with Panic => Panic | Ret (inr e) => Ret (Some e) | Ret (inl _) => Ret None end, s')
    /\ 0 <= Client.sent s' - Client.sent s
    /\ (IsMutation route = true -> Client.sent s' - Client.sent s <= 1).
Proof using Hpolicy.
  destruct (Client.client_do_bounded E c op route (Some req) (Client.set_out (Some zero) s) Hpolicy)
    as (r & s' & Hd & Hb & Hm).
  unfold client_Do. rewrite Hd.
  destruct r as [[e|]|]; (eexists _, s'; split; [reflexivity |]; split; [done |]; split; [exact (proj1 Hb) | exact Hm]).
Qed.

#[export] Instance client_single_attempt : SingleAttempt Client.sent (client_Do CE c zero).
Proof using Hpolicy.
  split; intros op route req s; destruct (client_Do_returns op route req s) as (r & s' & -> & _ & H0 & H1); simpl.
  - lia.
  - intros Hm. specialize (H1 Hm). lia.
Qed.
End counted.

(** ** The order-changing calls *)

(** The twelve calls that change an order, over the services of one stack. *)
Inductive order_call (D : Type) :=
  | Trade_Entrust (now : Z) (acct : string) (order : Trading.Order D)
  | Trade_CancelEntrust (acct entrustID : string)
  | Trade_BatchCancelEntrust (acct : string) (entrustIDs : list string)
  | Trade_ChangeEntrust (acct entrustID : string) (price : Price D) (qty : Quantity D)
  | Algo_AddOrder (acct : string) (order : Algo.AlgoAddOrderRequest D)
  | Algo_CancelOrder (acct : string) (req : Algo.AlgoCancelOrderRequest)
  | Algo_CancelEntrust (acct : string) (req : Algo.AlgoCancelEntrustRequest)
  | Algo_ChangeOrder (acct : string) (change : Algo.AlgoChangeOrderRequest D)
  | Algo_ActionOrder (acct : string) (req : Algo.AlgoActionRequest)
  | Futures_Entrust (acct : string) (order : Futures.FuturesOrderRequest D)
  | Futures_CancelEntrust (acct entrustID : string) (symbol : Symbol)
  | Futures_ModifyEntrust (acct : string) (change : Futures.FuturesModifyRequest D).
Arguments Trade_Entrust {D}.
Arguments Trade_CancelEntrust {D}.
Arguments Trade_BatchCancelEntrust {D}.
Arguments Trade_ChangeEntrust {D}.
Arguments Algo_AddOrder {D}.
Arguments Algo_CancelOrder {D}.
Arguments Algo_CancelEntrust {D}.
Arguments Algo_ChangeOrder {D}.
Arguments Algo_ActionOrder {D}.
Arguments Futures_Entrust {D}.
Arguments Futures_CancelEntrust {D}.
Arguments Futures_ModifyEntrust {D}.

Section orders.
Context {D W Raw : Type} `{Decimal D} (do : string -> string -> request_params -> W -> outcome (Raw + error) * W).
Context (RT : Trading.executor unit Raw) (RA : Algo.algo_replies Raw) (RF : Futures.futures_replies Raw).
Context (schedule : option (resolver D)).

Definition body_executor : Service.executor W Raw := fun op route req => do op route (PBody req).

Definition trading_service : Trading.TradingService D W Raw :=
  Trading.NewTradingService
    (Trading.mkExecutor _ _ (fun op route req => do op route (PTrading req)) (Trading.as_entrustId RT)
       (Trading.as_data RT) (Trading.as_orders RT) (Trading.as_condOrders RT) (Trading.as_maxAvailable RT)
       (Trading.as_margin RT))
    [Trading.WithTickSchedule schedule].

(** The world a call leaves. *)
Definition perform (o : order_call D) (w : W) : W :=
  match o with
  | Trade_Entrust now acct order => snd (Trading.Entrust now trading_service acct order w)
  | Trade_CancelEntrust acct id => snd (Trading.CancelEntrust trading_service acct id w)
  | Trade_BatchCancelEntrust acct ids => snd (Trading.BatchCancelEntrust trading_service acct ids w)
  | Trade_ChangeEntrust acct id p q => snd (Trading.ChangeEntrust trading_service acct id p q w)
  | Algo_AddOrder acct order => snd (Algo.AddOrder body_executor RA acct order w)
  | Algo_CancelOrder acct req => snd (Algo.CancelOrder body_executor RA acct req w)
  | Algo_CancelEntrust acct req => snd (Algo.CancelEntrust body_executor RA acct req w)
  | Algo_ChangeOrder acct change => snd (Algo.ChangeOrder body_executor RA acct change w)
  | Algo_ActionOrder acct req => snd (Algo.ActionOrder body_executor RA acct req w)
  | Futures_Entrust acct order => snd (Futures.Entrust body_executor RF acct order w)
  | Futures_CancelEntrust acct id symbol => snd (Futures.CancelEntrust body_executor acct id symbol w)
  | Futures_ModifyEntrust acct change => snd (Futures.ModifyEntrust body_executor acct change w)
  end.

Definition perform_all (l : list (order_call D)) (w : W) : W := foldl (fun w o => perform o w) w l.

Context (sent : W -> Z) `{!SingleAttempt sent do}.

Definition once (w w' : W) : Prop := sent w <= sent w' <= sent w + 1.

Lemma once_refl w : once w w.
Proof using Type. unfold once. lia. Qed.

Lemma guard_once {A} op route req checks w (f : Raw -> outcome A) : IsMutation route = true ->
  once w (snd (guard checks w (call body_executor op route req w f))).
Proof using SingleAttempt0.
  intros Hm. destruct checks as [[e|]|]; [apply once_refl | | apply once_refl]. cbn [guard]. unfold call, body_executor.
  pose proof (sent_monotone op route (PBody req) w) as H1. pose proof (mutation_once op route (PBody req) w Hm) as H2.
  destruct (do op route (PBody req) w) as [[[raw|e]|] w']; split; assumption.
Qed.

Lemma trading_once {A} op route req w (f : Raw -> outcome A) : IsMutation route = true ->
  once w (snd (Trading.call trading_service op route req w f)).
Proof using SingleAttempt0.
  intros Hm. unfold Trading.call. 
  assert (Hd : Trading.exec_Do (Trading.client trading_service) op route req w = do op route (PTrading req) w)
    by (unfold trading_service; by destruct schedule).
  rewrite Hd.
  pose proof (sent_monotone op route (PTrading req) w) as H1. pose proof (mutation_once op route (PTrading req) w Hm) as H2.
  destruct (do op route (PTrading req) w) as [[[raw|e]|] w']; split; assumption.
Qed.

Lemma perform_once o w : once w (perform o w).
Proof using SingleAttempt0.
  destruct o; simpl; try (apply guard_once; by vm_compute).
  - unfold Trading.Entrust. case_decide; [apply once_refl |].
    destruct (Trading.validateOrderForHK _ _ _) as [[e|]|]; [apply once_refl | | apply once_refl].
    apply trading_once. by vm_compute.
  - unfold Trading.CancelEntrust. repeat (case_decide; [apply once_refl |]). apply trading_once. by vm_compute.
  - unfold Trading.BatchCancelEntrust. case_decide; [apply once_refl |]. apply trading_once. by vm_compute.
  - unfold Trading.ChangeEntrust. repeat (case_decide; [apply once_refl |]).
    destruct (and_then _ _) as [[e|]|]; [apply once_refl | | apply once_refl]. apply trading_once. by vm_compute.
Qed.

Lemma perform_all_bounded l w : sent w <= sent (perform_all l w) <= sent w + Z.of_nat (length l).
Proof using SingleAttempt0.
  revert w. induction l as [|o l IH]; intros w; [simpl; lia |]. cbn [perform_all foldl length].
  pose proof (perform_once o w) as [H1 H2]. specialize (IH (perform o w)). unfold perform_all in IH. lia.
Qed.
End orders.

(** C2: no order is ever submitted twice: over a client with any configuration
    (retry policy, breakers, rate limiter, timeouts) and any Gateway, any sequence
    of order-changing calls of the three trading services sends at most one HTTP
    request for each call. *)
Theorem stack_orders_sent_once {D World Raw} `{Decimal D} (E : Client.env World request_params Raw) (c : Client.Client)
    (zero : Raw) RT RA RF (schedule : option (resolver D)) (l : list (order_call D))
    (s : Client.CState (World * Z) Raw) :
  Client.policy_ok c ->
  let s' := perform_all (client_Do (Client.count_env E) c zero) RT RA RF schedule l s in
  0 <= Client.sent s' - Client.sent s <= Z.of_nat (length l).
Proof.
  intros Hp s'. pose proof (client_single_attempt E c zero Hp) as Hx.
  pose proof (perform_all_bounded (client_Do (Client.count_env E) c zero) RT RA RF schedule Client.sent l s).
  unfold s'. lia.
Qed.

(** ** The theorems on concrete calls *)

(** A Gateway that is always busy, and a client that would retry three times. *)
Definition busy_env : Client.env Z request_params bytes :=
  Client.mkEnv (fun _ => inl (text "{}")) (fun d _ => (None, d)) (fun _ p => inl (default [] p))
    (fun b => inl (Transport.mkResponse true "" b)) (fun _ => None) (fun _ => "Status") None
    (fun w => (w, w + 1)) (fun w => (None, w)) (fun k w => (k - 1, w)) (fun d w => (None, w + d))
    (fun w => (None, w)) (fun _ _ w => (inl Client.resp_busy, w)) (fun _ w => (None, w)).

Definition retrying_client : Client.Client := Client.demo_client (Some DefaultPolicy) None None.

Definition demo_trading : Trading.executor unit bytes :=
  Trading.mkExecutor _ _ (fun _ _ _ w => (Ret (inl []), w)) (fun _ => "1") (fun _ => "1") (fun _ => []) (fun _ => [])
    (fun _ => Trading.mkMaxWire "" "" "" "" "" "" "" "" "" "" "" "" "" "" "" "" "" "" "" "")
    (fun _ => Trading.mkMarginWire "" "" "" "" "" "" "" "" []).

Definition demo_algo : Algo.algo_replies bytes := Algo.mkAlgoReplies _ (fun _ => []) (fun _ => []) (fun _ => "1").

Definition demo_futures : Futures.futures_replies bytes :=
  Futures.mkFuturesReplies _ (fun _ => []) (fun _ => Futures.mkCapacityWire 0 0 0 "" "") (fun _ => Futures.demo_fund)
    (fun _ => Futures.mkHoldsReply Futures.demo_fund []) (fun _ => Futures.mkOrderListReply [] 1 20 1 1) (fun _ => "1").

Definition demo_calls : list (order_call dec) :=
  [Trade_CancelEntrust "acct" "E1"; Algo_AddOrder "acct" Algo.demo_order;
   Futures_Entrust "acct" (Futures.demo_order "20261231")].

(** Three orders, a busy Gateway and a policy of three attempts: three requests. *)
Lemma stack_orders_sent_once_witness :
  let s := Client.mkCS (fun _ => Breaker.NewBreaker 0 0) (Some []) [] false (0, 0) in
  let s' := perform_all (client_Do (Client.count_env busy_env) retrying_client []) demo_trading demo_algo demo_futures
    None demo_calls s in
  Client.sent s' <= 3 /\ Client.sent s' = 3.
Proof.
  intros s s'. split; [| vm_compute; reflexivity].
  assert (Hp : Client.policy_ok retrying_client) by (intros p [= <-]; split; vm_compute; congruence).
  pose proof (stack_orders_sent_once busy_env retrying_client [] demo_trading demo_algo demo_futures None demo_calls s Hp)
    as Hs.
  destruct Hs as [_ Hs]. unfold s'. revert Hs. change (Client.sent s) with 0. rewrite Z.sub_0_r. exact (fun H => H).
Defined.

(** A stack with push whose transport fails to close: both are closed once. *)
Example stack_close_example :
  let s := NewStack (Some 7%nat) [Some (WithPushTransport (Some tt)); None] in
  closes (fun _ (w : list string) => (Some Canceled, w ++ ["push"])) (fun _ w => (None, w ++ ["exec"])) 2 (Some s) []
  = ([Some Canceled; Some Canceled], (Some (set_closed (Some Canceled) s), ["push"; "exec"])).
Proof. reflexivity. Qed.
