(* ===== verification/PushEvents.v ===== *)
(** From a decoded notification to a domain event:
    [src/internal/push/decode.go], [normalizer.go], [notify_normalize.go].

    The messages of [gen/] are records of the fields that are read; a missing
    submessage is [None], and a getter on it gives the zero value. *)
From Stdlib Require Import QArith.
From stdpp Require Import pretty.
From S2P Require Import Prelude Types Errs Domain Decimals Service PushClient PushKeys.
Local Open Scope Z_scope.

(** ** Doubles

    A finite double is written as the shortest decimal that rounds to it,
    [coef * 10 ^ exp], which is what [strconv.FormatFloat(f, 'f', -1, 64)] prints
    and all the code observes of it. *)
Inductive float64 :=
  | NaN
  | Inf (negative : bool)
  | Finite (negative : bool) (coef : N) (exp : Z).

Definition sign (negative : bool) : string := if negative then "-" else "".

Definition FormatFloat (f : float64) : string :=
  match f with
  | NaN => "NaN"
  | Inf negative => if negative then "-Inf" else "+Inf"
  | Finite negative c e =>
      sign negative +:+
      (if decide (0 <= e) then itoa (Z.of_N c * 10 ^ e)
       else
         let k := Z.to_nat (- e) in
         itoa (Z.of_N c / ten k) +:+ str ("."%char :: fixed k (Z.of_N c)))
  end.

Definition is_finite (f : float64) : bool := match f with Finite _ _ _ => true | _ => false end.

(** The rational a finite double is written as. *)
Definition double_val (f : float64) : Q :=
  match f with
  | Finite negative c e =>
      let q := if decide (0 <= e) then inject_Z (Z.of_N c * 10 ^ e) else Z.of_N c # Z.to_pos (ten (Z.to_nat (- e))) in
      if negative then (- q)%Q else q
  | _ => 0%Q
  end.

Example FormatFloat_examples :
  map FormatFloat [Finite false 3502 (-1); Finite true 5 (-3); Finite false 12 2; Finite false 0 0; NaN; Inf true]
    = ["350.2"; "-0.005"; "1200"; "0"; "NaN"; "-Inf"].
Proof. reflexivity. Qed.

Lemma FormatFloat_numeral c e : exists q,
  numeral_value (FormatFloat (Finite false c e)) = Some q /\ (q == double_val (Finite false c e))%Q.
Proof.
  cbn [FormatFloat sign double_val]. rewrite append_nil_l. case_decide as He.
  - destruct (itoa_value (Z.of_N c * 10 ^ e) ltac:(lia)) as [Hd Hne]. eexists. split; [|reflexivity].
    rewrite <- (str_text (itoa _)). by apply numeral_digits.
  - set (k := Z.to_nat (- e)). pose proof (ten_pos k) as Hp.
    destruct (itoa_value (Z.of_N c / ten k) ltac:(apply Z.div_pos; lia)) as [Hd Hne].
    destruct (fixed_digits (Z.of_N c / ten k) k (Z.of_N c)) as [Hf Hl].
    eexists. split; [| reflexivity].
    rewrite <- (str_text (itoa _ +:+ _)), text_app, text_str.
    rewrite (numeral_point _ _ (Z.of_N c)); [by rewrite Hl | done | |].
    + intros Hn. rewrite Hn in Hl. simpl in Hl. lia.
    + rewrite digits_value_app, Hd. cbn [mbind option_bind]. rewrite Hf. f_equal.
      pose proof (Z.div_mod (Z.of_N c) (ten k) ltac:(lia)). lia.
Qed.

(** What the decimal library documents of the other texts a double prints. *)
Class DecimalSigned (D : Type) `{DecimalLaws D} : Prop := {
  NewFromString_negative s q : numeral_value s = Some q ->
    exists d, dec_NewFromString ("-" +:+ s) = inl d /\ (val d == - q)%Q;
  NewFromString_not_finite s : s ∈ ["NaN"; "+Inf"; "-Inf"] -> exists e, dec_NewFromString s = inr e;
}.

#[global] Instance dec_signed : DecimalSigned dec.
Proof.
  split.
  - intros s q Hs. rewrite numeral_dec_val in Hs. simpl. destruct (numeral_dec s) as [d|] eqn:Hd; [|done].
    injection Hs as <-. cbn. rewrite append_nil_l, Hd. eexists. split; [reflexivity |]. unfold Qeq. simpl. lia.
  - intros s Hs. repeat (apply elem_of_cons in Hs as [->|Hs]); [by eexists.. |]. by apply not_elem_of_nil in Hs.
Qed.

(** ** The messages *)
Record BasicQot := mkBasicQot {
  bq_LastPrice : float64; bq_OpenPrice : float64; bq_HighPrice : float64; bq_LowPrice : float64;
  bq_LastClosePrice : float64; bq_Volume : Z; bq_Turnover : float64; bq_MarketTime : string;
}.
Record BasicQotNotify := mkBasicQotNotify { bqn_Security : option Security; bqn_BasicQot : option BasicQot }.

Record Ticker := mkTicker { tk_Price : float64; tk_Volume : Z; tk_Turnover : float64; tk_Side : Z; tk_Timestamp : Z }.
Record TickerNotify := mkTickerNotify { tkn_Security : option Security; tkn_Ticker : option Ticker }.

Record OrderBook := mkOrderBook { bk_Level : Z; bk_Price : float64; bk_Volume : Z }.
Record OrderBookFullNotify := mkOrderBookFullNotify {
  obn_Security : option Security; obn_Side : Z; obn_OrderBookList : list OrderBook;
}.

Record Broker := mkBroker { br_Level : Z; br_Item : string; br_Type : Z; br_Name : string }.
Record BrokerNotify := mkBrokerNotify { brn_Security : option Security; brn_Side : Z; brn_BrokerList : list Broker }.

Record TradeStockDeliverNotify := mkTradeStockDeliverNotify {
  ts_StockCode : string; ts_EntrustBs : string; ts_BusinessPrice : string; ts_BusinessAmount : string;
  ts_BusinessDate : string; ts_BusinessTime : string; ts_EntrustStatus : string; ts_ClientId : string;
  ts_EntrustNo : string; ts_SumBusinessBalance : string; ts_MatchNo : string;
}.

(** A payload: a pointer to one of the messages, which may be nil. *)
Inductive Message :=
  | MTradeStockDeliver (m : option TradeStockDeliverNotify)
  | MOrderBookFull (m : option OrderBookFullNotify)
  | MBroker (m : option BrokerNotify)
  | MBasicQot (m : option BasicQotNotify)
  | MTicker (m : option TickerNotify).

Definition go_type (m : option Message) : string :=
  match m with
  | None => "<nil>"
  | Some (MTradeStockDeliver _) => "*notify.TradeStockDeliverNotify"
  | Some (MOrderBookFull _) => "*notify.OrderBookFullNotify"
  | Some (MBroker _) => "*notify.BrokerNotify"
  | Some (MBasicQot _) => "*notify.BasicQotNotify"
  | Some (MTicker _) => "*notify.TickerNotify"
  end.

(** ** Symbols *)
Definition wireTick : string := "0".

Definition pushDecimal (s : string) : string := if decide (s = "") then "0" else s.

Definition pushSymbol (code : string) (dataType : Z) : Symbol :=
  let market := MarketFromCode code in
  let bare := if decide (market <> "")
    then str (take (length (text code) - length (text market) - 1) (text code)) else code in
  let full := if decide (market <> "") then bare +:+ "." +:+ market else bare in
  mkSymbol market code dataType full "".

Definition pushSymbolFromSecurity (sec : option Security) : Symbol :=
  match sec with
  | None => mkSymbol "" "" 0 "" ""
  | Some sec => pushSymbol (sec_Code sec) (sec_DataType sec)
  end.

Definition entrustBSFromInt32 (side : Z) : string :=
  switch side [(1, EntrustBuy); (2, EntrustSell); (3, EntrustCloseShort); (4, EntrustOpenShort)] (itoa side).

(** ** The decoders *)
Section decoders.
Context {D : Type} `{Decimal D}.

Definition price_of (f : float64) : outcome (Price D) := MustNewPrice (FormatFloat f) wireTick.
Definition quantity_of (n : Z) : outcome (Quantity D) := MustNewQuantity (itoa n).
Definition money_of (f : float64) : outcome (Money D) := MustNewMoney (FormatFloat f) "HKD" 3.

(** The zero values of the fields a decoder leaves alone. *)
Definition no_dec : D := dec_NewFromInt 0.
Definition no_price : Price D := mkPrice no_dec no_dec.
Definition no_qty : Quantity D := mkQuantity no_dec.
Definition no_money : Money D := mkMoney no_dec "" 0.

Definition decodeBasicQotEvent (notify : BasicQotNotify) (notifyTime : Z) : outcome QuoteEvent :=
  let symbol := pushSymbolFromSecurity (bqn_Security notify) in
  let time := itoa notifyTime in
  match bqn_BasicQot notify with
  | None => Ret (mkQuoteEvent symbol no_price no_price no_price no_price no_price no_qty no_money
                   no_price no_price no_qty no_qty time)
  | Some q =>
      last ← price_of (bq_LastPrice q);
      open ← price_of (bq_OpenPrice q);
      high ← price_of (bq_HighPrice q);
      low ← price_of (bq_LowPrice q);
      close ← price_of (bq_LastClosePrice q);
      volume ← quantity_of (bq_Volume q);
      turnover ← money_of (bq_Turnover q);
      Ret (mkQuoteEvent symbol last open high low close volume turnover no_price no_price no_qty no_qty time)
  end.

Definition decodeTickerEvent (notify : TickerNotify) (notifyTime : Z) : outcome TickerEvent :=
  let symbol := pushSymbolFromSecurity (tkn_Security notify) in
  let time := itoa notifyTime in
  match tkn_Ticker notify with
  | None => Ret (mkTickerEvent symbol no_price no_qty no_money time "")
  | Some t =>
      price ← price_of (tk_Price t);
      volume ← quantity_of (tk_Volume t);
      turnover ← money_of (tk_Turnover t);
      Ret (mkTickerEvent symbol price volume turnover time (entrustBSFromInt32 (tk_Side t)))
  end.

Definition decode_level (ob : OrderBook) : outcome OrderBookLevel :=
  price ← price_of (bk_Price ob);
  quantity ← quantity_of (bk_Volume ob);
  Ret (mkOrderBookLevel (bk_Level ob) price quantity).

(** The loop over the levels of one side. *)
Fixpoint book_levels (side : Z) (l : list OrderBook) (bids asks : list OrderBookLevel)
    : outcome (list OrderBookLevel * list OrderBookLevel) :=
  match l with
  | [] => Ret (bids, asks)
  | ob :: l =>
      level ← decode_level ob;
      if decide (side = 0) then book_levels side l (bids ++ [level]) asks
      else book_levels side l bids (asks ++ [level])
  end.

Definition decodeOrderBookEvent (notify : OrderBookFullNotify) (notifyTime : Z) : outcome OrderBookEvent :=
  '(bids, asks) ← book_levels (obn_Side notify) (obn_OrderBookList notify) [] [];
  Ret (mkOrderBookEvent (pushSymbolFromSecurity (obn_Security notify)) bids asks
         (Z.of_nat (length bids) + Z.of_nat (length asks)) (itoa notifyTime)).

Fixpoint broker_levels (side : Z) (l : list Broker) (buyers sellers : list BrokerLevel)
    : list BrokerLevel * list BrokerLevel :=
  match l with
  | [] => (buyers, sellers)
  | b :: l =>
      let bl := mkBrokerLevel (br_Level b) (br_Item b) (br_Type b) (br_Name b) in
      if decide (side = 0) then broker_levels side l (buyers ++ [bl]) sellers
      else broker_levels side l buyers (sellers ++ [bl])
  end.

Definition decodeBrokerEvent (notify : BrokerNotify) (notifyTime : Z) : BrokerEvent :=
  let '(buyers, sellers) := broker_levels (brn_Side notify) (brn_BrokerList notify) [] [] in
  mkBrokerEvent (pushSymbolFromSecurity (brn_Security notify)) buyers sellers (itoa notifyTime).

Definition decodeTradeEvent (notify : TradeStockDeliverNotify) (notifyTime : Z) : outcome TradeEvent :=
  price ← MustNewPrice (pushDecimal (ts_BusinessPrice notify)) wireTick;
  quantity ← MustNewQuantity (pushDecimal (ts_BusinessAmount notify));
  turnover ← MustNewMoney (pushDecimal (ts_SumBusinessBalance notify)) "HKD" 3;
  Ret (mkTradeEvent (pushSymbol (ts_StockCode notify) 0) (ts_ClientId notify) (ts_EntrustNo notify)
         price quantity turnover (ts_EntrustBs notify) (itoa notifyTime) (ts_MatchNo notify) (ts_EntrustStatus notify)).

(** ** Normalisation *)
Definition emptyPayloadCode : string := "EMPTY_PAYLOAD".

Definition emptyPayloadEvent : PushEvent D :=
  System_ (mkSystemEvent emptyPayloadCode "push frame carried no payload body" "warn").

(** An [anypb.Any]: the type URL and the bytes. *)
Definition any : Type := string * bytestr.

Definition normalizeUnknownEvent (a : option any) : PushEvent D :=
  match a with
  | None => System_ (mkSystemEvent "UNKNOWN" "nil payload" "warn")
  | Some (typeURL, value) =>
      System_ (mkSystemEvent typeURL
        ("unknown push event type: " +:+ itoa (Z.of_nat (length value)) +:+ " bytes") "warn")
  end.

Definition NormalizeUnknown (a : option any) : PushEvent D := normalizeUnknownEvent a.

Definition notifPayloadError (n : Notification Message) : error :=
  EText ("push: NormalizeNotification: payload " +:+ go_type (Payload n) +:+ " does not match notifyMsgType "
    +:+ NotifyMsgType_String (Type_ n) +:+ " (" +:+ itoa (Type_ n) +:+ ")").

(** An arm of the switch: the message of the type, the conversion to an event. *)
Definition boxed {A B} (f : A -> outcome B) (box : B -> PushEvent D) (m : option A) : outcome (PushEvent D + error) :=
  match m with
  | None => Ret (inl emptyPayloadEvent)
  | Some m => e ← f m; Ret (inl (box e))
  end.

Definition NormalizeNotification (n : option (Notification Message)) : outcome (PushEvent D + error) :=
  match n with
  | None => Ret (inr (EText "push: NormalizeNotification: nil Notification"))
  | Some n =>
      let t := Type_ n in
      match kind_for t, Payload n with
      | None, _ => Ret (inl (normalizeUnknownEvent None))
      | Some _, None => Ret (inl emptyPayloadEvent)
      | Some KBasicQot, Some (MBasicQot m) => boxed (fun m => decodeBasicQotEvent m (Time n)) Quote_ m
      | Some KTicker, Some (MTicker m) => boxed (fun m => decodeTickerEvent m (Time n)) Ticker_ m
      | Some KOrderBookFull, Some (MOrderBookFull m) => boxed (fun m => decodeOrderBookEvent m (Time n)) OrderBook_ m
      | Some KBroker, Some (MBroker m) => boxed (fun m => Ret (decodeBrokerEvent m (Time n))) Broker_ m
      | Some KTradeStockDeliver, Some (MTradeStockDeliver m) => boxed (fun m => decodeTradeEvent m (Time n)) Trade_ m
      | _, _ => Ret (inr (notifPayloadError n))
      end
  end.
End decoders.

(** [proto.Unmarshal] of each message into a fresh value. *)
Section unmarshal.
Context (unmarshal_trade : bytestr -> TradeStockDeliverNotify + error)
  (unmarshal_book : bytestr -> OrderBookFullNotify + error) (unmarshal_broker : bytestr -> BrokerNotify + error)
  (unmarshal_quote : bytestr -> BasicQotNotify + error) (unmarshal_ticker : bytestr -> TickerNotify + error).

Definition unmarshalled {A} (box : option A -> Message) (r : A + error) : Message + error :=
  match r with inl m => inl (box (Some m)) | inr e => inr e end.

Definition Unmarshal (k : payload_kind) (b : bytestr) : Message + error :=
  match k with
  | KTradeStockDeliver => unmarshalled MTradeStockDeliver (unmarshal_trade b)
  | KOrderBookFull => unmarshalled MOrderBookFull (unmarshal_book b)
  | KBroker => unmarshalled MBroker (unmarshal_broker b)
  | KBasicQot => unmarshalled MBasicQot (unmarshal_quote b)
  | KTicker => unmarshalled MTicker (unmarshal_ticker b)
  end.

(** [DecodeAny]: the message a type URL names is found by the protobuf registry. *)
Definition DecodeAny {M} (UnmarshalNew : any -> M + error) (a : option any) : M + error :=
  match a with
  | None => inr (EText "push: DecodeAny: nil Any")
  | Some a =>
      match UnmarshalNew a with
      | inl m => inl m
      | inr e => inr (EWrap ("push: DecodeAny: UnmarshalNew: " +:+ error_text e) e)
      end
  end.

Context {D : Type} `{Decimal D}.

(** An envelope: its type, id, time and optional payload. *)
Definition PBNotify : Type := Z * string * Z * option any.

(** An arm of [Normalize]: an empty payload gives neither event nor error. *)
Definition normalize_arm {A B} (name : string) (unmarshal : bytestr -> A + error) (f : A -> outcome B)
    (box : B -> PushEvent D) (value : bytestr) : outcome (option (PushEvent D) + error) :=
  if decide (length value = 0%nat) then Ret (inl None)
  else
    match unmarshal value with
    | inr e => Ret (inr (EWrap ("push: Normalize: unmarshal " +:+ name +:+ ": " +:+ error_text e) e))
    | inl m => e ← f m; Ret (inl (Some (box e)))
    end.

Definition Normalize (pb : option PBNotify) : outcome (option (PushEvent D) + error) :=
  match pb with
  | None => Ret (inr (EText "push: Normalize: nil PBNotify"))
  | Some (t, _, time, payload) =>
      match payload with
      | None => Ret (inl (Some (normalizeUnknownEvent None)))
      | Some (url, value) =>
          if decide (t = BasicQotNotifyMsgType) then
            normalize_arm "BasicQotNotify" unmarshal_quote (fun m => decodeBasicQotEvent m time) Quote_ value
          else if decide (t = TickerNotifyMsgType) then
            normalize_arm "TickerNotify" unmarshal_ticker (fun m => decodeTickerEvent m time) Ticker_ value
          else if decide (t = OrderBookNotifyMsgType) then
            normalize_arm "OrderBookFullNotify" unmarshal_book (fun m => decodeOrderBookEvent m time) OrderBook_ value
          else if decide (t = BrokerQueueNotifyMsgType) then
            normalize_arm "BrokerNotify" unmarshal_broker (fun m => Ret (decodeBrokerEvent m time)) Broker_ value
          else if decide (t = TradeStockDeliverMsgType \/ t = FuturesTradeStockDeliverMsgType) then
            normalize_arm "TradeStockDeliverNotify" unmarshal_trade (fun m => decodeTradeEvent m time) Trade_ value
          else Ret (inl (Some (normalizeUnknownEvent payload)))
      end
  end.
End unmarshal.

(** ** Symbols keep the code of the frame *)

Lemma market_suffix code : MarketFromCode code = ""
  \/ exists bare, code = bare +:+ "." +:+ MarketFromCode code.
Proof.
  unfold MarketFromCode, has_suffix.
  repeat (case_bool_decide as Hs; [right; destruct Hs as [b Hb%cut_suffix_Some]; by exists b | clear Hs]). by left.
Qed.

Lemma pushSymbol_code code dt : pushSymbol code dt = mkSymbol (MarketFromCode code) code dt code "".
Proof.
  unfold pushSymbol. case_decide as Hm; [|done].
  destruct (market_suffix code) as [?|[bare Hc]]; [done |]. set (m := MarketFromCode code) in *. f_equal.
  rewrite Hc, text_app, length_app. change (length (text ("." +:+ m))) with (S (length (text m))).
  replace (_ - _ - 1)%nat with (length (text bare)) by lia. by rewrite take_app_length, str_text.
Qed.

(** ** What an event says of its message *)
Section meaning.
Context {D : Type} `{DecimalSigned D}.

Lemma zero_text : exists z, dec_NewFromString (D := D) wireTick = inl z /\ (val z == 0)%Q.
Proof using Type. by apply (NewFromString_law wireTick (0 # 1)). Qed.

(** Every integer and every finite double is read as its value; a double that is
    not finite is refused. *)
Lemma itoa_read z : exists d, dec_NewFromString (D := D) (itoa z) = inl d /\ (val d == inject_Z z)%Q.
Proof using Type*.
  destruct (decide (0 <= z)) as [Hz|Hz].
  - destruct (itoa_value z Hz) as [Hd Hne]. apply NewFromString_law.
    rewrite <- (str_text (itoa z)). by apply numeral_digits.
  - replace (itoa z) with ("-" +:+ itoa (- z)) by (destruct z; [lia | lia | done]).
    destruct (itoa_value (- z) ltac:(lia)) as [Hd Hne].
    destruct (NewFromString_negative (itoa (- z)) (- z # 1)) as (d & Hp & Hv).
    { rewrite <- (str_text (itoa (- z))). by apply numeral_digits. }
    exists d. split; [done |]. rewrite Hv. unfold Qeq. simpl. lia.
Qed.

Lemma double_read f : is_finite f = true ->
  exists d, dec_NewFromString (D := D) (FormatFloat f) = inl d /\ (val d == double_val f)%Q.
Proof using Type*.
  intros Hf. destruct f as [|b|negative c e]; [done..|].
  destruct (FormatFloat_numeral c e) as (q & Hn & Hq). destruct negative.
  - destruct (NewFromString_negative _ q Hn) as (d & Hp & Hv). exists d. split; [exact Hp |].
    rewrite Hv, Hq. reflexivity.
  - destruct (NewFromString_law _ q Hn) as (d & Hp & Hv). exists d. split; [exact Hp |]. by rewrite Hv.
Qed.

Lemma double_refused f : is_finite f = false -> exists e, dec_NewFromString (D := D) (FormatFloat f) = inr e.
Proof using Type*.
  intros Hf. apply NewFromString_not_finite. destruct f as [|[]|]; [.. | done]; simpl; decided.
Qed.

Definition price_is (f : float64) (p : Price D) : Prop :=
  (val (price_dec p) == double_val f)%Q /\ (val (price_tick p) == 0)%Q.
Definition quantity_is (n : Z) (q : Quantity D) : Prop := (val (qty_dec q) == inject_Z n)%Q.
Definition money_is (f : float64) (m : Money D) : Prop :=
  (val (money_dec m) == double_val f)%Q /\ currency m = "HKD" /\ scale m = 3.

Lemma price_of_total f :
  (is_finite f = true /\ exists p, price_of f = Ret p /\ price_is f p) \/ (is_finite f = false /\ price_of (D := D) f = Panic).
Proof using Type*.
  unfold price_of, MustNewPrice, price_is. destruct zero_text as (z & -> & Hz). destruct (is_finite f) eqn:Hf.
  - left. destruct (double_read f Hf) as (d & -> & Hd). split; [done |]. by exists (mkPrice d z).
  - right. by destruct (double_refused f Hf) as [e ->].
Qed.

Lemma money_of_total f :
  (is_finite f = true /\ exists p, money_of f = Ret p /\ money_is f p) \/ (is_finite f = false /\ money_of (D := D) f = Panic).
Proof using Type*.
  unfold money_of, MustNewMoney, money_is. destruct (is_finite f) eqn:Hf.
  - left. destruct (double_read f Hf) as (d & -> & Hd). split; [done |]. by exists (mkMoney d "HKD" 3).
  - right. by destruct (double_refused f Hf) as [e ->].
Qed.

Lemma quantity_of_total n : exists q, quantity_of n = Ret q /\ quantity_is n q.
Proof using Type*.
  unfold quantity_of, MustNewQuantity, quantity_is. destruct (itoa_read n) as (d & -> & Hd). by exists (mkQuantity d).
Qed.

(** The numbers a message must have for its event to exist. *)
Definition level_ok (ob : OrderBook) : bool := is_finite (bk_Price ob).

Definition readable (m : Message) : bool :=
  match m with
  | MBasicQot (Some m) =>
      match bqn_BasicQot m with
      | Some q => is_finite (bq_LastPrice q) && (is_finite (bq_OpenPrice q) && (is_finite (bq_HighPrice q)
          && (is_finite (bq_LowPrice q) && (is_finite (bq_LastClosePrice q) && is_finite (bq_Turnover q)))))
      | None => true
      end
  | MTicker (Some m) =>
      match tkn_Ticker m with Some t => is_finite (tk_Price t) && is_finite (tk_Turnover t) | None => true end
  | MOrderBookFull (Some m) => forallb level_ok (obn_OrderBookList m)
  | MTradeStockDeliver (Some m) =>
      parses (D := D) (pushDecimal (ts_BusinessPrice m)) && (parses (D := D) (pushDecimal (ts_BusinessAmount m))
        && parses (D := D) (pushDecimal (ts_SumBusinessBalance m)))
  | _ => true
  end.

Definition level_stands (ob : OrderBook) (l : OrderBookLevel) : Prop :=
  obl_Level l = bk_Level ob /\ price_is (bk_Price ob) (obl_Price l) /\ quantity_is (bk_Volume ob) (obl_Quantity l).

(** Side 0 is the buying side. *)
Definition on_side {A} (side : Z) (l : list A) : list A * list A := if decide (side = 0) then (l, []) else ([], l).

Definition stands (m : Message) (time : Z) (ev : PushEvent D) : Prop :=
  match m, ev with
  | MBasicQot (Some m), Quote_ ev =>
      qe_Symbol ev = pushSymbolFromSecurity (bqn_Security m) /\ qe_Timestamp ev = itoa time
      /\ match bqn_BasicQot m with
         | None => True
         | Some q => price_is (bq_LastPrice q) (qe_LastPrice ev) /\ price_is (bq_OpenPrice q) (qe_OpenPrice ev)
             /\ price_is (bq_HighPrice q) (qe_HighPrice ev) /\ price_is (bq_LowPrice q) (qe_LowPrice ev)
             /\ price_is (bq_LastClosePrice q) (qe_ClosePrice ev)
             /\ quantity_is (bq_Volume q) (qe_Volume ev) /\ money_is (bq_Turnover q) (qe_Turnover ev)
         end
  | MTicker (Some m), Ticker_ ev =>
      te_Symbol ev = pushSymbolFromSecurity (tkn_Security m) /\ te_Timestamp ev = itoa time
      /\ match tkn_Ticker m with
         | None => True
         | Some t => price_is (tk_Price t) (te_Price ev) /\ quantity_is (tk_Volume t) (te_Volume ev)
             /\ money_is (tk_Turnover t) (te_Turnover ev) /\ te_Side ev = itoa (tk_Side t)
         end
  | MOrderBookFull (Some m), OrderBook_ ev =>
      ob_Symbol ev = pushSymbolFromSecurity (obn_Security m) /\ ob_Timestamp ev = itoa time
      /\ exists levels, Forall2 level_stands (obn_OrderBookList m) levels
         /\ (ob_Bids ev, ob_Asks ev) = on_side (obn_Side m) levels
         /\ ob_Depth ev = Z.of_nat (length (obn_OrderBookList m))
  | MBroker (Some m), Broker_ ev =>
      be_Symbol ev = pushSymbolFromSecurity (brn_Security m) /\ be_Timestamp ev = itoa time
      /\ (be_Buyers ev, be_Sellers ev)
         = on_side (brn_Side m) ((fun b => mkBrokerLevel (br_Level b) (br_Item b) (br_Type b) (br_Name b)) <$> brn_BrokerList m)
  | MTradeStockDeliver (Some m), Trade_ ev =>
      tr_Symbol ev = pushSymbol (ts_StockCode m) 0 /\ tr_Timestamp ev = itoa time
      /\ tr_OrderID ev = ts_ClientId m /\ tr_EntrustID ev = ts_EntrustNo m /\ tr_CounterID ev = ts_MatchNo m
      /\ tr_Side ev = ts_EntrustBs m /\ tr_OrderStatus ev = ts_EntrustStatus m
      /\ is_number (pushDecimal (ts_BusinessPrice m)) (price_dec (tr_Price ev))
      /\ is_number (pushDecimal (ts_BusinessAmount m)) (qty_dec (tr_Quantity ev))
      /\ is_number (pushDecimal (ts_SumBusinessBalance m)) (money_dec (tr_Turnover ev))
  | _, _ => False
  end.

Lemma side_text side : entrustBSFromInt32 side = itoa side.
Proof using Type. unfold entrustBSFromInt32. simpl. repeat (case_decide; [by subst |]). done. Qed.

(** A decoder gives an event that stands for its message, or panics because a
    number of the message does not read. *)
Definition decodes {A B} (box : option A -> Message) (ev : B -> PushEvent D) (f : A -> Z -> outcome B) : Prop :=
  forall m time,
    (readable (box (Some m)) = true /\ exists e, f m time = Ret e /\ stands (box (Some m)) time (ev e))
    \/ (readable (box (Some m)) = false /\ f m time = Panic).

Lemma decode_quote : decodes MBasicQot Quote_ decodeBasicQotEvent.
Proof using Type*.
  intros m time. unfold decodeBasicQotEvent. cbn [readable stands].
  destruct (bqn_BasicQot m) as [q|]; [| left; split; [done |]; eexists; split; [done |]; done].
  read_field (price_of_total (bq_LastPrice q)). read_field (price_of_total (bq_OpenPrice q)).
  read_field (price_of_total (bq_HighPrice q)). read_field (price_of_total (bq_LowPrice q)).
  read_field (price_of_total (bq_LastClosePrice q)).
  destruct (quantity_of_total (bq_Volume q)) as (v & -> & Hv). cbn [mbind outcome_bind].
  destruct (money_of_total (bq_Turnover q)) as [[-> (t & -> & Ht)]|[-> ->]]; [left | by right].
  split; [done |]. eexists. split; [reflexivity |]. split; [done |]. split; [done |]. tauto.
Qed.

Lemma decode_ticker : decodes MTicker Ticker_ decodeTickerEvent.
Proof using Type*.
  intros m time. unfold decodeTickerEvent. cbn [readable stands].
  destruct (tkn_Ticker m) as [t|]; [| left; split; [done |]; eexists; split; [done |]; done].
  read_field (price_of_total (tk_Price t)).
  destruct (quantity_of_total (tk_Volume t)) as (v & -> & Hv). cbn [mbind outcome_bind].
  destruct (money_of_total (tk_Turnover t)) as [[-> (u & -> & Hu)]|[-> ->]]; [left | by right].
  split; [done |]. eexists. split; [reflexivity |]. split; [done |]. split; [done |].
  split; [done |]. split; [done |]. split; [done |]. apply side_text.
Qed.

Lemma decode_level_total ob :
  (level_ok ob = true /\ exists l, decode_level ob = Ret l /\ level_stands ob l)
  \/ (level_ok ob = false /\ decode_level (D := D) ob = Panic).
Proof using Type*.
  unfold decode_level, level_ok, level_stands. read_field (price_of_total (bk_Price ob)).
  destruct (quantity_of_total (bk_Volume ob)) as (v & -> & Hv). left. split; [done |]. by eexists.
Qed.

Lemma book_levels_total side l bids asks :
  if forallb level_ok l then
    exists levels, Forall2 level_stands l levels
      /\ book_levels side l bids asks
         = Ret (if decide (side = 0) then (bids ++ levels, asks) else (bids, asks ++ levels))
  else book_levels side l bids asks = Panic.
Proof using Type*.
  revert bids asks. induction l as [|ob l IH]; intros bids asks; simpl.
  { exists []. split; [constructor |]. by case_decide; rewrite app_nil_r. }
  destruct (decode_level_total ob) as [[-> (lv & -> & Hlv)]|[-> ->]]; [| done]. simpl.
  case_decide as Hs;
    [specialize (IH (bids ++ [lv]) asks) | specialize (IH bids (asks ++ [lv]))];
    (destruct (forallb level_ok l); [| exact IH]); destruct IH as (levels & Hl & ->);
    exists (lv :: levels); (split; [by constructor |]); by rewrite <- app_assoc.
Qed.

Lemma decode_book : decodes MOrderBookFull OrderBook_ decodeOrderBookEvent.
Proof using Type*.
  intros m time. unfold decodeOrderBookEvent. cbn [readable stands].
  pose proof (book_levels_total (obn_Side m) (obn_OrderBookList m) [] []) as Hb.
  destruct (forallb level_ok _); [left | right; by rewrite Hb]. destruct Hb as (levels & Hl & ->).
  split; [done |]. apply Forall2_length in Hl as Hlen.
  unfold on_side. destruct (decide (obn_Side m = 0));
    (eexists; split; [reflexivity |]; split; [done |]; split; [done |]; exists levels;
     split; [done |]; split; [done |]; simpl; lia).
Qed.

Lemma broker_levels_side side l buyers sellers :
  broker_levels side l buyers sellers
  = let bs := (fun b => mkBrokerLevel (br_Level b) (br_Item b) (br_Type b) (br_Name b)) <$> l in
    if decide (side = 0) then (buyers ++ bs, sellers) else (buyers, sellers ++ bs).
Proof using Type.
  revert buyers sellers. induction l as [|b l IH]; intros buyers sellers; simpl.
  { by case_decide; rewrite app_nil_r. }
  rewrite !IH. simpl. case_decide; by rewrite <- app_assoc.
Qed.

Lemma decode_broker m time : stands (MBroker (Some m)) time (Broker_ (decodeBrokerEvent m time)).
Proof using Type.
  unfold decodeBrokerEvent. rewrite broker_levels_side. simpl. unfold on_side. by case_decide.
Qed.

Lemma decode_trade : decodes MTradeStockDeliver Trade_ decodeTradeEvent.
Proof using Type*.
  intros m time. unfold decodeTradeEvent. cbn [readable stands]. unfold wireTick.
  read_field (price_strict (D := D) (pushDecimal (ts_BusinessPrice m))).
  read_field (quantity_strict (D := D) (pushDecimal (ts_BusinessAmount m))).
  destruct (money_strict (D := D) (pushDecimal (ts_SumBusinessBalance m)) "HKD" 3) as [[-> (u & -> & Hu & _)]|[-> ->]];
    [left | by right].
  split; [done |]. eexists. split; [reflexivity |]. by repeat split.
Qed.
End meaning.

Section decoded.
Context (unmarshal_trade : bytestr -> TradeStockDeliverNotify + error)
  (unmarshal_book : bytestr -> OrderBookFullNotify + error) (unmarshal_broker : bytestr -> BrokerNotify + error)
  (unmarshal_quote : bytestr -> BasicQotNotify + error) (unmarshal_ticker : bytestr -> TickerNotify + error).
Local Abbreviation unmarshal := (Unmarshal unmarshal_trade unmarshal_book unmarshal_broker unmarshal_quote unmarshal_ticker).

(** The message of a payload kind, not nil. *)
Definition of_kind (k : payload_kind) (m : Message) : Prop :=
  match k, m with
  | KTradeStockDeliver, MTradeStockDeliver (Some _) | KOrderBookFull, MOrderBookFull (Some _)
  | KBroker, MBroker (Some _) | KBasicQot, MBasicQot (Some _) | KTicker, MTicker (Some _) => True
  | _, _ => False
  end.

Lemma Unmarshal_kind k b m : unmarshal k b = inl m -> of_kind k m.
Proof using Type.
  unfold Unmarshal, unmarshalled. destruct k; case_match; intros [= <-]; done.
Qed.

Lemma Decode_kind t b m : Decode unmarshal t b = inl m -> exists k, kind_for t = Some k /\ of_kind k m.
Proof using Type.
  unfold Decode. destruct (kind_for t) as [k|]; [|done].
  destruct (unmarshal k b) as [m'|e] eqn:Hu; [|done]. intros [= <-]. exists k.
  split; [done |]. exact (Unmarshal_kind k b m' Hu).
Qed.

(** A notification of a payload of its type. *)
Definition well_typed (n : Notification Message) : Prop :=
  forall m, Payload n = Some m -> exists k, kind_for (Type_ n) = Some k /\ of_kind k m.

Lemma decodeNotification_typed Unmarshal_PBNotify body n :
  decodeNotification unmarshal Unmarshal_PBNotify body = inl n -> well_typed n.
Proof using Type.
  unfold decodeNotification. destruct (Unmarshal_PBNotify body) as [[[[t id] time] p]|e]; [|done].
  destruct p as [b|]; [| intros [= <-] m; done].
  destruct (Decode unmarshal t b) as [m'|e] eqn:Hd; [|done]. intros [= <-] m [= <-]. exact (Decode_kind t b m' Hd).
Qed.

Context {D : Type} `{DecimalSigned D}.

Lemma normalize_typed n m : well_typed n -> Payload n = Some m ->
  if readable (D := D) m then exists ev, NormalizeNotification (Some n) = Ret (inl ev) /\ stands m (Time n) ev
  else NormalizeNotification (D := D) (Some n) = Panic.
Proof using Type*.
  intros Hw Hp. destruct (Hw m Hp) as (k & Hk & Hm). unfold NormalizeNotification. rewrite Hk, Hp.
  destruct k, m as [[m|]|[m|]|[m|]|[m|]|[m|]]; try done; cbn [boxed].
  - destruct (decode_trade m (Time n)) as [(-> & e & -> & He)|(-> & ->)]; [by exists (Trade_ e) | done].
  - destruct (decode_book m (Time n)) as [(-> & e & -> & He)|(-> & ->)]; [by exists (OrderBook_ e) | done].
  - exists (Broker_ (decodeBrokerEvent m (Time n))). split; [done | apply decode_broker].
  - destruct (decode_quote m (Time n)) as [(-> & e & -> & He)|(-> & ->)]; [by exists (Quote_ e) | done].
  - destruct (decode_ticker m (Time n)) as [(-> & e & -> & He)|(-> & ->)]; [by exists (Ticker_ e) | done].
Qed.
End decoded.

(** ** The two normalisers *)

Definition with_event {D} (r : outcome (PushEvent D + error)) : outcome (option (PushEvent D) + error) :=
  match r with Ret (inl ev) => Ret (inl (Some ev)) | Ret (inr e) => Ret (inr e) | Panic => Panic end.

Lemma arm_agrees {A B D} name (u : bytestr -> A + error) (f : A -> outcome B) (box : B -> PushEvent D)
    (mk : option A -> Message) (bridge : Message -> outcome (PushEvent D + error)) value :
  value <> [] -> (forall m, bridge (mk (Some m)) = boxed f box (Some m)) ->
  match match unmarshalled mk (u value) with
        | inl m => inl m
        | inr e => inr (EWrap ("push: decode: " +:+ error_text e) e)
        end with
  | inl m => normalize_arm name u f box value = with_event (bridge m)
  | inr _ => exists e, normalize_arm name u f box value = Ret (inr e)
  end.
Proof.
  intros Hv Hb. unfold normalize_arm, unmarshalled. rewrite decide_False by (by destruct value).
  destruct (u value) as [m|e]; [| by eexists]. rewrite Hb. simpl. by destruct (f m).
Qed.

(** The bridge makes a trade of a counter delivery. *)
Lemma counter_delivery_is_trade {D} `{Decimal D} u_trade u_book u_broker u_quote u_ticker id time value m :
  Decode (Unmarshal u_trade u_book u_broker u_quote u_ticker) TrsStockDeliverMsgType value = inl m ->
  let bridged := NormalizeNotification (D := D) (Some (mkNotification TrsStockDeliverMsgType id time (Some m))) in
  bridged = Panic \/ exists e, bridged = Ret (inl (Trade_ e)).
Proof.
  unfold Decode. change (kind_for TrsStockDeliverMsgType) with (Some KTradeStockDeliver). cbn [Unmarshal unmarshalled].
  unfold unmarshalled. destruct (u_trade value) as [tr|e]; [| done]. intros [= <-].
  unfold NormalizeNotification. cbn [Type_ Payload Time]. change (kind_for TrsStockDeliverMsgType) with (Some KTradeStockDeliver).
  cbn. unfold mbind, outcome_bind. case_match; eauto.
Qed.


(** ** A ticker message *)
Definition undecoded {A} (b : bytestr) : A + error := inr (EText "proto: cannot parse").
Definition any_ticker (b : bytestr) : TickerNotify + error :=
  match b with [] => inl (mkTickerNotify None None) | _ => inl (mkTickerNotify (Some (mkSecurity 10000 "00700.HK")) None) end.

