(* ===== verification/PushAdapter.v ===== *)
(** The push adapter, [src/pkg/transport/push.go]: the configuration it passes to
    the push client, the conversion of a notification into the update a
    subscription receives, and its error stream. *)
From Stdlib Require Import QArith.
From stdpp Require Import pretty.
From S2P Require Import Prelude Chan Types Errs Domain Decimals Service Frame PushClient PushKeys PushEvents.
Local Open Scope Z_scope.

(** ** Configuration *)

(** A dialer and a verification key are opaque; [None] is the nil dialer. *)
Record PushConfig (Dial : Type) := mkPushConfig {
  cf_Addr : string;
  cf_Dial : option Dial;
  cf_MinReconnect : Z;
  cf_MaxReconnect : Z;
  cf_ReadDeadline : Z;
  verifyKey : bytestr;
  verifyRequired : bool;
}.
Arguments mkPushConfig {Dial}.
Arguments cf_Addr {Dial}.
Arguments cf_Dial {Dial}.
Arguments cf_MinReconnect {Dial}.
Arguments cf_MaxReconnect {Dial}.
Arguments cf_ReadDeadline {Dial}.
Arguments verifyKey {Dial}.
Arguments verifyRequired {Dial}.

Inductive PushOption (Dial : Type) :=
  | WithPushAddr (addr : string)
  | WithPushDialer (d : option Dial)
  | WithPushReconnect (min max : Z)
  | WithPushReadDeadline (d : Z)
  | WithPushVerification (pubKey : bytestr) (required : bool).
Arguments WithPushAddr {Dial}.
Arguments WithPushDialer {Dial}.
Arguments WithPushReconnect {Dial}.
Arguments WithPushReadDeadline {Dial}.
Arguments WithPushVerification {Dial}.

Definition DefaultPushAddr : string := DefaultAddr.
Definition DefaultPushMinReconnect : Z := DefaultMinReconnect.
Definition DefaultPushMaxReconnect : Z := DefaultMaxReconnect.
Definition DefaultPushErrorBuffer : nat := 64.

Section config.
Context {Dial : Type}.

Definition apply_push_option (c : PushConfig Dial) (o : option (PushOption Dial)) : PushConfig Dial :=
  match c, o with
  | c, None => c
  | mkPushConfig a d mn mx r k q, Some (WithPushAddr addr) =>
      mkPushConfig (if decide (addr = "") then DefaultPushAddr else addr) d mn mx r k q
  | mkPushConfig a _ mn mx r k q, Some (WithPushDialer d) => mkPushConfig a d mn mx r k q
  | mkPushConfig a d mn mx r k q, Some (WithPushReconnect min max) =>
      mkPushConfig a d (if decide (min > 0) then min else mn) (if decide (max > 0) then max else mx) r k q
  | mkPushConfig a d mn mx _ k q, Some (WithPushReadDeadline r) =>
      mkPushConfig a d mn mx (if decide (r > 0) then r else 0) k q
  | mkPushConfig a d mn mx r _ _, Some (WithPushVerification k q) => mkPushConfig a d mn mx r k q
  end.

(** The configuration [NewPushAdapter] resolves. *)
Definition resolve (opts : list (option (PushOption Dial))) : PushConfig Dial :=
  let cfg := foldl apply_push_option
    (mkPushConfig DefaultPushAddr None DefaultPushMinReconnect DefaultPushMaxReconnect 0 [] false) opts in
  match cfg with
  | mkPushConfig a d mn mx r k q => mkPushConfig a d mn (if decide (mx < mn) then mn else mx) r k q
  end.

(** The dialer is not part of the modelled options of the push client. *)
Definition pushOptions (cfg : PushConfig Dial) : list PushClient.Option :=
  [WithAddr (cf_Addr cfg); WithReconnect (cf_MinReconnect cfg) (cf_MaxReconnect cfg);
   WithReadDeadline (cf_ReadDeadline cfg)]
  ++ (if decide (0 < length (verifyKey cfg))%nat then [WithVerification (verifyKey cfg) (verifyRequired cfg)] else []).

Definition Addr (cfg : PushConfig Dial) : string := cf_Addr cfg.

Definition String_ (cfg : PushConfig Dial) : string := "transport.PushAdapter{addr: " +:+ Addr cfg +:+ "}".

Record config_ok (c : PushConfig Dial) : Prop := {
  addr_ok : cf_Addr c <> "";
  min_ok : 0 < cf_MinReconnect c;
  max_ok : 0 < cf_MaxReconnect c;
  deadline_ok : 0 <= cf_ReadDeadline c;
}.

Lemma options_ok opts c : config_ok c -> config_ok (foldl apply_push_option c opts).
Proof using Type.
  revert c. induction opts as [|o opts IH]; intros c Hc; [done |]. apply IH. clear IH opts.
  destruct c as [a d mn mx r k q], Hc; simpl in *.
  destruct o as [[addr|d'|mi ma|r'|k' q']|]; split; simpl; try case_decide; done || lia.
Qed.

Lemma resolve_ok opts : config_ok (resolve opts) /\ cf_MinReconnect (resolve opts) <= cf_MaxReconnect (resolve opts).
Proof using Type.
  unfold resolve. pose proof (options_ok opts
    (mkPushConfig DefaultPushAddr None DefaultPushMinReconnect DefaultPushMaxReconnect 0 [] false)) as Hok.
  destruct (foldl _ _ _) as [a d mn mx r k q]. destruct Hok as [Ha Hmn Hmx Hr]; [by split |].
  simpl in *. split; [split; simpl|]; try case_decide; done || lia.
Qed.
End config.

(** Whatever the options, the push client under the adapter runs with exactly
    the configuration the adapter resolved: an address, ordered positive reconnect
    bounds, a deadline that is not negative, and the verification key with its
    requirement. The one exception is a key of no bytes: requiring verification
    with it is dropped on the way, and every frame is accepted unverified. *)
Theorem push_config_preserved {Dial Key} sha1_Sum VerifyPKCS1v15 bytes_TrimSpace pem_Decode base64_Decode
    ParsePKIX ParsePKCS1 (os : list (option (PushOption Dial))) :
  let cfg := resolve os in
  let c := New (Key := Key) bytes_TrimSpace pem_Decode base64_Decode ParsePKIX ParsePKCS1 (pushOptions cfg) in
  cf_Addr cfg <> "" /\ 0 < cf_MinReconnect cfg <= cf_MaxReconnect cfg /\ 0 <= cf_ReadDeadline cfg
  /\ PushClient.opts c = mkOptions (cf_Addr cfg) (cf_MinReconnect cfg) (cf_MaxReconnect cfg) (cf_ReadDeadline cfg)
       (verifyKey cfg) (bool_decide (verifyKey cfg <> []) && verifyRequired cfg)
  /\ (verifyKey cfg = [] -> forall h body, verifyFrame sha1_Sum VerifyPKCS1v15 c h body = None).
Proof.
  intros cfg c. destruct (resolve_ok os) as [[Ha Hmn Hmx Hr] Hle]. fold cfg in Ha, Hmn, Hmx, Hr, Hle.
  do 2 (split; [done || lia |]). split; [done |]. subst c. unfold New, pushOptions.
  destruct cfg as [a d mn mx r k q]; simpl in *.
  destruct k as [|b k]; simpl; rewrite ?(decide_False (P := a = "")), ?(decide_True (P := mn > 0)),
    ?(decide_True (P := mx > 0)), ?(decide_False (P := mn <= 0)), ?(decide_False (P := mx < mn)) by (done || lia);
    simpl; rewrite ?(decide_False (P := a = "")), ?(decide_False (P := mn <= 0)), ?(decide_False (P := mx < mn)) by (done || lia);
    replace (if decide (r > 0) then r else 0) with r by (case_decide; lia).
  - split; [done |]. intros _ h body. done.
  - split; [| done]. by destruct (ParsePublicKey _ _ _ _ _ _).
Qed.

(** ** The conversion *)

(** [notifyTime]: a [time.Time] counts nanoseconds from year 1; milliseconds since
    1970 are converted through [int64], and no time is the zero time. *)
Definition notifyTime (ms : Z) : Z :=
  if decide (ms = 0) then 0 else 62135596800000000000 + swrap 64 ms * 1000000.

(** What the handler installed by [SubscribeTypes] does with a notification. *)
Inductive conversion (D : Type) :=
  | Discarded
  | Reported (e : error)
  | Handed (u : PushUpdate D).
Arguments Discarded {D}.
Arguments Reported {D}.
Arguments Handed {D}.

Section convert.
Context {D : Type} `{Decimal D}.

(** [convert(n, h)] for a non-nil [n]; [handler] tells whether [h] is not nil. *)
Definition convert (n : Notification Message) (handler : bool) : outcome (conversion D) :=
  if handler then
    match NormalizeNotification (Some n) with
    | Panic => Panic
    | Ret (inr e) => Ret (Reported e)
    | Ret (inl event) => Ret (Handed (mkPushUpdate (Type_ n) (ID n) (notifyTime (Time n)) (Some event)))
    end
  else Ret Discarded.
End convert.

(** The event of a notification without payload. *)
Definition no_payload_event {D} (t : Z) : PushEvent D :=
  if decide (is_Some (kind_for t)) then emptyPayloadEvent else normalizeUnknownEvent None.

(** The security a message is about. *)
Definition message_code (m : Message) : string :=
  match m with
  | MTradeStockDeliver (Some m) => ts_StockCode m
  | MOrderBookFull (Some m) => from_option sec_Code "" (obn_Security m)
  | MBroker (Some m) => from_option sec_Code "" (brn_Security m)
  | MBasicQot (Some m) => from_option sec_Code "" (bqn_Security m)
  | MTicker (Some m) => from_option sec_Code "" (tkn_Security m)
  | _ => ""
  end.

Lemma security_code sec : Code (pushSymbolFromSecurity sec) = from_option sec_Code "" sec.
Proof. by destruct sec. Qed.

Lemma stands_code {D} `{DecimalSigned D} m time (ev : PushEvent D) t id tm :
  stands m time ev -> SecurityCode (mkPushUpdate t id tm (Some ev)) = message_code m.
Proof.
  destruct m as [[m|]|[m|]|[m|]|[m|]|[m|]], ev; try done; cbn [stands SecurityCode pu_Event message_code];
    intros [-> _]; try apply security_code. done.
Qed.

(** C9: From the bytes of the push connection to the update a subscription gets.
    The read loop ends on every stream; what it does is what [handle_frame] does
    for the frames the stream begins with, in their order. A notification is
    dispatched only from a push frame whose body decodes to it. When verification
    is required that frame passed it; otherwise, which is the default, a frame
    that fails it is dispatched all the same, right after its error was reported.
    What [convert] makes of a dispatched notification is one update with the
    type, id and time of the envelope, whose event stands for the payload field by
    field: every number is exactly the one of the frame, the code is the one of the
    frame, and each side of a book keeps its order. Nothing is ever reported
    instead. The conversion panics exactly when a double of the payload is not
    finite or a number of a trade does not parse. Between the dispatch and the
    handler is the queue of [PushConc], which drops its oldest notification when
    it is full: not every dispatched notification is handled. *)
Theorem adapter_end_to_end {D} `{DecimalSigned D} u_trade u_book u_broker u_quote u_ticker Unmarshal_PBNotify
    (verify : Header -> bytestr -> option error) (o : Options) (deadline : list (option error)) (r : Reader) :
  let unmarshal := Unmarshal u_trade u_book u_broker u_quote u_ticker in
  let handle h body := handle_frame unmarshal Unmarshal_PBNotify verify o h body in
  exists fs rest e,
    readLoop unmarshal Unmarshal_PBNotify verify o (S (length (data r))) deadline r
      = Some (mjoin ((fun f => handle (fst f) (snd f)) <$> fs), e)
    /\ data r = mjoin ((fun f => EncodeHeader (fst f) ++ snd f) <$> fs) ++ rest
    /\ forall h body n, (h, body) ∈ fs -> ADispatch n ∈ handle h body ->
       MsgType h = MsgPush
       /\ decodeNotification unmarshal Unmarshal_PBNotify body = inl n
       /\ (VerifyRequired o = true -> verify h body = None)
       /\ handle h body = match verify h body with Some err => [AReport err; ADispatch n] | None => [ADispatch n] end
       /\ match Payload n with
          | None => convert n true
              = Ret (Handed (D := D) (mkPushUpdate (Type_ n) (ID n) (notifyTime (Time n)) (Some (no_payload_event (Type_ n)))))
          | Some m =>
              if readable (D := D) m then
                exists ev, convert n true = Ret (Handed (mkPushUpdate (Type_ n) (ID n) (notifyTime (Time n)) (Some ev)))
                  /\ stands m (Time n) ev
                  /\ SecurityCode (mkPushUpdate (Type_ n) (ID n) (notifyTime (Time n)) (Some ev)) = message_code m
              else convert (D := D) n true = Panic
          end.
Proof.
  intros unmarshal handle.
  destruct (readLoop_handles unmarshal Unmarshal_PBNotify verify o (S (length (data r))) deadline r ltac:(lia))
    as (fs & rest & e & Hl & Hd).
  exists fs, rest, e. split; [exact Hl |]. split; [exact Hd |]. intros h body n _ Hn.
  destruct (handle_dispatch _ _ _ _ _ _ _ Hn) as (Hp & Hn' & Hv & Hh).
  do 4 (split; [done |]). apply decodeNotification_typed in Hn' as Hw. unfold convert.
  destruct (Payload n) as [m|] eqn:Hpl.
  - pose proof (normalize_typed n m Hw Hpl) as Hm. destruct (readable m); [| by rewrite Hm].
    destruct Hm as (ev & -> & Hs). exists ev. split; [done |]. split; [done |]. exact (stands_code m _ ev _ _ _ Hs).
  - unfold NormalizeNotification, no_payload_event. rewrite Hpl. case_decide as Hk.
    + by destruct Hk as [[] ->].
    + apply eq_None_not_Some in Hk. by rewrite Hk.
Qed.

(** ** Errors *)
Definition ErrSignatureMismatch : string := "domain: push frame signature verification failed".

(** [unverifiedError]: the text of its cause, found by [errors.Is] under the domain
    sentinel and under everything the cause answers to. *)
Definition translatePushError (err : option error) : option error :=
  match err with
  | None => None
  | Some e =>
      if is_sentinel e PushClient.ErrSignatureMismatch
      then Some (EWrap (error_text e) (ETagged ErrSignatureMismatch (Some e))) else Some e
  end.

Lemma translate_exact e : exists e', translatePushError (Some e) = Some e'
  /\ error_text e' = error_text e
  /\ forall target, errors_Is e' target
       = bool_decide (ErrSignatureMismatch = target) && is_sentinel e PushClient.ErrSignatureMismatch || errors_Is e target.
Proof.
  unfold translatePushError. destruct (is_sentinel e _) eqn:He; eexists; (split; [reflexivity |]); (split; [done |]).
  - intros target. simpl. by rewrite andb_true_r.
  - intros target. by rewrite andb_false_r.
Qed.

Definition translated (e : error) : error := default e (translatePushError (Some e)).

(** ** The hooks

    A hook may register another one while it runs: [fireReconnect] calls the hooks
    of its snapshot. *)
Section hooks.
Context {Hook W : Type} (hooks : W -> list Hook) (set_hooks : list Hook -> W -> W) (invoke : Hook -> option error -> W -> W).

Definition OnReconnect (fn : option Hook) (w : W) : W :=
  match fn with None => w | Some fn => set_hooks (hooks w ++ [fn]) w end.

Definition fireReconnect (cause : option error) (w : W) : W :=
  foldl (fun w fn => invoke fn cause w) w (hooks w).
End hooks.

(** ** The error stream

    The goroutines that share it: the push client raising errors on its own
    stream, [translateErrors], any caller of [Report] ([convert] among them), the
    consumer, and [Close]. *)
Inductive translator_pc := TWaiting | TEmitting (e : error) | TDone.
Inductive close_pc := AIdle | ASignalled | AClientClosed | AJoined | AFinished.

#[global] Instance close_pc_eq_dec : EqDecision close_pc.
Proof. solve_decision. Defined.

(** [accepted], [received] and [late] are ghost: the errors emitted, those the
    consumer took, and whether something was emitted after the stream closed. *)
Record stream := mkStream {
  upstream : list error;
  upstream_closed : bool;
  done_closed : bool;
  translator : translator_pc;
  errc : list error;
  errc_closed : bool;
  panicked : bool;
  closer : close_pc;
  accepted : list error;
  received : list error;
  late : bool;
}.

Definition open_stream : stream := mkStream [] false false TWaiting [] false false AIdle [] [] false.

(** [emit(err)] for an error that is not nil, under [errcMu]: sending on the closed
    stream panics. Whatever the consumer takes between its selects, the error is
    queued last ([send_racing_newest]). *)
Definition emit (e : error) (s : stream) : stream :=
  match s with
  | mkStream u uc d t q true p c a r l => mkStream u uc d t q true true c a r true
  | mkStream u uc d t q false p c a r l =>
      mkStream u uc d t (send_drop_oldest DefaultPushErrorBuffer q (translated e)) false p c (a ++ [e]) r l
  end.

Definition Report (err : option error) (s : stream) : stream :=
  match err with None => s | Some e => emit e s end.

(** The moves of [translateErrors] and of [Close], which finish by themselves. *)
Inductive own_step : stream -> stream -> Prop :=
  | own_take e q uc d qq ec p c a r l :
      own_step (mkStream (e :: q) uc d TWaiting qq ec p c a r l) (mkStream q uc d (TEmitting e) qq ec p c a r l)
  | own_emit e u uc d q ec p c a r l :
      own_step (mkStream u uc d (TEmitting e) q ec p c a r l) (emit e (mkStream u uc d TWaiting q ec p c a r l))
  | own_drained d q ec p c a r l :
      own_step (mkStream [] true d TWaiting q ec p c a r l) (mkStream [] true d TDone q ec p c a r l)
  | own_done u uc q ec p c a r l :
      own_step (mkStream u uc true TWaiting q ec p c a r l) (mkStream u uc true TDone q ec p c a r l)
  | own_client u uc d t q ec p a r l :
      own_step (mkStream u uc d t q ec p ASignalled a r l) (mkStream u true d t q ec p AClientClosed a r l)
  | own_join u uc d q ec p a r l :
      own_step (mkStream u uc d TDone q ec p AClientClosed a r l) (mkStream u uc d TDone q ec p AJoined a r l)
  | own_close u uc d t q ec p a r l :
      own_step (mkStream u uc d t q ec p AJoined a r l) (mkStream u uc d t q true (p || ec) AFinished a r l).

Inductive stream_step : stream -> stream -> Prop :=
  | step_own s s' : own_step s s' -> stream_step s s'
  | step_raise e u d t q ec p c a r l :
      stream_step (mkStream u false d t q ec p c a r l)
        (mkStream (send_drop_oldest errorBuffer u e) false d t q ec p c a r l)
  | step_report err s : stream_step s (Report err s)
  | step_receive e u uc d t q ec p c a r l :
      stream_step (mkStream u uc d t (e :: q) ec p c a r l) (mkStream u uc d t q ec p c a (r ++ [e]) l)
  | step_close u uc d t q ec p a r l :
      stream_step (mkStream u uc d t q ec p AIdle a r l) (mkStream u uc true t q ec (p || d) ASignalled a r l).

Inductive streams : stream -> Prop :=
  | stream_open : streams open_stream
  | stream_next s s' : streams s -> stream_step s s' -> streams s'.

Record stream_inv (s : stream) : Prop := {
  si_bound : (length (errc s) <= DefaultPushErrorBuffer)%nat;
  si_order : (received s ++ errc s) `sublist_of` (translated <$> accepted s);
  si_queue : errc s `suffix_of` (translated <$> accepted s);
  si_done : done_closed s = bool_decide (closer s <> AIdle);
  si_closed : errc_closed s = bool_decide (closer s = AFinished);
  si_joined : closer s = AJoined \/ closer s = AFinished -> translator s = TDone;
  si_panic : panicked s = late s;
}.

#[local] Arguments emit : simpl never.

Lemma emit_inv e s : stream_inv s -> stream_inv (emit e s).
Proof.
  intros [Hb Ho Hq Hd Hc Hj Hp]. unfold emit. destruct s as [u uc d t q [] p c a r l]; simpl in *; [by split |].
  split; simpl; try done.
  - by apply length_send_drop_oldest.
  - rewrite send_drop_oldest_lastn, fmap_app by done. unfold lastn. etrans.
    + apply sublist_app; [reflexivity | apply sublist_drop].
    + rewrite app_assoc. by apply sublist_app.
  - rewrite send_drop_oldest_lastn, fmap_app by done. unfold lastn. etrans; [apply suffix_drop |]. by apply suffix_app.
Qed.

Lemma own_inv s s' : own_step s s' -> stream_inv s -> stream_inv s'.
Proof.
  destruct 1; intros [Hb Ho Hq Hd Hc Hj Hp]; simpl in *;
    try (split; simpl in *; try done; intros Hx; first [by specialize (Hj Hx) | by destruct Hx]).
  - apply emit_inv. split; simpl in *; try done. intros Hx. by specialize (Hj Hx).
  - split; simpl in *; try done; [by intros _; apply Hj; left | by rewrite Hc, orb_false_r].
Qed.

Lemma stream_inv_step s s' : stream_step s s' -> stream_inv s -> stream_inv s'.
Proof.
  destruct 1; intros Hi.
  - by eapply own_inv.
  - destruct Hi as [Hb Ho Hq Hd Hc Hj Hp]. by split.
  - destruct err; [by apply emit_inv | done].
  - destruct Hi as [Hb Ho Hq Hd Hc Hj Hp]. simpl in *. split; simpl; try done.
    + lia.
    + by rewrite <- app_assoc.
    + etrans; [| exact Hq]. by exists [e].
  - destruct Hi as [Hb Ho Hq Hd Hc Hj Hp]. simpl in *. split; simpl in *; try done.
    + intros [?|?]; done.
    + by rewrite Hd, orb_false_r.
Qed.

Lemma streams_inv s : streams s -> stream_inv s.
Proof.
  induction 1; [| by eapply stream_inv_step].
  split; simpl; try done; [lia | by intros [?|?]].
Qed.

Lemma emit_open e s : errc_closed s = false ->
  closer (emit e s) = closer s /\ upstream_closed (emit e s) = upstream_closed s
  /\ translator (emit e s) = translator s /\ done_closed (emit e s) = done_closed s
  /\ errc_closed (emit e s) = false /\ panicked (emit e s) = panicked s.
Proof. by destruct s as [u uc d t q [] p c a r l]. Qed.

(** Once [Close] has begun, the translator ends by itself. *)
Lemma translator_ends s : done_closed s = true -> errc_closed s = false ->
  exists s', rtc own_step s s' /\ translator s' = TDone /\ closer s' = closer s /\ errc_closed s' = false.
Proof.
  intros Hd He. destruct s as [u uc d t q ec p c a r l]; simpl in *; subst.
  destruct t as [|e|].
  - eexists. split; [apply rtc_once, own_done |]. done.
  - pose proof (emit_open e (mkStream u uc true TWaiting q false p c a r l) eq_refl) as (H1 & H2 & H3 & H4 & H5 & H6).
    destruct (emit e _) as [u' uc' d' t' q' ec' p' c' a' r' l'] eqn:He; simpl in *; subst.
    eexists. split.
    + eapply rtc_l; [apply own_emit |]. rewrite He. apply rtc_once, own_done.
    + done.
  - by eexists.
Qed.

Lemma close_completes s : streams s -> closer s <> AIdle ->
  exists s', rtc own_step s s' /\ closer s' = AFinished.
Proof.
  intros Hs Hc. apply streams_inv in Hs. destruct s as [u uc d t q ec p c a r l].
  destruct Hs as [_ _ _ Hd He Hj _]; simpl in *.
  assert (Hjoined : forall u uc d t q p a r l, rtc own_step (mkStream u uc d t q false p AJoined a r l)
    (mkStream u uc d t q true (p || false) AFinished a r l)) by (intros; apply rtc_once, own_close).
  assert (Hclosed : forall u uc t q p a r l, exists s', rtc own_step (mkStream u uc true t q false p AClientClosed a r l) s'
    /\ closer s' = AFinished).
  { intros u0 uc0 t0 q0 p0 a0 r0 l0.
    destruct (translator_ends (mkStream u0 uc0 true t0 q0 false p0 AClientClosed a0 r0 l0) eq_refl eq_refl)
      as ([u1 uc1 d1 t1 q1 ec1 p1 c1 a1 r1 l1] & Hr & Ht & Hcl & Hec). simpl in *. subst.
    eexists. split; [etrans; [exact Hr |]; eapply rtc_l; [apply own_join | apply Hjoined] | done]. }
  destruct c; [done | | | |]; simpl in *; subst d ec.
  - destruct (Hclosed u true t q p a r l) as (s' & Hr & Hf). exists s'. split; [| done].
    eapply rtc_l; [apply own_client | exact Hr].
  - exact (Hclosed u uc t q p a r l).
  - eexists. split; [apply Hjoined | done].
  - by eexists.
Qed.


(** [Close] of a fresh adapter. *)
Definition closed_stream : stream := mkStream [] true true TDone [] true false AFinished [] [] false.

Lemma closed_reached : streams closed_stream.
Proof.
  eapply stream_next; [| exact (step_own _ _ (own_close [] true true TDone [] false false [] [] false))].
  eapply stream_next; [| exact (step_own _ _ (own_join [] true true [] false false [] [] false))].
  eapply stream_next; [| exact (step_own _ _ (own_done [] true [] false false AClientClosed [] [] false))].
  eapply stream_next; [| exact (step_own _ _ (own_client [] false true TWaiting [] false false [] [] false))].
  eapply stream_next; [apply stream_open | exact (step_close [] false false TWaiting [] false false [] [] false)].
Qed.


(** ** A connection with two ticker frames, the second with a price that is not a number *)
Definition demo_ticker (b : bytestr) : TickerNotify + error :=
  inl (mkTickerNotify (Some (mkSecurity 10000 "00700.HK"))
         (Some (mkTicker (if decide (b = []) then NaN else Finite false 3502 (-1)) 200 (Finite false 7004 1) 1 0))).

Definition no_message {A} (b : bytestr) : A + error := inr EOF.

Definition demo_conn : Reader := mkReader (WriteFrames [(sample_header, sample_body); (sample_header, [])]) EOF.

Definition demo_symbol : Symbol := mkSymbol "HK" "00700.HK" 10000 "00700.HK" "".

(** The default: a frame that fails verification is still dispatched. *)
Definition demo_lenient : Options := mkOptions DefaultAddr DefaultMinReconnect DefaultMaxReconnect 0 [] false.
Definition demo_verify (h : Header) (b : bytestr) : option error := if decide (b = []) then Some EOF else None.

Definition demo_tick (price : float64) : Notification Message :=
  mkNotification TickerNotifyMsgType "id" 0 (Some (MTicker (Some
    (mkTickerNotify (Some (mkSecurity 10000 "00700.HK")) (Some (mkTicker price 200 (Finite false 7004 1) 1 0)))))).

Lemma demo_actions :
  readLoop (Unmarshal no_message no_message no_message no_message demo_ticker) demo_PB demo_verify
      demo_lenient (S (length (data demo_conn))) [] demo_conn
    = Some ([ADispatch (demo_tick (Finite false 3502 (-1))); AReport EOF; ADispatch (demo_tick NaN)], EOF).
Proof. vm_compute. reflexivity. Qed.

Lemma handled {A B} (f : A -> list B) fs l x : mjoin (f <$> fs) = l -> x ∈ l -> exists a, a ∈ fs /\ x ∈ f a.
Proof. intros <- (l' & Hx & (a & -> & Ha)%list_elem_of_fmap)%list_elem_of_join. by exists a. Qed.

Lemma adapter_end_to_end_witness :
  exists h body,
    handle_frame (Unmarshal no_message no_message no_message no_message demo_ticker) demo_PB demo_verify
      demo_lenient h body = match demo_verify h body with
                            | Some err => [AReport err; ADispatch (demo_tick NaN)]
                            | None => [ADispatch (demo_tick NaN)]
                            end
    /\ MsgType h = MsgPush
    /\ (exists ev, convert (D := dec) (demo_tick (Finite false 3502 (-1))) true
                   = Ret (Handed (mkPushUpdate TickerNotifyMsgType "id" 0 (Some (Ticker_ ev))))
          /\ te_Symbol ev = demo_symbol /\ te_Side ev = EntrustBuy)
    /\ convert (D := dec) (demo_tick NaN) true = Panic.
Proof.
  destruct (adapter_end_to_end (D := dec) no_message no_message no_message no_message demo_ticker demo_PB
    demo_verify demo_lenient [] demo_conn) as (fs & rest & e & Hl & _ & Hall).
  rewrite demo_actions in Hl. injection Hl as Hl _. symmetry in Hl.
  destruct (handled _ _ _ (ADispatch (demo_tick (Finite false 3502 (-1)))) Hl ltac:(left)) as ([h1 b1] & Hf1 & Hn1).
  destruct (handled _ _ _ (ADispatch (demo_tick NaN)) Hl ltac:(right; right; left)) as ([h2 b2] & Hf2 & Hn2).
  destruct (Hall h1 b1 _ Hf1 Hn1) as (_ & _ & _ & _ & ev & Hc & Hs & _).
  destruct (Hall h2 b2 _ Hf2 Hn2) as (Hp & _ & _ & Hh & H2).
  exists h2, b2. split; [exact Hh |]. split; [exact Hp |]. split; [| exact H2].
  destruct ev as [|ev|  | | | |]; try done.
  exists ev. split; [exact Hc |]. destruct Hs as (Hsym & _ & _ & _ & _ & Hside). rewrite Hsym, Hside. by split.
Defined.
