(* ===== verification/Freshness.v ===== *)
(** The freshness monitor, [src/internal/push/freshness.go]: the last activity of
    each topic. A [time.Time] is a number of nanoseconds; the clock readings are
    arguments. *)
From stdpp Require Import pretty.
From S2P Require Import Prelude Types Errs.
Local Open Scope Z_scope.

Definition Minute : Z := 60000000000.

Definition ErrNotStale : error := ESentinel "push: not stale".

Record FreshnessEntry := mkFreshnessEntry { LastSeq : Z; LastSeen : Z; TopicID : Z }.

Definition no_entry : FreshnessEntry := mkFreshnessEntry 0 0 0.

Record FreshnessMonitor := mkFreshnessMonitor { entries : gmap Z FreshnessEntry; tol : Z }.

Definition NewFreshnessMonitor (tol : Z) : FreshnessMonitor :=
  mkFreshnessMonitor ∅ (if decide (tol <= 0) then 5 * Minute else tol).

(** [Record(topicID, seq)] at the time [now]. *)
Definition Record_ (topicID seq now : Z) (m : FreshnessMonitor) : FreshnessMonitor :=
  let entry := default no_entry (entries m !! topicID) in
  let last := if decide (seq > LastSeq entry) then seq else LastSeq entry in
  mkFreshnessMonitor (<[topicID := mkFreshnessEntry last now topicID]> (entries m)) (tol m).

(** [Check(topicID)]; the clock is read again for the message of the error, which
    writes the duration with [time.Duration.String]. *)
Definition Check_ (Duration_String : Z -> string) (topicID now now' : Z) (m : FreshnessMonitor)
    : FreshnessEntry * option error :=
  match entries m !! topicID with
  | None => (no_entry, Some (EWrap ("push: no freshness record for topic " +:+ itoa topicID +:+ ": push: not stale") ErrNotStale))
  | Some entry =>
      if decide (time_sub now (LastSeen entry) > tol m) then
        (entry, Some (EWrap ("push: topic " +:+ itoa topicID +:+ " is stale (last seen "
          +:+ Duration_String (time_sub now' (LastSeen entry)) +:+ " ago): push: not stale") ErrNotStale))
      else (entry, None)
  end.

Definition Clear (m : FreshnessMonitor) : FreshnessMonitor := mkFreshnessMonitor ∅ (tol m).

(** ** Histories *)
Inductive freshness_op := ORecord (topicID seq now : Z) | OClear.

Definition run_op (m : FreshnessMonitor) (o : freshness_op) : FreshnessMonitor :=
  match o with ORecord t s n => Record_ t s n m | OClear => Clear m end.

(** The activity of a topic since the last [Clear], oldest first. *)
Definition activity (t : Z) (h : list freshness_op) : list (Z * Z) :=
  foldl (fun l o => match o with
                    | OClear => []
                    | ORecord t' s n => if decide (t' = t) then l ++ [(s, n)] else l
                    end) [] h.

(** The entry a topic with that activity has. *)
Definition entry_for (t : Z) (l : list (Z * Z)) : option FreshnessEntry :=
  match last l with
  | None => None
  | Some (_, seen) => Some (mkFreshnessEntry (foldl Z.max 0 l.*1) seen t)
  end.

Lemma run_entries t tl h :
  let m := foldl run_op (NewFreshnessMonitor tl) h in
  entries m !! t = entry_for t (activity t h) /\ tol m = if decide (tl <= 0) then 5 * Minute else tl.
Proof.
  induction h as [|o h [IH1 IH2]] using rev_ind; [done |]. cbv zeta. unfold activity. rewrite !foldl_snoc.
  fold (activity t h). set (m := foldl run_op (NewFreshnessMonitor tl) h) in *.
  destruct o as [t' s n|]; simpl; [| by rewrite lookup_empty]. split; [| done].
  destruct (decide (t' = t)) as [->|Ht]; [| by rewrite lookup_insert_ne].
  rewrite lookup_insert_eq. unfold entry_for. rewrite last_snoc, fmap_app, foldl_app. simpl. do 2 f_equal.
  assert (Hl : LastSeq (default no_entry (entries m !! t)) = foldl Z.max 0 (activity t h).*1).
  { rewrite IH1. unfold entry_for. destruct (last (activity t h)) as [[]|] eqn:Hlast; [done |].
    by apply last_None in Hlast as ->. }
  rewrite Hl. clear IH2. case_decide; lia.
Qed.

(** After any history of records and clears, the entry of a topic carries the
    highest sequence number and the time of the last record since the last clear.
    [Check] reports it without error exactly when there is such a record and it is
    not older than the tolerance, five minutes when none was given; every error is
    an [ErrNotStale], and a stale topic still reports its entry. *)
Theorem freshness_exact Duration_String (tl : Z) (h : list freshness_op) (t now now' : Z) :
  let m := foldl run_op (NewFreshnessMonitor tl) h in
  let '(entry, err) := Check_ Duration_String t now now' m in
  entry = default no_entry (entry_for t (activity t h))
  /\ (err = None <-> exists e, entry_for t (activity t h) = Some e
        /\ time_sub now (LastSeen e) <= (if decide (tl <= 0) then 5 * Minute else tl))
  /\ (forall e, err = Some e -> errors_Is e "push: not stale" = true).
Proof.
  destruct (run_entries t tl h) as [He Ht]. cbv zeta. unfold Check_. rewrite He, Ht. clear Ht.
  destruct (entry_for t (activity t h)) as [e|]; simpl.
  - set (limit := if decide (tl <= 0) then 5 * Minute else tl). destruct (decide (time_sub now (LastSeen e) > limit)) as [Hs|Hs]; simpl.
    + split; [done |]. split; [| by intros ? [= <-]]. split; [done |]. intros (e' & [= <-] & Hle). lia.
    + split; [done |]. split; [| done]. split; [| done]. intros _. exists e. split; [done |]. fold limit. lia.
  - split; [done |]. split; [| by intros ? [= <-]]. split; [done | by intros (e & ? & _)].
Qed.

(** A topic that has been silent for six minutes under the default tolerance. *)
Example freshness_example :
  let m := foldl run_op (NewFreshnessMonitor 0) [ORecord 33 7 (1 * Minute); ORecord 33 0 (2 * Minute); ORecord 50 1 0] in
  fst (Check_ itoa 33 (8 * Minute) (8 * Minute) m) = mkFreshnessEntry 7 (2 * Minute) 33
  /\ is_Some (snd (Check_ itoa 33 (8 * Minute) (8 * Minute) m)) /\ snd (Check_ itoa 33 (7 * Minute) 0 m) = None.
Proof. cbv zeta. split; [reflexivity |]. split; [by eexists | reflexivity]. Qed.
