(* ===== verification/Released.v ===== *)
(** What the released packages [src/pkg/hstong/algo], [future] and [trade] share:
    their readers of numeric text, character by character, and what those readers
    accept, in terms of the value a text writes. *)
From Stdlib Require Import QArith.
From S2P Require Import Prelude Types Errs Domain Decimals Service.
Local Open Scope Z_scope.

(** ** The readers *)

(** The loop of [isPositiveDecimal]. *)
Fixpoint positive_scan (s : bytes) (intDigits fracDigits : Z) (dot nonzero : bool) : bool :=
  match s with
  | [] => if decide (intDigits = 0) then false else if dot && bool_decide (fracDigits = 0) then false else nonzero
  | c :: s =>
      if is_dig c then
        let nonzero := nonzero || negb (bool_decide (c = "0"%char)) in
        if dot then positive_scan s intDigits (fracDigits + 1) dot nonzero
        else positive_scan s (intDigits + 1) fracDigits dot nonzero
      else if decide (c = "."%char) then
        if dot then false else positive_scan s intDigits fracDigits true nonzero
      else false
  end.

Definition isPositiveDecimal (s : string) : bool :=
  if decide (s = "") then false else positive_scan (text s) 0 0 false false.

(** The loop of [isPositiveInt]. *)
Fixpoint int_scan (s : bytes) (nonzero : bool) : bool :=
  match s with
  | [] => nonzero
  | c :: s => if is_dig c then int_scan s (nonzero || negb (bool_decide (c = "0"%char))) else false
  end.

Definition isPositiveInt (s : string) : bool := if decide (s = "") then false else int_scan (text s) false.

Definition isDate (s : string) : bool :=
  if decide (length (text s) = 8%nat) then forallb is_dig (text s) else false.

(** [regexp.MustCompile(`^[0-9]+(\.[0-9]+)?$`)] and [`^[0-9]{8}$`]. *)
Definition decimalPattern (s : string) : bool :=
  let b := text s in
  let n := span is_dig b in
  bool_decide (n <> 0%nat) &&
  match drop n b with
  | [] => true
  | c :: f => bool_decide (c = "."%char) && (bool_decide (f <> []) && forallb is_dig f)
  end.

Definition datePattern (s : string) : bool :=
  bool_decide (length (text s) = 8%nat) && forallb is_dig (text s).

Definition isZeroDecimal (s : string) : bool :=
  forallb (fun c => bool_decide (c = "0"%char) || bool_decide (c = "."%char)) (text s).

Example readers_examples :
  map isPositiveDecimal ["12.50"; "0.001"; "0.0"; "1."; ".5"; "1e3"; "-1"; "1/2"; ""]
    = [true; true; false; false; false; false; false; false; false]
  /\ map decimalPattern ["12.50"; "0"; "1."; "1.2.3"; ""] = [true; true; false; false; false]
  /\ map isPositiveInt ["007"; "000"; "1.0"] = [true; false; false].
Proof. vm_compute. auto. Qed.

(** ** Digits *)
Lemma is_dig_checked :
  forallb (fun c => Bool.eqb (is_dig c) (bool_decide (is_Some (digit_value c)))
    && implb (bool_decide (digit_value c = Some 0)) (bool_decide (c = "0"%char))) all_ascii = true.
Proof. vm_compute. reflexivity. Qed.

Lemma is_dig_value c : is_dig c = true <-> is_Some (digit_value c).
Proof.
  pose proof (ascii_forall _ is_dig_checked c) as H. apply andb_true_iff in H as [H _]. apply Bool.eqb_prop in H. rewrite H. apply bool_decide_eq_true.
Qed.

Lemma digit_value_nonneg c d : digit_value c = Some d -> 0 <= d /\ (d = 0 <-> c = "0"%char).
Proof.
  intros Hd. assert (Hr : 0 <= d) by (unfold digit_value in Hd; case_decide; simplify_eq; lia).
  split; [done |]. split.
  - intros ->. pose proof (ascii_forall _ is_dig_checked c) as H. apply andb_true_iff in H as [_ H]. rewrite bool_decide_eq_true_2 in H by done. by apply bool_decide_eq_true in H.
  - intros ->. by injection Hd as <-.
Qed.

Lemma forallb_digits s : forallb is_dig s = true <-> all_digits s.
Proof.
  unfold all_digits. rewrite forallb_forall, Forall_forall. setoid_rewrite is_dig_value.
  split; intros H c Hc; apply H; by apply list_elem_of_In.
Qed.

Definition nonzero_in (s : bytes) : Prop := Exists (fun c => c <> "0"%char) s.

(** A text of digits writes a positive number when one of them is not zero. *)
Lemma digits_positive acc s z : 0 <= acc -> digits_value acc s = Some z ->
  0 <= z /\ (0 < z <-> 0 < acc \/ nonzero_in s).
Proof.
  revert acc. induction s as [|c s IH]; intros acc Ha; cbn [digits_value].
  { intros [= <-]. split; [done |]. split; [by left |]. intros [?|Hn]; [done | by apply Exists_nil in Hn]. }
  destruct (digit_value c) as [d|] eqn:Hc; [|done]. cbn [mbind option_bind]. intros Hs.
  destruct (digit_value_nonneg c d Hc) as [Hd Hz]. destruct (IH (acc * 10 + d) ltac:(lia) Hs) as [H0 H1].
  split; [done |]. rewrite H1. unfold nonzero_in. rewrite Exists_cons.
  split; intros [Hp|Hn]; auto.
  - destruct (decide (d = 0)) as [->|]; [left; lia | right; left; by rewrite <- Hz].
  - left. lia.
  - destruct Hn as [Hn|Hn]; [left | by right]. assert (d <> 0) by (by rewrite Hz). lia.
Qed.

(** ** Plain numerals

    The texts [numeral_value] reads: digits, or digits, a point and digits. *)
Inductive numeral : bytes -> bytes -> bytes -> Prop :=
  | numeral_int a : a <> [] -> all_digits a -> numeral a a []
  | numeral_frac a f : a <> [] -> f <> [] -> all_digits a -> all_digits f -> numeral (a ++ "."%char :: f) a f.

Lemma all_digits_read a f : all_digits a -> all_digits f -> exists z, digits_value 0 (a ++ f) = Some z.
Proof. intros Ha Hf. apply digits_value_all. by apply Forall_app. Qed.

Lemma numeral_read s a f : numeral s a f -> exists z, digits_value 0 (a ++ f) = Some z
  /\ numeral_value (str s) = Some (z # Z.to_pos (10 ^ Z.of_nat (length f))).
Proof.
  destruct 1 as [a Hne Ha|a f Hne Hf Ha Hd].
  - destruct (all_digits_read a [] Ha (Forall_nil_2 _)) as [z Hz]. exists z. split; [done |].
    rewrite app_nil_r in Hz. by apply numeral_digits.
  - destruct (all_digits_read a f Ha Hd) as [z Hz]. exists z. split; [done |]. by apply numeral_point.
Qed.

Lemma span_not_dot s : Forall (fun c => not_dot c = true) (take (span not_dot s) s)
  /\ (drop (span not_dot s) s = [] \/ exists f, drop (span not_dot s) s = "."%char :: f).
Proof.
  induction s as [|c s [IH1 IH2]]; simpl; [by split; [constructor | left] |].
  destruct (not_dot c) eqn:Hc; simpl.
  - split; [by constructor | done].
  - split; [constructor | right]. unfold not_dot in Hc. apply negb_false_iff, bool_decide_eq_true in Hc as ->.
    by exists s.
Qed.

Lemma numeral_of s q : numeral_value (str s) = Some q -> exists a f, numeral s a f.
Proof.
  unfold numeral_value. rewrite text_str. destruct (span_not_dot s) as [_ Hd].
  pose proof (take_drop (span not_dot s) s) as Hs. set (n := span not_dot s) in *.
  case_decide as Hbad; [done |]. intros Hv.
  assert (Ha : take n s <> []) by (intros ?; apply Hbad; by left).
  assert (Hall : all_digits (take n s ++ drop (S n) s)).
  { apply (digits_value_all 0). destruct (digits_value 0 _) as [z|]; [eauto | done]. }
  apply Forall_app in Hall as [Hda Hdf].
  destruct Hd as [Hd|[f Hd]].
  - exists s, []. rewrite Hd, app_nil_r in Hs. rewrite Hs in Ha, Hda. by apply numeral_int.
  - replace (drop (S n) s) with f in Hdf by (replace (S n) with (n + 1)%nat by lia; rewrite <- drop_drop, Hd; done).
    exists (take n s), f. rewrite <- Hs at 1. rewrite Hd. apply numeral_frac; try done.
    intros ->. apply Hbad. right. rewrite Hd. split; [done |].
    replace (S n) with (n + 1)%nat by lia. by rewrite <- drop_drop, Hd.
Qed.

(** The value of a numeral is positive when a digit is not zero. *)
Lemma numeral_positive s a f : numeral s a f ->
  exists q, numeral_value (str s) = Some q /\ (0 <= q)%Q /\ ((0 < q)%Q <-> nonzero_in (a ++ f)).
Proof.
  intros Hn. destruct (numeral_read s a f Hn) as (z & Hz & Hv). eexists. split; [exact Hv |].
  destruct (digits_positive 0 _ z ltac:(lia) Hz) as [H0 H1]. unfold Qle, Qlt. simpl. split; [lia |].
  rewrite <- (or_False (nonzero_in _)). rewrite Z.mul_1_r. rewrite H1. split; [intros [?|?]; [lia | auto] | intros [?|[]]; auto].
Qed.

(** ** What the readers accept *)
Lemma not_zero c : negb (bool_decide (c = "0"%char)) = true <-> c <> "0"%char.
Proof. rewrite negb_true_iff. apply bool_decide_eq_false. Qed.

Lemma nonzero_step nz c s :
  (nz || negb (bool_decide (c = "0"%char)) = true \/ nonzero_in s) <-> (nz = true \/ nonzero_in (c :: s)).
Proof. unfold nonzero_in. rewrite Exists_cons, orb_true_iff, not_zero. tauto. Qed.

Lemma not_digit_dot : is_dig "."%char = false.
Proof. reflexivity. Qed.

Lemma all_digits_cons c s : all_digits (c :: s) <-> is_dig c = true /\ all_digits s.
Proof. unfold all_digits. by rewrite Forall_cons, is_dig_value. Qed.

Lemma scan_fraction s i f nz : 0 < i -> 0 <= f ->
  positive_scan s i f true nz = true
  <-> all_digits s /\ 0 < f + Z.of_nat (length s) /\ (nz = true \/ nonzero_in s).
Proof.
  intros Hi. revert f nz. induction s as [|c s IH]; intros f nz Hf; cbn [positive_scan length].
  { rewrite decide_False by lia. destruct (decide (f = 0)) as [->|Hf0]; simpl.
    - split; [done | intros (_ & ? & _); lia].
    - rewrite bool_decide_eq_false_2 by done. unfold nonzero_in. rewrite Exists_nil.
      split; [intros ->; split; [constructor | split; [lia | by left]] | by intros (_ & _ & [?|[]])]. }
  rewrite all_digits_cons. destruct (is_dig c) eqn:Hc.
  - rewrite IH by lia. rewrite nonzero_step. split; intros (? & ? & ?); repeat split; try done; try lia; tauto.
  - assert (Hno : forall b : bool, b = false -> b = true <-> (false = true /\ all_digits s) /\ 0 < f + Z.of_nat (S (length s))
      /\ (nz = true \/ nonzero_in (c :: s))) by (intros b ->; split; [done | by intros [[? _] _]]).
    case_decide; by apply Hno.
Qed.

Lemma scan_no_digits s f nz : positive_scan s 0 f true nz = false.
Proof.
  revert f nz. induction s as [|c s IH]; intros f nz; cbn [positive_scan]; [done |].
  destruct (is_dig c); [apply IH | by case_decide].
Qed.

Lemma digits_no_dot a (f : bytes) s : all_digits a -> "."%char :: s = a ++ f -> a = [].
Proof.
  intros Ha He. destruct a as [|c a]; [done |]. injection He as <- _.
  apply all_digits_cons in Ha as [Ha _]. by rewrite not_digit_dot in Ha.
Qed.

Lemma scan_numeral s i nz : 0 <= i ->
  positive_scan s i 0 false nz = true
  <-> exists a f, (s = a /\ f = [] \/ s = a ++ "."%char :: f /\ f <> [])
        /\ all_digits a /\ all_digits f /\ 0 < i + Z.of_nat (length a) /\ (nz = true \/ nonzero_in (a ++ f)).
Proof.
  revert i nz. induction s as [|c s IH]; intros i nz Hi; cbn [positive_scan].
  { destruct (decide (i = 0)) as [->|Hi0]; simpl.
    - split; [done |]. intros (a & f & [[<- ->]|[Hs _]] & _ & _ & ? & _); [simpl in *; lia | by destruct a].
    - split.
      + intros ->. exists [], []. split; [by left |]. do 2 (split; [apply Forall_nil_2 |]). split; [simpl; lia | by left].
      + intros (a & f & [[<- ->]|[Hs _]] & _ & _ & _ & [?|Hn]); [done | by apply Exists_nil in Hn | done | by destruct a]. }
  destruct (is_dig c) eqn:Hc.
  - rewrite IH by lia. split.
    + intros (a & f & Hs & Ha & Hf & Hl & Hn). exists (c :: a), f. split; [|split; [|split; [done |split]]].
      * destruct Hs as [[-> ->]|[-> ?]]; [by left | by right].
      * by apply all_digits_cons.
      * cbn [length]. lia.
      * by apply nonzero_step.
    + intros (a & f & Hs & Ha & Hf & Hl & Hn). destruct a as [|c' a].
      { destruct Hs as [[? _]|[[= -> ->] _]]; [done | by rewrite not_digit_dot in Hc]. }
      assert (Hcc : c' = c /\ (s = a /\ f = [] \/ s = a ++ "."%char :: f /\ f <> []))
        by (destruct Hs as [[[= -> ->] ->]|[[= -> ->] ?]]; auto).
      destruct Hcc as [-> Hs']. exists a, f. split; [done |]. apply all_digits_cons in Ha as [_ Ha].
      split; [done |]. split; [done |]. split; [cbn [length] in Hl; lia | by apply nonzero_step].
  - case_decide as Hd.
    + subst c. destruct (decide (i = 0)) as [->|Hi0].
      { split.
        - by rewrite scan_no_digits.
        - intros (a & f & Hs & Ha & _ & Hl & _). assert (a = []) as ->; [| simpl in Hl; lia].
          destruct Hs as [[Hs _]|[Hs _]]; [apply (digits_no_dot a [] s); by rewrite ?app_nil_r | by eapply digits_no_dot]. }
      rewrite scan_fraction by lia. split.
      * intros (Hs & Hl & Hn). exists [], s. split; [right; split; [done | by intros ->] |].
        split; [apply Forall_nil_2 |]. split; [done |]. split; [simpl; lia | done].
      * intros (a & f & Hs & Ha & Hf & _ & Hn). assert (a = []) as ->.
        { destruct Hs as [[Hs _]|[Hs _]]; [apply (digits_no_dot a [] s); by rewrite ?app_nil_r | by eapply digits_no_dot]. }
        destruct Hs as [[? _]|[[= ->] Hne]]; [done |]. split; [done |]. split; [destruct f; [done | simpl; lia] | done].
    + split; [done |]. intros (a & f & Hs & Ha & _). destruct a as [|c' a].
      * destruct Hs as [[? _]|[[= ->] _]]; done.
      * apply all_digits_cons in Ha as [Ha _]. destruct Hs as [[[= <- _] _]|[[= <- _] _]]; congruence.
Qed.

(** The text writes a positive number. *)
Definition writes_positive (s : string) : Prop := exists q, numeral_value s = Some q /\ (0 < q)%Q.

Lemma isPositiveDecimal_spec s : isPositiveDecimal s = true <-> writes_positive s.
Proof.
  unfold isPositiveDecimal, writes_positive. case_decide as Hs.
  { subst s. split; [done | by intros (q & ? & _)]. }
  rewrite scan_numeral by lia. split.
  - intros (a & f & Hb & Ha & Hf & Hl & [?|Hn]); [done |].
    assert (Hnum : numeral (text s) a f).
    { assert (a <> []) by (intros ->; simpl in Hl; lia).
      destruct Hb as [[-> ->]|[-> ?]]; [by apply numeral_int | by apply numeral_frac]. }
    destruct (numeral_positive _ _ _ Hnum) as (q & Hq & _ & Hp). rewrite str_text in Hq.
    exists q. split; [done | by apply Hp].
  - intros (q & Hq & Hp). rewrite <- (str_text s) in Hq. destruct (numeral_of _ _ Hq) as (a & f & Hn).
    destruct (numeral_positive _ _ _ Hn) as (q' & Hq' & _ & Hp'). rewrite Hq in Hq'. injection Hq' as <-.
    exists a, f. destruct Hn as [a Hne Ha|a f Hne Hfe Ha Hf].
    + split; [by left |]. split; [done |]. split; [apply Forall_nil_2 |].
      split; [destruct a; [done | simpl; lia] | right; by apply Hp'].
    + split; [by right |]. split; [done |]. split; [done |].
      split; [destruct a; [done | simpl; lia] | right; by apply Hp'].
Qed.

Lemma span_digits s : all_digits (take (span is_dig s) s)
  /\ match drop (span is_dig s) s with [] => True | c :: _ => is_dig c = false end.
Proof.
  induction s as [|c s [IH1 IH2]]; cbn [span]; [split; [apply Forall_nil_2 | done] |].
  destruct (is_dig c) eqn:Hc; [| split; [apply Forall_nil_2 | done]].
  cbn [take drop]. split; [by apply all_digits_cons | done].
Qed.

Lemma decimalPattern_spec s : decimalPattern s = true <-> is_Some (numeral_value s).
Proof.
  unfold decimalPattern. destruct (span_digits (text s)) as [Hd Hr].
  pose proof (take_drop (span is_dig (text s)) (text s)) as Hs. set (n := span is_dig (text s)) in *.
  rewrite andb_true_iff, bool_decide_eq_true.
  assert (Hlen : n <> 0%nat -> take n (text s) <> []).
  { intros Hn Ht. assert (text s = []) as He by (destruct n; [done | by destruct (text s)]). subst n. by rewrite He in Hn. }
  split.
  - intros [Hn Hm]. destruct (drop n (text s)) as [|c f] eqn:Hdr.
    + rewrite app_nil_r in Hs. destruct (numeral_read _ _ _ (numeral_int _ (Hlen Hn) Hd)) as (z & _ & Hv).
      rewrite Hs, str_text in Hv. by rewrite Hv.
    + apply andb_true_iff in Hm as [Hc%bool_decide_eq_true Hf]. apply andb_true_iff in Hf as [Hf%bool_decide_eq_true Ha].
      subst c. apply forallb_digits in Ha. destruct (numeral_read _ _ _ (numeral_frac _ _ (Hlen Hn) Hf Hd Ha)) as (z & _ & Hv).
      rewrite Hs, str_text in Hv. by rewrite Hv.
  - intros [q Hq]. rewrite <- (str_text s) in Hq. destruct (numeral_of _ _ Hq) as (a & f & Hn). subst n.
    inversion Hn as [a' Hne Ha Hb Haa|a' f' Hne Hfe Ha Hf Hb Haa]; subst.
    + rewrite (span_all is_dig) in * by (eapply Forall_impl; [exact Ha | intros ?; apply is_dig_value]).
      rewrite drop_all. split; [by destruct (text s) | done].
    + assert (Hspan : span is_dig (a ++ "."%char :: f) = length a).
      { clear -Ha. induction a as [|c a IH]; [done |]. apply all_digits_cons in Ha as [Hc Ha]. simpl. by rewrite Hc, IH. }
      rewrite Hspan, drop_app_length. split; [by destruct a |]. rewrite bool_decide_eq_true_2 by done. simpl.
      rewrite bool_decide_eq_true_2 by done. by apply forallb_digits.
Qed.

Lemma zero_text_digits a : all_digits a ->
  forallb (fun c => bool_decide (c = "0"%char) || bool_decide (c = "."%char)) a = false <-> nonzero_in a.
Proof.
  unfold nonzero_in. induction a as [|c a IH]; intros Ha; simpl.
  { split; [done | by intros ?%Exists_nil]. }
  apply all_digits_cons in Ha as [Hc Ha]. specialize (IH Ha). rewrite Exists_cons, <- IH.
  rewrite (bool_decide_eq_false_2 (c = "."%char)) by (intros ->; by rewrite not_digit_dot in Hc). rewrite orb_false_r.
  case_bool_decide; simpl; naive_solver.
Qed.

Lemma isZeroDecimal_spec s q : numeral_value s = Some q -> isZeroDecimal s = false <-> (0 < q)%Q.
Proof.
  intros Hq. rewrite <- (str_text s) in Hq. destruct (numeral_of _ _ Hq) as (a & f & Hn).
  destruct (numeral_positive _ _ _ Hn) as (q' & Hq' & _ & Hp). rewrite Hq in Hq'. injection Hq' as <-. rewrite Hp.
  unfold isZeroDecimal. destruct Hn as [a Hne Ha|a f Hne Hfe Ha Hf].
  - rewrite app_nil_r. by apply zero_text_digits.
  - rewrite <- zero_text_digits by (by apply Forall_app). rewrite !forallb_app. simpl. done.
Qed.

Lemma isPositiveInt_spec s : isPositiveInt s = true <-> exists z, digits_value 0 (text s) = Some z /\ 0 < z.
Proof.
  assert (Hscan : forall b nz, int_scan b nz = true <-> all_digits b /\ (nz = true \/ nonzero_in b)).
  { induction b as [|c b IH]; intros nz; cbn [int_scan].
    - unfold nonzero_in. rewrite Exists_nil. split; [intros ->; split; [apply Forall_nil_2 | by left] | by intros [_ [?|[]]]].
    - rewrite all_digits_cons. destruct (is_dig c); [rewrite IH, nonzero_step; tauto | split; [done | by intros [[? _] _]]]. }
  unfold isPositiveInt. case_decide as Hs.
  { subst s. split; [done | intros (z & [= <-] & ?); lia]. }
  rewrite Hscan. split.
  - intros [Ha [?|Hn]]; [done |]. destruct (all_digits_read _ [] Ha (Forall_nil_2 _)) as [z Hz].
    rewrite app_nil_r in Hz. exists z. split; [done |]. destruct (digits_positive 0 _ z ltac:(lia) Hz) as [_ H].
    apply H. by right.
  - intros (z & Hz & Hp). destruct (digits_positive 0 _ z ltac:(lia) Hz) as [_ H].
    split; [apply (digits_value_all 0); eauto |]. right. apply H in Hp as [?|?]; [lia | done].
Qed.

(** Eight digits. *)
Definition date_shaped (s : string) : Prop := length (text s) = 8%nat /\ all_digits (text s).

Lemma isDate_spec s : isDate s = true <-> date_shaped s.
Proof. unfold isDate, date_shaped. rewrite <- forallb_digits. case_decide; naive_solver. Qed.

Lemma datePattern_spec s : datePattern s = true <-> date_shaped s.
Proof. unfold datePattern, date_shaped. by rewrite andb_true_iff, bool_decide_eq_true, forallb_digits. Qed.
