(* ===== verification/FutureReleased.v ===== *)
(** The released futures package, [src/pkg/hstong/future/future.go]: its eleven
    methods, what they accept, and the futures service of [Futures] as a
    replacement that sends the same requests. *)
From Stdlib Require Import QArith.
From S2P Require Import Prelude Types Errs Retry Routes Domain Decimals Service Released.
From S2P Require Futures.
Local Open Scope Z_scope.
Local Open Scope go_scope.

Definition opQueryProductInfo : string := "trade/FuturesQueryProductInfo".
Definition opQueryMaxBuySellAmount : string := "trade/FuturesQueryMaxBuySellAmount".
Definition opQueryFundInfo : string := "trade/FuturesQueryFundInfo".
Definition opQueryHoldsList : string := "trade/FuturesQueryHoldsList".
Definition opEntrust : string := "trade/FuturesEntrust".
Definition opCancelEntrust : string := "trade/FuturesCancelEntrust".
Definition opModifyEntrust : string := "trade/FuturesModifyEntrust".
Definition opQueryRealEntrustList : string := "trade/FuturesQueryRealEntrustList".
Definition opQueryHistoryEntrust : string := "trade/FuturesQueryHistoryEntrustList".
Definition opQueryRealDeliverList : string := "trade/FuturesQueryRealDeliverList".
Definition opQueryHistoryDeliver : string := "trade/FuturesQueryHistoryDeliverList".

Definition DefaultPageSize : Z := 20.
Definition defaultPageNo : Z := 1.
Definition entrustTypeMarket : string := "2".
Definition maxPageSizeExclusive : Z := 100.

(** ** The manager *)
Record config := mkConfig { cf_defaultPageSize : Z }.

Definition defaultConfig : config := mkConfig DefaultPageSize.

Inductive Option := WithDefaultPageSize (size : Z).

Definition apply_option (c : config) (o : option Option) : config :=
  match o with
  | None => c
  | Some (WithDefaultPageSize size) =>
      mkConfig (if decide (size <= 0 \/ size >= maxPageSizeExclusive) then DefaultPageSize else size)
  end.

(** The client of a manager is the executor its methods take. *)
Record Manager := mkManager { defaultPageSize : Z }.

Definition New (opts : list (option Option)) : Manager :=
  mkManager (cf_defaultPageSize (foldl apply_option defaultConfig opts)).

(** ** Validation *)
Abbreviation checks := (outcome (option error)).

Definition invalidParam (op message : string) : error := Errs.New StatusInvalidParam op message.

Definition validateStockCode (op code : string) : checks :=
  let trimmed := TrimSpace (text code) in
  require (trimmed <> []) op "stockCode must not be empty" ;?;
  require (contains_any trimmed blank_chars = false) op "stockCode must not contain whitespace".

Definition validateQuantity (op field q : string) : checks :=
  require (decimalPattern q = true) op (field +:+ " must be a non-negative decimal number") ;?;
  require (isZeroDecimal q = false) op (field +:+ " must be greater than zero").

Definition validatePrice (op field price : string) (required : bool) : checks :=
  if decide (price = "") then
    if required then Ret (Some (invalidParam op (field +:+ " is required"))) else Ret None
  else require (decimalPattern price = true) op (field +:+ " must be a non-negative decimal number").

Definition validateEntrustBS (op bs : string) : checks :=
  require (bs ∈ [EntrustBuy; EntrustSell]) op
    ("entrustBs must be 1 (buy) or 2 (sell) on the futures endpoint; "
     +:+ "3 and 4 are cash-only values - see docs/SPEC.md 7.4").

Definition validateDate (op field date : string) : checks :=
  require (datePattern date = true) op (field +:+ " must be yyyyMMdd") ;?;
  require (is_Some (parse_date date)) op (field +:+ " must be a valid calendar date").

Definition validateValidTime (op validTimeType validTime : string) : checks :=
  if decide (validTime = "") then
    require (validTimeType <> "4") op "validTime is required when validTimeType is 4"
  else validateDate op "validTime" validTime.

(** ** Requests *)
Record QueryProductInfoRequest := mkProductInfoRequest { StockCodes : list string }.
Record QueryMaxBuySellAmountRequest := mkMaxRequest { mx_StockCode : string }.

Record EntrustRequest := mkEntrustRequest {
  er_StockCode : string; er_EntrustType : string; er_EntrustPrice : string; er_EntrustAmount : string;
  er_EntrustBS : string; er_ValidTimeType : string; er_ValidTime : string; er_OrderOptions : string;
}.

Record ModifyEntrustRequest := mkModifyEntrustRequest {
  mr_EntrustID : string; mr_StockCode : string; mr_EntrustPrice : string; mr_EntrustAmount : string;
  mr_EntrustBS : string; mr_ValidTimeType : string; mr_ValidTime : string; mr_OrderOptions : string;
}.

Record CancelEntrustRequest := mkCancelEntrustRequest { cr_EntrustID : string; cr_StockCode : string }.

Record HistoryQueryRequest := mkHistoryQuery {
  hq_PageNo : Z; hq_PageSize : Z; hq_StartDate : string; hq_EndDate : string;
}.

(** The JSON of each request. *)
Definition product_body (r : QueryProductInfoRequest) : body := [("stockCode", JArr (map JStr (StockCodes r)))].
Definition max_body (r : QueryMaxBuySellAmountRequest) : body := [("stockCode", JStr (mx_StockCode r))].

Definition entrust_body (r : EntrustRequest) : body :=
  str_field "stockCode" (er_StockCode r) ++ str_omitempty "entrustType" (er_EntrustType r)
  ++ str_omitempty "entrustPrice" (er_EntrustPrice r) ++ str_field "entrustAmount" (er_EntrustAmount r)
  ++ str_field "entrustBs" (er_EntrustBS r) ++ str_omitempty "validTimeType" (er_ValidTimeType r)
  ++ str_omitempty "validTime" (er_ValidTime r) ++ str_omitempty "orderOptions" (er_OrderOptions r).

Definition modify_body (r : ModifyEntrustRequest) : body :=
  str_field "entrustId" (mr_EntrustID r) ++ str_field "stockCode" (mr_StockCode r)
  ++ str_field "entrustPrice" (mr_EntrustPrice r) ++ str_field "entrustAmount" (mr_EntrustAmount r)
  ++ str_field "entrustBs" (mr_EntrustBS r) ++ str_omitempty "validTimeType" (mr_ValidTimeType r)
  ++ str_omitempty "validTime" (mr_ValidTime r) ++ str_omitempty "orderOptions" (mr_OrderOptions r).

Definition cancel_body (r : CancelEntrustRequest) : body :=
  [("entrustId", JStr (cr_EntrustID r)); ("stockCode", JStr (cr_StockCode r))].

Definition history_body (r : HistoryQueryRequest) : body :=
  int_omitempty "pageNo" (hq_PageNo r) ++ int_omitempty "pageSize" (hq_PageSize r)
  ++ str_omitempty "startDate" (hq_StartDate r) ++ str_omitempty "endDate" (hq_EndDate r).

(** ** Methods

    A reply is the struct the codec filled; it is returned as it is. *)
Section methods.
Context {W Raw : Type} (X : executor W Raw) (m : Manager).

Definition replied (raw : Raw) : outcome Raw := Ret raw.

Definition QueryProductInfo (req : QueryProductInfoRequest) (w : W) : result W Raw :=
  guard (require (StockCodes req <> []) opQueryProductInfo "stockCode must contain at least one contract code" ;?;
         all_checks (validateStockCode opQueryProductInfo) (StockCodes req)) w
    (call X opQueryProductInfo RouteTradeFuturesQueryProductInfo (product_body req) w replied).

Definition QueryMaxBuySellAmount (req : QueryMaxBuySellAmountRequest) (w : W) : result W Raw :=
  guard (validateStockCode opQueryMaxBuySellAmount (mx_StockCode req)) w
    (call X opQueryMaxBuySellAmount RouteTradeFuturesQueryMaxBuySellAmount (max_body req) w replied).

Definition QueryFundInfo (w : W) : result W Raw :=
  call X opQueryFundInfo RouteTradeFuturesQueryFundInfo [] w replied.

Definition QueryHoldsList (w : W) : result W Raw :=
  call X opQueryHoldsList RouteTradeFuturesQueryHoldsList [] w replied.

Definition Entrust_checks (req : EntrustRequest) : checks :=
  validateStockCode opEntrust (er_StockCode req) ;?;
  validateEntrustBS opEntrust (er_EntrustBS req) ;?;
  validateQuantity opEntrust "entrustAmount" (er_EntrustAmount req) ;?;
  validatePrice opEntrust "entrustPrice" (er_EntrustPrice req) (bool_decide (er_EntrustType req <> entrustTypeMarket)) ;?;
  validateValidTime opEntrust (er_ValidTimeType req) (er_ValidTime req).

Definition Entrust (req : EntrustRequest) (w : W) : result W Raw :=
  guard (Entrust_checks req) w (call X opEntrust RouteTradeFuturesEntrust (entrust_body req) w replied).

Definition CancelEntrust (req : CancelEntrustRequest) (w : W) : result W Raw :=
  guard (require (TrimSpace (text (cr_EntrustID req)) <> []) opCancelEntrust "entrustId must not be empty" ;?;
         validateStockCode opCancelEntrust (cr_StockCode req)) w
    (call X opCancelEntrust RouteTradeFuturesCancelEntrust (cancel_body req) w replied).

Definition ModifyEntrust_checks (req : ModifyEntrustRequest) : checks :=
  require (TrimSpace (text (mr_EntrustID req)) <> []) opModifyEntrust "entrustId must not be empty" ;?;
  validateStockCode opModifyEntrust (mr_StockCode req) ;?;
  validateQuantity opModifyEntrust "entrustAmount" (mr_EntrustAmount req) ;?;
  validatePrice opModifyEntrust "entrustPrice" (mr_EntrustPrice req) true ;?;
  validateEntrustBS opModifyEntrust (mr_EntrustBS req) ;?;
  validateValidTime opModifyEntrust (mr_ValidTimeType req) (mr_ValidTime req).

Definition ModifyEntrust (req : ModifyEntrustRequest) (w : W) : result W Raw :=
  guard (ModifyEntrust_checks req) w (call X opModifyEntrust RouteTradeFuturesModifyEntrust (modify_body req) w replied).

Definition QueryRealEntrustList (w : W) : result W Raw :=
  call X opQueryRealEntrustList RouteTradeFuturesQueryRealEntrustList [] w replied.

Definition QueryRealDeliverList (w : W) : result W Raw :=
  call X opQueryRealDeliverList RouteTradeFuturesQueryRealDeliverList [] w replied.

(** [historyParams]: the request with its defaults and its checks. The default page
    size is converted to [int32]. *)
Definition history_defaults (req : HistoryQueryRequest) : HistoryQueryRequest :=
  mkHistoryQuery (if decide (hq_PageNo req <= 0) then defaultPageNo else hq_PageNo req)
    (if decide (hq_PageSize req <= 0) then swrap 32 (defaultPageSize m) else hq_PageSize req)
    (hq_StartDate req) (hq_EndDate req).

Definition historyParams (op : string) (req : HistoryQueryRequest) : checks :=
  require (hq_PageSize req < maxPageSizeExclusive) op "pageSize must be below 100" ;?;
  (if decide (hq_StartDate req <> "") then validateDate op "startDate" (hq_StartDate req) else Ret None) ;?;
  (if decide (hq_EndDate req <> "") then validateDate op "endDate" (hq_EndDate req) else Ret None).

Definition QueryHistoryEntrustList (req : HistoryQueryRequest) (w : W) : result W Raw :=
  let params := history_defaults req in
  guard (historyParams opQueryHistoryEntrust params) w
    (call X opQueryHistoryEntrust RouteTradeFuturesQueryHistoryEntrustList (history_body params) w replied).

Definition QueryHistoryDeliverList (req : HistoryQueryRequest) (w : W) : result W Raw :=
  let params := history_defaults req in
  guard (historyParams opQueryHistoryDeliver params) w
    (call X opQueryHistoryDeliver RouteTradeFuturesQueryHistoryDeliverList (history_body params) w replied).
End methods.

(** ** What the checks accept *)
Lemma code_accepted op code : validateStockCode op code = Ret None <-> code_ok code.
Proof. exact (stock_code_check op code). Qed.

Lemma quantity_accepted op field q : validateQuantity op field q = Ret None <-> writes_positive q.
Proof.
  unfold validateQuantity, writes_positive. rewrite and_then_ok, !require_ok, decimalPattern_spec. split.
  - intros [[v Hv] Hz]. exists v. split; [done |]. by apply (isZeroDecimal_spec q).
  - intros (v & Hv & Hp). split; [eauto |]. by apply (isZeroDecimal_spec q v).
Qed.

Lemma future_price_accepted op field p required :
  validatePrice op field p required = Ret None <-> (p = "" /\ required = false) \/ is_Some (numeral_value p).
Proof.
  unfold validatePrice. case_decide as Hp.
  - subst p. destruct required; split; try done; [intros [[_ ?]|[q Hq]]; done | by left].
  - rewrite require_ok, decimalPattern_spec. split; [by right | by intros [[? _]|?]].
Qed.

Lemma date_accepted op field d : validateDate op field d = Ret None <-> day_ok d.
Proof.
  unfold validateDate. rewrite and_then_ok, !require_ok, date_parses, datePattern_spec. split; [by intros [_ ?] |].
  intros Hd. split; [| done]. destruct (day_shaped d Hd) as [Hl Hds]. split; [done | by apply forallb_digits].
Qed.

Definition expiry_ok (validTimeType validTime : string) : Prop :=
  validTime = "" /\ validTimeType <> "4" \/ day_ok validTime.

Lemma expiry_accepted op t v : validateValidTime op t v = Ret None <-> expiry_ok t v.
Proof.
  unfold validateValidTime, expiry_ok. pose proof Futures.day_not_empty.
  case_decide as Hv; [subst v; rewrite require_ok | rewrite date_accepted]; tauto.
Qed.

Definition entrust_ok (r : EntrustRequest) : Prop :=
  code_ok (er_StockCode r) /\ er_EntrustBS r ∈ ["1"; "2"] /\ writes_positive (er_EntrustAmount r)
  /\ (er_EntrustPrice r = "" /\ er_EntrustType r = "2" \/ is_Some (numeral_value (er_EntrustPrice r)))
  /\ expiry_ok (er_ValidTimeType r) (er_ValidTime r).

Definition modify_ok (r : ModifyEntrustRequest) : Prop :=
  id_ok (mr_EntrustID r) /\ code_ok (mr_StockCode r) /\ writes_positive (mr_EntrustAmount r)
  /\ is_Some (numeral_value (mr_EntrustPrice r)) /\ mr_EntrustBS r ∈ ["1"; "2"]
  /\ expiry_ok (mr_ValidTimeType r) (mr_ValidTime r).

Lemma future_entrust_accepted r : Entrust_checks r = Ret None <-> entrust_ok r.
Proof.
  unfold Entrust_checks, entrust_ok, validateEntrustBS.
  rewrite !and_then_ok, code_accepted, require_ok, quantity_accepted, future_price_accepted, expiry_accepted.
  rewrite bool_decide_eq_false. unfold entrustTypeMarket, EntrustBuy, EntrustSell.
  destruct (decide (er_EntrustType r = "2")); tauto.
Qed.

Lemma modify_accepted r : ModifyEntrust_checks r = Ret None <-> modify_ok r.
Proof.
  unfold ModifyEntrust_checks, modify_ok, validateEntrustBS, id_ok.
  rewrite !and_then_ok, !require_ok, code_accepted, quantity_accepted, future_price_accepted, expiry_accepted.
  unfold EntrustBuy, EntrustSell. intuition done.
Qed.

Lemma page_default_bounds opts : 1 <= defaultPageSize (New opts) < 100.
Proof.
  unfold New. cut (forall c, 1 <= cf_defaultPageSize c < 100 -> 1 <= cf_defaultPageSize (foldl apply_option c opts) < 100).
  { intros H. apply H. simpl. unfold DefaultPageSize. lia. }
  induction opts as [|o opts IH]; intros c Hc; [done |]. apply IH. destruct o as [[size]|]; [simpl | done].
  unfold maxPageSizeExclusive, DefaultPageSize. case_decide; lia.
Qed.

Lemma page_default_int32 opts : swrap 32 (defaultPageSize (New opts)) = defaultPageSize (New opts).
Proof. pose proof (page_default_bounds opts). apply swrap_id; [lia |]. unfold in_s. change (2 ^ (32 - 1)) with 2147483648. lia. Qed.

(** A query of the history: the pages and dates it may ask for, and the page sent. *)
Definition history_ok (r : HistoryQueryRequest) : Prop :=
  hq_PageSize r < 100 /\ (hq_StartDate r = "" \/ day_ok (hq_StartDate r))
  /\ (hq_EndDate r = "" \/ day_ok (hq_EndDate r)).

Lemma history_accepted opts op r : historyParams op (history_defaults (New opts) r) = Ret None <-> history_ok r.
Proof.
  unfold historyParams, history_ok. pose proof (page_default_bounds opts) as Hb.
  rewrite !and_then_ok, require_ok, !unless_empty_ok, !date_accepted. unfold history_defaults.
  cbn [hq_PageSize hq_StartDate hq_EndDate]. rewrite page_default_int32.
  unfold maxPageSizeExclusive. case_decide; intuition lia.
Qed.

(** The released futures package sends one request per accepted call, and
    nothing for a refused one, which is an invalid-parameter error of its own
    operation. An order is accepted exactly when its code and side are valid, its
    quantity writes a positive number, its price writes a number (an absent price
    only on a market order) and its expiry is a calendar date, required by the type
    that names one. A history query asks for a page of 1 to 99 rows from 1, whatever
    page size the manager was configured with. *)
Theorem future_released_exact {W Raw} (X : executor W Raw) (opts : list (option Option)) (r : EntrustRequest)
    (mr : ModifyEntrustRequest) (c : CancelEntrustRequest) (h : HistoryQueryRequest) (w : W) log :
  let X := logged X in
  let m := New opts in
  let params := history_defaults m h in
  sends_exactly (entrust_ok r) opEntrust RouteTradeFuturesEntrust (entrust_body r) (Entrust X r (w, log)) w log
  /\ sends_exactly (modify_ok mr) opModifyEntrust RouteTradeFuturesModifyEntrust (modify_body mr)
       (ModifyEntrust X mr (w, log)) w log
  /\ sends_exactly (id_ok (cr_EntrustID c) /\ code_ok (cr_StockCode c)) opCancelEntrust RouteTradeFuturesCancelEntrust
       (cancel_body c) (CancelEntrust X c (w, log)) w log
  /\ sends_exactly (history_ok h) opQueryHistoryEntrust RouteTradeFuturesQueryHistoryEntrustList (history_body params)
       (QueryHistoryEntrustList X m h (w, log)) w log
  /\ sends_exactly (history_ok h) opQueryHistoryDeliver RouteTradeFuturesQueryHistoryDeliverList (history_body params)
       (QueryHistoryDeliverList X m h (w, log)) w log
  /\ (history_ok h -> 1 <= hq_PageNo params /\ 1 <= hq_PageSize params <= 99).
Proof.
  intros X' m params. split; [|split; [|split; [|split; [|split]]]].
  - apply guard_sends; [unfold validatePrice; service_checks | apply future_entrust_accepted].
  - apply guard_sends; [service_checks | apply modify_accepted].
  - apply guard_sends; [service_checks |]. unfold id_ok. by rewrite and_then_ok, require_ok, code_accepted.
  - apply guard_sends; [service_checks | apply history_accepted].
  - apply guard_sends; [service_checks | apply history_accepted].
  - intros (Hs & _). unfold params, m, history_defaults. cbn [hq_PageNo hq_PageSize]. rewrite page_default_int32.
    pose proof (page_default_bounds opts). unfold defaultPageNo. repeat case_decide; lia.
Qed.

(** ** From the futures service back to the released package *)
Section migration.
Context {D : Type} `{DecimalText D}.

(** The arguments of a released call for an order of the service. *)
Definition released_order (o : Futures.FuturesOrderRequest D) : EntrustRequest :=
  mkEntrustRequest (Code (Futures.fr_Symbol o)) (Futures.fr_OrderType o) (dec_String (price_dec (Futures.fr_Price o)))
    (dec_String (qty_dec (Futures.fr_Quantity o))) (Futures.fr_Side o) (Futures.fr_ValidTimeType o)
    (Futures.fr_ValidTime o) (Futures.futuresOrderOptionsParam (Futures.fr_OrderOptions o)).

Definition released_modify (c : Futures.FuturesModifyRequest D) : ModifyEntrustRequest :=
  mkModifyEntrustRequest (Futures.fm_EntrustID c) (Code (Futures.fm_Symbol c)) (dec_String (price_dec (Futures.fm_Price c)))
    (dec_String (qty_dec (Futures.fm_Quantity c))) (Futures.fm_Side c) (Futures.fm_ValidTimeType c)
    (Futures.fm_ValidTime c) (Futures.futuresOrderOptionsParam (Futures.fm_OrderOptions c)).

Lemma String_number (d : D) : (0 <= val d)%Q -> exists q, numeral_value (dec_String d) = Some q /\ (val d == q)%Q.
Proof using Type*.
  intros Hd. destruct (String_plain d Hd) as [q Hq]. exists q. split; [done |]. exact (String_value d q Hq).
Qed.

Lemma String_positive (d : D) : (0 < val d)%Q -> writes_positive (dec_String d).
Proof using Type*.
  intros Hd. destruct (String_number d (Qlt_le_weak _ _ Hd)) as (q & Hq & Hv). exists q. split; [done |].
  by rewrite <- Hv.
Qed.

Lemma String_not_empty (d : D) : (0 <= val d)%Q -> dec_String d <> "".
Proof using Type*. intros Hd He. destruct (String_number d Hd) as (q & Hq & _). by rewrite He in Hq. Qed.

Lemma options_not_empty o : o ∈ [""; "0"; "1"] -> Futures.futuresOrderOptionsParam o <> "".
Proof using Type.
  unfold Futures.futuresOrderOptionsParam, Futures.futuresDefaultOrderOptions. by case_decide.
Qed.

Lemma time_type_not_empty t : t ∈ ["0"; "1"; "2"; "3"; "4"] -> t <> "".
Proof using Type. intros Ht ->. assert (~ "" ∈ ["0"; "1"; "2"; "3"; "4"]) as Hn by decided. by apply Hn. Qed.

(** Every order and every modification the futures service accepts is accepted
    by the released package with the same texts, and the two send the same JSON
    object to the same route: moving a caller from one surface to the other changes
    no request. *)
Theorem futures_migration {W Raw} (X : executor W Raw) (R : Futures.futures_replies Raw) (acct : string)
    (o : Futures.FuturesOrderRequest D) (c : Futures.FuturesModifyRequest D) (w : W) :
  let X := logged X in
  let sent {A} (r : result (W * list (string * body)) A) := snd (snd r) in
  (Futures.Entrust_checks acct o = Ret None ->
    exists b b', b ≡ₚ b'
      /\ sent (Futures.Entrust X R acct o (w, [])) = [(RouteTradeFuturesEntrust, b)]
      /\ sent (Entrust X (released_order o) (w, [])) = [(RouteTradeFuturesEntrust, b')])
  /\ (Futures.ModifyEntrust_checks acct c = Ret None ->
    exists b b', b ≡ₚ b'
      /\ sent (Futures.ModifyEntrust X acct c (w, [])) = [(RouteTradeFuturesModifyEntrust, b)]
      /\ sent (ModifyEntrust X (released_modify c) (w, [])) = [(RouteTradeFuturesModifyEntrust, b')]).
Proof using Type*.
  intros X' sent. unfold sent, X'. split; intros Hc.
  - pose proof Hc as Hok. apply Futures.entrust_checks_ok in Hok.
    destruct Hok as (_ & Hcode & [Ht _] & Hs & Hp & Hq & [Hv He] & Ho).
    assert (Hr : Entrust_checks (released_order o) = Ret None).
    { apply future_entrust_accepted. unfold entrust_ok, released_order. cbn.
      split; [done |]. split; [done |]. split; [by apply String_positive |]. split; [| done].
      right. destruct (String_number _ Hp) as (q & -> & _). eauto. }
    unfold Futures.Entrust, Entrust. rewrite Hc, Hr. cbn [guard]. rewrite !call_logged.
    eexists _, _. split; [| split; reflexivity].
    unfold Futures.futuresEntrustWireRequest, entrust_body, released_order, str_field, str_omitempty. cbn.
    rewrite (decide_False (P := Futures.fr_OrderType o = "")), (decide_False (P := dec_String _ = "")),
      (decide_False (P := Futures.fr_ValidTimeType o = "")), (decide_False (P := Futures.futuresOrderOptionsParam _ = ""))
      by first [done | by apply time_type_not_empty | by apply String_not_empty | by apply options_not_empty].
    case_decide; cbn; solve_Permutation.
  - pose proof Hc as Hok. apply Futures.modify_checks_ok in Hok.
    destruct Hok as (_ & Hid & Hcode & Hp & Hq & Hs & [Hv He] & Ho).
    assert (Hr : ModifyEntrust_checks (released_modify c) = Ret None).
    { apply modify_accepted. unfold modify_ok, released_modify. cbn.
      split; [done |]. split; [done |]. split; [by apply String_positive |]. split; [| done].
      destruct (String_number _ Hp) as (q & -> & _). eauto. }
    unfold Futures.ModifyEntrust, ModifyEntrust. rewrite Hc, Hr. cbn [guard]. rewrite !call_logged.
    eexists _, _. split; [| split; reflexivity].
    unfold Futures.futuresModifyEntrustWireRequest, modify_body, released_modify, str_field, str_omitempty. cbn.
    rewrite (decide_False (P := Futures.fm_ValidTimeType c = "")), (decide_False (P := Futures.futuresOrderOptionsParam _ = ""))
      by first [by apply time_type_not_empty | by apply options_not_empty].
    case_decide; cbn; solve_Permutation.
Qed.
End migration.

(** ** The theorems on a concrete order *)
Definition demo_executor : executor unit unit := fun _ _ _ w => (Ret (inl tt), w).

Definition demo_replies : Futures.futures_replies unit :=
  Futures.mkFuturesReplies _ (fun _ => []) (fun _ => Futures.mkCapacityWire 0 0 0 "" "") (fun _ => Futures.demo_fund)
    (fun _ => Futures.mkHoldsReply Futures.demo_fund []) (fun _ => Futures.mkOrderListReply [] 1 20 1 1) (fun _ => "1").

Definition demo_modify : Futures.FuturesModifyRequest dec :=
  Futures.mkModifyRequest "F1" (mkSymbol "HK" "HSI2612" 30000 "" "") (mkPrice (mkDec 185005 1) (mkDec 0 0))
    (mkQuantity (mkDec 2 0)) "2" "0" "" "1".

Lemma futures_migration_witness :
  exists b b', b ≡ₚ b'
    /\ snd (snd (Futures.Entrust (logged demo_executor) demo_replies "acct" (Futures.demo_order "20261231") (tt, [])))
       = [(RouteTradeFuturesEntrust, b)]
    /\ snd (snd (Entrust (logged demo_executor) (released_order (Futures.demo_order "20261231")) (tt, [])))
       = [(RouteTradeFuturesEntrust, b')].
Proof.
  destruct (futures_migration demo_executor demo_replies "acct" (Futures.demo_order "20261231") demo_modify tt) as [Ho _].
  apply Ho. vm_compute. reflexivity.
Defined.

Lemma future_released_exact_witness :
  snd (snd (Entrust (logged demo_executor) (mkEntrustRequest "HSI2612" "2" "" "3" "1" "" "" "") (tt, [])))
    = [(RouteTradeFuturesEntrust, [("stockCode", JStr "HSI2612"); ("entrustType", JStr "2"); ("entrustAmount", JStr "3"); ("entrustBs", JStr "1")])]
  /\ hq_PageSize (history_defaults (New [Some (WithDefaultPageSize 500)]) (mkHistoryQuery 0 0 "" "")) = 20.
Proof.
  split; [| reflexivity].
  destruct (future_released_exact demo_executor [] (mkEntrustRequest "HSI2612" "2" "" "3" "1" "" "" "")
    (mkModifyEntrustRequest "" "" "" "" "" "" "" "") (mkCancelEntrustRequest "" "") (mkHistoryQuery 0 0 "" "") tt [])
    as ([Ho _] & _).
  apply Ho. apply future_entrust_accepted. vm_compute. reflexivity.
Defined.
