(* ===== verification/AlgoReleased.v ===== *)
(** The released algorithm package, [src/pkg/hstong/algo/algo.go] and [action.go]:
    its dictionaries, its seven methods, and the algorithm service of [Algo] as a
    replacement. *)
From Stdlib Require Import QArith.
From S2P Require Import Prelude Types Errs Retry Routes Domain Decimals Service Released.
From S2P Require Algo FutureReleased.
Local Open Scope Z_scope.
Local Open Scope go_scope.

(** ** Dictionaries *)
Definition opAddOrder : string := "trade/AlgoAddOrder".
Definition opCancelOrder : string := "trade/AlgoCancelOrder".
Definition opCancelEntrust : string := "trade/AlgoCancelEntrust".
Definition opChangeOrder : string := "trade/AlgoChangeOrder".
Definition opActionOrder : string := "trade/AlgoActionOrder".
Definition opQueryOrderList : string := "trade/AlgoQueryOrderList".
Definition opQueryEntrustIDList : string := "trade/AlgoQueryEntrustIdList".

Definition ErrInvalidParams : error := ESentinel "algo: invalid params".

Definition StrategyVWAP : string := "1".
Definition StrategyTWAP : string := "1001".
Definition StrategyIceberg : string := "1002".
Definition StrategyTPOV : string := "1003".
Definition StrategyPOV : string := "1005".

Definition EntrustTypeLimit : string := "1".
Definition EntrustTypeMarket : string := "2".
Definition EntrustType_valid (t : string) : bool := bool_decide (t = EntrustTypeLimit \/ t = EntrustTypeMarket).

Definition SessionTypeOff : string := "0".
Definition SessionTypeOn : string := "1".
Definition SessionType_valid (s : string) : bool := bool_decide (s = SessionTypeOff \/ s = SessionTypeOn).

Definition SensitivityNeutral : string := "1".
Definition SensitivityAggressive : string := "2".
Definition SensitivityPassive : string := "3".
Definition Sensitivity_valid (s : string) : bool :=
  bool_decide (s ∈ [SensitivityNeutral; SensitivityAggressive; SensitivityPassive]).

Definition validExchange (e : string) : bool :=
  bool_decide (e ∈ [ExchangeHK; ExchangeUS; ExchangeShenzhenConnect; ExchangeShanghaiConnect]).

Definition validDirection (bs : string) : bool :=
  bool_decide (bs ∈ [EntrustBuy; EntrustSell; EntrustCloseShort; EntrustOpenShort]).

Definition ActionStart : string := "1".
Definition ActionStop : string := "2".
Definition ActionSuspend : string := "3".
Definition ActionResume : string := "4".

Definition Action_String (a : string) : string :=
  switch a [(ActionStart, "START"); (ActionStop, "STOP"); (ActionSuspend, "SUSPEND"); (ActionResume, "RESUME")]
    ("Action(" +:+ a +:+ ")").

Definition Action_Valid (a : string) : bool := bool_decide (a ∈ [ActionStart; ActionStop; ActionSuspend; ActionResume]).

Definition StatusRegistered : string := "0".
Definition StatusPartFilled : string := "1".
Definition StatusFilled : string := "2".
Definition StatusCompleted : string := "3".
Definition StatusCancelled : string := "4".
Definition StatusModified : string := "5".
Definition StatusWaitCancel : string := "6".
Definition StatusRejected : string := "8".
Definition StatusPending : string := "A".
Definition StatusExpired : string := "C".
Definition StatusWaitModify : string := "E".

Definition StrategyStatusStart : string := "1".
Definition StrategyStatusStop : string := "2".
Definition StrategyStatusSuspend : string := "3".
Definition StrategyStatusResume : string := "4".

(** ** Requests *)
Record StrategyParam := mkStrategyParam {
  sp_OrigStartTime : string; sp_OrigEndTime : string; sp_MaxVolume : string; sp_MinAmount : string;
  sp_Sensitivity : string; sp_ShowQty : string; sp_QtyPercent : string; sp_Interval : Z;
}.

Record AddOrderParams := mkAddOrder {
  ap_StockCode : string; ap_ExchangeType : string; ap_EntrustType : string; ap_EntrustPrice : string;
  ap_EntrustAmount : string; ap_EntrustBS : string; ap_TargetStrategy : string; ap_SessionType : string;
  ap_StrategyParam : StrategyParam;
}.

Record CancelOrderParams := mkCancelOrder { co_OrderID : string; co_ExchangeType : string }.
Record CancelEntrustParams := mkCancelEntrust { ce_OrderID : string; ce_EntrustID : string; ce_ExchangeType : string }.

Record ChangeOrderParams := mkChangeOrder {
  cp_OrderID : string; cp_StockCode : string; cp_ExchangeType : string; cp_EntrustPrice : string;
  cp_EntrustAmount : string; cp_StrategyParam : StrategyParam;
}.

Record ActionOrderParams := mkActionOrder {
  ao_OrderID : string; ao_Action : string; ao_TargetStrategy : string; ao_ExchangeType : string;
}.

Record QueryOrderListParams := mkQueryOrders {
  qo_PageNo : string; qo_PageSize : string; qo_StartDate : string; qo_EndDate : string;
  qo_ExchangeType : string; qo_StockCode : string;
}.

Record QueryEntrustIDListParams := mkQueryIDs { qi_OrderID : string; qi_TradeDate : string; qi_ExchangeType : string }.

Definition strategy_body (p : StrategyParam) : body :=
  str_omitempty "origStartTime" (sp_OrigStartTime p) ++ str_omitempty "origEndTime" (sp_OrigEndTime p)
  ++ str_omitempty "maxVolume" (sp_MaxVolume p) ++ str_omitempty "minAmount" (sp_MinAmount p)
  ++ str_omitempty "sensitivity" (sp_Sensitivity p) ++ str_omitempty "showQty" (sp_ShowQty p)
  ++ str_omitempty "qtyPercent" (sp_QtyPercent p) ++ int_omitempty "interval" (sp_Interval p).

Definition add_body (p : AddOrderParams) : body := [
  ("stockCode", JStr (ap_StockCode p)); ("exchangeType", JStr (ap_ExchangeType p));
  ("entrustType", JStr (ap_EntrustType p)); ("entrustPrice", JStr (ap_EntrustPrice p));
  ("entrustAmount", JStr (ap_EntrustAmount p)); ("entrustBs", JStr (ap_EntrustBS p));
  ("targetStrategy", JStr (ap_TargetStrategy p)); ("sessionType", JStr (ap_SessionType p));
  ("strategyParam", JObj (strategy_body (ap_StrategyParam p)))].

Definition change_body (p : ChangeOrderParams) : body := [
  ("orderId", JStr (cp_OrderID p)); ("stockCode", JStr (cp_StockCode p)); ("exchangeType", JStr (cp_ExchangeType p));
  ("entrustPrice", JStr (cp_EntrustPrice p)); ("entrustAmount", JStr (cp_EntrustAmount p));
  ("strategyParam", JObj (strategy_body (cp_StrategyParam p)))].

Definition cancel_order_body (p : CancelOrderParams) : body :=
  [("orderId", JStr (co_OrderID p)); ("exchangeType", JStr (co_ExchangeType p))].

Definition cancel_entrust_body (p : CancelEntrustParams) : body :=
  [("orderId", JStr (ce_OrderID p)); ("entrustId", JStr (ce_EntrustID p)); ("exchangeType", JStr (ce_ExchangeType p))].

Definition action_body (p : ActionOrderParams) : body := [
  ("orderId", JStr (ao_OrderID p)); ("action", JStr (ao_Action p)); ("targetStrategy", JStr (ao_TargetStrategy p));
  ("exchangeType", JStr (ao_ExchangeType p))].

Definition orders_body (p : QueryOrderListParams) : body :=
  str_field "pageNo" (qo_PageNo p) ++ str_field "pageSize" (qo_PageSize p) ++ str_field "startDate" (qo_StartDate p)
  ++ str_field "endDate" (qo_EndDate p) ++ str_omitempty "exchangeType" (qo_ExchangeType p)
  ++ str_omitempty "stockCode" (qo_StockCode p).

Definition ids_body (p : QueryEntrustIDListParams) : body :=
  [("orderId", JStr (qi_OrderID p)); ("tradeDate", JStr (qi_TradeDate p)); ("exchangeType", JStr (qi_ExchangeType p))].

(** ** Validation *)
Abbreviation checks := (outcome (option error)).

Definition invalid (op message : string) : error := Errs.Wrap (Some ErrInvalidParams) "" op message.

Definition needs (P : Prop) {HP : Decision P} (op msg : string) : checks :=
  if decide P then Ret None else Ret (Some (invalid op msg)).

Definition invalidExchange (op e : string) : error :=
  invalid op ("exchangeType " +:+ Quote e +:+ " is not one of K (Hong Kong), P (US), v (Shenzhen Connect), t (Shanghai Connect)").

Definition invalidDirection (op bs : string) : error :=
  invalid op ("entrustBs " +:+ Quote bs +:+ " is not one of 1 (open long), 2 (close long), 3 (close short), 4 (open short)").

(** The two checks on a market, on a direction. *)
Definition exchange_checks (op e : string) : checks :=
  needs (e <> "") op "exchangeType is required" ;?;
  (if validExchange e then Ret None else Ret (Some (invalidExchange op e))).

Definition direction_checks (op bs : string) : checks :=
  needs (bs <> "") op "entrustBs is required" ;?;
  (if validDirection bs then Ret None else Ret (Some (invalidDirection op bs))).

Definition decimal_checks (op field s : string) : checks :=
  needs (s <> "") op (field +:+ " is required") ;?;
  needs (isPositiveDecimal s = true) op (field +:+ " must be a positive decimal string").

Definition sensitivity_message (s : string) : string :=
  "strategyParam.sensitivity " +:+ Quote s +:+ " is not one of 1 (neutral), 2 (aggressive), 3 (passive)".

Definition AddOrder_validate (op : string) (p : AddOrderParams) : checks :=
  let sp := ap_StrategyParam p in
  needs (ap_StockCode p <> "") op "stockCode is required" ;?;
  exchange_checks op (ap_ExchangeType p) ;?;
  needs (ap_EntrustType p <> "") op "entrustType is required" ;?;
  needs (EntrustType_valid (ap_EntrustType p) = true) op
    ("entrustType " +:+ Quote (ap_EntrustType p) +:+ " is not one of 1 (limit), 2 (market)") ;?;
  decimal_checks op "entrustPrice" (ap_EntrustPrice p) ;?;
  decimal_checks op "entrustAmount" (ap_EntrustAmount p) ;?;
  direction_checks op (ap_EntrustBS p) ;?;
  needs (ap_TargetStrategy p <> "") op "targetStrategy is required" ;?;
  needs (ap_SessionType p <> "") op "sessionType is required" ;?;
  needs (SessionType_valid (ap_SessionType p) = true) op
    ("sessionType " +:+ Quote (ap_SessionType p) +:+ " is not one of 0 (off), 1 (on)") ;?;
  decimal_checks op "strategyParam.maxVolume" (sp_MaxVolume sp) ;?;
  needs (sp_Sensitivity sp <> "") op "strategyParam.sensitivity is required" ;?;
  needs (Sensitivity_valid (sp_Sensitivity sp) = true) op (sensitivity_message (sp_Sensitivity sp)).

Definition CancelOrder_validate (op : string) (p : CancelOrderParams) : checks :=
  needs (co_OrderID p <> "") op "orderId is required" ;?; exchange_checks op (co_ExchangeType p).

Definition CancelEntrust_validate (op : string) (p : CancelEntrustParams) : checks :=
  needs (ce_OrderID p <> "") op "orderId is required" ;?;
  needs (ce_EntrustID p <> "") op "entrustId is required" ;?;
  exchange_checks op (ce_ExchangeType p).

Definition ChangeOrder_validate (op : string) (p : ChangeOrderParams) : checks :=
  let s := sp_Sensitivity (cp_StrategyParam p) in
  needs (cp_OrderID p <> "") op "orderId is required" ;?;
  needs (cp_StockCode p <> "") op "stockCode is required" ;?;
  exchange_checks op (cp_ExchangeType p) ;?;
  decimal_checks op "entrustPrice" (cp_EntrustPrice p) ;?;
  decimal_checks op "entrustAmount" (cp_EntrustAmount p) ;?;
  (if decide (s <> "") then needs (Sensitivity_valid s = true) op (sensitivity_message s) else Ret None).

Definition ActionOrder_validate (op : string) (p : ActionOrderParams) : checks :=
  needs (ao_OrderID p <> "") op "orderId is required" ;?;
  needs (ao_TargetStrategy p <> "") op "targetStrategy is required" ;?;
  exchange_checks op (ao_ExchangeType p) ;?;
  needs (Action_Valid (ao_Action p) = true) op
    ("action " +:+ Quote (ao_Action p) +:+ " is not one of 1 (START), 2 (STOP), 3 (SUSPEND), 4 (RESUME)").

Definition int_checks (op field s : string) : checks :=
  needs (s <> "") op (field +:+ " is required") ;?;
  needs (isPositiveInt s = true) op (field +:+ " must be a positive integer string").

Definition date_checks (op field s : string) : checks :=
  needs (s <> "") op (field +:+ " is required") ;?;
  needs (isDate s = true) op (field +:+ " must have the form yyyyMMdd").

Definition QueryOrderList_validate (op : string) (p : QueryOrderListParams) : checks :=
  int_checks op "pageNo" (qo_PageNo p) ;?;
  int_checks op "pageSize" (qo_PageSize p) ;?;
  date_checks op "startDate" (qo_StartDate p) ;?;
  date_checks op "endDate" (qo_EndDate p) ;?;
  needs (~ (qo_StockCode p <> "" /\ qo_ExchangeType p = "")) op "exchangeType is required when stockCode is set" ;?;
  (if decide (qo_ExchangeType p <> "" /\ validExchange (qo_ExchangeType p) = false)
   then Ret (Some (invalidExchange op (qo_ExchangeType p))) else Ret None).

Definition QueryEntrustIDList_validate (op : string) (p : QueryEntrustIDListParams) : checks :=
  needs (qi_OrderID p <> "") op "orderId is required" ;?;
  date_checks op "tradeDate" (qi_TradeDate p) ;?;
  exchange_checks op (qi_ExchangeType p).

(** ** The manager *)
Record config := mkConfig { defaultExchangeType : string }.

Inductive Option := WithDefaultExchangeType (exchange : string).

Definition apply_option (c : config) (o : option Option) : config :=
  match o with None => c | Some (WithDefaultExchangeType e) => mkConfig e end.

(** The client of a manager is the executor its methods take. *)
Record Manager := mkManager { cfg : config }.

Definition New (opts : list (option Option)) : Manager := mkManager (foldl apply_option (mkConfig "") opts).

Definition exchangeType (m : Manager) (e : string) : string := if decide (e <> "") then e else defaultExchangeType (cfg m).

Section methods.
Context {W Raw : Type} (X : executor W Raw) (m : Manager).

(** The reply structs: [data], the master orders and the child identifiers. *)
Record replies := mkReplies { MasterOrders : Type; rp_data : Raw -> string; rp_orders : Raw -> MasterOrders; rp_ids : Raw -> list string }.
Context (R : replies).

Definition fill_add (p : AddOrderParams) : AddOrderParams :=
  mkAddOrder (ap_StockCode p) (exchangeType m (ap_ExchangeType p)) (ap_EntrustType p) (ap_EntrustPrice p)
    (ap_EntrustAmount p) (ap_EntrustBS p) (ap_TargetStrategy p) (ap_SessionType p) (ap_StrategyParam p).

Definition AddOrder (params : AddOrderParams) (w : W) : result W string :=
  let params := fill_add params in
  guard (AddOrder_validate opAddOrder params) w
    (call X opAddOrder RouteTradeAlgoAddOrder (add_body params) w (fun raw => Ret (rp_data R raw))).

Definition fill_cancel (p : CancelOrderParams) : CancelOrderParams :=
  mkCancelOrder (co_OrderID p) (exchangeType m (co_ExchangeType p)).

Definition CancelOrder (params : CancelOrderParams) (w : W) : result W string :=
  let params := fill_cancel params in
  guard (CancelOrder_validate opCancelOrder params) w
    (call X opCancelOrder RouteTradeAlgoCancelOrder (cancel_order_body params) w (fun raw => Ret (rp_data R raw))).

Definition fill_entrust (p : CancelEntrustParams) : CancelEntrustParams :=
  mkCancelEntrust (ce_OrderID p) (ce_EntrustID p) (exchangeType m (ce_ExchangeType p)).

Definition CancelEntrust (params : CancelEntrustParams) (w : W) : result W string :=
  let params := fill_entrust params in
  guard (CancelEntrust_validate opCancelEntrust params) w
    (call X opCancelEntrust RouteTradeAlgoCancelEntrust (cancel_entrust_body params) w (fun raw => Ret (rp_data R raw))).

Definition fill_change (p : ChangeOrderParams) : ChangeOrderParams :=
  mkChangeOrder (cp_OrderID p) (cp_StockCode p) (exchangeType m (cp_ExchangeType p)) (cp_EntrustPrice p)
    (cp_EntrustAmount p) (cp_StrategyParam p).

Definition ChangeOrder (params : ChangeOrderParams) (w : W) : result W string :=
  let params := fill_change params in
  guard (ChangeOrder_validate opChangeOrder params) w
    (call X opChangeOrder RouteTradeAlgoChangeOrder (change_body params) w (fun raw => Ret (rp_data R raw))).

Definition fill_action (p : ActionOrderParams) : ActionOrderParams :=
  mkActionOrder (ao_OrderID p) (ao_Action p) (ao_TargetStrategy p) (exchangeType m (ao_ExchangeType p)).

Definition ActionOrder (params : ActionOrderParams) (w : W) : result W string :=
  let params := fill_action params in
  guard (ActionOrder_validate opActionOrder params) w
    (call X opActionOrder RouteTradeAlgoActionOrder (action_body params) w (fun raw => Ret (rp_data R raw))).

Definition QueryOrderList (params : QueryOrderListParams) (w : W) : result W (MasterOrders R) :=
  guard (QueryOrderList_validate opQueryOrderList params) w
    (call X opQueryOrderList RouteTradeAlgoQueryOrderList (orders_body params) w (fun raw => Ret (rp_orders R raw))).

Definition fill_ids (p : QueryEntrustIDListParams) : QueryEntrustIDListParams :=
  mkQueryIDs (qi_OrderID p) (qi_TradeDate p) (exchangeType m (qi_ExchangeType p)).

Definition QueryEntrustIDList (params : QueryEntrustIDListParams) (w : W) : result W (list string) :=
  let params := fill_ids params in
  guard (QueryEntrustIDList_validate opQueryEntrustIDList params) w
    (call X opQueryEntrustIDList RouteTradeAlgoQueryEntrustIdList (ids_body params) w (fun raw => Ret (rp_ids R raw))).
End methods.

(** ** What the checks accept *)
Lemma needs_ok P `{Decision P} op msg : needs P op msg = Ret None <-> P.
Proof. unfold needs. case_decide; naive_solver. Qed.

Definition market (e : string) : Prop := e ∈ ["K"; "P"; "v"; "t"].
Definition direction (b : string) : Prop := b ∈ ["1"; "2"; "3"; "4"].

Lemma exchange_ok op e : exchange_checks op e = Ret None <-> market e.
Proof.
  unfold exchange_checks, validExchange, market. rewrite and_then_ok, needs_ok.
  assert (~ "" ∈ ["K"; "P"; "v"; "t"]) by decided.
  case_bool_decide as He; split; try (by intros [_ ?]); try done. intros _. split; [| done]. by intros ->.
Qed.

Lemma direction_ok op b : direction_checks op b = Ret None <-> direction b.
Proof.
  unfold direction_checks, validDirection, direction. rewrite and_then_ok, needs_ok.
  assert (~ "" ∈ ["1"; "2"; "3"; "4"]) by decided.
  case_bool_decide as He; split; try (by intros [_ ?]); try done. intros _. split; [| done]. by intros ->.
Qed.

Lemma positive_not_empty s : writes_positive s -> s <> "".
Proof. by intros (q & Hq & _) ->. Qed.

Lemma decimal_ok op field s : decimal_checks op field s = Ret None <-> writes_positive s.
Proof.
  unfold decimal_checks. rewrite and_then_ok, !needs_ok, isPositiveDecimal_spec.
  pose proof (positive_not_empty s). tauto.
Qed.

(** A text of digits that writes a positive integer. *)
Definition writes_count (s : string) : Prop := exists z, digits_value 0 (text s) = Some z /\ 0 < z.

Lemma int_ok op field s : int_checks op field s = Ret None <-> writes_count s.
Proof.
  unfold int_checks. rewrite and_then_ok, !needs_ok, isPositiveInt_spec. unfold writes_count.
  split; [by intros [_ ?] |]. intros Hs. split; [| done]. intros ->. destruct Hs as (z & [= <-] & ?). lia.
Qed.

Lemma shape_ok op field s : date_checks op field s = Ret None <-> date_shaped s.
Proof.
  unfold date_checks. rewrite and_then_ok, !needs_ok, isDate_spec. split; [by intros [_ ?] |].
  intros Hs. split; [| done]. intros ->. by destruct Hs.
Qed.

Definition add_ok (p : AddOrderParams) : Prop :=
  ap_StockCode p <> "" /\ market (ap_ExchangeType p) /\ ap_EntrustType p ∈ ["1"; "2"]
  /\ writes_positive (ap_EntrustPrice p) /\ writes_positive (ap_EntrustAmount p) /\ direction (ap_EntrustBS p)
  /\ ap_TargetStrategy p <> "" /\ ap_SessionType p ∈ ["0"; "1"]
  /\ writes_positive (sp_MaxVolume (ap_StrategyParam p)) /\ sp_Sensitivity (ap_StrategyParam p) ∈ ["1"; "2"; "3"].

Definition change_ok (p : ChangeOrderParams) : Prop :=
  cp_OrderID p <> "" /\ cp_StockCode p <> "" /\ market (cp_ExchangeType p)
  /\ writes_positive (cp_EntrustPrice p) /\ writes_positive (cp_EntrustAmount p)
  /\ (sp_Sensitivity (cp_StrategyParam p) = "" \/ sp_Sensitivity (cp_StrategyParam p) ∈ ["1"; "2"; "3"]).

Definition orders_ok (p : QueryOrderListParams) : Prop :=
  writes_count (qo_PageNo p) /\ writes_count (qo_PageSize p) /\ date_shaped (qo_StartDate p) /\ date_shaped (qo_EndDate p)
  /\ (qo_ExchangeType p = "" /\ qo_StockCode p = "" \/ market (qo_ExchangeType p)).

Lemma two_codes (s a b : string) : bool_decide (s = a \/ s = b) = true <-> s ∈ [a; b].
Proof. rewrite bool_decide_eq_true, !elem_of_cons, elem_of_nil. tauto. Qed.

(** A check of a code that must be present is the check of the code. *)
Lemma present_code s (l : list string) : ~ "" ∈ l -> (s <> "" /\ s ∈ l) <-> s ∈ l.
Proof. intros Hn. split; [by intros [_ ?] |]. intros Hs. split; [| done]. by intros ->. Qed.

Lemma add_validates op p : AddOrder_validate op p = Ret None <-> add_ok p.
Proof.
  unfold AddOrder_validate, add_ok, EntrustType_valid, SessionType_valid, Sensitivity_valid. cbv zeta.
  rewrite !and_then_ok, !needs_ok, exchange_ok, direction_ok, !decimal_ok, !two_codes, bool_decide_eq_true.
  pose proof (present_code (ap_EntrustType p) [EntrustTypeLimit; EntrustTypeMarket] ltac:(decided)).
  pose proof (present_code (ap_SessionType p) [SessionTypeOff; SessionTypeOn] ltac:(decided)).
  pose proof (present_code (sp_Sensitivity (ap_StrategyParam p))
    [SensitivityNeutral; SensitivityAggressive; SensitivityPassive] ltac:(decided)).
  tauto.
Qed.

Lemma change_validates op p : ChangeOrder_validate op p = Ret None <-> change_ok p.
Proof.
  unfold ChangeOrder_validate, change_ok, Sensitivity_valid. cbv zeta.
  by rewrite !and_then_ok, unless_empty_ok, !needs_ok, exchange_ok, !decimal_ok, bool_decide_eq_true.
Qed.

Lemma orders_validate op p : QueryOrderList_validate op p = Ret None <-> orders_ok p.
Proof.
  unfold QueryOrderList_validate, orders_ok. rewrite !and_then_ok, !int_ok, !shape_ok, needs_ok.
  assert (~ market "") by decided. unfold validExchange.
  assert (Hx : (if decide (qo_ExchangeType p <> "" /\ bool_decide (qo_ExchangeType p ∈ [ExchangeHK; ExchangeUS; ExchangeShenzhenConnect; ExchangeShanghaiConnect]) = false)
    then Ret (Some (invalidExchange op (qo_ExchangeType p))) else Ret None) = Ret None
    <-> qo_ExchangeType p = "" \/ market (qo_ExchangeType p)).
  { unfold market. destruct (decide (qo_ExchangeType p = "")) as [->|He]; [by split; [left |] |].
    case_bool_decide as Hm.
    - rewrite decide_False by (by intros [_ ?]). split; [by right | done].
    - rewrite decide_True by done. split; [done | by intros [?|?]]. }
  rewrite Hx. destruct (decide (qo_ExchangeType p = "")) as [->|]; destruct (decide (qo_StockCode p = "")); tauto.
Qed.

(** *** Every check refuses with an error of its operation *)
Definition refuses (op : string) (c : checks) : Prop := c = Ret None \/ exists msg, c = Ret (Some (invalid op msg)).

Lemma refuses_needs op P `{Decision P} msg : refuses op (needs P op msg).
Proof. unfold needs. case_decide; [by left | right; eauto]. Qed.

Lemma refuses_and op a b : refuses op a -> refuses op b -> refuses op (a ;?; b).
Proof. intros [-> | [m ->]] Hb; [exact Hb | right; by exists m]. Qed.

Lemma refuses_none op : refuses op (Ret None).
Proof. by left. Qed.

Lemma refuses_invalid op msg : refuses op (Ret (Some (invalid op msg))).
Proof. right; eauto. Qed.

Ltac refuse_each := repeat
  lazymatch goal with
  | |- refuses _ (and_then _ _) => apply refuses_and
  | |- refuses _ (needs _ _ _) => apply refuses_needs
  | |- refuses _ (Ret None) => apply refuses_none
  | |- refuses _ (Ret (Some _)) => apply refuses_invalid
  | |- refuses _ (if ?b then _ else _) => destruct b
  | |- refuses _ ?c => let h := head_of c in unfold h; cbv zeta
  end.

Lemma add_refuses op p : refuses op (AddOrder_validate op p).
Proof. refuse_each. Qed.

Lemma change_refuses op p : refuses op (ChangeOrder_validate op p).
Proof. refuse_each. Qed.

(** The call sends the one request when [ok], and is refused with
    [ErrInvalidParams] and without sending otherwise. *)
Definition sends_or_invalid {W A} (ok : Prop) (op route : string) (req : body)
    (m : result (W * list (string * body)) A) (w : W) (log : list (string * body)) : Prop :=
  (ok -> snd (snd m) = log ++ [(route, req)])
  /\ (~ ok -> exists msg, m = (Ret (inr (invalid op msg)), (w, log))).

Lemma guard_sends_or_invalid {W Raw A} (X : executor W Raw) (ok : Prop) op route req checks w log (f : Raw -> outcome A) :
  refuses op checks -> (checks = Ret None <-> ok) ->
  sends_or_invalid ok op route req (guard checks (w, log) (call (logged X) op route req (w, log) f)) w log.
Proof.
  intros Hc Hok. split.
  - intros H. apply Hok in H as ->. apply call_logged.
  - intros H. destruct Hc as [Hn | [msg ->]]; [by destruct H; apply Hok | by exists msg].
Qed.

Lemma invalid_is op msg : errors_Is (invalid op msg) "algo: invalid params" = true.
Proof. unfold invalid, Errs.Wrap, Errs.New. cbn. done. Qed.

(** The released algorithm package, with any options, sends one request per
    accepted call, and nothing for a refused one, whose error is
    [ErrInvalidParams]; the market of a call is the one given or else the
    configured one, and is checked either way. An order needs a price, a quantity
    and a largest child that write positive numbers; dates need eight digits only;
    a page number or size is a text of digits that writes a positive integer. *)
Theorem algo_released_exact {W Raw} (X : executor W Raw) (R : replies (Raw := Raw)) (opts : list (option Option))
    (a : AddOrderParams) (c : ChangeOrderParams) (l : CancelOrderParams) (e : CancelEntrustParams)
    (t : ActionOrderParams) (q : QueryOrderListParams) (i : QueryEntrustIDListParams) (w : W) log :
  let X := logged X in
  let m := New opts in
  sends_or_invalid (add_ok (fill_add m a)) opAddOrder RouteTradeAlgoAddOrder (add_body (fill_add m a))
    (AddOrder X m R a (w, log)) w log
  /\ sends_or_invalid (change_ok (fill_change m c)) opChangeOrder RouteTradeAlgoChangeOrder (change_body (fill_change m c))
    (ChangeOrder X m R c (w, log)) w log
  /\ sends_or_invalid (co_OrderID l <> "" /\ market (exchangeType m (co_ExchangeType l))) opCancelOrder
    RouteTradeAlgoCancelOrder (cancel_order_body (fill_cancel m l)) (CancelOrder X m R l (w, log)) w log
  /\ sends_or_invalid (ce_OrderID e <> "" /\ ce_EntrustID e <> "" /\ market (exchangeType m (ce_ExchangeType e)))
    opCancelEntrust RouteTradeAlgoCancelEntrust (cancel_entrust_body (fill_entrust m e)) (CancelEntrust X m R e (w, log)) w log
  /\ sends_or_invalid (ao_OrderID t <> "" /\ ao_TargetStrategy t <> "" /\ market (exchangeType m (ao_ExchangeType t))
      /\ ao_Action t ∈ ["1"; "2"; "3"; "4"])
    opActionOrder RouteTradeAlgoActionOrder (action_body (fill_action m t)) (ActionOrder X m R t (w, log)) w log
  /\ sends_or_invalid (orders_ok q) opQueryOrderList RouteTradeAlgoQueryOrderList (orders_body q)
    (QueryOrderList X R q (w, log)) w log
  /\ sends_or_invalid (qi_OrderID i <> "" /\ date_shaped (qi_TradeDate i) /\ market (exchangeType m (qi_ExchangeType i)))
    opQueryEntrustIDList RouteTradeAlgoQueryEntrustIdList (ids_body (fill_ids m i)) (QueryEntrustIDList X m R i (w, log)) w log
  /\ (forall op msg, errors_Is (invalid op msg) "algo: invalid params" = true).
Proof.
  intros X' m. split_and!.
  - apply guard_sends_or_invalid; [apply add_refuses | apply add_validates].
  - apply guard_sends_or_invalid; [apply change_refuses | apply change_validates].
  - apply guard_sends_or_invalid; [refuse_each |]. unfold CancelOrder_validate. by rewrite and_then_ok, needs_ok, exchange_ok.
  - apply guard_sends_or_invalid; [refuse_each |]. unfold CancelEntrust_validate.
    by rewrite !and_then_ok, !needs_ok, exchange_ok.
  - apply guard_sends_or_invalid; [refuse_each |]. unfold ActionOrder_validate, Action_Valid.
    by rewrite !and_then_ok, !needs_ok, exchange_ok, bool_decide_eq_true.
  - apply guard_sends_or_invalid; [refuse_each | apply orders_validate].
  - apply guard_sends_or_invalid; [refuse_each |]. unfold QueryEntrustIDList_validate.
    by rewrite !and_then_ok, needs_ok, shape_ok, exchange_ok.
  - apply invalid_is.
Qed.

(** ** From the algorithm service back to the released package *)
Section migration.
Context {D : Type} `{DecimalText D}.

Definition released_param (p : Algo.AlgoStrategyParam D) : StrategyParam :=
  mkStrategyParam (Algo.as_OrigStartTime p) (Algo.as_OrigEndTime p)
    (Algo.text_unless_zero (qty_dec (Algo.as_MaxVolume p))) (Algo.text_unless_zero (money_dec (Algo.as_MinAmount p)))
    (Algo.as_Sensitivity p) (Algo.text_unless_zero (qty_dec (Algo.as_ShowQty p)))
    (Algo.text_unless_zero (rate_dec (Algo.as_QtyPercent p))) (Algo.as_Interval p).

Definition released_add (o : Algo.AlgoAddOrderRequest D) : AddOrderParams :=
  mkAddOrder (Algo.aa_StockCode o) (Algo.aa_ExchangeType o) (Algo.aa_OrderType o)
    (dec_String (price_dec (Algo.aa_Price o))) (dec_String (qty_dec (Algo.aa_Quantity o))) (Algo.aa_Side o)
    (Algo.aa_TargetStrategy o) (Algo.aa_SessionType o) (released_param (Algo.aa_StrategyParam o)).

Definition released_change (c : Algo.AlgoChangeOrderRequest D) : ChangeOrderParams :=
  mkChangeOrder (Algo.ac_OrderID c) (Algo.ac_StockCode c) (Algo.ac_ExchangeType c)
    (dec_String (price_dec (Algo.ac_Price c))) (dec_String (qty_dec (Algo.ac_Quantity c)))
    (released_param (Algo.ac_StrategyParam c)).

Lemma String_zero (d : D) : (val d == 0)%Q -> ~ writes_positive (dec_String d).
Proof using Type*.
  intros Hd (q & Hq & Hp). apply String_value in Hq. rewrite <- Hq, Hd in Hp. by apply Qlt_irrefl in Hp.
Qed.

Lemma text_positive (d : D) : (0 < val d)%Q -> writes_positive (Algo.text_unless_zero d).
Proof using Type*.
  intros Hd. unfold Algo.text_unless_zero. destruct (dec_IsZero d) eqn:Hz.
  - apply IsZero_law in Hz. rewrite Hz in Hd. by apply Qlt_irrefl in Hd.
  - by apply FutureReleased.String_positive.
Qed.

Lemma code_not_empty code : code_ok code -> code <> "".
Proof using Type. intros [Hc _] ->. by apply Hc. Qed.

Lemma id_not_empty id : id_ok id -> id <> "".
Proof using Type. intros Hi ->. by apply Hi. Qed.

Lemma exchange_given (m : Manager) e : market e -> exchangeType m e = e.
Proof using Type. unfold exchangeType. intros He. rewrite decide_True; [done |]. intros ->. by assert (~ market "") by decided. Qed.

Lemma add_migrates m acct (o : Algo.AlgoAddOrderRequest D) : Algo.AddOrder_checks acct o = Ret None ->
  fill_add m (released_add o) = released_add o
  /\ (AddOrder_validate opAddOrder (released_add o) = Ret None <-> (0 < val (price_dec (Algo.aa_Price o)))%Q).
Proof using Type*.
  intros Hc. apply Algo.add_checks_ok in Hc. unfold Algo.algo_add_ok in Hc.
  destruct Hc as (_ & Hcode & Hm & Ht & Hp & Hq & Hs & Hg & Hss & Hv & Hsn & _).
  split; [unfold fill_add, released_add; cbn; by rewrite exchange_given |].
  rewrite add_validates. unfold add_ok, released_add, released_param. cbn. split.
  - intros (_ & _ & _ & Hw & _). apply Qle_lteq in Hp as [Hp|Hp]; [done |]. by apply String_zero in Hw.
  - intros Hpos. apply code_not_empty in Hcode. repeat (split; [first [done | by apply FutureReleased.String_positive | by apply text_positive] |]). done.
Qed.

Lemma change_migrates m acct (c : Algo.AlgoChangeOrderRequest D) : Algo.ChangeOrder_checks acct c = Ret None ->
  fill_change m (released_change c) = released_change c
  /\ (ChangeOrder_validate opChangeOrder (released_change c) = Ret None <-> (0 < val (price_dec (Algo.ac_Price c)))%Q).
Proof using Type*.
  intros Hc. apply Algo.change_checks_ok in Hc. unfold Algo.algo_change_ok in Hc.
  destruct Hc as (_ & Hid & Hcode & Hm & Hp & Hq & Hsn & _).
  split; [unfold fill_change, released_change; cbn; by rewrite exchange_given |].
  rewrite change_validates. unfold change_ok, released_change, released_param. cbn. split.
  - intros (_ & _ & _ & Hw & _). apply Qle_lteq in Hp as [Hp|Hp]; [done |]. by apply String_zero in Hw.
  - intros Hpos. apply code_not_empty in Hcode. apply id_not_empty in Hid.
    repeat (split; [first [done | by apply FutureReleased.String_positive] |]). done.
Qed.

(** C24: every algorithm order and change the service accepts at a positive price is
    accepted by the released package, whatever its default market, and the two send
    the same JSON object to the same route. At the price zero, which the service
    accepts, the released package sends nothing and refuses the call. *)
Theorem algo_migration {W Raw} (X : executor W Raw) (R : Algo.algo_replies Raw) (R' : replies (Raw := Raw))
    (opts : list (option Option)) (acct : string) (o : Algo.AlgoAddOrderRequest D) (c : Algo.AlgoChangeOrderRequest D) (w : W) :
  let X := logged X in
  let m := New opts in
  let sent {A} (r : result (W * list (string * body)) A) := snd (snd r) in
  let moves (price : D) (route : string) (mine theirs : list (string * body)) (refused : Prop) :=
    exists b b', b ≡ₚ b' /\ mine = [(route, b)]
      /\ ((0 < val price)%Q -> theirs = [(route, b')])
      /\ (~ (0 < val price)%Q -> refused) in
  (Algo.AddOrder_checks acct o = Ret None ->
    moves (price_dec (Algo.aa_Price o)) RouteTradeAlgoAddOrder (sent (Algo.AddOrder X R acct o (w, [])))
      (sent (AddOrder X m R' (released_add o) (w, [])))
      (exists msg, AddOrder X m R' (released_add o) (w, []) = (Ret (inr (invalid opAddOrder msg)), (w, []))))
  /\ (Algo.ChangeOrder_checks acct c = Ret None ->
    moves (price_dec (Algo.ac_Price c)) RouteTradeAlgoChangeOrder (sent (Algo.ChangeOrder X R acct c (w, [])))
      (sent (ChangeOrder X m R' (released_change c) (w, [])))
      (exists msg, ChangeOrder X m R' (released_change c) (w, []) = (Ret (inr (invalid opChangeOrder msg)), (w, [])))).
Proof using Type*.
  intros X' m sent moves. unfold moves, sent, X', AddOrder, ChangeOrder. split; intros Hc.
  - destruct (add_migrates m acct o Hc) as [Hf Hv]. cbv zeta. rewrite Hf. unfold Algo.AddOrder. rewrite Hc. cbn [guard].
    rewrite call_logged. exists (Algo.algoAddOrderWireRequest o), (add_body (released_add o)).
    split; [unfold Algo.algoAddOrderWireRequest, add_body, released_add; cbn; solve_Permutation |]. split; [done |].
    destruct (guard_sends_or_invalid X _ opAddOrder RouteTradeAlgoAddOrder (add_body (released_add o)) _ w []
      (fun raw => Ret (rp_data R' raw)) (add_refuses _ _) Hv) as [Hs Hr].
    by split.
  - destruct (change_migrates m acct c Hc) as [Hf Hv]. cbv zeta. rewrite Hf. unfold Algo.ChangeOrder. rewrite Hc. cbn [guard].
    rewrite call_logged. exists (Algo.algoChangeOrderWireRequest c), (change_body (released_change c)).
    split; [unfold Algo.algoChangeOrderWireRequest, change_body, released_change; cbn; solve_Permutation |]. split; [done |].
    destruct (guard_sends_or_invalid X _ opChangeOrder RouteTradeAlgoChangeOrder (change_body (released_change c)) _ w []
      (fun raw => Ret (rp_data R' raw)) (change_refuses _ _) Hv) as [Hs Hr].
    by split.
Qed.
End migration.

(** ** The theorems on concrete orders *)
Definition demo_replies : replies (Raw := list Algo.AlgoMasterOrderWire) :=
  mkReplies (list Algo.AlgoMasterOrderWire) (fun _ => "OK") (fun l => l) (fun _ => []).

Definition at_price (p : dec) : Algo.AlgoAddOrderRequest dec :=
  match Algo.demo_order with
  | Algo.mkAlgoAdd code e t _ q s g ss sp => Algo.mkAlgoAdd code e t (mkPrice p (mkDec 0 0)) q s g ss sp
  end.

Definition demo_change : Algo.AlgoChangeOrderRequest dec :=
  Algo.mkAlgoChange "A1" "00700.HK" "K" (mkPrice (mkDec 0 0) (mkDec 0 0)) (mkQuantity (mkDec 100 0)) Algo.demo_param.

(** At 350.2 the released call sends one request, at 0 it is refused; both are
    accepted by the service. *)
Lemma algo_migration_witness :
  let X := Algo.demo_executor (Algo.demo_row "100") in
  (exists b', snd (snd (AddOrder (logged X) (New []) demo_replies (released_add (at_price (mkDec 3502 1))) (tt, [])))
     = [(RouteTradeAlgoAddOrder, b')])
  /\ Algo.AddOrder_checks "acct" (at_price (mkDec 0 0)) = Ret None
  /\ exists msg, AddOrder (logged X) (New []) demo_replies (released_add (at_price (mkDec 0 0))) (tt, [])
     = (Ret (inr (invalid opAddOrder msg)), (tt, [])).
Proof.
  intros X. split; [| split; [vm_compute; reflexivity |]].
  - destruct (algo_migration X Algo.demo_replies demo_replies [] "acct" (at_price (mkDec 3502 1)) demo_change tt) as [Hm _].
    destruct Hm as (b & b' & _ & _ & Hs & _); [vm_compute; reflexivity |]. exists b'. apply Hs. vm_compute. reflexivity.
  - destruct (algo_migration X Algo.demo_replies demo_replies [] "acct" (at_price (mkDec 0 0)) demo_change tt) as [Hm _].
    destruct Hm as (b & b' & _ & _ & _ & Hr); [vm_compute; reflexivity |]. apply Hr. vm_compute. discriminate.
Defined.

Lemma algo_released_exact_witness :
  let X := Algo.demo_executor (Algo.demo_row "100") in
  let m := New [Some (WithDefaultExchangeType "K")] in
  snd (snd (CancelOrder (logged X) m demo_replies (mkCancelOrder "A1" "") (tt, [])))
    = [(RouteTradeAlgoCancelOrder, [("orderId", JStr "A1"); ("exchangeType", JStr "K")])]
  /\ snd (snd (QueryOrderList (logged X) demo_replies (mkQueryOrders "1" "30" "20260231" "20260299" "" "") (tt, []))) <> [].
Proof.
  intros X m.
  destruct (algo_released_exact X demo_replies [Some (WithDefaultExchangeType "K")] (released_add (at_price (mkDec 1 0)))
    (released_change demo_change) (mkCancelOrder "A1" "") (mkCancelEntrust "" "" "") (mkActionOrder "" "" "" "")
    (mkQueryOrders "1" "30" "20260231" "20260299" "" "") (mkQueryIDs "" "" "") tt []) as (_ & _ & Hl & _ & _ & Hq & _).
  split.
  - apply (proj1 Hl). split; [done | decided].
  - rewrite (proj1 Hq); [done |]. apply (orders_validate opQueryOrderList). vm_compute. reflexivity.
Defined.
