(* ===== verification/GoNumbers.v ===== *)
(** The readers of numbers of the Go standard library that the released trading
    package calls: [strconv.Atoi] and [big.Rat.SetString], the second in full (a
    fraction, or a floating-point text with an exponent, in the four bases, with
    separators), and what they read on plain decimals. *)
From Stdlib Require Import QArith Qpower Lqa.
From S2P Require Import Prelude Types Errs Domain Decimals Service Released.
Local Open Scope Z_scope.
Local Open Scope go_scope.

(** ** [strconv.Atoi] *)

(** An optional sign, and the rest. *)
Definition scanSign (s : bytes) : bool * bytes :=
  match s with
  | "-"%char :: s' => (true, s')
  | "+"%char :: s' => (false, s')
  | _ => (false, s)
  end.

Definition signed (neg : bool) (z : Z) : Z := if neg then - z else z.

(** Digits after an optional sign, within 64 bits. *)
Definition parse_int (s : bytes) : option Z :=
  let '(neg, t) := scanSign s in
  if decide (t = []) then None
  else z ← digits_value 0 t;
       if decide (int_min <= signed neg z <= int_max) then Some (signed neg z) else None.

Definition Atoi (s : string) : option Z := parse_int (text s).

(** ** [nat.scan] *)

(** The last character read: a digit (or a base prefix), a separator, other. *)
Inductive prev := PDigit | PSep | POther.

#[global] Instance prev_dec : EqDecision prev.
Proof. solve_decision. Defined.

Definition digit_of (c : ascii) : Z :=
  let n := Z.of_nat (nat_of_ascii c) in
  if is_dig c then n - 48
  else if in_range "a" "z" c then n - 97 + 10
  else if in_range "A" "Z" c then n - 65 + 10
  else 63.

(** What the loop over the digits leaves: the value, the digits counted, where the
    point was, whether every separator was between digits, and the text left. *)
Record scanned := mkScanned {
  sc_value : Z;
  sc_count : Z;
  sc_dp : option Z;
  sc_ok : bool;
  sc_rest : bytes;
}.

Fixpoint scan_digits (b : Z) (fracOk : bool) (p : prev) (ok : bool) (z count : Z) (dp : option Z) (s : bytes)
    : scanned :=
  let done := mkScanned z count dp (ok && negb (bool_decide (p = PSep))) s in
  match s with
  | [] => done
  | c :: s' =>
      if fracOk && bool_decide (c = "."%char) then
        scan_digits b false POther (ok && negb (bool_decide (p = PSep))) z count (Some count) s'
      else if decide (c = "_"%char) then
        scan_digits b fracOk PSep (ok && bool_decide (p = PDigit)) z count dp s'
      else if decide (b <= digit_of c) then done
      else scan_digits b fracOk PDigit ok (z * b + digit_of c) (count + 1) dp s'
  end.

(** The base a text names: its value, whether the prefix is the octal zero, the
    digits already counted, the last character, the text that follows. *)
Definition scan_base (fracOk : bool) (s : bytes) : Z * bool * Z * prev * bytes :=
  match s with
  | "0"%char :: s' =>
      match s' with
      | [] => (10, false, 1, PDigit, [])
      | c :: t =>
          if char_in c "bB" then (2, false, 0, PDigit, t)
          else if char_in c "oO" then (8, false, 0, PDigit, t)
          else if char_in c "xX" then (16, false, 0, PDigit, t)
          else if fracOk then (10, false, 1, PDigit, s') else (8, true, 0, PDigit, s')
      end
  | _ => (10, false, 0, POther, s)
  end.

(** The value, the base, the digits (or, after a point, minus the digits that follow
    it), and the text left. *)
Definition nat_scan (fracOk : bool) (s : bytes) : option (Z * Z * Z * bytes) :=
  let '(b, octal, count, p, s) := scan_base fracOk s in
  let r := scan_digits b fracOk p true 0 count None s in
  if negb (sc_ok r) then None
  else if decide (sc_count r = 0) then (if octal then Some (0, 10, 1, sc_rest r) else None)
  else Some (sc_value r, b, match sc_dp r with Some dp => dp - sc_count r | None => sc_count r end, sc_rest r).

(** ** [scanExponent] *)
Fixpoint exponent_digits (p : prev) (ok : bool) (s : bytes) : bytes * bool * bytes :=
  match s with
  | c :: s' =>
      if is_dig c then let '(ds, ok, r) := exponent_digits PDigit ok s' in (c :: ds, ok, r)
      else if decide (c = "_"%char) then exponent_digits PSep (ok && bool_decide (p = PDigit)) s'
      else ([], ok && negb (bool_decide (p = PSep)), s)
  | [] => ([], ok && negb (bool_decide (p = PSep)), [])
  end.

(** The exponent, its base, and the text left. *)
Definition scanExponent (s : bytes) : option (Z * Z * bytes) :=
  match s with
  | c :: t =>
      if char_in c "eEpP" then
        let '(neg, t) := scanSign t in
        let '(ds, ok, r) := exponent_digits POther true t in
        n ← parse_int ((if neg then ["-"%char] else []) ++ ds);
        if ok then Some (n, if char_in c "eE" then 10 else 2, r) else None
      else Some (0, 10, s)
  | [] => Some (0, 10, [])
  end.

(** ** [Rat.SetString] *)
Definition maxExp5 : Z := 1000000.
Definition maxExp2 : Z := 10000000.

Definition fraction (a b : bytes) : option Q :=
  let '(neg, a) := scanSign a in
  '(n, _, _, rest) ← nat_scan false a;
  if decide (rest <> []) then None
  else
    '(d, _, _, rest) ← nat_scan false b;
    if decide (rest <> [] \/ d = 0) then None else Some (signed neg n # Z.to_pos d).

(** The powers of five and of two that the point and the exponent stand for. *)
Definition scale_of (base fcount exp ebase : Z) : Z * Z :=
  let d := Z.min fcount 0 in
  let '(exp5, exp2) :=
    if decide (base = 10) then (d, d) else if decide (base = 2) then (0, d)
    else if decide (base = 8) then (0, d * 3) else (0, d * 4) in
  if decide (ebase = 10) then (exp5 +! exp, exp2 +! exp) else (exp5, exp2 +! exp).

Definition floating (s : bytes) : option Q :=
  let '(neg, s) := scanSign s in
  '(m, base, fcount, s) ← nat_scan true s;
  '(exp, ebase, s) ← scanExponent s;
  if decide (s <> []) then None
  else if decide (m = 0) then Some 0%Q
  else
    let '(exp5, exp2) := scale_of base fcount exp ebase in
    if decide (maxExp5 < Z.abs exp5 \/ maxExp2 < Z.abs exp2) then None
    else Some (inject_Z (signed neg m) * Qpower 5 exp5 * Qpower 2 exp2)%Q.

(** The text before the first slash, and after it. *)
Fixpoint cut_slash (s : bytes) : option (bytes * bytes) :=
  match s with
  | [] => None
  | c :: s' =>
      if decide (c = "/"%char) then Some ([], s')
      else '(a, b) ← cut_slash s'; Some (c :: a, b)
  end.

Definition Rat_SetString (s : string) : option Q :=
  if decide (s = "") then None
  else match cut_slash (text s) with
       | Some (a, b) => fraction a b
       | None => floating (text s)
       end.

Example rat_examples :
  map (fun s => Qred <$> Rat_SetString s)
    ["12.50"; "-3"; "+007"; "1/2"; "4/06"; "1e3"; "25E-1"; "0x10"; "0x.8p1"; "1_000"; "0b101"; "010"; "010/1"; ".5"; "5."; "0/7"]
  = Some <$> [(25 # 2)%Q; (-3)%Q; 7%Q; (1 # 2)%Q; (2 # 3)%Q; 1000%Q; (5 # 2)%Q; 16%Q; 1%Q; 1000%Q; 5%Q; 10%Q; 8%Q; (1 # 2)%Q; 5%Q; 0%Q].
Proof. vm_compute. reflexivity. Qed.

Example rat_refused :
  map (fun s => Rat_SetString s)
    [""; "1/0"; "1/-2"; "1e"; "1__0"; "_1"; "1_"; "0x"; "1 "; "12.5.0"; "--1"; "1e1000001"; "abc"; "NaN"; "."; "1/2/3"; "08/1"]
  = repeat None 17.
Proof. vm_compute. reflexivity. Qed.

Example atoi_examples :
  map Atoi ["100"; "+7"; "-1"; "007"; ""; "-"; "1.0"; "1_0"; " 1"; "9223372036854775807"; "9223372036854775808"]
  = [Some 100; Some 7; Some (-1); Some 7; None; None; None; None; None; Some 9223372036854775807; None].
Proof. vm_compute. reflexivity. Qed.

(** ** Plain decimals *)
Lemma digit_checked :
  forallb (fun c => implb (is_dig c)
    (negb (bool_decide (c = "."%char)) && negb (bool_decide (c = "_"%char)) && negb (bool_decide (c = "/"%char))
     && negb (char_in c "+-bBoOxX")
     && bool_decide (digit_of c < 10) && bool_decide (digit_value c = Some (digit_of c)))) all_ascii = true.
Proof. vm_compute. reflexivity. Qed.

Lemma digit_char c : is_dig c = true ->
  c <> "."%char /\ c <> "_"%char /\ c <> "/"%char /\ char_in c "+-bBoOxX" = false
  /\ digit_of c < 10 /\ digit_value c = Some (digit_of c).
Proof.
  intros Hc. pose proof (ascii_forall _ digit_checked c) as H. cbv beta in H. rewrite Hc in H. cbn [implb] in H.
  rewrite !andb_true_iff, !negb_true_iff, !bool_decide_eq_false, !bool_decide_eq_true in H. tauto.
Qed.

Lemma scan_digits_run a t fracOk p ok z n dp v : all_digits a -> digits_value z a = Some v ->
  scan_digits 10 fracOk p ok z n dp (a ++ t)
    = scan_digits 10 fracOk (if decide (a = []) then p else PDigit) ok v (n + Z.of_nat (length a)) dp t.
Proof.
  revert p z n. induction a as [|c a IH]; intros p z n Ha Hv.
  { injection Hv as <-. rewrite decide_True by done. simpl. by rewrite Z.add_0_r. }
  apply all_digits_cons in Ha as [Hc Ha]. destruct (digit_char c Hc) as (Hd & Hu & _ & _ & Hl & Hdv).
  cbn [digits_value] in Hv. rewrite Hdv in Hv. cbn [mbind option_bind] in Hv.
  cbn [app scan_digits]. rewrite (bool_decide_eq_false_2 _ Hd), andb_false_r, (decide_False (P := c = "_"%char)) by done.
  rewrite decide_False by lia. rewrite (IH PDigit _ _ Ha Hv), (decide_False (P := c :: a = [])) by done.
  cbn [length]. replace (n + 1 + Z.of_nat (length a)) with (n + Z.of_nat (S (length a))) by lia. by case_decide.
Qed.

Lemma scan_digits_end p z n dp : p <> PSep ->
  forall b fracOk, scan_digits b fracOk p true z n dp [] = mkScanned z n dp true [].
Proof. intros Hp b fracOk. simpl. by rewrite bool_decide_eq_false_2. Qed.

Lemma scan_digits_point b p ok z n dp s :
  scan_digits b true p ok z n dp ("."%char :: s)
    = scan_digits b false POther (ok && negb (bool_decide (p = PSep))) z n (Some n) s.
Proof. reflexivity. Qed.

(** The digits of a numeral, and those after its point, once its first character is
    known to be one of them. *)
Definition point_tail (f : bytes) : bytes := match f with [] => [] | _ => "."%char :: f end.
Definition after_point (n : Z) (f : bytes) : option Z := match f with [] => None | _ => Some n end.

Lemma scan_numeral_tail p a f z n v : p <> PSep -> all_digits a -> all_digits f -> digits_value z (a ++ f) = Some v ->
  scan_digits 10 true p true z n None (a ++ point_tail f)
    = mkScanned v (n + Z.of_nat (length a) + Z.of_nat (length f)) (after_point (n + Z.of_nat (length a)) f) true [].
Proof.
  intros Hp Ha Hf Hv. rewrite digits_value_app in Hv.
  destruct (digits_value z a) as [va|] eqn:Hva; [|done]. cbn [mbind option_bind] in Hv.
  rewrite (scan_digits_run _ _ _ _ _ _ _ _ _ Ha Hva). set (p' := if decide (a = []) then p else PDigit).
  assert (Hp' : p' <> PSep) by (unfold p'; by case_decide). destruct f as [|c f]; cbn [point_tail after_point].
  - injection Hv as <-. rewrite scan_digits_end by done. by rewrite Z.add_0_r.
  - rewrite scan_digits_point. rewrite (bool_decide_eq_false_2 (p' = PSep)) by done. cbn [negb andb].
    pose proof (scan_digits_run (c :: f) [] false POther true va (n + Z.of_nat (length a))
      (Some (n + Z.of_nat (length a))) v Hf Hv) as Hr. rewrite app_nil_r in Hr. rewrite Hr.
    by rewrite decide_False, scan_digits_end.
Qed.

Lemma numeral_text s a f : numeral s a f -> s = a ++ point_tail f /\ a <> [] /\ all_digits a /\ all_digits f.
Proof.
  destruct 1 as [a Hne Ha|a f Hne Hf Ha Hd]; simpl.
  - rewrite app_nil_r. split; [done |]. split; [done |]. split; [done | apply Forall_nil_2].
  - split; [by destruct f | done].
Qed.

Lemma scan_base_digit c s : c <> "0"%char -> scan_base true (c :: s) = (10, false, 0, POther, c :: s).
Proof. intros Hc. by destruct c as [[] [] [] [] [] [] [] []]. Qed.

(** A numeral is read to its end in base ten. *)
Lemma nat_scan_numeral s a f : numeral s a f ->
  exists z, digits_value 0 (a ++ f) = Some z /\ exists n, nat_scan true s = Some (z, 10, n, [])
    /\ Z.min n 0 = - Z.of_nat (length f).
Proof.
  intros Hn. destruct (numeral_read s a f Hn) as (z & Hz & _). exists z. split; [done |].
  destruct (numeral_text s a f Hn) as (-> & Hne & Ha & Hf). destruct a as [|c a]; [done |].
  assert (Hscan : forall p n a', p <> PSep -> all_digits a' -> digits_value 0 (a' ++ f) = Some z ->
    0 < n + Z.of_nat (length a') ->
    scan_digits 10 true p true 0 n None (a' ++ point_tail f)
      = mkScanned z (n + Z.of_nat (length a') + Z.of_nat (length f)) (after_point (n + Z.of_nat (length a')) f) true []).
  { intros p n a' Hp Ha' Hv _. by apply scan_numeral_tail. }
  assert (Hend : forall n m : Z, 0 < n ->
    (if decide (n + Z.of_nat (length f) = 0) then None
     else Some (z, 10, match after_point n f with Some dp => dp - (n + Z.of_nat (length f)) | None => n + Z.of_nat (length f) end, [] : bytes))
    = Some (z, 10, match f with [] => n | _ => - Z.of_nat (length f) end, [])).
  { intros n _ Hpos. rewrite decide_False by lia. destruct f; simpl; do 3 f_equal; lia. }
  exists (match f with [] => Z.of_nat (length (c :: a)) | _ => - Z.of_nat (length f) end).
  split; [| destruct f; simpl; lia]. unfold nat_scan.
  destruct (decide (c = "0"%char)) as [->|Hc].
  - apply all_digits_cons in Ha as [_ Ha].
    assert (Hb : scan_base true (("0"%char :: a) ++ point_tail f) = (10, false, 1, PDigit, a ++ point_tail f)).
    { destruct a as [|c' a]; [destruct f; reflexivity |]. apply all_digits_cons in Ha as [Hc' _].
      destruct (digit_char c' Hc') as (_ & _ & _ & Hin & _). clear -Hin.
      by destruct c' as [[] [] [] [] [] [] [] []]. }
    rewrite Hb, (Hscan PDigit 1 a) by (done || lia). cbn [sc_ok sc_count sc_dp sc_value sc_rest negb].
    rewrite (Hend (1 + Z.of_nat (length a)) 0) by lia. cbn [length]. do 3 f_equal. destruct f; lia.
  - cbn [app]. rewrite scan_base_digit by done.
    change (c :: a ++ point_tail f) with ((c :: a) ++ point_tail f).
    rewrite (Hscan POther 0 (c :: a)) by (done || (cbn [length]; lia)). cbn [sc_ok sc_count sc_dp sc_value sc_rest negb].
    rewrite (Hend (0 + Z.of_nat (length (c :: a))) 0) by (cbn [length]; lia). done.
Qed.

Lemma numeral_no_slash s a f : numeral s a f -> cut_slash s = None.
Proof.
  intros (-> & _ & Ha & Hf)%numeral_text.
  assert (Hrun : forall d t, all_digits d -> cut_slash t = None -> cut_slash (d ++ t) = None).
  { intros d t Hd Ht. induction d as [|c d IH]; [done |]. apply all_digits_cons in Hd as [Hc Hd].
    cbn [app cut_slash]. rewrite decide_False by (by apply digit_char). by rewrite (IH Hd). }
  apply Hrun; [done |]. destruct f as [|c f]; [done |].
  pose proof (Hrun (c :: f) [] Hf eq_refl) as H. rewrite app_nil_r in H.
  change (('(a, b) ← cut_slash (c :: f); Some ("."%char :: a, b)) = None). by rewrite H.
Qed.

Lemma numeral_no_sign s a f : numeral s a f -> scanSign s = (false, s).
Proof.
  intros (-> & Hne & Ha & _)%numeral_text. destruct a as [|c a]; [done |]. apply all_digits_cons in Ha as [Hc _].
  destruct (digit_char c Hc) as (_ & _ & _ & Hin & _). clear -Hin. by destruct c as [[] [] [] [] [] [] [] []].
Qed.

Lemma power_ten n : (Qpower 5 (- Z.of_nat n) * Qpower 2 (- Z.of_nat n) == / inject_Z (10 ^ Z.of_nat n))%Q.
Proof.
  rewrite !Qpower_opp. rewrite Zpower_Qpower by lia. change (inject_Z 10) with (5 * 2)%Q.
  rewrite Qmult_power. by rewrite Qinv_mult_distr.
Qed.

(** [Rat.SetString] reads a plain decimal as the number it writes, unless it has
    more than a million fraction digits. *)
Lemma rat_numeral s q : numeral_value s = Some q -> Z.of_nat (length (text s)) <= maxExp5 ->
  exists q', Rat_SetString s = Some q' /\ (q' == q)%Q.
Proof.
  intros Hq Hlen. rewrite <- (str_text s) in Hq. destruct (numeral_of _ _ Hq) as (a & f & Hn).
  destruct (numeral_read _ _ _ Hn) as (z & Hz & Hv). rewrite Hq in Hv. injection Hv as ->.
  destruct (nat_scan_numeral _ _ _ Hn) as (z' & Hz' & n & Hs & Hmin). rewrite Hz in Hz'. injection Hz' as <-.
  assert (Hf : Z.of_nat (length f) <= maxExp5).
  { destruct (numeral_text _ _ _ Hn) as (Ht & _). rewrite Ht, length_app in Hlen. destruct f; simpl in *; lia. }
  unfold Rat_SetString. rewrite decide_False by (intros ->; destruct (numeral_text _ _ _ Hn) as (Ht & Hne & _); by destruct a).
  rewrite (numeral_no_slash _ _ _ Hn). unfold floating. rewrite (numeral_no_sign _ _ _ Hn), Hs.
  cbn [mbind option_bind scanExponent]. rewrite decide_False by (intros H; by apply H).
  case_decide as Hm; [exists 0%Q; split; [done |]; subst z; by unfold Qeq |].
  unfold scale_of. rewrite Hmin. rewrite !decide_True by done. rewrite !Z.add_0_r.
  unfold maxExp5, maxExp2 in *. rewrite swrap64_id by (unfold int_min, int_max; lia).
  rewrite decide_False by lia. eexists. split; [done |].
  rewrite <- Qmult_assoc, power_ten. unfold signed.
  unfold Qeq, inject_Z, Qinv, Qmult. simpl.
  destruct (10 ^ Z.of_nat (length f)) as [|p|p] eqn:Hp; simpl; try lia.
  all: pose proof (Z.pow_pos_nonneg 10 (Z.of_nat (length f)) ltac:(lia) ltac:(lia)); lia.
Qed.
