(* ===== verification/TradeRows.v ===== *)
(** The data of the released trading package: the requests of
    [src/pkg/hstong/trade/orders.go] and [assets.go] with the JSON objects they
    encode to, and the rows of their replies. *)
From S2P Require Import Prelude Types Errs Service.
Local Open Scope Z_scope.

(** An [omitempty] list of texts. *)
Definition arr_omitempty (k : string) (l : list string) : body :=
  match l with [] => [] | _ => [(k, JArr (map JStr l))] end.

Record MarginFundInfo := mkMarginFundInfo {
  fi_HoldsBalance : string; fi_AssetBalance : string; fi_EnableBalance : string; fi_MarketValue : string;
  fi_CashOnHold : string; fi_CreditValue : string; fi_CreditLine : string; fi_FetchBalance : string;
  fi_FrozenBalance : string; fi_AccountStatus : string; fi_SpentRatio : string;
  fi_CurrentCreditLimit : string; fi_MaxCreditLimit : string; fi_UnitCreditLimit : string;
  fi_UnitMaxCreditLimit : string; fi_BuyPower : string; fi_BuyPowerCredit : string; fi_BuyPowerHk : string;
  fi_BuyPowerUs : string; fi_BuyPowerCn : string; fi_UnitedBuyPowerHk : string; fi_UnitedBuyPowerUs : string;
  fi_UnitedBuyPowerCn : string; fi_ThirdBuyPowerHk : string; fi_ThirdBuyPowerUs : string;
  fi_ThirdBuyPowerCn : string; fi_BuyPowerShortMarket : string; fi_BuyPowerMoney : string;
}.

Record HoldsVo := mkHoldsVo {
  hv_StockName : string; hv_EnableAmount : string; hv_CurrentAmount : string; hv_StockCode : string;
  hv_CostPrice : string; hv_LastPrice : string; hv_IncomeBalance : string; hv_MarketValue : string;
  hv_MarketValueRate : string; hv_IncomeRatio : string; hv_DayCostPrice : string;
  hv_DayInComeAmount : string; hv_DayOutComeAmount : string; hv_KeepCostPrice : string;
  hv_ExchangeType : string;
}.

Record FundJourVo := mkFundJourVo {
  fj_BusinessBalance : string; fj_Type : string; fj_TypeDesc : string; fj_FundJourParentType : string;
  fj_Time : string; fj_QueryParamStr : string;
}.

Record FailCancelEntrustVo := mkFailCancelEntrustVo {
  fc_FailEntrustID : string; fc_Remark : string;
}.

Record BatchCancelEntrustResult := mkBatchCancelEntrustResult {
  bc_SuccessEntrustID : list string; bc_FailCancelEntrust : list FailCancelEntrustVo;
}.

Record MaxAvailableAsset := mkMaxAvailableAsset {
  ma_PositionStatus : string; ma_Position : string; ma_LongOpenAvailable : string;
  ma_LongCloseAvailable : string; ma_CashAvailableToOpen : string; ma_MarginAvailableToOpen : string;
  ma_CashAndMarginAvailableToOpen : string; ma_CashAvailableAmount : string;
  ma_MarginAvailableAmount : string; ma_CashAndMarginAvailableAmount : string;
  ma_ShortOpenAvailable : string; ma_ShortCloseAvailable : string; ma_ShortCloseCashAvailable : string;
  ma_ShortOpenPool : string; ma_ShortBuyPower : string; ma_ContractSize : string;
  ma_UnitedBuyPowerStatus : string; ma_CreditLimit : string; ma_OptionLongMarginAmount : string;
  ma_OptionShortMarginAmount : string;
}.

Record FareVo := mkFareVo {
  fv_Fare0 : string; fv_Fare1 : string; fv_Fare2 : string; fv_Fare3 : string; fv_Fare4 : string;
  fv_Fare5 : string; fv_Fare6 : string; fv_Fare7 : string; fv_Fare8 : string; fv_Fare9 : string;
  fv_FareX : string; fv_FareT : string;
}.

Record OrderVo := mkOrderVo {
  ov_StockCode : string; ov_StockName : string; ov_BusinessPrice : string; ov_EntrustBS : string;
  ov_EntrustPrice : string; ov_BusinessBalance : string; ov_EntrustAmount : string;
  ov_BusinessAmount : string; ov_Date : string; ov_BusinessTime : string; ov_EntrustTime : string;
  ov_QueryParamStr : string; ov_StatusDesc : string; ov_Status : string; ov_EntrustID : string;
  ov_UnBusinessAmount : string; ov_CanBeCanceled : Z; ov_EntrustType : string; ov_OpponentSeat : string;
  ov_EntrustTypeNum : string; ov_RemarkType : string; ov_Remark : string; ov_FareVo : option FareVo;
  ov_ExchangeType : string; ov_CanBeUpdated : Z; ov_Exchange : string;
}.

Record CondOrderVo := mkCondOrderVo {
  cv_CondOrderID : string; cv_DataType : string; cv_StockCode : string; cv_StockName : string;
  cv_StockNameTc : string; cv_StockNameEn : string; cv_ExchangeType : string; cv_EntrustType : string;
  cv_SessionType : string; cv_Status : string; cv_CanBeCancel : string; cv_CanBeModify : string;
  cv_EntrustBS : string; cv_EntrustAmount : string; cv_CreateTime : string; cv_StartTime : string;
  cv_EndTime : string; cv_ErrorCode : string; cv_ErrorMsg : string; cv_CondValue : string;
  cv_CondPrice : string; cv_CondTrackType : string;
}.

Record CondOrderPage := mkCondOrderPage {
  cp_Data : list CondOrderVo; cp_CurPageNo : Z; cp_CurPageSize : Z; cp_TotalPages : Z;
}.

Record RateVo := mkRateVo {
  rv_CurrencyCode : string; rv_CurrencyDesc : string; rv_InterestRateWithinMortgage : string;
}.

Record MarginFullInfo := mkMarginFullInfo {
  mi_MarginAllow : string; mi_MarginInitRatio : string; mi_MarginKeepRatio : string; mi_ShortAllow : string;
  mi_ShortInitMarginRatio : string; mi_ShortInterestRate : string; mi_ShortKeepMarginRatio : string;
  mi_ShortLastAvailableQty : string; mi_Rate : list RateVo;
}.

Record EntrustRequest := mkEntrustRequest {
  er_ExchangeType : string; er_StockCode : string; er_EntrustAmount : string; er_EntrustPrice : string;
  er_EntrustBS : string; er_EntrustType : string; er_ClientType : Z; er_Exchange : string;
  er_SessionType : string; er_IceBergDisplaySize : string; er_ValidDays : string; er_CondValue : string;
  er_CondTrackType : string;
}.

Definition EntrustRequest_body (r : EntrustRequest) : body :=
  str_field "exchangeType" (er_ExchangeType r) ++ str_field "stockCode" (er_StockCode r) ++
  str_field "entrustAmount" (er_EntrustAmount r) ++ str_omitempty "entrustPrice" (er_EntrustPrice r) ++
  str_field "entrustBs" (er_EntrustBS r) ++ str_field "entrustType" (er_EntrustType r) ++
  int_omitempty "clientType" (er_ClientType r) ++ str_omitempty "exchange" (er_Exchange r) ++
  str_omitempty "sessionType" (er_SessionType r) ++
  str_omitempty "iceBergDisplaySize" (er_IceBergDisplaySize r) ++
  str_omitempty "validDays" (er_ValidDays r) ++ str_omitempty "condValue" (er_CondValue r) ++
  str_omitempty "condTrackType" (er_CondTrackType r).

Record CancelEntrustRequest := mkCancelEntrustRequest {
  cr_ExchangeType : string; cr_StockCode : string; cr_EntrustAmount : string; cr_EntrustPrice : string;
  cr_EntrustID : string; cr_EntrustType : string;
}.

Definition CancelEntrustRequest_body (r : CancelEntrustRequest) : body :=
  str_field "exchangeType" (cr_ExchangeType r) ++ str_field "stockCode" (cr_StockCode r) ++
  str_omitempty "entrustAmount" (cr_EntrustAmount r) ++ str_omitempty "entrustPrice" (cr_EntrustPrice r) ++
  str_field "entrustId" (cr_EntrustID r) ++ str_omitempty "entrustType" (cr_EntrustType r).

Record BatchCancelEntrustRequest := mkBatchCancelEntrustRequest {
  br_ExchangeType : string; br_EntrustIDs : list string;
}.

Definition BatchCancelEntrustRequest_body (r : BatchCancelEntrustRequest) : body :=
  str_field "exchangeType" (br_ExchangeType r) ++ arr_omitempty "entrustId" (br_EntrustIDs r).

Record ChangeEntrustRequest := mkChangeEntrustRequest {
  hr_ExchangeType : string; hr_StockCode : string; hr_EntrustAmount : string; hr_EntrustPrice : string;
  hr_EntrustID : string; hr_EntrustType : string; hr_SessionType : string; hr_ValidDays : string;
  hr_CondValue : string; hr_CondTrackType : string;
}.

Definition ChangeEntrustRequest_body (r : ChangeEntrustRequest) : body :=
  str_field "exchangeType" (hr_ExchangeType r) ++ str_field "stockCode" (hr_StockCode r) ++
  str_field "entrustAmount" (hr_EntrustAmount r) ++ str_omitempty "entrustPrice" (hr_EntrustPrice r) ++
  str_field "entrustId" (hr_EntrustID r) ++ str_omitempty "entrustType" (hr_EntrustType r) ++
  str_omitempty "sessionType" (hr_SessionType r) ++ str_omitempty "validDays" (hr_ValidDays r) ++
  str_omitempty "condValue" (hr_CondValue r) ++ str_omitempty "condTrackType" (hr_CondTrackType r).

Record MaxAvailableAssetRequest := mkMaxAvailableAssetRequest {
  ar_ExchangeType : string; ar_StockCode : string; ar_EntrustPrice : string; ar_EntrustType : string;
}.

Definition MaxAvailableAssetRequest_body (r : MaxAvailableAssetRequest) : body :=
  str_field "exchangeType" (ar_ExchangeType r) ++ str_field "stockCode" (ar_StockCode r) ++
  str_field "entrustPrice" (ar_EntrustPrice r) ++ str_field "entrustType" (ar_EntrustType r).

Record RealEntrustListRequest := mkRealEntrustListRequest {
  rr_ExchangeType : string; rr_QueryCount : Z; rr_QueryParamStr : string; rr_EntrustIDs : list string;
}.

Definition RealEntrustListRequest_body (r : RealEntrustListRequest) : body :=
  str_field "exchangeType" (rr_ExchangeType r) ++ int_field "queryCount" (rr_QueryCount r) ++
  str_field "queryParamStr" (rr_QueryParamStr r) ++ arr_omitempty "entrustId" (rr_EntrustIDs r).

Record RealDeliverListRequest := mkRealDeliverListRequest {
  rd_ExchangeType : string; rd_QueryCount : Z; rd_QueryParamStr : string;
}.

Definition RealDeliverListRequest_body (r : RealDeliverListRequest) : body :=
  str_field "exchangeType" (rd_ExchangeType r) ++ int_field "queryCount" (rd_QueryCount r) ++
  str_field "queryParamStr" (rd_QueryParamStr r).

Record CondOrderListRequest := mkCondOrderListRequest {
  cq_ExchangeType : string; cq_StockCode : string; cq_PageNo : Z; cq_PageSize : Z;
}.

Definition CondOrderListRequest_body (r : CondOrderListRequest) : body :=
  str_field "exchangeType" (cq_ExchangeType r) ++ str_omitempty "stockCode" (cq_StockCode r) ++
  int_field "pageNo" (cq_PageNo r) ++ int_field "pageSize" (cq_PageSize r).

Record HistoryEntrustListRequest := mkHistoryEntrustListRequest {
  he_ExchangeType : string; he_QueryCount : Z; he_QueryParamStr : string; he_StartDate : string;
  he_EndDate : string;
}.

Definition HistoryEntrustListRequest_body (r : HistoryEntrustListRequest) : body :=
  str_field "exchangeType" (he_ExchangeType r) ++ int_field "queryCount" (he_QueryCount r) ++
  str_field "queryParamStr" (he_QueryParamStr r) ++ str_field "startDate" (he_StartDate r) ++
  str_field "endDate" (he_EndDate r).

Record HistoryDeliverListRequest := mkHistoryDeliverListRequest {
  hd_ExchangeType : string; hd_QueryCount : Z; hd_QueryParamStr : string; hd_StartDate : string;
  hd_EndDate : string;
}.

Definition HistoryDeliverListRequest_body (r : HistoryDeliverListRequest) : body :=
  str_field "exchangeType" (hd_ExchangeType r) ++ int_field "queryCount" (hd_QueryCount r) ++
  str_field "queryParamStr" (hd_QueryParamStr r) ++ str_field "startDate" (hd_StartDate r) ++
  str_field "endDate" (hd_EndDate r).

Record HistoryCondOrderListRequest := mkHistoryCondOrderListRequest {
  hc_ExchangeType : string; hc_StockCode : string; hc_PageNo : string; hc_PageSize : string;
  hc_StartTime : string; hc_EndTime : string;
}.

Definition HistoryCondOrderListRequest_body (r : HistoryCondOrderListRequest) : body :=
  str_field "exchangeType" (hc_ExchangeType r) ++ str_omitempty "stockCode" (hc_StockCode r) ++
  str_field "pageNo" (hc_PageNo r) ++ str_field "pageSize" (hc_PageSize r) ++
  str_field "startTime" (hc_StartTime r) ++ str_field "endTime" (hc_EndTime r).

Record MarginFullInfoRequest := mkMarginFullInfoRequest {
  mr_DataType : string; mr_StockCode : string;
}.

Definition MarginFullInfoRequest_body (r : MarginFullInfoRequest) : body :=
  str_field "dataType" (mr_DataType r) ++ str_field "stockCode" (mr_StockCode r).

Record BeforeAndAfterSupportRequest := mkBeforeAndAfterSupportRequest {
  bs_StockCode : string; bs_ExchangeType : string;
}.

Definition BeforeAndAfterSupportRequest_body (r : BeforeAndAfterSupportRequest) : body :=
  str_field "stockCode" (bs_StockCode r) ++ str_field "exchangeType" (bs_ExchangeType r).

Record MarginFundInfoRequest := mkMarginFundInfoRequest {
  fr_ExchangeType : string;
}.

Definition MarginFundInfoRequest_body (r : MarginFundInfoRequest) : body :=
  str_field "exchangeType" (fr_ExchangeType r).

Record PositionsRequest := mkPositionsRequest {
  pr_ExchangeType : string;
}.

Definition PositionsRequest_body (r : PositionsRequest) : body :=
  str_omitempty "exchangeType" (pr_ExchangeType r).

Record FundJourListRequest := mkFundJourListRequest {
  fl_ExchangeType : string; fl_QueryCount : Z; fl_QueryParamStr : string;
}.

Definition FundJourListRequest_body (r : FundJourListRequest) : body :=
  str_field "exchangeType" (fl_ExchangeType r) ++ int_field "queryCount" (fl_QueryCount r) ++
  str_field "queryParamStr" (fl_QueryParamStr r).

Record HistoryFundJourListRequest := mkHistoryFundJourListRequest {
  hf_ExchangeType : string; hf_QueryCount : Z; hf_QueryParamStr : string; hf_StartDate : string;
  hf_EndDate : string;
}.

Definition HistoryFundJourListRequest_body (r : HistoryFundJourListRequest) : body :=
  str_field "exchangeType" (hf_ExchangeType r) ++ int_field "queryCount" (hf_QueryCount r) ++
  str_field "queryParamStr" (hf_QueryParamStr r) ++ str_field "startDate" (hf_StartDate r) ++
  str_field "endDate" (hf_EndDate r).

Record ExchangeRateRequest := mkExchangeRateRequest {
  xr_RateType : string;
}.

Definition ExchangeRateRequest_body (r : ExchangeRateRequest) : body :=
  str_omitempty "rateType" (xr_RateType r).

(** The reply of a rate query: source currency, target currency, rate. *)
Definition ExchangeRates : Type := gmap string (gmap string string).

(** ** The reply of a position query

    Its text is an array, an object with a [holdsList], or one position inline;
    [json.Unmarshal] into the three forms is the codec's. A [holdsList] that is
    absent or null is [None]. *)
Section holds.
Context (as_list : bytes -> list HoldsVo + error) (as_wrapped : bytes -> option (list HoldsVo) + error)
  (as_single : bytes -> HoldsVo + error).

Definition HoldsListResponse_UnmarshalJSON (r : list HoldsVo) (data : bytes) : option error * list HoldsVo :=
  let trimmed := TrimSpace data in
  if decide (head trimmed = Some "["%char) then
    match as_list trimmed with inr e => (Some e, r) | inl l => (None, l) end
  else
    match as_wrapped trimmed with
    | inr e => (Some e, r)
    | inl (Some l) => (None, l)
    | inl None =>
        match as_single trimmed with
        | inr e => (Some e, r)
        | inl v => (None, if decide (hv_StockCode v <> "" \/ hv_StockName v <> "") then [v] else r)
        end
    end.

(** The rows of a reply are those of its list, of its [holdsList], or its one row,
    whichever form it has; an error leaves the rows as they were. *)
Lemma holds_forms r data :
  let t := TrimSpace data in
  let out := HoldsListResponse_UnmarshalJSON r data in
  (fst out <> None -> snd out = r)
  /\ (forall l, head t = Some "["%char -> as_list t = inl l -> out = (None, l))
  /\ (forall l, head t <> Some "["%char -> as_wrapped t = inl (Some l) -> out = (None, l))
  /\ (forall v, head t <> Some "["%char -> as_wrapped t = inl None -> as_single t = inl v ->
       hv_StockCode v <> "" -> out = (None, [v])).
Proof using Type.
  intros t out. unfold out, HoldsListResponse_UnmarshalJSON. fold t. split_and!.
  - case_decide; [by destruct (as_list t) |]. by destruct (as_wrapped t) as [[l|]|e]; [| destruct (as_single t) |].
  - intros l Hh Hl. by rewrite decide_True, Hl.
  - intros l Hh Hl. by rewrite decide_False, Hl.
  - intros v Hh Hw Hs Hc. rewrite decide_False, Hw, Hs by done. by rewrite decide_True by auto.
Qed.
End holds.
