(* ===== verification/TradeReleased.v ===== *)
(** The released trading package: [src/pkg/hstong/trade/orders.go], [assets.go] and
    [push.go]. A [Manager] checks its arguments, asks its session to log in, sends
    one request, and asks for a new login when the reply says the session is gone;
    the request is never repeated. *)
From Stdlib Require Import QArith.
From S2P Require Import Prelude Types Errs Retry Routes Domain Decimals Service Released GoNumbers Pagination TradeRows.
Local Open Scope Z_scope.
Local Open Scope go_scope.

(** ** Constants *)
Definition opEntrust : string := "trade/TradeEntrust".
Definition opCancelEntrust : string := "trade/TradeCancelEntrust".
Definition opBatchCancelEntrust : string := "trade/TradeBatchCancelEntrust".
Definition opChangeEntrust : string := "trade/TradeChangeEntrust".
Definition opMaxAvailableAsset : string := "trade/TradeQueryMaxAvailableAsset".
Definition opRealEntrustList : string := "trade/TradeQueryRealEntrustList".
Definition opRealDeliverList : string := "trade/TradeQueryRealDeliverList".
Definition opRealCondOrderList : string := "trade/TradeQueryRealCondOrderList".
Definition opHistoryEntrustList : string := "trade/TradeQueryHistoryEntrustList".
Definition opHistoryDeliverList : string := "trade/TradeQueryHistoryDeliverList".
Definition opHistoryCondOrderList : string := "trade/TradeQueryHistoryCondOrderList".
Definition opMarginFullInfo : string := "trade/TradeQueryMarginFullInfo".
Definition opBeforeAndAfterSupport : string := "trade/TradeQueryBeforeAndAfterSupport".
Definition opMarginFundInfo : string := "trade/TradeQueryMarginFundInfo".
Definition opHoldsList : string := "trade/TradeQueryHoldsList".
Definition opRealFundJourList : string := "trade/TradeQueryRealFundJourList".
Definition opHistoryFundJourList : string := "trade/TradeQueryHistoryFundJourList".
Definition opRateQueryList : string := "hs/rate/queryList".
Definition opTradeSubscribe : string := "trade/TradeSubscribe".
Definition opTradeUnsubscribe : string := "trade/TradeUnsubscribe".

Definition maxValidDays : Z := 100.

(** ** Validation *)
Abbreviation checks := (outcome (option error)).

Definition invalid (op message : string) : error := Errs.New StatusInvalidParam op message.

Definition validExchange (e : string) : bool :=
  bool_decide (e ∈ [ExchangeHK; ExchangeUS; ExchangeShenzhenConnect; ExchangeShanghaiConnect]).

Definition validDirection (bs : string) : bool :=
  bool_decide (bs ∈ [EntrustBuy; EntrustSell; EntrustCloseShort; EntrustOpenShort]).

Definition invalidExchange (op e : string) : error :=
  invalid op ("exchangeType " +:+ Quote e +:+ " is not one of K (Hong Kong), P (US), v (Shenzhen Connect), t (Shanghai Connect)").

Definition invalidDirection (op bs : string) : error :=
  invalid op ("entrustBs " +:+ Quote bs +:+ " is not one of 1 (open long), 2 (close long), 3 (close short), 4 (open short)").

Definition validateExchange (op e : string) : checks :=
  require (e <> "") op "exchangeType is required" ;?;
  (if validExchange e then Ret None else Ret (Some (invalidExchange op e))).

Definition validateOptionalExchange (op e : string) : checks :=
  if decide (e = "") then Ret None
  else if validExchange e then Ret None else Ret (Some (invalidExchange op e)).

Definition parsePositive (s : string) : option Q :=
  if decide (s = "") then None
  else r ← Rat_SetString s; if decide (Qnum r <= 0) then None else Some r.

Definition validateValidDays (op validDays : string) : checks :=
  require (validDays <> "") op "validDays is required for a conditional order" ;?;
  match Atoi validDays with
  | None => Ret (Some (invalid op "validDays must be an integer between 1 and 100"))
  | Some n => require (~ (n < 1 \/ maxValidDays < n)) op "validDays must be an integer between 1 and 100"
  end.

Definition isConditional (t : string) : bool := bool_decide (t ∈ [
  EntrustTypeStopProfitLimit; EntrustTypeStopProfitMarket; EntrustTypeStopLossLimit;
  EntrustTypeStopLossMarket; EntrustTypeTrailingStopLimit; EntrustTypeTrailingStopMarket]).

Definition isIceberg (t : string) : bool := bool_decide (t ∈ [EntrustTypeIcebergMarket; EntrustTypeIcebergLimit]).

Definition priceOptional (t : string) : bool :=
  if decide (t ∈ [EntrustTypeMarket; EntrustTypeIcebergMarket; EntrustTypeHiddenMarket]) then true else isConditional t.

Definition conditional_checks (op t condValue validDays : string) : checks :=
  if isConditional t then
    require (condValue <> "") op "condValue is required for a conditional order" ;?; validateValidDays op validDays
  else Ret None.

Definition EntrustRequest_validate (r : EntrustRequest) : checks :=
  validateExchange opEntrust (er_ExchangeType r) ;?;
  require (er_StockCode r <> "") opEntrust "stockCode is required" ;?;
  match parsePositive (er_EntrustAmount r) with
  | None => Ret (Some (invalid opEntrust "entrustAmount must be a decimal number greater than zero"))
  | Some amount =>
      require (er_EntrustBS r <> "") opEntrust "entrustBs is required" ;?;
      (if validDirection (er_EntrustBS r) then Ret None else Ret (Some (invalidDirection opEntrust (er_EntrustBS r)))) ;?;
      require (er_EntrustType r <> "") opEntrust "entrustType is required" ;?;
      (if negb (priceOptional (er_EntrustType r)) && bool_decide (er_EntrustPrice r = "")
       then Ret (Some (invalid opEntrust "entrustPrice is required for this order type")) else Ret None) ;?;
      conditional_checks opEntrust (er_EntrustType r) (er_CondValue r) (er_ValidDays r) ;?;
      if isIceberg (er_EntrustType r) then
        match parsePositive (er_IceBergDisplaySize r) with
        | None => Ret (Some (invalid opEntrust "iceBergDisplaySize must be a decimal number greater than zero for an iceberg order"))
        | Some display => require (Qle_bool display amount = true) opEntrust "iceBergDisplaySize must not exceed entrustAmount"
        end
      else Ret None
  end.

Definition CancelEntrustRequest_validate (r : CancelEntrustRequest) : checks :=
  validateExchange opCancelEntrust (cr_ExchangeType r) ;?;
  require (cr_StockCode r <> "") opCancelEntrust "stockCode is required" ;?;
  require (cr_EntrustID r <> "") opCancelEntrust "entrustId is required".

Definition ChangeEntrustRequest_validate (r : ChangeEntrustRequest) : checks :=
  validateExchange opChangeEntrust (hr_ExchangeType r) ;?;
  require (hr_StockCode r <> "") opChangeEntrust "stockCode is required" ;?;
  match parsePositive (hr_EntrustAmount r) with
  | None => Ret (Some (invalid opChangeEntrust "entrustAmount must be a decimal number greater than zero"))
  | Some _ =>
      require (hr_EntrustID r <> "") opChangeEntrust "entrustId is required" ;?;
      conditional_checks opChangeEntrust (hr_EntrustType r) (hr_CondValue r) (hr_ValidDays r)
  end.

Definition MaxAvailableAssetRequest_validate (r : MaxAvailableAssetRequest) : checks :=
  validateExchange opMaxAvailableAsset (ar_ExchangeType r) ;?;
  require (ar_StockCode r <> "") opMaxAvailableAsset "stockCode is required" ;?;
  require (ar_EntrustPrice r <> "") opMaxAvailableAsset "entrustPrice is required" ;?;
  require (ar_EntrustType r <> "") opMaxAvailableAsset "entrustType is required".

(** ** The manager *)

(** The two methods of a [Session], over the world they change. *)
Record Session (W : Type) := mkSession {
  EnsureLoggedIn : W -> option error * W;
  ReLogin : error -> W -> (bool * option error) * W;
}.
Arguments mkSession {W} _ _.
Arguments EnsureLoggedIn {W} _ _.
Arguments ReLogin {W} _ _ _.

Record config (W : Type) := mkConfig { cf_session : option (Session W) }.
Arguments mkConfig {W} _.
Arguments cf_session {W} _.

Inductive Option (W : Type) := WithSession (s : option (Session W)).
Arguments WithSession {W} _.

(** A [Manager] over a client, which the methods take as an executor. *)
Record Manager (W : Type) := mkManager { session : option (Session W) }.
Arguments mkManager {W} _.
Arguments session {W} _.

Definition apply_option {W} (c : config W) (o : option (Option W)) : config W :=
  match o with Some (WithSession s) => mkConfig s | None => c end.

Definition New {W} (opts : list (option (Option W))) : Manager W :=
  mkManager (cf_session (foldl apply_option (mkConfig None) opts)).

(** What the codec fills from a reply. *)
Record replies (Raw : Type) := mkReplies {
  rp_string : Raw -> string;
  rp_batch : Raw -> BatchCancelEntrustResult;
  rp_max : Raw -> MaxAvailableAsset;
  rp_orders : Raw -> list OrderVo;
  rp_conditional : Raw -> CondOrderPage;
  rp_margin : Raw -> MarginFullInfo;
  rp_fund : Raw -> MarginFundInfo;
  rp_holds : Raw -> list HoldsVo;
  rp_journal : Raw -> list FundJourVo;
  rp_rates : Raw -> ExchangeRates;
}.
Arguments mkReplies {Raw} _ _ _ _ _ _ _ _ _ _.
Arguments rp_string {Raw} _ _.
Arguments rp_batch {Raw} _ _.
Arguments rp_max {Raw} _ _.
Arguments rp_orders {Raw} _ _.
Arguments rp_conditional {Raw} _ _.
Arguments rp_margin {Raw} _ _.
Arguments rp_fund {Raw} _ _.
Arguments rp_holds {Raw} _ _.
Arguments rp_journal {Raw} _ _.
Arguments rp_rates {Raw} _ _.

Section methods.
Context {W Raw : Type} (X : executor W Raw) (R : replies Raw) (m : Manager W).

(** [Manager.call], and the reading of its reply. *)
Definition call {A} (op route : string) (params : body) (w : W) (read : Raw -> A) : result W A :=
  let '(e, w) := match session m with Some s => EnsureLoggedIn s w | None => (None, w) end in
  match e with
  | Some e => (Ret (inr e), w)
  | None =>
      match X op route params w with
      | (Panic, w) => (Panic, w)
      | (Ret (inl raw), w) => (Ret (inl (read raw)), w)
      | (Ret (inr e), w) =>
          (Ret (inr e),
           match session m with
           | Some s => if ReLoginRequired (Some e) then snd (ReLogin s e w) else w
           | None => w
           end)
      end
  end.

Definition Entrust (req : EntrustRequest) (w : W) : result W string :=
  guard (EntrustRequest_validate req) w
    (call opEntrust RouteTradeEntrust (EntrustRequest_body req) w (rp_string R)).

Definition CancelEntrust (req : CancelEntrustRequest) (w : W) : result W string :=
  guard (CancelEntrustRequest_validate req) w
    (call opCancelEntrust RouteTradeCancelEntrust (CancelEntrustRequest_body req) w (rp_string R)).

Definition BatchCancelEntrust (req : BatchCancelEntrustRequest) (w : W) : result W BatchCancelEntrustResult :=
  guard (validateExchange opBatchCancelEntrust (br_ExchangeType req)) w
    (call opBatchCancelEntrust RouteTradeBatchCancelEntrust (BatchCancelEntrustRequest_body req) w (rp_batch R)).

Definition ChangeEntrust (req : ChangeEntrustRequest) (w : W) : result W string :=
  guard (ChangeEntrustRequest_validate req) w
    (call opChangeEntrust RouteTradeChangeEntrust (ChangeEntrustRequest_body req) w (rp_string R)).

Definition MaxAvailableAsset (req : MaxAvailableAssetRequest) (w : W) : result W TradeRows.MaxAvailableAsset :=
  guard (MaxAvailableAssetRequest_validate req) w
    (call opMaxAvailableAsset RouteTradeQueryMaxAvailableAsset (MaxAvailableAssetRequest_body req) w (rp_max R)).

Definition RealEntrustList (req : RealEntrustListRequest) (w : W) : result W (list OrderVo) :=
  guard (validateExchange opRealEntrustList (rr_ExchangeType req)) w
    (let req := mkRealEntrustListRequest (rr_ExchangeType req) (ClampPageSize (rr_QueryCount req))
       (rr_QueryParamStr req) (rr_EntrustIDs req) in
     call opRealEntrustList RouteTradeQueryRealEntrustList (RealEntrustListRequest_body req) w (rp_orders R)).

Definition RealDeliverList (req : RealDeliverListRequest) (w : W) : result W (list OrderVo) :=
  guard (validateExchange opRealDeliverList (rd_ExchangeType req)) w
    (let req := mkRealDeliverListRequest (rd_ExchangeType req) (ClampPageSize (rd_QueryCount req))
       (rd_QueryParamStr req) in
     call opRealDeliverList RouteTradeQueryRealDeliverList (RealDeliverListRequest_body req) w (rp_orders R)).

Definition RealCondOrderList (req : CondOrderListRequest) (w : W) : result W CondOrderPage :=
  guard (validateExchange opRealCondOrderList (cq_ExchangeType req)) w
    (let req := mkCondOrderListRequest (cq_ExchangeType req) (cq_StockCode req)
       (if decide (cq_PageNo req <= 0) then 1 else cq_PageNo req) (ClampPageSize (cq_PageSize req)) in
     call opRealCondOrderList RouteTradeQueryRealCondOrderList (CondOrderListRequest_body req) w (rp_conditional R)).

Definition HistoryEntrustList (req : HistoryEntrustListRequest) (w : W) : result W (list OrderVo) :=
  guard (validateExchange opHistoryEntrustList (he_ExchangeType req)) w
    (let req := mkHistoryEntrustListRequest (he_ExchangeType req) (ClampPageSize (he_QueryCount req))
       (he_QueryParamStr req) (he_StartDate req) (he_EndDate req) in
     call opHistoryEntrustList RouteTradeQueryHistoryEntrustList (HistoryEntrustListRequest_body req) w (rp_orders R)).

Definition HistoryDeliverList (req : HistoryDeliverListRequest) (w : W) : result W (list OrderVo) :=
  guard (validateExchange opHistoryDeliverList (hd_ExchangeType req)) w
    (let req := mkHistoryDeliverListRequest (hd_ExchangeType req) (ClampPageSize (hd_QueryCount req))
       (hd_QueryParamStr req) (hd_StartDate req) (hd_EndDate req) in
     call opHistoryDeliverList RouteTradeQueryHistoryDeliverList (HistoryDeliverListRequest_body req) w (rp_orders R)).

Definition HistoryCondOrderList (req : HistoryCondOrderListRequest) (w : W) : result W CondOrderPage :=
  guard (validateExchange opHistoryCondOrderList (hc_ExchangeType req)) w
    (let req := mkHistoryCondOrderListRequest (hc_ExchangeType req) (hc_StockCode req)
       (if decide (hc_PageNo req = "") then "1" else hc_PageNo req)
       (if decide (hc_PageSize req = "") then itoa DefaultPageSize else hc_PageSize req)
       (hc_StartTime req) (hc_EndTime req) in
     call opHistoryCondOrderList RouteTradeQueryHistoryCondOrderList (HistoryCondOrderListRequest_body req) w
       (rp_conditional R)).

Definition MarginFullInfo (req : MarginFullInfoRequest) (w : W) : result W TradeRows.MarginFullInfo :=
  guard (require (mr_DataType req <> "") opMarginFullInfo "dataType is required" ;?;
         require (mr_StockCode req <> "") opMarginFullInfo "stockCode is required") w
    (call opMarginFullInfo RouteTradeQueryMarginFullInfo (MarginFullInfoRequest_body req) w (rp_margin R)).

Definition BeforeAndAfterSupport (req : BeforeAndAfterSupportRequest) (w : W) : result W string :=
  guard (require (bs_StockCode req <> "") opBeforeAndAfterSupport "stockCode is required" ;?;
         validateExchange opBeforeAndAfterSupport (bs_ExchangeType req)) w
    (call opBeforeAndAfterSupport RouteTradeQueryBeforeAndAfterSupport (BeforeAndAfterSupportRequest_body req) w
       (rp_string R)).

Definition MarginFundInfo (req : MarginFundInfoRequest) (w : W) : result W TradeRows.MarginFundInfo :=
  guard (validateExchange opMarginFundInfo (fr_ExchangeType req)) w
    (call opMarginFundInfo RouteTradeQueryMarginFundInfo (MarginFundInfoRequest_body req) w (rp_fund R)).

Definition Positions (req : PositionsRequest) (w : W) : result W (list HoldsVo) :=
  guard (validateOptionalExchange opHoldsList (pr_ExchangeType req)) w
    (call opHoldsList RouteTradeQueryHoldsList (PositionsRequest_body req) w (rp_holds R)).

Definition RealFundJourList (req : FundJourListRequest) (w : W) : result W (list FundJourVo) :=
  guard (validateExchange opRealFundJourList (fl_ExchangeType req)) w
    (let req := mkFundJourListRequest (fl_ExchangeType req) (ClampPageSize (fl_QueryCount req))
       (fl_QueryParamStr req) in
     call opRealFundJourList RouteTradeQueryRealFundJourList (FundJourListRequest_body req) w (rp_journal R)).

Definition HistoryFundJourList (req : HistoryFundJourListRequest) (w : W) : result W (list FundJourVo) :=
  guard (validateExchange opHistoryFundJourList (hf_ExchangeType req)) w
    (let req := mkHistoryFundJourListRequest (hf_ExchangeType req) (ClampPageSize (hf_QueryCount req))
       (hf_QueryParamStr req) (hf_StartDate req) (hf_EndDate req) in
     call opHistoryFundJourList RouteTradeQueryHistoryFundJourList (HistoryFundJourListRequest_body req) w (rp_journal R)).

Definition ExchangeRate (req : ExchangeRateRequest) (w : W) : result W ExchangeRates :=
  call opRateQueryList RouteHsRateQueryList (ExchangeRateRequest_body req) w (rp_rates R).

(** The reply of the two push routes is discarded. *)
Definition SubscribeOrders (w : W) : result W unit :=
  call opTradeSubscribe RouteTradeSubscribe [] w (fun _ => ()).

Definition UnsubscribeOrders (w : W) : result W unit :=
  call opTradeUnsubscribe RouteTradeUnsubscribe [] w (fun _ => ()).
End methods.

(** ** What the checks accept *)
Lemma exchange_accepted op e : validateExchange op e = Ret None <-> e ∈ ["K"; "P"; "v"; "t"].
Proof.
  unfold validateExchange, validExchange, ExchangeHK, ExchangeUS, ExchangeShenzhenConnect, ExchangeShanghaiConnect.
  rewrite and_then_ok, require_ok. case_bool_decide as H; [| by split; [intros [_ ?] | intros ?]].
  split; [done |]. intros _. split; [| done]. intros ->. revert H. by decided.
Qed.

Lemma optional_exchange_accepted op e :
  validateOptionalExchange op e = Ret None <-> e = "" \/ e ∈ ["K"; "P"; "v"; "t"].
Proof.
  unfold validateOptionalExchange, validExchange, ExchangeHK, ExchangeUS, ExchangeShenzhenConnect, ExchangeShanghaiConnect.
  case_decide; [by split; [left |] |]. case_bool_decide; naive_solver.
Qed.

(** [parsePositive] reads a positive rational. *)
Definition positive_text (s : string) (q : Q) : Prop := Rat_SetString s = Some q /\ (0 < q)%Q.

Lemma parsePositive_spec s q : parsePositive s = Some q <-> positive_text s q.
Proof.
  unfold parsePositive, positive_text. case_decide as Hs; [subst s; naive_solver |].
  destruct (Rat_SetString s) as [r|]; cbn [mbind option_bind]; [| naive_solver].
  assert (Hsign : (0 < r)%Q <-> ~ Qnum r <= 0) by (unfold Qlt; simpl; lia).
  case_decide; naive_solver.
Qed.

Lemma parsePositive_None s : parsePositive s = None <-> ~ exists q, positive_text s q.
Proof.
  setoid_rewrite <- parsePositive_spec. destruct (parsePositive s); naive_solver.
Qed.

(** A lifetime in days. *)
Definition lifetime_ok (s : string) : Prop := exists n, Atoi s = Some n /\ 1 <= n <= 100.

Lemma lifetime_accepted op s : validateValidDays op s = Ret None <-> lifetime_ok s.
Proof.
  unfold validateValidDays, lifetime_ok, maxValidDays. rewrite and_then_ok, require_ok.
  destruct (Atoi s) as [n|] eqn:Hn; [rewrite require_ok | naive_solver]. split.
  - intros [_ H]. exists n. split; [done | lia].
  - intros (n' & [= <-] & H). split; [by intros ->; vm_compute in Hn | lia].
Qed.

(** The types of orders: conditional, iceberg, and those that need no price. *)
Definition conditional (t : string) : Prop := t ∈ ["31"; "32"; "33"; "34"; "35"; "36"].
Definition iceberg (t : string) : Prop := t ∈ ["8"; "9"].
Definition unpriced (t : string) : Prop := t ∈ ["5"; "8"; "10"] \/ conditional t.

Lemma isConditional_spec t : isConditional t = true <-> conditional t.
Proof. apply bool_decide_eq_true. Qed.

Lemma isIceberg_spec t : isIceberg t = true <-> iceberg t.
Proof. apply bool_decide_eq_true. Qed.

Lemma priceOptional_spec t : priceOptional t = true <-> unpriced t.
Proof.
  unfold priceOptional, unpriced, EntrustTypeMarket, EntrustTypeIcebergMarket, EntrustTypeHiddenMarket.
  rewrite <- isConditional_spec. case_decide; tauto.
Qed.

Lemma conditional_accepted op t c d : conditional_checks op t c d = Ret None
  <-> (conditional t -> c <> "" /\ lifetime_ok d).
Proof.
  unfold conditional_checks. rewrite <- isConditional_spec. destruct (isConditional t); [| naive_solver].
  rewrite and_then_ok, require_ok, lifetime_accepted. naive_solver.
Qed.

Definition entrust_ok (r : EntrustRequest) : Prop :=
  er_ExchangeType r ∈ ["K"; "P"; "v"; "t"] /\ er_StockCode r <> ""
  /\ er_EntrustBS r ∈ ["1"; "2"; "3"; "4"] /\ er_EntrustType r <> ""
  /\ (unpriced (er_EntrustType r) \/ er_EntrustPrice r <> "")
  /\ (conditional (er_EntrustType r) -> er_CondValue r <> "" /\ lifetime_ok (er_ValidDays r))
  /\ exists amount, positive_text (er_EntrustAmount r) amount
       /\ (iceberg (er_EntrustType r) -> exists display,
             positive_text (er_IceBergDisplaySize r) display /\ (display <= amount)%Q).

Definition change_ok (r : ChangeEntrustRequest) : Prop :=
  hr_ExchangeType r ∈ ["K"; "P"; "v"; "t"] /\ hr_StockCode r <> "" /\ hr_EntrustID r <> ""
  /\ (conditional (hr_EntrustType r) -> hr_CondValue r <> "" /\ lifetime_ok (hr_ValidDays r))
  /\ exists amount, positive_text (hr_EntrustAmount r) amount.

Lemma direction_accepted op bs :
  (require (bs <> "") op "entrustBs is required" = Ret None
   /\ (if validDirection bs then Ret None else Ret (Some (invalidDirection op bs)) : checks) = Ret None)
  <-> bs ∈ ["1"; "2"; "3"; "4"].
Proof.
  rewrite require_ok. unfold validDirection, EntrustBuy, EntrustSell, EntrustCloseShort, EntrustOpenShort.
  case_bool_decide as H; [| naive_solver]. split; [done |]. intros _. split; [| done].
  intros ->. revert H. by decided.
Qed.

Lemma trade_price_accepted op t p :
  (if negb (priceOptional t) && bool_decide (p = "")
   then Ret (Some (invalid op "entrustPrice is required for this order type")) else Ret None : checks) = Ret None
  <-> unpriced t \/ p <> "".
Proof.
  rewrite <- priceOptional_spec. destruct (priceOptional t); simpl; [by split; [left |] |].
  case_bool_decide; naive_solver.
Qed.

Lemma iceberg_accepted op t amount disp :
  (if isIceberg t then
     match parsePositive disp with
     | None => Ret (Some (invalid op "iceBergDisplaySize must be a decimal number greater than zero for an iceberg order"))
     | Some display => require (Qle_bool display amount = true) op "iceBergDisplaySize must not exceed entrustAmount"
     end
   else Ret None) = Ret None
  <-> (iceberg t -> exists d, positive_text disp d /\ (d <= amount)%Q).
Proof.
  rewrite <- isIceberg_spec. destruct (isIceberg t); [| naive_solver]. setoid_rewrite <- parsePositive_spec.
  destruct (parsePositive disp) as [d|]; [rewrite require_ok, Qle_bool_iff | naive_solver]. split.
  - intros Hd _. eauto.
  - intros H. destruct (H eq_refl) as (d' & [= <-] & Hd). done.
Qed.

Lemma trade_entrust_accepted r : EntrustRequest_validate r = Ret None <-> entrust_ok r.
Proof.
  unfold EntrustRequest_validate, entrust_ok. rewrite !and_then_ok, exchange_accepted, require_ok.
  destruct (parsePositive (er_EntrustAmount r)) as [a|] eqn:Ha.
  - rewrite !and_then_ok, (and_assoc (require _ _ _ = _)), direction_accepted, require_ok, trade_price_accepted, conditional_accepted,
      iceberg_accepted. apply parsePositive_spec in Ha. split.
    + intros (? & ? & ? & ? & ? & ? & ?). split_and!; try done. eauto.
    + intros (? & ? & ? & ? & ? & ? & a' & Ha' & Hi). assert (a' = a) as -> by (destruct Ha, Ha'; congruence). by split_and!.
  - split; [naive_solver |]. intros (_ & _ & _ & _ & _ & _ & a & Hp & _). apply parsePositive_spec in Hp. congruence.
Qed.

Lemma change_accepted r : ChangeEntrustRequest_validate r = Ret None <-> change_ok r.
Proof.
  unfold ChangeEntrustRequest_validate, change_ok. rewrite !and_then_ok, exchange_accepted, require_ok.
  setoid_rewrite <- parsePositive_spec. destruct (parsePositive (hr_EntrustAmount r)) as [a|] eqn:Ha; [| naive_solver].
  rewrite and_then_ok, require_ok, conditional_accepted. naive_solver.
Qed.

(** ** The protocol of a call *)

(** What a call does to the outside: it asks the session to log in, sends a
    request, reports a cause to the session. *)
Inductive event :=
  | Ensured
  | Sent (route : string) (req : body)
  | Reported (cause : error).

Definition recording {W Raw} (X : executor W Raw) : executor (W * list event) Raw :=
  fun op route req w => let '(r, w') := X op route req (fst w) in (r, (w', snd w ++ [Sent route req])).

Definition watched {W} (s : Session W) : Session (W * list event) :=
  mkSession
    (fun w => let '(e, w') := EnsureLoggedIn s (fst w) in (e, (w', snd w ++ [Ensured])))
    (fun cause w => let '(r, w') := ReLogin s cause (fst w) in (r, (w', snd w ++ [Reported cause]))).

Definition watching {W} (m : Manager W) : Manager (W * list event) := mkManager (watched <$> session m).

(** One request, between a login that succeeds and, when its reply is an error that
    calls for one, one report to the session. *)
Definition one_exchange {W Raw A} (X : executor W Raw) (m : Manager W) (op route : string) (req : body)
    (read : Raw -> A) (w : W) (result : outcome (A + error)) (new : list event) : Prop :=
  match session m with
  | Some s =>
      match EnsureLoggedIn s w with
      | (Some e, _) => result = Ret (inr e) /\ new = [Ensured]
      | (None, w) =>
          match fst (X op route req w) with
          | Ret (inl raw) => result = Ret (inl (read raw)) /\ new = [Ensured; Sent route req]
          | Ret (inr e) => result = Ret (inr e)
              /\ new = [Ensured; Sent route req] ++ (if ReLoginRequired (Some e) then [Reported e] else [])
          | Panic => result = Panic /\ new = [Ensured; Sent route req]
          end
      end
  | None =>
      new = [Sent route req]
      /\ match fst (X op route req w) with
         | Ret (inl raw) => result = Ret (inl (read raw))
         | Ret (inr e) => result = Ret (inr e)
         | Panic => result = Panic
         end
  end.

(** A call that sends nothing and returns an invalid-parameter error of its own
    operation unless its arguments are right, and else makes one exchange. *)
Definition follows {W Raw A} (ok : Prop) (X : executor W Raw) (m : Manager W) (op route : string) (req : body)
    (read : Raw -> A) (w : W) (call : W * list event -> result (W * list event) A) : Prop :=
  (~ ok -> exists msg, call (w, []) = (Ret (inr (Errs.New StatusInvalidParam op msg)), (w, [])))
  /\ (ok -> one_exchange X m op route req read w (fst (call (w, []))) (snd (snd (call (w, []))))).

Lemma call_exchange {W Raw A} (X : executor W Raw) (m : Manager W) op route req (read : Raw -> A) w :
  let c := call (recording X) (watching m) op route req (w, []) read in
  one_exchange X m op route req read w (fst c) (snd (snd c)).
Proof.
  unfold one_exchange, call, recording, watching, watched. cbn. destruct (session m) as [s|]; cbn.
  - destruct (EnsureLoggedIn s w) as [[e|] w1]; cbn; [done |].
    destruct (X op route req w1) as [[[raw|e]|] w2]; cbn; try done.
    destruct (ReLoginRequired (Some e)); [| done]. cbn. by destruct (ReLogin s e w2).
  - by destruct (X op route req w) as [[[raw|e]|] w2].
Qed.

Lemma guard_follows {W Raw A} (ok : Prop) (X : executor W Raw) (m : Manager W) op route req (read : Raw -> A) w c :
  checks_of op c -> (c = Ret None <-> ok) ->
  follows ok X m op route req read w
    (fun w => guard c w (call (recording X) (watching m) op route req w read)).
Proof.
  intros Hc Hok. split.
  - intros H. destruct Hc as [Hn | [msg ->]]; [by destruct H; apply Hok | by exists msg].
  - intros H. apply Hok in H as ->. apply call_exchange.
Qed.

Lemma call_follows {W Raw A} (X : executor W Raw) (m : Manager W) op route req (read : Raw -> A) w :
  follows True X m op route req read w (fun w => call (recording X) (watching m) op route req w read).
Proof. split; [by intros [] | intros _; apply call_exchange]. Qed.

Lemma checks_of_lifetime op s : checks_of op (validateValidDays op s).
Proof. unfold validateValidDays, invalid. destruct (Atoi s); service_checks. Qed.

Lemma checks_of_exchange op e : checks_of op (validateExchange op e).
Proof. unfold validateExchange, invalidExchange, invalid. service_checks. Qed.

Lemma checks_of_conditional op t c d : checks_of op (conditional_checks op t c d).
Proof. unfold conditional_checks. destruct (isConditional t); [| by left]. apply checks_of_and; [apply checks_of_require | apply checks_of_lifetime]. Qed.

#[export] Hint Resolve checks_of_lifetime checks_of_exchange checks_of_conditional : service.

Lemma trade_entrust_checks_of r : checks_of opEntrust (EntrustRequest_validate r).
Proof.
  unfold EntrustRequest_validate, invalidDirection, invalid. destruct (parsePositive (er_EntrustAmount r)) as [a|]; service_checks.
  destruct (parsePositive (er_IceBergDisplaySize r)); service_checks.
Qed.

Lemma trade_change_checks_of r : checks_of opChangeEntrust (ChangeEntrustRequest_validate r).
Proof. unfold ChangeEntrustRequest_validate, invalid. destruct (parsePositive (hr_EntrustAmount r)); service_checks. Qed.

(** C25: the four calls of the released trading package that change an order. Each
    is refused without touching the session or the network unless its arguments
    are right; otherwise it first ensures a login (and returns that error, sending
    nothing), then sends its request exactly once, and only when the reply is an
    error that means the session is gone does it report that error to the session,
    after the request and without repeating it; the caller gets the reply of the
    request, never that of the new login. An order is right when its market and
    side are known, its amount reads as a positive rational, its price is there
    unless its type needs none, a conditional order has a trigger and a lifetime of
    1 to 100 days, and an iceberg order shows a positive part of its amount. *)
Theorem trade_released_orders {W Raw} (X : executor W Raw) (R : replies Raw) (opts : list (option (Option W))) (w : W)
    (o : EntrustRequest) (c : CancelEntrustRequest) (b : BatchCancelEntrustRequest) (h : ChangeEntrustRequest) :
  let m := New opts in
  let X' := recording X in
  let m' := watching m in
  follows (entrust_ok o) X m opEntrust RouteTradeEntrust (EntrustRequest_body o) (rp_string R) w (Entrust X' R m' o)
  /\ follows (cr_ExchangeType c ∈ ["K"; "P"; "v"; "t"] /\ cr_StockCode c <> "" /\ cr_EntrustID c <> "")
       X m opCancelEntrust RouteTradeCancelEntrust (CancelEntrustRequest_body c) (rp_string R) w (CancelEntrust X' R m' c)
  /\ follows (br_ExchangeType b ∈ ["K"; "P"; "v"; "t"]) X m opBatchCancelEntrust RouteTradeBatchCancelEntrust
       (BatchCancelEntrustRequest_body b) (rp_batch R) w (BatchCancelEntrust X' R m' b)
  /\ follows (change_ok h) X m opChangeEntrust RouteTradeChangeEntrust (ChangeEntrustRequest_body h) (rp_string R) w
       (ChangeEntrust X' R m' h).
Proof.
  intros m X' m'. split; [|split; [|split]]; apply guard_follows.
  - apply trade_entrust_checks_of.
  - apply trade_entrust_accepted.
  - unfold CancelEntrustRequest_validate. service_checks.
  - unfold CancelEntrustRequest_validate. by rewrite !and_then_ok, exchange_accepted, !require_ok.
  - service_checks.
  - apply exchange_accepted.
  - apply trade_change_checks_of.
  - apply change_accepted.
Qed.

(** A market, and a market that may be left out. *)
Definition market (e : string) : Prop := e ∈ ["K"; "P"; "v"; "t"].
Definition any_market (e : string) : Prop := e = "" \/ market e.

Lemma exchange_follows {W Raw A} (X : executor W Raw) (m : Manager W) op route req (read : Raw -> A) w e :
  follows (market e) X m op route req read w
    (fun w => guard (validateExchange op e) w (call (recording X) (watching m) op route req w read)).
Proof. apply guard_follows; [apply checks_of_exchange | apply exchange_accepted]. Qed.

Ltac released := first [apply exchange_follows | apply call_follows | apply guard_follows; [service_checks |]].

(** The queries of the released trading package follow the same protocol as its
    orders, one request between a login and at most one report. A paged query asks
    for 1 to 99 rows, from page 1 upwards where pages are numbered, whatever its
    caller asked for; the market of a position query may be left out, and that of
    every other one is checked. The rates and the two push routes check nothing. *)
Theorem trade_released_queries {W Raw} (X : executor W Raw) (R : replies Raw) (opts : list (option (Option W))) (w : W)
    (ma : MaxAvailableAssetRequest) (re : RealEntrustListRequest) (rd : RealDeliverListRequest)
    (cq : CondOrderListRequest) (he : HistoryEntrustListRequest) (hd : HistoryDeliverListRequest)
    (mi : MarginFullInfoRequest) (bs : BeforeAndAfterSupportRequest) (mf : MarginFundInfoRequest)
    (po : PositionsRequest) (fj : FundJourListRequest) (hf : HistoryFundJourListRequest) (xr : ExchangeRateRequest) :
  let m := New opts in
  let X' := recording X in
  let m' := watching m in
  follows (market (ar_ExchangeType ma) /\ ar_StockCode ma <> "" /\ ar_EntrustPrice ma <> "" /\ ar_EntrustType ma <> "")
    X m opMaxAvailableAsset RouteTradeQueryMaxAvailableAsset (MaxAvailableAssetRequest_body ma) (rp_max R) w
    (MaxAvailableAsset X' R m' ma)
  /\ (exists size page, 1 <= size <= 99 /\ 1 <= page
     /\ follows (market (cq_ExchangeType cq)) X m opRealCondOrderList RouteTradeQueryRealCondOrderList
          (CondOrderListRequest_body (mkCondOrderListRequest (cq_ExchangeType cq) (cq_StockCode cq) page size))
          (rp_conditional R) w (RealCondOrderList X' R m' cq))
  /\ (exists size, 1 <= size <= 99
     /\ follows (market (rr_ExchangeType re)) X m opRealEntrustList RouteTradeQueryRealEntrustList
          (RealEntrustListRequest_body (mkRealEntrustListRequest (rr_ExchangeType re) size (rr_QueryParamStr re)
            (rr_EntrustIDs re))) (rp_orders R) w (RealEntrustList X' R m' re))
  /\ (exists size, 1 <= size <= 99
     /\ follows (market (rd_ExchangeType rd)) X m opRealDeliverList RouteTradeQueryRealDeliverList
          (RealDeliverListRequest_body (mkRealDeliverListRequest (rd_ExchangeType rd) size (rd_QueryParamStr rd)))
          (rp_orders R) w (RealDeliverList X' R m' rd))
  /\ (exists size, 1 <= size <= 99
     /\ follows (market (he_ExchangeType he)) X m opHistoryEntrustList RouteTradeQueryHistoryEntrustList
          (HistoryEntrustListRequest_body (mkHistoryEntrustListRequest (he_ExchangeType he) size (he_QueryParamStr he)
            (he_StartDate he) (he_EndDate he))) (rp_orders R) w (HistoryEntrustList X' R m' he))
  /\ (exists size, 1 <= size <= 99
     /\ follows (market (hd_ExchangeType hd)) X m opHistoryDeliverList RouteTradeQueryHistoryDeliverList
          (HistoryDeliverListRequest_body (mkHistoryDeliverListRequest (hd_ExchangeType hd) size (hd_QueryParamStr hd)
            (hd_StartDate hd) (hd_EndDate hd))) (rp_orders R) w (HistoryDeliverList X' R m' hd))
  /\ (exists size, 1 <= size <= 99
     /\ follows (market (fl_ExchangeType fj)) X m opRealFundJourList RouteTradeQueryRealFundJourList
          (FundJourListRequest_body (mkFundJourListRequest (fl_ExchangeType fj) size (fl_QueryParamStr fj)))
          (rp_journal R) w (RealFundJourList X' R m' fj))
  /\ (exists size, 1 <= size <= 99
     /\ follows (market (hf_ExchangeType hf)) X m opHistoryFundJourList RouteTradeQueryHistoryFundJourList
          (HistoryFundJourListRequest_body (mkHistoryFundJourListRequest (hf_ExchangeType hf) size (hf_QueryParamStr hf)
            (hf_StartDate hf) (hf_EndDate hf))) (rp_journal R) w (HistoryFundJourList X' R m' hf))
  /\ follows (mr_DataType mi <> "" /\ mr_StockCode mi <> "") X m opMarginFullInfo RouteTradeQueryMarginFullInfo
       (MarginFullInfoRequest_body mi) (rp_margin R) w (MarginFullInfo X' R m' mi)
  /\ follows (bs_StockCode bs <> "" /\ market (bs_ExchangeType bs)) X m opBeforeAndAfterSupport
       RouteTradeQueryBeforeAndAfterSupport (BeforeAndAfterSupportRequest_body bs) (rp_string R) w
       (BeforeAndAfterSupport X' R m' bs)
  /\ follows (market (fr_ExchangeType mf)) X m opMarginFundInfo RouteTradeQueryMarginFundInfo
       (MarginFundInfoRequest_body mf) (rp_fund R) w (MarginFundInfo X' R m' mf)
  /\ follows (any_market (pr_ExchangeType po)) X m opHoldsList RouteTradeQueryHoldsList (PositionsRequest_body po)
       (rp_holds R) w (Positions X' R m' po)
  /\ follows True X m opRateQueryList RouteHsRateQueryList (ExchangeRateRequest_body xr) (rp_rates R) w
       (ExchangeRate X' R m' xr)
  /\ follows True X m opTradeSubscribe RouteTradeSubscribe [] (fun _ => ()) w (SubscribeOrders X' m')
  /\ follows True X m opTradeUnsubscribe RouteTradeUnsubscribe [] (fun _ => ()) w (UnsubscribeOrders X' m').
Proof.
  intros m X' m'. pose proof ClampPageSize_range as Hsize. split_and!; try by released.
  - released. unfold MaxAvailableAssetRequest_validate. by rewrite !and_then_ok, exchange_accepted, !require_ok.
  - eexists _, _. split; [apply Hsize | split; [| released]]. case_decide; lia.
  - eexists. split; [apply Hsize | released].
  - eexists. split; [apply Hsize | released].
  - eexists. split; [apply Hsize | released].
  - eexists. split; [apply Hsize | released].
  - eexists. split; [apply Hsize | released].
  - eexists. split; [apply Hsize | released].
  - released. by rewrite and_then_ok, !require_ok.
  - released. by rewrite and_then_ok, require_ok, exchange_accepted.
  - released. apply optional_exchange_accepted.
Qed.

(** ** A concrete session

    Its login succeeds, its request is refused because the session is gone: one
    request, and the refusal reported after it; the amount is half of a fraction. *)
Definition demo_session : Session unit := mkSession (fun w => (None, w)) (fun _ w => ((true, None), w)).

Definition gone : error := Errs.New StatusNotLoggedIn "" "gone".

Definition demo_gone : executor unit string := fun _ _ _ w => (Ret (inr gone), w).

Definition demo_replies : replies string :=
  let no := fun _ : string => "" in
  mkReplies (fun s => s) (fun _ => mkBatchCancelEntrustResult [] [])
    (fun s => mkMaxAvailableAsset s s s s s s s s s s s s s s s s s s s s) (fun _ => []) (fun _ => mkCondOrderPage [] 0 0 0)
    (fun s => TradeRows.mkMarginFullInfo s s s s s s s s []) (fun s => mkMarginFundInfo s s s s s s s s s s s s s s s s s s s s s s s s s s s s)
    (fun _ => []) (fun _ => []) (fun _ => ∅).

Definition demo_order (amount : string) : EntrustRequest :=
  mkEntrustRequest "K" "00700.HK" amount "320.4" "1" "3" 0 "" "" "" "" "" "".

Example trade_released_run :
  let m := watching (New [Some (WithSession (Some demo_session))]) in
  (fst (Entrust (recording demo_gone) demo_replies m (demo_order "1/2") (tt, [])),
   map (fun e => match e with Ensured => "login" | Sent r _ => r | Reported _ => "report" end)
     (snd (snd (Entrust (recording demo_gone) demo_replies m (demo_order "1/2") (tt, [])))),
   snd (snd (Entrust (recording demo_gone) demo_replies m (demo_order "-1") (tt, []))))
  = (Ret (inr gone), ["login"; "/trade/TradeEntrust"; "report"], []).
Proof. vm_compute. reflexivity. Qed.
