(* ===== verification/TradeWire.v ===== *)
(** The JSON objects of the trading service, and the move from the released trading
    package to it: the wire request types of [src/pkg/services/trading.go] as they
    are encoded, compared with the requests of [src/pkg/hstong/trade] ([TradeRows],
    [TradeReleased]). *)
From Stdlib Require Import QArith Lqa.
From S2P Require Import Prelude Types Errs Retry Routes Domain Decimals Service Released GoNumbers Pagination TradeRows.
From S2P Require Trading TradeReleased.
Local Open Scope Z_scope.
Local Open Scope go_scope.

(** ** The request types *)
Definition entrustWireRequest_body (r : Trading.entrustWireRequest) : body :=
  str_field "exchangeType" (Trading.ew_ExchangeType r) ++ str_field "stockCode" (Trading.ew_StockCode r) ++
  str_field "entrustAmount" (Trading.ew_EntrustAmount r) ++ str_omitempty "entrustPrice" (Trading.ew_EntrustPrice r) ++
  str_field "entrustBs" (Trading.ew_EntrustBS r) ++ str_field "entrustType" (Trading.ew_EntrustType r) ++
  int_omitempty "clientType" (Trading.ew_ClientType r) ++ str_omitempty "exchange" (Trading.ew_Exchange r) ++
  str_omitempty "sessionType" (Trading.ew_SessionType r) ++
  str_omitempty "iceBergDisplaySize" (Trading.ew_IceBergDisplaySize r) ++
  str_omitempty "validDays" (Trading.ew_ValidDays r) ++ str_omitempty "condValue" (Trading.ew_CondValue r) ++
  str_omitempty "condTrackType" (Trading.ew_CondTrackType r).

Definition cancelEntrustWireRequest (ExchangeType StockCode EntrustAmount EntrustPrice EntrustID EntrustType : string) : body :=
  str_field "exchangeType" ExchangeType ++ str_field "stockCode" StockCode ++
  str_omitempty "entrustAmount" EntrustAmount ++ str_omitempty "entrustPrice" EntrustPrice ++
  str_field "entrustId" EntrustID ++ str_omitempty "entrustType" EntrustType.

Definition batchCancelEntrustWireRequest (ExchangeType : string) (EntrustIDs : list string) : body :=
  str_field "exchangeType" ExchangeType ++ arr_omitempty "entrustId" EntrustIDs.

Definition changeEntrustWireRequest_body (r : Trading.changeEntrustWireRequest) : body :=
  str_field "exchangeType" (Trading.cw_ExchangeType r) ++ str_field "stockCode" (Trading.cw_StockCode r) ++
  str_field "entrustAmount" (Trading.cw_EntrustAmount r) ++ str_omitempty "entrustPrice" (Trading.cw_EntrustPrice r) ++
  str_field "entrustId" (Trading.cw_EntrustID r) ++ str_omitempty "entrustType" (Trading.cw_EntrustType r) ++
  str_omitempty "sessionType" (Trading.cw_SessionType r) ++ str_omitempty "validDays" (Trading.cw_ValidDays r) ++
  str_omitempty "condValue" (Trading.cw_CondValue r) ++ str_omitempty "condTrackType" (Trading.cw_CondTrackType r).

Definition maxAvailableAssetWireRequest (ExchangeType StockCode EntrustPrice EntrustType : string) : body :=
  str_field "exchangeType" ExchangeType ++ str_field "stockCode" StockCode ++
  str_field "entrustPrice" EntrustPrice ++ str_field "entrustType" EntrustType.

Definition realEntrustListWireRequest (ExchangeType : string) (QueryCount : Z) (QueryParamStr : string)
    (EntrustIDs : list string) : body :=
  str_field "exchangeType" ExchangeType ++ int_field "queryCount" QueryCount ++
  str_field "queryParamStr" QueryParamStr ++ arr_omitempty "entrustId" EntrustIDs.

Definition realDeliverListWireRequest (ExchangeType : string) (QueryCount : Z) (QueryParamStr : string) : body :=
  str_field "exchangeType" ExchangeType ++ int_field "queryCount" QueryCount ++
  str_field "queryParamStr" QueryParamStr.

Definition condOrderListWireRequest (ExchangeType StockCode : string) (PageNo PageSize : Z) : body :=
  str_field "exchangeType" ExchangeType ++ str_omitempty "stockCode" StockCode ++
  int_field "pageNo" PageNo ++ int_field "pageSize" PageSize.

(** [historyDeliverListWireRequest] has the same fields. *)
Definition historyEntrustListWireRequest (ExchangeType : string) (QueryCount : Z)
    (QueryParamStr StartDate EndDate : string) : body :=
  str_field "exchangeType" ExchangeType ++ int_field "queryCount" QueryCount ++
  str_field "queryParamStr" QueryParamStr ++ str_field "startDate" StartDate ++ str_field "endDate" EndDate.

Definition historyCondOrderListWireRequest (ExchangeType StockCode PageNo PageSize StartTime EndTime : string) : body :=
  str_field "exchangeType" ExchangeType ++ str_omitempty "stockCode" StockCode ++
  str_field "pageNo" PageNo ++ str_field "pageSize" PageSize ++
  str_field "startTime" StartTime ++ str_field "endTime" EndTime.

Definition marginFullInfoWireRequest (DataType StockCode : string) : body :=
  str_field "dataType" DataType ++ str_field "stockCode" StockCode.

Definition beforeAndAfterSupportWireRequest (StockCode ExchangeType : string) : body :=
  str_field "stockCode" StockCode ++ str_field "exchangeType" ExchangeType.

(** What [encoding/json] writes for the request of an operation. *)
Definition wire_body (r : Trading.wire) : body :=
  match r with
  | Trading.WEntrust r => entrustWireRequest_body r
  | Trading.WCancelEntrust e c a p i t => cancelEntrustWireRequest e c a p i t
  | Trading.WBatchCancelEntrust e ids => batchCancelEntrustWireRequest e ids
  | Trading.WChangeEntrust r => changeEntrustWireRequest_body r
  | Trading.WMaxAvailableAsset e c p t => maxAvailableAssetWireRequest e c p t
  | Trading.WRealEntrustList e n q ids => realEntrustListWireRequest e n q ids
  | Trading.WRealDeliverList e n q => realDeliverListWireRequest e n q
  | Trading.WCondOrderList e c p n => condOrderListWireRequest e c p n
  | Trading.WHistoryList e n q a b => historyEntrustListWireRequest e n q a b
  | Trading.WHistoryCondOrderList e c p n a b => historyCondOrderListWireRequest e c p n a b
  | Trading.WMarginFullInfo d c => marginFullInfoWireRequest d c
  | Trading.WBeforeAndAfterSupport c e => beforeAndAfterSupportWireRequest c e
  | Trading.WEmpty => []
  end.

(** The service over a request path for JSON objects; [E] decodes the replies. *)
Definition over {W V Raw} (X : executor W Raw) (E : Trading.executor V Raw) : Trading.executor W Raw :=
  Trading.mkExecutor W Raw (fun op route req w => X op route (wire_body req) w)
    (Trading.as_entrustId E) (Trading.as_data E) (Trading.as_orders E) (Trading.as_condOrders E)
    (Trading.as_maxAvailable E) (Trading.as_margin E).

(** ** Reading back what the service writes *)

Lemma scanSign_itoa z : 0 <= z -> scanSign (text (itoa z)) = (false, text (itoa z)).
Proof.
  intros Hz. destruct (itoa_value z Hz) as [Hv Hne]. destruct (text (itoa z)) as [|c t]; [done |].
  cbn [digits_value] in Hv. destruct (digit_value c) eqn:Hd; [| done].
  by destruct c as [[] [] [] [] [] [] [] []].
Qed.

(** [strconv.Atoi] reads what [strconv.Itoa] writes. *)
Lemma Atoi_itoa z : int_min <= z <= int_max -> Atoi (itoa z) = Some z.
Proof.
  intros Hz. unfold Atoi, parse_int. destruct (decide (0 <= z)) as [Hp|Hn].
  - rewrite scanSign_itoa by done. destruct (itoa_value z Hp) as [Hv Hne].
    rewrite decide_False, Hv by done. cbn. by rewrite decide_True.
  - destruct z as [|p|p]; [lia | lia |]. assert (Ht : text (itoa (Z.neg p)) = "-"%char :: text (itoa (Z.pos p))) by done.
    rewrite Ht. cbn [scanSign]. destruct (itoa_value (Z.pos p)) as [Hv Hne]; [lia |].
    rewrite decide_False, Hv by done. cbn. rewrite decide_True by done. done.
Qed.

Lemma lifetime_itoa z : int_min <= z <= int_max -> TradeReleased.lifetime_ok (itoa z) <-> 1 <= z <= 100.
Proof.
  intros Hz. unfold TradeReleased.lifetime_ok. rewrite Atoi_itoa by done. split; [| eauto]. by intros (n & [= <-] & Hn).
Qed.

Section decimal_text.
Context {D : Type} `{DecimalText D}.

(** A decimal that [big.Rat] reads back: not negative, and short of a million digits. *)
Definition readable (d : D) : Prop :=
  (0 <= val d)%Q /\ Z.of_nat (length (text (dec_String d))) <= maxExp5.

Lemma readable_text d : readable d -> exists q, Rat_SetString (dec_String d) = Some q /\ (q == val d)%Q.
Proof using Type*.
  intros [Hd Hl]. destruct (String_plain d Hd) as [q Hq]. destruct (rat_numeral _ _ Hq Hl) as (q' & Hr & He).
  exists q'. split; [done |]. by rewrite He, (String_value _ _ Hq).
Qed.

Lemma readable_not_empty d : readable d -> dec_String d <> "".
Proof using Type*. intros (q & Hq & _)%readable_text He. by rewrite He in Hq. Qed.

Lemma positive_readable d q : readable d ->
  TradeReleased.positive_text (dec_String d) q -> (q == val d)%Q /\ (0 < val d)%Q.
Proof using Type*.
  intros (q' & Hq & He)%readable_text [Hq' Hp]. rewrite Hq in Hq'. injection Hq' as <-. by rewrite <- He.
Qed.

Lemma readable_positive d : readable d -> (0 < val d)%Q ->
  exists q, TradeReleased.positive_text (dec_String d) q /\ (q == val d)%Q.
Proof using Type*.
  intros (q & Hq & He)%readable_text Hp. exists q. split; [| done]. split; [done |]. by rewrite He.
Qed.

(** ** The order of the service as a request of the released package *)
Definition as_released (o : Trading.Order D) : EntrustRequest :=
  mkEntrustRequest (Trading.exchange_of (Market (Trading.o_Symbol o))) (Code (Trading.o_Symbol o))
    (dec_String (qty_dec (Trading.o_Quantity o))) (dec_String (price_dec (Trading.o_Price o)))
    (Trading.o_Side o) (Trading.o_OrderType o) (Trading.o_ClientType o) "" (Trading.o_SessionType o)
    (dec_String (qty_dec (Trading.o_IcebergQty o))) (itoa (Trading.o_ValidDays o)) (Trading.o_CondValue o)
    (Trading.o_CondTrackType o).

Record order_moves (o : Trading.Order D) : Prop := {
  mv_market : Market (Trading.o_Symbol o) ∈ [MarketHK; MarketUS];
  mv_code : Code (Trading.o_Symbol o) <> "";
  mv_side : Trading.o_Side o ∈ ["1"; "2"; "3"; "4"];
  mv_type : Trading.o_OrderType o <> "";
  mv_quantity : (0 < val (qty_dec (Trading.o_Quantity o)))%Q;
  mv_conditional : TradeReleased.conditional (Trading.o_OrderType o) ->
    Trading.o_CondValue o <> "" /\ 1 <= Trading.o_ValidDays o <= 100;
  mv_iceberg : TradeReleased.iceberg (Trading.o_OrderType o) ->
    (0 < val (qty_dec (Trading.o_IcebergQty o)) <= val (qty_dec (Trading.o_Quantity o)))%Q;
}.

Record order_readable (o : Trading.Order D) : Prop := {
  rd_quantity : readable (qty_dec (Trading.o_Quantity o));
  rd_price : readable (price_dec (Trading.o_Price o));
  rd_iceberg : readable (qty_dec (Trading.o_IcebergQty o));
  rd_days : int_min <= Trading.o_ValidDays o <= int_max;
}.

Lemma exchange_known market : Trading.exchange_of market ∈ ["K"; "P"; "v"; "t"] <-> market ∈ [MarketHK; MarketUS].
Proof using Type.
  unfold Trading.exchange_of. destruct (decide (market = MarketHK)) as [->|Hk]; [split; intros _; decided |].
  destruct (decide (market = MarketUS)) as [->|Hu]; [split; intros _; decided |].
  cbn [switch]. rewrite !decide_False by done. split; [by intros Hn%(bool_decide_pack _) |].
  by intros [->|[->|[]%elem_of_nil]%elem_of_cons]%elem_of_cons.
Qed.

Lemma iceberg_moves o : order_readable o ->
  (exists amount, TradeReleased.positive_text (dec_String (qty_dec (Trading.o_Quantity o))) amount
     /\ (TradeReleased.iceberg (Trading.o_OrderType o) -> exists display,
           TradeReleased.positive_text (dec_String (qty_dec (Trading.o_IcebergQty o))) display /\ (display <= amount)%Q))
  <-> (0 < val (qty_dec (Trading.o_Quantity o)))%Q
      /\ (TradeReleased.iceberg (Trading.o_OrderType o) ->
           (0 < val (qty_dec (Trading.o_IcebergQty o)) <= val (qty_dec (Trading.o_Quantity o)))%Q).
Proof using Type*.
  intros [Hq _ Hi _]. split.
  - intros (a & [Ha Hp]%positive_readable & Hd); [| done]. split; [done |]. intros Ht.
    destruct (Hd Ht) as (d & [Hde Hdp]%positive_readable & Hle); [| done]. split; [done |].
    by rewrite <- Hde, <- Ha.
  - intros [Hp Hd]. destruct (readable_positive _ Hq Hp) as (a & Ha & Hae). exists a. split; [done |].
    intros [Hdp Hle]%Hd. destruct (readable_positive _ Hi Hdp) as (d & Hd' & Hde). exists d. split; [done |].
    by rewrite Hde, Hae.
Qed.

(** The released package takes exactly these orders. *)
Lemma released_accepts o : order_readable o -> TradeReleased.entrust_ok (as_released o) <-> order_moves o.
Proof using Type*.
  intros Hr. unfold TradeReleased.entrust_ok, as_released.
  cbn [er_ExchangeType er_StockCode er_EntrustAmount er_EntrustPrice er_EntrustBS er_EntrustType er_IceBergDisplaySize
    er_ValidDays er_CondValue].
  rewrite exchange_known, iceberg_moves, lifetime_itoa by (done || apply Hr). split.
  - intros (? & ? & ? & ? & _ & ? & ? & ?). by split.
  - intros [? ? ? ? ? ? ?]. split_and!; try done. right. apply readable_not_empty, Hr.
Qed.

(** A valid order for a Hong Kong stock. *)
Lemma hk_moves now o :
  Trading.hk_stock (Trading.o_Symbol o) -> Trading.hk_order_ok now o ->
  order_moves o <-> Code (Trading.o_Symbol o) <> "" /\ (0 < val (qty_dec (Trading.o_Quantity o)))%Q.
Proof using Type.
  intros [Hm _] [_ _ _ Ht _ Hs Hc]. split; [by intros [] |]. intros [Hcode Hq].
  split; try done.
  - rewrite Hm. decided.
  - unfold EntrustBuy, EntrustSell, EntrustOpenShort, EntrustCloseShort in Hs. revert Hs. rewrite !elem_of_cons. naive_solver.
  - intros He. rewrite He in Ht. revert Ht. decided.
  - intros Hcond. apply and_comm, Hc. by apply TradeReleased.isConditional_spec in Hcond.
  - intros Hi. exfalso. revert Ht Hi. unfold TradeReleased.iceberg. generalize (Trading.o_OrderType o). intros t Ht Hi.
    rewrite !elem_of_cons in Hi. destruct Hi as [->|[->|[]%elem_of_nil]]; revert Ht; decided.
Qed.
End decimal_text.

(** ** The move *)
Section migration.
Context {D : Type} `{DecimalText D}.
Context {W Raw V : Type} (X : executor W Raw) (E : Trading.executor V Raw) (R : TradeReleased.replies Raw).
Context (sch : option (resolver D)).

(** The service and the released manager over one recorded request path. *)
Definition service : Trading.TradingService D (W * list TradeReleased.event) Raw :=
  Trading.mkTradingService (over (TradeReleased.recording X) E) sch.
Definition released_manager : TradeReleased.Manager (W * list TradeReleased.event) := TradeReleased.watching (TradeReleased.New []).

Definition sent {A} (r : result (W * list TradeReleased.event) A) : list TradeReleased.event := snd (snd r).

(** The service sends one request; the released call, given the same fields, sends
    the same one if it accepts them, and else sends nothing and says so. *)
Definition same_request {A B} (accepted : Prop) (op route : string) (req : body)
    (mine : result (W * list TradeReleased.event) A) (theirs : result (W * list TradeReleased.event) B) (w : W) : Prop :=
  sent mine = [TradeReleased.Sent route req]
  /\ (accepted -> sent theirs = [TradeReleased.Sent route req])
  /\ (~ accepted -> exists msg, theirs = (Ret (inr (Errs.New StatusInvalidParam op msg)), (w, []))).

Lemma service_sends {A} op route (req : Trading.wire) w (f : Raw -> outcome A) :
  sent (Trading.call service op route req (w, []) f) = [TradeReleased.Sent route (wire_body req)].
Proof using Type.
  unfold sent, Trading.call, service, over, TradeReleased.recording. cbn.
  by destruct (X op route (wire_body req) w) as [[[raw|e]|] w'].
Qed.

Lemma released_request {A B} ok op route req (read : Raw -> B) w
    (mine : result (W * list TradeReleased.event) A)
    (theirs : W * list TradeReleased.event -> result (W * list TradeReleased.event) B) :
  sent mine = [TradeReleased.Sent route req] ->
  TradeReleased.follows ok X (TradeReleased.New []) op route req read w theirs ->
  same_request ok op route req mine (theirs (w, [])) w.
Proof using Type.
  intros Hm [Hn Ho]. split; [done |]. split; [| done]. intros Hok. apply Ho in Hok. by destruct Hok.
Qed.

(** A cancel or a change names no stock. *)
Lemma released_refuses {A B} op route req w (mine : result (W * list TradeReleased.event) A)
    (theirs : result (W * list TradeReleased.event) B) msg :
  sent mine = [TradeReleased.Sent route req] ->
  theirs = (Ret (inr (Errs.New StatusInvalidParam op msg)), (w, [])) ->
  same_request False op route req mine theirs w.
Proof using Type. intros Hm Ht. split; [done |]. split; [done |]. intros _. by exists msg. Qed.

(** C35: The order calls of the trading service against those of the released package,
    over one request path. An order the service accepts is sent as the request of the
    released package with the same fields; the released call sends it too exactly if
    it satisfies the rules in numbers ([order_moves]), which for a valid Hong Kong
    stock order say that it names its stock and has a positive amount, and otherwise
    refuses it untouched. A cancel of several orders moves as it is. A cancel and a
    change of one order are sent without a stock code, for which the released package
    refuses to send them. *)
Theorem trade_migration now acct (o : Trading.Order D) id ids np nq w :
  acct <> "" -> id <> "" ->
  let order := as_released o in
  let cancel := mkCancelEntrustRequest ExchangeHK "" "" "" id "" in
  let batch := mkBatchCancelEntrustRequest ExchangeHK ids in
  let change := mkChangeEntrustRequest ExchangeHK "" (dec_String (qty_dec nq)) (dec_String (price_dec np)) id "" "" "" "" "" in
  (Trading.validateOrderForHK now o (Trading.tickSchedule service) = Ret None ->
     same_request (TradeReleased.entrust_ok order) TradeReleased.opEntrust RouteTradeEntrust (EntrustRequest_body order)
       (Trading.Entrust now service acct o (w, [])) (TradeReleased.Entrust (TradeReleased.recording X) R released_manager order (w, [])) w)
  /\ (order_readable o -> TradeReleased.entrust_ok order <-> order_moves o)
  /\ (Trading.hk_stock (Trading.o_Symbol o) -> Trading.hk_order_ok now o ->
        order_moves o <-> Code (Trading.o_Symbol o) <> "" /\ (0 < val (qty_dec (Trading.o_Quantity o)))%Q)
  /\ same_request True TradeReleased.opBatchCancelEntrust RouteTradeBatchCancelEntrust (BatchCancelEntrustRequest_body batch)
       (Trading.BatchCancelEntrust service acct ids (w, []))
       (TradeReleased.BatchCancelEntrust (TradeReleased.recording X) R released_manager batch (w, [])) w
  /\ same_request False TradeReleased.opCancelEntrust RouteTradeCancelEntrust (CancelEntrustRequest_body cancel)
       (Trading.CancelEntrust service acct id (w, []))
       (TradeReleased.CancelEntrust (TradeReleased.recording X) R released_manager cancel (w, [])) w
  /\ ((Trading.validatePriceForHK np (Trading.tickSchedule service) Trading.changeEntrustSymbol ;?;
       Trading.validateQuantityForHK nq (Trading.tickSchedule service) Trading.changeEntrustSymbol) = Ret None ->
     same_request False TradeReleased.opChangeEntrust RouteTradeChangeEntrust (ChangeEntrustRequest_body change)
       (Trading.ChangeEntrust service acct id np nq (w, []))
       (TradeReleased.ChangeEntrust (TradeReleased.recording X) R released_manager change (w, [])) w).
Proof using Type*.
  intros Ha Hid order cancel batch change. split_and!.
  - intros Hv. eapply (released_request _ _ _ _ _ w _ (TradeReleased.Entrust (TradeReleased.recording X) R released_manager order)).
    + unfold Trading.Entrust. rewrite decide_False by done. rewrite Hv. apply service_sends.
    + apply TradeReleased.guard_follows; [apply TradeReleased.trade_entrust_checks_of | apply TradeReleased.trade_entrust_accepted].
  - apply released_accepts.
  - apply hk_moves.
  - eapply (released_request _ _ _ _ _ w _ (TradeReleased.BatchCancelEntrust (TradeReleased.recording X) R released_manager batch)).
    + unfold Trading.BatchCancelEntrust. rewrite decide_False by done. apply service_sends.
    + apply TradeReleased.guard_follows; [apply TradeReleased.checks_of_exchange | done].
  - eapply released_refuses; [| done]. unfold Trading.CancelEntrust. rewrite !decide_False by done. apply service_sends.
  - intros Hv. eapply released_refuses; [| done]. unfold Trading.ChangeEntrust. rewrite !decide_False, Hv by done.
    apply service_sends.
Qed.

(** A released query against the call of the service with the same request. *)
Local Tactic Notation "query" uconstr(released_call) uconstr(req) :=
  eapply (released_request _ _ _ _ _ _ _ (released_call (TradeReleased.recording X) R released_manager req)); [apply service_sends |].

(** The queries: with the same filter both layers send the same request, except that
    the service does not look at the market and the released package refuses one it
    does not know, that a page of conditional orders has up to 500 rows and by default 50 where
    the released package stops at 99 and takes 20, and that the margin query of the service
    names no stock, for which the released package refuses it. *)
Theorem trade_queries_migration acct x ids (f : Trading.CondOrderFilter) (h : Trading.HistoryFilter) (sym : Symbol)
    (p : Price D) t w :
  acct <> "" -> Symbol_IsZero sym = false ->
  let ask {A B} (ok : Prop) op route req (mine : result _ A) (theirs : result _ B) := same_request ok op route req mine theirs w in
  let X' := TradeReleased.recording X in
  let e := Trading.exchange_of (Market sym) in
  let hx := Trading.hf_ExchangeType h in
  ask (TradeReleased.market x) TradeReleased.opRealEntrustList RouteTradeQueryRealEntrustList
    (realEntrustListWireRequest x 50 "" ids) (Trading.RealEntrustList service acct x ids (w, []))
    (TradeReleased.RealEntrustList X' R released_manager (mkRealEntrustListRequest x 50 "" ids) (w, []))
  /\ ask (TradeReleased.market x) TradeReleased.opRealDeliverList RouteTradeQueryRealDeliverList
    (realDeliverListWireRequest x 50 "") (Trading.RealDeliverList service acct x (w, []))
    (TradeReleased.RealDeliverList X' R released_manager (mkRealDeliverListRequest x 50 "") (w, []))
  /\ (1 <= Trading.cf_PageSize f <= 99 ->
     exists page, 1 <= page
     /\ ask (TradeReleased.market (Trading.cf_ExchangeType f)) TradeReleased.opRealCondOrderList RouteTradeQueryRealCondOrderList
       (condOrderListWireRequest (Trading.cf_ExchangeType f) (Trading.cf_StockCode f) page (Trading.cf_PageSize f))
       (Trading.RealCondOrderList service acct f (w, []))
       (TradeReleased.RealCondOrderList X' R released_manager
         (mkCondOrderListRequest (Trading.cf_ExchangeType f) (Trading.cf_StockCode f) (Trading.cf_PageNo f) (Trading.cf_PageSize f)) (w, [])))
  /\ ask (TradeReleased.market hx) TradeReleased.opHistoryEntrustList RouteTradeQueryHistoryEntrustList
    (historyEntrustListWireRequest hx 50 "" (Trading.hf_StartDate h) (Trading.hf_EndDate h))
    (Trading.HistoryEntrustList service acct h (w, []))
    (TradeReleased.HistoryEntrustList X' R released_manager
      (mkHistoryEntrustListRequest hx 50 "" (Trading.hf_StartDate h) (Trading.hf_EndDate h)) (w, []))
  /\ ask (TradeReleased.market hx) TradeReleased.opHistoryDeliverList RouteTradeQueryHistoryDeliverList
    (historyEntrustListWireRequest hx 50 "" (Trading.hf_StartDate h) (Trading.hf_EndDate h))
    (Trading.HistoryDeliverList service acct h (w, []))
    (TradeReleased.HistoryDeliverList X' R released_manager
      (mkHistoryDeliverListRequest hx 50 "" (Trading.hf_StartDate h) (Trading.hf_EndDate h)) (w, []))
  /\ ask False TradeReleased.opMarginFullInfo RouteTradeQueryMarginFullInfo (marginFullInfoWireRequest "10000" "")
    (Trading.MarginFullInfo service acct (w, []))
    (TradeReleased.MarginFullInfo X' R released_manager (mkMarginFullInfoRequest "10000" "") (w, []))
  /\ ask (Code sym <> "" /\ TradeReleased.market e) TradeReleased.opBeforeAndAfterSupport RouteTradeQueryBeforeAndAfterSupport
    (beforeAndAfterSupportWireRequest (Code sym) e) (Trading.BeforeAndAfterSupport service sym (w, []))
    (TradeReleased.BeforeAndAfterSupport X' R released_manager (mkBeforeAndAfterSupportRequest (Code sym) e) (w, []))
  /\ ask (TradeReleased.market e /\ Code sym <> "" /\ dec_String (price_dec p) <> "" /\ t <> "")
    TradeReleased.opMaxAvailableAsset RouteTradeQueryMaxAvailableAsset
    (maxAvailableAssetWireRequest e (Code sym) (dec_String (price_dec p)) t)
    (Trading.MaxAvailableAsset service acct sym p t (w, []))
    (TradeReleased.MaxAvailableAsset X' R released_manager
      (mkMaxAvailableAssetRequest e (Code sym) (dec_String (price_dec p)) t) (w, [])).
Proof using Type.
  intros Ha Hsym ask X' e hx. unfold ask, X'.
  unfold Trading.RealEntrustList, Trading.RealDeliverList, Trading.RealCondOrderList, Trading.HistoryEntrustList,
    Trading.HistoryDeliverList, Trading.MarginFullInfo, Trading.BeforeAndAfterSupport, Trading.MaxAvailableAsset.
  rewrite !(decide_False _ _ Ha), Hsym. fold service. split_and!.
  - query TradeReleased.RealEntrustList (mkRealEntrustListRequest x 50 "" ids). apply TradeReleased.exchange_follows.
  - query TradeReleased.RealDeliverList (mkRealDeliverListRequest x 50 ""). apply TradeReleased.exchange_follows.
  - intros Hs. exists (Trading.page_no (Trading.cf_PageNo f)). split; [unfold Trading.page_no; case_decide; lia |].
    replace (Trading.page_size (Trading.cf_PageSize f)) with (Trading.cf_PageSize f)
      by (unfold Trading.page_size, Trading.maxPageSize, Trading.defaultPageSize; repeat case_decide; lia).
    query TradeReleased.RealCondOrderList (mkCondOrderListRequest (Trading.cf_ExchangeType f) (Trading.cf_StockCode f)
      (Trading.cf_PageNo f) (Trading.cf_PageSize f)).
    unfold TradeReleased.RealCondOrderList. cbn [cq_ExchangeType cq_StockCode cq_PageNo cq_PageSize].
    replace (ClampPageSize (Trading.cf_PageSize f)) with (Trading.cf_PageSize f)
      by (unfold ClampPageSize, MaxPageSize; repeat case_decide; lia).
    apply TradeReleased.exchange_follows.
  - query TradeReleased.HistoryEntrustList (mkHistoryEntrustListRequest hx 50 "" (Trading.hf_StartDate h) (Trading.hf_EndDate h)).
    apply TradeReleased.exchange_follows.
  - query TradeReleased.HistoryDeliverList (mkHistoryDeliverListRequest hx 50 "" (Trading.hf_StartDate h) (Trading.hf_EndDate h)).
    apply TradeReleased.exchange_follows.
  - eapply released_refuses; [apply service_sends | done].
  - query TradeReleased.BeforeAndAfterSupport (mkBeforeAndAfterSupportRequest (Code sym) e).
    TradeReleased.released. by rewrite and_then_ok, require_ok, TradeReleased.exchange_accepted.
  - query TradeReleased.MaxAvailableAsset (mkMaxAvailableAssetRequest e (Code sym) (dec_String (price_dec p)) t).
    TradeReleased.released. unfold TradeReleased.MaxAvailableAssetRequest_validate.
    by rewrite !and_then_ok, TradeReleased.exchange_accepted, !require_ok.
Qed.
End migration.

(** ** The theorem on concrete orders *)
Definition demo_gateway : executor unit string := fun _ _ _ w => (Ret (inl "OK"), w).

Definition demo_reader : Trading.executor unit string :=
  Trading.mkExecutor unit string (fun _ _ _ w => (Ret (inl ""), w)) (fun s => s) (fun s => s) (fun _ => []) (fun _ => [])
    (fun s => Trading.mkMaxWire s s s s s s s s s s s s s s s s s s s s) (fun s => Trading.mkMarginWire s s s s s s s s []).

Definition demo_order (amount : Z) : Trading.Order dec :=
  Trading.mkOrder (NewSymbol MarketHK "00700" DataTypeHKStock) EntrustBuy EntrustTypeEnhancedLimit
    (mkQuantity (mkDec amount 0)) (mkPrice (mkDec 3204 1) (mkDec 0 0)) "" "" (mkQuantity (mkDec 0 0)) 0 "" "" 0 "".

(** What each layer sends for an order of 100, and for one of none at all. *)
Example migration_run :
  let theirs n := TradeReleased.Entrust (TradeReleased.recording demo_gateway) TradeReleased.demo_replies released_manager
    (as_released (demo_order n)) (tt, []) in
  map (fun n => (Trading.validateOrderForHK 0 (demo_order n) TickSchedule_resolver,
                 sent (Trading.Entrust 0 (service demo_gateway demo_reader None) "A" (demo_order n) (tt, [])), sent (theirs n)))
    [100; 0]
  = [(Ret None, [TradeReleased.Sent RouteTradeEntrust (EntrustRequest_body (as_released (demo_order 100)))],
                [TradeReleased.Sent RouteTradeEntrust (EntrustRequest_body (as_released (demo_order 100)))]);
     (Ret None, [TradeReleased.Sent RouteTradeEntrust (EntrustRequest_body (as_released (demo_order 0)))], [])].
Proof. vm_compute. reflexivity. Qed.

Lemma demo_order_valid : Trading.validateOrderForHK 0 (demo_order 100) TickSchedule_resolver = Ret None.
Proof. vm_compute. reflexivity. Qed.

Lemma demo_order_readable : order_readable (demo_order 100).
Proof. repeat split; vm_compute; discriminate. Qed.

Lemma demo_order_moves : order_moves (demo_order 100).
Proof. split; try decided; try (by vm_compute). intros H. exfalso. revert H. decided. Qed.

(** The order moves; a cancel does not. *)
Lemma trade_migration_witness :
  sent (TradeReleased.Entrust (TradeReleased.recording demo_gateway) TradeReleased.demo_replies released_manager
    (as_released (demo_order 100)) (tt, []))
    = [TradeReleased.Sent RouteTradeEntrust (EntrustRequest_body (as_released (demo_order 100)))]
  /\ exists msg, TradeReleased.CancelEntrust (TradeReleased.recording demo_gateway) TradeReleased.demo_replies released_manager
       (mkCancelEntrustRequest ExchangeHK "" "" "" "7" "") (tt, [])
     = (Ret (inr (Errs.New StatusInvalidParam TradeReleased.opCancelEntrust msg)), (tt, [])).
Proof.
  destruct (trade_migration demo_gateway demo_reader TradeReleased.demo_replies None 0 "A" (demo_order 100) "7" []
    (Trading.o_Price (demo_order 100)) (mkQuantity (mkDec 100 0)) tt) as (Hm & Hok & _ & _ & Hc & _); [done | done |].
  split.
  - apply (Hm demo_order_valid), Hok, demo_order_moves. exact demo_order_readable.
  - apply (proj2 (proj2 Hc)). by intros [].
Defined.
