(* ===== verification/KeepAlive.v ===== *)
(** The rest of the released session manager [src/pkg/hstong/session.go]: its
    options, the login request itself, and the keep-alive loop with the calls that
    start and stop it. The login states are those of [Session]. *)
From stdpp Require Import gmap.
From S2P Require Import Prelude Types Errs Routes Crypto Service Session.
Local Open Scope Z_scope.

Create HintDb keepalive.

(** ** Options *)
Definition opTradeLogin : string := "trade/TradeLogin".
Definition opTradeLogout : string := "trade/TradeLogout".

(** Thirty minutes, in nanoseconds. *)
Definition DefaultKeepAliveInterval : Z := 30 * 60 * 1000000000.

Record sessionConfig := mkSessionConfig { sc_keepAliveInterval : Z; sc_keepAliveRoute : string }.

Definition defaultSessionConfig : sessionConfig :=
  mkSessionConfig DefaultKeepAliveInterval RouteTradeQueryMarginFundInfo.

Inductive SessionOption :=
  | WithKeepAliveInterval (interval : Z)
  | WithKeepAliveRoute (route : string).

Definition apply_session_option (c : sessionConfig) (o : option SessionOption) : sessionConfig :=
  match o with
  | None => c
  | Some (WithKeepAliveInterval interval) =>
      mkSessionConfig (if decide (interval <= 0) then DefaultKeepAliveInterval else interval) (sc_keepAliveRoute c)
  | Some (WithKeepAliveRoute route) =>
      mkSessionConfig (sc_keepAliveInterval c) (if decide (route = "") then RouteTradeQueryMarginFundInfo else route)
  end.

(** The settings [NewSessionManager] resolves. *)
Definition session_settings (opts : list (option SessionOption)) : sessionConfig :=
  let cfg := foldl apply_session_option defaultSessionConfig opts in
  mkSessionConfig
    (if decide (sc_keepAliveInterval cfg <= 0) then DefaultKeepAliveInterval else sc_keepAliveInterval cfg)
    (if decide (sc_keepAliveRoute cfg = "") then RouteTradeQueryMarginFundInfo else sc_keepAliveRoute cfg).

(** The ticker of the loop always has a positive period (a ticker of another period
    panics), and the poll always has a route. *)
Lemma session_settings_valid opts :
  0 < sc_keepAliveInterval (session_settings opts) /\ sc_keepAliveRoute (session_settings opts) <> "".
Proof.
  unfold session_settings, DefaultKeepAliveInterval. cbn. split; case_decide; try lia; done.
Qed.

(** ** The login request *)
Section login.
Context {W Raw : Type} (X : executor W Raw) (success : Raw -> bool).

(** The AES block cipher, and the trade password of the client. *)
Context (block_Encrypt : bytestr -> bytestr -> bytestr) (TradePassword : bytestr).

(** The JSON text of a byte string. *)
Definition tradeLoginParams (password : bytestr) : body :=
  str_field "password" (String.string_of_list_byte password).

Definition doLogin (w : W) : outcome (option error) * W :=
  if decide (TradePassword = []) then (Ret (Some (Errs.New "" opTradeLogin "trade password is not configured")), w)
  else
    match EncryptTradePassword block_Encrypt TradePassword with
    | inr e => (Ret (Some (Errs.Wrap (Some e) "" opTradeLogin "encrypt trade password")), w)
    | inl encrypted =>
        match X opTradeLogin RouteTradeLogin (tradeLoginParams encrypted) w with
        | (Panic, w) => (Panic, w)
        | (Ret (inr e), w) => (Ret (Some e), w)
        | (Ret (inl resp), w) =>
            (Ret (if success resp then None else Some (Errs.New "" opTradeLogin "trade login was rejected")), w)
        end
    end.

(** One poll: the outcome of [EnsureLoggedIn] is given; every result is ignored. *)
Definition keepAliveOnce (route : string) (ensured : option error) (w : W) : W :=
  match ensured with
  | Some _ => w
  | None => snd (X route route [] w)
  end.
End login.

(** ** The loop and its calls

    A loop is a goroutine with its own cancellation and its own [done] channel. *)
Inductive loop_pc :=
  | LRunning                  (** in the [select] *)
  | LPolling                  (** in [keepAliveOnce] *)
  | LClosed                   (** [done] is closed, [kaMu] not yet taken *)
  | LEnded.

Record loop := mkLoop {
  lo_pc : loop_pc;
  lo_parent : nat;            (** the context it was started with *)
  lo_cancelled : bool;        (** its cancel function was called *)
  lo_closes : nat;            (** how often its [done] was closed *)
}.

(** A call of [StopKeepAlive]. *)
Inductive stop_pc :=
  | SCancel (i : nat)         (** has taken the loop, about to cancel it *)
  | SWait (i : nat)           (** in [<-done] *)
  | SReturned (i : option nat).  (** ghost: the loop it stopped *)

Record keeper := mkKeeper {
  kaCancel : option nat;      (** the loop whose cancel function it is *)
  kaDone : option nat;        (** the loop whose [done] it is *)
  loops : gmap nat loop;
  parents : gset nat;         (** the contexts that are cancelled *)
  stops : gmap nat stop_pc;
}.

Definition new_keeper : keeper := mkKeeper None None ∅ ∅ ∅.

Definition set_loop (i : nat) (l : loop) (k : keeper) : keeper :=
  mkKeeper (kaCancel k) (kaDone k) (<[i := l]> (loops k)) (parents k) (stops k).
Definition set_stop (t : nat) (p : stop_pc) (k : keeper) : keeper :=
  mkKeeper (kaCancel k) (kaDone k) (loops k) (parents k) (<[t := p]> (stops k)).
Definition set_ka (c : option nat) (k : keeper) : keeper := mkKeeper c c (loops k) (parents k) (stops k).

(** [StartKeepAlive] with the context [p]; a new loop is numbered [i]. *)
Definition StartKeepAlive (i p : nat) (k : keeper) : keeper :=
  match kaCancel k with
  | Some _ => k
  | None => set_loop i (mkLoop LRunning p false 0) (set_ka (Some i) k)
  end.

(** [StopKeepAlive] up to the release of [kaMu]. *)
Definition StopKeepAlive (t : nat) (k : keeper) : keeper :=
  let cancel := kaCancel k in
  let done := kaDone k in
  let k := set_ka None k in
  match cancel, done with
  | Some i, Some _ => set_stop t (SCancel i) k
  | _, _ => set_stop t (SReturned None) k
  end.

Definition at_pc (p : loop_pc) (l : loop) : loop := mkLoop p (lo_parent l) (lo_cancelled l) (lo_closes l).
Definition cancel_loop (l : loop) : loop := mkLoop (lo_pc l) (lo_parent l) true (lo_closes l).
Definition close_done (l : loop) : loop := mkLoop LClosed (lo_parent l) (lo_cancelled l) (S (lo_closes l)).

(** Its context is done: cancelled by a stop, or with its parent. *)
Definition ctx_done (k : keeper) (l : loop) : bool := lo_cancelled l || bool_decide (lo_parent l ∈ parents k).

(** The deferred cleanup, under [kaMu]. *)
Definition loop_clear (i : nat) (l : loop) (k : keeper) : keeper :=
  let k := if decide (kaDone k = Some i) then set_ka None k else k in
  set_loop i (at_pc LEnded l) k.

Inductive step : keeper -> keeper -> Prop :=
  | step_start k i p : loops k !! i = None -> step k (StartKeepAlive i p k)
  | step_stop k t : stops k !! t = None -> step k (StopKeepAlive t k)
  | step_cancel k t i l : stops k !! t = Some (SCancel i) -> loops k !! i = Some l ->
      step k (set_stop t (SWait i) (set_loop i (cancel_loop l) k))
  | step_stopped k t i l : stops k !! t = Some (SWait i) -> loops k !! i = Some l -> (0 < lo_closes l)%nat ->
      step k (set_stop t (SReturned (Some i)) k)
  | step_parent k p :
      step k (mkKeeper (kaCancel k) (kaDone k) (loops k) ({[p]} ∪ parents k) (stops k))
  | step_tick k i l : loops k !! i = Some l -> lo_pc l = LRunning -> step k (set_loop i (at_pc LPolling l) k)
  | step_polled k i l : loops k !! i = Some l -> lo_pc l = LPolling -> step k (set_loop i (at_pc LRunning l) k)
  | step_exit k i l : loops k !! i = Some l -> lo_pc l = LRunning -> ctx_done k l = true ->
      step k (set_loop i (close_done l) k)
  | step_clear k i l : loops k !! i = Some l -> lo_pc l = LClosed -> step k (loop_clear i l k).

Inductive reachable : keeper -> Prop :=
  | reach_new : reachable new_keeper
  | reach_step k k' : reachable k -> step k k' -> reachable k'.

(** ** The invariant *)
Definition live (p : loop_pc) : Prop := p = LRunning \/ p = LPolling.
Definition over (p : loop_pc) : Prop := p = LClosed \/ p = LEnded.

(** A loop that no stop has cancelled or is about to cancel. *)
Definition unclaimed (k : keeper) (i : nat) (l : loop) : Prop :=
  lo_cancelled l = false /\ forall t, stops k !! t <> Some (SCancel i).

Record keeper_inv (k : keeper) : Prop := {
  ki_same : kaCancel k = kaDone k;
  ki_registered i : kaDone k = Some i ->
    exists l, loops k !! i = Some l /\ lo_pc l <> LEnded /\ unclaimed k i l;
  ki_closes i l : loops k !! i = Some l -> lo_closes l = (match lo_pc l with LClosed | LEnded => 1 | _ => 0 end)%nat;
  ki_unclaimed i l : loops k !! i = Some l -> lo_pc l <> LEnded -> unclaimed k i l -> kaDone k = Some i;
  ki_stop t i : stops k !! t = Some (SCancel i) -> is_Some (loops k !! i);
  ki_wait t i : stops k !! t = Some (SWait i) -> exists l, loops k !! i = Some l /\ lo_cancelled l = true;
  ki_returned t i : stops k !! t = Some (SReturned (Some i)) -> exists l, loops k !! i = Some l /\ over (lo_pc l);
}.

(** A loop that moves on keeps its number, its cancellation and its context. *)
Definition moves_on (l l' : loop) : Prop :=
  lo_cancelled l' = lo_cancelled l /\ lo_pc l <> LEnded /\ (over (lo_pc l) -> over (lo_pc l')).

Lemma set_loop_inv i l l' k : keeper_inv k -> loops k !! i = Some l -> moves_on l l' ->
  lo_closes l' = (match lo_pc l' with LClosed | LEnded => 1 | _ => 0 end)%nat ->
  (lo_pc l' = LEnded -> kaDone k <> Some i) -> keeper_inv (set_loop i l' k).
Proof.
  intros [Hsame Hreg Hcl Hun Hst Hw Hr] Hl (Hc & Hne & Ho) Hclose Hend. split; cbn.
  - done.
  - intros j Hj. destruct (Hreg j Hj) as (lj & Hlj & Hpc & Hu & Ht). destruct (decide (j = i)) as [->|Hji].
    + rewrite Hl in Hlj. injection Hlj as <-. exists l'. rewrite lookup_insert_eq. split; [done |].
      split; [by intros He; apply Hend |]. split; [congruence | done].
    + exists lj. rewrite lookup_insert_ne by done. by split_and!.
  - intros j lj. rewrite lookup_insert_Some. intros [[<- <-]|[_ Hj]]; eauto.
  - intros j lj. rewrite lookup_insert_Some. intros [[<- <-]|[_ Hj]] Hpc [Hu Ht]; [| by apply (Hun j lj)].
    apply (Hun i l); [done | done |]. split; [congruence | done].
  - intros t j Hj. rewrite lookup_insert_is_Some'. right. eauto.
  - intros t j Hj. destruct (Hw t j Hj) as (lj & Hlj & Hcj). destruct (decide (j = i)) as [->|Hji].
    + exists l'. rewrite lookup_insert_eq. split; [done | congruence].
    + exists lj. by rewrite lookup_insert_ne.
  - intros t j Hj. destruct (Hr t j Hj) as (lj & Hlj & Hoj). destruct (decide (j = i)) as [->|Hji].
    + exists l'. rewrite lookup_insert_eq. assert (lj = l) as -> by congruence. auto.
    + exists lj. by rewrite lookup_insert_ne.
Qed.

Lemma start_inv k i p : keeper_inv k -> loops k !! i = None -> keeper_inv (StartKeepAlive i p k).
Proof.
  intros Hinv Hi. unfold StartKeepAlive. destruct (kaCancel k) as [c|] eqn:Hc; [done |].
  destruct Hinv as [Hsame Hreg Hcl Hun Hst Hw Hr]. rewrite Hc in Hsame.
  assert (Hnot : forall t, stops k !! t <> Some (SCancel i)).
  { intros t Ht. destruct (Hst t i Ht) as [l Hl]. congruence. }
  split; cbn.
  - done.
  - intros j [= <-]. eexists. rewrite lookup_insert_eq. split; [done |]. cbn. by split_and!.
  - intros j lj. rewrite lookup_insert_Some. intros [[<- <-]|[_ Hj]]; [done | eauto].
  - intros j lj. rewrite lookup_insert_Some. intros [[<- <-]|[_ Hj]] Hpc Hu; [done |].
    assert (kaDone k = Some j) by (by apply (Hun j lj)). congruence.
  - intros t j Hj. rewrite lookup_insert_is_Some'. right. eauto.
  - intros t j Hj. destruct (Hw t j Hj) as (lj & Hlj & ?). exists lj. rewrite lookup_insert_ne by congruence. done.
  - intros t j Hj. destruct (Hr t j Hj) as (lj & Hlj & ?). exists lj. rewrite lookup_insert_ne by congruence. done.
Qed.

(** A stop that moves on: to a place that its loop allows. *)
Lemma set_stop_inv t p k : keeper_inv k -> (forall i, p <> SCancel i) ->
  (forall i, stops k !! t = Some (SCancel i) -> exists l, loops k !! i = Some l /\ lo_cancelled l = true) ->
  (forall i, p = SWait i -> exists l, loops k !! i = Some l /\ lo_cancelled l = true) ->
  (forall i, p = SReturned (Some i) -> exists l, loops k !! i = Some l /\ over (lo_pc l)) ->
  keeper_inv (set_stop t p k).
Proof.
  intros [Hsame Hreg Hcl Hun Hst Hw Hr] Hp Hold Hwait Hret.
  assert (Hback : forall i l, loops k !! i = Some l -> unclaimed (set_stop t p k) i l -> unclaimed k i l).
  { intros i l Hl [Hc Ht]. split; [done |]. intros u Hu. destruct (decide (u = t)) as [->|Hne].
    - destruct (Hold i Hu) as (l' & Hl' & Hc'). congruence.
    - apply (Ht u). cbn. by rewrite lookup_insert_ne. }
  split; cbn; try done.
  - intros i Hi. destruct (Hreg i Hi) as (l & Hl & Hpc & Hc & Ht). exists l. split; [done |]. split; [done |].
    split; [done |]. intros u. cbn. rewrite lookup_insert_Some. intros [[_ He]|[_ Hu]]; [by apply (Hp i) | by apply (Ht u)].
  - intros i l Hl Hpc Hu. apply (Hun i l); eauto.
  - intros u i. rewrite lookup_insert_Some. intros [[_ He]|[_ Hu]]; [by destruct (Hp i) | eauto].
  - intros u i. rewrite lookup_insert_Some. intros [[_ He]|[_ Hu]]; eauto.
  - intros u i. rewrite lookup_insert_Some. intros [[_ He]|[_ Hu]]; eauto.
Qed.

Lemma keeper_stop_inv k t : keeper_inv k -> stops k !! t = None -> keeper_inv (StopKeepAlive t k).
Proof.
  intros Hinv Ht. pose proof Hinv as [Hsame Hreg Hcl Hun Hst Hw Hr]. unfold StopKeepAlive. rewrite Hsame.
  destruct (kaDone k) as [i|] eqn:Hka.
  - destruct (Hreg i eq_refl) as (l & Hl & Hpc & Hc & Hu). split; cbn.
    + done.
    + done.
    + done.
    + intros j lj Hj Hpcj [Hcj Huj]. destruct (decide (j = i)) as [->|Hji].
      { destruct (Huj t). cbn. by rewrite lookup_insert_eq. }
      assert (Some i = Some j); [| congruence]. apply (Hun j lj); [done | done |]. split; [done |].
      intros u Hu'. apply (Huj u). cbn. destruct (decide (u = t)) as [->|]; [congruence | by rewrite lookup_insert_ne].
    + intros u j. rewrite lookup_insert_Some. intros [[_ [= <-]]|[_ Hu']]; eauto.
    + intros u j. rewrite lookup_insert_Some. intros [[_ ?]|[_ Hu']]; [done | eauto].
    + intros u j. rewrite lookup_insert_Some. intros [[_ ?]|[_ Hu']]; [done | eauto].
  - assert (set_ka None k = k) as -> by (unfold set_ka; destruct k; cbn in *; by subst).
    apply set_stop_inv; [done | done | intros i Hi; congruence | done | done].
Qed.

(** Cancelling the loop a stop has taken. *)
Lemma cancel_inv k t i l : keeper_inv k -> stops k !! t = Some (SCancel i) -> loops k !! i = Some l ->
  keeper_inv (set_stop t (SWait i) (set_loop i (cancel_loop l) k)).
Proof.
  intros Hinv Ht Hl. apply set_stop_inv.
  - destruct Hinv as [Hsame Hreg Hcl Hun Hst Hw Hr]. split; cbn.
    + done.
    + intros j Hj. destruct (Hreg j Hj) as (lj & Hlj & Hpc & Hu). exists lj.
      rewrite lookup_insert_ne; [done |]. intros <-. destruct Hu as [_ Hu]. by destruct (Hu t).
    + intros j lj. rewrite lookup_insert_Some. intros [[<- <-]|[_ Hj]]; [by apply (Hcl i l) | eauto].
    + intros j lj. rewrite lookup_insert_Some. intros [[<- <-]|[_ Hj]] Hpc Hu; [by destruct Hu | by apply (Hun j lj)].
    + intros u j Hj. rewrite lookup_insert_is_Some'. right. eauto.
    + intros u j Hj. destruct (Hw u j Hj) as (lj & Hlj & Hcj). destruct (decide (j = i)) as [->|Hji].
      * exists (cancel_loop l). by rewrite lookup_insert_eq.
      * exists lj. by rewrite lookup_insert_ne.
    + intros u j Hj. destruct (Hr u j Hj) as (lj & Hlj & Ho). destruct (decide (j = i)) as [->|Hji].
      * exists (cancel_loop l). rewrite lookup_insert_eq. split; [done |]. by assert (lj = l) as -> by congruence.
      * exists lj. by rewrite lookup_insert_ne.
  - done.
  - intros j Hj. cbn in *. exists (cancel_loop l). rewrite Ht in Hj. injection Hj as <-. by rewrite lookup_insert_eq.
  - intros j [= <-]. exists (cancel_loop l). cbn. by rewrite lookup_insert_eq.
  - done.
Qed.

Lemma clear_inv k i l : keeper_inv k -> loops k !! i = Some l -> lo_pc l = LClosed -> keeper_inv (loop_clear i l k).
Proof.
  intros Hinv Hl Hpc. unfold loop_clear. case_decide as Hk.
  - destruct Hinv as [Hsame Hreg Hcl Hun Hst Hw Hr]. destruct (Hreg i Hk) as (l0 & Hl0 & _ & Hu).
    rewrite Hl in Hl0. injection Hl0 as <-. split; cbn.
    + done.
    + done.
    + intros j lj. rewrite lookup_insert_Some. intros [[<- <-]|[_ Hj]]; [| eauto].
      cbn. rewrite (Hcl i l Hl). by rewrite Hpc.
    + intros j lj. rewrite lookup_insert_Some. intros [[<- <-]|[Hji Hj]] Hpcj Huj; [done |].
      assert (kaDone k = Some j) by (by apply (Hun j lj)). congruence.
    + intros u j Hj. rewrite lookup_insert_is_Some'. right. eauto.
    + intros u j Hj. destruct (Hw u j Hj) as (lj & Hlj & Hcj). destruct (decide (j = i)) as [->|Hji].
      * destruct Hu as [Hu _]. congruence.
      * exists lj. by rewrite lookup_insert_ne.
    + intros u j Hj. destruct (Hr u j Hj) as (lj & Hlj & Ho). destruct (decide (j = i)) as [->|Hji].
      * exists (at_pc LEnded l). rewrite lookup_insert_eq. split; [done |]. by right.
      * exists lj. by rewrite lookup_insert_ne.
  - apply (set_loop_inv i l); [done | done | | | done].
    + split; [done |]. split; [by rewrite Hpc |]. intros _. by right.
    + cbn. rewrite (ki_closes k Hinv i l Hl). by rewrite Hpc.
Qed.

Lemma step_inv k k' : keeper_inv k -> step k k' -> keeper_inv k'.
Proof.
  intros Hinv Hs. destruct Hs as [k i p Hi|k t Ht|k t i l Ht Hl|k t i l Ht Hl Hc|k p|k i l Hl Hp|k i l Hl Hp|k i l Hl Hp _|k i l Hl Hp].
  - by apply start_inv.
  - by apply keeper_stop_inv.
  - by apply cancel_inv.
  - apply set_stop_inv; [done | done | intros j Hj; congruence | done |]. intros j [= <-]. exists l. split; [done |].
    pose proof (ki_closes k Hinv i l Hl) as He. destruct (lo_pc l); [lia | lia | by left | by right].
  - destruct Hinv as [H1 H2 H3 H4 H5 H6 H7]. by split.
  - apply (set_loop_inv i l); [done | done | | | done].
    + split; [done |]. split; [congruence |]. intros [?|?]; congruence.
    + cbn. rewrite (ki_closes k Hinv i l Hl). by rewrite Hp.
  - apply (set_loop_inv i l); [done | done | | | done].
    + split; [done |]. split; [congruence |]. intros [?|?]; congruence.
    + cbn. rewrite (ki_closes k Hinv i l Hl). by rewrite Hp.
  - apply (set_loop_inv i l); [done | done | | | done].
    + split; [done |]. split; [congruence |]. intros _. by left.
    + cbn. rewrite (ki_closes k Hinv i l Hl). by rewrite Hp.
  - by apply clear_inv.
Qed.

Lemma keeper_reachable_inv k : reachable k -> keeper_inv k.
Proof.
  induction 1 as [|k k' _ IH Hs]; [| by apply (step_inv k)].
  by split; cbn; intros; simplify_map_eq.
Qed.

(** ** Starting and stopping *)

(** The loop [i] is cancelled and the stop [t] waits for it: they alone bring the
    stop to its return, once the poll under way is over. *)
Lemma stop_can_return k t i : keeper_inv k -> stops k !! t = Some (SWait i) ->
  exists k', rtc step k k' /\ stops k' !! t = Some (SReturned (Some i)).
Proof.
  intros Hinv Ht. destruct (ki_wait k Hinv t i Ht) as (l & Hl & Hc).
  assert (Hover : forall k l, stops k !! t = Some (SWait i) -> loops k !! i = Some l -> (0 < lo_closes l)%nat ->
    exists k', rtc step k k' /\ stops k' !! t = Some (SReturned (Some i))).
  { intros k0 l0 Ht0 Hl0 Hcl. eexists. split; [by apply rtc_once, (step_stopped k0 t i l0) |]. cbn. by rewrite lookup_insert_eq. }
  assert (Hrun : forall k l, stops k !! t = Some (SWait i) -> loops k !! i = Some l -> lo_cancelled l = true ->
    lo_pc l = LRunning -> exists k', rtc step k k' /\ stops k' !! t = Some (SReturned (Some i))).
  { intros k0 l0 Ht0 Hl0 Hc0 Hp0. destruct (Hover (set_loop i (close_done l0) k0) (close_done l0)) as (k' & Hr & Hk').
    - done.
    - cbn. by rewrite lookup_insert_eq.
    - cbn. lia.
    - exists k'. split; [| done]. eapply rtc_l; [| exact Hr]. apply step_exit; [done | done |].
      unfold ctx_done. by rewrite Hc0. }
  pose proof (ki_closes k Hinv i l Hl) as Hcl. destruct (lo_pc l) eqn:Hp.
  - by apply (Hrun k l).
  - destruct (Hrun (set_loop i (at_pc LRunning l) k) (at_pc LRunning l)) as (k' & Hr & Hk').
    + done.
    + cbn. by rewrite lookup_insert_eq.
    + done.
    + done.
    + exists k'. split; [| done]. eapply rtc_l; [by apply (step_polled k i l) | exact Hr].
  - apply (Hover k l); [done | done | lia].
  - apply (Hover k l); [done | done | lia].
Qed.

(** C26: in every interleaving of [StartKeepAlive], [StopKeepAlive], the loops and
    the cancellation of their contexts: the [done] of a loop is closed at most once
    (no panic); of the loops that poll, at most one has not been taken by a stop,
    and it is the one registered; when a [StopKeepAlive] that took a loop has
    returned, that loop polls no more; and a stop that waits can always come to its
    return by the steps of its own loop. *)
Theorem keepalive_lifecycle (k : keeper) :
  reachable k ->
  (forall i l, loops k !! i = Some l -> (lo_closes l <= 1)%nat)
  /\ (forall i l, loops k !! i = Some l -> live (lo_pc l) -> unclaimed k i l -> kaDone k = Some i)
  /\ (forall t i, stops k !! t = Some (SReturned (Some i)) -> exists l, loops k !! i = Some l /\ over (lo_pc l))
  /\ (forall t i, stops k !! t = Some (SWait i) ->
        exists k', rtc step k k' /\ stops k' !! t = Some (SReturned (Some i))).
Proof.
  intros Hr%keeper_reachable_inv. split; [|split; [|split]].
  - intros i l Hl. rewrite (ki_closes k Hr i l Hl). destruct (lo_pc l); lia.
  - intros i l Hl Hp. apply (ki_unclaimed k Hr i l Hl). destruct Hp as [->| ->]; done.
  - apply (ki_returned k Hr).
  - intros t i. by apply stop_can_return.
Qed.

(** A loop that ended by itself, because the context it was started with was
    cancelled, stays registered until its cleanup: a [StartKeepAlive] with a live
    context that falls between the two does nothing, and no loop runs afterwards. *)
Lemma keepalive_start_lost :
  exists k k', reachable k /\ step k k'
    /\ (1%nat ∉ parents k) /\ StartKeepAlive 1 1 k = k
    /\ kaDone k' = None /\ (forall i l, loops k' !! i = Some l -> over (lo_pc l)).
Proof.
  set (k1 := StartKeepAlive 0 0 new_keeper).
  set (k2 := mkKeeper (kaCancel k1) (kaDone k1) (loops k1) ({[0%nat]} ∪ parents k1) (stops k1)).
  set (l := mkLoop LRunning 0 false 0).
  set (k3 := set_loop 0 (close_done l) k2).
  exists k3, (loop_clear 0 (close_done l) k3). split_and!.
  - apply reach_step with k2; [| by apply (step_exit k2 0 l)].
    apply reach_step with k1; [| apply step_parent].
    apply reach_step with new_keeper; [constructor | by apply step_start].
  - by apply step_clear.
  - apply (bool_decide_unpack _). vm_compute. done.
  - done.
  - done.
  - intros i l'. unfold loop_clear. rewrite decide_True by done. cbn. rewrite !insert_insert_eq, lookup_insert_Some.
    intros [[_ <-]|[_ Hl]]; [by right | by rewrite lookup_empty in Hl].
Qed.

(** ** The login request *)

(** Without a trade password nothing is sent; with one, at most one request goes to
    the login route, and it carries the encryption of the password. *)
Lemma login_request {W Raw} (X : executor W Raw) success block_Encrypt password (w : W) log :
  let r := doLogin (logged X) success block_Encrypt password (w, log) in
  (password = [] -> r = (Ret (Some (Errs.New "" opTradeLogin "trade password is not configured")), (w, log)))
  /\ (snd (snd r) = log
      \/ exists c, (EncryptTradePassword block_Encrypt password = inl c)
           /\ snd (snd r) = log ++ [(RouteTradeLogin, tradeLoginParams c)]).
Proof.
  unfold doLogin. case_decide as Hp; [split; [done | by left] |]. split; [done |].
  destruct (EncryptTradePassword block_Encrypt password) as [c|e]; [right; exists c; split; [done |] | by left].
  unfold logged. cbn. by destruct (X opTradeLogin RouteTradeLogin (tradeLoginParams c) w) as [[[raw|e]|] w'].
Qed.

(** ** Witness *)
Lemma keepalive_lifecycle_witness :
  exists k, reachable k /\ stops k !! 0%nat = Some (SWait 0)
    /\ exists k', rtc step k k' /\ stops k' !! 0%nat = Some (SReturned (Some 0%nat)).
Proof.
  set (k1 := StartKeepAlive 0 0 new_keeper).
  set (k2 := StopKeepAlive 0 k1).
  set (k3 := set_stop 0 (SWait 0) (set_loop 0 (cancel_loop (mkLoop LRunning 0 false 0)) k2)).
  assert (H : reachable k3).
  { apply reach_step with k2; [| by apply step_cancel].
    apply reach_step with k1; [| by apply step_stop].
    apply reach_step with new_keeper; [constructor | by apply step_start]. }
  exists k3. split; [exact H |]. split; [reflexivity |].
  exact (proj2 (proj2 (proj2 (keepalive_lifecycle k3 H))) 0%nat 0%nat eq_refl).
Defined.
