(* ===== verification/Market.v ===== *)
(** Market data: the rows and mappings of [src/pkg/domain/market.go] and the eleven
    operations of [src/pkg/services/market.go]. The messages of [gen/] are records
    of their fields; a double is what it prints ([PushEvents.float64]). *)
From Stdlib Require Import QArith.
From S2P Require Import Prelude Types Errs Retry Routes Domain Decimals Service PushClient PushKeys PushEvents.
Local Open Scope Z_scope.
Local Open Scope go_scope.

(** ** The messages of [gen/hq/dto] *)
Module Dto.

Record BasicQotMsg := mkBasicQotMsg {
  Security : option PushKeys.Security; IsSuspended : bool;
  OpenPrice : float64; HighPrice : float64; LowPrice : float64; LastPrice : float64; LastClosePrice : float64;
  PriceSpread : float64; Volume : Z; Turnover : float64; TurnoverRate : float64; Amplitude : float64;
  SecStatus : Z; ListTime : string; LotSize : Z; TradeTime : string; MarketTime : string; StockStatus : string;
  VolumeStr : string; MktTmType : Z;
}.

Record KLineMsg := mkKLineMsg {
  kl_Date : string; kl_HighPrice : float64; kl_OpenPrice : float64; kl_LowPrice : float64; kl_ClosePrice : float64;
  kl_LastClosePrice : float64; kl_Volume : Z; kl_Turnover : float64; kl_Timestamp : Z; kl_Time : string;
}.

Record TimeShareMsg := mkTimeShareMsg {
  sh_Time : string; sh_Price : float64; sh_LastClosePrice : float64; sh_AvgPrice : float64; sh_Volume : Z;
  sh_Turnover : float64;
}.

Record TickerMsg := mkTickerMsg {
  tk_Time : string; tk_Side : Z; tk_Price : float64; tk_Volume : Z; tk_Turnover : float64; tk_Type : Z;
  tk_Timestamp : Z; tk_MktTmType : Z;
}.

End Dto.

(** ** Rows of the domain *)
Section rows.
Context {D : Type} `{Decimal D}.

Record Quote := mkQuote {
  qt_Symbol : Symbol; qt_IsSuspended : bool;
  qt_OpenPrice : Price D; qt_HighPrice : Price D; qt_LowPrice : Price D; qt_LastPrice : Price D;
  qt_LastClosePrice : Price D; qt_PriceSpread : Price D; qt_Volume : Quantity D; qt_VolumeStr : string;
  qt_Turnover : Money D; qt_TurnoverRate : Rate D; qt_Amplitude : Rate D; qt_SecStatus : Z; qt_ListTime : string;
  qt_LotSize : Z; qt_TradeTime : string; qt_MarketTime : string; qt_StockStatus : string; qt_MktTmType : Z;
}.

Record KLine := mkKLine {
  kn_Date : string; kn_HighPrice : Price D; kn_OpenPrice : Price D; kn_LowPrice : Price D; kn_ClosePrice : Price D;
  kn_LastClosePrice : Price D; kn_Volume : Quantity D; kn_Turnover : Money D; kn_Timestamp : Z; kn_Time : string;
}.

Record TimeSharePoint := mkTimeSharePoint {
  sp_Time : string; sp_Price : Price D; sp_LastClosePrice : Price D; sp_AvgPrice : Price D; sp_Volume : Quantity D;
  sp_Turnover : Money D;
}.

Record TickerTick := mkTickerTick {
  tt_Time : string; tt_Side : Z; tt_Price : Price D; tt_Volume : Quantity D; tt_Turnover : Money D; tt_Type : Z;
  tt_Timestamp : Z; tt_MktTmType : Z;
}.

Record BrokerQueueEntry := mkBrokerQueueEntry { bqe_Level : Z; bqe_Item : string; bqe_Type : Z; bqe_Name : string }.

(** [decimal.NewFromFloat] is the shortest decimal of the double, and panics on one
    that is not finite; [decimal.Decimal{}] is zero. *)
Definition NewFromFloat (f : float64) : outcome D :=
  match dec_NewFromString (FormatFloat f) with inl d => Ret d | inr _ => Panic end.

Definition defaultHKDScale : Z := 3.

Definition floatToPrice (v : float64) : outcome (Price D) := d ← NewFromFloat v; Ret (mkPrice d no_dec).
Definition floatToMoney (v : float64) : outcome (Money D) := d ← NewFromFloat v; Ret (mkMoney d "HKD" defaultHKDScale).
Definition int_quantity (n : Z) : Quantity D := mkQuantity (dec_NewFromInt n).

(** A mapper of a pointer gives nil for nil. *)
Definition of_pointer {A B} (f : A -> outcome B) (p : option A) : outcome (option B) :=
  match p with None => Ret None | Some a => b ← f a; Ret (Some b) end.

(** [Sprintf_4f] is [fmt.Sprintf("%.4f", f)]. *)
Definition QuoteFromDTO (Sprintf_4f : float64 -> string) : option Dto.BasicQotMsg -> outcome (option Quote) :=
  of_pointer (fun b =>
    open ← floatToPrice (Dto.OpenPrice b);
    high ← floatToPrice (Dto.HighPrice b);
    low ← floatToPrice (Dto.LowPrice b);
    last ← floatToPrice (Dto.LastPrice b);
    close ← floatToPrice (Dto.LastClosePrice b);
    spread ← floatToPrice (Dto.PriceSpread b);
    turnover ← floatToMoney (Dto.Turnover b);
    rate ← MustNewRate (Sprintf_4f (Dto.TurnoverRate b));
    amplitude ← MustNewRate (Sprintf_4f (Dto.Amplitude b));
    Ret (mkQuote (SymbolFromSecurity ((fun s => (sec_Code s, sec_DataType s)) <$> Dto.Security b)) (Dto.IsSuspended b)
      open high low last close spread (int_quantity (Dto.Volume b)) (Dto.VolumeStr b) turnover rate amplitude
      (Dto.SecStatus b) (Dto.ListTime b) (Dto.LotSize b) (Dto.TradeTime b) (Dto.MarketTime b) (Dto.StockStatus b)
      (Dto.MktTmType b))).

Definition KLineFromDTO : option Dto.KLineMsg -> outcome (option KLine) :=
  of_pointer (fun k =>
    high ← floatToPrice (Dto.kl_HighPrice k);
    open ← floatToPrice (Dto.kl_OpenPrice k);
    low ← floatToPrice (Dto.kl_LowPrice k);
    close ← floatToPrice (Dto.kl_ClosePrice k);
    last ← floatToPrice (Dto.kl_LastClosePrice k);
    turnover ← floatToMoney (Dto.kl_Turnover k);
    Ret (mkKLine (Dto.kl_Date k) high open low close last (int_quantity (Dto.kl_Volume k)) turnover
      (Dto.kl_Timestamp k) (Dto.kl_Time k))).

Definition TimeSharePointFromDTO : option Dto.TimeShareMsg -> outcome (option TimeSharePoint) :=
  of_pointer (fun t =>
    price ← floatToPrice (Dto.sh_Price t);
    last ← floatToPrice (Dto.sh_LastClosePrice t);
    avg ← floatToPrice (Dto.sh_AvgPrice t);
    turnover ← floatToMoney (Dto.sh_Turnover t);
    Ret (mkTimeSharePoint (Dto.sh_Time t) price last avg (int_quantity (Dto.sh_Volume t)) turnover)).

Definition TickerTickFromDTO : option Dto.TickerMsg -> outcome (option TickerTick) :=
  of_pointer (fun t =>
    price ← floatToPrice (Dto.tk_Price t);
    turnover ← floatToMoney (Dto.tk_Turnover t);
    Ret (mkTickerTick (Dto.tk_Time t) (Dto.tk_Side t) price (int_quantity (Dto.tk_Volume t)) turnover (Dto.tk_Type t)
      (Dto.tk_Timestamp t) (Dto.tk_MktTmType t))).

Definition BrokerQueueEntryFromDTO (b : option Broker) : option BrokerQueueEntry :=
  (fun b => mkBrokerQueueEntry (br_Level b) (br_Item b) (br_Type b) (br_Name b)) <$> b.

(** ** The converters of the service *)
Definition floatToString (f : float64) : string := FormatFloat f.
Definition decimalOrZero (s : string) : string := if decide (s = "") then "0" else s.

Definition market_price (f : float64) : outcome (Price D) := MustNewPrice (floatToString f) "0".
Definition market_money (f : float64) : outcome (Money D) := MustNewMoney (floatToString f) "HKD" 3.
Definition market_volume (n : Z) : outcome (Quantity D) := MustNewQuantity (itoa n).

Definition securityOrNil (sec : option Security) : option Security :=
  (fun s => mkSecurity (sec_DataType s) (sec_Code s)) <$> sec.

(** The symbol of the row is left at its zero value. *)
Definition convertToQuote : option Dto.BasicQotMsg -> outcome (option Quote) :=
  of_pointer (fun q =>
    open ← market_price (Dto.OpenPrice q);
    high ← market_price (Dto.HighPrice q);
    low ← market_price (Dto.LowPrice q);
    last ← market_price (Dto.LastPrice q);
    close ← market_price (Dto.LastClosePrice q);
    spread ← market_price (Dto.PriceSpread q);
    volume ← market_volume (Dto.Volume q);
    turnover ← market_money (Dto.Turnover q);
    rate ← MustNewRate (floatToString (Dto.TurnoverRate q));
    amplitude ← MustNewRate (floatToString (Dto.Amplitude q));
    Ret (mkQuote (mkSymbol "" "" 0 "" "") (Dto.IsSuspended q)
      open high low last close spread volume (Dto.VolumeStr q) turnover rate amplitude
      (Dto.SecStatus q) (Dto.ListTime q) (Dto.LotSize q) (Dto.TradeTime q) (Dto.MarketTime q) (Dto.StockStatus q)
      (Dto.MktTmType q))).

(** A nil level is dereferenced. *)
Definition convert_level (l : option OrderBook) : outcome (OrderBookLevel (D := D)) :=
  match l with
  | None => Panic
  | Some l =>
      price ← market_price (bk_Price l);
      quantity ← market_volume (bk_Volume l);
      Ret (mkOrderBookLevel (bk_Level l) price quantity)
  end.

Definition convertOrderBookLevels (levels : list (option OrderBook)) : outcome (list OrderBookLevel) :=
  rows convert_level levels.

Definition convertToKLine : option Dto.KLineMsg -> outcome (option KLine) :=
  of_pointer (fun k =>
    high ← market_price (Dto.kl_HighPrice k);
    open ← market_price (Dto.kl_OpenPrice k);
    low ← market_price (Dto.kl_LowPrice k);
    close ← market_price (Dto.kl_ClosePrice k);
    last ← market_price (Dto.kl_LastClosePrice k);
    volume ← market_volume (Dto.kl_Volume k);
    turnover ← market_money (Dto.kl_Turnover k);
    Ret (mkKLine (Dto.kl_Date k) high open low close last volume turnover (Dto.kl_Timestamp k) (Dto.kl_Time k))).

Definition convertToTimeSharePoint : option Dto.TimeShareMsg -> outcome (option TimeSharePoint) :=
  of_pointer (fun t =>
    price ← market_price (Dto.sh_Price t);
    last ← market_price (Dto.sh_LastClosePrice t);
    avg ← market_price (Dto.sh_AvgPrice t);
    volume ← market_volume (Dto.sh_Volume t);
    turnover ← market_money (Dto.sh_Turnover t);
    Ret (mkTimeSharePoint (Dto.sh_Time t) price last avg volume turnover)).

Definition convertToTickerTick : option Dto.TickerMsg -> outcome (option TickerTick) :=
  of_pointer (fun t =>
    price ← market_price (Dto.tk_Price t);
    volume ← market_volume (Dto.tk_Volume t);
    turnover ← market_money (Dto.tk_Turnover t);
    Ret (mkTickerTick (Dto.tk_Time t) (Dto.tk_Side t) price volume turnover (Dto.tk_Type t) (Dto.tk_Timestamp t)
      (Dto.tk_MktTmType t))).

Definition convert_entry (e : option Broker) : outcome BrokerQueueEntry :=
  match e with
  | None => Panic
  | Some e => Ret (mkBrokerQueueEntry (br_Level e) (br_Item e) (br_Type e) (br_Name e))
  end.

Definition convertBrokerEntries (entries : list (option Broker)) : outcome (list BrokerQueueEntry) :=
  rows convert_entry entries.
End rows.
Arguments Quote D : clear implicits.
Arguments KLine D : clear implicits.
Arguments TimeSharePoint D : clear implicits.
Arguments TickerTick D : clear implicits.

(** ** Requests *)
Definition opBasicQot : string := "market.BasicQot".
Definition opOrderBook : string := "market.OrderBook".
Definition opKL : string := "market.KL".
Definition opTimeShare : string := "market.TimeShare".
Definition opTicker : string := "market.Ticker".
Definition opBroker : string := "market.Broker".
Definition opUsOptionChainCode : string := "market.UsOptionChainCode".
Definition opUsOptionChainExpireDate : string := "market.UsOptionChainExpireDate".
Definition opUsOverNightTradeCodes : string := "market.UsOverNightTradeCodes".
Definition opSubscribe : string := "market.Subscribe".
Definition opUnsubscribe : string := "market.Unsubscribe".

Definition MaxTickerLimit : Z := 100.

Record BasicQotRequest := mkBasicQotRequest {
  bqr_Security : list (option Security); bqr_NeedDelayFlag : string; bqr_MktTmType : Z;
}.
Record OrderBookRequest := mkOrderBookRequest {
  obr_Security : option Security; obr_MktTmType : Z; obr_DepthBookType : Z;
}.
Record KLRequest := mkKLRequest {
  klr_Security : option Security; klr_StartDate : Z; klr_Direction : Z; klr_ExRightFlag : Z; klr_CycType : Z;
  klr_Limit : Z;
}.
Record TimeShareRequest := mkTimeShareRequest { tsr_Security : option Security; tsr_MktTmType : Z }.
Record TickerRequest := mkTickerRequest { tkr_Security : option Security; tkr_Limit : Z; tkr_MktTmType : Z }.
Record BrokerRequest := mkBrokerRequest { brr_Security : option Security }.
Record UsOptionChainCodeRequest := mkUsOptionChainCodeRequest {
  ucr_SecurityCode : string; ucr_ExpireDate : string; ucr_FlagInOut : Z; ucr_OptionType : string;
}.
Record UsOptionChainExpireDateRequest := mkUsOptionChainExpireDateRequest { uer_SecurityCode : string }.

(** The JSON of a [dto.Security] drops its zero fields; that of a nil one is null,
    which no request carries. *)
Definition security_json (s : Security) : json :=
  JObj (int_omitempty "dataType" (sec_DataType s) ++ str_omitempty "code" (sec_Code s)).

Definition securities_json (l : list (option Security)) : json := JArr (map security_json (omap id l)).

Definition security_field (s : option Security) : body :=
  match s with Some s => [("security", security_json s)] | None => [] end.

Definition basicQotRequest_body (r : BasicQotRequest) : body :=
  [("security", securities_json (bqr_Security r))] ++ str_omitempty "needDelayFlag" (bqr_NeedDelayFlag r)
  ++ int_field "mktTmType" (bqr_MktTmType r).
Definition orderBookRequest_body (r : OrderBookRequest) : body :=
  security_field (obr_Security r) ++ int_field "mktTmType" (obr_MktTmType r)
  ++ int_omitempty "depthBookType" (obr_DepthBookType r).
Definition klRequest_body (r : KLRequest) : body :=
  security_field (klr_Security r) ++ int_field "startDate" (klr_StartDate r) ++ int_field "direction" (klr_Direction r)
  ++ int_field "exRightFlag" (klr_ExRightFlag r) ++ int_field "cycType" (klr_CycType r) ++ int_field "limit" (klr_Limit r).
Definition timeShareRequest_body (r : TimeShareRequest) : body :=
  security_field (tsr_Security r) ++ int_field "mktTmType" (tsr_MktTmType r).
Definition tickerRequest_body (r : TickerRequest) : body :=
  security_field (tkr_Security r) ++ int_field "limit" (tkr_Limit r) ++ int_field "mktTmType" (tkr_MktTmType r).
Definition brokerRequest_body (r : BrokerRequest) : body := security_field (brr_Security r).
Definition usOptionChainCodeRequest_body (r : UsOptionChainCodeRequest) : body :=
  str_field "securityCode" (ucr_SecurityCode r) ++ str_field "expireDate" (ucr_ExpireDate r)
  ++ int_omitempty "flagInOut" (ucr_FlagInOut r) ++ str_omitempty "optionType" (ucr_OptionType r).
Definition usOptionChainExpireDateRequest_body (r : UsOptionChainExpireDateRequest) : body :=
  str_field "securityCode" (uer_SecurityCode r).
Definition subscribeRequest_body (topic : Z) (l : list (option Security)) : body :=
  int_field "topicId" topic ++ [("security", securities_json l)].

(** ** Validation *)
Fixpoint not_nil (op : string) (i : Z) (secs : list (option Security)) : outcome (option error) :=
  match secs with
  | [] => Ret None
  | s :: secs =>
      require (s <> None) op ("security[" +:+ itoa i +:+ "] must not be nil") ;?; not_nil op (i + 1) secs
  end.

Definition validateSecurityList (op : string) (secs : list (option Security)) : outcome (option error) :=
  require (secs <> []) op "security list must not be empty" ;?; not_nil op 0 secs.

Definition validateSecurity (op : string) (s : option Security) : outcome (option error) :=
  require (s <> None) op "security must not be nil".

Definition validateSecurityCode (op code : string) : outcome (option error) :=
  require (code <> "") op "securityCode must not be empty".

Definition validate_limit (limit : Z) : outcome (option error) :=
  require (~ (limit < 1 \/ limit > MaxTickerLimit)) opTicker
    ("ticker limit " +:+ itoa limit +:+ " out of range 1.." +:+ itoa MaxTickerLimit).

(** ** Operations *)
Record wire_replies (Raw : Type) := mkWireReplies {
  wr_quotes : Raw -> list (option Dto.BasicQotMsg);
  wr_security : Raw -> option Security;
  wr_asks : Raw -> list (option OrderBook);
  wr_bids : Raw -> list (option OrderBook);
  wr_tick : Raw -> string;
  wr_kline : Raw -> list (option Dto.KLineMsg);
  wr_timeShare : Raw -> list (option Dto.TimeShareMsg);
  wr_ticker : Raw -> list (option Dto.TickerMsg);
  wr_brokerAsks : Raw -> list (option Broker);
  wr_brokerBids : Raw -> list (option Broker);
  wr_optionCode : Raw -> list string;
  wr_expireDate : Raw -> list string;
  wr_securityCodes : Raw -> list string;
}.
Arguments mkWireReplies {Raw}.
Arguments wr_quotes {Raw} _ _.
Arguments wr_security {Raw} _ _.
Arguments wr_asks {Raw} _ _.
Arguments wr_bids {Raw} _ _.
Arguments wr_tick {Raw} _ _.
Arguments wr_kline {Raw} _ _.
Arguments wr_timeShare {Raw} _ _.
Arguments wr_ticker {Raw} _ _.
Arguments wr_brokerAsks {Raw} _ _.
Arguments wr_brokerBids {Raw} _ _.
Arguments wr_optionCode {Raw} _ _.
Arguments wr_expireDate {Raw} _ _.
Arguments wr_securityCodes {Raw} _ _.

(** The replies of the calls, with the security a reply echoes. *)
Record OrderBookResponse (D : Type) := mkOrderBookResponse {
  obs_Security : option Security; obs_Ask : list (OrderBookLevel (D := D)); obs_Bid : list (OrderBookLevel (D := D));
  obs_TickSize : Tick D;
}.
Arguments mkOrderBookResponse {D} _ _ _ _.
Arguments obs_Security {D} _.
Arguments obs_Ask {D} _.
Arguments obs_Bid {D} _.
Arguments obs_TickSize {D} _.

Record BrokerResponse := mkBrokerResponse {
  brs_Security : option Security; brs_Ask : list BrokerQueueEntry; brs_Bid : list BrokerQueueEntry;
}.

Section service.
Context {D W Raw : Type} `{Decimal D}.

Record MarketService := mkMarketService { client : executor W Raw }.

Inductive MarketOption := WithMarketClient (c : executor W Raw).

Definition apply_market_option (s : MarketService) (o : MarketOption) : MarketService :=
  match o with WithMarketClient c => mkMarketService c end.

Definition NewMarketService (c : executor W Raw) (opts : list MarketOption) : MarketService :=
  foldl apply_market_option (mkMarketService c) opts.

Context (s : MarketService) (R : wire_replies Raw).

Definition BasicQot (req : BasicQotRequest) (w : W) : result W (list (option (Quote D))) :=
  guard (validateSecurityList opBasicQot (bqr_Security req)) w
    (call (client s) opBasicQot RouteHqBasicQot (basicQotRequest_body req) w
       (fun raw => rows convertToQuote (wr_quotes R raw))).

Definition book_reply (raw : Raw) : outcome (OrderBookResponse D) :=
  ask ← convertOrderBookLevels (wr_asks R raw);
  bid ← convertOrderBookLevels (wr_bids R raw);
  tick ← MustNewTick (decimalOrZero (wr_tick R raw));
  Ret (mkOrderBookResponse (securityOrNil (wr_security R raw)) ask bid tick).

Definition OrderBook_ (req : OrderBookRequest) (w : W) : result W (OrderBookResponse D) :=
  guard (validateSecurity opOrderBook (obr_Security req)) w
    (call (client s) opOrderBook RouteHqOrderBook (orderBookRequest_body req) w book_reply).

(** A reply of rows with the security it echoes. *)
Definition with_security {A B} (f : A -> outcome B) (rows_of : Raw -> list A) (raw : Raw)
    : outcome (option Security * list B) :=
  l ← rows f (rows_of raw); Ret (securityOrNil (wr_security R raw), l).

Definition KL (req : KLRequest) (w : W) : result W (option Security * list (option (KLine D))) :=
  guard (validateSecurity opKL (klr_Security req)) w
    (call (client s) opKL RouteHqKL (klRequest_body req) w (with_security convertToKLine (wr_kline R))).

Definition TimeShare (req : TimeShareRequest) (w : W)
    : result W (option Security * list (option (TimeSharePoint D))) :=
  guard (validateSecurity opTimeShare (tsr_Security req)) w
    (call (client s) opTimeShare RouteHqTimeShare (timeShareRequest_body req) w
       (with_security convertToTimeSharePoint (wr_timeShare R))).

Definition Ticker (req : TickerRequest) (w : W) : result W (option Security * list (option (TickerTick D))) :=
  guard (validateSecurity opTicker (tkr_Security req) ;?; validate_limit (tkr_Limit req)) w
    (call (client s) opTicker RouteHqTicker (tickerRequest_body req) w
       (with_security convertToTickerTick (wr_ticker R))).

Definition broker_reply (raw : Raw) : outcome BrokerResponse :=
  ask ← convertBrokerEntries (wr_brokerAsks R raw);
  bid ← convertBrokerEntries (wr_brokerBids R raw);
  Ret (mkBrokerResponse (securityOrNil (wr_security R raw)) ask bid).

Definition Broker_ (req : BrokerRequest) (w : W) : result W BrokerResponse :=
  guard (validateSecurity opBroker (brr_Security req)) w
    (call (client s) opBroker RouteHqBroker (brokerRequest_body req) w broker_reply).

Definition UsOptionChainCode (req : UsOptionChainCodeRequest) (w : W) : result W (list string) :=
  guard (validateSecurityCode opUsOptionChainCode (ucr_SecurityCode req)) w
    (call (client s) opUsOptionChainCode RouteHqUsOptionChainCode (usOptionChainCodeRequest_body req) w
       (fun raw => Ret (wr_optionCode R raw))).

Definition UsOptionChainExpireDate (req : UsOptionChainExpireDateRequest) (w : W) : result W (list string) :=
  guard (validateSecurityCode opUsOptionChainExpireDate (uer_SecurityCode req)) w
    (call (client s) opUsOptionChainExpireDate RouteHqUsOptionChainExpireDate (usOptionChainExpireDateRequest_body req) w
       (fun raw => Ret (wr_expireDate R raw))).

Definition UsOverNightTradeCodes (w : W) : result W (list string) :=
  call (client s) opUsOverNightTradeCodes RouteHqUsOverNightTradeCodes [] w (fun raw => Ret (wr_securityCodes R raw)).

(** The reply of the two push routes is discarded. *)
Definition Subscribe (topicID : Z) (securities : list (option Security)) (w : W) : result W unit :=
  guard (Ret (validateTopic opSubscribe topicID) ;?; validateSecurityList opSubscribe securities) w
    (call (client s) opSubscribe RouteHqSubscribe (subscribeRequest_body topicID securities) w (fun _ => Ret ())).

Definition Unsubscribe (topicID : Z) (securities : list (option Security)) (w : W) : result W unit :=
  guard (Ret (validateTopic opUnsubscribe topicID) ;?; validateSecurityList opUnsubscribe securities) w
    (call (client s) opUnsubscribe RouteHqUnsubscribe (subscribeRequest_body topicID securities) w (fun _ => Ret ())).
End service.
Arguments MarketService W Raw : clear implicits.

(** ** What the checks accept *)
Definition all_given (l : list (option Security)) : Prop := l <> [] /\ Forall (fun s => s <> None) l.

Lemma list_accepted op l : validateSecurityList op l = Ret None <-> all_given l.
Proof.
  assert (Hn : forall i, not_nil op i l = Ret None <-> Forall (fun s => s <> None) l).
  { induction l as [|s l IH]; intros i; cbn [not_nil]; [split; [constructor | done] |].
    by rewrite and_then_ok, require_ok, IH, Forall_cons. }
  unfold validateSecurityList, all_given. by rewrite and_then_ok, require_ok, Hn.
Qed.

Lemma security_accepted op s : validateSecurity op s = Ret None <-> is_Some s.
Proof. unfold validateSecurity. rewrite require_ok. destruct s; split; naive_solver. Qed.

Lemma topic_accepted op t : (Ret (validateTopic op t) : outcome (option error)) = Ret None <-> t ∈ knownTopics.
Proof. unfold validateTopic. case_decide; naive_solver. Qed.

Lemma checks_of_not_nil op i l : checks_of op (not_nil op i l).
Proof.
  revert i. induction l as [|s l IH]; intros i; cbn [not_nil]; [by left |].
  apply checks_of_and; [apply checks_of_require | apply IH].
Qed.

Lemma checks_of_topic op t : checks_of op (Ret (validateTopic op t)).
Proof. unfold validateTopic. case_decide; [by left | right; eauto]. Qed.

#[export] Hint Resolve checks_of_not_nil checks_of_topic : service.

(** A client that records what it sends. *)
Definition watched_market {W Raw} (s : MarketService W Raw) : MarketService (W * list (string * body)) Raw :=
  mkMarketService (logged (client s)).

(** Each of the eleven market operations sends one request, to its own route
    and with the fields it was given, exactly when its arguments are right, and is
    refused with an invalid-parameter error otherwise, without sending: a security
    (or a non-empty list without nil) is required, the ticks asked for are 1 to
    100, an option chain needs the code of its underlying, and a subscription names
    one of the eleven known topics. *)
Theorem market_requests_exact {D W Raw} `{Decimal D} (X : executor W Raw) (R : wire_replies Raw) (opts : list MarketOption)
    (bq : BasicQotRequest) (ob : OrderBookRequest) (kl : KLRequest) (ts : TimeShareRequest) (tk : TickerRequest)
    (br : BrokerRequest) (uc : UsOptionChainCodeRequest) (ue : UsOptionChainExpireDateRequest)
    (topic : Z) (secs : list (option Security)) (w : W) log :
  let s := watched_market (NewMarketService X opts) in
  sends_exactly (all_given (bqr_Security bq)) opBasicQot RouteHqBasicQot (basicQotRequest_body bq)
    (BasicQot (D := D) s R bq (w, log)) w log
  /\ sends_exactly (is_Some (obr_Security ob)) opOrderBook RouteHqOrderBook (orderBookRequest_body ob)
       (OrderBook_ (D := D) s R ob (w, log)) w log
  /\ sends_exactly (is_Some (klr_Security kl)) opKL RouteHqKL (klRequest_body kl) (KL (D := D) s R kl (w, log)) w log
  /\ sends_exactly (is_Some (tsr_Security ts)) opTimeShare RouteHqTimeShare (timeShareRequest_body ts)
       (TimeShare (D := D) s R ts (w, log)) w log
  /\ sends_exactly (is_Some (tkr_Security tk) /\ 1 <= tkr_Limit tk <= 100) opTicker RouteHqTicker (tickerRequest_body tk)
       (Ticker (D := D) s R tk (w, log)) w log
  /\ sends_exactly (is_Some (brr_Security br)) opBroker RouteHqBroker (brokerRequest_body br) (Broker_ s R br (w, log)) w log
  /\ sends_exactly (ucr_SecurityCode uc <> "") opUsOptionChainCode RouteHqUsOptionChainCode
       (usOptionChainCodeRequest_body uc) (UsOptionChainCode s R uc (w, log)) w log
  /\ sends_exactly (uer_SecurityCode ue <> "") opUsOptionChainExpireDate RouteHqUsOptionChainExpireDate
       (usOptionChainExpireDateRequest_body ue) (UsOptionChainExpireDate s R ue (w, log)) w log
  /\ sends_exactly (topic ∈ knownTopics /\ all_given secs) opSubscribe RouteHqSubscribe
       (subscribeRequest_body topic secs) (Subscribe s topic secs (w, log)) w log
  /\ sends_exactly (topic ∈ knownTopics /\ all_given secs) opUnsubscribe RouteHqUnsubscribe
       (subscribeRequest_body topic secs) (Unsubscribe s topic secs (w, log)) w log
  /\ snd (snd (UsOverNightTradeCodes s R (w, log))) = log ++ [(RouteHqUsOverNightTradeCodes, [])].
Proof.
  intros s. split_and!; try (apply guard_sends; [service_checks |]).
  - apply list_accepted.
  - apply security_accepted.
  - apply security_accepted.
  - apply security_accepted.
  - unfold validate_limit, MaxTickerLimit. rewrite and_then_ok, security_accepted, require_ok. intuition lia.
  - apply security_accepted.
  - apply require_ok.
  - apply require_ok.
  - by rewrite and_then_ok, topic_accepted, list_accepted.
  - by rewrite and_then_ok, topic_accepted, list_accepted.
  - apply call_logged.
Qed.

(** ** What the replies say *)
Section meaning.
Context {D : Type} `{DecimalSigned D}.

Definition rate_is (f : float64) (r : Rate D) : Prop := (val (rate_dec r) == double_val f)%Q.

Lemma market_price_total f :
  (is_finite f = true /\ exists p, market_price f = Ret p /\ price_is f p)
  \/ (is_finite f = false /\ market_price (D := D) f = Panic).
Proof using Type*. exact (price_of_total f). Qed.

Lemma market_money_total f :
  (is_finite f = true /\ exists p, market_money f = Ret p /\ money_is f p)
  \/ (is_finite f = false /\ market_money (D := D) f = Panic).
Proof using Type*. exact (money_of_total f). Qed.

Lemma market_volume_total n : exists q, market_volume n = Ret q /\ quantity_is n q.
Proof using Type*. exact (quantity_of_total n). Qed.

Lemma market_rate_total f :
  (is_finite f = true /\ exists r, MustNewRate (floatToString f) = Ret r /\ rate_is f r)
  \/ (is_finite f = false /\ MustNewRate (D := D) (floatToString f) = Panic).
Proof using Type*.
  unfold MustNewRate, rate_is, floatToString. destruct (is_finite f) eqn:Hf.
  - left. destruct (double_read f Hf) as (d & -> & Hd). split; [done |]. by exists (mkRate d).
  - right. by destruct (double_refused f Hf) as [e ->].
Qed.

(** A row that may be nil. *)
Definition nil_or {A B} (P : A -> B -> Prop) (a : option A) (b : option B) : Prop :=
  match a, b with None, None => True | Some a, Some b => P a b | _, _ => False end.

Definition given_and {A} (ok : A -> bool) (a : option A) : bool := match a with Some a => ok a | None => true end.

Lemma pointer_total {A B} (f : A -> outcome B) ok (P : A -> B -> Prop) :
  total_row f ok P -> total_row (of_pointer f) (given_and ok) (nil_or P).
Proof using Type.
  intros Hf [a|]; [| left; split; [done |]; by exists None]. cbn.
  destruct (Hf a) as [[-> (b & -> & Hb)]|[-> ->]]; [left | by right]. split; [done |]. by exists (Some b).
Qed.

Definition quote_ok (q : Dto.BasicQotMsg) : bool :=
  is_finite (Dto.OpenPrice q) && (is_finite (Dto.HighPrice q) && (is_finite (Dto.LowPrice q)
  && (is_finite (Dto.LastPrice q) && (is_finite (Dto.LastClosePrice q) && (is_finite (Dto.PriceSpread q)
  && (is_finite (Dto.Turnover q) && (is_finite (Dto.TurnoverRate q) && is_finite (Dto.Amplitude q)))))))).

(** Everything but the symbol, which is always empty. *)
Definition quote_stands (q : Dto.BasicQotMsg) (r : Quote D) : Prop :=
  qt_Symbol r = mkSymbol "" "" 0 "" "" /\ qt_IsSuspended r = Dto.IsSuspended q
  /\ price_is (Dto.OpenPrice q) (qt_OpenPrice r) /\ price_is (Dto.HighPrice q) (qt_HighPrice r)
  /\ price_is (Dto.LowPrice q) (qt_LowPrice r) /\ price_is (Dto.LastPrice q) (qt_LastPrice r)
  /\ price_is (Dto.LastClosePrice q) (qt_LastClosePrice r) /\ price_is (Dto.PriceSpread q) (qt_PriceSpread r)
  /\ quantity_is (Dto.Volume q) (qt_Volume r) /\ money_is (Dto.Turnover q) (qt_Turnover r)
  /\ rate_is (Dto.TurnoverRate q) (qt_TurnoverRate r) /\ rate_is (Dto.Amplitude q) (qt_Amplitude r)
  /\ (qt_VolumeStr r, qt_SecStatus r, qt_ListTime r, qt_LotSize r, qt_TradeTime r, qt_MarketTime r, qt_StockStatus r,
      qt_MktTmType r)
     = (Dto.VolumeStr q, Dto.SecStatus q, Dto.ListTime q, Dto.LotSize q, Dto.TradeTime q, Dto.MarketTime q,
        Dto.StockStatus q, Dto.MktTmType q).

Lemma quote_total : total_row convertToQuote (given_and quote_ok) (nil_or quote_stands).
Proof using Type*.
  apply pointer_total. intros q. unfold quote_ok, quote_stands.
  read_field (market_price_total (Dto.OpenPrice q)). read_field (market_price_total (Dto.HighPrice q)).
  read_field (market_price_total (Dto.LowPrice q)). read_field (market_price_total (Dto.LastPrice q)).
  read_field (market_price_total (Dto.LastClosePrice q)). read_field (market_price_total (Dto.PriceSpread q)).
  destruct (market_volume_total (Dto.Volume q)) as (v & -> & Hv). cbn [mbind outcome_bind].
  read_field (market_money_total (Dto.Turnover q)). read_field (market_rate_total (Dto.TurnoverRate q)).
  destruct (market_rate_total (Dto.Amplitude q)) as [[-> (a & -> & Ha)]|[-> ->]]; [left | by right].
  split; [done |]. eexists. split; [reflexivity |]. by split_and!.
Qed.

Definition kline_ok (k : Dto.KLineMsg) : bool :=
  is_finite (Dto.kl_HighPrice k) && (is_finite (Dto.kl_OpenPrice k) && (is_finite (Dto.kl_LowPrice k)
  && (is_finite (Dto.kl_ClosePrice k) && (is_finite (Dto.kl_LastClosePrice k) && is_finite (Dto.kl_Turnover k))))).

Definition kline_stands (k : Dto.KLineMsg) (r : KLine D) : Prop :=
  price_is (Dto.kl_HighPrice k) (kn_HighPrice r) /\ price_is (Dto.kl_OpenPrice k) (kn_OpenPrice r)
  /\ price_is (Dto.kl_LowPrice k) (kn_LowPrice r) /\ price_is (Dto.kl_ClosePrice k) (kn_ClosePrice r)
  /\ price_is (Dto.kl_LastClosePrice k) (kn_LastClosePrice r) /\ quantity_is (Dto.kl_Volume k) (kn_Volume r)
  /\ money_is (Dto.kl_Turnover k) (kn_Turnover r)
  /\ (kn_Date r, kn_Timestamp r, kn_Time r) = (Dto.kl_Date k, Dto.kl_Timestamp k, Dto.kl_Time k).

Lemma kline_total : total_row convertToKLine (given_and kline_ok) (nil_or kline_stands).
Proof using Type*.
  apply pointer_total. intros k. unfold kline_ok, kline_stands.
  read_field (market_price_total (Dto.kl_HighPrice k)). read_field (market_price_total (Dto.kl_OpenPrice k)).
  read_field (market_price_total (Dto.kl_LowPrice k)). read_field (market_price_total (Dto.kl_ClosePrice k)).
  read_field (market_price_total (Dto.kl_LastClosePrice k)).
  destruct (market_volume_total (Dto.kl_Volume k)) as (v & -> & Hv). cbn [mbind outcome_bind].
  destruct (market_money_total (Dto.kl_Turnover k)) as [[-> (a & -> & Ha)]|[-> ->]]; [left | by right].
  split; [done |]. eexists. split; [reflexivity |]. by split_and!.
Qed.

Definition share_ok (t : Dto.TimeShareMsg) : bool :=
  is_finite (Dto.sh_Price t) && (is_finite (Dto.sh_LastClosePrice t) && (is_finite (Dto.sh_AvgPrice t)
  && is_finite (Dto.sh_Turnover t))).

Definition share_stands (t : Dto.TimeShareMsg) (r : TimeSharePoint D) : Prop :=
  price_is (Dto.sh_Price t) (sp_Price r) /\ price_is (Dto.sh_LastClosePrice t) (sp_LastClosePrice r)
  /\ price_is (Dto.sh_AvgPrice t) (sp_AvgPrice r) /\ quantity_is (Dto.sh_Volume t) (sp_Volume r)
  /\ money_is (Dto.sh_Turnover t) (sp_Turnover r) /\ sp_Time r = Dto.sh_Time t.

Lemma share_total : total_row convertToTimeSharePoint (given_and share_ok) (nil_or share_stands).
Proof using Type*.
  apply pointer_total. intros t. unfold share_ok, share_stands.
  read_field (market_price_total (Dto.sh_Price t)). read_field (market_price_total (Dto.sh_LastClosePrice t)).
  read_field (market_price_total (Dto.sh_AvgPrice t)).
  destruct (market_volume_total (Dto.sh_Volume t)) as (v & -> & Hv). cbn [mbind outcome_bind].
  destruct (market_money_total (Dto.sh_Turnover t)) as [[-> (a & -> & Ha)]|[-> ->]]; [left | by right].
  split; [done |]. eexists. split; [reflexivity |]. by split_and!.
Qed.

Definition tick_ok (t : Dto.TickerMsg) : bool := is_finite (Dto.tk_Price t) && is_finite (Dto.tk_Turnover t).

Definition tick_stands (t : Dto.TickerMsg) (r : TickerTick D) : Prop :=
  price_is (Dto.tk_Price t) (tt_Price r) /\ quantity_is (Dto.tk_Volume t) (tt_Volume r)
  /\ money_is (Dto.tk_Turnover t) (tt_Turnover r)
  /\ (tt_Time r, tt_Side r, tt_Type r, tt_Timestamp r, tt_MktTmType r)
     = (Dto.tk_Time t, Dto.tk_Side t, Dto.tk_Type t, Dto.tk_Timestamp t, Dto.tk_MktTmType t).

Lemma tick_total : total_row convertToTickerTick (given_and tick_ok) (nil_or tick_stands).
Proof using Type*.
  apply pointer_total. intros t. unfold tick_ok, tick_stands.
  read_field (market_price_total (Dto.tk_Price t)).
  destruct (market_volume_total (Dto.tk_Volume t)) as (v & -> & Hv). cbn [mbind outcome_bind].
  destruct (market_money_total (Dto.tk_Turnover t)) as [[-> (a & -> & Ha)]|[-> ->]]; [left | by right].
  split; [done |]. eexists. split; [reflexivity |]. by split_and!.
Qed.

(** A level and a broker must be there. *)
Definition present_and {A} (ok : A -> bool) (a : option A) : bool := match a with Some a => ok a | None => false end.

Definition present_stands {A B} (P : A -> B -> Prop) (a : option A) (b : B) : Prop :=
  match a with Some a => P a b | None => False end.

Lemma level_total : total_row convert_level (present_and level_ok) (present_stands level_stands).
Proof using Type*.
  intros [l|]; [| by right]. cbn. unfold level_ok, level_stands.
  read_field (market_price_total (bk_Price l)).
  destruct (market_volume_total (bk_Volume l)) as (v & -> & Hv). left. split; [done |]. by eexists.
Qed.

Definition entry_stands (b : Broker) (e : BrokerQueueEntry) : Prop :=
  e = mkBrokerQueueEntry (br_Level b) (br_Item b) (br_Type b) (br_Name b).

Lemma entry_total : total_row convert_entry (present_and (fun _ => true)) (present_stands entry_stands).
Proof using Type. intros [b|]; [left | by right]. split; [done |]. by eexists. Qed.
End meaning.

(** ** Replies *)
Section replies.
Context {D : Type} `{DecimalSigned D} {W Raw : Type} (X : executor W Raw) (R : wire_replies Raw).

Definition tick_stands_for (text : string) (t : Tick D) : Prop := is_number (decimalOrZero text) (tick_dec t).

Lemma tick_read text :
  (parses (D := D) (decimalOrZero text) = true /\ exists t, MustNewTick (decimalOrZero text) = Ret t /\ tick_stands_for text t)
  \/ (parses (D := D) (decimalOrZero text) = false /\ MustNewTick (D := D) (decimalOrZero text) = Panic).
Proof using Type.
  unfold parses, MustNewTick, tick_stands_for, is_number.
  destruct (dec_NewFromString (decimalOrZero text)) as [d|]; [left | by right]. split; [done |]. by eexists.
Qed.

Lemma same_security raw : securityOrNil (wr_security R raw) = wr_security R raw.
Proof using Type. unfold securityOrNil. by destruct (wr_security R raw) as [[dt code]|]. Qed.

(** A call that answers a reply with a value, or panics on one that does not read. *)
Definition replies_with {B} (op route : string) (req : body) (w : W) (ok : Raw -> bool) (stands : Raw -> B -> Prop)
    (reply : outcome (B + error)) : Prop :=
  forall raw w', X op route req w = (Ret (inl raw), w') ->
    if ok raw then exists b, reply = Ret (inl b) /\ stands raw b else reply = Panic.

Lemma call_replies {B} op route req w ok stands (f : Raw -> outcome B) :
  total_row f ok stands -> replies_with op route req w ok stands (fst (call X op route req w f)).
Proof using Type.
  intros Hf raw w' HX. unfold call. rewrite HX. cbn [fst].
  destruct (Hf raw) as [[-> (b & -> & Hb)]|[-> ->]]; [by exists b | done].
Qed.

Definition rows_stand {A B} (rows_of : Raw -> list A) (P : A -> B -> Prop) (raw : Raw) (r : option Security * list B) : Prop :=
  fst r = wr_security R raw /\ Forall2 P (rows_of raw) (snd r).

Lemma rows_read {A B} (f : A -> outcome B) ok P l : total_row f ok P ->
  (forallb ok l = true /\ exists bs, rows f l = Ret bs /\ Forall2 P l bs) \/ (forallb ok l = false /\ rows f l = Panic).
Proof using Type.
  intros Hf. pose proof (rows_total f ok P l Hf) as H'. unfold total_reply in H'. destruct (forallb ok l); auto.
Qed.

Lemma with_security_total {A B} (f : A -> outcome B) ok P rows_of : total_row f ok P ->
  total_row (with_security R f rows_of) (fun raw => forallb ok (rows_of raw)) (rows_stand rows_of P).
Proof using Type.
  intros Hf raw. unfold with_security, rows_stand. rewrite same_security.
  destruct (rows_read f ok P (rows_of raw) Hf) as [[-> (bs & -> & Hb)]|[-> ->]]; [left | by right].
  split; [done |]. by eexists.
Qed.

Definition book_ok (raw : Raw) : bool :=
  forallb (present_and level_ok) (wr_asks R raw) && (forallb (present_and level_ok) (wr_bids R raw)
  && parses (D := D) (decimalOrZero (wr_tick R raw))).

Definition book_stands (raw : Raw) (b : OrderBookResponse D) : Prop :=
  obs_Security b = wr_security R raw /\ Forall2 (present_stands level_stands) (wr_asks R raw) (obs_Ask b)
  /\ Forall2 (present_stands level_stands) (wr_bids R raw) (obs_Bid b) /\ tick_stands_for (wr_tick R raw) (obs_TickSize b).

Lemma book_total : total_row (book_reply R) book_ok book_stands.
Proof using H1.
  intros raw. unfold book_reply, book_ok, book_stands, convertOrderBookLevels. rewrite same_security.
  read_field (rows_read convert_level _ _ (wr_asks R raw) level_total).
  read_field (rows_read convert_level _ _ (wr_bids R raw) level_total).
  destruct (tick_read (wr_tick R raw)) as [[-> (t & -> & Ht)]|[-> ->]]; [left | by right].
  split; [done |]. eexists. split; [reflexivity |]. done.
Qed.

Definition queue_ok (raw : Raw) : bool :=
  forallb (present_and (fun _ => true)) (wr_brokerAsks R raw) && forallb (present_and (fun _ => true)) (wr_brokerBids R raw).

Definition queue_stands (raw : Raw) (b : BrokerResponse) : Prop :=
  brs_Security b = wr_security R raw /\ Forall2 (present_stands entry_stands) (wr_brokerAsks R raw) (brs_Ask b)
  /\ Forall2 (present_stands entry_stands) (wr_brokerBids R raw) (brs_Bid b).

Lemma queue_total : total_row (broker_reply R) queue_ok queue_stands.
Proof using Type.
  intros raw. unfold broker_reply, queue_ok, queue_stands, convertBrokerEntries. rewrite same_security.
  read_field (rows_read convert_entry _ _ (wr_brokerAsks R raw) entry_total).
  destruct (rows_read convert_entry _ _ (wr_brokerBids R raw) entry_total) as [[-> (b & -> & Hb)]|[-> ->]]; [left | by right].
  split; [done |]. eexists. split; [reflexivity |]. done.
Qed.
End replies.

(** C28: a reply of a market query comes back row for row, with the security it
    echoes (or none): a nil quote, candle, point or tick stays nil, every double is
    read as the decimal it prints, volumes as integers, and money in HKD with
    three places; the call panics exactly when a double is not finite, when the
    tick of a book does not parse, or when a level of a book or an entry of a
    broker queue is nil. The symbol of a quote is always empty, whatever security
    the row carries. *)
Theorem market_replies_exact {D W Raw} `{DecimalSigned D} (X : executor W Raw) (R : wire_replies Raw)
    (bq : BasicQotRequest) (ob : OrderBookRequest) (kl : KLRequest) (ts : TimeShareRequest) (tk : TickerRequest)
    (br : BrokerRequest) (w : W) :
  let s := NewMarketService X [] in
  (all_given (bqr_Security bq) ->
    replies_with X opBasicQot RouteHqBasicQot (basicQotRequest_body bq) w
      (fun raw => forallb (given_and quote_ok) (wr_quotes R raw))
      (fun raw qs => Forall2 (nil_or (quote_stands (D := D))) (wr_quotes R raw) qs) (fst (BasicQot s R bq w)))
  /\ (is_Some (obr_Security ob) ->
    replies_with X opOrderBook RouteHqOrderBook (orderBookRequest_body ob) w (book_ok (D := D) R) (book_stands R)
      (fst (OrderBook_ s R ob w)))
  /\ (is_Some (klr_Security kl) ->
    replies_with X opKL RouteHqKL (klRequest_body kl) w (fun raw => forallb (given_and kline_ok) (wr_kline R raw))
      (rows_stand R (wr_kline R) (nil_or (kline_stands (D := D)))) (fst (KL s R kl w)))
  /\ (is_Some (tsr_Security ts) ->
    replies_with X opTimeShare RouteHqTimeShare (timeShareRequest_body ts) w
      (fun raw => forallb (given_and share_ok) (wr_timeShare R raw))
      (rows_stand R (wr_timeShare R) (nil_or (share_stands (D := D)))) (fst (TimeShare s R ts w)))
  /\ (is_Some (tkr_Security tk) -> 1 <= tkr_Limit tk <= 100 ->
    replies_with X opTicker RouteHqTicker (tickerRequest_body tk) w
      (fun raw => forallb (given_and tick_ok) (wr_ticker R raw))
      (rows_stand R (wr_ticker R) (nil_or (tick_stands (D := D)))) (fst (Ticker s R tk w)))
  /\ (is_Some (brr_Security br) ->
    replies_with X opBroker RouteHqBroker (brokerRequest_body br) w (queue_ok R) (queue_stands R)
      (fst (Broker_ s R br w))).
Proof.
  intros s. split_and!.
  - intros Hq%(list_accepted opBasicQot). unfold BasicQot. rewrite Hq. apply call_replies. intros raw.
    destruct (rows_read convertToQuote _ _ (wr_quotes R raw) quote_total) as [?|?]; auto.
  - intros Hs%(security_accepted opOrderBook). unfold OrderBook_. rewrite Hs. apply call_replies, book_total.
  - intros Hs%(security_accepted opKL). unfold KL. rewrite Hs. apply call_replies, with_security_total, kline_total.
  - intros Hs%(security_accepted opTimeShare). unfold TimeShare. rewrite Hs. apply call_replies, with_security_total, share_total.
  - intros Hs%(security_accepted opTicker) Hl. unfold Ticker. rewrite Hs.
    assert (validate_limit (tkr_Limit tk) = Ret None) as -> by (apply require_ok; unfold MaxTickerLimit; lia).
    apply call_replies, with_security_total, tick_total.
  - intros Hs%(security_accepted opBroker). unfold Broker_. rewrite Hs. apply call_replies, queue_total.
Qed.

(** ** The two families of mappers *)

(** On a finite quote, the mapper of [pkg/domain] and the converter of the service
    read the same prices; they differ in the symbol, which only the first fills. *)
Lemma quote_mappers_differ {D} `{DecimalSigned D} (f4 : float64 -> string) (b : Dto.BasicQotMsg) (q q' : Quote D) :
  QuoteFromDTO f4 (Some b) = Ret (Some q) -> convertToQuote (Some b) = Ret (Some q') ->
  price_dec (qt_LastPrice q) = price_dec (qt_LastPrice q') /\ price_dec (qt_OpenPrice q) = price_dec (qt_OpenPrice q')
  /\ qt_Symbol q = SymbolFromSecurity ((fun s => (sec_Code s, sec_DataType s)) <$> Dto.Security b)
  /\ qt_Symbol q' = mkSymbol "" "" 0 "" "".
Proof.
  assert (Hp : forall f p p', floatToPrice (D := D) f = Ret p -> market_price f = Ret p' -> price_dec p = price_dec p').
  { intros f p p'. unfold floatToPrice, market_price, MustNewPrice, NewFromFloat, floatToString.
    destruct (dec_NewFromString (FormatFloat f)); [| done].
    destruct (dec_NewFromString "0"); [| done]. by intros [= <-] [= <-]. }
  unfold QuoteFromDTO, convertToQuote, of_pointer. intros Hq Hq'.
  destruct (floatToPrice (Dto.OpenPrice b)) as [o|] eqn:Ho; [| done].
  destruct (floatToPrice (Dto.HighPrice b)) as [h|]; [| done].
  destruct (floatToPrice (Dto.LowPrice b)) as [l|]; [| done].
  destruct (floatToPrice (Dto.LastPrice b)) as [la|] eqn:Hla; [| done].
  destruct (floatToPrice (Dto.LastClosePrice b)); [| done].
  destruct (floatToPrice (Dto.PriceSpread b)); [| done].
  destruct (floatToMoney (Dto.Turnover b)); [| done].
  destruct (MustNewRate (f4 (Dto.TurnoverRate b))); [| done].
  destruct (MustNewRate (f4 (Dto.Amplitude b))); [| done].
  destruct (market_price (Dto.OpenPrice b)) as [o'|] eqn:Ho'; [| done].
  destruct (market_price (Dto.HighPrice b)); [| done].
  destruct (market_price (Dto.LowPrice b)); [| done].
  destruct (market_price (Dto.LastPrice b)) as [la'|] eqn:Hla'; [| done].
  destruct (market_price (Dto.LastClosePrice b)); [| done].
  destruct (market_price (Dto.PriceSpread b)); [| done].
  destruct (market_volume (Dto.Volume b)); [| done].
  destruct (market_money (Dto.Turnover b)); [| done].
  destruct (MustNewRate (floatToString (Dto.TurnoverRate b))); [| done].
  destruct (MustNewRate (floatToString (Dto.Amplitude b))); [| done].
  injection Hq as <-. injection Hq' as <-. split; [by eapply Hp |]. split; [by eapply Hp |]. by split.
Qed.

(** ** A concrete book *)
Definition demo_wire : wire_replies (option OrderBook) :=
  mkWireReplies (fun _ => []) (fun _ => None) (fun l => [l]) (fun _ => []) (fun _ => "0.0005") (fun _ => []) (fun _ => [])
    (fun _ => []) (fun _ => []) (fun _ => []) (fun _ => []) (fun _ => []) (fun _ => []).

Definition demo_book (l : option OrderBook) : outcome (OrderBookResponse dec + error) :=
  fst (OrderBook_ (NewMarketService (fun _ _ _ w => (Ret (inl l), w)) []) demo_wire
    (mkOrderBookRequest (Some (mkSecurity 10000 "00700.HK")) 0 0) tt).

Lemma market_replies_exact_witness :
  (exists b, demo_book (Some (mkOrderBook 1 (Finite false 3204 (-1)) 500)) = Ret (inl b)
    /\ book_stands demo_wire (Some (mkOrderBook 1 (Finite false 3204 (-1)) 500)) b)
  /\ demo_book None = Panic.
Proof.
  assert (Hl : forall l, replies_with (fun _ _ _ w => (Ret (inl l), w)) opOrderBook RouteHqOrderBook
      (orderBookRequest_body (mkOrderBookRequest (Some (mkSecurity 10000 "00700.HK")) 0 0)) tt (book_ok (D := dec) demo_wire)
      (book_stands demo_wire) (demo_book l)).
  { intros l. refine (proj1 (proj2 (market_replies_exact (D := dec) (fun _ _ _ w => (Ret (inl l), w)) demo_wire
      (mkBasicQotRequest [] "" 0) (mkOrderBookRequest (Some (mkSecurity 10000 "00700.HK")) 0 0) (mkKLRequest None 0 0 0 0 0)
      (mkTimeShareRequest None 0) (mkTickerRequest None 0 0) (mkBrokerRequest None) tt)) _). by eexists. }
  split; [exact (Hl (Some (mkOrderBook 1 (Finite false 3204 (-1)) 500)) _ tt eq_refl) | exact (Hl None _ tt eq_refl)].
Defined.
