(* ===== verification/MarketReleased.v ===== *)
(** The released market package: [src/pkg/hstong/market/market.go] and
    [subscribe.go]. Its replies are the wire messages themselves. *)
From S2P Require Import Prelude Types Errs Retry Routes Domain Decimals Service PushClient PushKeys PushEvents.
From S2P Require Market.
Local Open Scope Z_scope.
Local Open Scope go_scope.

(** ** Constants and requests *)
Definition opBasicQot : string := "market.BasicQot".
Definition opOrderBook : string := "market.OrderBook".
Definition opKL : string := "market.KL".
Definition opTimeShare : string := "market.TimeShare".
Definition opTicker : string := "market.Ticker".
Definition opBroker : string := "market.Broker".
Definition opUsOptionChainCode : string := "market.UsOptionChainCode".
Definition opUsOptionChainExpireDate : string := "market.UsOptionChainExpireDate".
Definition opUsOverNightTradeCodes : string := "market.UsOverNightTradeCodes".
Definition opSubscribe : string := "market.Subscribe".
Definition opUnsubscribe : string := "market.Unsubscribe".

Definition MaxTickerLimit : Z := 100.

Record BasicQotRequest := mkBasicQotRequest { bq_Security : list (option Security); bq_NeedDelayFlag : string; bq_MktTmType : Z }.
Record OrderBookRequest := mkOrderBookRequest { ob_Security : option Security; ob_MktTmType : Z; ob_DepthBookType : Z }.
Record KLRequest := mkKLRequest {
  kl_Security : option Security; kl_StartDate : Z; kl_Direction : Z; kl_ExRightFlag : Z; kl_CycType : Z; kl_Limit : Z;
}.
Record TimeShareRequest := mkTimeShareRequest { ts_Security : option Security; ts_MktTmType : Z }.
Record TickerRequest := mkTickerRequest { tk_Security : option Security; tk_Limit : Z; tk_MktTmType : Z }.
Record BrokerRequest := mkBrokerRequest { br_Security : option Security }.
Record UsOptionChainCodeRequest := mkUsOptionChainCodeRequest {
  uc_SecurityCode : string; uc_ExpireDate : string; uc_FlagInOut : Z; uc_OptionType : string;
}.
Record UsOptionChainExpireDateRequest := mkUsOptionChainExpireDateRequest { ue_SecurityCode : string }.
Record SubscribeRequest := mkSubscribeRequest { sr_TopicID : Z; sr_Security : list (option Security) }.

(** [json.Marshal] of a pointer to a message, null for nil. *)
Definition pointer_json (s : option Security) : body :=
  match s with
  | Some s => [("security", JObj (int_omitempty "dataType" (sec_DataType s) ++ str_omitempty "code" (sec_Code s)))]
  | None => []
  end.

Definition pointers_json (l : list (option Security)) : json :=
  JArr (map (fun s => JObj (int_omitempty "dataType" (sec_DataType s) ++ str_omitempty "code" (sec_Code s))) (omap id l)).

Definition BasicQotRequest_body (r : BasicQotRequest) : body :=
  [("security", pointers_json (bq_Security r))] ++ str_omitempty "needDelayFlag" (bq_NeedDelayFlag r)
  ++ int_field "mktTmType" (bq_MktTmType r).
Definition OrderBookRequest_body (r : OrderBookRequest) : body :=
  pointer_json (ob_Security r) ++ int_field "mktTmType" (ob_MktTmType r)
  ++ int_omitempty "depthBookType" (ob_DepthBookType r).
Definition KLRequest_body (r : KLRequest) : body :=
  pointer_json (kl_Security r) ++ int_field "startDate" (kl_StartDate r) ++ int_field "direction" (kl_Direction r)
  ++ int_field "exRightFlag" (kl_ExRightFlag r) ++ int_field "cycType" (kl_CycType r) ++ int_field "limit" (kl_Limit r).
Definition TimeShareRequest_body (r : TimeShareRequest) : body :=
  pointer_json (ts_Security r) ++ int_field "mktTmType" (ts_MktTmType r).
Definition TickerRequest_body (r : TickerRequest) : body :=
  pointer_json (tk_Security r) ++ int_field "limit" (tk_Limit r) ++ int_field "mktTmType" (tk_MktTmType r).
Definition BrokerRequest_body (r : BrokerRequest) : body := pointer_json (br_Security r).
Definition UsOptionChainCodeRequest_body (r : UsOptionChainCodeRequest) : body :=
  str_field "securityCode" (uc_SecurityCode r) ++ str_field "expireDate" (uc_ExpireDate r)
  ++ int_omitempty "flagInOut" (uc_FlagInOut r) ++ str_omitempty "optionType" (uc_OptionType r).
Definition UsOptionChainExpireDateRequest_body (r : UsOptionChainExpireDateRequest) : body :=
  str_field "securityCode" (ue_SecurityCode r).
Definition SubscribeRequest_body (r : SubscribeRequest) : body :=
  int_field "topicId" (sr_TopicID r) ++ [("security", pointers_json (sr_Security r))].

(** ** Validation *)
Fixpoint not_nil (op : string) (i : Z) (secs : list (option Security)) : outcome (option error) :=
  match secs with
  | [] => Ret None
  | s :: secs =>
      require (s <> None) op ("security[" +:+ itoa i +:+ "] must not be nil") ;?; not_nil op (i + 1) secs
  end.

Definition validateSecurityList (op : string) (secs : list (option Security)) : outcome (option error) :=
  require (secs <> []) op "security list must not be empty" ;?; not_nil op 0 secs.

Definition validateSecurity (op : string) (s : option Security) : outcome (option error) :=
  require (s <> None) op "security must not be nil".

Definition validateSecurityCode (op code : string) : outcome (option error) :=
  require (code <> "") op "securityCode must not be empty".

(** The set of the topics; the order of a set is not observable. *)
Definition knownTopics : list Z :=
  [TopicBasicQot; TopicQuoteVariant35; TopicTicker; TopicTickVariant27; TopicTickVariant28; TopicTickVariant37;
   TopicBroker; TopicOrderBook; TopicOrderBookArcabook; TopicOrderBookTotalView; TopicOrderBookVariant36].

Definition validateTopic (op : string) (topic : Z) : outcome (option error) :=
  require (topic ∈ knownTopics) op ("unknown topicId " +:+ itoa topic).

(** ** The replies and the calls *)
Record BasicQotResponse := mkBasicQotResponse { BasicQots : list (option Market.Dto.BasicQotMsg) }.
Record OrderBookResponse := mkOrderBookResponse {
  obs_Security : option Security; OrderBookAskList : list (option OrderBook); OrderBookBidList : list (option OrderBook);
  TickSize : string;
}.
Record KLResponse := mkKLResponse { kls_Security : option Security; Kline : list (option Market.Dto.KLineMsg) }.
Record TimeShareResponse := mkTimeShareResponse { tss_Security : option Security; TimeShares : list (option Market.Dto.TimeShareMsg) }.
Record TickerResponse := mkTickerResponse { tks_Security : option Security; Tickers : list (option Market.Dto.TickerMsg) }.
Record BrokerResponse := mkBrokerResponse {
  brs_Security : option Security; BrokerAskList : list (option Broker); BrokerBidList : list (option Broker);
}.

Section methods.
Context {W Raw : Type} (X : executor W Raw) (R : Market.wire_replies Raw).

Definition BasicQot (req : BasicQotRequest) (w : W) : result W BasicQotResponse :=
  guard (validateSecurityList opBasicQot (bq_Security req)) w
    (call X opBasicQot RouteHqBasicQot (BasicQotRequest_body req) w
       (fun raw => Ret (mkBasicQotResponse (Market.wr_quotes R raw)))).

Definition OrderBook_ (req : OrderBookRequest) (w : W) : result W OrderBookResponse :=
  guard (validateSecurity opOrderBook (ob_Security req)) w
    (call X opOrderBook RouteHqOrderBook (OrderBookRequest_body req) w
       (fun raw => Ret (mkOrderBookResponse (Market.wr_security R raw) (Market.wr_asks R raw) (Market.wr_bids R raw)
          (Market.wr_tick R raw)))).

Definition KL (req : KLRequest) (w : W) : result W KLResponse :=
  guard (validateSecurity opKL (kl_Security req)) w
    (call X opKL RouteHqKL (KLRequest_body req) w
       (fun raw => Ret (mkKLResponse (Market.wr_security R raw) (Market.wr_kline R raw)))).

Definition TimeShare (req : TimeShareRequest) (w : W) : result W TimeShareResponse :=
  guard (validateSecurity opTimeShare (ts_Security req)) w
    (call X opTimeShare RouteHqTimeShare (TimeShareRequest_body req) w
       (fun raw => Ret (mkTimeShareResponse (Market.wr_security R raw) (Market.wr_timeShare R raw)))).

Definition Ticker (req : TickerRequest) (w : W) : result W TickerResponse :=
  guard (validateSecurity opTicker (tk_Security req) ;?;
         require (~ (tk_Limit req < 1 \/ tk_Limit req > MaxTickerLimit)) opTicker
           ("ticker limit " +:+ itoa (tk_Limit req) +:+ " out of range 1.." +:+ itoa MaxTickerLimit)) w
    (call X opTicker RouteHqTicker (TickerRequest_body req) w
       (fun raw => Ret (mkTickerResponse (Market.wr_security R raw) (Market.wr_ticker R raw)))).

Definition Broker_ (req : BrokerRequest) (w : W) : result W BrokerResponse :=
  guard (validateSecurity opBroker (br_Security req)) w
    (call X opBroker RouteHqBroker (BrokerRequest_body req) w
       (fun raw => Ret (mkBrokerResponse (Market.wr_security R raw) (Market.wr_brokerAsks R raw)
          (Market.wr_brokerBids R raw)))).

Definition UsOptionChainCode (req : UsOptionChainCodeRequest) (w : W) : result W (list string) :=
  guard (validateSecurityCode opUsOptionChainCode (uc_SecurityCode req)) w
    (call X opUsOptionChainCode RouteHqUsOptionChainCode (UsOptionChainCodeRequest_body req) w
       (fun raw => Ret (Market.wr_optionCode R raw))).

Definition UsOptionChainExpireDate (req : UsOptionChainExpireDateRequest) (w : W) : result W (list string) :=
  guard (validateSecurityCode opUsOptionChainExpireDate (ue_SecurityCode req)) w
    (call X opUsOptionChainExpireDate RouteHqUsOptionChainExpireDate (UsOptionChainExpireDateRequest_body req) w
       (fun raw => Ret (Market.wr_expireDate R raw))).

Definition UsOverNightTradeCodes (w : W) : result W (list string) :=
  call X opUsOverNightTradeCodes RouteHqUsOverNightTradeCodes [] w (fun raw => Ret (Market.wr_securityCodes R raw)).

Definition Subscribe (topicID : Z) (securities : list (option Security)) (w : W) : result W unit :=
  guard (validateTopic opSubscribe topicID ;?; validateSecurityList opSubscribe securities) w
    (call X opSubscribe RouteHqSubscribe (SubscribeRequest_body (mkSubscribeRequest topicID securities)) w (fun _ => Ret ())).

Definition Unsubscribe (topicID : Z) (securities : list (option Security)) (w : W) : result W unit :=
  guard (validateTopic opUnsubscribe topicID ;?; validateSecurityList opUnsubscribe securities) w
    (call X opUnsubscribe RouteHqUnsubscribe (SubscribeRequest_body (mkSubscribeRequest topicID securities)) w (fun _ => Ret ())).
End methods.

(** ** The released calls and those of the service *)

(** The two make the same call: the same request on the wire and the same world
    after it, the same refusal, and a reply of the released one for every reply of
    the other. *)
Definition same_call {W A B} (released : result (W * list (string * body)) A) (service : result (W * list (string * body)) B) : Prop :=
  snd released = snd service
  /\ match fst service with
     | Ret (inr e) => fst released = Ret (inr e)
     | Ret (inl _) => exists a, fst released = Ret (inl a)
     | Panic => fst released = Panic \/ exists a, fst released = Ret (inl a)
     end.

Lemma call_same {W Raw A B} (X : executor W Raw) op route req w log (f : Raw -> A) (g : Raw -> outcome B) :
  same_call (call (logged X) op route req (w, log) (fun raw => Ret (f raw))) (call (logged X) op route req (w, log) g).
Proof.
  unfold same_call, call, logged. cbn. destruct (X op route req w) as [[[raw|e]|] w']; cbn; try by auto.
  split; [done |]. destruct (g raw); eauto.
Qed.

Lemma guard_same {W Raw A B} (X : executor W Raw) op route req w log (f : Raw -> A) (g : Raw -> outcome B) c c' :
  c = c' ->
  same_call (guard c (w, log) (call (logged X) op route req (w, log) (fun raw => Ret (f raw))))
    (guard c' (w, log) (call (logged X) op route req (w, log) g)).
Proof. intros <-. destruct c as [[e|]|]; [by split | apply call_same | split; [done | by left]]. Qed.

Lemma topic_same op t : validateTopic op t = Ret (PushKeys.validateTopic op t).
Proof.
  unfold validateTopic, PushKeys.validateTopic, require. change knownTopics with PushKeys.knownTopics. by case_decide.
Qed.

(** A caller that moves from the released market package to the service, with
    the same arguments, changes nothing that the Gateway or the client can see:
    each of the eleven calls sends the identical request to the same route or
    refuses it with the identical error, and leaves the same world. Where the
    service maps the reply to domain rows, the released call hands the wire rows
    back, so a reply on which the service panics is still returned by it. *)
Theorem market_migration {D W Raw} `{Decimal D} (X : executor W Raw) (R : Market.wire_replies Raw)
    (bq : BasicQotRequest) (ob : OrderBookRequest) (kl : KLRequest) (ts : TimeShareRequest) (tk : TickerRequest)
    (br : BrokerRequest) (uc : UsOptionChainCodeRequest) (ue : UsOptionChainExpireDateRequest)
    (topic : Z) (secs : list (option Security)) (w : W) log :
  let X' := logged X in
  let s := Market.mkMarketService X' in
  same_call (BasicQot X' R bq (w, log))
    (Market.BasicQot (D := D) s R (Market.mkBasicQotRequest (bq_Security bq) (bq_NeedDelayFlag bq) (bq_MktTmType bq)) (w, log))
  /\ same_call (OrderBook_ X' R ob (w, log))
       (Market.OrderBook_ (D := D) s R (Market.mkOrderBookRequest (ob_Security ob) (ob_MktTmType ob) (ob_DepthBookType ob)) (w, log))
  /\ same_call (KL X' R kl (w, log))
       (Market.KL (D := D) s R (Market.mkKLRequest (kl_Security kl) (kl_StartDate kl) (kl_Direction kl) (kl_ExRightFlag kl)
          (kl_CycType kl) (kl_Limit kl)) (w, log))
  /\ same_call (TimeShare X' R ts (w, log))
       (Market.TimeShare (D := D) s R (Market.mkTimeShareRequest (ts_Security ts) (ts_MktTmType ts)) (w, log))
  /\ same_call (Ticker X' R tk (w, log))
       (Market.Ticker (D := D) s R (Market.mkTickerRequest (tk_Security tk) (tk_Limit tk) (tk_MktTmType tk)) (w, log))
  /\ same_call (Broker_ X' R br (w, log)) (Market.Broker_ s R (Market.mkBrokerRequest (br_Security br)) (w, log))
  /\ same_call (UsOptionChainCode X' R uc (w, log))
       (Market.UsOptionChainCode s R (Market.mkUsOptionChainCodeRequest (uc_SecurityCode uc) (uc_ExpireDate uc)
          (uc_FlagInOut uc) (uc_OptionType uc)) (w, log))
  /\ same_call (UsOptionChainExpireDate X' R ue (w, log))
       (Market.UsOptionChainExpireDate s R (Market.mkUsOptionChainExpireDateRequest (ue_SecurityCode ue)) (w, log))
  /\ same_call (UsOverNightTradeCodes X' R (w, log)) (Market.UsOverNightTradeCodes s R (w, log))
  /\ same_call (Subscribe X' topic secs (w, log)) (Market.Subscribe s topic secs (w, log))
  /\ same_call (Unsubscribe X' topic secs (w, log)) (Market.Unsubscribe s topic secs (w, log)).
Proof.
  intros X' s. split_and!; try by apply guard_same.
  - apply call_same.
  - apply guard_same. by rewrite topic_same.
  - apply guard_same. by rewrite topic_same.
Qed.
