(* ===== verification/RateLimit.v ===== *)
(** The rate limiter: [src/internal/resilience/ratelimit.go].

    Tokens and rates are float64 values; the model works over an interface with the
    error bounds of IEEE arithmetic, so the bound on the calls admitted counts every
    rounding. Time is in nanoseconds since the zero time. *)
From Stdlib Require Import QArith Lqa.
From S2P Require Import Prelude Types Errs.
Local Open Scope Z_scope.
Local Open Scope go_scope.

(** ** Floating point *)
Class Float (F : Type) := {
  f_of_Z : Z -> F;
  f_add : F -> F -> F;
  f_sub : F -> F -> F;
  f_mul : F -> F -> F;
  f_div : F -> F -> F;
  f_le : F -> F -> bool;
  f_to_int64 : F -> Z;
}.

Definition f_lt {F} `{Float F} (a b : F) : bool := negb (f_le b a).

(** Half a unit in the last place, relative to a result. *)
Definition ulp : Q := 1 # 9007199254740992.

(** A result that neither overflows nor underflows. *)
Definition normal (e : Q) : Prop := (e == 0 \/ (1 # Z.to_pos (2 ^ 1000)) <= e)%Q /\ (e <= inject_Z (2 ^ 1000))%Q.

(** IEEE arithmetic on finite values that are not negative: integers of 53 bits are
    exact, a sum, a product and a quotient are within a unit of the exact result,
    and taking one from a number of 53 bits loses nothing. *)
Class FloatLaws (F : Type) `{Float F} := {
  f_val : F -> Q;
  of_Z_exact z : 0 <= z <= 2 ^ 53 -> (f_val (f_of_Z z) == inject_Z z)%Q;
  le_exact a b : f_le a b = true <-> (f_val a <= f_val b)%Q;
  add_law a b : (0 <= f_val a)%Q -> (0 <= f_val b)%Q -> normal (f_val a + f_val b) ->
    ((1 - ulp) * (f_val a + f_val b) <= f_val (f_add a b) <= (1 + ulp) * (f_val a + f_val b))%Q;
  mul_law a b : (0 <= f_val a)%Q -> (0 <= f_val b)%Q -> normal (f_val a * f_val b) ->
    ((1 - ulp) * (f_val a * f_val b) <= f_val (f_mul a b) <= (1 + ulp) * (f_val a * f_val b))%Q;
  div_law a b : (0 <= f_val a)%Q -> (0 < f_val b)%Q -> normal (f_val a / f_val b) ->
    ((1 - ulp) * (f_val a / f_val b) <= f_val (f_div a b) <= (1 + ulp) * (f_val a / f_val b))%Q;
  sub_one a one : (f_val one == 1)%Q -> (1 <= f_val a <= inject_Z (2 ^ 53))%Q ->
    (f_val (f_sub a one) == f_val a - 1)%Q;
}.

(** ** Limits and buckets *)
Definition Second : Z := 1000000000.
Definition Millisecond : Z := 1000000.

Section limiter.
Context {F : Type} `{Float F}.

Record Limit := mkLimit { TokensPerSecond : F; Burst : Z }.

Definition enabled (l : Limit) : bool := f_lt (f_of_Z 0) (TokensPerSecond l) && bool_decide (0 < Burst l).

Definition normalizeLimit (l : Limit) : Limit :=
  if f_lt (f_of_Z 0) (TokensPerSecond l) && bool_decide (Burst l <= 0) then mkLimit (TokensPerSecond l) 1 else l.

Record bucket := mkBucket { limit : Limit; tokens : F; last : Z }.

Definition newBucket (now : Z) (l : Limit) : bucket := mkBucket l (f_of_Z (Burst l)) now.

(** [Duration.Seconds] of a duration that is not negative. *)
Definition Seconds (d : Z) : F := f_add (f_of_Z (d / Second)) (f_div (f_of_Z (d mod Second)) (f_of_Z Second)).

Definition refill (now : Z) (b : bucket) : bucket :=
  if decide (last b = 0) then mkBucket (limit b) (tokens b) now
  else
    let elapsed := time_sub now (last b) in
    if decide (elapsed <= 0) then b
    else
      let t := f_add (tokens b) (f_mul (Seconds elapsed) (TokensPerSecond (limit b))) in
      mkBucket (limit b) (if f_lt (f_of_Z (Burst (limit b))) t then f_of_Z (Burst (limit b)) else t) now.

(** One turn of the loop of [wait], under the lock of the bucket: a token is taken
    and the call is admitted, or the call sleeps and comes back. *)
Definition attempt (now : Z) (b : bucket) : option Z * bucket :=
  let b := refill now b in
  if f_le (f_of_Z 1) (tokens b) then (None, mkBucket (limit b) (f_sub (tokens b) (f_of_Z 1)) (last b))
  else
    let wait := f_to_int64 (f_div (f_mul (f_of_Z Second) (f_sub (f_of_Z 1) (tokens b))) (TokensPerSecond (limit b))) in
    (Some (if decide (wait < Millisecond) then Millisecond else wait), b).

(** A nil bucket admits at once. *)
Definition attempt_opt (now : Z) (b : option bucket) : option Z * option bucket :=
  match b with
  | None => (None, None)
  | Some b => let '(r, b) := attempt now b in (r, Some b)
  end.

Record Limiter := mkLimiter {
  global : Limit;
  perEndpoint : gmap string Limit;
  buckets : gmap string (option bucket);
  globalBkt : option bucket;
}.

Definition NewLimiter (now : Z) (global : Limit) (perEndpoint : gmap string Limit) : Limiter :=
  let g := normalizeLimit global in
  mkLimiter g (normalizeLimit <$> perEndpoint) ∅ (if enabled g then Some (newBucket now g) else None).

(** The bucket of an endpoint, created at its first use. *)
Definition bucketFor (now : Z) (endpoint : string) (l : Limiter) : option bucket * Limiter :=
  match buckets l !! endpoint with
  | Some b => (b, l)
  | None =>
      let b := match perEndpoint l !! endpoint with
               | Some lim => if enabled lim then Some (newBucket now lim) else None
               | None => None
               end in
      (b, mkLimiter (global l) (perEndpoint l) (<[endpoint := b]> (buckets l)) (globalBkt l))
  end.

(** The turns of [Wait] and, once the global bucket has admitted the call, of the
    endpoint's bucket in [WaitEndpoint], which reads the clock to create a bucket
    and again to look at it. *)
Definition attempt_global (now : Z) (l : Limiter) : option Z * Limiter :=
  let '(r, b) := attempt_opt now (globalBkt l) in (r, mkLimiter (global l) (perEndpoint l) (buckets l) b).

Definition attempt_endpoint (created now : Z) (endpoint : string) (l : Limiter) : option Z * Limiter :=
  let '(b, l) := bucketFor created endpoint l in
  let '(r, b) := attempt_opt now b in
  (r, mkLimiter (global l) (perEndpoint l) (<[endpoint := b]> (buckets l)) (globalBkt l)).

(** ** Runs: the turns of any calls, in the order they take the locks *)
Fixpoint admitted (times : list Z) (b : bucket) : Z :=
  match times with
  | [] => 0
  | now :: times => let '(r, b) := attempt now b in (match r with None => 1 | Some _ => 0 end) + admitted times b
  end.

Inductive turn :=
  | TGlobal (now : Z)
  | TEndpoint (endpoint : string) (created now : Z).

Definition turn_time (t : turn) : Z := match t with TGlobal now => now | TEndpoint _ _ now => now end.

Definition run_turn (t : turn) (l : Limiter) : option Z * Limiter :=
  match t with
  | TGlobal now => attempt_global now l
  | TEndpoint e created now => attempt_endpoint created now e l
  end.

Fixpoint run (ts : list turn) (l : Limiter) : list (turn * option Z) * Limiter :=
  match ts with
  | [] => ([], l)
  | t :: ts =>
      let '(r, l) := run_turn t l in
      let '(rs, l) := run ts l in ((t, r) :: rs, l)
  end.
End limiter.
Arguments Limit F : clear implicits.
Arguments bucket F : clear implicits.
Arguments Limiter F : clear implicits.

(** ** The bound on a bucket *)
Lemma normal_intro e : (1 # 100000000000000000000 <= e)%Q -> (e <= 1000000000000000000000000000000)%Q -> normal e.
Proof.
  intros Hlo Hhi. split; [right |].
  - eapply Qle_trans; [| exact Hlo]. vm_compute. discriminate.
  - eapply Qle_trans; [exact Hhi |]. vm_compute. discriminate.
Qed.

Lemma normal_zero e : (e == 0)%Q -> normal e.
Proof. intros He. split; [by left |]. rewrite He. vm_compute. discriminate. Qed.

Lemma inject_le a b : a <= b -> (inject_Z a <= inject_Z b)%Q.
Proof. intros. by rewrite <- Zle_Qle. Qed.

Section bound.
Context {F : Type} `{FloatLaws F}.

(** Limits of everyday size: a rate between a token every thirty years and a
    billion a second, and a burst of 53 bits. *)
Definition moderate (l : Limit F) : Prop :=
  ((1 # 1000000000) <= f_val (TokensPerSecond l) <= 1000000000)%Q /\ 1 <= Burst l <= 2 ^ 53.

(** Seconds, as a rational. *)
Definition secs (d : Z) : Q := d # 1000000000.

Lemma Seconds_bound d : 0 < d <= int_max ->
  ((1 - ulp) * ((1 - ulp) * secs d) <= f_val (Seconds d) <= (1 + ulp) * ((1 + ulp) * secs d))%Q.
Proof using Type*.
  intros Hd. unfold Seconds, Second.
  pose proof (Z.div_mod d 1000000000 ltac:(lia)) as Hdm. pose proof (Z.mod_pos_bound d 1000000000 ltac:(lia)) as Hm.
  set (q := d / 1000000000) in *. set (m := d mod 1000000000) in *.
  assert (Hq : 0 <= q <= 9223372036) by (unfold int_max in Hd; lia).
  pose proof (of_Z_exact q ltac:(lia)) as Eq. pose proof (of_Z_exact m ltac:(lia)) as Em.
  pose proof (of_Z_exact 1000000000 ltac:(lia)) as Es.
  assert (Hqq : (0 <= inject_Z q <= 9223372036)%Q) by (split; apply inject_le; lia).
  assert (Hmm : (0 <= inject_Z m <= 999999999)%Q) by (split; apply inject_le; lia).
  assert (Hsum : (inject_Z q + inject_Z m * (1 # 1000000000) == secs d)%Q).
  { unfold secs, inject_Z, Qplus, Qmult, Qeq. cbn [Qnum Qden]. lia. }
  assert (Hpos : (1 # 1000000000 <= secs d)%Q) by (unfold secs, Qle; cbn [Qnum Qden]; lia).
  assert (Hdiv : (f_val (f_of_Z m) / f_val (f_of_Z 1000000000) == inject_Z m * (1 # 1000000000))%Q).
  { rewrite Em, Es. unfold Qdiv. apply Qmult_comp; [reflexivity | reflexivity]. }
  assert (Hn1 : normal (f_val (f_of_Z m) / f_val (f_of_Z 1000000000))).
  { destruct (decide (m = 0)) as [E|E].
    - apply normal_zero. rewrite Hdiv, E. reflexivity.
    - assert (H1 : (1 <= inject_Z m)%Q) by (apply (inject_le 1); lia).
      apply normal_intro; rewrite Hdiv; lra. }
  pose proof (div_law (f_of_Z m) (f_of_Z 1000000000) ltac:(rewrite Em; lra)
    ltac:(rewrite Es; vm_compute; reflexivity) Hn1) as Hv. rewrite Hdiv in Hv.
  set (v := f_val (f_div _ _)) in *. set (mq := (inject_Z m * (1 # 1000000000))%Q) in *.
  assert (Hmq : (0 <= mq <= 1)%Q) by (unfold mq; split; lra). unfold ulp in *.
  destruct (add_law (f_of_Z q) (f_div (f_of_Z m) (f_of_Z 1000000000))) as [Ha1 Ha2];
    [lra | fold v; lra | apply normal_intro; fold v; lra |].
  fold v in Ha1, Ha2. unfold ulp in Ha1, Ha2. split; lra.
Qed.

(** The rate with the roundings of four operations, in tokens a nanosecond. *)
Definition rate_up (l : Limit F) : Q :=
  ((1 + ulp) * ((1 + ulp) * ((1 + ulp) * (1 + ulp))) * f_val (TokensPerSecond l) * (1 # 1000000000))%Q.

Lemma accrued_bound l d : moderate l -> 0 < d <= int_max ->
  let inc := f_val (f_mul (Seconds d) (TokensPerSecond l)) in
  ((1 # 10000000000000000000) <= inc /\ inc <= 1000000000000000000000)%Q
  /\ ((1 + ulp) * inc <= rate_up l * inject_Z d)%Q.
Proof using Type*.
  intros [[Hr1 Hr2] _] Hd. pose proof (Seconds_bound d Hd) as [Hs1 Hs2]. unfold rate_up.
  set (r := f_val (TokensPerSecond l)) in *. set (s := f_val (Seconds d)) in *.
  assert (Hd1 : (1 # 1000000000 <= secs d <= 9223372037)%Q).
  { unfold secs, Qle, int_max in *. cbn [Qnum Qden]. lia. }
  assert (He : (secs d == inject_Z d * (1 # 1000000000))%Q) by (unfold secs, inject_Z, Qmult, Qeq; cbn [Qnum Qden]; lia).
  assert (Hlo : (secs d * (1 # 1000000000) <= secs d * r)%Q) by (apply Qmult_le_l; [lra | done]).
  assert (Hhi : (secs d * r <= 9223372037 * 1000000000)%Q) by (apply Qmult_le_compat_nonneg; split; lra).
  unfold ulp in *.
  assert (Hsr1 : ((1 - (1 # 9007199254740992)) * ((1 - (1 # 9007199254740992)) * secs d) * r <= s * r)%Q)
    by (apply Qmult_le_compat_r; [done | lra]).
  assert (Hsr2 : (s * r <= (1 + (1 # 9007199254740992)) * ((1 + (1 # 9007199254740992)) * secs d) * r)%Q)
    by (apply Qmult_le_compat_r; [done | lra]).
  set (p := (secs d * r)%Q) in *.
  assert (Hp1 : (s * r <= (1 + (1 # 9007199254740992)) * ((1 + (1 # 9007199254740992)) * p))%Q)
    by (unfold p; lra).
  assert (Hp2 : ((1 - (1 # 9007199254740992)) * ((1 - (1 # 9007199254740992)) * p) <= s * r)%Q) by (unfold p; lra).
  destruct (mul_law (Seconds d) (TokensPerSecond l)) as [Hm1 Hm2];
    [fold s; lra | fold r; lra | apply normal_intro; fold s r; lra |].
  fold s r in Hm1, Hm2. unfold ulp in Hm1, Hm2. split; [split; lra |].
  assert (Hp3 : (r * (1 # 1000000000) * inject_Z d == p)%Q) by (unfold p; rewrite He; ring).
  lra.
Qed.

Definition wf (b : bucket F) : Prop := (0 <= f_val (tokens b) <= inject_Z (Burst (limit b)))%Q /\ 0 < last b.

Lemma refill_bound b now : moderate (limit b) -> wf b ->
  let b' := refill now b in
  wf b' /\ limit b' = limit b /\ last b' = Z.max (last b) now
  /\ (f_val (tokens b') <= f_val (tokens b) + ulp * inject_Z (Burst (limit b)) + rate_up (limit b) * inject_Z (last b' - last b))%Q.
Proof using Type*.
  intros Hm [[Ht1 Ht2] Hl]. pose proof Hm as [[Hr1 Hr2] HB]. unfold refill.
  rewrite decide_False by lia.
  assert (HBq : (1 <= inject_Z (Burst (limit b)) <= inject_Z (2 ^ 53))%Q) by (split; apply inject_le; lia).
  set (B := inject_Z (Burst (limit b))) in *. unfold ulp.
  case_decide as He.
  - assert (now <= last b) by (unfold time_sub, int_min, int_max in He; lia).
    cbn zeta. split; [by split |]. split; [done |]. split; [lia |].
    replace (last b - last b) with 0 by lia. change (inject_Z 0) with 0%Q. lra.
  - assert (Hd : 0 < time_sub now (last b) <= int_max) by (unfold time_sub, int_min, int_max in *; lia).
    assert (Hle : time_sub now (last b) <= now - last b) by (unfold time_sub, int_min, int_max in *; lia).
    cbn zeta. cbn [tokens last limit].
    destruct (accrued_bound (limit b) (time_sub now (last b)) Hm Hd) as [[Hi1 Hi2] Hup]. cbv zeta in *.
    set (inc := f_mul (Seconds (time_sub now (last b))) (TokensPerSecond (limit b))) in *.
    assert (Hmono : (rate_up (limit b) * inject_Z (time_sub now (last b)) <= rate_up (limit b) * inject_Z (now - last b))%Q).
    { rewrite !(Qmult_comm (rate_up (limit b))). apply Qmult_le_compat_r; [by apply inject_le |].
      unfold rate_up, ulp. lra. }
    assert (Htop : (inject_Z (2 ^ 53) <= 10000000000000000)%Q) by (apply (inject_le _ 10000000000000000); lia).
    destruct (add_law (tokens b) inc) as [Ha1 Ha2]; [done | lra | apply normal_intro; lra |].
    pose proof (of_Z_exact (Burst (limit b)) ltac:(lia)) as EB. fold B in EB. unfold ulp in *.
    assert (Hclamp : forall t, (f_val t <= f_val (f_add (tokens b) inc))%Q ->
      (f_val t <= f_val (tokens b) + (1 # 9007199254740992) * B + rate_up (limit b) * inject_Z (now - last b))%Q).
    { intros t Hle'. lra. }
    unfold f_lt. destruct (f_le (f_add (tokens b) inc) (f_of_Z (Burst (limit b)))) eqn:Hc; cbn [negb].
    + apply le_exact in Hc. split; [split; [cbn; fold B; lra | cbn; lia] |]. split; [done |]. split; [lia |].
      apply Hclamp. lra.
    + assert (Hgt : (f_val (f_of_Z (Burst (limit b))) <= f_val (f_add (tokens b) inc))%Q).
      { destruct (Qlt_le_dec (f_val (f_add (tokens b) inc)) (f_val (f_of_Z (Burst (limit b))))) as [Hlt|]; [| done].
        exfalso. assert (f_le (f_add (tokens b) inc) (f_of_Z (Burst (limit b))) = true) by (apply le_exact; lra). congruence. }
      split; [split; [cbn; fold B; lra | cbn; lia] |]. split; [done |]. split; [lia |]. apply Hclamp. lra.
Qed.
Lemma attempt_bound b now : moderate (limit b) -> wf b ->
  let '(r, b') := attempt now b in
  wf b' /\ limit b' = limit b /\ last b' = Z.max (last b) now
  /\ (inject_Z (match r with None => 1 | Some _ => 0 end) + f_val (tokens b')
      <= f_val (tokens b) + ulp * inject_Z (Burst (limit b)) + rate_up (limit b) * inject_Z (last b' - last b))%Q
  /\ match r with Some d => Millisecond <= d | None => True end.
Proof using Type*.
  intros Hm Hwf. destruct (refill_bound b now Hm Hwf) as (Hwf' & Hlim & Hlast & Hb). pose proof Hm as [_ HB].
  unfold attempt. set (b1 := refill now b) in *. destruct Hwf' as [[Ht1 Ht2] Hl].
  pose proof (of_Z_exact 1 ltac:(lia)) as E1.
  destruct (f_le (f_of_Z 1) (tokens b1)) eqn:Hle; cbn [limit tokens last].
  - apply le_exact in Hle. rewrite E1 in Hle. change (inject_Z 1) with 1%Q in *.
    assert (HBq : (inject_Z (Burst (limit b1)) <= inject_Z (2 ^ 53))%Q) by (apply inject_le; rewrite Hlim; lia).
    pose proof (sub_one (tokens b1) (f_of_Z 1) E1 ltac:(lra)) as Es.
    split; [split; [cbn; rewrite Es; lra | done] |]. split; [done |]. split; [done |]. split; [rewrite Es; lra | done].
  - split; [by split |]. split; [done |]. split; [done |]. split; [change (inject_Z 0) with 0%Q; lra |].
    case_decide; lia.
Qed.

Lemma admitted_bound times b T : moderate (limit b) -> wf b -> Forall (fun now => now <= T) times -> last b <= T ->
  (inject_Z (admitted times b)
   <= f_val (tokens b) + inject_Z (Z.of_nat (length times)) * (ulp * inject_Z (Burst (limit b)))
      + rate_up (limit b) * inject_Z (T - last b))%Q.
Proof using Type*.
  revert b. induction times as [|now times IH]; intros b Hm Hwf Hall HT; cbn [admitted length].
  - destruct Hwf as [[Ht _] _]. destruct Hm as [[Hr1 _] _].
    assert (Hz : (0 <= inject_Z (T - last b) * rate_up (limit b))%Q).
    { apply Qmult_le_0_compat; [by apply (inject_le 0); lia |]. unfold rate_up, ulp. lra. }
    change (inject_Z 0) with 0%Q. change (inject_Z (Z.of_nat 0)) with 0%Q. lra.
  - apply Forall_cons in Hall as [Hnow Hall]. pose proof (attempt_bound b now Hm Hwf) as Ha.
    destruct (attempt now b) as [r b']. destruct Ha as (Hwf' & Hlim & Hlast & Hb & _).
    specialize (IH b'). rewrite Hlim in IH. specialize (IH Hm Hwf' Hall ltac:(lia)).
    rewrite inject_Z_plus. replace (Z.of_nat (S (length times))) with (1 + Z.of_nat (length times)) by lia.
    rewrite inject_Z_plus. replace (T - last b) with ((T - last b') + (last b' - last b)) by lia.
    rewrite (inject_Z_plus (T - last b')). change (inject_Z 1) with 1%Q.
    set (n := inject_Z (Z.of_nat (length times))) in *. set (x := (ulp * inject_Z (Burst (limit b)))%Q) in *.
    set (c := rate_up (limit b)) in *. lra.
Qed.
End bound.

(** ** The buckets of a limiter *)
Section runs.
Context {F : Type} `{FloatLaws F}.

(** The turns that look at the bucket of an endpoint, at the global bucket; and the
    calls they admitted. *)
Definition endpoint_times (e : string) (ts : list turn) : list Z :=
  omap (fun t => match t with TEndpoint e' _ now => if decide (e' = e) then Some now else None | _ => None end) ts.

Definition global_times (ts : list turn) : list Z :=
  omap (fun t => match t with TGlobal now => Some now | _ => None end) ts.

Definition first_created (e : string) (ts : list turn) : option Z :=
  head (omap (fun t => match t with TEndpoint e' c _ => if decide (e' = e) then Some c else None | _ => None end) ts).

Fixpoint endpoint_admissions (e : string) (rs : list (turn * option Z)) : Z :=
  match rs with
  | [] => 0
  | (t, r) :: rs =>
      (match t, r with TEndpoint e' _ _, None => if decide (e' = e) then 1 else 0 | _, _ => 0 end)
      + endpoint_admissions e rs
  end.

Fixpoint global_admissions (rs : list (turn * option Z)) : Z :=
  match rs with
  | [] => 0
  | (t, r) :: rs => (match t, r with TGlobal _, None => 1 | _, _ => 0 end) + global_admissions rs
  end.

(** A turn of another endpoint leaves the bucket of an endpoint alone. *)
Lemma run_turn_other e t l : match t with TEndpoint e' _ _ => e' <> e | TGlobal _ => True end ->
  buckets (snd (run_turn (F := F) t l)) !! e = buckets l !! e
  /\ perEndpoint (snd (run_turn t l)) = perEndpoint l.
Proof using Type.
  destruct t as [now|e' c now]; cbn.
  - intros _. unfold attempt_global. by destruct (attempt_opt now (globalBkt l)).
  - intros Hne. unfold attempt_endpoint, bucketFor. destruct (buckets l !! e') as [b|] eqn:Hb; cbn.
    + destruct (attempt_opt now b). cbn. by rewrite lookup_insert_ne.
    + destruct (attempt_opt now _). cbn. by rewrite !lookup_insert_ne.
Qed.

Lemma run_created e ts l b : buckets l !! e = Some (Some b) ->
  endpoint_admissions e (fst (run (F := F) ts l)) = admitted (endpoint_times e ts) b.
Proof using Type.
  revert l b. induction ts as [|t ts IH]; intros l b Hb; [done |]. cbn [run].
  destruct (run_turn t l) as [r l'] eqn:Hr. destruct (run ts l') as [rs l''] eqn:Hrs. cbn [fst].
  cbn [endpoint_admissions].
  assert (Hother : match t with TEndpoint e' _ _ => e' <> e | TGlobal _ => True end ->
    endpoint_admissions e rs = admitted (endpoint_times e ts) b).
  { intros Hne. pose proof (run_turn_other e t l Hne) as [Hl _]. rewrite Hr in Hl. cbn [snd] in Hl.
    specialize (IH l' b ltac:(congruence)). by rewrite Hrs in IH. }
  destruct t as [now|e' c now]; [cbn; by apply Hother |]. cbn [endpoint_times omap list_omap].
  destruct (decide (e' = e)) as [->|Hne]; [| destruct r; rewrite Hother by done; reflexivity].
  cbn in Hr. unfold attempt_endpoint, bucketFor in Hr. rewrite Hb in Hr. cbn [attempt_opt] in Hr.
  destruct (attempt now b) as [r' b'] eqn:Ha. injection Hr as <- <-.
  specialize (IH (mkLimiter (global l) (perEndpoint l) (<[e:=Some b']> (buckets l)) (globalBkt l)) b'
    ltac:(cbn; by rewrite lookup_insert_eq)). rewrite Hrs in IH. cbn [fst] in IH.
  cbn [admitted]. rewrite Ha, IH. by destruct r'.
Qed.

Lemma run_uncreated e ts l lim : buckets l !! e = None -> perEndpoint l !! e = Some lim -> enabled lim = true ->
  match first_created e ts with
  | Some c => endpoint_admissions e (fst (run (F := F) ts l)) = admitted (endpoint_times e ts) (newBucket c lim)
  | None => endpoint_admissions e (fst (run (F := F) ts l)) = 0
  end.
Proof using Type.
  intros Hb Hp He. revert l Hb Hp. induction ts as [|t ts IH]; intros l Hb Hp; [done |]. cbn [run].
  destruct (run_turn t l) as [r l'] eqn:Hr. destruct (run ts l') as [rs l''] eqn:Hrs. cbn [fst].
  cbn [endpoint_admissions].
  assert (Hother : match t with TEndpoint e' _ _ => e' <> e | TGlobal _ => True end ->
    match first_created e ts with
    | Some c => endpoint_admissions e rs = admitted (endpoint_times e ts) (newBucket c lim)
    | None => endpoint_admissions e rs = 0
    end).
  { intros Hne. pose proof (run_turn_other e t l Hne) as [Hl Hl2]. rewrite Hr in Hl, Hl2. cbn [snd] in Hl, Hl2.
    specialize (IH l' ltac:(congruence) ltac:(congruence)). by rewrite Hrs in IH. }
  destruct t as [now|e' c now]; [cbn; by apply Hother |].
  unfold first_created, endpoint_times. cbn [omap list_omap].
  destruct (decide (e' = e)) as [->|Hne]; [| destruct r; by apply Hother].
  cbn [head]. cbn in Hr. unfold attempt_endpoint, bucketFor in Hr. rewrite Hb, Hp, He in Hr. cbn in Hr.
  destruct (attempt now (newBucket c lim)) as [r' b'] eqn:Ha. injection Hr as <- <-.
  pose proof (run_created e ts (mkLimiter (global l) (perEndpoint l) (<[e:=Some b']> (<[e:=Some (newBucket c lim)]> (buckets l)))
    (globalBkt l)) b' ltac:(cbn; by rewrite lookup_insert_eq)) as Hc. rewrite Hrs in Hc. cbn [fst] in Hc.
  cbn [admitted]. rewrite Ha, Hc. by destruct r'.
Qed.

Lemma run_global ts l b : globalBkt l = Some b ->
  global_admissions (fst (run (F := F) ts l)) = admitted (global_times ts) b.
Proof using Type.
  revert l b. induction ts as [|t ts IH]; intros l b Hb; [done |]. cbn [run].
  destruct (run_turn t l) as [r l'] eqn:Hr. destruct (run ts l') as [rs l''] eqn:Hrs. cbn [fst].
  cbn [global_admissions]. destruct t as [now|e' c now]; cbn [run_turn] in Hr.
  - unfold attempt_global in Hr. rewrite Hb in Hr. cbn in Hr. destruct (attempt now b) as [r' b'] eqn:Ha.
    injection Hr as <- <-. cbn [global_times omap list_omap admitted]. rewrite Ha.
    specialize (IH (mkLimiter (global l) (perEndpoint l) (buckets l) (Some b')) b' eq_refl). rewrite Hrs in IH.
    cbn [fst] in IH. rewrite IH. by destruct r'.
  - assert (Hg : globalBkt l' = Some b).
    { unfold attempt_endpoint, bucketFor in Hr. destruct (buckets l !! e') as [b0|]; cbn in Hr;
        destruct (attempt_opt now _); injection Hr as <- <-; done. }
    specialize (IH l' b Hg). rewrite Hrs in IH. cbn [fst] in IH. destruct r; exact IH.
Qed.
End runs.

Section limits.
Context {F : Type} `{FloatLaws F}.

Lemma moderate_enabled l : moderate l -> enabled l = true.
Proof using Type*.
  intros [[Hr _] HB]. unfold enabled, f_lt. rewrite bool_decide_eq_true_2 by lia. rewrite andb_true_r.
  destruct (f_le (TokensPerSecond l) (f_of_Z 0)) eqn:Hc; [| done]. apply le_exact in Hc.
  pose proof (of_Z_exact 0 ltac:(lia)) as E0. change (inject_Z 0) with 0%Q in E0. lra.
Qed.

Lemma newBucket_wf now l : moderate l -> 0 < now -> wf (newBucket now l).
Proof using Type*.
  intros [_ HB] Hn. split; [| done]. cbn. pose proof (of_Z_exact (Burst l) ltac:(lia)) as E.
  assert (0 <= inject_Z (Burst l))%Q by (apply (inject_le 0); lia). split; lra.
Qed.

(** Calls a bucket may admit in [n] turns over [d] nanoseconds: its burst, what
    accrues in that time, and the roundings of its turns. *)
Definition allowance (l : Limit F) (n d : Z) : Q :=
  (inject_Z (Burst l) + inject_Z n * (ulp * inject_Z (Burst l)) + rate_up l * inject_Z d)%Q.

Lemma admitted_nonneg times (b : bucket F) : 0 <= admitted times b.
Proof using Type.
  revert b. induction times as [|x l IH]; intros b; cbn [admitted]; [lia |].
  destruct (attempt x b) as [r b']. specialize (IH b'). destruct r; lia.
Qed.

Lemma bucket_bound l times c t0 T : moderate l -> 0 < t0 -> t0 <= c <= T -> Forall (fun now => now <= T) times ->
  (inject_Z (admitted times (newBucket c l)) <= allowance l (Z.of_nat (length times)) (T - t0))%Q.
Proof using Type*.
  intros Hm Ht0 Hc Hall.
  pose proof (admitted_bound times (newBucket c l) T Hm (newBucket_wf c l Hm ltac:(lia)) Hall ltac:(cbn; lia)) as Hb.
  cbn [tokens limit newBucket last] in Hb. unfold allowance. pose proof Hm as [[Hr1 _] HB].
  pose proof (of_Z_exact (Burst l) ltac:(lia)) as EB.
  assert (Hmono : (inject_Z (T - c) * rate_up l <= inject_Z (T - t0) * rate_up l)%Q).
  { apply Qmult_le_compat_r; [apply inject_le; lia |]. unfold rate_up, ulp. lra. }
  set (x := (inject_Z (Z.of_nat (length times)) * (ulp * inject_Z (Burst l)))%Q) in *. lra.
Qed.

(** A turn at a bucket that does not exist is admitted. *)
Definition free (e : string) (l : Limiter F) : Prop :=
  (perEndpoint l !! e = None \/ exists lim, perEndpoint l !! e = Some lim /\ enabled lim = false)
  /\ (buckets l !! e = None \/ buckets l !! e = Some None).

Lemma run_free e ts l : free e l -> Forall (fun r => forall c now, r.1 = TEndpoint e c now -> r.2 = None) (fst (run ts l)).
Proof using Type.
  revert l. induction ts as [|t ts IH]; intros l [Hp Hb]; [constructor |]. cbn [run].
  destruct (run_turn t l) as [r l'] eqn:Hr. specialize (IH l'). destruct (run ts l') as [rs l''] eqn:Hrs. cbn [fst] in *.
  destruct t as [now|e' c now].
  - constructor; [done |]. apply IH. destruct (run_turn_other e (TGlobal now) l I) as [H1 H2].
    rewrite Hr in H1, H2. cbn [snd] in H1, H2. unfold free. by rewrite H1, H2.
  - destruct (decide (e' = e)) as [->|Hne].
    + assert (Hr' : r = None /\ perEndpoint l' = perEndpoint l /\ buckets l' !! e = Some None).
      { cbn in Hr. unfold attempt_endpoint, bucketFor in Hr. destruct Hb as [Hb|Hb]; rewrite Hb in Hr.
        - assert (match perEndpoint l !! e with Some lim => if enabled lim then Some (newBucket c lim) else None | None => None end
                  = None) as Hn by (destruct Hp as [-> | (lim & -> & ->)]; done).
          rewrite Hn in Hr. injection Hr as <- <-. cbn. by rewrite lookup_insert_eq.
        - injection Hr as <- <-. cbn. by rewrite lookup_insert_eq. }
      destruct Hr' as (-> & Hl' & Hbl). constructor; [done |]. apply IH. split; [by rewrite Hl' | by right].
    + constructor; [cbn; intros c' now' [= ? _ _]; congruence |]. apply IH.
      destruct (run_turn_other e (TEndpoint e' c now) l Hne) as [H1 H2].
      rewrite Hr in H1, H2. cbn [snd] in H1, H2. unfold free. by rewrite H1, H2.
Qed.

Lemma attempt_opt_sleep now (b : option (bucket F)) d b' : attempt_opt now b = (Some d, b') -> Millisecond <= d.
Proof using Type.
  destruct b as [b|]; [| done]. cbn. unfold attempt. destruct (f_le _ _); [done |].
  intros [= <- _]. case_decide; lia.
Qed.

Lemma run_sleeps ts (l : Limiter F) : Forall (fun r => forall d, r.2 = Some d -> Millisecond <= d) (fst (run ts l)).
Proof using Type.
  revert l. induction ts as [|t ts IH]; intros l; [constructor |]. cbn [run].
  destruct (run_turn t l) as [r l'] eqn:Hr. specialize (IH l'). destruct (run ts l') as [rs l'']. cbn [fst] in *.
  constructor; [| done]. cbn. intros d ->. destruct t as [now|e c now]; cbn in Hr.
  - unfold attempt_global in Hr. destruct (attempt_opt now (globalBkt l)) as [r b'] eqn:Ha.
    injection Hr as -> _. by eapply attempt_opt_sleep.
  - unfold attempt_endpoint in Hr. destruct (bucketFor c e l) as [b l1].
    destruct (attempt_opt now b) as [r b'] eqn:Ha. injection Hr as -> _. by eapply attempt_opt_sleep.
Qed.

(** All the clock readings of a run lie between its start and its end. *)
Definition within (t0 T : Z) (ts : list turn) : Prop :=
  Forall (fun t => match t with TGlobal now => t0 <= now <= T | TEndpoint _ c now => t0 <= c <= T /\ t0 <= now <= T end) ts.

Lemma within_endpoint t0 T e ts : within t0 T ts ->
  Forall (fun now => now <= T) (endpoint_times e ts) /\ forall c, first_created e ts = Some c -> t0 <= c <= T.
Proof using Type.
  unfold within, endpoint_times, first_created. induction 1 as [|t ts Ht _ [IH1 IH2]]; [done |].
  destruct t as [now|e' c now]; cbn [omap list_omap]; [done |]. destruct (decide (e' = e)); [| done].
  split; [constructor; [lia | done] |]. intros c' [= <-]. lia.
Qed.

Lemma within_global t0 T ts : within t0 T ts -> Forall (fun now => now <= T) (global_times ts).
Proof using Type.
  unfold within, global_times. induction 1 as [|t ts Ht _ IH]; [done |].
  destruct t as [now|e' c now]; cbn [omap list_omap]; [constructor; [lia | done] | done].
Qed.
End limits.

(** C27: in every interleaving of the turns of concurrent calls over a period, the
    limiter admits through an endpoint's bucket, and through the global bucket, no
    more calls than the burst, plus the rate times the period, plus the roundings
    of the floating-point arithmetic (one part in 2^53 per operation); an endpoint
    without a limit is never held back by a bucket of its own, whatever the limits
    of the others (the global bucket holds it back as any other); and a call that is
    not admitted sleeps at least a millisecond. The bounds are for limits of moderate
    size ([moderate]). *)
Theorem rate_limiter_bound {F} `{FloatLaws F} (g : Limit F) (per : gmap string (Limit F)) (ts : list turn)
    (e : string) (t0 T : Z) :
  0 < t0 <= T -> within t0 T ts ->
  let rs := fst (run ts (NewLimiter t0 g per)) in
  (forall lim, per !! e = Some lim -> moderate (normalizeLimit lim) ->
    (inject_Z (endpoint_admissions e rs)
     <= allowance (normalizeLimit lim) (Z.of_nat (length (endpoint_times e ts))) (T - t0))%Q)
  /\ (moderate (normalizeLimit g) ->
    (inject_Z (global_admissions rs) <= allowance (normalizeLimit g) (Z.of_nat (length (global_times ts))) (T - t0))%Q)
  /\ (per !! e = None -> Forall (fun r => forall c now, r.1 = TEndpoint e c now -> r.2 = None) rs)
  /\ Forall (fun r => forall d, r.2 = Some d -> Millisecond <= d) rs.
Proof.
  intros Ht Hw rs. unfold rs. split; [|split; [|split]].
  - intros lim Hl Hm. destruct (within_endpoint t0 T e ts Hw) as [Htimes Hcr].
    assert (Hp : perEndpoint (NewLimiter t0 g per) !! e = Some (normalizeLimit lim)) by (cbn; by rewrite lookup_fmap, Hl).
    pose proof (run_uncreated e ts (NewLimiter t0 g per) (normalizeLimit lim) (lookup_empty e) Hp
      (moderate_enabled _ Hm)) as Hrun.
    destruct (first_created e ts) as [c|]; rewrite Hrun.
    + apply (bucket_bound (normalizeLimit lim) (endpoint_times e ts) c t0 T); [done | lia | by apply Hcr | done].
    + eapply Qle_trans; [| apply (bucket_bound (normalizeLimit lim) (endpoint_times e ts) t0 t0 T); [done | lia | lia | done]].
      apply inject_le, admitted_nonneg.
  - intros Hm. rewrite (run_global ts (NewLimiter t0 g per) (newBucket t0 (normalizeLimit g))).
    + apply (bucket_bound (normalizeLimit g) (global_times ts) t0 t0 T); [done | lia | lia | by apply (within_global t0)].
    + cbn. by rewrite (moderate_enabled _ Hm).
  - intros Hn. apply run_free. split; [left; cbn; by rewrite lookup_fmap, Hn | left; apply lookup_empty].
  - apply run_sleeps.
Qed.

(** ** Exact arithmetic satisfies the laws *)
#[global] Instance Q_float : Float Q := {
  f_of_Z := inject_Z;
  f_add := Qplus;
  f_sub := Qminus;
  f_mul := Qmult;
  f_div := Qdiv;
  f_le := Qle_bool;
  f_to_int64 q := Qnum q / Z.pos (Qden q);
}.

#[global] Instance Q_float_laws : FloatLaws Q.
Proof.
  assert (Hrel : forall e : Q, (0 <= e)%Q -> ((1 - ulp) * e <= e <= (1 + ulp) * e)%Q) by (intros e He; unfold ulp; lra).
  apply (Build_FloatLaws Q Q_float (fun q => q)); cbn.
  - reflexivity.
  - intros a b. apply Qle_bool_iff.
  - intros a b Ha Hb _. apply Hrel. lra.
  - intros a b Ha Hb _. apply Hrel. by apply Qmult_le_0_compat.
  - intros a b Ha Hb _. apply Hrel. apply Qmult_le_0_compat; [done |]. apply Qinv_le_0_compat. lra.
  - intros a one -> _. reflexivity.
Defined.

(** Two calls a second, three at once: in one second and six turns, at most five. *)
Definition demo_limiter : Limiter Q := NewLimiter 1 (mkLimit 0%Q 0) {["/hq/KL" := mkLimit 2%Q 3]}.

Definition demo_turns : list turn :=
  map (fun t => TEndpoint "/hq/KL" (1 + t * 200000000) (1 + t * 200000000)) [0; 1; 2; 3; 4; 5].

Lemma rate_limiter_bound_witness :
  endpoint_admissions "/hq/KL" (fst (run demo_turns demo_limiter)) = 5
  /\ (5 <= allowance (mkLimit 2%Q 3) 6 1000000000)%Q.
Proof.
  assert (Hrun : endpoint_admissions "/hq/KL" (fst (run demo_turns demo_limiter)) = 5) by (vm_compute; reflexivity).
  split; [exact Hrun |]. change 5%Q with (inject_Z 5). rewrite <- Hrun.
  refine (proj1 (rate_limiter_bound (mkLimit 0%Q 0) {["/hq/KL" := mkLimit 2%Q 3]} demo_turns "/hq/KL" 1 1000000001 _ _) (mkLimit 2%Q 3) eq_refl _).
  - lia.
  - unfold within, demo_turns. repeat constructor; lia.
  - split; cbn; [split; vm_compute; discriminate | split; apply Z.leb_le; vm_compute; reflexivity].
Defined.
