(* ===== verification/Stream.v ===== *)
(** The released streaming client [src/pkg/hstong/stream] ([stream.go],
    [trade.go]): its options, the subscriptions with their two drop-oldest
    channels, and the calls that work on them concurrently: [Connect] with the
    three goroutines it starts, [Subscribe], [SubscribeTrade], [Cancel], the
    delivery of a notification, the reconnect hook and [Close].

    Subscriptions are pointers, so they live in a heap and are named by numbers.
    A call, and each goroutine, is a thread with a program counter; one step is
    what the code does between two points where another goroutine can be seen: a
    section under [mu] or [sub.mu], a request sent, a reply received. The replies,
    the order in which a map is ranged over and what a consumer takes from its
    channel meanwhile are the choice of a step.

    Of the push client below ([src/internal/push/client.go], whose goroutines
    [PushConc] models) the connections are kept: which one is current, which are
    open, and which one each [Run] reads. A [Run] leaves a read only when its own
    connection is closed or fails. Its dispatch and its reports are not repeated
    here: a delivery is a call of [deliver], and the error stream answers what the
    choice says until it is closed. *)
From S2P Require Import Prelude Chan Types Errs Domain PushKeys PushOrch PushOrchData PushClient PushEvents Service MarketReleased.
Local Open Scope Z_scope.

Create HintDb stream.

(** ** Errors and limits *)
Definition ErrClosed : error := ESentinel "stream: client is closed".
Definition ErrNoClient : error := ESentinel "stream: no underlying client".
Definition ErrReconnected : string := "stream: push connection re-established".

Definition defaultBuffer : Z := 64.
Definition resubscribeTimeout : Z := 10 * 1000000000.

Definition marketNotifyTypes : list Z :=
  [BasicQotNotifyMsgType; TickerNotifyMsgType; BrokerQueueNotifyMsgType; OrderBookNotifyMsgType].

Definition tradeNotifyTypes : list Z :=
  [TrsStockDeliverMsgType; TradeStockDeliverMsgType; FuturesTradeStockDeliverMsgType].

(** ** Options *)
Record options := mkOptions {
  pushAddr : string; dial : bool; minReconnect : Z; maxReconnect : Z; buffer : Z; trade_manager : bool;
}.

(** A dialer and a trade manager are interfaces: whether one is attached is what
    the client looks at. *)
Inductive Option :=
  | WithPushAddr (addr : string)
  | WithDialer (d : bool)
  | WithReconnect (min max : Z)
  | WithBuffer (n : Z)
  | WithTradeManager (t : bool).

Definition apply_stream_option (o : options) (opt : option Option) : options :=
  match opt with
  | None => o
  | Some (WithPushAddr addr) => mkOptions addr (dial o) (minReconnect o) (maxReconnect o) (buffer o) (trade_manager o)
  | Some (WithDialer d) => mkOptions (pushAddr o) d (minReconnect o) (maxReconnect o) (buffer o) (trade_manager o)
  | Some (WithReconnect min max) =>
      mkOptions (pushAddr o) (dial o) (if decide (min > 0) then min else minReconnect o)
        (if decide (max > 0) then max else maxReconnect o) (buffer o) (trade_manager o)
  | Some (WithBuffer n) =>
      mkOptions (pushAddr o) (dial o) (minReconnect o) (maxReconnect o) (if decide (n > 0) then n else buffer o)
        (trade_manager o)
  | Some (WithTradeManager t) => mkOptions (pushAddr o) (dial o) (minReconnect o) (maxReconnect o) (buffer o) t
  end.

(** What the client of [src/client] says of itself. *)
Record http_client := mkHttpClient { PushAddr : string; VerifyPush : bool; PlatformPublicKey : bytestr }.

Definition resolve (c : option http_client) (opts : list (option Option)) : options :=
  let o := foldl apply_stream_option (mkOptions "" false 0 0 defaultBuffer false) opts in
  let addr := if decide (pushAddr o = "") then from_option PushAddr "" c else pushAddr o in
  let addr := if decide (addr = "") then DefaultAddr else addr in
  mkOptions addr (dial o) (minReconnect o) (maxReconnect o)
    (if decide (buffer o <= 0) then defaultBuffer else buffer o) (trade_manager o).

(** The options of the push client that [New] builds. *)
Definition push_options (c : option http_client) (o : options) : list PushClient.Option :=
  [WithAddr (pushAddr o); PushClient.WithReconnect (minReconnect o) (maxReconnect o)]
  ++ match c with
     | Some c =>
         if VerifyPush c && bool_decide (PlatformPublicKey c <> [])
         then [WithVerification (PlatformPublicKey c) true] else []
     | None => []
     end.

(** The notification types [New] registers [deliver] for. *)
Definition registered_types : list Z := marketNotifyTypes ++ tradeNotifyTypes.

(** What the methods of a client use of its construction. *)
Record config := mkConfig { cf_client : bool; cf_trade : bool; cf_buffer : nat }.

Definition New (c : option http_client) (opts : list (option Option)) : config :=
  let o := resolve c opts in mkConfig (bool_decide (is_Some c)) (trade_manager o) (Z.to_nat (buffer o)).

(** ** Events *)
Definition notifyTypeForTopic (t : Z) : option Z :=
  switch t [
    (TopicBasicQot, Some BasicQotNotifyMsgType); (TopicQuoteVariant35, Some BasicQotNotifyMsgType);
    (TopicTicker, Some TickerNotifyMsgType); (TopicTickVariant27, Some TickerNotifyMsgType);
    (TopicTickVariant28, Some TickerNotifyMsgType); (TopicTickVariant37, Some TickerNotifyMsgType);
    (TopicBroker, Some BrokerQueueNotifyMsgType);
    (TopicOrderBook, Some OrderBookNotifyMsgType); (TopicOrderBookArcabook, Some OrderBookNotifyMsgType);
    (TopicOrderBookTotalView, Some OrderBookNotifyMsgType); (TopicOrderBookVariant36, Some OrderBookNotifyMsgType)
  ] None.

(** The zero time, or a number of milliseconds since the epoch: [int64] of the
    [uint64] on the wire. *)
Definition notifyTime (ms : Z) : option Z := if decide (ms = 0) then None else Some (swrap 64 ms).

Record Event := mkEvent { ev_Type : Z; ev_ID : string; ev_Time : option Z; ev_Payload : option Message }.

Definition Event_BasicQot (e : Event) : option (option BasicQotNotify) :=
  match ev_Payload e with Some (MBasicQot m) => Some m | _ => None end.
Definition Event_Ticker (e : Event) : option (option TickerNotify) :=
  match ev_Payload e with Some (MTicker m) => Some m | _ => None end.
Definition Event_OrderBook (e : Event) : option (option OrderBookFullNotify) :=
  match ev_Payload e with Some (MOrderBookFull m) => Some m | _ => None end.
Definition Event_Broker (e : Event) : option (option BrokerNotify) :=
  match ev_Payload e with Some (MBroker m) => Some m | _ => None end.
Definition TradeDeliver (e : Event) : option (option TradeStockDeliverNotify) :=
  if decide (ev_Type e <> TradeStockDeliverMsgType /\ ev_Type e <> TrsStockDeliverMsgType) then None
  else match ev_Payload e with Some (MTradeStockDeliver m) => Some m | _ => None end.
Definition FuturesTradeDeliver (e : Event) : option (option TradeStockDeliverNotify) :=
  if decide (ev_Type e <> FuturesTradeStockDeliverMsgType) then None
  else match ev_Payload e with Some (MTradeStockDeliver m) => Some m | _ => None end.

(** [reconnectNotice] is [ETagged]: [Is] answers for the sentinel, [Unwrap] for
    the cause. *)
Definition newReconnectNotice (cause : option error) : error :=
  match cause with
  | None => ESentinel ErrReconnected
  | Some e => ETagged ErrReconnected (Some e)
  end.

Definition isVerificationError (e : error) : bool :=
  is_sentinel e PushClient.ErrSignatureMismatch || is_sentinel e ErrMissingSignature || is_sentinel e ErrNoPublicKey.

(** ** Subscriptions *)
Record Subscription := mkSubscription {
  topicID : Z;
  securities : list (option Security);
  trade : bool;
  accepts : list Z;
  updates : list Event;         (** the queue of the channel *)
  errs : list error;
  closed : bool;
  closes : nat;                 (** how often the two channels were closed *)
  panicked : bool;              (** ghost: a send on a closed channel *)
  taken : list Event;           (** ghost: what the consumer received *)
  accepted : list Event;        (** ghost: what [sendUpdate] enqueued *)
}.

Definition newSubscription (topic : Z) (secs : list (option Security)) (notifyType : Z) : Subscription :=
  mkSubscription topic secs false [notifyType] [] [] false 0 false [] [].

Definition newTradeSubscription : Subscription :=
  mkSubscription 0 [] true tradeNotifyTypes [] [] false 0 false [] [].

Definition acceptsType (t : Z) (x : Subscription) : bool := existsb (Z.eqb t) (accepts x).

Definition Securities (x : Subscription) : list (option Security) := securities x.

Definition sendUpdate (cap : nat) (ch : choice) (e : Event) (x : Subscription) : Subscription :=
  if closed x then x else
  let '(got, queue, _) := enqueue cap ch (updates x) e in
  mkSubscription (topicID x) (securities x) (trade x) (accepts x) queue (errs x) false (closes x)
    (panicked x || bool_decide (0 < closes x)%nat) (taken x ++ got) (accepted x ++ [e]).

Definition sendErr (cap : nat) (ch : choice) (e : option error) (x : Subscription) : Subscription :=
  match e with
  | None => x
  | Some e =>
      if closed x then x else
      let '(_, queue, _) := enqueue cap ch (errs x) e in
      mkSubscription (topicID x) (securities x) (trade x) (accepts x) (updates x) queue false (closes x)
        (panicked x || bool_decide (0 < closes x)%nat) (taken x) (accepted x)
  end.

(** [close]: its [closeOnce] runs the section under [sub.mu] once. *)
Definition close (x : Subscription) : Subscription :=
  if decide (closes x = 0%nat) then
    mkSubscription (topicID x) (securities x) (trade x) (accepts x) (updates x) (errs x) true (S (closes x))
      (panicked x) (taken x) (accepted x)
  else x.

(** A receive by the consumer from one of the channels. *)
Definition recv_update (x : Subscription) : Subscription :=
  mkSubscription (topicID x) (securities x) (trade x) (accepts x) (drop 1 (updates x)) (errs x) (closed x) (closes x)
    (panicked x) (taken x ++ take 1 (updates x)) (accepted x).
Definition recv_err (x : Subscription) : Subscription :=
  mkSubscription (topicID x) (securities x) (trade x) (accepts x) (updates x) (drop 1 (errs x)) (closed x) (closes x)
    (panicked x) (taken x) (accepted x).

(** ** The client *)
Inductive request :=
  | HqSubscribe (topic : Z) (secs : list (option Security))
  | HqUnsubscribe (topic : Z) (secs : list (option Security))
  | TradeSubscribe
  | TradeUnsubscribe.

(** [/hq/Subscribe] and [/hq/Unsubscribe] go through the market manager, which
    checks the topic and the instruments first. *)
Definition market_checks (op : string) (topic : Z) (secs : list (option Security)) : option error :=
  match and_then (validateTopic op topic) (validateSecurityList op secs) with Ret e => e | Panic => None end.

(** Where a thread stands. A list is the rest of a loop, [all] the snapshot it
    began with. *)
Inductive pc :=
  | Subscribe_check (topic : Z) (secs : list (option Security))
  | Subscribe_send (topic ty : Z) (secs : list (option Security))
  | Subscribe_sent (topic ty : Z) (secs : list (option Security))
  | Subscribe_add (topic ty : Z) (secs : list (option Security))
  | Trade_check
  | Trade_send
  | Trade_sent
  | Trade_add
  | Cancel_lock (i : nat)
  | Cancel_send (i : nat) (r : request)
  | Cancel_sent (i : nat)
  | Cancel_close (i : nat) (e : option error)
  | Connect_lock
  | Connect_push (c : nat)
  | Connect_start (c : nat)
  | Run (c : nat)
  | Run_ctx (c : nat)
  | Run_current (c : nat)
  | Run_dial (c : nat) (cause : option (option error))
  | Run_set (c x : nat) (cause : option (option error))
  | Run_read (c x : nat)
  | Run_broken (c : nat) (cause : option error)
  | Reconnect_lock (c : nat) (cause : option error)
  | Reconnect_notify (c : nat) (cause : option error) (todo all : list nat) (active : bool)
  | Reconnect_market (c : nat) (todo all : list nat) (active : bool)
  | Reconnect_sent (c i : nat) (todo all : list nat) (active : bool)
  | Reconnect_trade (c : nat) (all : list nat)
  | Reconnect_failed (c : nat) (e : error) (todo : list nat)
  | Watch (c : nat)
  | Forward (c : nat)
  | Broadcast (c : nat) (e : error)
  | Broadcast_send (c : nat) (e : error) (todo : list nat)
  | Shutdown_enter (user : bool)
  | Shutdown_lock (user : bool)
  | Shutdown_cancel (user : bool) (c : option nat) (todo : list nat)
  | Shutdown_push (user : bool) (todo : list nat)
  | Shutdown_conn (user : bool) (todo : list nat)
  | Shutdown_done (user : bool) (todo : list nat)
  | Shutdown_subs (user : bool) (todo : list nat)
  | Close_wait
  | Deliver_lock (n : Notification Message)
  | Deliver (e : Event) (todo all : list nat).

Inductive result :=
  | RErr (e : option error)
  | RSub (i : nat)
  | RClosed                     (** [Close] returned *)
  | RDelivered (e : Event) (all : list nat).

Inductive once := NotClosed | Closing | Closed.

(** The push client: [closed], the current connection, the connections open on
    the network, how many were dialled (the next one's number), whether its error
    stream is closed; ghost: how often [Run] was started. *)
Record push_client := mkPush {
  p_closed : bool; p_conn : option nat; p_live : gset nat; p_dials : nat; p_errs_closed : bool; p_runs : nat;
}.

(** [dial], [setConn], [closeConn]. *)
Definition push_dial (u : push_client) : push_client :=
  mkPush (p_closed u) (p_conn u) ({[p_dials u]} ∪ p_live u) (S (p_dials u)) (p_errs_closed u) (p_runs u).
Definition push_set (x : nat) (u : push_client) : push_client :=
  mkPush (p_closed u) (Some x) (p_live u) (p_dials u) (p_errs_closed u) (p_runs u).
Definition push_close_conn (u : push_client) : push_client :=
  match p_conn u with
  | Some x => mkPush (p_closed u) None (p_live u ∖ {[x]}) (p_dials u) (p_errs_closed u) (p_runs u)
  | None => u
  end.

(** [Connect], its dial answering [reply]: the connection it dials is its own until
    the last section, which installs it only if there is none. *)
Definition push_connect (reply : option error) (u : push_client) : option error * push_client :=
  if p_closed u then (Some PushClient.ErrClosed, u)
  else match p_conn u with
  | Some _ => (None, u)
  | None => match reply with
            | Some e => (Some e, u)
            | None => (None, push_set (p_dials u) (push_dial u))
            end
  end.

(** [Close]: the flag, then the connection taken and closed and the error stream
    closed. *)
Definition push_mark (u : push_client) : push_client :=
  mkPush true (p_conn u) (p_live u) (p_dials u) (p_errs_closed u) (p_runs u).
Definition push_shut (u : push_client) : push_client :=
  let u := push_close_conn u in mkPush (p_closed u) (p_conn u) (p_live u) (p_dials u) true (p_runs u).
Definition push_start (u : push_client) : push_client :=
  mkPush (p_closed u) (p_conn u) (p_live u) (p_dials u) (p_errs_closed u) (S (p_runs u)).

Record st := mkSt {
  heap : gmap nat Subscription;
  subs : gset nat;
  tradeSubs : Z;
  started : bool;
  is_closed : bool;
  close_once : once;
  cancel : option nat;          (** the context whose cancel function [s.cancel] is *)
  ctx_over : gset nat;          (** the contexts that are cancelled *)
  pushc : push_client;
  done_closes : nat;            (** how often [done] was closed *)
  calls : gmap nat pc;
  goroutines : gset nat;        (** the threads that [wg] counts *)
  results : gmap nat result;
  log : list request;
}.

Definition init : st := mkSt ∅ ∅ 0 false false NotClosed None ∅ (mkPush false None ∅ 0 false 0) 0 ∅ ∅ ∅ [].

Definition w_heap v s := match s with mkSt _ b c d e f g h i j k l m n => mkSt v b c d e f g h i j k l m n end.
Definition w_subs v s := match s with mkSt a _ c d e f g h i j k l m n => mkSt a v c d e f g h i j k l m n end.
Definition w_tradeSubs v s := match s with mkSt a b _ d e f g h i j k l m n => mkSt a b v d e f g h i j k l m n end.
Definition w_started v s := match s with mkSt a b c _ e f g h i j k l m n => mkSt a b c v e f g h i j k l m n end.
Definition w_closed v s := match s with mkSt a b c d _ f g h i j k l m n => mkSt a b c d v f g h i j k l m n end.
Definition w_once v s := match s with mkSt a b c d e _ g h i j k l m n => mkSt a b c d e v g h i j k l m n end.
Definition w_cancel v s := match s with mkSt a b c d e f _ h i j k l m n => mkSt a b c d e f v h i j k l m n end.
Definition w_over v s := match s with mkSt a b c d e f g _ i j k l m n => mkSt a b c d e f g v i j k l m n end.
Definition w_push v s := match s with mkSt a b c d e f g h _ j k l m n => mkSt a b c d e f g h v j k l m n end.
Definition w_done v s := match s with mkSt a b c d e f g h i _ k l m n => mkSt a b c d e f g h i v k l m n end.
Definition w_calls v s := match s with mkSt a b c d e f g h i j _ l m n => mkSt a b c d e f g h i j v l m n end.
Definition w_wg v s := match s with mkSt a b c d e f g h i j k _ m n => mkSt a b c d e f g h i j k v m n end.
Definition w_results v s := match s with mkSt a b c d e f g h i j k l _ n => mkSt a b c d e f g h i j k l v n end.
Definition w_log v s := match s with mkSt a b c d e f g h i j k l m _ => mkSt a b c d e f g h i j k l m v end.

Definition push_closed (s : st) : bool := p_closed (pushc s).
Definition on_push (f : push_client -> push_client) (s : st) : st := w_push (f (pushc s)) s.

Definition set_call (t : nat) (p : pc) (s : st) : st := w_calls (<[t := p]> (calls s)) s.
Definition return_ (t : nat) (r : result) (s : st) : st :=
  w_results (<[t := r]> (results s)) (w_calls (delete t (calls s)) s).
(** [defer s.wg.Done()] *)
Definition exit_ (t : nat) (s : st) : st := w_wg (goroutines s ∖ {[t]}) (w_calls (delete t (calls s)) s).
Definition send (r : request) (s : st) : st := w_log (log s ++ [r]) s.
Definition cancel_ctx (c : option nat) (s : st) : st :=
  match c with Some c => w_over ({[c]} ∪ ctx_over s) s | None => s end.
Definition on_sub (f : Subscription -> Subscription) (i : nat) (s : st) : st := w_heap (alter f i (heap s)) s.

(** What a step observes beyond the state: the reply and the consumer, the order
    of a range over [subs], a fresh number, and the event a goroutine waits for. *)
Record move := mkMove { mv_ch : choice; mv_order : list nat; mv_fresh : nat; mv_event : option (option error) }.

(** The slice a locked section copies [subs] into. *)
Definition snapshot (m : move) (s : st) : list nat :=
  if decide (NoDup (mv_order m) /\ list_to_set (mv_order m) = subs s) then mv_order m else elements (subs s).

Section methods.
Context (cf : config).

Definition is_trade (s : st) (i : nat) : bool := from_option trade false (heap s !! i).

(** *** Subscribing *)
Definition Subscribe (t : nat) (topic : Z) (secs : list (option Security)) (s : st) : st :=
  if negb (cf_client cf) then return_ t (RErr (Some ErrNoClient)) s
  else match notifyTypeForTopic topic with
  | None => return_ t (RErr (Some (Errs.New StatusInvalidParam "stream.Subscribe" ("unknown topicId " +:+ itoa topic)))) s
  | Some _ =>
      if decide (secs = [])
      then return_ t (RErr (Some (Errs.New StatusInvalidParam "stream.Subscribe" "security list must not be empty"))) s
      else set_call t (Subscribe_check topic secs) s
  end.

Definition subscribe_check (t : nat) (topic : Z) (secs : list (option Security)) (s : st) : st :=
  if is_closed s then return_ t (RErr (Some ErrClosed)) s
  else set_call t (Subscribe_send topic (default 0 (notifyTypeForTopic topic)) secs) s.

Definition subscribe_send (t : nat) (topic ty : Z) (secs : list (option Security)) (s : st) : st :=
  match market_checks opSubscribe topic secs with
  | Some e => return_ t (RErr (Some e)) s
  | None => set_call t (Subscribe_sent topic ty secs) (send (HqSubscribe topic secs) s)
  end.

(** The registration of a new subscription, under [mu]. *)
Definition add_sub (t i : nat) (x : Subscription) (s : st) : option st :=
  if is_closed s then Some (return_ t (RErr (Some ErrClosed)) s)
  else if decide (heap s !! i = None) then
    let s := w_subs ({[i]} ∪ subs s) (w_heap (<[i := x]> (heap s)) s) in
    Some (return_ t (RSub i) (if trade x then w_tradeSubs (tradeSubs s + 1) s else s))
  else None.

Definition SubscribeTrade (t : nat) (s : st) : st :=
  if negb (cf_client cf) then return_ t (RErr (Some ErrNoClient)) s else set_call t Trade_check s.

Definition trade_check (t : nat) (s : st) : st :=
  if is_closed s then return_ t (RErr (Some ErrClosed)) s
  else if bool_decide (tradeSubs s = 0) && cf_trade cf then set_call t Trade_send s
  else set_call t Trade_add s.

(** *** Cancelling *)
Definition cancel_lock (t i : nat) (s : st) : st :=
  let active := bool_decide (i ∈ subs s) in
  let s := w_subs (subs s ∖ {[i]}) s in
  let counted := active && is_trade s i in
  let last := counted && bool_decide (tradeSubs s - 1 <= 0) in
  let s := if counted then w_tradeSubs (if last then 0 else tradeSubs s - 1) s else s in
  if active && negb (is_closed s) then
    if is_trade s i then
      if last && cf_trade cf then set_call t (Cancel_send i TradeUnsubscribe) s else set_call t (Cancel_close i None) s
    else
      match heap s !! i with
      | Some x =>
          if cf_client cf then set_call t (Cancel_send i (HqUnsubscribe (topicID x) (securities x))) s
          else set_call t (Cancel_close i None) s
      | None => set_call t (Cancel_close i None) s
      end
  else set_call t (Cancel_close i None) s.

Definition cancel_send (t i : nat) (r : request) (s : st) : st :=
  match r with
  | HqUnsubscribe topic secs =>
      match market_checks opUnsubscribe topic secs with
      | Some e => set_call t (Cancel_close i (Some e)) s
      | None => set_call t (Cancel_sent i) (send r s)
      end
  | _ => set_call t (Cancel_sent i) (send r s)
  end.

(** *** Connecting *)
Definition connect_lock (t : nat) (s : st) : st :=
  if is_closed s then return_ t (RErr (Some ErrClosed)) s
  else if started s then return_ t (RErr None) s
  else if negb (cf_client cf) then return_ t (RErr (Some ErrNoClient)) s
  else set_call t (Connect_push t) (w_cancel (Some t) s).

Definition connect_pushed (reply : option error) (t c : nat) (s : st) : st :=
  let '(e, u) := push_connect reply (pushc s) in
  let s := w_push u s in
  match e with
  | Some e => return_ t (RErr (Some e)) (cancel_ctx (cancel s) s)
  | None => set_call t (Connect_start c) s
  end.

Definition unused (n : nat) (s : st) : Prop := calls s !! n = None /\ results s !! n = None.

(** [wg.Add(3)] and the three goroutines. *)
Definition spawn (c f : nat) (s : st) : st :=
  w_wg ({[f; S f; S (S f)]} ∪ goroutines s)
    (set_call f (Run c) (set_call (S f) (Watch c) (set_call (S (S f)) (Forward c) s))).

Definition connect_start (t c f : nat) (s : st) : option st :=
  if is_closed s then Some (return_ t (RErr (Some ErrClosed)) s)
  else if decide (unused f s /\ unused (S f) s /\ unused (S (S f)) s) then
    Some (spawn c f (return_ t (RErr None) (on_push push_start (w_started true s))))
  else None.

(** *** The reconnect hook, called by [Run] *)
Definition reconnect_lock (m : move) (t c : nat) (cause : option error) (s : st) : st :=
  if is_closed s then set_call t (Run c) s
  else
    let all := snapshot m s in
    set_call t (Reconnect_notify c cause all all (bool_decide (0 < tradeSubs s))) s.

Definition reconnect_notify (m : move) (t c : nat) (cause : option error) (todo all : list nat) (active : bool)
    (s : st) : st :=
  match todo with
  | [] => set_call t (Reconnect_market c all all active) s
  | i :: todo =>
      set_call t (Reconnect_notify c cause todo all active)
        (on_sub (sendErr (cf_buffer cf) (mv_ch m) (Some (newReconnectNotice cause))) i s)
  end.

Definition resubscribe_error (x : Subscription) (e : error) : error :=
  EWrap ("stream: resubscribe " +:+ itoa (topicID x) +:+ ": " +:+ error_text e) e.

(** The report of a re-subscribe that failed, to the subscription itself. *)
Definition resubscribe_report (m : move) (e : option error) (i : nat) (s : st) : st :=
  match e with
  | None => s
  | Some e => on_sub (fun x => sendErr (cf_buffer cf) (mv_ch m) (Some (resubscribe_error x e)) x) i s
  end.

Definition reconnect_market (m : move) (t c : nat) (todo all : list nat) (active : bool) (s : st) : st :=
  match todo with
  | i :: todo =>
      match heap s !! i with
      | Some x =>
          if trade x then set_call t (Reconnect_market c todo all active) s
          else
            match market_checks opSubscribe (topicID x) (securities x) with
            | Some e => set_call t (Reconnect_market c todo all active) (resubscribe_report m (Some e) i s)
            | None => set_call t (Reconnect_sent c i todo all active) (send (HqSubscribe (topicID x) (securities x)) s)
            end
      | None => set_call t (Reconnect_market c todo all active) s
      end
  | [] => if active && cf_trade cf then set_call t (Reconnect_trade c all) (send TradeSubscribe s)
          else set_call t (Run c) s
  end.

Definition reconnect_sent (m : move) (t c i : nat) (todo all : list nat) (active : bool) (s : st) : st :=
  set_call t (Reconnect_market c todo all active) (resubscribe_report m (ch_reply (mv_ch m)) i s).

Definition reconnect_trade (m : move) (t c : nat) (all : list nat) (s : st) : st :=
  match ch_reply (mv_ch m) with
  | None => set_call t (Run c) s
  | Some e => set_call t (Reconnect_failed c (EWrap ("stream: resubscribe trade push: " +:+ error_text e) e) all) s
  end.

Definition reconnect_failed (m : move) (t c : nat) (e : error) (todo : list nat) (s : st) : st :=
  match todo with
  | [] => set_call t (Run c) s
  | i :: todo =>
      set_call t (Reconnect_failed c e todo)
        (on_sub (fun x => if trade x then sendErr (cf_buffer cf) (mv_ch m) (Some e) x else x) i s)
  end.

(** *** The goroutines *)
Definition ctx_done (c : nat) (s : st) : bool := bool_decide (c ∈ ctx_over s).

(** [push.Run] over the context [c]: the checks at the top of its loop, the
    connection to read, the dials, and [setConn], which stores the connection
    whether or not there is one; after a reconnect the hook is called. *)
Definition push_run_top (t c : nat) (s : st) : st :=
  if push_closed s then exit_ t s else set_call t (Run_ctx c) s.

Definition push_run_ctx (t c : nat) (s : st) : st :=
  if ctx_done c s then exit_ t s else set_call t (Run_current c) s.

Definition push_run_current (t c : nat) (s : st) : st :=
  match p_conn (pushc s) with
  | Some x => set_call t (Run_read c x) s
  | None => set_call t (Run_dial c None) s
  end.

Definition push_run_dial (m : move) (t c : nat) (cause : option (option error)) (s : st) : st :=
  match ch_reply (mv_ch m), cause with
  | None, _ => set_call t (Run_set c (p_dials (pushc s)) cause) (on_push push_dial s)
  | Some _, None => if ctx_done c s then exit_ t s else set_call t (Run c) s
  | Some _, Some _ => if ctx_done c s || push_closed s then exit_ t s else set_call t (Run_dial c cause) s
  end.

Definition push_run_set (t c x : nat) (cause : option (option error)) (s : st) : st :=
  let s := on_push (push_set x) s in
  match cause with
  | None => set_call t (Run c) s
  | Some e => set_call t (Reconnect_lock c e) s
  end.

(** [readLoop] on the connection [x] and the [closeConn] after it: the read fails
    when [x] has been closed, or when the network fails ([mv_event]). *)
Definition push_run_read (m : move) (t c x : nat) (s : st) : option st :=
  match mv_event m with
  | Some cause => Some (set_call t (Run_broken c cause) (on_push push_close_conn s))
  | None =>
      if decide (x ∈ p_live (pushc s)) then None
      else Some (set_call t (Run_broken c (Some (EText "use of closed network connection"))) (on_push push_close_conn s))
  end.

Definition push_run_broken (t c : nat) (cause : option error) (s : st) : st :=
  if push_closed s || ctx_done c s then exit_ t s else set_call t (Run_dial c (Some cause)) s.

Definition forward_step (m : move) (t c : nat) (s : st) : option st :=
  match mv_event m with
  | Some (Some e) => Some (if isVerificationError e then set_call t (Broadcast c e) s else s)
  | _ => if ctx_done c s || p_errs_closed (pushc s) then Some (exit_ t s) else None
  end.

Definition broadcast (m : move) (t c : nat) (e : error) (s : st) : st :=
  set_call t (Broadcast_send c e (snapshot m s)) s.

Definition broadcast_send (m : move) (t c : nat) (e : error) (todo : list nat) (s : st) : st :=
  match todo with
  | [] => set_call t (Forward c) s
  | i :: todo => set_call t (Broadcast_send c e todo) (on_sub (sendErr (cf_buffer cf) (mv_ch m) (Some e)) i s)
  end.

(** The [select] of the watcher takes either branch that is ready. *)
Definition watch_step (m : move) (t c : nat) (s : st) : option st :=
  match mv_event m with
  | None => if ctx_done c s then Some (set_call t (Shutdown_enter false) s) else None
  | Some _ => if decide (0 < done_closes s)%nat then Some (exit_ t s) else None
  end.

(** *** Closing *)
Definition shutdown_over (user : bool) (t : nat) (s : st) : st :=
  if user then set_call t Close_wait s else exit_ t s.

Definition shutdown_enter (user : bool) (t : nat) (s : st) : option st :=
  match close_once s with
  | NotClosed => Some (set_call t (Shutdown_lock user) (w_once Closing s))
  | Closing => None
  | Closed => Some (shutdown_over user t s)
  end.

Definition shutdown_lock (m : move) (user : bool) (t : nat) (s : st) : st :=
  set_call t (Shutdown_cancel user (cancel s) (snapshot m s)) (w_tradeSubs 0 (w_subs ∅ (w_closed true s))).

Definition shutdown_subs (user : bool) (t : nat) (todo : list nat) (s : st) : st :=
  match todo with
  | [] => shutdown_over user t (w_once Closed s)
  | i :: todo => set_call t (Shutdown_subs user todo) (on_sub close i s)
  end.

Definition close_wait (t : nat) (s : st) : option st :=
  if decide (goroutines s = ∅) then Some (return_ t RClosed s) else None.

(** *** Delivery *)
Definition deliver (t : nat) (n : option (Notification Message)) (s : st) : st :=
  match n with None => return_ t (RErr None) s | Some n => set_call t (Deliver_lock n) s end.

Definition deliver_lock (m : move) (t : nat) (n : Notification Message) (s : st) : st :=
  let all := snapshot m s in
  if decide (all = []) then return_ t (RErr None) s
  else
    set_call t (Deliver (mkEvent (Type_ n) (PushClient.ID n) (notifyTime (PushClient.Time n)) (PushClient.Payload n)) all all) s.

Definition deliver_step (m : move) (t : nat) (e : Event) (todo all : list nat) (s : st) : st :=
  match todo with
  | [] => return_ t (RDelivered e all) s
  | i :: todo =>
      set_call t (Deliver e todo all)
        (on_sub (fun x => if acceptsType (ev_Type e) x then sendUpdate (cf_buffer cf) (mv_ch m) e x else x) i s)
  end.

(** ** Threads *)
Definition thread_step (m : move) (t : nat) (p : pc) (s : st) : option st :=
  match p with
  | Subscribe_check topic secs => Some (subscribe_check t topic secs s)
  | Subscribe_send topic ty secs => Some (subscribe_send t topic ty secs s)
  | Subscribe_sent topic ty secs =>
      Some (match ch_reply (mv_ch m) with
            | Some e => return_ t (RErr (Some e)) s
            | None => set_call t (Subscribe_add topic ty secs) s
            end)
  | Subscribe_add topic ty secs => add_sub t (mv_fresh m) (newSubscription topic secs ty) s
  | Trade_check => Some (trade_check t s)
  | Trade_send => Some (set_call t Trade_sent (send TradeSubscribe s))
  | Trade_sent =>
      Some (match ch_reply (mv_ch m) with
            | Some e => return_ t (RErr (Some e)) s
            | None => set_call t Trade_add s
            end)
  | Trade_add => add_sub t (mv_fresh m) newTradeSubscription s
  | Cancel_lock i => Some (cancel_lock t i s)
  | Cancel_send i r => Some (cancel_send t i r s)
  | Cancel_sent i => Some (set_call t (Cancel_close i (ch_reply (mv_ch m))) s)
  | Cancel_close i e => Some (return_ t (RErr e) (on_sub close i s))
  | Connect_lock => Some (connect_lock t s)
  | Connect_push c => Some (connect_pushed (ch_reply (mv_ch m)) t c s)
  | Connect_start c => connect_start t c (mv_fresh m) s
  | Run c => Some (push_run_top t c s)
  | Run_ctx c => Some (push_run_ctx t c s)
  | Run_current c => Some (push_run_current t c s)
  | Run_dial c cause => Some (push_run_dial m t c cause s)
  | Run_set c x cause => Some (push_run_set t c x cause s)
  | Run_read c x => push_run_read m t c x s
  | Run_broken c cause => Some (push_run_broken t c cause s)
  | Reconnect_lock c cause => Some (reconnect_lock m t c cause s)
  | Reconnect_notify c cause todo all active => Some (reconnect_notify m t c cause todo all active s)
  | Reconnect_market c todo all active => Some (reconnect_market m t c todo all active s)
  | Reconnect_sent c i todo all active => Some (reconnect_sent m t c i todo all active s)
  | Reconnect_trade c all => Some (reconnect_trade m t c all s)
  | Reconnect_failed c e todo => Some (reconnect_failed m t c e todo s)
  | Watch c => watch_step m t c s
  | Forward c => forward_step m t c s
  | Broadcast c e => Some (broadcast m t c e s)
  | Broadcast_send c e todo => Some (broadcast_send m t c e todo s)
  | Shutdown_enter user => shutdown_enter user t s
  | Shutdown_lock user => Some (shutdown_lock m user t s)
  | Shutdown_cancel user c todo => Some (set_call t (Shutdown_push user todo) (cancel_ctx c s))
  | Shutdown_push user todo => Some (set_call t (Shutdown_conn user todo) (on_push push_mark s))
  | Shutdown_conn user todo => Some (set_call t (Shutdown_done user todo) (on_push push_shut s))
  | Shutdown_done user todo => Some (set_call t (Shutdown_subs user todo) (w_done (S (done_closes s)) s))
  | Shutdown_subs user todo => Some (shutdown_subs user t todo s)
  | Close_wait => close_wait t s
  | Deliver_lock n => Some (deliver_lock m t n s)
  | Deliver e todo all => Some (deliver_step m t e todo all s)
  end.

(** A call from outside: of a method, or of [deliver] by the push client. *)
Inductive call :=
  | CSubscribe (topic : Z) (secs : list (option Security))
  | CSubscribeTrade
  | CCancel (i : nat)
  | CConnect
  | CClose
  | CDeliver (n : option (Notification Message)).

Definition start (t : nat) (c : call) (s : st) : st :=
  match c with
  | CSubscribe topic secs => Subscribe t topic secs s
  | CSubscribeTrade => SubscribeTrade t s
  | CCancel i => if decide (is_Some (heap s !! i)) then set_call t (Cancel_lock i) s else s
  | CConnect => set_call t Connect_lock s
  | CClose => set_call t (Shutdown_enter true) s
  | CDeliver n => deliver t n s
  end.

Inductive step : st -> st -> Prop :=
  | step_start s s' t c : unused t s -> start t c s = s' -> step s s'
  | step_thread s s' m t p : calls s !! t = Some p -> thread_step m t p s = Some s' -> step s s'
  | step_ctx s c : step s (cancel_ctx (Some c) s)
  (** The goroutine of [push.Run] that closes the connection when the context
      ends; it may be late. *)
  | step_conn s c : ctx_done c s = true -> step s (on_push push_close_conn s)
  | step_recv s i : step s (on_sub recv_update i s)
  | step_recv_err s i : step s (on_sub recv_err i s).

Inductive reachable : st -> Prop :=
  | reachable_init : reachable init
  | reachable_step s s' : reachable s -> step s s' -> reachable s'.
End methods.
