(* ===== verification/StreamInv.v ===== *)
(** Steps of the streaming client: what each can change, and the invariants of its
    subscriptions, of the registry, of the order counter and of [Close]. *)
From S2P Require Import Prelude Chan Types Errs Domain PushKeys PushOrch PushOrchData PushClient PushEvents Service MarketReleased Stream.
Local Open Scope Z_scope.

#[global] Arguments sendUpdate : simpl never.
#[global] Arguments sendErr : simpl never.
#[global] Arguments close : simpl never.
#[global] Arguments recv_update : simpl never.
#[global] Arguments recv_err : simpl never.

(** Opens a step of a thread into the branches of its code. *)
Ltac open_code H :=
  cbn [thread_step start] in H;
  unfold Subscribe, subscribe_check, subscribe_send, add_sub, SubscribeTrade, trade_check, cancel_lock, cancel_send,
    connect_lock, connect_pushed, connect_start, spawn, reconnect_lock, reconnect_notify, reconnect_market,
    reconnect_sent, resubscribe_report, reconnect_trade, reconnect_failed, push_run_top, push_run_ctx, push_run_current, push_run_dial, push_run_set, push_run_read,
    push_run_broken, on_push, forward_step, broadcast,
    broadcast_send, watch_step, shutdown_enter, shutdown_lock, shutdown_subs, shutdown_over, close_wait, deliver,
    deliver_lock, deliver_step, send, return_, exit_, cancel_ctx, set_call, on_sub in H;
  repeat (match type of H with context [match ?x with _ => _ end] => let E := fresh "E" in destruct x eqn:E end;
    try discriminate H);
  try (injection H as <-);
  try (match type of H with _ = ?s' => is_var s'; subst s' end).

(** ** Subscriptions *)
Section subs.
Context (cap : nat) (Hcap : (0 < cap)%nat).

Inductive sub_move (x : Subscription) : Subscription -> Prop :=
  | move_none : sub_move x x
  | move_update ch e : acceptsType (ev_Type e) x = true -> sub_move x (sendUpdate cap ch e x)
  | move_err ch e : sub_move x (sendErr cap ch e x)
  | move_close : sub_move x (close x)
  | move_recv : sub_move x (recv_update x)
  | move_recv_err : sub_move x (recv_err x).

(** The channels of a subscription: closed at most once and never sent to
    afterwards, within the buffer, in order, losing only the oldest. *)
Record sub_ok (x : Subscription) : Prop := {
  so_closes : closes x = (if closed x then 1 else 0)%nat;
  so_calm : panicked x = false;
  so_updates : (length (updates x) <= cap)%nat;
  so_errs : (length (errs x) <= cap)%nat;
  so_order : (taken x ++ updates x) `sublist_of` accepted x;
  so_newest : last (taken x ++ updates x) = last (accepted x);
  so_accepts : Forall (fun e => acceptsType (ev_Type e) x = true) (accepted x);
}.

Lemma sub_ok_new x : x = newTradeSubscription \/ (exists topic secs ty, x = newSubscription topic secs ty) -> sub_ok x.
Proof. intros [->|(topic & secs & ty & ->)]; by split; cbn; auto with lia. Qed.

Lemma sub_ok_move x x' : sub_ok x -> sub_move x x' -> sub_ok x'.
Proof using Hcap.
  intros [Hc Hp Hu He Ho Hn Ha] [|ch e Hacc|ch e| | |].
  - by split.
  - unfold sendUpdate. destruct (closed x) eqn:Hcl; [by split; rewrite ?Hcl |].
    destruct (enqueue cap ch (updates x) e) as [[got queue] full] eqn:Hq.
    destruct (enqueue_spec cap ch (updates x) e got queue full Hcap Hu Hq) as (H1 & H2 & H3 & H4).
    split; cbn; rewrite ?Hc, ?Hp; try done.
    + rewrite <- app_assoc. etrans; [by apply sublist_app |]. rewrite app_assoc. by apply sublist_app.
    + by rewrite last_snoc, <- app_assoc, !last_app, H3.
    + apply Forall_app. split; [done |]. by apply Forall_singleton.
  - unfold sendErr. destruct e as [e|]; [| by split]. destruct (closed x) eqn:Hcl; [by split; rewrite ?Hcl |].
    destruct (enqueue cap ch (errs x) e) as [[got queue] full] eqn:Hq.
    destruct (enqueue_spec cap ch (errs x) e got queue full Hcap He Hq) as (H1 & _).
    split; cbn; rewrite ?Hc, ?Hp; done.
  - unfold close. case_decide as Hd; [| by split]. split; cbn; try done. by rewrite Hd.
  - unfold recv_update. split; cbn; try done.
    + rewrite length_drop. lia.
    + by rewrite <- app_assoc, take_drop.
    + by rewrite <- app_assoc, take_drop.
  - unfold recv_err. split; cbn; try done. rewrite length_drop. lia.
Qed.

(** What a move keeps. *)
Record sub_le (x x' : Subscription) : Prop := {
  sl_topic : topicID x' = topicID x;
  sl_trade : trade x' = trade x;
  sl_accepts : accepts x' = accepts x;
  sl_closed : closed x = true -> closed x' = true;
  sl_accepted : accepted x `prefix_of` accepted x';
}.

#[global] Instance sub_le_preorder : PreOrder sub_le.
Proof.
  split; [done |]. intros x y z [A1 A2 A3 A4 A5] [B1 B2 B3 B4 B5].
  split; [congruence | congruence | congruence | auto | by etrans].
Qed.

Lemma sub_move_le x x' : sub_move x x' -> sub_le x x'.
Proof.
  intros [|ch e Hacc|ch e| | |]; [done | | | | done | done].
  - unfold sendUpdate. destruct (closed x) eqn:Hc; [done |]. destruct (enqueue _ _ _ _) as [[got queue] full].
    split; cbn; try done; [congruence | by eexists].
  - unfold sendErr. destruct e as [e|]; [| done]. destruct (closed x) eqn:Hc; [done |].
    destruct (enqueue _ _ _ _) as [[got queue] full]. split; cbn; try done. congruence.
  - unfold close. case_decide; [| done]. by split.
Qed.
End subs.

(** ** The heap *)
Section heap.
Context (cf : config).
Abbreviation sub_move := (sub_move (cf_buffer cf)).

Definition fresh_sub (x : Subscription) : Prop :=
  x = newTradeSubscription \/ exists topic secs ty, x = newSubscription topic secs ty.

Inductive heap_move (h : gmap nat Subscription) : gmap nat Subscription -> Prop :=
  | heap_same : heap_move h h
  | heap_alter i f : (forall x, sub_move x (f x)) -> heap_move h (alter f i h)
  | heap_new i x : h !! i = None -> fresh_sub x -> heap_move h (<[i := x]> h).

Lemma step_heap s s' : step cf s s' -> heap_move (heap s) (heap s').
Proof.
  intros [s1 s2 t c Hu Hs|s1 s2 m t p Hp Hs|s1 c|s1 c Hctx|s1 i|s1 i]; cbn.
  - destruct c; open_code Hs; destruct s1; constructor.
  - destruct p; open_code Hs; destruct s1; cbn in *; try (constructor; fail).
    all: try (apply heap_alter; intros x; repeat case_match; constructor; done).
    all: try (apply heap_new; [done |]; first [by left | right; eauto]).
  - destruct s1; constructor.
  - destruct s1; constructor.
  - destruct s1; cbn. apply heap_alter. intros x. constructor.
  - destruct s1; cbn. apply heap_alter. intros x. constructor.
Qed.
End heap.

(** ** What a step keeps *)
Record evolves (s s' : st) : Prop := {
  ev_heap i x : heap s !! i = Some x -> exists x', heap s' !! i = Some x' /\ sub_le x x';
  ev_subs i : is_Some (heap s !! i) -> i ∈ subs s' -> i ∈ subs s;
  ev_closed : is_closed s = true -> is_closed s' = true;
  ev_once : close_once s = Closed -> close_once s' = Closed;
  ev_wg : is_closed s = true -> goroutines s' ⊆ goroutines s;
}.

Section evolves.
Context (cf : config).

Lemma heap_move_le h h' : heap_move cf h h' ->
  forall i x, h !! i = Some x -> exists x', h' !! i = Some x' /\ sub_le x x'.
Proof.
  intros [|j f Hf|j y Hj _] i x Hi; [by exists x | |].
  - destruct (decide (i = j)) as [->|Hne].
    + exists (f x). rewrite lookup_alter_eq, Hi. split; [done |]. by apply (sub_move_le (cf_buffer cf)).
    + exists x. by rewrite lookup_alter_ne.
  - exists x. rewrite lookup_insert_ne by congruence. done.
Qed.

Lemma step_evolves s s' : step cf s s' -> evolves s s'.
Proof.
  intros Hst. pose proof (heap_move_le _ _ (step_heap cf s s' Hst)) as Hh. split; [exact Hh | clear Hh..].
  all: destruct Hst as [s1 s2 t c Hu Hs|s1 s2 m t p Hp Hs|s1 c|s1 c Hctx|s1 i|s1 i];
    [destruct c; open_code Hs
    |destruct p; open_code Hs|..]; destruct s1; cbn in *; try done; try set_solver.
  all: intros j Hj Hin; apply elem_of_union in Hin as [->%elem_of_singleton|]; [| done].
  all: destruct Hj; congruence.
Qed.

Lemma evolves_keeps s s' i : evolves s s' -> is_Some (heap s !! i) -> is_Some (heap s' !! i).
Proof. intros He [x Hx]. destruct (ev_heap s s' He i x Hx) as (x' & -> & _). done. Qed.
End evolves.

(** ** Threads *)

(** The event was handed to the subscription, unless it was closed or does not want
    it. *)
Definition delivered (s : st) (e : Event) (i : nat) : Prop :=
  exists x, heap s !! i = Some x /\ (closed x = true \/ acceptsType (ev_Type e) x = false \/ e ∈ accepted x).

(** A subscription that has left the registry. *)
Definition removed (s : st) (i : nat) : Prop := is_Some (heap s !! i) /\ i ∉ subs s.

Definition pc_ok (s : st) (p : pc) : Prop :=
  match p with
  | Cancel_lock i => is_Some (heap s !! i)
  | Cancel_send i _ | Cancel_sent i | Cancel_close i _ => removed s i
  | Shutdown_cancel _ _ todo | Shutdown_push _ todo | Shutdown_conn _ todo | Shutdown_done _ todo | Shutdown_subs _ todo =>
      is_closed s = true /\ Forall (removed s) todo
  | Close_wait => close_once s = Closed /\ is_closed s = true
  | Deliver e todo all =>
      exists l, all = l ++ todo /\ Forall (delivered s e) l /\ Forall (fun i => is_Some (heap s !! i)) todo
  | _ => True
  end.

Definition result_ok (s : st) (r : result) : Prop :=
  match r with
  | RSub i => is_Some (heap s !! i)
  | RClosed => close_once s = Closed /\ is_closed s = true /\ goroutines s = ∅
  | RDelivered e all => Forall (delivered s e) all
  | RErr _ => True
  end.

Section stable.
Context (s s' : st) (He : evolves s s').

Lemma removed_stable i : removed s i -> removed s' i.
Proof using He.
  intros [Hx Hi]. split; [by apply (evolves_keeps s) |]. intros Hin. by apply Hi, (ev_subs s s').
Qed.

Lemma delivered_stable e i : delivered s e i -> delivered s' e i.
Proof using He.
  intros (x & Hx & Hd). destruct (ev_heap s s' He i x Hx) as (x' & Hx' & Hle). exists x'. split; [done |].
  destruct Hle as [_ _ Ha Hc Hp]. destruct Hd as [Hd|[Hd|Hd]].
  - left. by apply Hc.
  - right; left. unfold acceptsType in *. by rewrite Ha.
  - right; right. destruct Hp as [l ->]. apply elem_of_app. by left.
Qed.

Lemma pc_ok_stable p : pc_ok s p -> pc_ok s' p.
Proof using He.
  destruct p; cbn; try done; try apply (evolves_keeps s s' _ He); try apply removed_stable;
    try (intros [HC HF]; split; [by apply (ev_closed s s') | eapply Forall_impl; [exact HF |]; apply removed_stable]).
  - intros [H1 H2]. split; [by apply (ev_once s s') | by apply (ev_closed s s')].
  - intros (l & -> & Hl & Ht). exists l. split; [done |]. split.
    + eapply Forall_impl; [exact Hl |]. intros i. apply delivered_stable.
    + eapply Forall_impl; [exact Ht |]. intros i. by apply (evolves_keeps s s' _ He).
Qed.

Lemma result_ok_stable r : result_ok s r -> result_ok s' r.
Proof using He.
  destruct r as [|i| |e all]; cbn; [done | by apply (evolves_keeps s s' _ He) | |].
  - intros (H1 & H2 & H3). split; [by apply (ev_once s s') |]. split; [by apply (ev_closed s s') |].
    pose proof (ev_wg s s' He H2) as Hs. set_solver.
  - intros Hl. eapply Forall_impl; [exact Hl |]. intros i. apply delivered_stable.
Qed.
End stable.

(** Splits a thread of the state after a step: the one that moved, those it
    started, and the others. *)
Ltac moved_cases H :=
  lazymatch type of H with
  | <[_ := _]> _ !! _ = Some _ => rewrite lookup_insert_Some in H; destruct H as [[? ?]|[? H]]; [subst | moved_cases H]
  | delete _ _ !! _ = Some _ => rewrite lookup_delete_Some in H; destruct H as [? H]; moved_cases H
  | _ => idtac
  end.

Section threads.
Context (cf : config).

(** Every subscription the client ranges over exists. *)
Definition subs_known (s : st) : Prop := forall i, i ∈ subs s -> is_Some (heap s !! i).

Lemma snapshot_elem m s i : i ∈ snapshot m s <-> i ∈ subs s.
Proof.
  unfold snapshot. case_decide as Hd.
  - destruct Hd as [_ <-]. by rewrite elem_of_list_to_set.
  - by rewrite elem_of_elements.
Qed.

Lemma snapshot_known m s : subs_known s -> Forall (fun i => is_Some (heap s !! i)) (snapshot m s).
Proof. intros Hk. apply Forall_forall. intros i Hi. by apply Hk, (snapshot_elem m). Qed.

(** A delivery to one subscription. *)
Lemma delivered_here s e i ch x : heap s !! i = Some x ->
  delivered (on_sub (fun x => if acceptsType (ev_Type e) x then sendUpdate (cf_buffer cf) ch e x else x) i s) e i.
Proof.
  intros Hx. unfold delivered, on_sub. destruct s; cbn in *. rewrite lookup_alter_eq, Hx. cbn. eexists. split; [done |].
  destruct (acceptsType (ev_Type e) x) eqn:Ha; [| by right; left]. unfold sendUpdate.
  destruct (closed x) eqn:Hc; [by left |]. destruct (enqueue _ _ _ _) as [[got queue] full]. right; right. cbn.
  apply elem_of_app. right. by apply list_elem_of_singleton.
Qed.

Lemma step_threads s s' : subs_known s -> (close_once s = Closed -> is_closed s = true) -> step cf s s' ->
  (forall t p, calls s !! t = Some p -> pc_ok s p) -> (forall t p, calls s' !! t = Some p -> pc_ok s' p).
Proof.
  intros Hk Hco Hst Hok t' p' Hp'. pose proof (step_evolves cf s s' Hst) as Hev.
  assert (Hold : calls s !! t' = Some p' -> pc_ok s' p') by (intros Hc; by apply (pc_ok_stable s s' Hev), (Hok t')).
  destruct Hst as [s1 s2 t c Hu Hs|s1 s2 m t p Hp Hs|s1 c|s1 c Hctx|s1 i|s1 i]; [| |by destruct s1; apply Hold..].
  - destruct c; open_code Hs; destruct s1; cbn in *; moved_cases Hp'; auto; done.
  - pose proof (Hok t p Hp) as Hpc. pose proof (delivered_here s1) as Hhere. clear Hok.
    destruct p; open_code Hs; destruct s1; cbn in *; moved_cases Hp'; auto; cbn in *; try done.
    all: try (split; [assumption | set_solver]).
    all: try (split; [tauto |]).
    + by apply Hco.
    + eapply Forall_impl; [apply (snapshot_known m _ Hk) |]. intros i Hi. split; [done | set_solver].
    + tauto.
    + destruct Hpc as [_ Hpc%Forall_cons]. eapply Forall_impl; [apply Hpc |]. intros i. by apply removed_stable.
    + exists []. split; [done |]. split; [constructor |]. apply (snapshot_known m _ Hk).
    + destruct Hpc as (l0 & -> & Hl & [[x Hx] Ht]%Forall_cons). exists (l0 ++ [n]). split; [by rewrite <- app_assoc |].
      split.
      * apply Forall_app. split; [eapply Forall_impl; [exact Hl | intros i; by apply delivered_stable] |].
        apply Forall_singleton. by apply (Hhere e n (mv_ch m) x).
      * eapply Forall_impl; [exact Ht |]. intros i. by apply (evolves_keeps _ _ i Hev).
Qed.

Lemma step_results s s' : step cf s s' -> (close_once s = Closed -> is_closed s = true) ->
  (forall t p, calls s !! t = Some p -> pc_ok s p) ->
  (forall t r, results s !! t = Some r -> result_ok s r) -> (forall t r, results s' !! t = Some r -> result_ok s' r).
Proof.
  intros Hst Hco Hpcs Hok t' r' Hr'. pose proof (step_evolves cf s s' Hst) as Hev.
  assert (Hold : results s !! t' = Some r' -> result_ok s' r') by (intros Hc; by apply (result_ok_stable s s' Hev), (Hok t')).
  destruct Hst as [s1 s2 t c Hu Hs|s1 s2 m t p Hp Hs|s1 c|s1 c Hctx|s1 i|s1 i]; [| |by destruct s1; apply Hold..].
  - destruct c; open_code Hs; destruct s1; cbn in *; moved_cases Hr'; auto; done.
  - pose proof (Hpcs t p Hp) as Hpc. clear Hok Hpcs.
    destruct p; open_code Hs; destruct s1; cbn in *; moved_cases Hr'; auto; cbn in *; try done.
    all: try (rewrite lookup_insert_eq; done).
    + destruct Hpc as [-> ->]. by split_and!.
    + destruct Hpc as (l & -> & Hl & _). rewrite app_nil_r in Hev |- *. eapply Forall_impl; [exact Hl |].
      intros i. by apply delivered_stable.
Qed.
End threads.

(** ** The push client below *)

(** What its connections leave alone. *)
Definition push_flags (u : push_client) : bool * bool := (p_closed u, p_errs_closed u).

Lemma push_close_conn_flags u : push_flags (push_close_conn u) = push_flags u.
Proof. unfold push_close_conn. by destruct (p_conn u). Qed.

Lemma push_connect_flags r u e u' : push_connect r u = (e, u') -> push_flags u' = push_flags u.
Proof. unfold push_connect. intros H. repeat case_match; by simplify_eq/=. Qed.

(** ** Closing once *)

(** How far the thread inside [closeOnce] has come. *)
Definition stage (p : pc) : option nat :=
  match p with
  | Shutdown_lock _ => Some 0%nat
  | Shutdown_cancel _ _ _ => Some 1%nat
  | Shutdown_push _ _ => Some 2%nat
  | Shutdown_conn _ _ => Some 3%nat
  | Shutdown_done _ _ => Some 4%nat
  | Shutdown_subs _ _ => Some 5%nat
  | _ => None
  end.

Definition closing_at (k : nat) (s : st) : Prop :=
  is_closed s = bool_decide (1 <= k)%nat /\ push_closed s = bool_decide (3 <= k)%nat
  /\ done_closes s = (if decide (5 <= k)%nat then 1 else 0)%nat
  /\ p_errs_closed (pushc s) = bool_decide (4 <= k)%nat.

Definition nobody_inside (but : option nat) (s : st) : Prop :=
  forall t p, calls s !! t = Some p -> Some t <> but -> stage p = None.

Definition once_inv (s : st) : Prop :=
  match close_once s with
  | NotClosed => closing_at 0 s /\ nobody_inside None s
  | Closing => exists t p k, calls s !! t = Some p /\ stage p = Some k /\ closing_at k s /\ nobody_inside (Some t) s
  | Closed => closing_at 5 s /\ nobody_inside None s
  end.

Section calls.
Context (cf : config).

Definition starts_as (p : pc) : Prop := exists c, p = Run c \/ p = Watch c \/ p = Forward c.

(** A step of a thread leaves the other threads where they are, and may start
    goroutines. *)
Lemma thread_calls m t p s s' : thread_step cf m t p s = Some s' ->
  (forall t' p', t' <> t -> calls s !! t' = Some p' -> calls s' !! t' = Some p')
  /\ (forall t' p', t' <> t -> calls s' !! t' = Some p' -> calls s !! t' = Some p' \/ starts_as p').
Proof.
  intros Hs. split; intros t' p' Hne Hc; destruct p; open_code Hs; try done; destruct s; cbn in *.
  all: try (rewrite ?lookup_insert_ne, ?lookup_delete_ne by done; done).
  all: try (moved_cases Hc; try done; auto; fail).
  - clear E0. destruct a as ([Hf _] & [Hf1 _] & [Hf2 _]). cbn in *.
    rewrite !lookup_insert_ne, lookup_delete_ne by congruence. done.
  - moved_cases Hc; unfold starts_as; eauto 8.
Qed.

Lemma start_calls t c s : unused t s ->
  (forall t' p', calls s !! t' = Some p' -> calls (start cf t c s) !! t' = Some p')
  /\ (forall t' p', calls (start cf t c s) !! t' = Some p' -> calls s !! t' = Some p' \/ t' = t /\ stage p' = None).
Proof.
  intros [Hu _]. split; intros t' p' Hc; remember (start cf t c s) as s' eqn:Hs; symmetry in Hs; destruct c; open_code Hs;
    try done; auto; destruct s; cbn in *.
  all: try (rewrite ?lookup_insert_ne, ?lookup_delete_ne by congruence; done).
  all: moved_cases Hc; try done; auto.
Qed.
End calls.

Section once.
Context (cf : config).

Lemma once_closed s : once_inv s -> close_once s = Closed -> is_closed s = true.
Proof. unfold once_inv. intros Hi Hc. rewrite Hc in Hi. by destruct Hi as [[-> _] _]. Qed.

Definition same_ctl (s s' : st) : Prop :=
  close_once s' = close_once s /\ is_closed s' = is_closed s /\ push_closed s' = push_closed s
  /\ done_closes s' = done_closes s /\ p_errs_closed (pushc s') = p_errs_closed (pushc s).

(** A step that stays outside [closeOnce]. *)
Lemma once_quiet s s' : once_inv s -> same_ctl s s' ->
  (forall t p, calls s' !! t = Some p -> stage p = None \/ calls s !! t = Some p) ->
  (forall t p, stage p <> None -> calls s !! t = Some p -> calls s' !! t = Some p) -> once_inv s'.
Proof.
  unfold once_inv, closing_at, nobody_inside. intros Hi (-> & -> & -> & -> & ->) Hnew Hold. destruct (close_once s).
  - destruct Hi as [Hc Hn]. split; [done |]. intros t p Hp _. destruct (Hnew t p Hp); [done |]. by apply (Hn t).
  - destruct Hi as (t0 & p0 & k & Hp0 & Hk & Hc & Hn). exists t0, p0, k. split; [| split; [done |]; split; [done |]].
    + apply Hold; [congruence | done].
    + intros t p Hp Hne. destruct (Hnew t p Hp); [done |]. by apply (Hn t).
  - destruct Hi as [Hc Hn]. split; [done |]. intros t p Hp _. destruct (Hnew t p Hp); [done |]. by apply (Hn t).
Qed.

(** The thread inside moves from one stage to the next. *)
Lemma once_advance s s' t p p' k k' : once_inv s -> calls s !! t = Some p -> stage p = Some k ->
  (closing_at k s -> closing_at k' s') -> close_once s' = close_once s -> stage p' = Some k' ->
  calls s' = <[t := p']> (calls s) -> once_inv s'.
Proof.
  unfold once_inv. intros Hi Hp Hk Hc Ho Hk' Hcalls. rewrite Ho.
  destruct (close_once s).
  - destruct Hi as [_ Hn]. rewrite (Hn t p Hp) in Hk; [done | congruence].
  - destruct Hi as (t0 & p0 & k0 & Hp0 & Hk0 & Hc0 & Hn).
    assert (t0 = t) as -> by (destruct (decide (t0 = t)) as [|Hne]; [done |]; rewrite (Hn t p Hp) in Hk; congruence).
    assert (k0 = k) as -> by congruence. exists t, p', k'. rewrite Hcalls, lookup_insert_eq.
    split; [done |]. split; [done |]. split; [by apply Hc |]. intros t' q. rewrite Hcalls. intros Hq Hne.
    rewrite lookup_insert_ne in Hq by congruence. by apply (Hn t').
  - destruct Hi as [_ Hn]. rewrite (Hn t p Hp) in Hk; [done | congruence].
Qed.

(** The thread inside leaves. *)
Lemma once_leave s s' t p : once_inv s -> calls s !! t = Some p -> stage p = Some 5%nat ->
  closing_at 5 s' = closing_at 5 s -> close_once s' = Closed ->
  (forall t' p', calls s' !! t' = Some p' -> stage p' = None \/ t' <> t /\ calls s !! t' = Some p') -> once_inv s'.
Proof.
  unfold once_inv. intros Hi Hp Hk Hc -> Hnew. rewrite Hc. clear Hc. destruct (close_once s).
  - destruct Hi as [_ Hn]. rewrite (Hn t p Hp) in Hk; [done | congruence].
  - destruct Hi as (t0 & p0 & k0 & Hp0 & Hk0 & Hc0 & Hn).
    assert (t0 = t) as -> by (destruct (decide (t0 = t)) as [|Hne]; [done |]; rewrite (Hn t p Hp) in Hk; congruence).
    assert (k0 = 5%nat) as -> by congruence. split; [done |]. intros t' q Hq _.
    destruct (Hnew t' q Hq) as [?|[Hne Hq']]; [done |]. apply (Hn t' q Hq'). congruence.
  - destruct Hi as [_ Hn]. rewrite (Hn t p Hp) in Hk; [done | congruence].
Qed.

(** A step of a thread that changes the connections only. *)
Lemma same_ctl_push s s' : close_once s' = close_once s -> is_closed s' = is_closed s ->
  done_closes s' = done_closes s -> push_flags (pushc s') = push_flags (pushc s) -> same_ctl s s'.
Proof. unfold same_ctl, push_closed, push_flags. intros ? ? ? [=]. done. Qed.

Ltac advance_stage Hi Hp p' k k' :=
  eapply (once_advance _ _ _ _ p' k k' Hi Hp); [done | | match goal with s : st |- _ => by destruct s end | done
    | match goal with s : st |- _ => by destruct s end];
  unfold closing_at, push_closed, push_shut, push_close_conn; match goal with s : st |- _ => destruct s end;
  cbn; try match goal with |- context [match p_conn ?u with _ => _ end] => destruct (p_conn u) end; cbn; intros (? & ? & Hd & ?); rewrite ?Hd; done.

Lemma thread_once m t p s s' : calls s !! t = Some p -> thread_step cf m t p s = Some s' -> once_inv s -> once_inv s'.
Proof.
  intros Hp Hs Hi. destruct (thread_calls cf m t p s s' Hs) as [Hkeep Hnew].
  assert (Hquiet : stage p = None -> same_ctl s s' -> (forall p', calls s' !! t = Some p' -> stage p' = None) -> once_inv s').
  { intros Hst Hc Hq. apply (once_quiet s); [done | done | |].
    - intros t' p' Hp'. destruct (decide (t' = t)) as [->|Hne]; [left; by apply Hq |].
      destruct (Hnew t' p' Hne Hp') as [?|(c & [->|[->| ->]])]; auto.
    - intros t' p' Hst' Hp'. apply Hkeep; [| done]. intros ->. congruence. }
  clear Hkeep Hnew.
  destruct p; open_code Hs; try done.
  all: try (apply Hquiet; [done
    | apply same_ctl_push; destruct s; cbn in *; first [done | apply push_close_conn_flags | by eapply push_connect_flags]
    | intros q Hq; destruct s; cbn in *; moved_cases Hq; done]; fail).
  all: clear Hquiet.
  - unfold once_inv in *. rewrite E in Hi. destruct s; cbn in *. destruct Hi as [Hc Hn].
    exists t, (Shutdown_lock user), 0%nat. rewrite lookup_insert_eq. split; [done |]. split; [done |]. split; [done |].
    intros t' q Hq Hne. cbn in Hq. rewrite lookup_insert_ne in Hq by congruence. by apply (Hn t').
  - advance_stage Hi Hp (Shutdown_cancel user (cancel s) (snapshot m s)) 0%nat 1%nat.
  - advance_stage Hi Hp (Shutdown_push user todo) 1%nat 2%nat.
  - advance_stage Hi Hp (Shutdown_push user todo) 1%nat 2%nat.
  - advance_stage Hi Hp (Shutdown_conn user todo) 2%nat 3%nat.
  - advance_stage Hi Hp (Shutdown_done user todo) 3%nat 4%nat.
  - advance_stage Hi Hp (Shutdown_subs user todo) 4%nat 5%nat.
  - apply (once_leave s _ t _ Hi Hp); destruct s; cbn in *; [done..|]. intros t' q Hq. moved_cases Hq; auto.
  - apply (once_leave s _ t _ Hi Hp); destruct s; cbn in *; [done..|]. intros t' q Hq. moved_cases Hq; auto.
  - advance_stage Hi Hp (Shutdown_subs user l) 5%nat 5%nat.
Qed.

Lemma step_once s s' : step cf s s' -> once_inv s -> once_inv s'.
Proof.
  intros [s1 s2 t c Hu Hs|s1 s2 m t p Hp Hs|s1 c|s1 c Hctx|s1 i|s1 i] Hi; [| |by destruct s1| |by destruct s1..].
  - destruct (start_calls cf t c s1 Hu) as [Hkeep Hnew]. subst s2. apply (once_quiet s1); [done | | |].
    + remember (start cf t c s1) as s3 eqn:Hs. symmetry in Hs. destruct c; open_code Hs; by destruct s1.
    + intros t' p' Hp'. destruct (Hnew t' p' Hp') as [?|[_ ?]]; auto.
    + intros t' p' _. apply Hkeep.
  - by apply (thread_once m t p s1).
  - apply (once_quiet s1); [done | apply same_ctl_push; destruct s1; try done; apply push_close_conn_flags | |];
      destruct s1; by auto.
Qed.
End once.


(** ** The registry *)

(** The subscriptions a thread is about to close. *)
Definition holds (p : pc) : list nat :=
  match p with
  | Cancel_send i _ | Cancel_sent i | Cancel_close i _ => [i]
  | Shutdown_cancel _ _ todo | Shutdown_push _ todo | Shutdown_conn _ todo | Shutdown_done _ todo | Shutdown_subs _ todo => todo
  | _ => []
  end.

Definition sub_closed (s : st) (i : nat) : Prop := exists x, heap s !! i = Some x /\ closed x = true.

Definition trade_ids (s : st) : gset nat := filter (fun i => is_trade s i = true) (subs s).

Record reg_inv (s : st) : Prop := {
  ri_open i : i ∈ subs s -> exists x, heap s !! i = Some x /\ closed x = false;
  ri_empty : is_closed s = true -> subs s = ∅;
  ri_trade : tradeSubs s = Z.of_nat (size (trade_ids s));
}.

Definition kept_inv (s : st) : Prop :=
  forall i, is_Some (heap s !! i) -> i ∈ subs s \/ sub_closed s i \/ exists t p, calls s !! t = Some p /\ i ∈ holds p.

Section registry.
Context (cf : config).

(** What a move of one subscription does to the registry. *)
Lemma alter_reg s f i : reg_inv s -> (forall x, sub_le x (f x)) ->
  (i ∈ subs s -> forall x, closed (f x) = closed x) -> reg_inv (on_sub f i s).
Proof.
  intros [Ho He Ht] Hle Hopen. unfold on_sub. split; destruct s; cbn in *.
  - intros j Hj. destruct (Ho j Hj) as (x & Hx & Hc). destruct (decide (j = i)) as [->|Hne].
    + exists (f x). rewrite lookup_alter_eq, Hx. split; [done |]. by rewrite Hopen.
    + exists x. by rewrite lookup_alter_ne.
  - done.
  - rewrite Ht. f_equal. f_equal. apply set_eq. intros j. unfold trade_ids, is_trade. cbn. rewrite !elem_of_filter. cbn.
    destruct (decide (j = i)) as [->|Hne]; [| by rewrite lookup_alter_ne].
    rewrite lookup_alter_eq. destruct (heap !! i) as [x|]; [| done]. cbn. by rewrite (sl_trade _ _ (Hle x)).
Qed.

(** The registration of a new subscription. *)
Lemma add_reg s s' i x : reg_inv s -> is_closed s = false -> heap s !! i = None -> closed x = false ->
  heap s' = <[i := x]> (heap s) -> subs s' = {[i]} ∪ subs s -> is_closed s' = is_closed s ->
  tradeSubs s' = tradeSubs s + (if trade x then 1 else 0) -> reg_inv s'.
Proof.
  intros [Ho He Ht] Hc Hi Hx Hh Hs Hcl Htr.
  assert (Hni : i ∉ subs s) by (intros Hin; destruct (Ho i Hin) as (y & Hy & _); congruence).
  split.
  - intros j. rewrite Hs, Hh, elem_of_union, elem_of_singleton. intros [->|Hj].
    + exists x. by rewrite lookup_insert_eq.
    + destruct (Ho j Hj) as (y & Hy & Hcy). exists y. rewrite lookup_insert_ne by congruence. done.
  - rewrite Hcl. congruence.
  - rewrite Htr, Ht. assert (Hids : trade_ids s' = (if trade x then {[i]} else ∅) ∪ trade_ids s).
    { apply set_eq. intros j. unfold trade_ids, is_trade. rewrite elem_of_union, !elem_of_filter, Hs, Hh.
      rewrite elem_of_union, elem_of_singleton. destruct (decide (j = i)) as [->|Hne].
      - rewrite lookup_insert_eq. cbn. destruct (trade x); set_solver.
      - rewrite lookup_insert_ne by done. destruct (trade x); set_solver. }
    rewrite Hids. destruct (trade x).
    + rewrite size_union by (unfold trade_ids; set_solver). rewrite size_singleton. lia.
    + rewrite union_empty_l_L. lia.
Qed.

(** Its removal. *)
Lemma remove_reg s s' i : reg_inv s -> heap s' = heap s -> subs s' = subs s ∖ {[i]} -> is_closed s' = is_closed s ->
  tradeSubs s' = tradeSubs s - (if decide (i ∈ trade_ids s) then 1 else 0) -> reg_inv s'.
Proof.
  intros [Ho He Ht] Hh Hs Hcl Htr. split.
  - intros j. rewrite Hs, Hh. intros Hj. apply Ho. set_solver.
  - rewrite Hcl, Hs. intros ->%He. set_solver.
  - rewrite Htr, Ht. assert (Hids : trade_ids s' = trade_ids s ∖ {[i]}).
    { apply set_eq. intros j. unfold trade_ids, is_trade. rewrite Hs, Hh. set_solver. }
    rewrite Hids. case_decide as Hi.
    + rewrite size_difference by set_solver. rewrite size_singleton.
      assert (0 < size (trade_ids s))%nat by (apply Nat.neq_0_lt_0; intros Hz; apply size_empty_iff in Hz; set_solver). lia.
    + rewrite difference_disjoint_L by set_solver. lia.
Qed.

(** The counter never goes below zero: the clamp of [Cancel] is reached at zero
    only. *)
Lemma last_exact s i : reg_inv s -> i ∈ trade_ids s ->
  (if bool_decide (tradeSubs s - 1 <= 0) then 0 else tradeSubs s - 1) = tradeSubs s - 1.
Proof.
  intros Hr Hi. pose proof (ri_trade s Hr) as Ht.
  assert (0 < size (trade_ids s))%nat by (apply Nat.neq_0_lt_0; intros Hz; apply size_empty_iff in Hz; set_solver).
  case_bool_decide; lia.
Qed.

Lemma reg_same s s' : heap s' = heap s -> subs s' = subs s -> is_closed s' = is_closed s -> tradeSubs s' = tradeSubs s ->
  reg_inv s -> reg_inv s'.
Proof.
  intros Hh Hs Hc Ht [Ho He Htr]. split.
  - rewrite Hs, Hh. done.
  - by rewrite Hc, Hs.
  - rewrite Ht, Htr. unfold trade_ids, is_trade. by rewrite Hh, Hs.
Qed.

(** A step that changes one subscription and leaves the registry alone. *)
Lemma reg_alter s s' f i : reg_inv s -> (forall x, sub_move (cf_buffer cf) x (f x)) ->
  (i ∈ subs s -> forall x, closed (f x) = closed x) ->
  heap s' = alter f i (heap s) -> subs s' = subs s -> is_closed s' = is_closed s -> tradeSubs s' = tradeSubs s -> reg_inv s'.
Proof.
  intros Hr Hm Hc Hh Hs Hcl Ht. apply (reg_same (on_sub f i s)); [by destruct s..|].
  apply alter_reg; [done | | done]. intros x. by apply (sub_move_le (cf_buffer cf)).
Qed.

Lemma closed_sendUpdate ch e x : closed (sendUpdate (cf_buffer cf) ch e x) = closed x.
Proof.
  unfold sendUpdate. destruct (closed x) eqn:Hc; [done |]. by destruct (enqueue _ _ _ _) as [[got queue] full].
Qed.

Lemma closed_sendErr ch e x : closed (sendErr (cf_buffer cf) ch e x) = closed x.
Proof.
  unfold sendErr. destruct e as [e|]; [| done]. destruct (closed x) eqn:Hc; [done |].
  by destruct (enqueue _ _ _ _) as [[got queue] full].
Qed.

Lemma is_trade_ids s i : i ∈ trade_ids s <-> i ∈ subs s /\ is_trade s i = true.
Proof. unfold trade_ids. rewrite elem_of_filter. tauto. Qed.

Lemma trade_ids_empty s : subs s = ∅ -> trade_ids s = ∅.
Proof. unfold trade_ids. intros ->. set_solver. Qed.

Lemma cancel_reg t i s : reg_inv s -> reg_inv (cancel_lock cf t i s).
Proof.
  intros Hr. set (d := if decide (i ∈ trade_ids s) then 1 else 0).
  assert (Hr' : forall s', heap s' = heap s -> subs s' = subs s ∖ {[i]} -> is_closed s' = is_closed s ->
    tradeSubs s' = tradeSubs s - d -> reg_inv s') by (intros s'; apply remove_reg, Hr).
  unfold cancel_lock. set (active := bool_decide (i ∈ subs s)).
  assert (Ht : is_trade (w_subs (subs s ∖ {[i]}) s) i = is_trade s i) by (by destruct s). rewrite Ht.
  assert (Hd : d = if active && is_trade s i then 1 else 0).
  { unfold d. case_decide as Hi; rewrite is_trade_ids in Hi; unfold active; case_bool_decide; destruct (is_trade s i); naive_solver. }
  pose proof (last_exact s i Hr) as Hl. rewrite is_trade_ids in Hl. unfold active in *.
  destruct (bool_decide (i ∈ subs s)) eqn:Ea; cbn [andb] in *.
  - apply bool_decide_eq_true in Ea. destruct (is_trade s i) eqn:Et; cbn [andb].
    + repeat case_match; apply Hr'; destruct s; cbn in *; rewrite ?Hd; try done; try lia; specialize (Hl (conj Ea eq_refl));
        repeat case_bool_decide; lia.
    + repeat case_match; apply Hr'; destruct s; cbn in *; rewrite ?Hd; try done; lia.
  - apply Hr'; destruct s; cbn in *; rewrite ?Hd; try done; lia.
Qed.

Lemma thread_reg m t p s s' : calls s !! t = Some p -> thread_step cf m t p s = Some s' -> pc_ok s p ->
  reg_inv s -> reg_inv s'.
Proof.
  intros Hp Hs Hpc Hr. destruct p.
  9: { cbn in Hs. injection Hs as <-. by apply cancel_reg. }
  all: open_code Hs; try done.
  all: try (apply (reg_same s); [by destruct s..| exact Hr]; fail).
  all: try (eapply (reg_alter s); [exact Hr | | | by destruct s..];
    [intros x; cbn; repeat case_match; constructor; done
    |intros Hi x; cbn; repeat case_match; rewrite ?closed_sendErr, ?closed_sendUpdate; done]; fail).
  - by apply (add_reg s _ (mv_fresh m) (newSubscription topic secs ty) Hr); destruct s; cbn in *; try done; lia.
  - by apply (add_reg s _ (mv_fresh m) newTradeSubscription Hr); destruct s; cbn in *; try done; lia.
  - eapply (reg_alter s); [exact Hr | intros x; constructor | | by destruct s..]. intros Hi. destruct Hpc. done.
  - split; [by destruct s; set_solver | by destruct s |]. rewrite trade_ids_empty by (by destruct s). by destruct s.
  - eapply (reg_alter s); [exact Hr | intros x; constructor | | by destruct s..]. intros Hi.
    destruct Hpc as [_ [[_ Hn] _]%Forall_cons]. done.
Qed.

Lemma step_reg s s' : step cf s s' -> (forall t p, calls s !! t = Some p -> pc_ok s p) -> reg_inv s -> reg_inv s'.
Proof.
  intros [s1 s2 t c Hu Hs|s1 s2 m t p Hp Hs|s1 c|s1 c Hctx|s1 i|s1 i] Hpcs Hr.
  - apply (reg_same s1); [.. | done]; destruct c; open_code Hs; by destruct s1.
  - apply (thread_reg m t p s1); [done | done | by apply (Hpcs t) | done].
  - by apply (reg_same s1); [destruct s1..|].
  - by apply (reg_same s1); [destruct s1..|].
  - apply (reg_alter s1 _ recv_update i Hr); [intros x; constructor | done | by destruct s1..].
  - apply (reg_alter s1 _ recv_err i Hr); [intros x; constructor | done | by destruct s1..].
Qed.

(** Whoever takes a subscription out of the registry goes on to close it. *)
Lemma closing_closes x : sub_ok (cf_buffer cf) x -> closed (close x) = true.
Proof.
  intros Hx. unfold close. case_decide as Hc; [done |]. destruct (closed x) eqn:E; [done |].
  pose proof (so_closes _ x Hx) as H1. rewrite E in H1. done.
Qed.
End registry.

Section kept.
Context (cf : config).

Lemma closed_here (h : gmap nat Subscription) s' i : map_Forall (fun _ => sub_ok (cf_buffer cf)) h -> is_Some (h !! i) ->
  heap s' = alter close i h -> sub_closed s' i.
Proof.
  intros Hok [x Hx] Hh. exists (close x). rewrite Hh, lookup_alter_eq, Hx. split; [done |].
  apply (closing_closes cf x), (Hok i x Hx).
Qed.

Lemma thread_kept m t p s s' : calls s !! t = Some p -> thread_step cf m t p s = Some s' ->
  map_Forall (fun _ => sub_ok (cf_buffer cf)) (heap s) -> kept_inv s -> kept_inv s'.
Proof.
  intros Hp Hs Hok Hk. pose proof (step_evolves cf s s' (step_thread cf s s' m t p Hp Hs)) as Hev.
  destruct (thread_calls cf m t p s s' Hs) as [Hkeep _].
  assert (Hrest : forall i, is_Some (heap s !! i) ->
    (i ∈ subs s -> i ∈ subs s' \/ sub_closed s' i \/ exists t p, calls s' !! t = Some p /\ i ∈ holds p) ->
    (i ∈ holds p -> i ∈ subs s' \/ sub_closed s' i \/ exists t p, calls s' !! t = Some p /\ i ∈ holds p) ->
    i ∈ subs s' \/ sub_closed s' i \/ exists t p, calls s' !! t = Some p /\ i ∈ holds p).
  { intros i Hi Hsub Hhold. destruct (Hk i Hi) as [?|[(x & Hx & Hc)|(t' & p' & Hp' & Hin)]]; [by apply Hsub | |].
    - destruct (ev_heap s s' Hev i x Hx) as (x' & Hx' & Hle). right; left. exists x'. split; [done |].
      by apply (sl_closed x x' Hle).
    - destruct (decide (t' = t)) as [->|Hne].
      + apply Hhold. by assert (p' = p) as <- by congruence.
      + right; right. exists t', p'. split; [| done]. by apply Hkeep. }
  intros i Hi. destruct (decide (is_Some (heap s !! i))) as [Hold|Hnew].
  - apply Hrest; [done | |]; clear Hrest Hk Hkeep.
    + intros Hin. destruct p; open_code Hs; try done; destruct s; cbn in *; auto.
      all: try (left; set_solver).
      all: try (destruct (decide (i = i0)) as [->|Hne]; [right; right; exists t; eexists; rewrite lookup_insert_eq; split; [done | by left]
        |left; set_solver]).
      right; right; exists t; eexists. rewrite lookup_insert_eq. split; [done |]. by apply snapshot_elem.
    + intros Hin. destruct p; try (by apply not_elem_of_nil in Hin); open_code Hs; destruct s; cbn in *; auto.
      all: try (right; right; exists t; eexists; rewrite lookup_insert_eq; split; [done | exact Hin]; fail).
      all: try (by apply not_elem_of_nil in Hin).
      * apply list_elem_of_singleton in Hin as ->. right; left. by apply (closed_here heap).
      * apply elem_of_cons in Hin as [->|Hin]; [right; left; by apply (closed_here heap) |].
        right; right. exists t. eexists. rewrite lookup_insert_eq. by split.
  - destruct p; open_code Hs; try done; destruct s; cbn in *.
    all: try (by destruct Hnew).
    all: try (rewrite lookup_alter_is_Some in Hi; done).
    all: left; apply lookup_insert_is_Some in Hi as [->|[_ Hi]]; [set_solver | done].
Qed.

Lemma step_kept s s' : step cf s s' -> map_Forall (fun _ => sub_ok (cf_buffer cf)) (heap s) -> kept_inv s -> kept_inv s'.
Proof.
  intros Hst Hok Hk. pose proof (step_evolves cf s s' Hst) as Hev.
  assert (Hquiet : (forall i, is_Some (heap s' !! i) -> is_Some (heap s !! i)) -> subs s' = subs s ->
    (forall t p, calls s !! t = Some p -> calls s' !! t = Some p) -> kept_inv s').
  { intros Hh Hs Hc i Hi. destruct (Hk i (Hh i Hi)) as [?|[(x & Hx & Hcl)|(t & p & Hp & Hin)]].
    - left. by rewrite Hs.
    - right; left. destruct (ev_heap s s' Hev i x Hx) as (x' & Hx' & Hle). exists x'. split; [done |].
      by apply (sl_closed x x' Hle).
    - right; right. exists t, p. auto. }
  destruct Hst as [s1 s2 t c Hu Hs|s1 s2 m t p Hp Hs|s1 c|s1 c Hctx|s1 i|s1 i].
  - destruct (start_calls cf t c s1 Hu) as [Hkeep _]. rewrite Hs in Hkeep. apply Hquiet; [| | done].
    + intros i. clear - Hs. destruct c; open_code Hs; by destruct s1.
    + clear - Hs. destruct c; open_code Hs; by destruct s1.
  - by apply (thread_kept m t p s1).
  - by apply Hquiet; destruct s1.
  - by apply Hquiet; destruct s1.
  - apply Hquiet; destruct s1; cbn; [| done..]. intros j. by rewrite lookup_alter_is_Some.
  - apply Hquiet; destruct s1; cbn; [| done..]. intros j. by rewrite lookup_alter_is_Some.
Qed.
End kept.

(** ** The goroutines *)

(** The program counters of the three goroutines [Connect] starts. *)
Definition goroutine (p : pc) : bool :=
  match p with
  | Run _ | Run_ctx _ | Run_current _ | Run_dial _ _ | Run_set _ _ _ | Run_read _ _ | Run_broken _ _ | Reconnect_lock _ _ | Reconnect_notify _ _ _ _ _ | Reconnect_market _ _ _ _ | Reconnect_sent _ _ _ _ _
  | Reconnect_trade _ _ | Reconnect_failed _ _ _ | Watch _ | Forward _ | Broadcast _ _ | Broadcast_send _ _ _
  | Shutdown_enter false | Shutdown_lock false | Shutdown_cancel false _ _ | Shutdown_push false _ | Shutdown_conn false _
  | Shutdown_done false _ | Shutdown_subs false _ => true
  | _ => false
  end.

(** [wg] counts the goroutines that run. *)
Definition wg_inv (s : st) : Prop :=
  forall t, t ∈ goroutines s <-> exists p, calls s !! t = Some p /\ goroutine p = true.

Section wg.
Context (cf : config).

Lemma wg_moved s s' t p p' : wg_inv s -> calls s !! t = Some p -> goroutine p' = goroutine p ->
  calls s' = <[t := p']> (calls s) -> goroutines s' = goroutines s -> wg_inv s'.
Proof.
  intros Hw Hp Hg Hc Hgs t'. rewrite Hgs, Hc, (Hw t'). destruct (decide (t' = t)) as [->|Hne].
  - rewrite lookup_insert_eq, Hp. split; intros (q & [= <-] & Hq); eexists; (split; [done | congruence]).
  - by rewrite lookup_insert_ne.
Qed.

Lemma wg_gone s s' t p : wg_inv s -> calls s !! t = Some p -> calls s' = delete t (calls s) ->
  goroutines s' = (if goroutine p then goroutines s ∖ {[t]} else goroutines s) -> wg_inv s'.
Proof.
  intros Hw Hp Hc Hgs t'. rewrite Hgs, Hc. specialize (Hw t'). destruct (decide (t' = t)) as [->|Hne].
  - rewrite lookup_delete_eq. destruct (goroutine p) eqn:Hg; [split; [set_solver | by intros (q & Hq & _)] |].
    rewrite Hw, Hp. split; [intros (q & [= <-] & Hq); congruence | by intros (q & Hq & _)].
  - rewrite lookup_delete_ne by done. rewrite <- Hw. destruct (goroutine p); set_solver.
Qed.

Lemma thread_wg m t p s s' : calls s !! t = Some p -> thread_step cf m t p s = Some s' -> wg_inv s -> wg_inv s'.
Proof.
  intros Hp Hs Hw.
  destruct p; open_code Hs; try done.
  all: try (eapply (wg_gone s _ t); [exact Hw | exact Hp | by destruct s..]; fail).
  all: try (eapply (wg_moved s _ t); [exact Hw | exact Hp | | by destruct s | by destruct s]; done).
  assert (Hdel : wg_inv (return_ t (RErr None) (w_push (push_start (pushc (w_started true s))) (w_started true s)))).
  { apply (wg_gone s _ t _ Hw Hp); by destruct s. }
  clear -Hdel. unfold return_ in Hdel. revert Hdel. generalize (w_results (<[t:=RErr None]> (results (w_push (push_start (pushc (w_started true s))) (w_started true s))))
    (w_calls (delete t (calls (w_push (push_start (pushc (w_started true s))) (w_started true s)))) (w_push (push_start (pushc (w_started true s))) (w_started true s)))). clear s. intros s Hdel t'.
  specialize (Hdel t'). destruct s; cbn in *. rewrite elem_of_union, Hdel. set (f := mv_fresh m).
  destruct (decide (t' = f)) as [->|H1]; [rewrite lookup_insert_eq; set_solver |]. rewrite lookup_insert_ne by done.
  destruct (decide (t' = S f)) as [->|H2]; [rewrite lookup_insert_eq; set_solver |]. rewrite lookup_insert_ne by done.
  destruct (decide (t' = S (S f))) as [->|H3]; [rewrite lookup_insert_eq; set_solver |]. rewrite lookup_insert_ne by done.
  set_solver.
Qed.

Lemma step_wg s s' : step cf s s' -> wg_inv s -> wg_inv s'.
Proof.
  intros [s1 s2 t c [Hu _] Hs|s1 s2 m t p Hp Hs|s1 c|s1 c Hctx|s1 i|s1 i] Hw; [| |by destruct s1..].
  - assert (Hn : t ∉ goroutines s1) by (intros (p & Hp & _)%Hw; congruence).
    destruct c; open_code Hs; try done; intros t'; specialize (Hw t'); destruct s1; cbn in *; rewrite Hw.
    all: destruct (decide (t' = t)) as [->|Hne]; [rewrite ?lookup_insert_eq, ?lookup_delete_eq, ?Hu
      | by rewrite ?lookup_insert_ne, ?lookup_delete_ne].
    all: split; [by intros (q & ? & ?) | by intros (q & [= <-] & ?)].
  - by apply (thread_wg m t p s1).
Qed.
End wg.

(** ** All together *)
Record stream_inv (cf : config) (s : st) : Prop := {
  si_subs : map_Forall (fun _ => sub_ok (cf_buffer cf)) (heap s);
  si_pcs t p : calls s !! t = Some p -> pc_ok s p;
  si_results t r : results s !! t = Some r -> result_ok s r;
  si_once : once_inv s;
  si_reg : reg_inv s;
  si_kept : kept_inv s;
  si_wg : wg_inv s;
}.

Section inv.
Context (cf : config) (Hcap : (0 < cf_buffer cf)%nat).

Lemma step_subs s s' : step cf s s' -> map_Forall (fun _ => sub_ok (cf_buffer cf)) (heap s) ->
  map_Forall (fun _ => sub_ok (cf_buffer cf)) (heap s').
Proof using Hcap.
  intros Hst Hok. destruct (step_heap cf s s' Hst) as [|i f Hf|i x Hi Hx]; [done | |].
  - intros j y. destruct (decide (j = i)) as [->|Hne].
    + rewrite lookup_alter_eq. intros (x & Hx & ->)%fmap_Some_1. by apply (sub_ok_move _ Hcap x); [apply (Hok i) |].
    + rewrite lookup_alter_ne by done. apply Hok.
  - apply map_Forall_insert_2; [| done]. by apply sub_ok_new.
Qed.

Lemma stream_inv_init : stream_inv cf init.
Proof.
  split; try (intros t x Hx; cbn in Hx; by rewrite lookup_empty in Hx).
  - by split; [| intros t p Hp; cbn in Hp; rewrite lookup_empty in Hp].
  - split; [set_solver | done |]. rewrite trade_ids_empty by done. done.
  - intros i [x Hx]. cbn in Hx. by rewrite lookup_empty in Hx.
  - intros t. split; [set_solver |]. intros (p & Hp & _). cbn in Hp. by rewrite lookup_empty in Hp.
Qed.

Lemma client_inv_step s s' : step cf s s' -> stream_inv cf s -> stream_inv cf s'.
Proof using Hcap.
  intros Hst [H1 H2 H3 H4 H5 H6 H7]. pose proof (once_closed s H4) as Hco.
  assert (Hk : subs_known s) by (intros i Hi; by destruct (ri_open s H5 i Hi) as (x & -> & _)).
  split; [by apply (step_subs s) | by apply (step_threads cf s) | by apply (step_results cf s) | by apply (step_once cf s)
         | by apply (step_reg cf s) | by apply (step_kept cf s) | by apply (step_wg cf s)].
Qed.

Lemma reachable_stream_inv s : reachable cf s -> stream_inv cf s.
Proof using Hcap.
  induction 1 as [|s s' _ IH Hst]; [apply stream_inv_init | by apply (client_inv_step s)].
Qed.
End inv.
