(* ===== verification/StreamConn.v ===== *)
(** The connections of the streaming client: which one each read loop is on, what
    a single read loop guarantees of its own, and how two of them, started by two
    concurrent calls of [Connect], leave one behind that nobody closes. *)
From S2P Require Import Prelude Chan Types Errs Domain PushKeys PushOrch PushOrchData PushClient PushEvents Service MarketReleased Stream StreamInv.
Local Open Scope Z_scope.

(** ** Read loops *)

(** A thread inside [push.Run], the hook included. *)
Definition in_run (p : pc) : bool :=
  match p with
  | Run _ | Run_ctx _ | Run_current _ | Run_dial _ _ | Run_set _ _ _ | Run_read _ _ | Run_broken _ _
  | Reconnect_lock _ _ | Reconnect_notify _ _ _ _ _ | Reconnect_market _ _ _ _ | Reconnect_sent _ _ _ _ _
  | Reconnect_trade _ _ | Reconnect_failed _ _ _ => true
  | _ => false
  end.

(** The connection a thread reads, and the one it has dialled and not stored. *)
Definition reading (p : pc) : option nat := match p with Run_read _ x => Some x | _ => None end.
Definition holding (p : pc) : option nat := match p with Run_set _ x _ => Some x | _ => None end.

(** Past the check of [closed], before the connection is looked up. *)
Definition looking (p : pc) : bool := match p with Run_ctx _ | Run_current _ => true | _ => false end.

(** The connection [x] is the current one, or has been closed. *)
Definition owned (u : push_client) (x : nat) : Prop := p_conn u = Some x \/ x ∉ p_live u.

Record conn_inv (s : st) : Prop := {
  co_conn x : p_conn (pushc s) = Some x -> (x < p_dials (pushc s))%nat;
  co_live x : x ∈ p_live (pushc s) -> (x < p_dials (pushc s))%nat;
  co_read t p x : calls s !! t = Some p -> reading p = Some x -> (x < p_dials (pushc s))%nat;
  co_hold t p x : calls s !! t = Some p -> holding p = Some x -> (x < p_dials (pushc s))%nat;
  co_none t p : p_runs (pushc s) = 0%nat -> calls s !! t = Some p -> in_run p = false;
  co_one t t' p p' : (p_runs (pushc s) <= 1)%nat -> calls s !! t = Some p -> calls s !! t' = Some p' ->
    in_run p = true -> in_run p' = true -> t = t';
  co_own t p x : (p_runs (pushc s) <= 1)%nat -> calls s !! t = Some p -> reading p = Some x -> owned (pushc s) x;
  co_look t p : (p_runs (pushc s) <= 1)%nat -> p_errs_closed (pushc s) = true ->
    calls s !! t = Some p -> looking p = true -> p_conn (pushc s) = None;
  co_shut t p x : (p_runs (pushc s) <= 1)%nat -> p_errs_closed (pushc s) = true ->
    calls s !! t = Some p -> reading p = Some x -> x ∉ p_live (pushc s);
}.

Lemma reading_run p x : reading p = Some x -> in_run p = true.
Proof. by destruct p. Qed.
Lemma holding_run p x : holding p = Some x -> in_run p = true.
Proof. by destruct p. Qed.
Lemma looking_run p : looking p = true -> in_run p = true.
Proof. by destruct p. Qed.

(** How many connections were dialled only grows, and only dialled ones are
    stored or open. *)
Definition dials_ok (u u' : push_client) : Prop :=
  (p_dials u <= p_dials u')%nat /\ (forall x, p_conn u' = Some x -> (x < p_dials u')%nat)
  /\ forall x, x ∈ p_live u' -> (x < p_dials u')%nat.

(** A step of somebody else: no read loop moves. *)
Lemma conn_other s s' :
  (forall t q, calls s' !! t = Some q -> in_run q = true -> calls s !! t = Some q) ->
  dials_ok (pushc s) (pushc s') -> p_runs (pushc s') = p_runs (pushc s) ->
  (forall x, (x < p_dials (pushc s))%nat -> owned (pushc s) x -> owned (pushc s') x) ->
  (p_errs_closed (pushc s') = true -> pushc s' = pushc s
    \/ p_conn (pushc s') = None /\ forall x, owned (pushc s) x -> x ∉ p_live (pushc s')) ->
  conn_inv s -> conn_inv s'.
Proof.
  intros Hc (Hd & Hdc & Hdl) Hr Ho He [I1 I2 I3 I4 I5 I6 I7 I8 I9].
  assert (Hread : forall t p x, calls s' !! t = Some p -> reading p = Some x -> calls s !! t = Some p).
  { intros t p x Hp Hx. by apply Hc, (reading_run p x). }
  split; try done; rewrite ?Hr.
  - intros t p x Hp Hx. specialize (I3 t p x (Hread t p x Hp Hx) Hx). lia.
  - intros t p x Hp Hx. specialize (I4 t p x (Hc t p Hp (holding_run p x Hx)) Hx). lia.
  - intros t p H0 Hp. destruct (in_run p) eqn:Hin; [| done]. specialize (I5 t p H0 (Hc t p Hp Hin)). congruence.
  - intros t t' p p' H1 Hp Hp' Hin Hin'. eapply I6; eauto.
  - intros t p x H1 Hp Hx. apply Ho; [by apply (I3 t p x (Hread t p x Hp Hx)) | by apply (I7 t p x H1 (Hread t p x Hp Hx))].
  - intros t p H1 Hec Hp Hl. destruct (He Hec) as [Heq | [? _]]; [| done]. rewrite Heq in Hec |- *.
    apply (I8 t p H1 Hec (Hc t p Hp (looking_run p Hl)) Hl).
  - intros t p x H1 Hec Hp Hx. destruct (He Hec) as [Heq | [_ Hn]].
    + rewrite Heq in Hec |- *. by apply (I9 t p x H1 Hec (Hread t p x Hp Hx)).
    + by apply Hn, (I7 t p x H1 (Hread t p x Hp Hx)).
Qed.

(** A step of a read loop: with a single one nobody else reads. *)
Lemma conn_mine s s' t p :
  calls s !! t = Some p -> in_run p = true ->
  (forall t' q, t' <> t -> calls s' !! t' = Some q -> calls s !! t' = Some q) ->
  dials_ok (pushc s) (pushc s') -> p_runs (pushc s') = p_runs (pushc s) ->
  (forall q, calls s' !! t = Some q ->
    (forall x, holding q = Some x -> (x < p_dials (pushc s'))%nat)
    /\ (forall x, reading q = Some x -> (x < p_dials (pushc s'))%nat /\ ((p_runs (pushc s) <= 1)%nat -> owned (pushc s') x
          /\ (p_errs_closed (pushc s') = true -> x ∉ p_live (pushc s'))))
    /\ ((p_runs (pushc s) <= 1)%nat -> p_errs_closed (pushc s') = true -> looking q = true -> p_conn (pushc s') = None)) ->
  conn_inv s -> conn_inv s'.
Proof.
  intros Hp Hin Hc (Hd & Hdc & Hdl) Hr Hq [I1 I2 I3 I4 I5 I6 I7 I8 I9].
  assert (Hold : forall t' q, (p_runs (pushc s) <= 1)%nat -> calls s' !! t' = Some q -> in_run q = true -> t' = t).
  { intros t' q H1 Hq' Hin'. destruct (decide (t' = t)) as [|Hne]; [done |]. by apply (I6 t' t q p H1 (Hc t' q Hne Hq') Hp). }
  split; try done; rewrite ?Hr.
  - intros t' q x Hq' Hx. destruct (decide (t' = t)) as [->|Hne]; [by apply (proj1 (proj2 (Hq q Hq')) x Hx) |].
    specialize (I3 t' q x (Hc t' q Hne Hq') Hx). lia.
  - intros t' q x Hq' Hx. destruct (decide (t' = t)) as [->|Hne]; [by apply (proj1 (Hq q Hq') x Hx) |].
    specialize (I4 t' q x (Hc t' q Hne Hq') Hx). lia.
  - intros t' q H0. specialize (I5 t p H0 Hp). congruence.
  - intros t1 t2 p1 p2 H1 Hp1 Hp2 Hi1 Hi2. rewrite (Hold t1 p1), (Hold t2 p2); done.
  - intros t' q x H1 Hq' Hx. assert (t' = t) as -> by (apply (Hold t' q H1 Hq'), (reading_run q x Hx)).
    destruct (Hq q Hq') as (_ & Hr1 & _). by apply (Hr1 x Hx).
  - intros t' q H1 He Hq' Hl. assert (t' = t) as -> by (apply (Hold t' q H1 Hq'), (looking_run q Hl)).
    destruct (Hq q Hq') as (_ & _ & Hl1). by apply Hl1.
  - intros t' q x H1 He Hq' Hx. assert (t' = t) as -> by (apply (Hold t' q H1 Hq'), (reading_run q x Hx)).
    destruct (Hq q Hq') as (_ & Hr1 & _). by apply (Hr1 x Hx).
Qed.

(** ** What the push client does to its connections *)
Definition known (u : push_client) : Prop :=
  (forall x, p_conn u = Some x -> (x < p_dials u)%nat) /\ forall x, x ∈ p_live u -> (x < p_dials u)%nat.

Lemma conn_known s : conn_inv s -> known (pushc s).
Proof. intros [I1 I2 _ _ _ _ _ _ _]. done. Qed.

Lemma dials_refl u : known u -> dials_ok u u.
Proof. by intros [? ?]. Qed.

Lemma dials_dial u : known u -> dials_ok u (push_dial u).
Proof.
  intros [H1 H2]. split; [cbn; lia |]. split; cbn; intros x.
  - intros Hx%H1. lia.
  - intros [->%elem_of_singleton | Hx%H2]%elem_of_union; lia.
Qed.

Lemma dials_close u : known u -> dials_ok u (push_close_conn u).
Proof.
  intros Hk. pose proof (proj2 Hk) as H2. pose proof (dials_refl u Hk). unfold push_close_conn.
  destruct (p_conn u) as [c|] eqn:Hc; [| done].
  split; [done |]. split; cbn; [done |]. intros x [Hx _]%elem_of_difference. by apply H2.
Qed.

Lemma owned_close u x : owned u x -> owned (push_close_conn u) x.
Proof. unfold owned, push_close_conn. intros [Hx | Hx]; right; [rewrite Hx; cbn; set_solver |].
  destruct (p_conn u); cbn; set_solver.
Qed.

Lemma close_conn_none u : p_conn (push_close_conn u) = None.
Proof. unfold push_close_conn. by destruct (p_conn u) eqn:E. Qed.

Lemma owned_gone u x : owned u x -> x ∉ p_live (push_close_conn u).
Proof. intros Hx%owned_close. destruct Hx as [Hx | Hx]; [| done]. by rewrite close_conn_none in Hx. Qed.

Lemma owned_dial u x : (x < p_dials u)%nat -> owned u x -> owned (push_dial u) x.
Proof.
  unfold owned. cbn. intros Hl [Hx | Hx]; [by left | right]. intros [->%elem_of_singleton | ?]%elem_of_union; [lia | done].
Qed.

Lemma connect_conn r u e u' : known u -> push_connect r u = (e, u') ->
  dials_ok u u' /\ p_runs u' = p_runs u /\ (forall x, (x < p_dials u)%nat -> owned u x -> owned u' x)
  /\ (p_closed u = true -> u' = u).
Proof.
  intros Hk. unfold push_connect. destruct (p_closed u) eqn:Hc.
  { intros [= <- <-]. split; [by apply dials_refl | done]. }
  destruct (p_conn u) as [x0|] eqn:Hx.
  { intros [= <- <-]. split; [by apply dials_refl | done]. }
  destruct r as [e0|]; intros [= <- <-].
  { split; [by apply dials_refl | done]. }
  destruct (dials_dial u Hk) as (H1 & _ & H3). split; [| split; [done | split; [| done]]].
  - split; [done |]. split; [| done]. cbn. intros x [= <-]. lia.
  - intros x Hl [Ho | Ho]; [congruence |]. right. cbn. intros [->%elem_of_singleton | ?]%elem_of_union; [lia | done].
Qed.

Section conn.
Context (cf : config).

(** The error stream of the push client is closed after its flag is set. *)
Lemma errs_closed_marked s : once_inv s -> p_errs_closed (pushc s) = true -> push_closed s = true.
Proof.
  unfold once_inv, closing_at. intros Hi He.
  assert (Hk : forall k, (is_closed s = bool_decide (1 <= k)%nat /\ push_closed s = bool_decide (3 <= k)%nat
    /\ done_closes s = (if decide (5 <= k)%nat then 1 else 0)%nat
    /\ p_errs_closed (pushc s) = bool_decide (4 <= k)%nat) -> push_closed s = true).
  { intros k (_ & -> & _ & H). rewrite H in He. apply bool_decide_eq_true in He. apply bool_decide_eq_true. lia. }
  destruct (close_once s); [| destruct Hi as (t & p & k & _ & _ & Hc & _); by apply (Hk k) |]; destruct Hi as [Hc _];
    by eapply Hk.
Qed.

(** A step that leaves the push client alone and moves no read loop. *)
Lemma conn_quiet s s' : (forall t q, calls s' !! t = Some q -> in_run q = true -> calls s !! t = Some q) ->
  pushc s' = pushc s -> conn_inv s -> conn_inv s'.
Proof.
  intros Hc Hp Hi. apply (conn_other s); rewrite ?Hp; auto. by apply dials_refl, conn_known.
Qed.

Lemma conn_dropped s s' : (forall t q, calls s' !! t = Some q -> in_run q = true -> calls s !! t = Some q) ->
  pushc s' = push_close_conn (pushc s) -> conn_inv s -> conn_inv s'.
Proof.
  intros Hc Hp Hi. apply (conn_other s); rewrite ?Hp; auto.
  - by apply dials_close, conn_known.
  - unfold push_close_conn. by destruct (p_conn (pushc s)).
  - intros x _. apply owned_close.
  - intros _. right. split; [apply close_conn_none | apply owned_gone].
Qed.

(** [wg.Add(3)]: the first [Run] of a client that had none. *)
Lemma conn_spawn s s' f c : 
  (forall t q, calls s' !! t = Some q -> in_run q = true -> calls s !! t = Some q \/ t = f /\ q = Run c) ->
  pushc s' = push_start (pushc s) -> conn_inv s -> conn_inv s'.
Proof.
  intros Hc Hp [I1 I2 I3 I4 I5 I6 I7 I8 I9].
  assert (Hold : forall t q, (p_runs (pushc s') <= 1)%nat -> calls s' !! t = Some q -> in_run q = true -> t = f /\ q = Run c).
  { rewrite Hp. cbn. intros t q H1 Hq Hin. destruct (Hc t q Hq Hin) as [Hq' | ?]; [| done].
    rewrite (I5 t q) in Hin; [done | lia | done]. }
  split; try (by rewrite Hp).
  - intros t q x Hq Hx. rewrite Hp. destruct (Hc t q Hq (reading_run q x Hx)) as [Hq' | [_ ->]]; [by apply (I3 t q) | done].
  - intros t q x Hq Hx. rewrite Hp. destruct (Hc t q Hq (holding_run q x Hx)) as [Hq' | [_ ->]]; [by apply (I4 t q) | done].
  - intros t t' q q' H1 Hq Hq' Hin Hin'. destruct (Hold t q H1 Hq Hin) as [-> _]. by destruct (Hold t' q' H1 Hq' Hin') as [-> _].
  - intros t q x H1 Hq Hx. by destruct (Hold t q H1 Hq (reading_run q x Hx)) as [_ ->].
  - intros t q H1 _ Hq Hx. by destruct (Hold t q H1 Hq (looking_run q Hx)) as [_ ->].
  - intros t q x H1 _ Hq Hx. by destruct (Hold t q H1 Hq (reading_run q x Hx)) as [_ ->].
Qed.

Ltac mine Hp := eapply (conn_mine _ _ _ _ Hp eq_refl);
  [intros t' q Hne Hq; match goal with s : st |- _ => destruct s end; cbn in *; moved_cases Hq; done
  | | | intros q Hq; match goal with s : st |- _ => destruct s end; cbn in *; moved_cases Hq; try done | assumption].

Lemma conn_loop m t p s s' : calls s !! t = Some p -> in_run p = true -> thread_step cf m t p s = Some s' ->
  once_inv s -> conn_inv s -> conn_inv s'.
Proof.
  intros Hp Hin Hs Ho Hi. pose proof (errs_closed_marked s Ho) as Hm. pose proof (conn_known s Hi) as Hk.
  pose proof (dials_refl _ Hk) as Hrefl. pose proof (dials_close _ Hk) as Hclose. pose proof (dials_dial _ Hk) as Hdial.
  destruct p; try done; open_code Hs.
  all: try (mine Hp; [by destruct s | by destruct s | ..]; done).
  - mine Hp; [by destruct s | by destruct s |]. split_and!; try done. intros _ He _. specialize (Hm He). cbn in Hm. congruence.
  - mine Hp; [by destruct s | by destruct s |]. split_and!; try done. intros H1 He _. by apply (co_look _ Hi t (Run_ctx c)).
  - pose proof (co_look _ Hi t (Run_current c)) as Hl. mine Hp; [by destruct s | by destruct s |].
    split_and!; try done. intros x [= <-]. cbn. split; [by apply (proj1 Hk) |]. intros H1. split; [by left |].
    intros He. specialize (Hl H1 He Hp eq_refl). cbn in Hl. congruence.
  - mine Hp; [by destruct s | by destruct s |]. split_and!; try done. intros x [= <-]. cbn. lia.
  - mine Hp; [| by destruct s]. destruct Hk as [Hk1 Hk2]. destruct s; cbn in *.
    split; [done |]. split; [| done]. cbn. intros y [= <-]. by apply (co_hold _ Hi t _ x Hp).
  - mine Hp; [| by destruct s]. destruct Hk as [Hk1 Hk2]. destruct s; cbn in *.
    split; [done |]. split; [| done]. cbn. intros y [= <-]. by apply (co_hold _ Hi t _ x Hp).
  - mine Hp; [by destruct s |]. destruct s; cbn in *. unfold push_close_conn. by destruct (p_conn pushc).
  - mine Hp; [by destruct s |]. destruct s; cbn in *. unfold push_close_conn. by destruct (p_conn pushc).
Qed.

(** How far the thread inside [closeOnce] has come is how much has been closed. *)
Lemma once_stage s t p k : once_inv s -> calls s !! t = Some p -> stage p = Some k -> closing_at k s.
Proof.
  unfold once_inv. intros Hi Hp Hk. destruct (close_once s).
  - destruct Hi as [_ Hn]. rewrite (Hn t p Hp) in Hk; [done | congruence].
  - destruct Hi as (t0 & p0 & k0 & Hp0 & Hk0 & Hc0 & Hn).
    assert (t0 = t) as -> by (destruct (decide (t0 = t)) as [|Hne]; [done |]; rewrite (Hn t p Hp) in Hk; congruence).
    by assert (k0 = k) as <- by congruence.
  - destruct Hi as [_ Hn]. rewrite (Hn t p Hp) in Hk; [done | congruence].
Qed.

Lemma conn_thread m t p s s' : calls s !! t = Some p -> thread_step cf m t p s = Some s' ->
  once_inv s -> conn_inv s -> conn_inv s'.
Proof.
  intros Hp Hs Ho Hi. destruct (in_run p) eqn:Hin; [by apply (conn_loop m t p s) |].
  pose proof (errs_closed_marked s Ho) as Hm. pose proof (conn_known s Hi) as Hk.
  assert (Hcon : forall u e s1 r, push_connect r (pushc s) = (e, u) -> pushc s1 = u ->
    (forall t' q, calls s1 !! t' = Some q -> in_run q = true -> calls s !! t' = Some q) -> conn_inv s1).
  { intros u e s1 r Hc Hp1 Hcalls. destruct (connect_conn r _ e u Hk Hc) as (H1 & H2 & H3 & H4).
    pose proof (push_connect_flags _ _ _ _ Hc) as [= _ Hf].
    apply (conn_other s); rewrite ?Hp1; try done. rewrite Hf. intros He. left. apply H4, Hm, He. }
  destruct p; try done; open_code Hs; try done.
  all: try (apply (conn_quiet s); [intros t' q Hq Hrun; destruct s; cbn in *; moved_cases Hq; done | by destruct s | done]; fail).
  1-3: eapply (Hcon _ _ _ _ E); [by destruct s | intros t' q Hq Hrun; destruct s; cbn in *; moved_cases Hq; done].
  - apply (conn_spawn s _ (mv_fresh m) c); [| by destruct s | done]. intros t' q Hq Hrun.
    destruct s; cbn in *; moved_cases Hq; try done; [by right | by left].
  - pose proof (once_stage s t _ 2 Ho Hp eq_refl) as (_ & _ & _ & He).
    apply (conn_other s); [intros t' q Hq Hrun; destruct s; cbn in *; moved_cases Hq; done | | by destruct s | | | done].
    + destruct (dials_refl _ Hk) as (? & ? & ?). by destruct s.
    + intros x _. by destruct s.
    + destruct s; cbn in *. by rewrite He.
  - apply (conn_other s); [intros t' q Hq Hrun; destruct s; cbn in *; moved_cases Hq; done | | | | | done].
    + destruct (dials_close _ Hk) as (? & ? & ?). by destruct s.
    + destruct s; cbn. unfold push_close_conn. by destruct (p_conn pushc).
    + intros x _ Hx%owned_close. by destruct s.
    + intros _. right. pose proof (close_conn_none (pushc s)) as Hn. pose proof (owned_gone (pushc s)) as Hg.
      by destruct s.
Qed.

Lemma conn_step s s' : step cf s s' -> once_inv s -> conn_inv s -> conn_inv s'.
Proof.
  intros [s1 s2 t c Hu Hs|s1 s2 m t p Hp Hs|s1 c|s1 c Hctx|s1 i|s1 i] Ho Hi.
  - apply (conn_quiet s1); [| | done]; destruct c; open_code Hs; try done; try (by destruct s1);
      intros t' q Hq Hrun; destruct s1; cbn in *; moved_cases Hq; done.
  - by apply (conn_thread m t p s1).
  - apply (conn_quiet s1); by destruct s1.
  - apply (conn_dropped s1); by destruct s1.
  - apply (conn_quiet s1); by destruct s1.
  - apply (conn_quiet s1); by destruct s1.
Qed.

Lemma conn_init : conn_inv init.
Proof.
  split; cbn; try (intros; by simplify_map_eq); try done; try set_solver.
Qed.

Lemma conn_reachable s : (0 < cf_buffer cf)%nat -> reachable cf s -> conn_inv s.
Proof.
  intros Hcap. induction 1 as [|s s' Hr IH Hst]; [apply conn_init |].
  apply (conn_step s s' Hst); [| done]. by apply (reachable_stream_inv cf Hcap).
Qed.
End conn.

(** ** A read loop that is left behind *)

(** A read that ends because the network failed, and not because the connection
    was closed here. *)
Definition network (m : move) (p : pc) : bool :=
  match p with Run_read _ _ => bool_decide (is_Some (mv_event m)) | _ => false end.

(** The goroutine [t] reads a connection that is open and is not the current one,
    and that nobody is about to store. *)
Record left_behind (t y : nat) (s : st) : Prop := {
  lb_reads : exists c, calls s !! t = Some (Run_read c y);
  lb_open : y ∈ p_live (pushc s);
  lb_stale : p_conn (pushc s) <> Some y;
  lb_held t' p : calls s !! t' = Some p -> holding p <> Some y;
}.

Section behind.
Context (cf : config).

(** A step of anybody, except that the network does not end the read of [t]. *)
Definition undisturbed (t : nat) (s s' : st) : Prop :=
  step cf s s' /\ ~ exists m p, calls s !! t = Some p /\ network m p = true /\ thread_step cf m t p s = Some s'.

Lemma close_conn_other u y : p_conn u <> Some y -> y ∈ p_live u ->
  y ∈ p_live (push_close_conn u) /\ p_conn (push_close_conn u) <> Some y.
Proof.
  intros Hs Ho. unfold push_close_conn. destruct (p_conn u) as [x|] eqn:Hx; [| by rewrite Hx]. cbn.
  split; [| done]. apply elem_of_difference. split; [done |]. intros ->%elem_of_singleton. done.
Qed.

Lemma connect_other r u e u' y : known u -> push_connect r u = (e, u') -> p_conn u <> Some y -> y ∈ p_live u ->
  y ∈ p_live u' /\ p_conn u' <> Some y.
Proof.
  intros [_ Hk] Hc Hs Ho. specialize (Hk y Ho). unfold push_connect in Hc.
  destruct (p_closed u); [by injection Hc as <- <- |].
  destruct (p_conn u) as [x|] eqn:Hx; [injection Hc as <- <-; by rewrite Hx |].
  destruct r as [e0|]; injection Hc as <- <-; [by rewrite Hx |]. cbn. split; [set_solver |]. intros [= Hd]. lia.
Qed.

(** Somebody else's step. *)
Lemma behind_frame t y s s' :
  left_behind t y s -> calls s' !! t = calls s !! t ->
  y ∈ p_live (pushc s') /\ p_conn (pushc s') <> Some y ->
  (forall t' p, calls s' !! t' = Some p -> holding p <> Some y) -> left_behind t y s'.
Proof. intros [H1 H2 H3 H4] Hc [Ho Hs] Hh. split; [by rewrite Hc | done..]. Qed.

Lemma behind_thread m t' p t y s s' :
  conn_inv s -> left_behind t y s -> t' <> t -> calls s !! t' = Some p -> thread_step cf m t' p s = Some s' ->
  left_behind t y s'.
Proof.
  intros Hi Hl Hne Hp Hs. destruct (thread_calls cf m t' p s s' Hs) as [Hkeep _].
  pose proof (conn_known s Hi) as Hk. pose proof Hl as [[c Hc] Ho Hst Hh].
  assert (Hy : (y < p_dials (pushc s))%nat) by (by apply Hk).
  pose proof (close_conn_other _ y Hst Ho) as Hcl.
  apply (behind_frame t y s); [done | rewrite Hc; by apply Hkeep | |].
  - clear Hkeep Hh. destruct p; open_code Hs; try done.
    all: try (match goal with E : push_connect _ _ = _ |- _ =>
      apply (connect_other _ _ _ _ y Hk) in E; [| done..] end).
    all: destruct s; cbn in *; try done.
    all: try (match goal with E : p_conn _ = _ |- _ => rewrite E; done end).
    + split; [set_solver | done].
    + split; [done |]. intros [= ->]. by destruct (lb_held _ _ _ Hl t' _ Hp).
    + split; [done |]. intros [= ->]. by destruct (lb_held _ _ _ Hl t' _ Hp).
  - clear Hkeep Hcl. intros t1 q Hq. destruct p; open_code Hs; try (by apply (Hh t1 q Hq)).
    all: destruct s; cbn in *; moved_cases Hq; try done; try (by apply (Hh t1 q Hq)).
    cbn. intros [= Hd]. lia.
Qed.

Lemma behind_step t y s s' :
  once_inv s -> conn_inv s -> left_behind t y s -> undisturbed t s s' -> left_behind t y s'.
Proof.
  intros Ho Hi Hl [Hst Hn]. pose proof Hl as [[c Hc] Hop Hs Hh].
  destruct Hst as [s1 s2 t' d [Hu _] Hs2|s1 s2 m t' p Hp Hs2|s1 c'|s1 c' Hctx|s1 i|s1 i].
  - assert (Hne : t' <> t) by congruence.
    apply (behind_frame t y s1); [done | | |]; destruct d; open_code Hs2; try done; destruct s1; cbn in *; try done.
    all: try (by rewrite ?lookup_insert_ne, ?lookup_delete_ne).
    all: intros t1 q Hq; moved_cases Hq; try done; by apply (Hh t1 q Hq).
  - destruct (decide (t' = t)) as [->|Hne]; [| by apply (behind_thread m t' p t y s1)].
    rewrite Hc in Hp. injection Hp as <-. exfalso. destruct (mv_event m) as [e|] eqn:He.
    + apply Hn. exists m, (Run_read c y). split; [done |]. split; [cbn; by rewrite He | exact Hs2].
    + cbn in Hs2. unfold push_run_read in Hs2. rewrite He in Hs2. case_decide; done.
  - destruct s1; by split; eauto.
  - apply (behind_frame t y s1); [done | by destruct s1 | | by destruct s1].
    pose proof (close_conn_other _ y Hs Hop). by destruct s1.
  - destruct s1; by split; eauto.
  - destruct s1; by split; eauto.
Qed.
End behind.
