(* ===== verification/StreamProps.v ===== *)
(** The streaming client: what its life cycle, its deliveries and [Close] guarantee
    in every interleaving, and the races they leave open. *)
From S2P Require Import Prelude Chan Types Errs Domain PushKeys PushOrch PushOrchData PushClient PushEvents Service MarketReleased Stream StreamInv StreamConn.
Local Open Scope Z_scope.

(** ** Construction *)

(** Whatever the options, the channels have room. *)
Lemma stream_buffer_positive c opts : (0 < cf_buffer (New c opts))%nat.
Proof.
  unfold New, resolve, defaultBuffer. cbn. case_decide; [vm_compute; lia |]. cbn. lia.
Qed.

(** A schedule: a call to start, or the next step of a thread. *)
Inductive event := EStart (t : nat) (c : call) | ERun (t : nat) (m : move).

Section exec.
Context (cf : config).

#[global] Instance unused_dec n s : Decision (unused n s).
Proof. unfold unused. apply _. Defined.

Definition exec_event (ev : event) (s : st) : option st :=
  match ev with
  | EStart t c => if decide (unused t s) then Some (start cf t c s) else None
  | ERun t m => calls s !! t ≫= fun p => thread_step cf m t p s
  end.

Fixpoint exec (evs : list event) (s : st) : option st :=
  match evs with [] => Some s | ev :: evs => exec_event ev s ≫= exec evs end.

Lemma exec_steps evs s s' : reachable cf s -> exec evs s = Some s' -> reachable cf s'.
Proof.
  revert s. induction evs as [|ev evs IH]; intros s Hs; cbn; [by intros [= <-] |].
  intros (s1 & Hev & Hex)%bind_Some. apply (IH s1); [| done]. apply (reachable_step cf s); [done |].
  destruct ev as [t c | t m]; cbn in Hev.
  - case_decide as Hu; [| done]. injection Hev as <-. by eapply step_start.
  - apply bind_Some in Hev as (p & Hp & Hst). by eapply step_thread.
Qed.
End exec.

(** ** Close returns *)
Section close.
Context (cf : config) (Hcap : (0 < cf_buffer cf)%nat).
Implicit Types (s : st) (t : nat) (p : pc).

(** A move in which nothing fails, and one that takes the other branch of a
    watcher. *)
Definition calm : move := mkMove (mkChoice 0 0 0 None) [] 0 None.
Definition woken : move := mkMove (mkChoice 0 0 0 None) [] 0 (Some None).

(** A thread that runs [Close]. *)
Definition closer p : bool :=
  match p with
  | Shutdown_enter true | Shutdown_lock true | Shutdown_cancel true _ _ | Shutdown_push true _ | Shutdown_conn true _
  | Shutdown_done true _ | Shutdown_subs true _ | Close_wait => true
  | _ => false
  end.

(** A step of a goroutine of the package or of a call of [Close], with no help
    from the network. *)
Inductive winds s : st -> Prop :=
  | winds_step m t p s' :
      calls s !! t = Some p -> goroutine p || closer p = true -> network m p = false ->
      thread_step cf m t p s = Some s' -> winds s s'.

(** The invariants, for a client of which at most one read loop was started. *)
Definition single s : Prop := stream_inv cf s /\ conn_inv s /\ (p_runs (pushc s) <= 1)%nat.

Lemma winds_is_step s s' : winds s s' -> step cf s s'.
Proof. intros [m t p s1 Hp _ _ Hs]. by apply (step_thread cf s s1 m t p). Qed.

Lemma winds_runs s s' : winds s s' -> p_runs (pushc s') = p_runs (pushc s).
Proof.
  intros [m t p s1 Hp Hg _ Hs]. destruct p; try done; try (destruct user; done); open_code Hs; try done.
  all: destruct s; cbn; try done; unfold push_close_conn; by destruct (p_conn pushc).
Qed.

Lemma single_winds s s' : winds s s' -> single s -> single s'.
Proof using Hcap.
  intros Hw (H1 & H2 & H3). pose proof (winds_is_step s s' Hw) as Hst. split; [by apply (client_inv_step cf Hcap s) |].
  split; [by apply (conn_step cf s s' Hst (si_once cf s H1)) |]. by rewrite (winds_runs s s' Hw).
Qed.

Definition same_others t s s' : Prop := forall t', t' <> t -> calls s' !! t' = calls s !! t'.

(** How far a goroutine is from its exit once the client is shut down. *)
Definition weight p : nat :=
  match p with
  | Run_read _ _ => 1
  | Run_set _ _ _ => 2
  | Run_dial _ _ => 3
  | Run_current _ => 4
  | Run_ctx _ => 5
  | Reconnect_lock _ _ => 1
  | Reconnect_failed _ _ todo => 1 + length todo
  | Reconnect_trade _ _ => 1
  | Reconnect_market _ todo _ _ => 2 + 2 * length todo
  | Reconnect_sent _ _ todo _ _ => 3 + 2 * length todo
  | Reconnect_notify _ _ todo all _ => 3 + 2 * length all + length todo
  | Broadcast_send _ _ todo => 1 + length todo
  | Broadcast _ _ => 2
  | _ => 0
  end%nat.

Lemma snapshot_none m s : subs s = ∅ -> snapshot m s = [].
Proof.
  intros He. apply elem_of_nil_inv. intros i. rewrite snapshot_elem, He. set_solver.
Qed.

(** After the shutdown a goroutine exits, or moves closer to it: its connection has
    been closed. *)
Lemma goroutine_moves t p s : single s -> close_once s = Closed -> calls s !! t = Some p -> goroutine p = true ->
  exists s', winds s s' /\ same_others t s s'
    /\ (calls s' !! t = None /\ goroutines s' = goroutines s ∖ {[t]}
        \/ exists p', calls s' !! t = Some p' /\ goroutine p' = true /\ (weight p' < weight p)%nat /\ goroutines s' = goroutines s).
Proof.
  intros (Hi & Hconn & Hrun) Hcl Hp Hg. pose proof (si_once cf s Hi) as Ho. unfold once_inv in Ho. rewrite Hcl in Ho.
  destruct Ho as [(Hc & Hpush & Hdone & Herr) Hn]. assert (Hst : stage p = None) by (apply (Hn t p Hp); congruence).
  change (is_closed s = true) in Hc. change (push_closed s = true) in Hpush. change (done_closes s = 1%nat) in Hdone.
  change (p_errs_closed (pushc s) = true) in Herr.
  pose proof (ri_empty s (si_reg cf s Hi) Hc) as Hnone. pose proof (co_shut s Hconn t p) as Hshut.
  set (m := match p with Watch _ => woken | _ => calm end).
  destruct (thread_step cf m t p s) as [s'|] eqn:Hs.
  - exists s'. split.
    { apply (winds_step s m t p); [done | by rewrite Hg | | done]. subst m. by destruct p. }
    subst m. destruct p; try done; try (destruct user; done); open_code Hs; try congruence.
    all: try (match goal with E : mv_event _ = _ |- _ => by vm_compute in E | E : ch_reply _ = _ |- _ => by vm_compute in E end).
    all: try (match goal with E : (push_closed _ || _) = false |- _ => by rewrite Hpush in E end).
    all: split; [intros t' Hne; destruct s; cbn in *; by rewrite ?lookup_insert_ne, ?lookup_delete_ne by done |].
    all: try (left; destruct s; cbn; by rewrite lookup_delete_eq).
    all: right; match goal with |- context [<[_ := ?q]> _] => exists q end; destruct s; cbn in *; rewrite lookup_insert_eq; split; [reflexivity |]; split; [done |]; split; [| done].
    all: try (unfold weight; cbn; lia).
    rewrite snapshot_none by done. cbn. lia.
  - exfalso. subst m. destruct p; try done; try (destruct user; done); open_code Hs; try congruence.
    all: try (match goal with E : mv_event _ = _ |- _ => by vm_compute in E end).
    all: try (match goal with E : (_ || _) = false |- _ => rewrite Herr, orb_true_r in E; done end).
    all: try lia.
    by apply (Hshut x).
Qed.

(** Once the client is shut down, each goroutine can come to its exit by itself. *)
Lemma goroutine_exits n t p s : (weight p <= n)%nat -> single s -> close_once s = Closed ->
  calls s !! t = Some p -> goroutine p = true ->
  exists s', rtc winds s s' /\ same_others t s s' /\ goroutines s' = goroutines s ∖ {[t]}.
Proof using Hcap.
  revert p s. induction n as [|n IH]; intros p s Hw Hi Hcl Hp Hg;
    destruct (goroutine_moves t p s Hi Hcl Hp Hg) as (s1 & Hst & Ho & [[_ Hx]|(p1 & Hp1 & Hg1 & Hlt & Hgs)]); try lia.
  - exists s1. split; [by apply rtc_once | done].
  - exists s1. split; [by apply rtc_once | done].
  - destruct (IH p1 s1) as (s2 & Hr & Ho2 & Hx2); [lia | by apply (single_winds s) | | done | done |].
    + by apply (ev_once s s1 (step_evolves cf s s1 (winds_is_step s s1 Hst))).
    + exists s2. split; [by eapply rtc_l |]. split; [intros t' Hne; rewrite Ho2, Ho; done |]. by rewrite Hx2, Hgs.
Qed.

Lemma single_rtc s s' : single s -> rtc winds s s' -> single s'.
Proof using Hcap. induction 2; eauto using single_winds. Qed.

Lemma closed_rtc s s' : close_once s = Closed -> rtc winds s s' -> close_once s' = Closed.
Proof.
  induction 2 as [|s s1 s' Hst _ IH]; [done |].
  by apply IH, (ev_once s s1 (step_evolves cf s s1 (winds_is_step s s1 Hst))).
Qed.

(** All of them do, and nobody else moves. *)
Lemma all_exit t n s : (size (goroutines s) <= n)%nat -> single s -> close_once s = Closed -> t ∉ goroutines s ->
  exists s', rtc winds s s' /\ goroutines s' = ∅ /\ calls s' !! t = calls s !! t.
Proof using Hcap.
  revert s. induction n as [|n IH]; intros s Hn Hi Hcl Ht.
  - exists s. split; [reflexivity |]. split; [| done]. apply leibniz_equiv, size_empty_iff. lia.
  - destruct (decide (goroutines s = ∅)) as [He|(u & Hu)%set_choose_L]; [by exists s |].
    pose proof Hu as (p & Hp & Hg)%(si_wg cf s (proj1 Hi)).
    destruct (goroutine_exits (weight p) u p s) as (s1 & Hr1 & Ho1 & Hx1); [done..|].
    destruct (IH s1) as (s2 & Hr2 & Hx2 & Hc2).
    + rewrite Hx1, size_difference by set_solver. rewrite size_singleton. lia.
    + by apply (single_rtc s).
    + by apply (closed_rtc s).
    + rewrite Hx1. set_solver.
    + exists s2. split; [by etrans |]. split; [done |]. rewrite Hc2. apply Ho1. congruence.
Qed.

(** The thread inside [closeOnce] comes out. *)
Definition out_of_shutdown t (user : bool) s : Prop :=
  exists s', rtc winds s s' /\ same_others t s s' /\ close_once s' = Closed
    /\ (user = true -> calls s' !! t = Some Close_wait).

Lemma out_step t user p s : calls s !! t = Some p -> is_Some (stage p) ->
  (forall s', thread_step cf calm t p s = Some s' -> same_others t s s' /\ out_of_shutdown t user s') ->
  is_Some (thread_step cf calm t p s) -> out_of_shutdown t user s.
Proof.
  intros Hp Hst H [s' Hs]. destruct (H s' Hs) as [Ho (s2 & Hr & Ho2 & Hc & Hw)]. exists s2. split.
  - eapply rtc_l; [| done]. apply (winds_step s calm t p); [done | | | done];
      destruct Hst as [k Hk], p; try done; by destruct user0.
  - split; [| done]. intros t' Hne. by rewrite Ho2, Ho.
Qed.

Ltac one_step := eapply out_step; [eassumption | by eexists | intros s1 Hs1; open_code Hs1 | done];
  (split; [intros t' Hne; match goal with s : st |- _ => destruct s end; cbn in *; by rewrite ?lookup_insert_ne |]).

Lemma subs_out t user todo s : calls s !! t = Some (Shutdown_subs user todo) -> out_of_shutdown t user s.
Proof.
  revert s. induction todo as [|i todo IH]; intros s Hp.
  - eexists. split; [eapply rtc_once, (winds_step s calm t _ _ Hp); by destruct user |]. cbn.
    unfold shutdown_over. destruct user, s; cbn in *.
    + split; [intros t' Hne; cbn; by rewrite lookup_insert_ne |]. by rewrite lookup_insert_eq.
    + split; [intros t' Hne; cbn; by rewrite lookup_delete_ne |]. done.
  - one_step. apply IH. destruct s. cbn. by rewrite lookup_insert_eq.
Qed.

Lemma inside_out t p k s : calls s !! t = Some p -> stage p = Some k ->
  out_of_shutdown t (negb (goroutine p)) s.
Proof.
  assert (Hdone : forall user todo s, calls s !! t = Some (Shutdown_done user todo) -> out_of_shutdown t user s).
  { intros user todo s0 H0. one_step. apply (subs_out t user todo). destruct s0. cbn. by rewrite lookup_insert_eq. }
  assert (Hshut : forall user todo s, calls s !! t = Some (Shutdown_conn user todo) -> out_of_shutdown t user s).
  { intros user todo s0 H0. one_step. apply (Hdone user todo). destruct s0. cbn. by rewrite lookup_insert_eq. }
  assert (Hpush : forall user todo s, calls s !! t = Some (Shutdown_push user todo) -> out_of_shutdown t user s).
  { intros user todo s0 H0. one_step. apply (Hshut user todo). destruct s0. cbn. by rewrite lookup_insert_eq. }
  assert (Hcan : forall user c todo s, calls s !! t = Some (Shutdown_cancel user c todo) -> out_of_shutdown t user s).
  { intros user c todo s0 H0. one_step; apply (Hpush user todo); destruct s0; cbn; by rewrite lookup_insert_eq. }
  assert (Hlock : forall user s, calls s !! t = Some (Shutdown_lock user) -> out_of_shutdown t user s).
  { intros user s0 H0. one_step. destruct s0. eapply (Hcan user). cbn. by rewrite lookup_insert_eq. }
  intros Hp Hk. destruct p; try done; destruct user; cbn; eauto using subs_out.
Qed.

Definition returns t s : Prop := exists s', rtc winds s s' /\ results s' !! t = Some RClosed.

Lemma waits_return t s : single s -> close_once s = Closed -> calls s !! t = Some Close_wait -> returns t s.
Proof using Hcap.
  intros Hi Hcl Hp.
  assert (Ht : t ∉ goroutines s) by (intros (p & Hp' & Hg)%(si_wg cf s (proj1 Hi)); rewrite Hp in Hp'; by injection Hp' as <-).
  destruct (all_exit t _ s (le_n _) Hi Hcl Ht) as (s1 & Hr & Hx & Hc). rewrite Hp in Hc.
  exists (return_ t RClosed s1). split.
  - eapply rtc_r; [exact Hr |]. apply (winds_step s1 calm t Close_wait _ Hc); [done | done |].
    cbn. unfold close_wait. by rewrite decide_True.
  - destruct s1. cbn. by rewrite lookup_insert_eq.
Qed.

Lemma enters_return t s : single s -> close_once s = Closed -> calls s !! t = Some (Shutdown_enter true) -> returns t s.
Proof using Hcap.
  intros Hi Hcl Hp.
  assert (Hst : winds s (set_call t Close_wait s)).
  { apply (winds_step s calm t _ _ Hp); [done | done |]. cbn. unfold shutdown_enter. by rewrite Hcl. }
  destruct (waits_return t (set_call t Close_wait s)) as (s' & Hr & Hres).
  - by apply (single_winds s).
  - by destruct s.
  - destruct s. cbn. by rewrite lookup_insert_eq.
  - exists s'. split; [by eapply rtc_l | done].
Qed.

(** Whoever is inside [closeOnce] comes out, and then the call returns. *)
Lemma closing_return t p t0 p0 k s : single s -> calls s !! t = Some p -> closer p = true ->
  calls s !! t0 = Some p0 -> stage p0 = Some k -> (t0 <> t -> stage p = None) -> close_once s = Closing -> returns t s.
Proof using Hcap.
  intros Hi Hp Hcp Hp0 Hk Hother Hcl. destruct (inside_out t0 p0 k s Hp0 Hk) as (s1 & Hr & Ho & Hc1 & Hw).
  assert (Hi1 : single s1) by (by apply (single_rtc s)).
  assert (Hret : returns t s1); [| destruct Hret as (s2 & Hr2 & Hres); exists s2; split; [by etrans | done]].
  destruct (decide (t0 = t)) as [->|Hne].
  - apply waits_return; [done | done |]. apply Hw. assert (p0 = p) as -> by congruence.
    destruct p; try done; by destruct user.
  - rewrite <- (Ho t) in Hp by congruence. specialize (Hother Hne).
    destruct p; try done; try (destruct user; done).
    + destruct user; [| done]. by apply enters_return.
    + by apply waits_return.
Qed.
End close.

(** C31: A call of [Close] can run to its return, from every state that any
    interleaving of subscribes, cancels, deliveries, reconnects and other closes
    can reach, provided [Connect] has started at most one read loop: the goroutines of
    the package exit before it, and nothing else has to happen, in particular the
    network does not have to fail. (Two calls of [Connect] that overlap start two
    read loops; then [Close] may wait for ever.) *)
Theorem stream_close_returns (c : option http_client) (opts : list (option Option)) (s : st) (t : nat) (p : pc) :
  let cf := New c opts in
  reachable cf s -> (p_runs (pushc s) <= 1)%nat -> calls s !! t = Some p -> closer p = true ->
  exists s', rtc (winds cf) s s' /\ results s' !! t = Some RClosed.
Proof.
  intros cf Hr Hrun Hp Hc. assert (Hcap : (0 < cf_buffer cf)%nat) by apply stream_buffer_positive.
  pose proof (reachable_stream_inv cf Hcap s Hr) as Hi. pose proof (si_once cf s Hi) as Ho. unfold once_inv in Ho.
  assert (Hsi : single cf s) by (split; [done |]; split; [by apply (conn_reachable cf) | done]).
  destruct (close_once s) eqn:Hcl.
  - destruct Ho as [Hc0 Hn]. assert (Hs : stage p = None) by (by apply (Hn t p Hp)).
    destruct p; try done; try (destruct user; done).
    + destruct user; [| done]. set (s1 := set_call t (Shutdown_lock true) (w_once Closing s)).
      assert (Hst : winds cf s s1).
      { apply (winds_step cf s calm t _ _ Hp); [done | done |]. cbn. unfold shutdown_enter. by rewrite Hcl. }
      destruct (closing_return cf Hcap t (Shutdown_lock true) t (Shutdown_lock true) 0 s1) as (s' & Hr' & Hres).
      * by apply (single_winds cf Hcap s).
      * unfold s1. destruct s. cbn. by rewrite lookup_insert_eq.
      * done.
      * unfold s1. destruct s. cbn. by rewrite lookup_insert_eq.
      * done.
      * done.
      * unfold s1. by destruct s.
      * exists s'. split; [by eapply rtc_l | done].
    + destruct (si_pcs cf s Hi t _ Hp) as [? _]. congruence.
  - destruct Ho as (t0 & p0 & k & Hp0 & Hk & _ & Hn).
    apply (closing_return cf Hcap t p t0 p0 k s); try done. intros Hne. apply (Hn t p Hp). congruence.
  - destruct Ho as [_ Hn]. assert (Hs : stage p = None) by (by apply (Hn t p Hp)).
    destruct p; try done; try (destruct user; done).
    + destruct user; [| done]. by apply (enters_return cf Hcap).
    + by apply (waits_return cf Hcap).
Qed.

(** C32: A read loop left behind on a connection that is open and is not the
    current one keeps [Close] waiting for ever: whatever else happens, and in
    particular when [Close] has closed everything it knows of, no call of [Close]
    returns unless the network itself ends that connection. [setConn] stores a
    connection without closing the one it replaces, so two read loops over one
    push client, which two overlapping calls of [Connect] start, can come to this
    after one reconnect. *)
Theorem stream_close_hangs (c : option http_client) (opts : list (option Option)) (s s' : st) (t y u : nat) :
  let cf := New c opts in
  reachable cf s -> left_behind t y s -> rtc (undisturbed cf t) s s' -> results s' !! u <> Some RClosed.
Proof.
  intros cf Hr Hl Hrtc. assert (Hcap : (0 < cf_buffer cf)%nat) by apply stream_buffer_positive.
  assert (Hend : reachable cf s' /\ left_behind t y s').
  { clear u. induction Hrtc as [s|s s1 s' Hst _ IH]; [done |]. pose proof (reachable_stream_inv cf Hcap s Hr) as Hi.
    apply IH; [by apply (reachable_step cf s s1 Hr), Hst |].
    apply (behind_step cf t y s s1 (si_once cf s Hi)); [by apply (conn_reachable cf) | done | done]. }
  destruct Hend as [Hr' [[d Hd] _ _ _]]. pose proof (reachable_stream_inv cf Hcap s' Hr') as Hi. intros Hu.
  destruct (si_results cf s' Hi u _ Hu) as (_ & _ & Hg).
  assert (Hin : t ∈ goroutines s') by (apply (si_wg cf s' Hi); eauto). rewrite Hg in Hin. set_solver.
Qed.

(** ** Life cycle *)

(** A cancellation under way that has taken the subscription [i]. *)
Definition cancelling (s : st) (i : nat) : Prop :=
  exists t p, calls s !! t = Some p
    /\ ((exists r, p = Cancel_send i r) \/ p = Cancel_sent i \/ exists e, p = Cancel_close i e).

(** C29: in every interleaving of connects, subscribes, cancels, deliveries,
    reconnects and closes, the channels of a subscription are closed at most once,
    nothing is sent to them afterwards and they stay within the buffer; [done] is
    closed at most once; a registered subscription is open; the order counter is the
    number of registered order subscriptions and never negative, so the clamp of
    [Cancel] is never needed; and when [Close] has returned no goroutine is left and
    the registry is empty. The channels of a subscription are closed then, except
    while a [Cancel] that took it out of the registry before is still under way: its
    channels are open until that call closes them, so they may be open after
    [Close] has returned. *)
Theorem stream_lifecycle (c : option http_client) (opts : list (option Option)) (s : st) :
  let cf := New c opts in
  reachable cf s ->
  (forall i x, heap s !! i = Some x -> (closes x <= 1)%nat /\ panicked x = false
     /\ (length (updates x) <= cf_buffer cf)%nat /\ (length (errs x) <= cf_buffer cf)%nat)
  /\ (done_closes s <= 1)%nat
  /\ (forall i, i ∈ subs s -> exists x, heap s !! i = Some x /\ closed x = false)
  /\ tradeSubs s = Z.of_nat (size (trade_ids s))
  /\ (forall t, results s !! t = Some RClosed ->
        goroutines s = ∅ /\ subs s = ∅
        /\ forall i x, heap s !! i = Some x -> closed x = true \/ cancelling s i).
Proof.
  intros cf Hr. assert (Hcap : (0 < cf_buffer cf)%nat) by apply stream_buffer_positive.
  pose proof (reachable_stream_inv cf Hcap s Hr) as Hi. split_and!.
  - intros i x Hx. destruct (si_subs cf s Hi i x Hx) as [Hcl Hp Hu He _ _ _]. split_and!; [| done..].
    rewrite Hcl. destruct (closed x); lia.
  - pose proof (si_once cf s Hi) as Ho. unfold once_inv, closing_at in Ho. destruct (close_once s).
    + destruct Ho as [(_ & _ & -> & _) _]. case_decide; lia.
    + destruct Ho as (_ & _ & k & _ & _ & (_ & _ & -> & _) & _). case_decide; lia.
    + destruct Ho as [(_ & _ & -> & _) _]. case_decide; lia.
  - apply (ri_open s (si_reg cf s Hi)).
  - apply (ri_trade s (si_reg cf s Hi)).
  - intros t Ht. destruct (si_results cf s Hi t _ Ht) as (Hcl & Hc & Hg).
    pose proof (ri_empty s (si_reg cf s Hi) Hc) as Hs. split_and!; [done | done |]. intros i x Hx.
    destruct (si_kept cf s Hi i) as [Hin|[(y & Hy & ?)|(u & p & Hp & Hin)]]; [done | set_solver | left; congruence | right].
    pose proof (si_once cf s Hi) as Ho. unfold once_inv in Ho. rewrite Hcl in Ho. destruct Ho as [_ Hn].
    pose proof (Hn u p Hp ltac:(congruence)) as Hst. exists u, p. split; [done |].
    destruct p; try done; cbn in Hin; try (by apply not_elem_of_nil in Hin); apply list_elem_of_singleton in Hin as ->; eauto.
Qed.

(** ** Delivery *)

(** C30: what a consumer receives from a subscription, followed by what is still
    queued, is the sequence of the events accepted for it with only older ones left
    out, and always ends with the newest; every event it is handed is of a type it
    asked for; and when a delivery is over, every subscription registered when it
    began has been handed the event once more or was closed or did not ask for it. *)
Theorem stream_delivery (c : option http_client) (opts : list (option Option)) (s : st) :
  let cf := New c opts in
  reachable cf s ->
  (forall i x, heap s !! i = Some x ->
     (taken x ++ updates x) `sublist_of` accepted x /\ last (taken x ++ updates x) = last (accepted x)
     /\ Forall (fun e => ev_Type e ∈ accepts x) (accepted x))
  /\ (forall t e all, results s !! t = Some (RDelivered e all) -> Forall (delivered s e) all)
  /\ (forall t n m s', calls s !! t = Some (Deliver_lock n) -> thread_step cf m t (Deliver_lock n) s = Some s' ->
        subs s <> ∅ -> exists all, (forall i, i ∈ all <-> i ∈ subs s) /\ NoDup all
          /\ calls s' !! t = Some (Deliver (mkEvent (Type_ n) (PushClient.ID n) (notifyTime (PushClient.Time n))
               (PushClient.Payload n)) all all)).
Proof.
  intros cf Hr. assert (Hcap : (0 < cf_buffer cf)%nat) by apply stream_buffer_positive.
  pose proof (reachable_stream_inv cf Hcap s Hr) as Hi. split_and!.
  - intros i x Hx. destruct (si_subs cf s Hi i x Hx) as [_ _ _ _ Ho Hn Ha]. split_and!; [done | done |].
    eapply Forall_impl; [exact Ha |]. intros e (y & Hy & Heq)%existsb_exists.
    apply Z.eqb_eq in Heq as ->. by apply list_elem_of_In.
  - intros t e all Ht. exact (si_results cf s Hi t _ Ht).
  - intros t n m s' _ Hs Hne. exists (snapshot m s). cbn in Hs. unfold deliver_lock in Hs. injection Hs as <-.
    split; [intros i; apply snapshot_elem |]. split.
    { unfold snapshot. case_decide as Hd; [apply Hd | apply NoDup_elements]. }
    rewrite decide_False; [destruct s; cbn; by rewrite lookup_insert_eq |].
    intros He. apply Hne. apply set_eq. intros i. rewrite <- (snapshot_elem m), He. set_solver.
Qed.

(** ** Races *)

(** Schedules of a client with a trade manager. *)
Definition demo_opts : list (option Option) := [Some (WithTradeManager true)].
Definition demo_cf : config := New (Some (mkHttpClient "" false [])) demo_opts.
Definition demo_security : option Security := Some (mkSecurity 10000 "0700.HK").

Definition fresh_move (n : nat) : move := mkMove (mkChoice 0 0 0 None) [] n None.

Definition run_all (t n : nat) (m : move) : list event := repeat (ERun t m) n.

Definition subscribe_events (t i : nat) : list event :=
  EStart t (CSubscribe TopicBasicQot [demo_security]) :: run_all t 4 (fresh_move i).

(** Two subscriptions of one instrument, and the first cancelled. *)
Definition twin_events : list event :=
  subscribe_events 0 0 ++ subscribe_events 1 1 ++ EStart 2 (CCancel 0) :: run_all 2 4 calm.

(** A second order subscription that looks at the counter just before the first is
    cancelled. *)
Definition order_events : list event :=
  EStart 0 CSubscribeTrade :: run_all 0 4 (fresh_move 0)
  ++ [EStart 1 CSubscribeTrade; ERun 1 calm]
  ++ EStart 2 (CCancel 0) :: run_all 2 4 calm ++ [ERun 1 (fresh_move 1)].

(** Two calls of [Connect] that both come before either is done. *)
Definition connect_events : list event :=
  [EStart 0 CConnect; ERun 0 calm; EStart 1 CConnect; ERun 1 calm; ERun 0 calm; ERun 0 (fresh_move 10);
   ERun 1 calm; ERun 1 (fresh_move 20)].

Definition after (evs : list event) : st := default init (exec demo_cf evs init).

Lemma stream_after_reachable evs : is_Some (exec demo_cf evs init) -> reachable demo_cf (after evs).
Proof.
  intros [s Hs]. unfold after. rewrite Hs. cbn. apply (exec_steps demo_cf evs init); [constructor | done].
Qed.

(** Cancelling one of two subscriptions of the same topic and instruments turns
    the feed of the other off: the last request is the unsubscribe, and the other
    stays registered, open and silent. An order subscription that reads the
    counter just before the last one is cancelled is left without a feed in the same
    way. And two concurrent calls of [Connect] both start a read loop over the one
    push connection, of which [Close] cancels the context of the second only. *)
Theorem stream_feed_races :
  (let s := after twin_events in
   reachable demo_cf s /\ calls s = ∅ /\ subs s = {[1%nat]}
   /\ exists x, heap s !! 1%nat = Some x /\ closed x = false
        /\ last (log s) = Some (HqUnsubscribe (topicID x) (securities x)))
  /\ (let s := after order_events in
      reachable demo_cf s /\ calls s = ∅ /\ subs s = {[1%nat]} /\ tradeSubs s = 1 /\ is_trade s 1 = true
      /\ last (log s) = Some TradeUnsubscribe)
  /\ (let s := after connect_events in
      reachable demo_cf s /\ calls s !! 10%nat = Some (Run 0) /\ calls s !! 20%nat = Some (Run 1) /\ cancel s = Some 1%nat).
Proof.
  split; [|split]; (split; [apply stream_after_reachable; vm_compute; eexists; reflexivity |]).
  - split; [vm_compute; reflexivity |]. split; [vm_compute; reflexivity |].
    eexists. split; [vm_compute; reflexivity |]. split; vm_compute; reflexivity.
  - split_and!; vm_compute; reflexivity.
  - split_and!; vm_compute; reflexivity.
Qed.

(** ** The properties at concrete states *)

(** A delivery to the two subscriptions, then [Close] up to its wait. *)
Definition busy_events : list event :=
  [EStart 3 CConnect; ERun 3 calm; ERun 3 calm; ERun 3 (fresh_move 10)] ++ subscribe_events 0 0 ++ subscribe_events 1 1
  ++ EStart 4 (CDeliver (Some (mkNotification BasicQotNotifyMsgType "0700.HK" 1700000000000 None))) :: run_all 4 4 calm.

Definition closing_events : list event := busy_events ++ EStart 5 CClose :: run_all 5 2 calm.
Definition closed_events : list event :=
  busy_events ++ EStart 5 CClose :: run_all 5 9 calm
  ++ [ERun 10 calm; ERun 11 woken; ERun 12 calm; ERun 5 calm].

Lemma stream_close_returns_witness :
  exists s', rtc (winds demo_cf) (after closing_events) s' /\ results s' !! 5%nat = Some RClosed.
Proof.
  apply (stream_close_returns (Some (mkHttpClient "" false [])) demo_opts (after closing_events) 5
    (Shutdown_cancel true (Some 3%nat) [1%nat; 0%nat])).
  - apply stream_after_reachable. vm_compute. eexists. reflexivity.
  - apply (bool_decide_unpack _). vm_compute. exact I.
  - vm_compute. reflexivity.
  - reflexivity.
Defined.

Lemma stream_lifecycle_witness :
  goroutines (after closed_events) = ∅ /\ subs (after closed_events) = ∅.
Proof.
  assert (Hr : reachable demo_cf (after closed_events)) by (apply stream_after_reachable; vm_compute; eexists; reflexivity).
  pose proof (stream_lifecycle (Some (mkHttpClient "" false [])) demo_opts (after closed_events) Hr) as (_ & _ & _ & _ & Hc).
  destruct (Hc 5%nat) as (H1 & H2 & _); [vm_compute; reflexivity |]. split; [exact H1 | exact H2].
Defined.

Lemma stream_delivery_witness :
  let e := mkEvent BasicQotNotifyMsgType "0700.HK" (Some 1700000000000) None in
  Forall (delivered (after busy_events) e) [1%nat; 0%nat].
Proof.
  assert (Hr : reachable demo_cf (after busy_events)) by (apply stream_after_reachable; vm_compute; eexists; reflexivity).
  pose proof (stream_delivery (Some (mkHttpClient "" false [])) demo_opts (after busy_events) Hr) as (_ & Hd & _).
  apply (Hd 4%nat). vm_compute. reflexivity.
Defined.

(** Two overlapping calls of [Connect], so two read loops on one connection; the
    network ends it, both dial again, and the second stores its connection over
    that of the first. Then [Close], up to its wait. *)
Definition cut : move := mkMove (mkChoice 0 0 0 None) [] 0 (Some (Some (EText "connection reset"))).
Definition hang_events : list event :=
  connect_events ++ run_all 10 3 calm ++ run_all 20 3 calm
  ++ [ERun 10 cut] ++ run_all 20 3 calm ++ run_all 10 9 calm ++ [ERun 20 calm]
  ++ EStart 5 CClose :: run_all 5 7 calm.

Lemma hang_reached : is_Some (exec demo_cf hang_events init) /\ calls (after hang_events) !! 5%nat = Some Close_wait.
Proof. split; [vm_compute; eexists; reflexivity | vm_compute; reflexivity]. Qed.

Lemma hang_left_behind : left_behind 10 2 (after hang_events).
Proof.
  split.
  - exists 0%nat. vm_compute. reflexivity.
  - apply (bool_decide_unpack _). vm_compute. exact I.
  - vm_compute. discriminate.
  - intros t p Hp. assert (Hall : map_Forall (fun _ p => holding p <> Some 2%nat) (calls (after hang_events))).
    { apply (bool_decide_unpack _). vm_compute. exact I. }
    exact (Hall t p Hp).
Qed.

Lemma stream_close_hangs_witness :
  exists s, reachable demo_cf s /\ calls s !! 5%nat = Some Close_wait
    /\ forall s', rtc (undisturbed demo_cf 10) s s' -> results s' !! 5%nat <> Some RClosed.
Proof.
  exists (after hang_events). pose proof (stream_after_reachable hang_events (proj1 hang_reached)) as Hr.
  split; [exact Hr |]. split; [exact (proj2 hang_reached) |]. intros s' Hs.
  exact (stream_close_hangs (Some (mkHttpClient "" false [])) demo_opts (after hang_events) s' 10 2 5 Hr hang_left_behind Hs).
Defined.
