(* ===== verification/GoText.v ===== *)
(** The parts of the Go standard library that the parity gate reads and writes
    text with: UTF-8 ([unicode/utf8]), [strings.Split], [Fields] and [Join], regular
    expressions with groups ([regexp]), string literals ([strconv.Unquote]), padding
    ([fmt]), and lexical paths ([path/filepath] on Unix). *)
From stdpp Require Import pretty sorting.
From S2P Require Import Prelude Types Errs Domain Decimals Service GoNumbers.
Local Open Scope Z_scope.

Definition byte_Z (c : ascii) : Z := Z.of_N (Ascii.N_of_ascii c).
Definition Z_byte (z : Z) : ascii := Ascii.ascii_of_N (Z.to_N z).

Definition LF : ascii := "010"%char.
Definition CR : ascii := "013"%char.
Definition nl : string := String LF "".

(** ** UTF-8

    [utf8.DecodeRune] on a text that is not empty: the rune and its width; the
    replacement rune with width 1 when the text does not start with an encoding. *)
Definition RuneError : Z := 65533.
Definition cont (lo hi : Z) (c : ascii) : bool := (lo <=? byte_Z c) && (byte_Z c <=? hi).
Definition low6 (c : ascii) : Z := byte_Z c mod 64.

(** The bounds of the second byte that the first byte leaves. *)
Definition second_range (b0 : Z) : Z * Z :=
  switch b0 [(224, (160, 191)); (237, (128, 159)); (240, (144, 191)); (244, (128, 143))] (128, 191).

Definition decode_rune (s : bytes) : Z * nat :=
  match s with
  | [] => (RuneError, 0%nat)
  | c0 :: t =>
      let b0 := byte_Z c0 in
      let '(lo, hi) := second_range b0 in
      if b0 <? 128 then (b0, 1%nat) else
      match t with
      | c1 :: t1 =>
          if negb (cont lo hi c1) then (RuneError, 1%nat)
          else if (194 <=? b0) && (b0 <=? 223) then (b0 mod 32 * 64 + low6 c1, 2%nat) else
          match t1 with
          | c2 :: t2 =>
              if negb (cont 128 191 c2) then (RuneError, 1%nat)
              else if (224 <=? b0) && (b0 <=? 239) then ((b0 mod 16 * 64 + low6 c1) * 64 + low6 c2, 3%nat) else
              match t2 with
              | c3 :: _ =>
                  if cont 128 191 c3 && (240 <=? b0) && (b0 <=? 244) then
                    (((b0 mod 8 * 64 + low6 c1) * 64 + low6 c2) * 64 + low6 c3, 4%nat)
                  else (RuneError, 1%nat)
              | [] => (RuneError, 1%nat)
              end
          | [] => (RuneError, 1%nat)
          end
      | [] => (RuneError, 1%nat)
      end
  end.

Fixpoint runes_from (fuel : nat) (s : bytes) : list (Z * nat) :=
  match fuel, s with
  | S fuel, _ :: _ => let '(r, w) := decode_rune s in (r, w) :: runes_from fuel (drop w s)
  | _, _ => []
  end.

Definition runes (s : bytes) : list (Z * nat) := runes_from (length s) s.

(** [utf8.RuneCountInString] and [utf8.ValidString]. *)
Definition RuneCount (s : string) : nat := length (runes (text s)).
Definition ValidString (s : bytes) : bool :=
  forallb (fun '(r, w) => negb (bool_decide (r = RuneError /\ w = 1%nat))) (runes s).

(** [utf8.ValidRune] and [utf8.AppendRune]. *)
Definition ValidRune (r : Z) : bool :=
  ((0 <=? r) && (r <? 55296)) || ((57343 <? r) && (r <=? 1114111)).

Definition encode_rune (v : Z) : bytes :=
  let r := if ValidRune v then v else RuneError in
  Z_byte <$>
    if r <? 128 then [r]
    else if r <? 2048 then [192 + r / 64; 128 + r mod 64]
    else if r <? 65536 then [224 + r / 4096; 128 + r / 64 mod 64; 128 + r mod 64]
    else [240 + r / 262144; 128 + r / 4096 mod 64; 128 + r / 64 mod 64; 128 + r mod 64].

(** ** [strings] *)

(** [strings.Split] by one byte. *)
Fixpoint split_byte (sep : ascii) (s : bytes) : list bytes :=
  match s with
  | [] => [[]]
  | c :: s' =>
      if decide (c = sep) then [] :: split_byte sep s' else
      match split_byte sep s' with
      | l :: ls => (c :: l) :: ls
      | [] => [[c]]
      end
  end.

Definition Join (ls : list string) (sep : string) : string := String.concat sep ls.

(** [strings.Fields]: the runs of bytes between the encodings of white space. *)
Definition flush (run : bytes) (rest : list bytes) : list bytes :=
  match run with [] => rest | _ => reverse run :: rest end.

Fixpoint fields_from (fuel : nat) (run s : bytes) : list bytes :=
  match fuel, s with
  | S fuel, c :: s' =>
      match strip_any unicode_spaces s with
      | Some r => flush run (fields_from fuel [] r)
      | None => fields_from fuel (c :: run) s'
      end
  | _, _ => flush run []
  end.

Definition Fields (s : bytes) : list bytes := fields_from (length s) [] s.

(** What follows the last [/], if there is one. *)
Definition after_last_slash (s : bytes) : bytes := default s (last (split_byte "/" s)).

(** ** Regular expressions

    The fragment the gate uses, matched as [regexp] matches it: the leftmost
    match, the first one in the order of preference of a backtracking matcher, a
    repetition preferring to go on. A class is a predicate on bytes, which is
    exact for the classes used here (digits, spaces, a byte other than a
    backquote, any byte but a newline). *)
Inductive re :=
  | Class (p : ascii -> bool)
  | Seq (a b : re)
  | Star (a : re)
  | Group (a : re).

Definition Plus (a : re) : re := Seq a (Star a).
Definition Lit (c : ascii) : re := Class (fun x => bool_decide (x = c)).

Fixpoint Word (c : ascii) (w : bytes) : re :=
  match w with
  | [] => Lit c
  | d :: w => Seq (Lit c) (Word d w)
  end.

Section matcher.
Context {A : Type}.

(** [m] is the body of the repetition; an iteration has to consume. *)
Fixpoint star (m : bytes -> list bytes -> (bytes -> list bytes -> option A) -> option A)
    (fuel : nat) (s : bytes) (caps : list bytes) (k : bytes -> list bytes -> option A) : option A :=
  match fuel with
  | O => k s caps
  | S fuel =>
      match
        m s caps (fun s' caps' =>
          if decide (length s' < length s)%nat then star m fuel s' caps' k else None)
      with
      | Some x => Some x
      | None => k s caps
      end
  end.

(** [caps] are the texts of the groups closed so far. *)
Fixpoint match_re (r : re) (s : bytes) (caps : list bytes) (k : bytes -> list bytes -> option A) : option A :=
  match r with
  | Class p =>
      match s with
      | c :: s' => if p c then k s' caps else None
      | [] => None
      end
  | Seq a b => match_re a s caps (fun s' caps' => match_re b s' caps' k)
  | Star a => star (match_re a) (length s) s caps k
  | Group a =>
      match_re a s caps (fun s' caps' => k s' (caps' ++ [take (length s - length s') s]))
  end.
End matcher.

(** A pattern: [^] and [$] around an expression. *)
Record regexp := mkRegexp { at_start : bool; pattern : re; at_end : bool }.

Definition match_here (r : regexp) (s : bytes) : option (list bytes) :=
  match_re (pattern r) s [] (fun s' caps => if at_end r && negb (bool_decide (s' = [])) then None else Some caps).

Fixpoint match_later (r : regexp) (s : bytes) : option (list bytes) :=
  match match_here r s with
  | Some caps => Some caps
  | None => match s with [] => None | _ :: s' => match_later r s' end
  end.

(** [FindStringSubmatch], without the whole match, and [MatchString]. *)
Definition FindStringSubmatch (r : regexp) (s : bytes) : option (list bytes) :=
  if at_start r then match_here r s else match_later r s.

Definition MatchString (r : regexp) (s : bytes) : bool := bool_decide (is_Some (FindStringSubmatch r s)).

(** ** String literals: [strconv.UnquoteChar] and [strconv.Unquote] *)
Definition backslash : ascii := "092"%char.
Definition dquote : ascii := "034"%char.
Definition squote : ascii := "'"%char.
Definition backquote : ascii := "`"%char.

Definition unhex (c : ascii) : option Z :=
  let n := byte_Z c in
  if in_range "0" "9" c then Some (n - 48)
  else if in_range "a" "f" c then Some (n - 97 + 10)
  else if in_range "A" "F" c then Some (n - 65 + 10)
  else None.

Definition unoctal (c : ascii) : option Z :=
  if in_range "0" "7" c then Some (byte_Z c - 48) else None.

(** Exactly [n] digits. *)
Fixpoint digits_exact (digit : ascii -> option Z) (base : Z) (n : nat) (v : Z) (s : bytes) : option (Z * bytes) :=
  match n with
  | O => Some (v, s)
  | S n =>
      match s with
      | c :: s' => x ← digit c; digits_exact digit base n (v * base + x) s'
      | [] => None
      end
  end.

Definition simple_escapes : list (ascii * Z) :=
  [("a"%char, 7); ("b"%char, 8); ("f"%char, 12); ("n"%char, 10); ("r"%char, 13); ("t"%char, 9);
   ("v"%char, 11); (backslash, 92)].

(** The value, whether it is written in UTF-8, and the rest. *)
Definition UnquoteChar (s : bytes) (quote : ascii) : option (Z * bool * bytes) :=
  match s with
  | [] => None
  | c :: s1 =>
      if decide (c = quote) then None
      else if 128 <=? byte_Z c then let '(r, w) := decode_rune s in Some (r, true, drop w s)
      else if negb (bool_decide (c = backslash)) then Some (byte_Z c, false, s1) else
      match s1 with
      | [] => None
      | e :: s2 =>
          match snd <$> (snd <$> list_find (fun p => fst p = e) simple_escapes) with
          | Some v => Some (v, false, s2)
          | None =>
              if decide (e = "x"%char) then
                '(v, s3) ← digits_exact unhex 16 2 0 s2; Some (v, false, s3)
              else if decide (e = "u"%char \/ e = "U"%char) then
                '(v, s3) ← digits_exact unhex 16 (if decide (e = "u"%char) then 4 else 8) 0 s2;
                if ValidRune v then Some (v, true, s3) else None
              else if in_range "0" "7" e then
                '(v, s3) ← digits_exact unoctal 8 3 0 s1;
                if 255 <? v then None else Some (v, false, s3)
              else if decide ((e = squote \/ e = dquote) /\ e = quote) then Some (byte_Z e, false, s2)
              else None
          end
      end
  end.

(** The loop over the characters of an interpreted literal: the text, and what
    follows the closing quote. *)
Fixpoint unquote_loop (fuel : nat) (quote : ascii) (single : bool) (buf s : bytes) : option (bytes * bytes) :=
  match fuel, s with
  | S fuel, c :: s1 =>
      if decide (c = quote) then Some (buf, s1)
      else if decide (c = LF) then None else
      '(r, multibyte, rem) ← UnquoteChar s quote;
      let buf := buf ++ (if (r <? 128) || negb multibyte then [Z_byte r] else encode_rune r) in
      if single then
        match rem with
        | q :: rem => if decide (q = quote) then Some (buf, rem) else None
        | [] => None
        end
      else unquote_loop fuel quote single buf rem
  | _, _ => None
  end.

(** The text up to the first closing quote, and what follows it. *)
Fixpoint cut_at (q : ascii) (s : bytes) : option (bytes * bytes) :=
  match s with
  | [] => None
  | c :: s' =>
      if decide (c = q) then Some ([], s') else
      match cut_at q s' with Some (a, b) => Some (c :: a, b) | None => None end
  end.

(** A literal without escapes is its own text when that is valid UTF-8 (one rune,
    for a character); the loop does the rest. *)
Definition plain_literal (quote : ascii) (inner : bytes) : bool :=
  forallb (fun c => negb (bool_decide (c = backslash \/ c = LF))) inner
  && if decide (quote = dquote) then ValidString inner
     else let '(r, w) := decode_rune inner in
          bool_decide (w = length inner) && negb (bool_decide (r = RuneError /\ w = 1%nat)).

Definition unquote (s : bytes) : option (bytes * bytes) :=
  match s with
  | quote :: t =>
      '(inner, rest) ← cut_at quote t;
      if decide (quote = backquote) then Some (filter (fun c => c <> CR) inner, rest)
      else if decide (quote = dquote \/ quote = squote) then
        if plain_literal quote inner then Some (inner, rest)
        else unquote_loop (length t) quote (bool_decide (quote = squote)) [] t
      else None
  | [] => None
  end.

Definition Unquote (s : string) : option string :=
  '(out, rem) ← unquote (text s);
  if decide (rem = []) then Some (str out) else None.

Definition ErrSyntax : error := ESentinel "invalid syntax".

(** ** Padding: [%-Ns] and [%Nd] *)
Definition spaces (n : nat) : string := str (repeat " "%char n).
Definition pad_right (n : nat) (s : string) : string := s +:+ spaces (n - RuneCount s).
Definition pad_left (n : nat) (s : string) : string := spaces (n - RuneCount s) +:+ s.

(** ** Lexical paths on Unix

    [filepath.Clean] on the elements of a path: [.] and empty elements go, [..]
    takes the element before it away. *)
Definition elements (p : string) : list string := (fun l => str l) <$> split_byte "/" (text p).
Definition rooted (p : string) : bool := has_prefix p "/".

Definition clean_step (root : bool) (stack : list string) (e : string) : list string :=
  if decide (e = "" \/ e = ".") then stack
  else if decide (e = "..") then
    match stack with
    | top :: below => if decide (top = "..") then e :: stack else below
    | [] => if root then [] else [e]
    end
  else e :: stack.

Definition clean_elements (p : string) : list string :=
  reverse (foldl (clean_step (rooted p)) [] (elements p)).

Definition Clean (p : string) : string :=
  match clean_elements p with
  | [] => if rooted p then "/" else "."
  | es => (if rooted p then "/" else "") +:+ Join es "/"
  end.

(** [filepath.Join]: the elements that are not empty, cleaned. *)
Definition path_Join (ps : list string) : string :=
  match filter (fun p => p <> "") ps with
  | [] => ""
  | ps => Clean (Join ps "/")
  end.

(** [filepath.Dir]. *)
Definition Dir (p : string) : string :=
  match split_byte "/" (text p) with
  | [_] => "."
  | ls => Clean (Join ((fun l => str l) <$> removelast ls) "/" +:+ "/")
  end.

Fixpoint strip_common (bs ts : list string) : list string * list string :=
  match bs, ts with
  | b :: bs', t :: ts' => if decide (b = t) then strip_common bs' ts' else (bs, ts)
  | _, _ => (bs, ts)
  end.

Definition or_dot (es : list string) : list string := match es with [] => ["."] | _ => es end.

(** [filepath.Rel]. *)
Definition Rel (base targ : string) : option string :=
  if decide (Clean base = Clean targ) then Some "."
  else if negb (bool_decide (rooted base = rooted targ)) then None else
  match strip_common (clean_elements base)
          (if rooted targ then clean_elements targ else or_dot (clean_elements targ)) with
  | (".." :: _, _) => None
  | (bs, ts) => Some (Join (((fun _ => "..") <$> bs) ++ ts) "/")
  end.

Example clean_examples :
  Clean "/a/./b//../c/" = "/a/c" /\ Clean "../../x/.." = "../.." /\ Clean "" = "." /\ Clean "/.." = "/"
  /\ Dir "/r/scripts/paritygate/main.go" = "/r/scripts/paritygate" /\ path_Join ["/r"; ""; "client/routes.go"] = "/r/client/routes.go"
  /\ Rel "/r" "/r/pkg/services/a.go" = Some "pkg/services/a.go" /\ Rel "a/b" "a/c/d" = Some "../c/d"
  /\ Rel "/r" "/r" = Some "." /\ Rel ".." "a" = None.
Proof. vm_compute. done. Qed.

Example unquote_examples :
  Unquote (Quote "/trade/TradeLogin") = Some "/trade/TradeLogin"
  /\ Unquote (str (backquote :: text "a\b" ++ [backquote])) = Some "a\b"
  /\ Unquote (str (dquote :: text "\x41\u00e9\101\n" ++ [dquote])) = Some (str [("A")%char; "195"%char; "169"%char; ("A")%char; LF])
  /\ Unquote (str (dquote :: text "\'" ++ [dquote])) = None
  /\ Unquote "'x'" = Some "x" /\ Unquote "'xy'" = None /\ Unquote "12" = None.
Proof. vm_compute. done. Qed.

(** ** The language of an expression *)
Inductive lang : re -> bytes -> Prop :=
  | lang_class p c : p c = true -> lang (Class p) [c]
  | lang_seq a b s t : lang a s -> lang b t -> lang (Seq a b) (s ++ t)
  | lang_star_nil a : lang (Star a) []
  | lang_star_cons a s t : s <> [] -> lang a s -> lang (Star a) t -> lang (Star a) (s ++ t)
  | lang_group a s : lang a s -> lang (Group a) s.

Section matcher_spec.
Context {A : Type}.
Implicit Types (s : bytes) (caps : list bytes) (k : bytes -> list bytes -> option A).

Lemma match_re_sound r s caps k x :
  match_re r s caps k = Some x ->
  exists pre s' caps', s = pre ++ s' /\ lang r pre /\ k s' caps' = Some x.
Proof.
  revert s caps k x. induction r as [p|a IHa b IHb|a IHa|a IHa]; intros s caps k x; cbn [match_re].
  - destruct s as [|c s]; [done |]. destruct (p c) eqn:Hp; [| done]. intros Hk.
    exists [c], s, caps. by repeat constructor.
  - intros (u & s1 & caps1 & -> & Hu & (v & s2 & caps2 & -> & Hv & Hk)%IHb)%IHa.
    exists (u ++ v), s2, caps2. rewrite <- app_assoc. by repeat constructor.
  - generalize (length s). intros fuel. revert s caps.
    induction fuel as [|fuel IH]; intros s caps; cbn [star]; [intros Hk; exists [], s, caps; by repeat constructor |].
    destruct (match_re a s caps _) as [y|] eqn:Hm; [| intros Hk; exists [], s, caps; by repeat constructor].
    intros [= ->]. apply IHa in Hm as (u & s1 & caps1 & -> & Hu & Hm).
    case_decide as Hlt; [| done]. apply IH in Hm as (v & s2 & caps2 & -> & Hv & Hk).
    exists (u ++ v), s2, caps2. rewrite <- app_assoc. split_and!; [done | | done].
    constructor; [| done | done]. intros ->. simpl in Hlt. lia.
  - intros (u & s1 & caps1 & -> & Hu & Hk)%IHa. exists u, s1. eexists. by repeat constructor.
Qed.

Lemma star_complete a
    (IHa : forall pre, lang a pre -> forall s' caps k,
      (forall caps', is_Some (k s' caps')) -> is_Some (match_re a (pre ++ s') caps k)) r pre :
  lang r pre -> r = Star a ->
  forall fuel s' caps k, (length pre <= fuel)%nat -> (forall caps', is_Some (k s' caps')) ->
  is_Some (star (match_re a) fuel (pre ++ s') caps k).
Proof.
  induction 1 as [| | |a' u v Hne Hu _ Hv IHv|]; intros [= ->] fuel s' caps k Hf Hk.
  - destruct fuel as [|fuel]; [apply Hk |]. cbn [star app]. by destruct (match_re _ _ _ _).
  - rewrite length_app in Hf. destruct u as [|c u]; [done |].
    destruct fuel as [|fuel]; [simpl in Hf; lia |]. cbn [star]. rewrite <- app_assoc.
    destruct (match_re a _ _ _) as [y|] eqn:Hm; [done |]. exfalso.
    apply (is_Some_None (A := A)). rewrite <- Hm. apply IHa; [done |].
    intros caps'. rewrite decide_True by (rewrite !length_app; simpl; lia).
    apply IHv; [done | simpl in Hf; lia | done].
Qed.

Lemma match_re_complete r pre :
  lang r pre -> forall s' caps k,
  (forall caps', is_Some (k s' caps')) -> is_Some (match_re r (pre ++ s') caps k).
Proof.
  revert pre. induction r as [p|a IHa b IHb|a IHa|a IHa]; intros pre Hl s' caps k Hk; cbn [match_re].
  - inversion Hl; subst. simpl. rewrite H0. apply Hk.
  - inversion Hl; subst. rewrite <- app_assoc. eauto.
  - eapply star_complete; eauto. rewrite length_app. lia.
  - inversion Hl; subst. eauto.
Qed.
End matcher_spec.

(** What it is for a pattern to be found in a text. *)
Definition occurs (r : regexp) (s : bytes) : Prop :=
  exists pre mid post, s = pre ++ mid ++ post /\ lang (pattern r) mid
    /\ (at_start r = true -> pre = []) /\ (at_end r = true -> post = []).

Lemma match_here_spec r s :
  is_Some (match_here r s) <->
  exists mid post, s = mid ++ post /\ lang (pattern r) mid /\ (at_end r = true -> post = []).
Proof.
  unfold match_here. split.
  - intros [x (pre & s' & caps' & -> & Hl & Hk)%match_re_sound]. exists pre, s'. split_and!; [done | done |].
    intros He. rewrite He in Hk. destruct s'; [done |]. by rewrite bool_decide_eq_false_2 in Hk.
  - intros (mid & post & -> & Hl & He). apply match_re_complete; [done |]. intros caps'.
    destruct (at_end r); [by rewrite He |]; done.
Qed.

Lemma match_later_spec r s :
  is_Some (match_later r s) <->
  exists pre mid post, s = pre ++ mid ++ post /\ lang (pattern r) mid /\ (at_end r = true -> post = []).
Proof.
  induction s as [|c s IH]; cbn [match_later].
  - pose proof (match_here_spec r []) as Hh. destruct (match_here r []) as [caps|].
    + split; [intros _ | done]. destruct Hh as [(mid & post & ?) _]; [done |]. by exists [], mid, post.
    + split; [by intros [] |]. intros ([|] & mid & post & Heq & ?); [| done]. apply Hh. by exists mid, post.
  - pose proof (match_here_spec r (c :: s)) as Hh. destruct (match_here r (c :: s)) as [caps|].
    + split; [intros _ | done]. destruct Hh as [(mid & post & ?) _]; [done |]. by exists [], mid, post.
    + rewrite IH. split.
      * intros (pre & mid & post & -> & ?). by exists (c :: pre), mid, post.
      * intros ([|b pre] & mid & post & Heq & ?); simplify_eq/=; [| by exists pre, mid, post].
        destruct Hh as [_ Hh]. destruct Hh as [? ?]; [by exists mid, post | done].
Qed.

(** The matcher finds a pattern exactly where its language says. *)
Lemma MatchString_spec r s : MatchString r s = true <-> occurs r s.
Proof.
  unfold MatchString, FindStringSubmatch, occurs. rewrite bool_decide_eq_true. destruct (at_start r).
  - rewrite match_here_spec. split.
    + intros (mid & post & -> & ? & ?). by exists [], mid, post.
    + intros (pre & mid & post & -> & ? & Hp & ?). rewrite Hp by done. by exists mid, post.
  - rewrite match_later_spec. naive_solver.
Qed.

(** [strconv.Atoi] with its error, for a text of digits. *)
Definition strconv_Atoi (s : string) : Z + error :=
  match Atoi s with
  | Some z => inl z
  | None => inr (EWrap ("strconv.Atoi: parsing " +:+ Quote s +:+ ": value out of range") (ESentinel "value out of range"))
  end.

(** Digits are a number that is not negative. *)
Definition digit_class : re := Class is_dig.

Lemma lang_digits s : lang (Plus digit_class) s -> s <> [] /\ forallb is_dig s = true.
Proof.
  assert (Hstar : forall r s, lang r s -> r = Star digit_class -> forallb is_dig s = true).
  { induction 1 as [| | |a u v Hne Hu _ Hv IHv|]; intros [= ->]; [done |].
    inversion Hu; subst. cbn [app forallb]. rewrite H0. by apply IHv. }
  intros Hl. inversion Hl as [|a b u v Hu Hv| | |]; subst. inversion Hu; subst.
  split; [done |]. cbn [app forallb]. rewrite H0. by eapply Hstar.
Qed.

Lemma digits_value_nonneg acc s v : 0 <= acc -> digits_value acc s = Some v -> 0 <= v.
Proof.
  revert acc. induction s as [|c s IH]; intros acc Ha; cbn [digits_value]; [by intros [= <-] |].
  destruct (digit_value c) as [d|] eqn:Hd; [| done]. cbn. apply IH.
  unfold digit_value in Hd. case_decide; simplify_eq. lia.
Qed.

Lemma Atoi_digits s z : forallb is_dig (text s) = true -> Atoi s = Some z -> 0 <= z <= int_max.
Proof.
  unfold Atoi, parse_int. intros Hd.
  assert (scanSign (text s) = (false, text s)) as ->.
  { destruct (text s) as [|c t]; [done |]. cbn [forallb] in Hd. apply andb_true_iff in Hd as [Hc _].
    by destruct c as [[] [] [] [] [] [] [] []]. }
  case_decide; [done |]. destruct (digits_value 0 (text s)) as [v|] eqn:Hv; [| done].
  apply digits_value_nonneg in Hv; [| done]. simpl. case_decide; [| done]. intros [= <-]. simpl in *. lia.
Qed.
