(* ===== verification/GoAst.v ===== *)
(** The syntax trees of [go/ast] and their traversal, as the parity gate reads them.

    [parser.ParseFile] is a parameter of the gate; its result is one of the trees
    below. A node has the fields the gate looks at or walks through; every other
    kind of node is an [Other], with its Go type and the nodes below it in the order of [ast.Walk].
    Comments are left out (no callback looks at them), and so are field lists and
    fields as nodes of their own: they are walked through. A missing field list has
    no fields, which the program treats in the same way. *)
From S2P Require Import Prelude Types Errs.
Local Open Scope Z_scope.

Set Warnings "-register-all".

Record ident := mkIdent { Name : string; NamePos : Z }.

Inductive litKind := INT | FLOAT | IMAG | CHAR | STRING.

Inductive token := DEFINE | CONST | VAR | OtherTok.

#[global] Instance litKind_eq_dec : EqDecision litKind.
Proof. solve_decision. Defined.
#[global] Instance token_eq_dec : EqDecision token.
Proof. solve_decision. Defined.
#[global] Instance ident_eq_dec : EqDecision ident.
Proof. solve_decision. Defined.

Record basicLit := mkLit { Kind : litKind; Value : string; ValuePos : Z }.

Record field {N : Type} := mkField { Names : list ident; FieldType : option N; Tag : option basicLit }.
Arguments field : clear implicits.
Arguments mkField {N} Names FieldType Tag.

Record funcType {N : Type} := mkFuncType {
  FuncPos : Z;
  TypeParams : list (field N);
  Params : list (field N);
  Results : list (field N);
}.
Arguments funcType : clear implicits.
Arguments mkFuncType {N} FuncPos TypeParams Params Results.

Inductive node :=
  | Ident (id : ident)
  | BasicLit (lit : basicLit)
  | SelectorExpr (X : node) (Sel : ident)
  | CallExpr (Fun : node) (Args : list node)
  | CompositeLit (Lbrace : Z) (Type_ : option node) (Elts : list node)
  | KeyValueExpr (Key Val : node)
  | FuncTypeExpr (t : funcType node)
  | FuncLit (t : funcType node) (Body : node)
  | StructType (Struct : Z) (Fields : list (field node))
  | AssignStmt (Lhs : list node) (Tok : token) (Rhs : list node)
  | RangeStmt (For : Z) (Key Val : option node) (Tok : token) (X Body : node)
  | TypeSwitchStmt (Switch : Z) (Init : option node) (Assign Body : node)
  | ImportSpec (Name_ : option ident) (Path : option basicLit)
  | ValueSpec (Names_ : list ident) (Type_ : option node) (Values : list node)
  | TypeSpec (Name_ : ident) (TypeParams_ : list (field node)) (Type_ : node)
  | GenDecl (TokPos : Z) (Tok : token) (Specs : list node)
  | FuncDecl (Recv : option (list (field node))) (Name_ : ident) (t : funcType node) (Body : option node)
  | Other (GoType : string) (Pos_ : Z) (children_ : list node).

(** A parsed file; [Line] is [fset.Position(pos).Line]. *)
Record file := mkFile { PkgName : ident; Decls : list node; Line : Z -> Z }.

(** ** [ast.Inspect]

    The nodes in the order in which a callback that always answers [true] gets
    them. *)
Definition ident_nodes (ids : list ident) : list node := Ident <$> ids.
Definition lit_nodes (l : option basicLit) : list node := match l with Some l => [BasicLit l] | None => [] end.
Definition id_nodes (i : option ident) : list node := match i with Some i => [Ident i] | None => [] end.

Section walks.
Context (walk : node -> list node).

Definition walk_opt (o : option node) : list node := match o with Some n => walk n | None => [] end.

Definition walk_list (ns : list node) : list node := flat_map walk ns.

Definition walk_field (f : field node) : list node :=
  match f with
  | mkField ids t tag =>
      ident_nodes ids ++ match t with Some n => walk n | None => [] end ++ lit_nodes tag
  end.

Definition walk_fields (fs : list (field node)) : list node := flat_map walk_field fs.

Definition walk_func (t : funcType node) : list node :=
  match t with mkFuncType _ tps ps rs => walk_fields tps ++ walk_fields ps ++ walk_fields rs end.

(** What is below a node. *)
Definition walk_below (n : node) : list node :=
  match n with
  | Ident _ | BasicLit _ => []
  | SelectorExpr x sel => walk x ++ [Ident sel]
  | CallExpr f args => walk f ++ walk_list args
  | CompositeLit _ t elts => walk_opt t ++ walk_list elts
  | KeyValueExpr k v => walk k ++ walk v
  | FuncTypeExpr t => walk_func t
  | FuncLit t body => walk_func t ++ walk body
  | StructType _ fs => walk_fields fs
  | AssignStmt l _ r => walk_list l ++ walk_list r
  | RangeStmt _ k v _ x body => walk_opt k ++ walk_opt v ++ walk x ++ walk body
  | TypeSwitchStmt _ i a body => walk_opt i ++ walk a ++ walk body
  | ImportSpec i p => id_nodes i ++ lit_nodes p
  | ValueSpec ids t vs => ident_nodes ids ++ walk_opt t ++ walk_list vs
  | TypeSpec i tps t => Ident i :: walk_fields tps ++ walk t
  | GenDecl _ _ specs => walk_list specs
  | FuncDecl recv i t body =>
      match recv with Some fs => walk_fields fs | None => [] end
      ++ Ident i :: walk_func t ++ walk_opt body
  | Other _ _ cs => walk_list cs
  end.
End walks.

Fixpoint Inspect (n : node) : list node := n :: walk_below Inspect n.

(** [ast.Inspect] on a file, the file itself apart. *)
Definition Inspect_file (f : file) : list node := Ident (PkgName f) :: flat_map Inspect (Decls f).

(** [Node.Pos], as the nodes define it. *)
Fixpoint Pos (n : node) : Z :=
  match n with
  | Ident id => NamePos id
  | BasicLit lit => ValuePos lit
  | SelectorExpr x _ => Pos x
  | CallExpr f _ => Pos f
  | CompositeLit lb t _ => match t with Some t => Pos t | None => lb end
  | KeyValueExpr k _ => Pos k
  | FuncTypeExpr t | FuncLit t _ => FuncPos t
  | StructType p _ | RangeStmt p _ _ _ _ _ | TypeSwitchStmt p _ _ _ | GenDecl p _ _ | Other _ p _ => p
  | AssignStmt l _ _ => match l with x :: _ => Pos x | [] => 0 end
  | ImportSpec i p => match i, p with Some i, _ => NamePos i | None, Some l => ValuePos l | None, None => 0 end
  | ValueSpec ids _ _ => match ids with i :: _ => NamePos i | [] => 0 end
  | TypeSpec i _ _ => NamePos i
  | FuncDecl _ _ t _ => FuncPos t
  end.

Definition field_Pos (f : field node) : Z :=
  match Names f with
  | i :: _ => NamePos i
  | [] => match FieldType f with Some t => Pos t | None => 0 end
  end.

(** The verb [%T]. *)
Definition type_name (n : node) : string :=
  match n with
  | Ident _ => "*ast.Ident"
  | BasicLit _ => "*ast.BasicLit"
  | SelectorExpr _ _ => "*ast.SelectorExpr"
  | CallExpr _ _ => "*ast.CallExpr"
  | CompositeLit _ _ _ => "*ast.CompositeLit"
  | KeyValueExpr _ _ => "*ast.KeyValueExpr"
  | FuncTypeExpr _ => "*ast.FuncType"
  | FuncLit _ _ => "*ast.FuncLit"
  | StructType _ _ => "*ast.StructType"
  | AssignStmt _ _ _ => "*ast.AssignStmt"
  | RangeStmt _ _ _ _ _ _ => "*ast.RangeStmt"
  | TypeSwitchStmt _ _ _ _ => "*ast.TypeSwitchStmt"
  | ImportSpec _ _ => "*ast.ImportSpec"
  | ValueSpec _ _ _ => "*ast.ValueSpec"
  | TypeSpec _ _ _ => "*ast.TypeSpec"
  | GenDecl _ _ _ => "*ast.GenDecl"
  | FuncDecl _ _ _ _ => "*ast.FuncDecl"
  | Other t _ _ => t
  end.

(** ** The traversal reaches the nodes below a node, and no other

    [child] is one step down. *)
Definition children (n : node) : list node := walk_below (fun c => [c]) n.
Definition child (n c : node) : Prop := c ∈ children n.
Definition subnode : node -> node -> Prop := rtc child.

(** A node of a file. *)
Definition node_of (f : file) (n : node) : Prop :=
  n = Ident (PkgName f) \/ exists d, d ∈ Decls f /\ subnode d n.

Section below.
Context (w : node -> list node).
Hypothesis w_ident : forall i, w (Ident i) = [Ident i].
Hypothesis w_lit : forall l, w (BasicLit l) = [BasicLit l].

Lemma walk_idents ids : ident_nodes ids = flat_map w (ident_nodes ids).
Proof using w_ident. induction ids as [|i ids IH]; [done |]. simpl. by rewrite w_ident, <- IH. Qed.

Lemma walk_lit l : lit_nodes l = flat_map w (lit_nodes l).
Proof using w_lit. destruct l; [| done]. simpl. by rewrite w_lit. Qed.

Lemma walk_id i : id_nodes i = flat_map w (id_nodes i).
Proof using w_ident. destruct i; [| done]. simpl. by rewrite w_ident. Qed.

Lemma walk_opt_children o : walk_opt w o = flat_map w (walk_opt (fun c => [c]) o).
Proof using. destruct o; [| done]. simpl. by rewrite app_nil_r. Qed.

Lemma walk_list_children l : walk_list w l = flat_map w (walk_list (fun c => [c]) l).
Proof using. unfold walk_list. induction l as [|n l IH]; [done |]. simpl. by rewrite IH. Qed.

Lemma walk_fields_children fs : walk_fields w fs = flat_map w (walk_fields (fun c => [c]) fs).
Proof using w_ident w_lit.
  unfold walk_fields. induction fs as [|[ids t tag] fs IH]; [done |].
  cbn [flat_map walk_field]. rewrite !flat_map_app, <- IH, <- walk_idents, <- walk_lit.
  destruct t as [n|]; simpl; by rewrite ?app_nil_r.
Qed.

Lemma walk_func_children t : walk_func w t = flat_map w (walk_func (fun c => [c]) t).
Proof using w_ident w_lit.
  destruct t as [p a b c]. cbn [walk_func]. by rewrite !flat_map_app, <- !walk_fields_children.
Qed.

Lemma walk_below_children n : walk_below w n = flat_map w (children n).
Proof using w_ident w_lit.
  assert (Hone : forall n, flat_map w [n] = w n) by (intros; apply app_nil_r).
  unfold children. destruct n; cbn [walk_below];
    rewrite ?flat_map_app; cbn [flat_map]; rewrite ?flat_map_app, ?Hone, ?w_ident, ?app_nil_r,
      <- ?walk_opt_children, <- ?walk_list_children, <- ?walk_fields_children, <- ?walk_func_children,
      <- ?walk_idents, <- ?walk_lit, <- ?walk_id; try done.
  destruct Recv as [fs|]; [by rewrite <- walk_fields_children | done].
Qed.
End below.

Lemma Inspect_unfold n : Inspect n = n :: flat_map Inspect (children n).
Proof.
  transitivity (n :: walk_below Inspect n); [by destruct n |].
  f_equal. by apply walk_below_children.
Qed.

Lemma elem_of_flat_map {A B} (f : A -> list B) l b : b ∈ flat_map f l <-> exists a, a ∈ l /\ b ∈ f a.
Proof.
  rewrite list_elem_of_In, in_flat_map. setoid_rewrite list_elem_of_In. done.
Qed.

Lemma Inspect_child n c : child n c -> (length (Inspect c) < length (Inspect n))%nat.
Proof.
  intros (l1 & l2 & Hc)%list_elem_of_split. rewrite (Inspect_unfold n), Hc, flat_map_app. simpl.
  rewrite !length_app. lia.
Qed.

(** Induction on the nodes below. *)
Lemma node_below_ind (P : node -> Prop) : (forall n, (forall c, child n c -> P c) -> P n) -> forall n, P n.
Proof.
  intros Hstep n. induction n as [n IH] using (induction_ltof1 _ (fun n => length (Inspect n))).
  apply Hstep. intros c Hc. by apply IH, Inspect_child.
Qed.

(** The callback of [ast.Inspect] gets exactly the nodes below its argument. *)
Lemma Inspect_spec n x : x ∈ Inspect n <-> subnode n x.
Proof.
  split.
  - revert n. apply (node_below_ind (fun n => x ∈ Inspect n -> subnode n x)). intros n IH.
    rewrite Inspect_unfold, elem_of_cons, elem_of_flat_map. intros [-> | (c & Hc & Hx)]; [reflexivity |].
    eapply rtc_l; [exact Hc | by apply IH].
  - induction 1 as [n|n c x Hc _ IH]; rewrite Inspect_unfold; [left |].
    right. apply elem_of_flat_map. by exists c.
Qed.

Lemma Inspect_file_spec f x : x ∈ Inspect_file f <-> node_of f x.
Proof.
  unfold Inspect_file, node_of. rewrite elem_of_cons, elem_of_flat_map. by setoid_rewrite Inspect_spec.
Qed.
