(* ===== verification/Parity.v ===== *)
(** The parity gate: [src/scripts/paritygate/main.go].

    The gate reads the routes of [client/routes.go], the counts of [docs/SPEC.md] and
    the sources of the scan roots, and decides whether every declared route is named
    by a service. The file system and [parser.ParseFile] are a parameter, [World];
    an index or a slice bound out of range is a panic ([outcome]); [int] is 64 bits
    wide. Flags and the exit of the process are left out: [gate] is what [main] does
    with a configuration. *)
From stdpp Require Import gmap pretty sorting.
From S2P Require Import Prelude Types Errs Domain Service GoNumbers GoText GoAst.
Local Open Scope Z_scope.

Set Warnings "-register-all".

(** ** What the gate reads *)

(** A directory tree, as [filepath.WalkDir] finds it: a directory that cannot be
    read has an error. *)
Inductive entry :=
  | FileEntry (name : string)
  | DirEntry (name : string) (err : option error) (contents : list entry).

Definition entry_name (e : entry) : string :=
  match e with FileEntry n | DirEntry n _ _ => n end.

Record World := mkWorld {
  Stat : string -> option bool;                    (* whether it is a directory *)
  ReadFile : string -> bytes + (bool * error);     (* an error, and whether it says that there is no file *)
  ParseFile : string -> file + error;
  Tree : string -> entry + error;
  CallerFile : option string;
  Getwd : option string;
}.

(** ** Names and messages *)
Definition pkgIdent : string := "client".
Definition quoted (s : string) : string := str [dquote] +:+ s +:+ str [dquote].
Definition ticked (s : string) : string := str [backquote] +:+ s +:+ str [backquote].
Definition clientImportPath : string := quoted "github.com/shing1211/hstongapi4go/client".
Definition routesRel : string := "client/routes.go".
Definition specRel : string := "docs/SPEC.md".

Definition errNoRouteConstants : string := "no " +:+ ticked "Route" +:+ "-typed constants found in " +:+ routesRel.
Definition errNoRegistry : string := "no " +:+ ticked "canonicalRoutes" +:+ " map literal found in " +:+ routesRel.
Definition errManyRegistries : string :=
  "more than one " +:+ ticked "canonicalRoutes" +:+ " map literal found in " +:+ routesRel.
Definition errNoSpecTotal : string := specRel +:+ " declares no " +:+ quoted "**Total: N HTTP endpoints**" +:+ " line".
Definition errManySpecTotals : string :=
  specRel +:+ " declares more than one " +:+ quoted "**Total: N HTTP endpoints**" +:+ " line".
Definition errNoSpecGroups : string := specRel +:+ " declares no " +:+ ticked "### 2.x" +:+ " group headers".
Definition errNoSpecRows : string := specRel +:+ " declares no numbered route rows".
Definition errNoBreakdown : string := specRel +:+ " declares no " +:+ ticked "(a + b + ...)" +:+ " breakdown on the Total line".
Definition errNoSPECFile : string := specRel +:+ " does not exist".
Definition errNoRoutesFile : string := routesRel +:+ " does not exist".
Definition errNoRoot : string := "cannot locate the repository root".
Definition errNoReferences : string :=
  "no " +:+ ticked (pkgIdent +:+ ".RouteXxx") +:+ " reference found in any scanned non-test file".
Definition errNoSourcesFile : string := "no non-test .go file found in any scan root".

(** ** Patterns *)
Definition W (s : string) : re :=
  match text s with [] => Star (Class (fun _ => false)) | c :: w => Word c w end.
Definition number : re := Plus digit_class.
Definition blanks : re := Star (Lit " ").

Definition totalLineRE : regexp :=
  mkRegexp false (Seq (W "**Total: ") (Seq (Group number) (W " HTTP endpoints**"))) false.
Definition groupHeaderRE : regexp :=
  mkRegexp true (Seq (W "### 2.") (Seq (Group number) (Seq (W " ") (Group (Plus (Class (fun c => negb (bool_decide (c = LF))))))))) true.
Definition countFieldRE : regexp := mkRegexp true number true.
Definition routeRowRE : regexp :=
  mkRegexp true
    (Seq (Lit "|") (Seq blanks (Seq (Group number) (Seq blanks (Seq (Lit "|") (Seq blanks (Seq (Lit backquote)
      (Seq (Group (Plus (Class (fun c => negb (bool_decide (c = backquote))))))
        (Seq (Lit backquote) (Seq blanks (Lit "|"))))))))))) false.
Definition breakdownRE : regexp :=
  mkRegexp false
    (Seq (Lit "(") (Seq (Group (Seq number (Star (Seq blanks (Seq (Lit "+") (Seq blanks number)))))) (Lit ")"))) false.

(** The runes of [titleTrimCutset]: space, tab, three dashes, colon, middle dot, bar. *)
Definition titleTrimCutset : list bytes :=
  bytes_of_nats <$> [[32]; [9]; [45]; [226; 128; 147]; [226; 128; 148]; [58]; [194; 183]; [124]]%nat.

Definition defaultScanRoots : list string := ["pkg/services"; "pkg/transport"; "internal/auth"].

(** ** The data *)
Record config := mkConfig {
  Root : string;
  Enforce : bool;
  Routes : string;
  Spec : string;
  Roots : list string;
}.

Record routeDecl := mkDecl { d_name : string; d_path : string; d_line : Z }.
Record registryEntry := mkEntry { e_name : string; e_path : string; e_line : Z }.
Record reference := mkRef { r_name : string; r_rel : string; r_line : Z }.
Record diagnostic := mkDiag { g_rel : string; g_line : Z; g_what : string }.
Record group := mkGroup { g_number : Z; g_title : string; g_declared : Z; g_start : Z }.
Record problem := mkProblem { p_err : error; p_hint : string }.

Record specInfo := mkSpec {
  s_total : Z;
  s_totalLine : Z;
  s_breakdown : list Z;
  s_groups : list group;
  s_rows : list string;
  s_rowNums : list Z;
}.

Definition noSpec : specInfo := mkSpec 0 0 [] [] [] [].

Record analysis := mkAnalysis {
  a_cfg : config;
  a_root : string;
  a_measured : bool;
  a_decls : list routeDecl;
  a_registry : list registryEntry;
  a_refs : list reference;
  a_diags : list diagnostic;
  a_spec : specInfo;
  a_grouped : bool;
  a_joinNote : string;
  a_groupOf : list Z;
  a_wiredName : gset string;
  a_problems : list problem;
}.

Definition defaultConfig : config := mkConfig "" false routesRel specRel defaultScanRoots.

Definition normalize (cfg : config) : config :=
  mkConfig (Root cfg) (Enforce cfg)
    (if decide (Routes cfg = "") then routesRel else Routes cfg)
    (if decide (Spec cfg = "") then specRel else Spec cfg)
    (if decide (Roots cfg = []) then defaultScanRoots else Roots cfg).

(** ** The repository root *)
Section world.
Context (w : World).

Definition hasFile (root rel : string) : bool :=
  if decide (root = "") then false
  else match Stat w (path_Join [root; rel]) with Some dir => negb dir | None => false end.

Definition resolveRoot (explicit routesRelPath : string) : string :=
  if decide (explicit <> "") then
    if hasFile explicit routesRelPath then Clean explicit else ""
  else
    let from_caller :=
      match CallerFile w with
      | Some thisFile =>
          let candidate := Clean (path_Join [Dir thisFile; ".."; ".."]) in
          if hasFile candidate routesRelPath then Some candidate else None
      | None => None
      end in
    match from_caller with
    | Some c => c
    | None =>
        match Getwd w with
        | Some wd => if hasFile wd routesRelPath then Clean wd else ""
        | None => ""
        end
    end.

(** ** [client/routes.go] *)
Definition isRouteType (t : option node) : bool :=
  match t with Some (Ident id) => bool_decide (Name id = "Route") | _ => false end.

Definition unquoteString (lit : basicLit) : string + error :=
  match Unquote (Value lit) with
  | Some v => inl v
  | None => inr (EWrap ("unquoting " +:+ Value lit +:+ ": " +:+ error_text ErrSyntax) ErrSyntax)
  end.

(** A loop that an error ends. *)
Fixpoint each {S A : Type} (f : S -> A -> S + error) (s : S) (l : list A) : S + error :=
  match l with
  | [] => inl s
  | x :: l => match f s x with inl s => each f s l | inr e => inr e end
  end.

Definition registry_key (k : node) (line : Z) : registryEntry + error :=
  let at_path (r : string + error) :=
    match r with inl v => inl (mkEntry "" v line) | inr e => inr e end in
  match k with
  | Ident id => inl (mkEntry (Name id) "" line)
  | BasicLit lit => at_path (unquoteString lit)
  | CallExpr _ args =>
      match args with
      | [BasicLit lit] => at_path (unquoteString lit)
      | [_] => inr (EText "a conversion key in canonicalRoutes must convert a string literal")
      | _ => inr (EText "a conversion key in canonicalRoutes must convert one string literal")
      end
  | _ => inr (EText ("unsupported canonicalRoutes key of type " +:+ type_name k))
  end.

Definition parseRegistry (line : Z -> Z) (values : list node) : list registryEntry + error :=
  match values with
  | [CompositeLit _ _ elts] =>
      each (fun entries elt =>
        match elt with
        | KeyValueExpr k _ =>
            match registry_key k (line (Pos elt)) with inl e => inl (entries ++ [e]) | inr e => inr e end
        | _ => inr (EText "every canonicalRoutes element must be a key: value pair")
        end) [] elts
  | [_] => inr (EText "canonicalRoutes must be initialized with a composite literal")
  | _ => inr (EText "canonicalRoutes must be initialized with one composite literal")
  end.

(** The constants, the number of registries met, and the entries of the last one. *)
Record routesState := mkRoutes { rt_decls : list routeDecl; rt_registries : nat; rt_registry : list registryEntry }.

Definition const_spec (path : string) (line : Z -> Z) (st : routesState) (spec : node) : routesState + error :=
  match spec with
  | ValueSpec names t values =>
      if negb (isRouteType t) then inl st else
      match names, values with
      | [id], [BasicLit lit] =>
          if decide (Kind lit = STRING) then
            match Unquote (Value lit) with
            | Some value =>
                inl (mkRoutes (rt_decls st ++ [mkDecl (Name id) value (line (Pos spec))]) (rt_registries st) (rt_registry st))
            | None =>
                inr (EWrap (path +:+ ": unquoting " +:+ Value lit +:+ ": " +:+ error_text ErrSyntax) ErrSyntax)
            end
          else inr (EText (path +:+ ": a Route constant must be initialized with a string literal"))
      | [_], [_] => inr (EText (path +:+ ": a Route constant must be initialized with a string literal"))
      | _, _ => inr (EText (path +:+ ": a Route constant must declare one name with one value"))
      end
  | _ => inl st
  end.

Definition var_spec (line : Z -> Z) (st : routesState) (spec : node) : routesState + error :=
  match spec with
  | ValueSpec [id] _ values =>
      if decide (Name id = "canonicalRoutes") then
        match parseRegistry line values with
        | inl entries => inl (mkRoutes (rt_decls st) (S (rt_registries st)) entries)
        | inr e => inr e
        end
      else inl st
  | _ => inl st
  end.

Definition routes_decl (path : string) (line : Z -> Z) (st : routesState) (d : node) : routesState + error :=
  match d with
  | GenDecl _ CONST specs => each (const_spec path line) st specs
  | GenDecl _ VAR specs => each (var_spec line) st specs
  | _ => inl st
  end.

Definition parseRoutes (path : string) : (list routeDecl * list registryEntry) + error :=
  match Stat w path with
  | None => inr (ESentinel errNoRoutesFile)
  | Some _ =>
      match ParseFile w path with
      | inr err => inr err
      | inl f =>
          match each (routes_decl path (Line f)) (mkRoutes [] 0 []) (Decls f) with
          | inr err => inr err
          | inl st =>
              match rt_registries st with
              | O => inr (ESentinel errNoRegistry)
              | S O => inl (rt_decls st, rt_registry st)
              | _ => inr (ESentinel errManyRegistries)
              end
          end
      end
  end.

(** ** [docs/SPEC.md] *)
Definition group_text (caps : list bytes) (i : nat) : string := str (default [] (caps !! i)).
Definition at_line (i : Z) (e : error) : error := EWrap (specRel +:+ ":" +:+ itoa i +:+ ": " +:+ error_text e) e.

(** The state of the loop over the lines. *)
Record specState := mkSpecState { sp_totals : nat; sp_info : specInfo }.

(** The terms of the breakdown. *)
Definition breakdown_term (i : Z) (acc : list Z) (term : bytes) : list Z + error :=
  match strconv_Atoi (str (TrimSpace term)) with
  | inl v => inl (acc ++ [v])
  | inr e => inr (EWrap (specRel +:+ ":" +:+ itoa i +:+ " breakdown term " +:+ Quote (str term) +:+ ": " +:+ error_text e) e)
  end.

Definition spec_total (i : Z) (line : bytes) (st : specState) : specState + error :=
  match FindStringSubmatch totalLineRE line with
  | None => inl st
  | Some m =>
      if decide (0 < sp_totals st)%nat then inr (ESentinel errManySpecTotals) else
      match strconv_Atoi (group_text m 0) with
      | inr e => inr (at_line i e)
      | inl n =>
          match FindStringSubmatch breakdownRE line with
          | None => inr (ESentinel errNoBreakdown)
          | Some mb =>
              let info := sp_info st in
              match each (breakdown_term i) (s_breakdown info) (split_byte "+" (text (group_text mb 0))) with
              | inr e => inr e
              | inl bd =>
                  inl (mkSpecState (S (sp_totals st))
                         (mkSpec n i bd (s_groups info) (s_rows info) (s_rowNums info)))
              end
          end
      end
  end.

Definition spec_group (i : Z) (line : bytes) (st : specState) : specState + error :=
  match FindStringSubmatch groupHeaderRE line with
  | None => inl st
  | Some m =>
      match strconv_Atoi (group_text m 0) with
      | inr e => inr (at_line i e)
      | inl n =>
          let fields := Fields (text (group_text m 1)) in
          match last fields with
          | Some f =>
              if MatchString countFieldRE f then
                match strconv_Atoi (str f) with
                | inr e => inr (at_line i e)
                | inl declared =>
                    let words := (fun x => str x) <$> removelast fields in
                    let title := str (TrimRight titleTrimCutset (text (Join words " "))) in
                    let info := sp_info st in
                    inl (mkSpecState (sp_totals st)
                           (mkSpec (s_total info) (s_totalLine info) (s_breakdown info)
                              (s_groups info ++ [mkGroup n title declared 0]) (s_rows info) (s_rowNums info)))
                end
              else inr (EText (specRel +:+ ":" +:+ itoa i +:+ " group header " +:+ Quote (group_text m 1)
                                 +:+ " does not end in a declared count"))
          | None => inr (EText (specRel +:+ ":" +:+ itoa i +:+ " group header " +:+ Quote (group_text m 1)
                                  +:+ " does not end in a declared count"))
          end
      end
  end.

Definition spec_row (i : Z) (line : bytes) (st : specState) : specState + error :=
  match FindStringSubmatch routeRowRE line with
  | None => inl st
  | Some m =>
      match strconv_Atoi (group_text m 0) with
      | inr e => inr (at_line i e)
      | inl n =>
          let info := sp_info st in
          inl (mkSpecState (sp_totals st)
                 (mkSpec (s_total info) (s_totalLine info) (s_breakdown info) (s_groups info)
                    (s_rows info ++ [group_text m 1]) (s_rowNums info ++ [n])))
      end
  end.

(** [strings.TrimSuffix(line, CR)]. *)
Definition trim_cr (l : bytes) : bytes := text (trim_suffix (str l) (str [CR])).

Definition spec_line (st : specState) (il : Z * bytes) : specState + error :=
  let '(i, rawLine) := il in
  let line := trim_cr rawLine in
  match spec_total i line st with
  | inr e => inr e
  | inl st =>
      match spec_group i line st with
      | inr e => inr e
      | inl st => spec_row i line st
      end
  end.

(** Lines with their number, from 1. *)
Definition numbered (ls : list bytes) : list (Z * bytes) := zip (seqZ 1 (Z.of_nat (length ls))) ls.

(** The group headers are numbered from 1, in order. *)
Definition group_order (ig : Z * group) : option error :=
  let '(i, g) := ig in
  if decide (g_number g = i) then None
  else Some (EText (specRel +:+ " declares group header 2." +:+ itoa (g_number g) +:+ " out of order")).

Definition spec_text (raw : bytes) : specInfo + error :=
  match each spec_line (mkSpecState 0 noSpec) (numbered (split_byte LF raw)) with
  | inr e => inr e
  | inl st =>
      let info := sp_info st in
      if decide (sp_totals st = O) then inr (ESentinel errNoSpecTotal)
      else if decide (s_groups info = []) then inr (ESentinel errNoSpecGroups)
      else if decide (s_rows info = []) then inr (ESentinel errNoSpecRows)
      else match head (omap group_order (zip (seqZ 1 (Z.of_nat (length (s_groups info)))) (s_groups info))) with
           | Some e => inr e
           | None => inl info
           end
  end.

Definition parseSpec (path : string) : specInfo + error :=
  match ReadFile w path with
  | inr (missing, err) => if missing then inr (ESentinel errNoSPECFile) else inr err
  | inl raw => spec_text raw
  end.

Definition int_sum (l : list Z) : Z := foldl (fun acc v => swrap 64 (acc + v)) 0 l.
Definition sumDeclared (groups : list group) : Z := int_sum (g_declared <$> groups).

Definition checkBreakdown (info : specInfo) : option error :=
  if decide (length (s_breakdown info) <> length (s_groups info)) then
    Some (EText (specRel +:+ " line " +:+ itoa (s_totalLine info) +:+ " breaks down as "
      +:+ itoa (Z.of_nat (length (s_breakdown info))) +:+ " terms but "
      +:+ itoa (Z.of_nat (length (s_groups info))) +:+ " group headers are declared"))
  else if forallb (fun vg => bool_decide (fst vg = g_declared (snd vg))) (zip (s_breakdown info) (s_groups info))
  then None
  else Some (EText (specRel +:+ " group headers sum to " +:+ itoa (sumDeclared (s_groups info)) +:+ " but line "
      +:+ itoa (s_totalLine info) +:+ " breaks down as " +:+ itoa (int_sum (s_breakdown info)))).

(** ** The reference walk *)
Definition isPkgIdent (n : node) : bool :=
  match n with Ident id => bool_decide (Name id = pkgIdent) | _ => false end.

Definition alias_suffixes : list string := ["RequestMsgType"; "Request"].

(** The canonical path of a declared path or of one of its two aliases. *)
Fixpoint alias_of (declaredPaths : gset string) (value : string) (suffixes : list string) : option string :=
  match suffixes with
  | [] => None
  | suffix :: rest =>
      let trimmed := trim_suffix value suffix in
      if decide (trimmed <> value /\ trimmed ∈ declaredPaths) then Some trimmed
      else alias_of declaredPaths value rest
  end.

Definition aliasPath (value : string) (declaredPaths : gset string) : option string :=
  if decide (value ∈ declaredPaths) then Some value else alias_of declaredPaths value alias_suffixes.

(** What the callback of the first walk collects; [conv] is [conversionLits]. *)
Record scanState := mkScan { sc_refs : list reference; sc_diags : list diagnostic; conv : gset Z }.

Definition conversion_what (value : string) : string :=
  "route " +:+ Quote value +:+ " referenced without its named constant, as a " +:+ pkgIdent
  +:+ ".Route conversion; the route still counts as unwired".

Definition literal_what (value canonical : string) : string :=
  "string literal " +:+ Quote value +:+ " is the declared route " +:+ Quote canonical
  +:+ " (or one of the two Gateway aliases); a service that builds the path itself is never credited by name".

Section scanned_file.
Context (rel : string) (line : Z -> Z) (declaredNames declaredPaths : gset string).

Definition scan_node (st : scanState) (n : node) : scanState :=
  match n with
  | SelectorExpr x sel =>
      if isPkgIdent x && bool_decide (Name sel ∈ declaredNames) then
        mkScan (sc_refs st ++ [mkRef (Name sel) rel (line (Pos n))]) (sc_diags st) (conv st)
      else st
  | CallExpr (SelectorExpr x sel) [BasicLit lit] =>
      if isPkgIdent x && bool_decide (Name sel = "Route") && bool_decide (Kind lit = STRING) then
        match unquoteString lit with
        | inl value =>
            if decide (value ∈ declaredPaths) then
              mkScan (sc_refs st) (sc_diags st ++ [mkDiag rel (line (Pos n)) (conversion_what value)])
                ({[ ValuePos lit ]} ∪ conv st)
            else st
        | inr _ => st
        end
      else st
  | BasicLit lit =>
      if bool_decide (Kind lit <> STRING) || bool_decide (ValuePos lit ∈ conv st) then st else
      match unquoteString lit with
      | inl value =>
          match aliasPath value declaredPaths with
          | Some canonical =>
              mkScan (sc_refs st) (sc_diags st ++ [mkDiag rel (line (Pos n)) (literal_what value canonical)]) (conv st)
          | None => st
          end
      | inr _ => st
      end
  | _ => st
  end.

(** [checkStoredRoutes]: the fields of type [client.Route]. *)
Definition is_route_field (f : field node) : bool :=
  match FieldType f with
  | Some (SelectorExpr x sel) => isPkgIdent x && bool_decide (Name sel = "Route")
  | _ => false
  end.

Definition stored_what : string :=
  "a " +:+ pkgIdent +:+ ".Route-typed struct field: a route stored in a field is written somewhere the walk may not reach, so it can be neither credited nor withdrawn by name".

Definition stored_routes (n : node) : list diagnostic :=
  match n with
  | StructType _ fs => (fun f => mkDiag rel (line (field_Pos f)) stored_what) <$> filter (fun f => is_route_field f = true) fs
  | _ => []
  end.

(** [checkClientBindings]: the identifiers a node binds in scope, with the kind of
    the binding. *)
Definition field_binders (kind : string) (fs : list (field node)) : list (ident * string) :=
  (fun id => (id, kind)) <$> (fs ≫= fun f => Names f).

Definition ident_binders (kind : string) (ns : list node) : list (ident * string) :=
  ns ≫= fun n => match n with Ident id => [(id, kind)] | _ => [] end.

Definition signature_binders (t : funcType node) : list (ident * string) :=
  field_binders "parameter" (Params t) ++ field_binders "result" (Results t).

Definition binders (n : node) : list (ident * string) :=
  match n with
  | FuncDecl recv name t _ =>
      match recv with
      | None => [(name, "package-level func")]
      | Some fs => field_binders "receiver" fs
      end ++ signature_binders t
  | FuncLit t _ => signature_binders t
  | ValueSpec names _ _ => (fun id => (id, "const/var")) <$> names
  | TypeSpec name _ _ => [(name, "type")]
  | AssignStmt lhs DEFINE _ => ident_binders "local variable" lhs
  | RangeStmt _ k v DEFINE _ _ => ident_binders "range variable" (option_list k ++ option_list v)
  | TypeSwitchStmt _ _ (AssignStmt lhs DEFINE _) _ => ident_binders "type switch variable" lhs
  | _ => []
  end.

Definition lastPathSegment (quoted_path : string) : string :=
  let trimmed := TrimRight [[dquote]] (TrimLeft [[dquote]] (text quoted_path)) in
  str (after_last_slash trimmed).

(** The name an import binds. *)
Definition import_name (name : option ident) (path : option basicLit) : string :=
  match name, path with
  | Some id, _ => Name id
  | None, Some p => lastPathSegment (Value p)
  | None, None => ""
  end.

Definition binding_problem (pos : Z) (kind : string) : problem :=
  mkProblem (EText (rel +:+ ":" +:+ itoa (line pos) +:+ " declares identifier " +:+ Quote pkgIdent +:+ " (" +:+ kind
                      +:+ "); the reference walk would under-count"))
    ("a " +:+ ticked "client" +:+ " that is not this module's client package makes every "
       +:+ ticked (pkgIdent +:+ ".RouteXxx") +:+ " in the file ambiguous").

Definition import_what (bound : string) : string :=
  "imports the client package as " +:+ Quote bound +:+ "; route references through that alias are not counted".

Definition import_check (n : node) (name : option ident) (path : option basicLit) : list diagnostic * list problem :=
  let bound := import_name name path in
  match path with
  | Some p =>
      if decide (Value p = clientImportPath /\ bound <> pkgIdent) then
        ([mkDiag rel (line (Pos n)) (import_what bound)], [])
      else if decide (bound = pkgIdent /\ Value p <> clientImportPath) then
        ([], [binding_problem (Pos n) ("import of " +:+ Value p)])
      else ([], [])
  | None => ([], [])
  end.

Definition bindings (n : node) : list diagnostic * list problem :=
  match n with
  | ImportSpec name path => import_check n name path
  | _ =>
      ([], (fun ik => binding_problem (NamePos (fst ik)) (snd ik))
             <$> filter (fun ik => Name (fst ik) = pkgIdent) (binders n))
  end.

Definition scan_tree (f : file) : list reference * list diagnostic * list problem :=
  let nodes := Inspect_file f in
  let st := foldl scan_node (mkScan [] [] ∅) nodes in
  (sc_refs st, sc_diags st ++ (nodes ≫= stored_routes) ++ (nodes ≫= fun n => fst (bindings n)),
   nodes ≫= fun n => snd (bindings n)).
End scanned_file.

Definition scanFile (path rel : string) (declaredNames declaredPaths : gset string)
    : list reference * list diagnostic * list problem :=
  match ParseFile w path with
  | inr err =>
      ([], [], [mkProblem (EWrap (rel +:+ ": " +:+ error_text err) err)
                  ("an unparseable scanned file must not read as " +:+ quoted "nothing referenced")])
  | inl f => scan_tree rel (Line f) declaredNames declaredPaths f
  end.

(** [slashRelative]. *)
Definition slashRelative (root path : string) : string := default path (Rel root path).

(** ** [filepath.WalkDir] with the callback of [scan]

    The files the callback scans, in order, and the error that ends the walk. *)
Definition is_source (name : string) : bool := has_suffix name ".go" && negb (has_suffix name "_test.go").

Fixpoint walk_dir (path : string) (e : entry) : list string * option error :=
  match e with
  | FileEntry name => (if is_source name then [path] else [], None)
  | DirEntry name err contents =>
      if decide (name = "testdata") then ([], None) else
      match err with
      | Some err => ([], Some err)
      | None =>
          (fix walk_entries (es : list entry) : list string * option error :=
             match es with
             | [] => ([], None)
             | e :: es =>
                 match walk_dir (path_Join [path; entry_name e]) e with
                 | (visited, Some err) => (visited, Some err)
                 | (visited, None) => let '(more, err) := walk_entries es in (visited ++ more, err)
                 end
             end) contents
      end
  end.

Definition WalkDir (dir : string) : list string * option error :=
  match Tree w dir with
  | inl e => walk_dir dir e
  | inr err => ([], Some err)
  end.
End world.

(** ** The analysis *)
Definition new_analysis (cfg : config) (root : string) : analysis :=
  mkAnalysis cfg root false [] [] [] [] noSpec false "" [] ∅ [].

Definition set_problems (f : list problem -> list problem) (a : analysis) : analysis :=
  mkAnalysis (a_cfg a) (a_root a) (a_measured a) (a_decls a) (a_registry a) (a_refs a) (a_diags a) (a_spec a)
    (a_grouped a) (a_joinNote a) (a_groupOf a) (a_wiredName a) (f (a_problems a)).

Definition set_routes (decls : list routeDecl) (registry : list registryEntry) (a : analysis) : analysis :=
  mkAnalysis (a_cfg a) (a_root a) (a_measured a) decls registry (a_refs a) (a_diags a) (a_spec a)
    (a_grouped a) (a_joinNote a) (a_groupOf a) (a_wiredName a) (a_problems a).

Definition set_spec (spec : specInfo) (a : analysis) : analysis :=
  mkAnalysis (a_cfg a) (a_root a) (a_measured a) (a_decls a) (a_registry a) (a_refs a) (a_diags a) spec
    (a_grouped a) (a_joinNote a) (a_groupOf a) (a_wiredName a) (a_problems a).

Definition set_measured (b : bool) (a : analysis) : analysis :=
  mkAnalysis (a_cfg a) (a_root a) b (a_decls a) (a_registry a) (a_refs a) (a_diags a) (a_spec a)
    (a_grouped a) (a_joinNote a) (a_groupOf a) (a_wiredName a) (a_problems a).

Definition set_joined (groups : list group) (groupOf : list Z) (grouped : bool) (note : string) (a : analysis) : analysis :=
  let s := a_spec a in
  mkAnalysis (a_cfg a) (a_root a) (a_measured a) (a_decls a) (a_registry a) (a_refs a) (a_diags a)
    (mkSpec (s_total s) (s_totalLine s) (s_breakdown s) groups (s_rows s) (s_rowNums s))
    grouped note groupOf (a_wiredName a) (a_problems a).

Definition fail (err : error) (hint : string) : analysis -> analysis :=
  set_problems (fun ps => ps ++ [mkProblem err hint]).

Definition hints : list (string * string) := [
  (errNoRegistry, "a rename or a split of the registry would produce a silently empty set, and an empty set reports every route as unwired");
  (errManyRegistries, "the guard parses the first registry it finds; more than one means it may have parsed the wrong one");
  (errNoSpecTotal, "that line is the canonical count (AGENTS.md rule 5); a zero-match must never read as "
     +:+ quoted "0 endpoints, all clear");
  (errManySpecTotals, "the count must be stated exactly once, or the guard cannot tell which copy is canonical");
  (errNoSPECFile, "AGENTS.md rule 5 makes this the only source of the count");
  (errNoRoutesFile, "the canonical route set is the const block in this file");
  (errNoRouteConstants, "an empty const-block parse reports every route as unwired");
  (errNoSpecGroups, "SPEC states the count three ways; a missing one means the guard is parsing a shape that no longer exists");
  (errNoSpecRows, "SPEC states the count three ways; a missing one means the guard is parsing a shape that no longer exists");
  (errNoBreakdown, "SPEC states the count three ways; a missing one means the guard is parsing a shape that no longer exists")].

Definition hintFor (err : error) : string :=
  match list_find (fun th => errors_Is err (fst th) = true) hints with
  | Some (_, (_, h)) => h
  | None => ""
  end.

(** Check 1: the constants and the registry declare the same set. *)
Definition check_decl (cfg : config) (registry : list registryEntry) (d : routeDecl) : list problem :=
  let byName : gset string := list_to_set (filter (fun n => n <> "") (e_name <$> registry)) in
  let byPath : gset string := list_to_set (e_path <$> registry) in
  if decide ((d_name d ∉ byName) /\ (d_path d ∉ byPath)) then
    [mkProblem (EText (Routes cfg +:+ ":" +:+ itoa (d_line d) +:+ " " +:+ d_name d +:+ " = " +:+ Quote (d_path d)
                         +:+ " is not in canonicalRoutes"))
       "client.Client.Do would refuse it: errors.Is(route.Validate(), client.ErrUnknownRoute)"]
  else [].

Definition check_entry (cfg : config) (decls : list routeDecl) (e : registryEntry) : list problem :=
  let declared : gset string := list_to_set (d_name <$> decls) in
  if decide (e_name e = "") then
    [mkProblem (EText ("canonicalRoutes holds " +:+ Quote (e_path e) +:+ " with no constant in " +:+ Routes cfg))
       "no service can name it; add a Route constant or drop the entry"]
  else if decide (e_name e ∉ declared) then
    [mkProblem (EText (Routes cfg +:+ ":" +:+ itoa (e_line e) +:+ " canonicalRoutes names " +:+ e_name e
                         +:+ ", which no constant in the const block declares"))
       "the registry and the const block must declare the same set"]
  else [].

Definition checkRegistry (a : analysis) : analysis :=
  set_problems (fun ps => ps ++ (a_decls a ≫= check_decl (a_cfg a) (a_registry a))
                             ++ (a_registry a ≫= check_entry (a_cfg a) (a_decls a))) a.

(** [scan]: a scanned file adds its references, diagnostics and problems. *)
Definition add_scan (found : list reference * list diagnostic * list problem) (a : analysis) : analysis :=
  let '(refs, diags, probs) := found in
  mkAnalysis (a_cfg a) (a_root a) (a_measured a) (a_decls a) (a_registry a) (a_refs a ++ refs) (a_diags a ++ diags)
    (a_spec a) (a_grouped a) (a_joinNote a) (a_groupOf a) (list_to_set (r_name <$> refs) ∪ a_wiredName a)
    (a_problems a ++ probs).

Definition visit_file (w : World) (a : analysis) (path : string) : analysis :=
  add_scan (scanFile w path (slashRelative (a_root a) path)
              (list_to_set (d_name <$> a_decls a)) (list_to_set (d_path <$> a_decls a))) a.

(** One scan root; with the number of files scanned. *)
Definition scan_root (w : World) (af : analysis * nat) (rel : string) : analysis * nat :=
  let '(a, files) := af in
  let dir := path_Join [a_root a; rel] in
  match Stat w dir with
  | Some true =>
      let '(visited, err) := WalkDir w dir in
      let a := foldl (visit_file w) a visited in
      let a := match err with
               | Some err => fail (EWrap ("walking " +:+ rel +:+ ": " +:+ error_text err) err)
                               ("an unreadable scan root must not read as " +:+ quoted "nothing referenced") a
               | None => a
               end in
      (a, (files + length visited)%nat)
  | _ => (fail (EText ("scan root " +:+ rel +:+ " does not exist"))
            ("a renamed directory must not read as " +:+ quoted "nothing referenced") a, files)
  end.

Definition scan (w : World) (a : analysis) : analysis :=
  let '(a, files) := foldl (scan_root w) (a, O) (Roots (a_cfg a)) in
  let a := if decide (files = O) then
             fail (ESentinel errNoSourcesFile) "a scan root with no source would report every route as unwired" a
           else a in
  if decide (a_refs a = []) then
    fail (ESentinel errNoReferences) "a walk that found nothing cannot tell full parity from a broken walk, and a zero gap is exactly what full parity looks like" a
  else a.

(** ** The join of the constants and the groups *)

(** [slice[i]]. *)
Definition index {A} (l : list A) (i : Z) : outcome A :=
  match (if decide (0 <= i) then l !! Z.to_nat i else None) with Some x => Ret x | None => Panic end.

(** [slice[lo:hi]]. *)
Definition subslice {A} (l : list A) (lo hi : Z) : outcome (list A) :=
  if decide (0 <= lo <= hi /\ hi <= Z.of_nat (length l)) then Ret (slice (Z.to_nat lo) (Z.to_nat hi) l) else Panic.

(** The loop over the rows: the note of the first row that disagrees. *)
Fixpoint join_rows (cfg : config) (decls : list routeDecl) (nums : list Z) (i : Z) (rows : list string)
    : outcome (option string) :=
  match rows with
  | [] => Ret None
  | row :: rows =>
      d ← index decls i;
      if decide (d_path d = row) then join_rows cfg decls nums (i + 1) rows else
      n ← index nums i;
      Ret (Some (Spec cfg +:+ " row " +:+ itoa n +:+ " is " +:+ Quote row +:+ " but " +:+ Routes cfg +:+ ":"
                   +:+ itoa (d_line d) +:+ " declares " +:+ d_name d +:+ " = " +:+ Quote (d_path d)))
  end.

(** [for k := k; k < hi; k++ { groupOf[k] = gi }]: one more step than there are
    places is enough, since the step after the last place panics. *)
Fixpoint assign_group (fuel : nat) (groupOf : list Z) (k hi gi : Z) : outcome (list Z) :=
  if decide (hi <= k) then Ret groupOf else
  match fuel with
  | O => Panic
  | S fuel => _ ← index groupOf k; assign_group fuel (<[Z.to_nat k := gi]> groupOf) (k + 1) hi gi
  end.

(** The loop over the groups: the groups with their start, and the end. *)
Fixpoint join_spans (groupOf : list Z) (gi start : Z) (groups : list group) : outcome (list group * list Z * Z) :=
  match groups with
  | [] => Ret ([], groupOf, start)
  | g :: rest =>
      let stop := swrap 64 (start + g_declared g) in
      groupOf ← assign_group (S (length groupOf)) groupOf start stop gi;
      '(gs, groupOf, last) ← join_spans groupOf (gi + 1) stop rest;
      Ret (mkGroup (g_number g) (g_title g) (g_declared g) start :: gs, groupOf, last)
  end.

Definition joinGroups (a : analysis) : outcome analysis :=
  let spec := a_spec a in
  let groups := s_groups spec in
  if decide (Z.of_nat (length (s_rows spec)) <> s_total spec) then
    Ret (set_joined groups (a_groupOf a) false
           (Spec (a_cfg a) +:+ " has " +:+ itoa (Z.of_nat (length (s_rows spec)))
              +:+ " numbered route rows but declares " +:+ itoa (s_total spec) +:+ " endpoints") a)
  else
    note ← join_rows (a_cfg a) (a_decls a) (s_rowNums spec) 0 (s_rows spec);
    match note with
    | Some note => Ret (set_joined groups (a_groupOf a) false note a)
    | None =>
        '(groups, groupOf, start) ← join_spans (replicate (length (a_decls a)) 0) 0 0 groups;
        if decide (start <> Z.of_nat (length (a_decls a))) then
          Ret (set_joined groups groupOf false
                 ("group headers cover " +:+ itoa start +:+ " constants but the const block declares "
                    +:+ itoa (Z.of_nat (length (a_decls a)))) a)
        else Ret (set_joined groups groupOf true (a_joinNote a) a)
    end.

(** ** [evaluate] *)
Definition evaluate (w : World) (cfg : config) : outcome analysis :=
  let cfg := normalize cfg in
  let root := resolveRoot w (Root cfg) (Routes cfg) in
  let a := new_analysis cfg root in
  if decide (root = "") then
    Ret (fail (ESentinel errNoRoot)
           ("neither this source file's location nor the working directory contains " +:+ Routes cfg
              +:+ "; a wrong root produces a wrong report, not a failure") a)
  else
  match parseRoutes w (path_Join [root; Routes cfg]) with
  | inr err => Ret (fail err (hintFor err) a)
  | inl (decls, registry) =>
      if decide (decls = []) then
        Ret (fail (ESentinel errNoRouteConstants)
               "a const-block parse that matched nothing is indistinguishable from a repository with no routes" a)
      else
      let a := checkRegistry (set_routes decls registry a) in
      match parseSpec w (path_Join [root; Spec cfg]) with
      | inr err => Ret (fail err (hintFor err) a)
      | inl spec =>
          let a := set_spec spec a in
          if decide (s_total spec <> Z.of_nat (length decls)) then
            Ret (fail (EText (Spec cfg +:+ ":" +:+ itoa (s_totalLine spec) +:+ " declares " +:+ itoa (s_total spec)
                                +:+ " HTTP endpoints; the " +:+ Routes cfg +:+ " const block declares "
                                +:+ itoa (Z.of_nat (length decls))))
                   "the route set is the client const block and SPEC states the number (AGENTS.md rule 5), so the two cannot disagree without a red run" a)
          else if decide (sumDeclared (s_groups spec) <> s_total spec) then
            Ret (fail (EText (Spec cfg +:+ " group headers sum to " +:+ itoa (sumDeclared (s_groups spec)) +:+ " but line "
                                +:+ itoa (s_totalLine spec) +:+ " declares " +:+ itoa (s_total spec)))
                   "SPEC states both the group counts and the Total; they are one number written twice" a)
          else
          match checkBreakdown spec with
          | Some err =>
              Ret (fail err "SPEC states the same count three ways (group headers, breakdown, Total); a commit that edits one of them is not a coherent commit" a)
          | None =>
              let a := scan w a in
              let a := set_measured (bool_decide (a_problems a = [])) a in
              if a_measured a then joinGroups a else Ret a
          end
      end
  end.

(** ** [report] *)
Definition strcat (l : list string) : string := foldr (fun x acc => x +:+ acc) "" l.
Definition count (l : nat) : Z := Z.of_nat l.

(** The indexes of the constants no service names. *)
Definition unwired (a : analysis) : list Z :=
  concat (imap (fun i d => if decide (d_name d ∈ a_wiredName a) then [] else [Z.of_nat i]) (a_decls a)).

(** How many constants of a group are named, and how many are not. *)
Definition wiredIn (a : analysis) (g : group) : outcome (Z * Z) :=
  ds ← subslice (a_decls a) (g_start g) (swrap 64 (g_start g + g_declared g));
  let n := count (length (filter (fun d => d_name d ∈ a_wiredName a) ds)) in
  Ret (n, swrap 64 (g_declared g - n)).

Definition noGroup : group := mkGroup 0 "" 0 0.

Definition groupOfIndex (a : analysis) (i : Z) : outcome group :=
  if decide (a_groupOf a = []) then Ret noGroup
  else if decide (i < 0 \/ count (length (a_groupOf a)) <= i) then Ret noGroup
  else gi ← index (a_groupOf a) i; index (s_groups (a_spec a)) gi.

(** The pieces of a loop that writes. *)
Fixpoint write_each {A S : Type} (f : S -> A -> outcome (string * S)) (s : S) (l : list A) : outcome string :=
  match l with
  | [] => Ret ""
  | x :: l =>
      '(out, s) ← f s x;
      rest ← write_each f s l;
      Ret (out +:+ rest)
  end.

Definition table_row (title : string) (declared wired gap : Z) : string :=
  strcat ["  "; pad_right 30 title; " "; pad_left 8 (itoa declared); " "; pad_left 6 (itoa wired); " ";
    pad_left 5 (itoa gap); nl].

Definition report_group (a : analysis) (_ : unit) (g : group) : outcome (string * unit) :=
  '(n, gap) ← wiredIn a g;
  Ret (table_row (g_title g) (g_declared g) n gap, tt).

(** An unwired route, below the header of its group the first time. *)
Definition report_unwired (a : analysis) (headed : gset Z) (i : Z) : outcome (string * gset Z) :=
  g ← groupOfIndex a i;
  '(header, headed) ←
    (if a_grouped a then
       gi ← index (a_groupOf a) i;
       if decide (gi ∈ headed) then Ret ("", headed)
       else '(_, gap) ← wiredIn a g;
            Ret (strcat ["    "; g_title g; " ("; itoa gap; ")"; nl], {[ gi ]} ∪ headed)
     else Ret ("", headed));
  d ← index (a_decls a) i;
  Ret (header +:+ strcat ["      "; pad_right 42 (d_name d); " "; d_path d; nl], headed).

(** The orders in which references and diagnostics are listed: byte-wise on
    strings, as Go compares them. *)
Definition str_lt (s t : string) : bool :=
  match String.compare s t with Lt => true | _ => false end.

Definition key_le (k1 k2 : string * Z * string) : Prop :=
  let '(rel1, line1, last1) := k1 in
  let '(rel2, line2, last2) := k2 in
  (if decide (rel1 <> rel2) then str_lt rel1 rel2
   else if decide (line1 <> line2) then bool_decide (line1 < line2)
   else negb (str_lt last2 last1)) = true.

Definition ref_key (r : reference) : string * Z * string := (r_rel r, r_line r, r_name r).
Definition diag_key (d : diagnostic) : string * Z * string := (g_rel d, g_line d, g_what d).

Definition sorted_refs (l : list reference) : list reference :=
  merge_sort (fun x y => key_le (ref_key x) (ref_key y)) l.
Definition sorted_diags (l : list diagnostic) : list diagnostic :=
  merge_sort (fun x y => key_le (diag_key x) (diag_key y)) l.

(** [paths] of [report]: the last constant of a name gives its path. *)
Definition path_of (decls : list routeDecl) (name : string) : string :=
  default "" (d_path <$> last (filter (fun d => d_name d = name) decls)).

Definition open (a : analysis) : Z := if a_measured a then count (length (unwired a)) else 0.
Definition wired (a : analysis) : Z := if a_measured a then count (size (a_wiredName a)) else 0.

Definition exit_code (a : analysis) : Z :=
  if decide (a_problems a <> [] \/ (Enforce (a_cfg a) = true /\ (0 < open a \/ a_diags a <> []))) then 1 else 0.

Definition banner (a : analysis) : string :=
  strcat [
    (if Enforce (a_cfg a) then "PARITY GUARD - ENFORCING MODE (this run fails on a coverage gap)"
     else "PARITY GUARD - REPORT MODE (informational; this run cannot fail on a coverage gap)"); nl;
    (if a_measured a then
       strcat ["  v-next service coverage: "; itoa (wired a); "/"; itoa (s_total (a_spec a));
         " endpoints named by a service; "; itoa (open a); " NOT implemented"; nl]
     else "  v-next service coverage: NOT MEASURED - the canonical route set or the SPEC count could not be read" +:+ nl);
    nl].

Definition inputs (a : analysis) : string :=
  strcat ["  Repo root: "; a_root a; nl;
    "  Scanned: "; Join (Roots (a_cfg a)) ", "; " (test files excluded)"; nl;
    (if a_measured a then
       strcat ["  Route set: "; Routes (a_cfg a); " ("; itoa (count (length (a_decls a))); " declared)   SPEC: ";
         Spec (a_cfg a); " (declares "; itoa (s_total (a_spec a)); ")"; nl]
     else "")].

Definition group_table (a : analysis) : outcome string :=
  if a_grouped a then
    rows ← write_each (report_group a) tt (s_groups (a_spec a));
    Ret (strcat ["  Group                              declared  wired   gap"; nl; rows;
      table_row "TOTAL" (s_total (a_spec a)) (wired a) (open a)])
  else
    Ret (strcat ["  Group breakdown SUPPRESSED: "; a_joinNote a; nl;
      "  The gap total is unaffected; only the per-group attribution is withheld."; nl]).

Definition unwired_list (a : analysis) : outcome string :=
  rows ← write_each (report_unwired a) ∅ (unwired a);
  Ret (strcat ["  Unwired ("; itoa (count (length (unwired a))); " of "; itoa (s_total (a_spec a));
    " declared), by SPEC group:"; nl;
    (if decide (unwired a = []) then "    (none)" +:+ nl else ""); rows]).

Definition reference_list (a : analysis) : string :=
  strcat ["  Referenced ("; itoa (count (length (a_refs a))); " of "; itoa (s_total (a_spec a));
    "), file:line for every counted reference:"; nl;
    strcat ((fun r => strcat ["    "; r_rel r; ":"; itoa (r_line r); "  "; pad_right 42 (r_name r); " ";
                        path_of (a_decls a) (r_name r); nl]) <$> sorted_refs (a_refs a))].

Definition measurement (a : analysis) : outcome string :=
  if a_measured a then
    table ← group_table a;
    gap ← unwired_list a;
    Ret (strcat [table; nl; gap; nl; inputs a; reference_list a; nl])
  else Ret (inputs a +:+ nl).

Definition diagnostic_list (a : analysis) : string :=
  match a_diags a with
  | [] => ""
  | _ =>
      strcat ["  Secondary diagnostics - what the reference walk cannot resolve on its own:"; nl;
        strcat ((fun d => strcat ["  "; (if Enforce (a_cfg a) then "ERROR parity" else "WARN parity"); ": ";
                            g_rel d; ":"; itoa (g_line d); " "; g_what d; nl]) <$> sorted_diags (a_diags a)); nl]
  end.

Definition problem_list (a : analysis) : string :=
  strcat ((fun p => strcat ["  ERROR parity: "; error_text (p_err p); nl;
                      (if decide (p_hint p <> "") then strcat ["       -> "; p_hint p; nl] else "")]) <$> a_problems a)
  +:+ match a_problems a with [] => "" | _ => nl end.

Definition gap_lines (a : analysis) : string :=
  strcat [
    (if a_measured a && Enforce (a_cfg a) && bool_decide (0 < open a) then
       strcat ["  ERROR parity: "; itoa (open a);
         " declared endpoint(s) have no v-next service method; --enforce requires 0"; nl]
     else "");
    (if a_measured a then
       strcat ["  PARITY: "; itoa (wired a); "/"; itoa (s_total (a_spec a)); " gap="; itoa (open a); " mode=";
         (if Enforce (a_cfg a) then "enforce" else "report"); " enforce="; (if Enforce (a_cfg a) then "on" else "off"); nl]
     else "")].

(** The last lines of the report. *)
Definition verdict (a : analysis) : string :=
  if negb (Enforce (a_cfg a)) then
    strcat ["  A green exit in report mode does NOT mean v-next is at parity."; nl;
      (if decide (exit_code a = 0) then "  exit=0 (report mode never fails on a gap)"
       else "  exit=1 (an integrity check failed; report mode never fails on a gap, but it does fail on a broken invariant)");
      nl]
  else if decide (exit_code a = 0) then
    strcat ["  PASS: "; itoa (wired a); "/"; itoa (s_total (a_spec a));
      " endpoints named by a v-next service; 0 NOT implemented"; nl;
      "  exit=0 (every declared endpoint is named by a v-next service)"; nl]
  else
    strcat ["  exit=1 (";
      (if decide (a_problems a <> []) then
         "an integrity check failed; a run that cannot account for its own inputs is not a parity result"
       else if decide (0 < open a) then
         "--enforce requires every declared endpoint to be named by a v-next service"
       else "a secondary diagnostic is unresolved; --enforce requires the reference walk to account for every route reference");
      ")"; nl].

Definition report (a : analysis) : outcome (string * Z) :=
  body ← measurement a;
  Ret (strcat [banner a; body; diagnostic_list a; problem_list a; gap_lines a; verdict a], exit_code a).

(** [main]: what is printed, and the exit code. *)
Definition gate (w : World) (cfg : config) : outcome (string * Z) := a ← evaluate w cfg; report a.
