(* ===== verification/ParityScan.v ===== *)
(** The reference walk of the parity gate against what it is meant to see: the
    sources under a scan root, the routes a source names, the bindings that would
    make it ambiguous, and the uses of routes that the gate cannot attribute. *)
From stdpp Require Import gmap pretty sorting.
From S2P Require Import Prelude Types Errs Domain Service GoNumbers GoText GoAst Parity.
Local Open Scope Z_scope.

(** ** The sources under a directory *)

(** [source_under path e p]: the walk of [e], found at [path], comes to the source [p]. *)
Inductive source_under : string -> entry -> string -> Prop :=
  | source_here path name : is_source name = true -> source_under path (FileEntry name) path
  | source_below path name es e p :
      name <> "testdata" -> e ∈ es -> source_under (path_Join [path; entry_name e]) e p ->
      source_under path (DirEntry name None es) p.

(** Every directory of the tree that is not left out can be read. *)
Inductive readable : entry -> Prop :=
  | readable_file name : readable (FileEntry name)
  | readable_testdata err es : readable (DirEntry "testdata" err es)
  | readable_dir name es : name <> "testdata" -> (forall e, e ∈ es -> readable e) -> readable (DirEntry name None es).

Section entry_ind'.
Context (P : entry -> Prop).
Context (Hf : forall n, P (FileEntry n)) (Hd : forall n err es, (forall e, e ∈ es -> P e) -> P (DirEntry n err es)).

Fixpoint entry_ind' (e : entry) : P e :=
  match e with
  | FileEntry n => Hf n
  | DirEntry n err es =>
      Hd n err es (proj1 (Forall_forall P es)
        ((fix go es : Forall P es := match es with [] => Forall_nil_2 P | e :: es => Forall_cons_2 P e es (entry_ind' e) (go es) end) es))
  end.
End entry_ind'.

(** The loop over the entries of a directory. *)
Fixpoint walk_entries (path : string) (es : list entry) : list string * option error :=
  match es with
  | [] => ([], None)
  | e :: es =>
      match walk_dir (path_Join [path; entry_name e]) e with
      | (visited, Some err) => (visited, Some err)
      | (visited, None) => let '(more, err) := walk_entries path es in (visited ++ more, err)
      end
  end.

Lemma walk_dir_unfold path name err es :
  walk_dir path (DirEntry name err es) =
  if decide (name = "testdata") then ([], None) else
  match err with Some err => ([], Some err) | None => walk_entries path es end.
Proof.
  cbn [walk_dir]. case_decide; [done |]. destruct err; [done |].
  induction es as [|e es IH]; [done |]. cbn [walk_entries]. by rewrite IH.
Qed.

(** The walk ends without error exactly on a readable tree, and then it came to
    exactly the sources. *)
Lemma walk_dir_spec e path :
  (snd (walk_dir path e) = None <-> readable e)
  /\ (readable e -> forall p, p ∈ fst (walk_dir path e) <-> source_under path e p).
Proof.
  revert path. induction e as [name|name err es IH] using entry_ind'; intros path.
  - cbn [walk_dir]. split; [split; [constructor | done] |]. intros _ p. simpl. destruct (is_source name) eqn:Hs.
    + rewrite list_elem_of_singleton. split; [intros ->; by constructor | by inversion 1].
    + split; [by intros ?%not_elem_of_nil | inversion 1; congruence].
  - rewrite walk_dir_unfold. case_decide as Hn; [subst |].
    { split; [split; [constructor | done] |]. intros _ p.
      split; [by intros ?%not_elem_of_nil | by inversion 1]. }
    destruct err as [err|]; [split; [split; [done | by inversion 1] | by inversion 1] |].
    assert (Hes : (snd (walk_entries path es) = None <-> forall e, e ∈ es -> readable e)
      /\ ((forall e, e ∈ es -> readable e) -> forall p, p ∈ fst (walk_entries path es) <->
            exists e, e ∈ es /\ source_under (path_Join [path; entry_name e]) e p)).
    { induction es as [|e es IHes]; cbn [walk_entries].
      - split; [split; [by intros _ e ?%not_elem_of_nil | done] |]. intros _ p.
        split; [by intros ?%not_elem_of_nil | by intros (e & ?%not_elem_of_nil & _)].
      - destruct IHes as [IHe IHp]; [intros; apply IH; by right |].
        destruct (IH e (list_elem_of_here _ _) (path_Join [path; entry_name e])) as [He Hp].
        destruct (walk_dir _ e) as [visited [er|]]; simpl in *.
        + split; [split; [done | intros Hall; by apply He, Hall; left] |].
          intros Hall. by assert (Some er = None) by (apply He, Hall; left).
        + destruct (walk_entries path es) as [more er]. simpl in *. setoid_rewrite elem_of_cons. split.
          * rewrite IHe. split; [| by auto]. intros Hall e' [-> | ?]; [by apply He | by apply Hall].
          * intros Hall p. rewrite elem_of_app, Hp, IHp by auto. naive_solver. }
    destruct Hes as [He Hp]. split.
    + rewrite He. split; [by constructor | inversion 1; subst; done].
    + inversion 1; subst; [done |]. intros p. rewrite Hp by done. split.
      * intros (e & ? & ?). by econstructor.
      * inversion 1; subst. eauto.
Qed.

(** ** The routes a source names *)
Definition client_ident (n : node) : Prop := exists id, n = Ident id /\ Name id = pkgIdent.

Lemma isPkgIdent_spec n : isPkgIdent n = true <-> client_ident n.
Proof.
  unfold client_ident. destruct n; simpl; rewrite ?bool_decide_eq_true; split;
    try done; try (intros (? & [=] & ?); congruence); eauto.
Qed.

#[global] Instance client_ident_dec n : Decision (client_ident n).
Proof. refine (cast_if (decide (isPkgIdent n = true))); by rewrite <- isPkgIdent_spec. Defined.

(** The selector [client.name] occurs in the file. *)
Definition names_route (f : file) (name : string) : Prop :=
  exists x sel, client_ident x /\ Name sel = name /\ node_of f (SelectorExpr x sel).

(** ** Uses of routes that are not attributed *)

(** A path as the program may write it: canonical, or one of the two aliases. *)
Definition writes_route (paths : gset string) (value : string) : Prop :=
  exists p, p ∈ paths /\ (value = p \/ value = p +:+ "RequestMsgType" \/ value = p +:+ "Request").

Lemma trim_suffix_ne value suffix trimmed :
  trim_suffix value suffix = trimmed -> trimmed <> value -> value = trimmed +:+ suffix.
Proof.
  unfold trim_suffix. destruct (cut_suffix suffix value) as [t|] eqn:Hc; simpl; [| by intros ->].
  intros <- _. by apply cut_suffix_Some.
Qed.

Lemma append_ne p c suffix : p <> p +:+ String c suffix.
Proof. intros Heq%(f_equal String.length). rewrite length_append in Heq. simpl in Heq. lia. Qed.

Lemma aliasPath_None value paths : aliasPath value paths = None <-> ~ writes_route paths value.
Proof.
  unfold aliasPath, writes_route. case_decide as Hin; [split; [done | intros []; eauto] |].
  cbn [alias_of alias_suffixes].
  repeat case_decide; (split; [intros ? | intros Hn]); try done.
  - destruct Hn. destruct H as [Hne Hp]. eapply trim_suffix_ne in Hne; [| done]. eauto 6.
  - destruct Hn. destruct H0 as [Hne Hp]. eapply trim_suffix_ne in Hne; [| done]. eauto 6.
  - intros (p & Hp & [-> | [-> | ->]]); [done | destruct H | destruct H0];
      rewrite trim_suffix_app; split; [apply append_ne | done | apply append_ne | done].
Qed.

Definition is_string_of (lit : basicLit) (v : string) : Prop := Kind lit = STRING /\ Unquote (Value lit) = Some v.

(** What the first walk complains about, node by node. *)
Definition node_clean (paths : gset string) (n : node) : Prop :=
  match n with
  | BasicLit lit => forall v, is_string_of lit v -> ~ writes_route paths v
  | CallExpr (SelectorExpr x sel) [BasicLit lit] =>
      client_ident x -> Name sel = "Route" -> forall v, is_string_of lit v -> v ∉ paths
  | _ => True
  end.

Section scanned_file.
Context (rel : string) (line : Z -> Z) (names paths : gset string).
Abbreviation step := (scan_node rel line names paths).

Lemma unquoteString_spec lit v : unquoteString lit = inl v <-> Unquote (Value lit) = Some v.
Proof using. unfold unquoteString. destruct (Unquote (Value lit)); naive_solver. Qed.

(** The references of one node. *)
Definition node_refs (n : node) : list reference :=
  match n with
  | SelectorExpr x sel =>
      if isPkgIdent x && bool_decide (Name sel ∈ names) then [mkRef (Name sel) rel (line (Pos n))] else []
  | _ => []
  end.

Lemma scan_node_refs st n : sc_refs (step st n) = sc_refs st ++ node_refs n.
Proof using.
  unfold scan_node, node_refs. destruct n; rewrite ?app_nil_r; try done; repeat case_match; rewrite ?app_nil_r; done.
Qed.

Lemma scan_refs ns st : sc_refs (foldl step st ns) = sc_refs st ++ (ns ≫= node_refs).
Proof using.
  revert st. induction ns as [|n ns IH]; intros st; [by rewrite app_nil_r |].
  cbn [foldl]. rewrite IH, scan_node_refs, <- app_assoc. done.
Qed.

(** A node adds a diagnostic exactly if it is not clean, as long as there is none. *)
Lemma scan_node_clean st n :
  conv st = ∅ -> sc_diags st = [] ->
  (sc_diags (step st n) = [] <-> node_clean paths n) /\ (node_clean paths n -> conv (step st n) = ∅).
Proof using.
  intros Hc Hd.
  assert (Hlit : forall lit v, unquoteString lit = inl v -> Kind lit = STRING -> is_string_of lit v)
    by (intros lit v ?%unquoteString_spec; done).
  destruct n as [|lit| |fn args| | | | | | | | | | | | | |]; cbn [scan_node node_clean]; try (split; [by rewrite Hd | done]).
  - rewrite Hc. rewrite (bool_decide_eq_false_2 (ValuePos lit ∈ ∅)) by set_solver. rewrite orb_false_r.
    destruct (decide (Kind lit = STRING)) as [Hk|Hk];
      [rewrite bool_decide_eq_false_2 by auto | rewrite bool_decide_eq_true_2 by done].
    + destruct (unquoteString lit) as [v|e] eqn:Hu.
      * pose proof (aliasPath_None v paths) as Ha. apply unquoteString_spec in Hu.
        destruct (aliasPath v paths); simpl.
        -- split; [| intros Hn].
           ++ rewrite Hd. split; [done |]. intros Hn. assert (Some s = None); [by apply Ha, Hn | done].
           ++ exfalso. assert (Some s = None); [by apply Ha, Hn | done].
        -- split; [| done]. rewrite Hd. split; [| done]. intros _ v' [_ Hv']. simplify_eq. by apply Ha.
      * split; [| done]. rewrite Hd. split; [| done]. intros _ v [_ Hv%unquoteString_spec]. congruence.
    + split; [| done]. rewrite Hd. split; [| done]. by intros _ v [? _].
  - destruct (isPkgIdent n && _); simpl; by rewrite Hd.
  - destruct fn as [| |x sel| | | | | | | | | | | | | | |]; try (split; [by rewrite Hd | done]).
    destruct args as [|[|lit| | | | | | | | | | | | | | | |] [|? ?]]; try (split; [by rewrite Hd | done]).
    destruct (decide (client_ident x /\ Name sel = "Route" /\ Kind lit = STRING)) as [(Hx & Hs & Hk)|Hno].
    + rewrite (proj2 (isPkgIdent_spec x) Hx), !bool_decide_eq_true_2 by done. simpl.
      destruct (unquoteString lit) as [v|e] eqn:Hu.
      * apply unquoteString_spec in Hu. case_decide as Hv; simpl.
        -- assert (Hbad : ~ (client_ident x -> Name sel = "Route" -> forall v, is_string_of lit v -> v ∉ paths))
             by (intros Hn; by apply (Hn Hx Hs v)).
           split; [| by intros ?%Hbad]. rewrite Hd. split; [done | by intros ?%Hbad].
        -- split; [| done]. rewrite Hd. split; [| done]. intros _ _ _ v' [_ Hv']. by simplify_eq.
      * split; [| done]. rewrite Hd. split; [| done]. intros _ _ _ v [_ Hv%unquoteString_spec]. congruence.
    + assert (isPkgIdent x && bool_decide (Name sel = "Route") && bool_decide (Kind lit = STRING) = false) as ->.
      { apply not_true_iff_false. rewrite !andb_true_iff, isPkgIdent_spec, !bool_decide_eq_true. tauto. }
      split; [| done]. rewrite Hd. split; [| done]. intros _ Hx Hs v [Hk _]. tauto.
Qed.

Lemma foldl_diags_grow ns st : sc_diags (foldl step st ns) = [] -> sc_diags st = [].
Proof using.
  revert st. induction ns as [|n ns IH]; intros st; [done |]. cbn [foldl]. intros Hd%IH.
  unfold scan_node in Hd. destruct n; try done; repeat case_match; try done; by destruct (sc_diags st).
Qed.

Lemma scan_clean ns st :
  conv st = ∅ -> sc_diags st = [] ->
  sc_diags (foldl step st ns) = [] <-> forall n, n ∈ ns -> node_clean paths n.
Proof using.
  revert st. induction ns as [|n ns IH]; intros st Hc Hd.
  { cbn [foldl]. rewrite Hd. split; [by intros _ n ?%not_elem_of_nil | done]. }
  cbn [foldl]. destruct (scan_node_clean st n Hc Hd) as [Hn Hcn]. setoid_rewrite elem_of_cons. split.
  - intros Hall. assert (Hst : sc_diags (step st n) = []) by by eapply foldl_diags_grow.
    apply Hn in Hst as Hclean. intros n' [-> | Hin]; [done |]. revert n' Hin. by apply (IH (step st n)); auto.
  - intros Hall. assert (node_clean paths n) by auto. apply IH; [by auto | by apply Hn | auto].
Qed.
End scanned_file.

(** No string literal of the file is a route path or an alias of one. *)
Definition no_route_literal (paths : gset string) (f : file) : Prop :=
  forall lit v, node_of f (BasicLit lit) -> is_string_of lit v -> ~ writes_route paths v.

Lemma node_of_child f n c : node_of f n -> child n c -> node_of f c.
Proof.
  intros [-> | (d & Hd & Hn)] Hc; [by apply not_elem_of_nil in Hc |].
  right. exists d. split; [done |]. by eapply rtc_r.
Qed.

(** A conversion is complained about only where its literal is. *)
Lemma nodes_clean paths f : (forall n, n ∈ Inspect_file f -> node_clean paths n) <-> no_route_literal paths f.
Proof.
  setoid_rewrite Inspect_file_spec. split.
  - intros Hall lit v Hlit. exact (Hall _ Hlit v).
  - intros Hlit n Hn. destruct n as [|lit| |fn args| | | | | | | | | | | | | |]; try done; [by intros v; apply Hlit |].
    destruct fn as [| |x sel| | | | | | | | | | | | | | |]; try done.
    destruct args as [|[|lit| | | | | | | | | | | | | | | |] [|? ?]]; try done.
    intros _ _ v Hv Hin. refine (Hlit lit v _ Hv _).
    + eapply node_of_child; [exact Hn |]. unfold child, children. cbn. set_solver.
    + exists v. auto.
Qed.

(** No struct of the file has a field of type [client.Route]. *)
Definition no_route_field (f : file) : Prop :=
  forall p fs fd x sel, node_of f (StructType p fs) -> fd ∈ fs -> FieldType fd = Some (SelectorExpr x sel) ->
  client_ident x -> Name sel <> "Route".

Lemma bind_nil {A B} (g : A -> list B) (l : list A) : l ≫= g = [] <-> forall x, x ∈ l -> g x = [].
Proof.
  induction l as [|x l IH]; [split; [by intros _ x ?%not_elem_of_nil | done] |].
  cbn [mbind list_bind]. setoid_rewrite elem_of_cons. rewrite app_nil, IH. naive_solver.
Qed.

Lemma stored_none rel line f :
  Inspect_file f ≫= stored_routes rel line = [] <-> no_route_field f.
Proof.
  rewrite bind_nil. setoid_rewrite Inspect_file_spec. unfold no_route_field. split.
  - intros Hall p fs fd x sel Hn Hfd Ht Hx Hs. specialize (Hall _ Hn). simpl in Hall.
    apply fmap_nil_inv in Hall. assert (Hin : fd ∈ filter (fun f => is_route_field f = true) fs).
    { apply list_elem_of_filter. split; [| done]. unfold is_route_field. rewrite Ht, (proj2 (isPkgIdent_spec x) Hx).
      by rewrite bool_decide_eq_true_2. }
    rewrite Hall in Hin. by apply not_elem_of_nil in Hin.
  - intros Hall n Hn. destruct n as [| | | | | | | |p fs| | | | | | | | |]; try done. simpl.
    destruct (filter _ fs) as [|fd l] eqn:Hf; [done |].
    assert (Hin : fd ∈ filter (fun f => is_route_field f = true) fs) by (rewrite Hf; left).
    apply list_elem_of_filter in Hin as [Hr Hin]. unfold is_route_field in Hr.
    destruct (FieldType fd) as [[]|] eqn:Ht; try done. apply andb_true_iff in Hr as [Hx Hs].
    apply isPkgIdent_spec in Hx. apply bool_decide_eq_true in Hs. by destruct (Hall _ _ _ _ _ Hn Hin Ht Hx).
Qed.

(** ** Bindings of the identifier [client] *)

(** The declarations that bind a name in a scope, by the kind of the node. *)
Inductive binds : node -> ident -> Prop :=
  | binds_func name t body : binds (FuncDecl None name t body) name
  | binds_receiver fs name t body fd id : fd ∈ fs -> id ∈ Names fd -> binds (FuncDecl (Some fs) name t body) id
  | binds_signature recv name t body fd id :
      fd ∈ Params t ++ Results t -> id ∈ Names fd -> binds (FuncDecl recv name t body) id
  | binds_literal t body fd id : fd ∈ Params t ++ Results t -> id ∈ Names fd -> binds (FuncLit t body) id
  | binds_value names t vs id : id ∈ names -> binds (ValueSpec names t vs) id
  | binds_type name tps t : binds (TypeSpec name tps t) name
  | binds_local lhs rhs id : Ident id ∈ lhs -> binds (AssignStmt lhs DEFINE rhs) id
  | binds_key p id v x body : binds (RangeStmt p (Some (Ident id)) v DEFINE x body) id
  | binds_val p k id x body : binds (RangeStmt p k (Some (Ident id)) DEFINE x body) id
  | binds_switch p init lhs rhs body id : Ident id ∈ lhs -> binds (TypeSwitchStmt p init (AssignStmt lhs DEFINE rhs) body) id.

Lemma field_binders_spec kind fs id :
  id ∈ fst <$> field_binders kind fs <-> exists fd, fd ∈ fs /\ id ∈ Names fd.
Proof.
  unfold field_binders. rewrite <- list_fmap_compose, list_fmap_id by done.
  rewrite list_elem_of_bind. naive_solver.
Qed.

Lemma ident_binders_spec kind ns id : id ∈ fst <$> ident_binders kind ns <-> Ident id ∈ ns.
Proof.
  unfold ident_binders. rewrite list_elem_of_fmap. setoid_rewrite list_elem_of_bind. split.
  - intros ([id' k] & -> & n & Hk & Hn). destruct n; try by apply not_elem_of_nil in Hk.
    apply list_elem_of_singleton in Hk. by simplify_eq.
  - intros Hn. exists (id, kind). split; [done |]. exists (Ident id). split; [by apply list_elem_of_singleton | done].
Qed.

Lemma signature_binders_spec t id :
  id ∈ fst <$> signature_binders t <-> exists fd, fd ∈ Params t ++ Results t /\ id ∈ Names fd.
Proof.
  unfold signature_binders. rewrite fmap_app, elem_of_app, !field_binders_spec. setoid_rewrite elem_of_app. naive_solver.
Qed.

Lemma binders_spec n id : id ∈ fst <$> binders n <-> binds n id.
Proof.
  destruct n; cbn [binders]; try (split; [by intros ?%not_elem_of_nil | by inversion 1]).
  - rewrite signature_binders_spec. split; [intros (fd & ? & ?); by econstructor | inversion 1; subst; eauto].
  - destruct Tok; try (split; [by intros ?%not_elem_of_nil | by inversion 1]).
    rewrite ident_binders_spec. split; [by constructor | by inversion 1].
  - destruct Tok; try (split; [by intros ?%not_elem_of_nil | by inversion 1]).
    rewrite ident_binders_spec, elem_of_app. split.
    + destruct Key as [k|], Val as [v|]; simpl; rewrite ?list_elem_of_singleton;
        intros [Hid | Hid]; try (by apply not_elem_of_nil in Hid); subst; constructor.
    + inversion 1; subst; simpl; [left | right]; by apply list_elem_of_singleton.
  - destruct n1; try (split; [by intros ?%not_elem_of_nil | by inversion 1]).
    destruct Tok; try (split; [by intros ?%not_elem_of_nil | by inversion 1]).
    rewrite ident_binders_spec. split; [by constructor | by inversion 1].
  - rewrite <- list_fmap_compose, list_fmap_id by done. split; [by constructor | by inversion 1].
  - simpl. rewrite list_elem_of_singleton. split; [intros ->; by constructor | by inversion 1].
  - rewrite fmap_app, elem_of_app, signature_binders_spec. destruct Recv as [fs|].
    + rewrite field_binders_spec. split.
      * intros [(fd & ? & ?) | (fd & ? & ?)]; by econstructor.
      * inversion 1; subst; eauto.
    + simpl. rewrite list_elem_of_singleton. split.
      * intros [-> | (fd & ? & ?)]; by econstructor.
      * inversion 1; subst; eauto.
Qed.

(** In the file, [client] is this module's package and nothing else: no other
    import and no declaration binds it. *)
Definition unambiguous (f : file) : Prop :=
  (forall n id, node_of f n -> binds n id -> Name id <> pkgIdent)
  /\ (forall name p, node_of f (ImportSpec name (Some p)) -> import_name name (Some p) = pkgIdent ->
        Value p = clientImportPath).

(** The client package is imported as [client]. *)
Definition imported_by_name (f : file) : Prop :=
  forall name p, node_of f (ImportSpec name (Some p)) -> Value p = clientImportPath ->
  import_name name (Some p) = pkgIdent.

Lemma import_check_spec rel line n name p :
  (fst (import_check rel line n name (Some p)) = [] <->
     (Value p = clientImportPath -> import_name name (Some p) = pkgIdent))
  /\ (snd (import_check rel line n name (Some p)) = [] <->
     (import_name name (Some p) = pkgIdent -> Value p = clientImportPath)).
Proof.
  unfold import_check. destruct (decide (Value p = clientImportPath)), (decide (import_name name (Some p) = pkgIdent));
    repeat case_decide; simpl; naive_solver.
Qed.

Lemma bindings_other rel line n : (forall name p, n <> ImportSpec name p) ->
  bindings rel line n =
  ([], (fun ik => binding_problem rel line (NamePos (fst ik)) (snd ik))
         <$> filter (fun ik => Name (fst ik) = pkgIdent) (binders n)).
Proof. intros Hn. destruct n; try done. by destruct (Hn Name_ Path). Qed.

Lemma binders_none rel line n :
  (fun ik => binding_problem rel line (NamePos (fst ik)) (snd ik))
    <$> filter (fun ik => Name (fst ik) = pkgIdent) (binders n) = []
  <-> forall id, binds n id -> Name id <> pkgIdent.
Proof.
  setoid_rewrite <- binders_spec. split.
  - intros Hf%fmap_nil_inv id ([id' k] & -> & Hin)%list_elem_of_fmap Hname.
    assert (Hc : (id', k) ∈ filter (fun ik => Name (fst ik) = pkgIdent) (binders n))
      by by apply list_elem_of_filter.
    rewrite Hf in Hc. by apply not_elem_of_nil in Hc.
  - intros Hall. destruct (filter _ _) as [|ik l] eqn:Hf; [done |].
    assert (Hc : ik ∈ filter (fun ik => Name (fst ik) = pkgIdent) (binders n)) by (rewrite Hf; left).
    apply list_elem_of_filter in Hc as [Hname Hin]. destruct (Hall (fst ik)); [| done].
    apply list_elem_of_fmap. by exists ik.
Qed.

Lemma bindings_problems rel line f :
  Inspect_file f ≫= (fun n => snd (bindings rel line n)) = [] <-> unambiguous f.
Proof.
  rewrite bind_nil. setoid_rewrite Inspect_file_spec. unfold unambiguous. split.
  - intros Hall. split.
    + intros n id Hn Hb. specialize (Hall n Hn). rewrite bindings_other in Hall by (intros ? ? ->; inversion Hb).
      revert id Hb. by apply (binders_none rel line).
    + intros name p Hn. exact (proj1 (proj2 (import_check_spec rel line _ name p)) (Hall _ Hn)).
  - intros [Hb Hi] n Hn. destruct n; try (rewrite bindings_other by done; apply binders_none; intros y Hy; by apply (Hb _ _ Hn)).
    destruct Path as [p|]; [| done]. exact (proj2 (proj2 (import_check_spec rel line _ Name_ p)) (Hi _ _ Hn)).
Qed.

Lemma bindings_diags rel line f :
  Inspect_file f ≫= (fun n => fst (bindings rel line n)) = [] <-> imported_by_name f.
Proof.
  rewrite bind_nil. setoid_rewrite Inspect_file_spec. unfold imported_by_name. split.
  - intros Hall name p Hn. exact (proj1 (proj1 (import_check_spec rel line _ name p)) (Hall _ Hn)).
  - intros Hi n Hn. destruct n; try by rewrite bindings_other.
    destruct Path as [p|]; [| done]. exact (proj2 (proj1 (import_check_spec rel line _ Name_ p)) (Hi _ _ Hn)).
Qed.

(** ** A scanned file *)
Section scan_tree.
Context (rel : string) (f : file) (names paths : gset string).

Lemma scan_tree_refs name :
  name ∈ r_name <$> fst (fst (scan_tree rel (Line f) names paths f)) <-> name ∈ names /\ names_route f name.
Proof using.
  unfold scan_tree. cbn [fst snd]. rewrite scan_refs. cbn [sc_refs app]. rewrite list_elem_of_fmap. setoid_rewrite list_elem_of_bind.
  setoid_rewrite Inspect_file_spec. unfold names_route. split.
  - intros (r & -> & n & Hr & Hn). unfold node_refs in Hr. destruct n; try by apply not_elem_of_nil in Hr.
    destruct (isPkgIdent n && bool_decide (Name Sel ∈ names)) eqn:Hb; [| by apply not_elem_of_nil in Hr].
    apply list_elem_of_singleton in Hr as ->. apply andb_true_iff in Hb as [Hx Hs].
    apply isPkgIdent_spec in Hx. apply bool_decide_eq_true in Hs. simpl. eauto 6.
  - intros (Hin & x & sel & Hx & <- & Hn). eexists. split; [| eexists; split; [| exact Hn]].
    2: { simpl. rewrite (proj2 (isPkgIdent_spec x) Hx), bool_decide_eq_true_2 by done. by apply list_elem_of_singleton. }
    done.
Qed.

Lemma scan_tree_diags :
  snd (fst (scan_tree rel (Line f) names paths f)) = []
  <-> no_route_literal paths f /\ no_route_field f /\ imported_by_name f.
Proof using.
  unfold scan_tree. cbn [fst snd]. rewrite !app_nil, scan_clean, nodes_clean, stored_none, bindings_diags by done. done.
Qed.

Lemma scan_tree_problems : snd (scan_tree rel (Line f) names paths f) = [] <-> unambiguous f.
Proof using. unfold scan_tree. cbn [fst snd]. apply bindings_problems. Qed.
End scan_tree.
