(* ===== verification/ParityGate.v ===== *)
(** The parity gate as a whole: what a run that exits with 0 has established. *)
From stdpp Require Import gmap pretty sorting.
From S2P Require Import Prelude Types Errs Domain Service GoNumbers GoText GoAst Parity ParityScan.
Local Open Scope Z_scope.

(** ** What a walk finds *)
Abbreviation found := (list reference * list diagnostic * list problem)%type.
Definition nothing : found := ([], [], []).
Definition both (x y : found) : found :=
  (fst (fst x) ++ fst (fst y), snd (fst x) ++ snd (fst y), snd x ++ snd y).
Definition all_found {A} (g : A -> found) (l : list A) : found := foldr (fun x acc => both (g x) acc) nothing l.

Lemma all_found_parts {A} (g : A -> found) l :
  all_found g l = (l ≫= fun x => fst (fst (g x)), l ≫= fun x => snd (fst (g x)), l ≫= fun x => snd (g x)).
Proof. induction l as [|x l IH]; [done |]. cbn [all_found foldr]. fold (all_found g l). by rewrite IH. Qed.

Lemma add_scan_both x y a : add_scan y (add_scan x a) = add_scan (both x y) a.
Proof.
  destruct x as [[r1 d1] p1], y as [[r2 d2] p2]. unfold add_scan, both. cbn. f_equal; rewrite <- ?app_assoc; try done.
  rewrite fmap_app, list_to_set_app_L. set_solver.
Qed.

Lemma add_scan_nothing a : add_scan nothing a = a.
Proof. destruct a. unfold add_scan, nothing. cbn. rewrite !app_nil_r. f_equal. set_solver. Qed.

Lemma fail_add err hint a : fail err hint a = add_scan ([], [], [mkProblem err hint]) a.
Proof. destruct a. unfold fail, set_problems, add_scan. cbn. rewrite !app_nil_r. f_equal. set_solver. Qed.

Section walk.
Context (w : World).

(** The walk depends on the root and on the declared routes alone. *)
Definition file_found (a : analysis) (path : string) : found :=
  scanFile w path (slashRelative (a_root a) path)
    (list_to_set (d_name <$> a_decls a)) (list_to_set (d_path <$> a_decls a)).

Definition same_input (a b : analysis) : Prop := a_root a = a_root b /\ a_decls a = a_decls b.

Lemma same_add_scan x a : same_input (add_scan x a) a.
Proof using. by destruct x as [[]]. Qed.

Lemma file_found_same a b path : same_input a b -> file_found a path = file_found b path.
Proof using. unfold file_found. by intros [-> ->]. Qed.

Lemma all_found_ext {A} (g h : A -> found) l : (forall x, g x = h x) -> all_found g l = all_found h l.
Proof using. intros Hgh. induction l as [|x l IH]; [done |]. simpl. by rewrite Hgh, IH. Qed.

Lemma visit_files vs a : foldl (visit_file w) a vs = add_scan (all_found (file_found a) vs) a.
Proof using.
  revert a. induction vs as [|v vs IH]; intros a; [by rewrite add_scan_nothing |].
  cbn [foldl all_found foldr]. rewrite IH. unfold visit_file at 2.
  fold (file_found a v). rewrite add_scan_both. f_equal. f_equal.
  apply all_found_ext. intros x. apply file_found_same, same_add_scan.
Qed.

(** What one scan root adds. *)
Definition visited (a : analysis) (rel : string) : list string :=
  match Stat w (path_Join [a_root a; rel]) with
  | Some true => fst (WalkDir w (path_Join [a_root a; rel]))
  | _ => []
  end.

Definition root_problems (a : analysis) (rel : string) : list problem :=
  match Stat w (path_Join [a_root a; rel]) with
  | Some true =>
      match snd (WalkDir w (path_Join [a_root a; rel])) with
      | Some err => [mkProblem (EWrap ("walking " +:+ rel +:+ ": " +:+ error_text err) err)
                       ("an unreadable scan root must not read as " +:+ quoted "nothing referenced")]
      | None => []
      end
  | _ => [mkProblem (EText ("scan root " +:+ rel +:+ " does not exist"))
            ("a renamed directory must not read as " +:+ quoted "nothing referenced")]
  end.

Definition root_found (a : analysis) (rel : string) : found :=
  both (all_found (file_found a) (visited a rel)) ([], [], root_problems a rel).

Lemma scan_root_found a n rel :
  scan_root w (a, n) rel = (add_scan (root_found a rel) a, (n + length (visited a rel))%nat).
Proof using.
  unfold scan_root, root_found, root_problems, visited. cbn zeta.
  destruct (Stat w _) as [[]|]; [| by rewrite fail_add, Nat.add_0_r..].
  destruct (WalkDir w _) as [vs [err|]]; cbn [fst snd]; rewrite visit_files.
  - by rewrite fail_add, add_scan_both.
  - by rewrite <- add_scan_both, add_scan_nothing.
Qed.

Lemma root_found_same a b rel :
  same_input a b -> root_found a rel = root_found b rel /\ visited a rel = visited b rel.
Proof using.
  intros [Hr Hd]. unfold root_found, root_problems, visited. rewrite Hr. split; [| done].
  f_equal. apply all_found_ext. intros x. by apply file_found_same.
Qed.

Lemma scan_roots rels a n :
  foldl (scan_root w) (a, n) rels =
  (add_scan (all_found (root_found a) rels) a, (n + length (rels ≫= visited a))%nat).
Proof using.
  revert a n. induction rels as [|rel rels IH]; intros a n.
  { cbn [foldl]. by rewrite add_scan_nothing, Nat.add_0_r. }
  assert (Hsame : forall r, root_found (add_scan (root_found a rel) a) r = root_found a r
    /\ visited (add_scan (root_found a rel) a) r = visited a r)
    by (intros r; apply root_found_same, same_add_scan).
  cbn [foldl all_found foldr mbind list_bind]. rewrite scan_root_found, IH, add_scan_both, length_app, Nat.add_assoc.
  rewrite (all_found_ext _ (root_found a)) by apply Hsame. do 3 f_equal.
Qed.

(** ** What the gate is about *)

(** A scan root is a directory that can be read. *)
Definition root_readable (root rel : string) : Prop :=
  Stat w (path_Join [root; rel]) = Some true
  /\ exists e, Tree w (path_Join [root; rel]) = inl e /\ readable e.

(** The non-test sources under the scan roots. *)
Definition scanned (root : string) (roots : list string) (p : string) : Prop :=
  exists rel e, rel ∈ roots /\ Tree w (path_Join [root; rel]) = inl e /\ source_under (path_Join [root; rel]) e p.

(** A scanned source names the route. *)
Definition named (root : string) (roots : list string) (name : string) : Prop :=
  exists p f, scanned root roots p /\ ParseFile w p = inl f /\ names_route f name.

(** Every scanned source is a Go file in which [client] is the client package. *)
Definition walk_sound (root : string) (roots : list string) : Prop :=
  (forall rel, rel ∈ roots -> root_readable root rel)
  /\ forall p, scanned root roots p -> exists f, ParseFile w p = inl f /\ unambiguous f.

(** What the walk reports besides the routes named: in no scanned source is a
    string literal exactly a route path or an alias of one, a struct field of the
    type [client.Route] itself, or the client package imported under another name.
    A route can be used without any of these, and then nothing is reported: by
    [client.Routes()], by a path put together from parts, in a slice, a map or a
    variable of routes ([ParityProps.parity_gate_escapes]). *)
Definition nothing_reported (root : string) (roots : list string) (decls : list routeDecl) : Prop :=
  forall p f, scanned root roots p -> ParseFile w p = inl f ->
  no_route_literal (list_to_set (d_path <$> decls)) f /\ no_route_field f /\ imported_by_name f.

Section walked.
Context (a : analysis) (roots : list string).

Lemma root_problems_none rel : root_problems a rel = [] <-> root_readable (a_root a) rel.
Proof using.
  unfold root_problems, root_readable, WalkDir. destruct (Stat w _) as [[]|]; [| by split; [| intros [? _]]..].
  destruct (Tree w _) as [e|err]; simpl; [| by split; [| intros [_ (? & ? & _)]]].
  destruct (walk_dir_spec e (path_Join [a_root a; rel])) as [He _].
  destruct (snd (walk_dir _ e)) as [er|] eqn:Hs.
  - split; [done |]. intros [_ (e' & [= <-] & Hr)]. by apply He in Hr.
  - split; [| done]. intros _. split; [done |]. exists e. split; [done |]. by apply He.
Qed.

Lemma visited_spec rel p :
  root_readable (a_root a) rel ->
  p ∈ visited a rel <-> exists e, Tree w (path_Join [a_root a; rel]) = inl e /\ source_under (path_Join [a_root a; rel]) e p.
Proof using.
  intros [Hst (e & He & Hr)]. unfold visited, WalkDir. rewrite Hst, He.
  rewrite (proj2 (walk_dir_spec e _) Hr). naive_solver.
Qed.

Lemma visited_scanned :
  (forall rel, rel ∈ roots -> root_readable (a_root a) rel) ->
  forall p, p ∈ (roots ≫= visited a) <-> scanned (a_root a) roots p.
Proof using.
  intros Hall p. rewrite list_elem_of_bind. unfold scanned. split.
  - intros (rel & Hp & Hrel). apply visited_spec in Hp as (e & ? & ?); eauto.
  - intros (rel & e & Hrel & He & Hs). exists rel. split; [| done]. apply visited_spec; eauto.
Qed.

(** The three parts of what the walk finds. *)
Lemma found_refs :
  fst (fst (all_found (root_found a) roots)) = (roots ≫= visited a) ≫= fun p => fst (fst (file_found a p)).
Proof using.
  rewrite all_found_parts. simpl. induction roots as [|rel rels IH]; [done |].
  cbn [mbind list_bind]. rewrite IH, bind_app. f_equal. unfold root_found, both. cbn [fst snd].
  by rewrite all_found_parts, app_nil_r.
Qed.

Lemma found_diags :
  snd (fst (all_found (root_found a) roots)) = (roots ≫= visited a) ≫= fun p => snd (fst (file_found a p)).
Proof using.
  rewrite all_found_parts. simpl. induction roots as [|rel rels IH]; [done |].
  cbn [mbind list_bind]. rewrite IH, bind_app. f_equal. unfold root_found, both. cbn [fst snd].
  by rewrite all_found_parts, app_nil_r.
Qed.

Lemma found_problems :
  snd (all_found (root_found a) roots) = [] <->
  (forall rel, rel ∈ roots -> root_problems a rel = [])
  /\ forall p, p ∈ (roots ≫= visited a) -> snd (file_found a p) = [].
Proof using.
  rewrite all_found_parts. simpl. rewrite bind_nil. unfold root_found, both. cbn [fst snd].
  setoid_rewrite app_nil. setoid_rewrite all_found_parts. cbn [snd]. setoid_rewrite bind_nil.
  setoid_rewrite list_elem_of_bind. naive_solver.
Qed.

(** A file without problems was parsed, and binds no other [client]. *)
Lemma file_found_problems p :
  snd (file_found a p) = [] <-> exists f, ParseFile w p = inl f /\ unambiguous f.
Proof using.
  unfold file_found, scanFile. destruct (ParseFile w p) as [f|err]; [rewrite scan_tree_problems |];
    (split; [| naive_solver]); [by eauto | done].
Qed.

Lemma walk_sound_spec :
  snd (all_found (root_found a) roots) = [] <-> walk_sound (a_root a) roots.
Proof using.
  rewrite found_problems. unfold walk_sound. setoid_rewrite root_problems_none. setoid_rewrite file_found_problems.
  split; intros [Hr Hf]; (split; [done |]); intros p Hp; apply Hf; by apply visited_scanned.
Qed.

Hypothesis Hwalk : walk_sound (a_root a) roots.

Lemma found_names name :
  name ∈ d_name <$> a_decls a ->
  name ∈ r_name <$> fst (fst (all_found (root_found a) roots)) <-> named (a_root a) roots name.
Proof using Hwalk.
  intros Hname. destruct Hwalk as [Hr Hf]. rewrite found_refs, list_elem_of_fmap. setoid_rewrite list_elem_of_bind.
  setoid_rewrite (visited_scanned Hr). unfold named. split.
  - intros (r & -> & p & Hin & Hp). destruct (Hf p Hp) as (f & Hpf & _). exists p, f. split_and!; [done | done |].
    unfold file_found, scanFile in Hin. rewrite Hpf in Hin.
    by eapply scan_tree_refs, list_elem_of_fmap_2.
  - intros (p & f & Hp & Hpf & Hn).
    assert (Hin : name ∈ r_name <$> fst (fst (file_found a p))).
    { unfold file_found, scanFile. rewrite Hpf. apply scan_tree_refs. split; [| done]. by apply elem_of_list_to_set. }
    apply list_elem_of_fmap in Hin as (r & -> & Hin). eauto.
Qed.

Lemma found_reported :
  snd (fst (all_found (root_found a) roots)) = [] <-> nothing_reported (a_root a) roots (a_decls a).
Proof using Hwalk.
  destruct Hwalk as [Hr Hf]. rewrite found_diags, bind_nil. setoid_rewrite (visited_scanned Hr). unfold nothing_reported. split.
  - intros Hall p f Hp Hpf. specialize (Hall p Hp). unfold file_found, scanFile in Hall. rewrite Hpf in Hall.
    by apply scan_tree_diags in Hall.
  - intros Hall p Hp. destruct (Hf p Hp) as (f & Hpf & _). unfold file_found, scanFile. rewrite Hpf.
    by apply scan_tree_diags, Hall with p.
Qed.
End walked.
End walk.

(** ** The scan *)
Lemma scan_spec w a :
  a_refs a = [] ->
  exists probs, scan w a = add_scan (both (all_found (root_found w a) (Roots (a_cfg a))) ([], [], probs)) a
    /\ (probs = [] <-> fst (fst (all_found (root_found w a) (Roots (a_cfg a)))) <> []).
Proof.
  intros Hrefs. unfold scan. rewrite scan_roots, Nat.add_0_l. set (x := all_found _ _). cbv beta iota zeta.
  assert (Hx : a_refs (add_scan x a) = fst (fst x)) by (destruct x as [[]]; simpl; by rewrite Hrefs).
  assert (Hfiles : length (Roots (a_cfg a) ≫= visited w a) = 0%nat -> fst (fst x) = []).
  { intros Hv%nil_length_inv. unfold x. by rewrite found_refs, Hv. }
  destruct (decide (length (Roots (a_cfg a) ≫= visited w a) = 0%nat)) as [Hf|Hf].
  - rewrite fail_add, add_scan_both. rewrite decide_True.
    2: { destruct x as [[]]; simpl in *. by rewrite Hrefs, (Hfiles Hf). }
    rewrite fail_add, add_scan_both. eexists (_ :: _). split.
    + unfold both. cbn. rewrite <- !app_assoc, !app_nil_r. reflexivity.
    + split; [done | by intros []; apply Hfiles].
  - rewrite Hx. case_decide as Hn.
    + rewrite fail_add, add_scan_both. eexists. split; [reflexivity |]. by rewrite Hn.
    + exists []. split; [| done]. rewrite <- (add_scan_both x ([], [], [])). by rewrite add_scan_nothing.
Qed.

(** ** The routes of the registry *)
Lemma each_ind {S A} (f : S -> A -> S + error) (I : S -> Prop) s l s' :
  (forall s x s', x ∈ l -> I s -> f s x = inl s' -> I s') -> I s -> each f s l = inl s' -> I s'.
Proof.
  revert s. induction l as [|x l IH]; intros s Hstep Hs; cbn [each]; [by intros [= <-] |].
  destruct (f s x) as [s1|e] eqn:Hf; [| done]. apply IH; [| by eapply Hstep; [left | |]].
  intros t y t' Hy. apply Hstep. by right.
Qed.

(** An entry has a name or a path, not both. *)
Definition named_or_path (e : registryEntry) : Prop := e_name e = "" \/ e_path e = "".

Lemma parseRegistry_entries line values entries :
  parseRegistry line values = inl entries -> Forall named_or_path entries.
Proof.
  unfold parseRegistry. destruct values as [|[] [|? ?]]; try done.
  apply (each_ind _ (Forall named_or_path)); [| done]. intros es elt es' _ Hes. destruct elt; try done.
  destruct (registry_key _ _) as [e|e] eqn:Hk; [| done]. intros [= <-]. apply Forall_app. split; [done |].
  constructor; [| done]. unfold registry_key in Hk. unfold named_or_path.
  destruct elt1; simplify_eq; [by right | | ].
  - destruct (unquoteString lit); simplify_eq. by left.
  - destruct Args as [|[] [|? ?]]; try done. destruct (unquoteString lit); simplify_eq. by left.
Qed.

Lemma parseRoutes_entries w path decls registry :
  parseRoutes w path = inl (decls, registry) -> Forall named_or_path registry.
Proof.
  unfold parseRoutes. destruct (Stat w path); [| done]. destruct (ParseFile w path) as [f|]; [| done].
  destruct (each _ _ _) as [st|] eqn:Hst; [| done].
  destruct (rt_registries st) as [|[]]; try done. intros [= _ <-].
  revert Hst. apply (each_ind _ (fun st => Forall named_or_path (rt_registry st))); [| done].
  intros s d s' _ Hs. destruct d; try by intros [= <-]. destruct Tok; try by intros [= <-].
  - apply (each_ind _ (fun st => Forall named_or_path (rt_registry st))); [| done].
    intros s1 sp s2 _ H1. unfold const_spec. intros Hc. repeat case_match; by simplify_eq.
  - apply (each_ind _ (fun st => Forall named_or_path (rt_registry st))); [| done].
    intros s1 sp s2 _ H1. unfold var_spec. destruct sp as [| | | | | | | | | | | | |ids t vs| | | |]; try by intros [= <-].
    destruct ids as [|id [|? ?]]; try by intros [= <-]. case_decide; [| by intros [= <-]].
    destruct (parseRegistry _ _) as [entries|] eqn:He; [| done]. intros [= <-]. by eapply parseRegistry_entries.
Qed.

(** The constants and the registry declare the same routes; a constant with the
    empty path may be missing from the registry. *)
Definition registry_agrees (decls : list routeDecl) (registry : list registryEntry) : Prop :=
  (forall e, e ∈ registry -> e_name e <> "" /\ e_name e ∈ d_name <$> decls)
  /\ (forall d, d ∈ decls -> d_name d ∈ e_name <$> registry \/ (d_path d = "" /\ registry <> [])).

Lemma checkRegistry_spec a :
  Forall named_or_path (a_registry a) ->
  a_problems (checkRegistry a) = [] <-> a_problems a = [] /\ registry_agrees (a_decls a) (a_registry a).
Proof.
  intros Hone. unfold checkRegistry, set_problems, registry_agrees. simpl. rewrite !app_nil, !bind_nil.
  assert (He : (forall e, e ∈ a_registry a -> check_entry (a_cfg a) (a_decls a) e = [])
    <-> forall e, e ∈ a_registry a -> e_name e <> "" /\ e_name e ∈ d_name <$> a_decls a).
  { apply forall_proper. intros e. unfold check_entry. case_decide; [naive_solver |].
    case_decide as Hm; rewrite elem_of_list_to_set in Hm; naive_solver. }
  rewrite He. split.
  - intros (Hp & Hd & Hn). split_and!; [done | done |]. intros d Hin. specialize (Hd d Hin).
    unfold check_decl in Hd. case_decide as Hc; [done |].
    destruct (decide (d_name d ∈ e_name <$> a_registry a)) as [|Hno]; [by left | right].
    apply not_and_r in Hc as [Hc | Hc]; apply dec_stable in Hc; apply elem_of_list_to_set in Hc.
    { by apply list_elem_of_filter in Hc as [_ ?]. }
    apply list_elem_of_fmap in Hc as (e & Hpath & Hine). destruct (Hn e Hine) as [Hne _].
    rewrite Forall_forall in Hone. destruct (Hone e Hine) as [? | Hep]; [done |].
    split; [congruence |]. intros Hnil. rewrite Hnil in Hine. by apply not_elem_of_nil in Hine.
  - intros (Hp & Hn & Hd). split_and!; [done | | done]. intros d Hin. unfold check_decl.
    case_decide as Hc; [| done]. destruct Hc as [Hc1 Hc2]. exfalso.
    rewrite elem_of_list_to_set in Hc1. rewrite elem_of_list_to_set in Hc2.
    destruct (Hd d Hin) as [Hm | [Hpath Hne]].
    + apply Hc1, list_elem_of_filter. split; [| done].
      apply list_elem_of_fmap in Hm as (e & -> & Hine). by apply Hn.
    + destruct (a_registry a) as [|e es] eqn:Hreg; [done |]. apply Hc2. rewrite Hpath.
      apply list_elem_of_fmap. exists e. split; [| left].
      destruct (Hn e) as [Hne' _]; [left |]. inversion_clear Hone. by destruct H.
Qed.

(** ** The whole evaluation *)

(** Everything the gate relies on holds: the root, the routes and the registry, the
    three copies of the count, and the walk. *)
Record integrity (w : World) (cfg : config) (root : string) (decls : list routeDecl) (registry : list registryEntry)
    (spec : specInfo) : Prop := mkIntegrity {
  i_root : root = resolveRoot w (Root cfg) (Routes cfg) /\ root <> "";
  i_routes : parseRoutes w (path_Join [root; Routes cfg]) = inl (decls, registry) /\ decls <> [];
  i_registry : registry_agrees decls registry;
  i_spec : parseSpec w (path_Join [root; Spec cfg]) = inl spec;
  i_total : s_total spec = Z.of_nat (length decls);
  i_groups : sumDeclared (s_groups spec) = s_total spec;
  i_breakdown : s_breakdown spec = g_declared <$> s_groups spec;
  i_walk : walk_sound w root (Roots cfg);
  i_named : exists d, d ∈ decls /\ named w root (Roots cfg) (d_name d);
}.

Lemma checkBreakdown_spec spec : checkBreakdown spec = None <-> s_breakdown spec = g_declared <$> s_groups spec.
Proof.
  unfold checkBreakdown. generalize (s_breakdown spec), (s_groups spec). intros bd gs.
  case_decide as Hl; [split; [done |]; intros ->; by rewrite length_fmap in Hl |].
  destruct (forallb _ _) eqn:Hf.
  - split; [intros _ | done]. revert gs Hl Hf. induction bd as [|v bd IH]; intros [|g gs] Hl Hf; try done.
    cbn in Hf. apply andb_true_iff in Hf as [Hv Hf]. apply bool_decide_eq_true in Hv. simpl in Hv.
    rewrite fmap_cons, Hv. f_equal. apply IH; [| done]. by injection Hl.
  - split; [done |]. intros ->. apply not_true_iff_false in Hf. destruct Hf. clear Hl.
    induction gs as [|g gs IH]; [done |]. cbn. by rewrite bool_decide_eq_true_2, IH.
Qed.

(** The join adds groups and a note; what the exit depends on stays. *)
Lemma joinGroups_frame a a' :
  joinGroups a = Ret a' ->
  a_problems a' = a_problems a /\ a_diags a' = a_diags a /\ a_decls a' = a_decls a
  /\ a_wiredName a' = a_wiredName a /\ a_cfg a' = a_cfg a /\ a_measured a' = a_measured a.
Proof.
  unfold joinGroups. case_decide; [by intros [= <-] |].
  destruct (join_rows _ _ _ _ _) as [[note|]|]; cbn [mbind outcome_bind]; [by intros [= <-] | | done].
  destruct (join_spans _ _ _ _) as [[[gs go] last]|]; cbn [mbind outcome_bind]; [| done].
  case_decide; by intros [= <-].
Qed.

Lemma fail_problems err hint a : a_problems (fail err hint a) <> [].
Proof. unfold fail, set_problems. simpl. by destruct (a_problems a). Qed.

(** What a run without problems has measured. *)
Definition measures (w : World) (cfg : config) (root : string) (decls : list routeDecl) (a : analysis) : Prop :=
  a_problems a = [] /\ a_measured a = true /\ a_decls a = decls
  /\ (forall d, d ∈ decls -> d_name d ∈ a_wiredName a <-> named w root (Roots cfg) (d_name d))
  /\ (a_diags a = [] <-> nothing_reported w root (Roots cfg) decls).

Lemma refs_named w a roots :
  walk_sound w (a_root a) roots ->
  fst (fst (all_found (root_found w a) roots)) <> [] <->
  exists d, d ∈ a_decls a /\ named w (a_root a) roots (d_name d).
Proof.
  intros Hw. split.
  - destruct (fst (fst _)) as [|r l] eqn:Hr; [done |]. intros _.
    assert (Hin : r_name r ∈ r_name <$> fst (fst (all_found (root_found w a) roots))) by (rewrite Hr; left).
    assert (Hd : r_name r ∈ d_name <$> a_decls a).
    { apply list_elem_of_fmap in Hin as (r' & Heq & Hin). rewrite found_refs in Hin.
      apply list_elem_of_bind in Hin as (p & Hin & _). unfold file_found, scanFile in Hin.
      destruct (ParseFile w p); [| by apply not_elem_of_nil in Hin].
      apply (list_elem_of_fmap_2 r_name), scan_tree_refs in Hin as [Hin _].
      rewrite Heq. by apply elem_of_list_to_set in Hin. }
    apply found_names in Hin; [| done | done]. apply list_elem_of_fmap in Hd as (d & Heq & Hd).
    exists d. by rewrite <- Heq.
  - intros (d & Hd & Hn). apply found_names in Hn; [| done | by apply list_elem_of_fmap_2].
    intros Hnil. rewrite Hnil in Hn. by apply not_elem_of_nil in Hn.
Qed.

(** The case of an early return: a problem, and a hypothesis of [integrity] that fails. *)
Ltac refused root :=
  intros [= <-]; split; [done | left]; split; [apply fail_problems |];
  intros ? ? ? ? [[-> ?] [? ?] ? ? ? ? ? ? ?]; unfold root in *; try congruence.

Lemma evaluate_cases w cfg0 a :
  let cfg := normalize cfg0 in
  evaluate w cfg0 = Ret a ->
  a_cfg a = cfg /\
  ((a_problems a <> [] /\ forall root decls registry spec, ~ integrity w cfg root decls registry spec)
   \/ exists root decls registry spec, integrity w cfg root decls registry spec /\ measures w cfg root decls a).
Proof.
  intros cfg. unfold evaluate. fold cfg. set (root := resolveRoot w (Root cfg) (Routes cfg)). cbv zeta.
  case_decide as Hroot; [refused root |].
  destruct (parseRoutes w _) as [[decls registry]|err] eqn:Hroutes; [| refused root].
  case_decide as Hdecls; [refused root |].
  destruct (parseSpec w _) as [spec|err] eqn:Hspec; [| refused root].
  case_decide as Htotal; [refused root |].
  case_decide as Hsum; [refused root |].
  destruct (checkBreakdown spec) as [err|] eqn:Hbd.
  { refused root. enough (checkBreakdown spec = None) by congruence. apply checkBreakdown_spec. congruence. }
  apply checkBreakdown_spec in Hbd.
  set (a0 := set_spec spec (checkRegistry (set_routes decls registry (new_analysis cfg root)))).
  assert (Ha0 : a_problems a0 = [] <-> registry_agrees decls registry).
  { unfold a0. simpl. pose proof (checkRegistry_spec (set_routes decls registry (new_analysis cfg root))
      (parseRoutes_entries _ _ _ _ Hroutes)) as Hc. simpl in Hc. rewrite Hc. tauto. }
  destruct (scan_spec w a0 eq_refl) as (probs & Hscan & Hprobs). rewrite Hscan.
  change (Roots (a_cfg a0)) with (Roots cfg) in *.
  set (x := all_found (root_found w a0) (Roots cfg)) in *.
  set (a1 := add_scan (both x ([], [], probs)) a0).
  assert (Hok : a_problems a1 = [] <-> registry_agrees decls registry /\ walk_sound w root (Roots cfg)
    /\ exists d, d ∈ decls /\ named w root (Roots cfg) (d_name d)).
  { unfold a1. change (a_problems (add_scan (both x ([], [], probs)) a0)) with (a_problems a0 ++ snd x ++ probs).
    rewrite !app_nil, Ha0, Hprobs. unfold x. rewrite walk_sound_spec. split.
    - intros (? & Hw & Hr). split_and!; [done | done |]. by apply (refs_named w a0 (Roots cfg) Hw).
    - intros (? & Hw & Hr). split_and!; [done | done |]. by apply (refs_named w a0 (Roots cfg) Hw). }
  set (a2 := set_measured (bool_decide (a_problems a1 = [])) a1).
  change (a_measured a2) with (bool_decide (a_problems a1 = [])).
  case_bool_decide as Hp.
  - intros Hjoin. apply joinGroups_frame in Hjoin as (Hpr & Hdi & Hde & Hwi & Hcf & Hme).
    split; [by rewrite Hcf |]. right. exists root, decls, registry, spec.
    apply Hok in Hp as (Hr & Hw & Hn). split; [by constructor |].
    unfold measures. rewrite Hpr, Hdi, Hde, Hwi, Hme.
    split_and!; [by apply Hok | done | done | |].
    + intros d Hd. change (a_wiredName _) with (list_to_set (C := gset string) (r_name <$> (fst (fst x) ++ [])) ∪ ∅).
      rewrite app_nil_r. transitivity (d_name d ∈ r_name <$> fst (fst x)); [set_solver |]. apply (found_names w a0 (Roots cfg) Hw).
      by apply list_elem_of_fmap_2.
    + change (a_diags _) with (snd (fst x) ++ []). rewrite app_nil_r. apply (found_reported w a0 (Roots cfg) Hw).
  - intros [= <-]. split; [done | left]. split; [done |]. intros r d g s Hi. apply Hp, Hok.
    destruct Hi as [[Hrt ?] [? ?] ? ? ? ? ? ? ?]. change (r = root) in Hrt. subst r. assert (d = decls) as -> by congruence.
    assert (g = registry) as -> by congruence. done.
Qed.

(** ** The exit code *)
Lemma report_code a out code : report a = Ret (out, code) -> code = exit_code a.
Proof. unfold report. destruct (measurement a); [| done]. by intros [= _ <-]. Qed.

Lemma unwired_none a : unwired a = [] <-> forall d, d ∈ a_decls a -> d_name d ∈ a_wiredName a.
Proof.
  unfold unwired. rewrite concat_nil_Forall, Forall_forall. setoid_rewrite elem_of_lookup_imap. split.
  - intros Hall d [i Hi]%list_elem_of_lookup. specialize (Hall _ (ex_intro _ i (ex_intro _ d (conj eq_refl Hi)))).
    by case_decide.
  - intros Hall x (i & d & -> & Hi). rewrite decide_True; [done |]. by eapply Hall, list_elem_of_lookup_2.
Qed.

Lemma measures_exit w cfg root decls a :
  measures w cfg root decls a ->
  exit_code a = 0 <->
  (Enforce (a_cfg a) = true ->
     (forall d, d ∈ decls -> named w root (Roots cfg) (d_name d)) /\ nothing_reported w root (Roots cfg) decls).
Proof.
  intros (Hp & Hm & <- & Hn & Hd). unfold exit_code, open. rewrite Hm, <- Hd.
  assert (Hopen : count (length (unwired a)) <= 0 <-> forall d, d ∈ a_decls a -> named w root (Roots cfg) (d_name d)).
  { transitivity (unwired a = []).
    - unfold count. destruct (unwired a); simpl; split; try done; lia.
    - rewrite unwired_none. split; intros Hall d Hin; by apply Hn, Hall. }
  rewrite <- Hopen. case_decide as Hc; (split; [done || intros _ | done || intros Hall]).
  - destruct Hc as [? | [He Hc]]; [done |]. destruct (Hall He). destruct Hc; [lia | done].
  - intros He. split; [apply Z.nlt_ge |]; [intros Hlt; apply Hc; auto |].
    destruct (decide (a_diags a = [])) as [|Hne]; [done |]. destruct Hc. auto.
Qed.

(** The root, the routes and the counts are functions of the inputs. *)
Lemma integrity_unique w cfg r1 d1 g1 s1 r2 d2 g2 s2 :
  integrity w cfg r1 d1 g1 s1 -> integrity w cfg r2 d2 g2 s2 -> r2 = r1 /\ d2 = d1 /\ g2 = g1 /\ s2 = s1.
Proof.
  intros [[Hr1 _] [Hd1 _] _ Hs1 _ _ _ _ _] [[Hr2 _] [Hd2 _] _ Hs2 _ _ _ _ _].
  assert (r2 = r1) as -> by congruence. split_and!; congruence.
Qed.
