(* ===== verification/ParityReturn.v ===== *)
(** The parity gate returns: no index is out of range, unless the counts of the
    group headers overflow. *)
From stdpp Require Import gmap pretty sorting.
From S2P Require Import Prelude Types Errs Domain Service GoNumbers GoText GoAst Parity ParityScan ParityGate.
Local Open Scope Z_scope.

(** ** What the SPEC parser leaves *)
Definition spec_ok (s : specInfo) : Prop :=
  Forall (fun g => 0 <= g_declared g) (s_groups s) /\ length (s_rowNums s) = length (s_rows s)
  /\ s_total s <= int_max.

Lemma strconv_Atoi_digits s z : forallb is_dig (text s) = true -> strconv_Atoi s = inl z -> 0 <= z <= int_max.
Proof. unfold strconv_Atoi. intros Hd. destruct (Atoi s) eqn:Ha; [| done]. intros [= <-]. by eapply Atoi_digits. Qed.

Lemma countFieldRE_digits f : MatchString countFieldRE f = true -> forallb is_dig f = true.
Proof.
  intros (pre & mid & post & -> & Hl & Hpre & Hpost)%MatchString_spec.
  rewrite Hpre, Hpost, app_nil_r by done. by apply lang_digits in Hl as [_ Hd].
Qed.

Lemma Atoi_range s z : Atoi s = Some z -> int_min <= z <= int_max.
Proof.
  unfold Atoi, parse_int. destruct (scanSign (text s)) as [neg t]. case_decide; [done |].
  destruct (digits_value 0 t); [| done]. simpl. case_decide; [| done]. by intros [= <-].
Qed.

Lemma strconv_Atoi_le s z : strconv_Atoi s = inl z -> z <= int_max.
Proof. unfold strconv_Atoi. destruct (Atoi s) eqn:Ha; [| done]. intros [= <-]. apply Atoi_range in Ha. lia. Qed.

Lemma spec_line_ok st il st' : spec_ok (sp_info st) -> spec_line st il = inl st' -> spec_ok (sp_info st').
Proof.
  destruct il as [i raw]. unfold spec_line. cbn zeta. set (line := trim_cr raw).
  intros H0. destruct (spec_total i line st) as [s1|] eqn:H1; [| done].
  assert (spec_ok (sp_info s1)) as H1'.
  { revert H1. unfold spec_total. destruct (FindStringSubmatch totalLineRE line); [| by intros [= <-]].
    case_decide; [done |]. destruct (strconv_Atoi _) as [n|] eqn:Hn; [| done].
    destruct (FindStringSubmatch breakdownRE line); [| done]. destruct (each _ _ _); [| done].
    intros [= <-]. destruct H0 as (? & ? & ?). unfold spec_ok. simpl. eauto using strconv_Atoi_le. }
  destruct (spec_group i line s1) as [s2|] eqn:H2; [| done].
  assert (spec_ok (sp_info s2)) as H2'.
  { revert H2. unfold spec_group. destruct (FindStringSubmatch groupHeaderRE line); [| by intros [= <-]].
    destruct (strconv_Atoi _) as [n|]; [| done]. destruct (last _) as [f|]; [| done].
    destruct (MatchString countFieldRE f) eqn:Hm; [| done]. destruct (strconv_Atoi (str f)) as [d|] eqn:Hd; [| done].
    intros [= <-]. destruct H1' as (Hg & ? & ?). unfold spec_ok. simpl. split_and!; [| done | done].
    apply Forall_app. split; [done |]. constructor; [| done]. simpl.
    eapply strconv_Atoi_digits; [| exact Hd]. rewrite text_str. by apply countFieldRE_digits. }
  unfold spec_row. destruct (FindStringSubmatch routeRowRE line); [| by intros [= <-]].
  destruct (strconv_Atoi _); [| done]. intros [= <-]. destruct H2' as (? & Hl & ?). unfold spec_ok. simpl.
  by rewrite !length_app, Hl.
Qed.

Lemma parseSpec_ok w path s : parseSpec w path = inl s -> spec_ok s.
Proof.
  unfold parseSpec, spec_text. destruct (ReadFile w path) as [raw|[[] ?]]; [| done..].
  destruct (each _ _ _) as [st|] eqn:Hst; [| done]. repeat case_decide; try done.
  destruct (head _); [done |]. intros [= <-]. revert Hst.
  apply (each_ind _ (fun st => spec_ok (sp_info st))); [intros; by eapply spec_line_ok |].
  split_and!; [by constructor | done | unfold int_max; simpl; lia].
Qed.

(** ** The join *)
Lemma index_ret {A} (l : list A) i : 0 <= i < Z.of_nat (length l) -> exists x, index l i = Ret x /\ x ∈ l.
Proof.
  intros Hi. unfold index. rewrite decide_True by lia.
  destruct (l !! Z.to_nat i) as [x|] eqn:Hx; [exists x; split; [done | by eapply list_elem_of_lookup_2] |].
  apply lookup_ge_None in Hx. lia.
Qed.

Lemma join_rows_ret cfg decls nums rows i :
  0 <= i -> i + Z.of_nat (length rows) <= Z.of_nat (length decls) ->
  i + Z.of_nat (length rows) <= Z.of_nat (length nums) ->
  exists o, join_rows cfg decls nums i rows = Ret o.
Proof.
  revert i. induction rows as [|row rows IH]; intros i Hi Hd Hn; cbn [join_rows]; [by eexists |].
  cbn [length] in *. destruct (index_ret decls i) as (d & -> & _); [lia |]. cbn [mbind outcome_bind].
  case_decide; [apply IH; lia |]. destruct (index_ret nums i) as (n & -> & _); [lia |]. by eexists.
Qed.

Lemma assign_group_ret fuel go k hi gi :
  0 <= k -> hi <= Z.of_nat (length go) -> (Z.to_nat (hi - k) <= fuel)%nat ->
  exists go', assign_group fuel go k hi gi = Ret go' /\ length go' = length go /\ forall v, v ∈ go' -> v ∈ go \/ v = gi.
Proof.
  revert go k. induction fuel as [|fuel IH]; intros go k Hk Hhi Hf; cbn [assign_group].
  - rewrite decide_True by lia. eauto.
  - case_decide; [eauto |]. destruct (index_ret go k) as (x & -> & _); [lia |]. cbn [mbind outcome_bind].
    destruct (IH (<[Z.to_nat k := gi]> go) (k + 1)) as (go' & -> & Hl & Hv);
      [lia | rewrite length_insert; lia | lia |].
    exists go'. rewrite length_insert in Hl. split_and!; [done | done |].
    intros v [Hin | ->]%Hv; [| by right].
    apply list_elem_of_lookup in Hin as [j Hj]. apply list_lookup_insert_Some in Hj as [(? & -> & ?) | [? Hj]];
      [by right | left; by eapply list_elem_of_lookup_2].
Qed.

Definition exact_sum (gs : list group) : Z := foldr (fun g acc => g_declared g + acc) 0 gs.
Definition in_decls (n : nat) (g : group) : Prop :=
  0 <= g_start g /\ 0 <= g_declared g /\ g_start g + g_declared g <= Z.of_nat n.

Lemma exact_sum_nonneg gs : Forall (fun g => 0 <= g_declared g) gs -> 0 <= exact_sum gs.
Proof. induction 1; simpl; lia. Qed.

Lemma join_spans_ret gs go gi start :
  Forall (fun g => 0 <= g_declared g) gs -> 0 <= start -> start + exact_sum gs <= Z.of_nat (length go) ->
  Z.of_nat (length go) <= int_max ->
  exists gs' go' last, join_spans go gi start gs = Ret (gs', go', last) /\ length go' = length go
    /\ length gs' = length gs /\ Forall (in_decls (length go)) gs'
    /\ forall v, v ∈ go' -> v ∈ go \/ gi <= v < gi + Z.of_nat (length gs).
Proof.
  intros Hg. revert go gi start. induction Hg as [|g gs Hd Hg IH]; intros go gi start Hs Hle Hmax; cbn [join_spans].
  - exists [], go, start. split_and!; auto.
  - simpl in Hle. pose proof (exact_sum_nonneg gs Hg). rewrite swrap64_id by (unfold int_min, int_max in *; lia).
    destruct (assign_group_ret (S (length go)) go start (start + g_declared g) gi) as (go1 & -> & Hl1 & Hv1); [lia.. |].
    cbn [mbind outcome_bind].
    destruct (IH go1 (gi + 1) (start + g_declared g)) as (gs' & go' & lst & -> & Hl & Hlen & Hall & Hv); [lia.. |].
    cbn [mbind outcome_bind]. eexists _, go', lst. split_and!; [done | lia | simpl; lia | |].
    + constructor; [split_and!; simpl; lia |]. by rewrite <- Hl1.
    + intros v [[Hin | ->]%Hv1 | Hr]%Hv; [by left | right; simpl; lia | right; simpl; lia].
Qed.

(** ** The report *)

(** What the report indexes with is in range. *)
Definition joined (a : analysis) : Prop :=
  Z.of_nat (length (a_decls a)) <= int_max
  /\ (forall v, v ∈ a_groupOf a -> 0 <= v < Z.of_nat (length (s_groups (a_spec a))))
  /\ (a_grouped a = true -> length (a_groupOf a) = length (a_decls a)
        /\ Forall (in_decls (length (a_decls a))) (s_groups (a_spec a))).

Lemma write_each_ret {A S} (f : S -> A -> outcome (string * S)) s l :
  (forall s x, x ∈ l -> exists r, f s x = Ret r) -> exists out, write_each f s l = Ret out.
Proof.
  revert s. induction l as [|x l IH]; intros s Hf; cbn [write_each]; [by eexists |].
  destruct (Hf s x) as [[out s'] ->]; [left |]. cbn [mbind outcome_bind].
  destruct (IH s') as [rest ->]; [intros; apply Hf; by right |]. by eexists.
Qed.

Lemma wiredIn_ret a g :
  Z.of_nat (length (a_decls a)) <= int_max -> in_decls (length (a_decls a)) g -> exists r, wiredIn a g = Ret r.
Proof.
  intros Hmax (H1 & H2 & H3). unfold wiredIn, subslice.
  rewrite (swrap64_id (g_start g + g_declared g)) by (unfold int_min, int_max in *; lia).
  rewrite decide_True by lia. by eexists.
Qed.

Lemma unwired_range a i : i ∈ unwired a -> 0 <= i < Z.of_nat (length (a_decls a)).
Proof.
  unfold unwired. rewrite list_elem_of_In, in_concat. intros (l & Hl & Hi).
  apply list_elem_of_In in Hl. apply elem_of_lookup_imap in Hl as (n & d & -> & Hn).
  apply lookup_lt_Some in Hn. case_decide; [by destruct Hi |]. destruct Hi as [<- | []]. lia.
Qed.

Lemma report_unwired_ret a headed i :
  joined a -> i ∈ unwired a -> exists r, report_unwired a headed i = Ret r.
Proof.
  intros (Hmax & Hv & Hg) Hi%unwired_range. unfold report_unwired, groupOfIndex.
  assert (Hgroup : exists g, groupOfIndex a i = Ret g
    /\ (a_grouped a = true -> in_decls (length (a_decls a)) g)).
  { unfold groupOfIndex. case_decide as Hnil.
    { exists noGroup. split; [done |]. intros Hgr. destruct (Hg Hgr) as [Hl _]. rewrite Hnil in Hl. simpl in Hl. lia. }
    case_decide as Hr.
    { exists noGroup. split; [done |]. intros Hgr. destruct (Hg Hgr) as [Hl _]. unfold count in Hr. lia. }
    unfold count in Hr. destruct (index_ret (a_groupOf a) i) as (gi & -> & Hin); [lia |]. cbn [mbind outcome_bind].
    destruct (index_ret (s_groups (a_spec a)) gi) as (g & -> & Hing); [by apply Hv |].
    exists g. split; [done |]. intros Hgr. destruct (Hg Hgr) as [_ Hall]. by rewrite Forall_forall in Hall; apply Hall. }
  destruct Hgroup as (g & Hgr & Hok). unfold groupOfIndex in Hgr. rewrite Hgr. clear Hgr. cbn [mbind outcome_bind].
  destruct (index_ret (a_decls a) i) as (d & -> & _); [done |].
  destruct (a_grouped a) eqn:Hgrouped; [| by eexists].
  destruct (Hg eq_refl) as [Hl _]. destruct (index_ret (a_groupOf a) i) as (gi & -> & _); [by rewrite Hl |].
  cbn [mbind outcome_bind]. case_decide; [by eexists |].
  destruct (wiredIn_ret a g Hmax (Hok eq_refl)) as [[n gap] ->]. by eexists.
Qed.

Lemma report_ret a : joined a -> exists out, report a = Ret (out, exit_code a).
Proof.
  intros Hj. unfold report, measurement. destruct (a_measured a); [| by eexists].
  assert (Htable : exists t, group_table a = Ret t).
  { unfold group_table. destruct (a_grouped a) eqn:Hg; [| by eexists].
    destruct (write_each_ret (report_group a) tt (s_groups (a_spec a))) as [rows ->]; [| by eexists].
    intros [] g Hin. unfold report_group. destruct Hj as (Hmax & _ & Hgr). destruct (Hgr Hg) as [_ Hall].
    rewrite Forall_forall in Hall. destruct (wiredIn_ret a g Hmax (Hall g Hin)) as [[n gap] ->]. by eexists. }
  destruct Htable as [t ->]. cbn [mbind outcome_bind]. unfold unwired_list.
  destruct (write_each_ret (report_unwired a) ∅ (unwired a)) as [rows ->]; [| by eexists].
  intros s i Hi. by apply report_unwired_ret.
Qed.

(** ** The evaluation *)
Definition counts_fit (w : World) (cfg : config) : Prop :=
  forall root spec, parseSpec w (path_Join [root; Spec (normalize cfg)]) = inl spec -> exact_sum (s_groups spec) <= int_max.

Lemma int_sum_exact gs :
  Forall (fun g => 0 <= g_declared g) gs -> exact_sum gs <= int_max -> sumDeclared gs = exact_sum gs.
Proof.
  intros Hg Hle. unfold sumDeclared, int_sum.
  assert (Hgen : forall acc, 0 <= acc -> acc + exact_sum gs <= int_max ->
    foldl (fun acc v => swrap 64 (acc + v)) acc (g_declared <$> gs) = acc + exact_sum gs).
  { clear Hle. induction Hg as [|g gs Hd Hg IH]; intros acc Ha Hacc; cbn [fmap list_fmap foldl exact_sum foldr]; [lia |].
    simpl in Hacc. pose proof (exact_sum_nonneg gs Hg). fold (exact_sum gs).
    rewrite swrap64_id by (unfold int_min, int_max in *; lia). rewrite IH by lia. lia. }
  rewrite Hgen by lia. lia.
Qed.

Lemma joined_ungrouped a :
  Z.of_nat (length (a_decls a)) <= int_max -> a_grouped a = false -> a_groupOf a = [] -> joined a.
Proof. intros Hmax Hg Hn. split_and!; [done | rewrite Hn; by intros v ?%not_elem_of_nil | congruence]. Qed.

Lemma joinGroups_ret a :
  spec_ok (a_spec a) -> s_total (a_spec a) = Z.of_nat (length (a_decls a)) ->
  exact_sum (s_groups (a_spec a)) = s_total (a_spec a) -> a_groupOf a = [] ->
  exists a', joinGroups a = Ret a' /\ joined a'.
Proof.
  intros (Hg & Hn & Hmax) Ht Hsum Hgo.
  assert (Hlen : Z.of_nat (length (a_decls a)) <= int_max) by (rewrite <- Ht; done). unfold joinGroups.
  case_decide as Hrows; [eexists; split; [done | by apply joined_ungrouped] |].
  destruct (join_rows_ret (a_cfg a) (a_decls a) (s_rowNums (a_spec a)) (s_rows (a_spec a)) 0) as [note ->]; [lia.. |].
  cbn [mbind outcome_bind]. destruct note as [note|].
  { eexists. split; [done | by apply joined_ungrouped]. }
  destruct (join_spans_ret (s_groups (a_spec a)) (replicate (length (a_decls a)) 0) 0 0 Hg) as
    (gs & go & lst & -> & Hl & Hgl & Hall & Hv); rewrite ?length_replicate; [lia.. |].
  rewrite length_replicate in Hl, Hall. cbn [mbind outcome_bind].
  assert (Hvs : forall v, v ∈ go -> 0 <= v < Z.of_nat (length gs)).
  { intros v [[-> Hi]%elem_of_replicate | ?]%Hv; [| lia]. rewrite Hgl.
    destruct (s_groups (a_spec a)); simpl in *; lia. }
  case_decide; (eexists; split; [done |]); (split_and!; [simpl; lia | exact Hvs | done || (intros _; split; [exact Hl | exact Hall])]).
Qed.

Lemma gate_returns w cfg : counts_fit w cfg -> exists a out, evaluate w cfg = Ret a /\ gate w cfg = Ret (out, exit_code a).
Proof.
  intros Hfit.
  enough (Heval : exists a, evaluate w cfg = Ret a /\ (a_measured a = true -> joined a)).
  { destruct Heval as (a & Ha & Hj). exists a. unfold gate. rewrite Ha. cbn [mbind outcome_bind].
    destruct (a_measured a) eqn:Hm; [destruct (report_ret a (Hj eq_refl)) as [out Ho]; by exists out |].
    unfold report, measurement. rewrite Hm. by eexists. }
  unfold evaluate. cbv zeta. case_decide; [by eexists |].
  destruct (parseRoutes _ _) as [[decls registry]|]; [| by eexists].
  case_decide; [by eexists |].
  destruct (parseSpec w _) as [spec|] eqn:Hspec; [| by eexists].
  case_decide as Htotal; [by eexists |]. case_decide as Hsum; [by eexists |].
  destruct (checkBreakdown spec); [by eexists |].
  set (a0 := set_spec spec _). destruct (scan_spec w a0 eq_refl) as (probs & -> & _).
  destruct (parseSpec_ok _ _ _ Hspec) as (Hg & ? & Hmax). pose proof (Hfit _ _ Hspec) as Hle.
  rewrite (int_sum_exact _ Hg Hle) in Hsum.
  set (a1 := set_measured _ _). destruct (a_measured a1) eqn:Hm; [| by exists a1; rewrite Hm].
  destruct (joinGroups_ret a1) as (a' & Ha' & Hj); try done. by exists a'.
Qed.
