(* ===== verification/ParityProps.v ===== *)
(** What the parity gate guarantees. *)
From stdpp Require Import gmap pretty sorting.
From S2P Require Import Prelude Types Errs Domain Service GoNumbers GoText GoAst Parity ParityScan ParityGate ParityReturn.
Local Open Scope Z_scope.

(** ** A small repository *)
Definition ident_ (s : string) (p : Z) : ident := mkIdent s p.
Definition lit_ (s : string) (p : Z) : basicLit := mkLit STRING (quoted s) p.
Definition route_const (name path : string) (p : Z) : node :=
  ValueSpec [mkIdent name p] (Some (Ident (mkIdent "Route" (p + 1)))) [BasicLit (lit_ path (p + 2))].
Definition route_entry (name : string) (p : Z) : node := KeyValueExpr (Ident (mkIdent name p)) (CompositeLit (p + 1) None []).

Definition routes_file (routes : list (string * string)) : file :=
  mkFile (mkIdent "client" 0)
    [GenDecl 1 CONST (imap (fun i r => route_const (fst r) (snd r) (10 * Z.of_nat i)) routes);
     GenDecl 2 VAR [ValueSpec [mkIdent "canonicalRoutes" 90] None
       [CompositeLit 91 None (imap (fun i r => route_entry (fst r) (100 + 10 * Z.of_nat i)) routes)]]]
    (fun p => p / 10 + 1).

Definition client_import : node := ImportSpec None (Some (mkLit STRING clientImportPath 5)).
Definition call_of (name : string) (p : Z) : node :=
  CallExpr (SelectorExpr (SelectorExpr (Ident (mkIdent "s" p)) (mkIdent "client" (p + 1))) (mkIdent "Do" (p + 2)))
    [SelectorExpr (Ident (mkIdent "client" (p + 3))) (mkIdent name (p + 4))].
Definition method_of (body : list node) : node :=
  FuncDecl (Some [mkField [mkIdent "s" 20] None None]) (mkIdent "Run" 21) (mkFuncType 19 [] [] [])
    (Some (Other "*ast.BlockStmt" 22 body)).
Definition service_file (decls : list node) : file :=
  mkFile (mkIdent "services" 0) (GenDecl 4 OtherTok [client_import] :: decls) (fun p => p / 10 + 1).

Definition spec_lines (lines : list string) : bytes := text (Join lines nl).
Definition two_routes : list (string * string) := [("RouteA", "/a"); ("RouteB", "/b")].
Definition two_routes_spec : bytes :=
  spec_lines ["# Endpoints"; "**Total: 2 HTTP endpoints** (1 + 1)"; "### 2.1 Trade 1";
    "| 1 | " +:+ ticked "/a" +:+ " | x |"; "### 2.2 Market - 1"; "| 2 | " +:+ ticked "/b" +:+ " | x |"; ""].

(** A repository under [/r] with one scan root, of one source and one test. *)
Definition repo (routes : list (string * string)) (spec : bytes) (service : file) : World :=
  mkWorld
    (fun p => if decide (p = "/r/client/routes.go") then Some false
              else if decide (p = "/r/pkg/services") then Some true else None)
    (fun p => if decide (p = "/r/docs/SPEC.md") then inl spec else inr (true, EText "no such file"))
    (fun p => if decide (p = "/r/client/routes.go") then inl (routes_file routes)
              else if decide (p = "/r/pkg/services/a.go") then inl service else inr (EText "no such file"))
    (fun p => if decide (p = "/r/pkg/services") then
                inl (DirEntry "services" None [FileEntry "a.go"; FileEntry "a_test.go"])
              else inr (EText "no such file"))
    None None.

Definition enforcing : config := mkConfig "/r" true "" "" ["pkg/services"].
Definition reporting : config := mkConfig "/r" false "" "" ["pkg/services"].
Definition full_repo : World :=
  repo two_routes two_routes_spec (service_file [method_of [call_of "RouteA" 30; call_of "RouteB" 40]]).
Definition gap_repo : World :=
  repo two_routes two_routes_spec (service_file [method_of [call_of "RouteA" 30]]).

(** A route that is named and converted as well, and one that a field may hold. *)
Definition blind_repo : World :=
  repo two_routes two_routes_spec
    (service_file [method_of [call_of "RouteA" 30; call_of "RouteB" 40;
      CallExpr (SelectorExpr (Ident (mkIdent "client" 50)) (mkIdent "Route" 51)) [BasicLit (lit_ "/b" 52)]]]).

(** Three group counts whose sum is 1 modulo 2^64, for a single route. *)
Definition wrapping_repo : World :=
  repo [("RouteA", "/a")]
    (spec_lines ["**Total: 1 HTTP endpoints** (9223372036854775807 + 9223372036854775807 + 3)";
       "### 2.1 A 9223372036854775807"; "### 2.2 B 9223372036854775807"; "### 2.3 C 3";
       "| 1 | " +:+ ticked "/a" +:+ " |"])
    (service_file [method_of [call_of "RouteA" 30]]).

(** A constant with the empty path that the registry does not hold. *)
Definition hole_repo : World :=
  let w := repo two_routes two_routes_spec (service_file [method_of [call_of "RouteA" 30; call_of "RouteB" 40]]) in
  mkWorld (Stat w) (ReadFile w)
    (fun p => if decide (p = "/r/client/routes.go") then
                inl (mkFile (mkIdent "client" 0)
                  [GenDecl 1 CONST [route_const "RouteA" "/a" 0; route_const "RouteB" "" 10];
                   GenDecl 2 VAR [ValueSpec [mkIdent "canonicalRoutes" 90] None
                     [CompositeLit 91 None [route_entry "RouteA" 100]]]]
                  (fun p => p / 10 + 1))
              else ParseFile w p)
    (Tree w) (CallerFile w) (Getwd w).

Definition code_of (r : outcome (string * Z)) : option Z := match r with Ret (_, code) => Some code | Panic => None end.

Example gate_examples :
  code_of (gate full_repo enforcing) = Some 0 /\ code_of (gate gap_repo enforcing) = Some 1
  /\ code_of (gate gap_repo reporting) = Some 0 /\ code_of (gate blind_repo enforcing) = Some 1
  /\ code_of (gate blind_repo reporting) = Some 0 /\ code_of (gate hole_repo enforcing) = Some 0.
Proof. vm_compute. done. Qed.

Lemma code_of_Some r code : code_of r = Some code -> exists out, r = Ret (out, code).
Proof. destruct r as [[out c]|]; [| done]. intros [= ->]. by exists out. Qed.

Lemma full_repo_passes : exists out, gate full_repo enforcing = Ret (out, 0).
Proof. exact (code_of_Some _ _ (proj1 gate_examples)). Qed.

(** A source that names both routes and uses a route in ways the walk does not see:
    [client.Routes()], the path of one written as a sum, and a field that holds a
    slice of routes. *)
Definition escaping_repo : World :=
  repo two_routes two_routes_spec
    (service_file [
      GenDecl 6 OtherTok [TypeSpec (mkIdent "table" 60) []
        (StructType 61 [mkField [mkIdent "routes" 62]
          (Some (Other "*ast.ArrayType" 63 [SelectorExpr (Ident (mkIdent "client" 64)) (mkIdent "Route" 65)])) None])];
      method_of [call_of "RouteA" 30; call_of "RouteB" 40;
        CallExpr (SelectorExpr (Ident (mkIdent "client" 50)) (mkIdent "Routes" 51)) [];
        CallExpr (SelectorExpr (Ident (mkIdent "client" 53)) (mkIdent "Route" 54))
          [Other "*ast.BinaryExpr" 55 [BasicLit (lit_ "/" 56); BasicLit (lit_ "b" 57)]]]]).

(** An enforcing gate passes it. *)
Theorem parity_gate_escapes : code_of (gate escaping_repo enforcing) = Some 0.
Proof. vm_compute. reflexivity. Qed.

(** C33: the gate exits with 0 or 1. It exits with 0 exactly if everything it relies on
    holds (the root, the constants and the registry, the three copies of the count,
    the scan roots and the bindings of [client] in every source below them) and, when
    it enforces, every declared route is named by a scanned source as [client.Name],
    and in no scanned source is a string literal exactly a route path or one of its
    two aliases, a struct field of the type [client.Route] itself, or the client
    package imported under another name. That is all: routes reached through
    [client.Routes()], written as a sum of strings or kept in slices, maps or
    variables do not make it fail. A constant with the empty path passes although
    the registry lacks it ([registry_agrees]). *)
Theorem parity_gate_exact w cfg out code :
  gate w cfg = Ret (out, code) ->
  (code = 0 \/ code = 1)
  /\ (code = 0 <->
        exists root decls registry spec, integrity w (normalize cfg) root decls registry spec
        /\ (Enforce cfg = true ->
              (forall d, d ∈ decls -> named w root (Roots (normalize cfg)) (d_name d))
              /\ nothing_reported w root (Roots (normalize cfg)) decls)).
Proof.
  unfold gate. destruct (evaluate w cfg) as [a|] eqn:Heval; [| done]. cbn [mbind outcome_bind].
  intros Hr. apply report_code in Hr as ->. split; [unfold exit_code; case_decide; auto |].
  apply evaluate_cases in Heval as [Hcfg [[Hp Hno] | (root & decls & registry & spec & Hi & Hm)]].
  - split; [| by intros (? & ? & ? & ? & ?%Hno & _)]. unfold exit_code. rewrite decide_True; [done | by left].
  - rewrite (measures_exit _ _ _ _ _ Hm), Hcfg. split.
    + intros Hall. by exists root, decls, registry, spec.
    + intros (root' & decls' & registry' & spec' & Hi' & Hall).
      by destruct (integrity_unique _ _ _ _ _ _ _ _ _ _ Hi Hi') as (-> & -> & _).
Qed.

Lemma parity_gate_exact_witness :
  exists out, gate full_repo enforcing = Ret (out, 0)
  /\ exists root decls registry spec, integrity full_repo (normalize enforcing) root decls registry spec
      /\ (Enforce enforcing = true ->
            (forall d, d ∈ decls -> named full_repo root (Roots (normalize enforcing)) (d_name d))
            /\ nothing_reported full_repo root (Roots (normalize enforcing)) decls).
Proof.
  destruct full_repo_passes as [out Hout]. exists out. split; [exact Hout |].
  destruct (parity_gate_exact full_repo enforcing out 0 Hout) as [_ [Hcode _]]. apply Hcode. reflexivity.
Defined.

(** C34: the gate returns a report and a code: no index and no slice bound of the
    join and of the report is out of range, provided that the counts of the group
    headers add up within an [int]. Without that it panics: the sum wraps to the
    declared total and the join runs past the constants. *)
Theorem parity_gate_returns :
  (forall w cfg, counts_fit w cfg -> exists out code, gate w cfg = Ret (out, code))
  /\ gate wrapping_repo enforcing = Panic.
Proof.
  split; [| by vm_compute]. intros w cfg Hfit. destruct (gate_returns w cfg Hfit) as (a & out & _ & Hg). eauto.
Qed.

Definition text_fits (r : specInfo + error) : bool :=
  match r with inl spec => bool_decide (exact_sum (s_groups spec) <= int_max) | inr _ => true end.

Lemma full_repo_fits : counts_fit full_repo enforcing.
Proof.
  assert (Ht : text_fits (spec_text two_routes_spec) = true) by (vm_compute; reflexivity).
  intros root spec. unfold parseSpec, full_repo. cbn [ReadFile repo]. case_decide; [| done].
  intros Hs. rewrite Hs in Ht. by apply bool_decide_eq_true in Ht.
Qed.

Lemma parity_gate_returns_witness :
  (exists out code, gate full_repo enforcing = Ret (out, code)) /\ gate wrapping_repo enforcing = Panic.
Proof.
  destruct parity_gate_returns as [Hret Hpanic]. split; [exact (Hret _ _ full_repo_fits) | exact Hpanic].
Defined.

(** ** Line endings *)

(** Lines with a separator between them. *)
Definition lines_with (eol : bytes) (ls : list bytes) : bytes :=
  match ls with
  | [] => []
  | l :: ls => l ++ (ls ≫= fun l => eol ++ l)
  end.

(** A line that neither ending takes something away from. *)
Definition plain_line (l : bytes) : Prop := (LF ∉ l) /\ last l <> Some CR.

Definition with_spec (raw : bytes) (w : World) : World :=
  mkWorld (Stat w) (fun _ => inl raw) (ParseFile w) (Tree w) (CallerFile w) (Getwd w).

Lemma split_byte_cons sep l rest :
  sep ∉ l -> split_byte sep (l ++ sep :: rest) = l :: split_byte sep rest.
Proof.
  induction l as [|c l IH]; intros Hn; cbn [app split_byte]; [by rewrite decide_True |].
  apply not_elem_of_cons in Hn as [Hc Hn]. rewrite decide_False by done. by rewrite IH.
Qed.

Lemma split_byte_one sep l : sep ∉ l -> split_byte sep l = [l].
Proof.
  induction l as [|c l IH]; intros Hn; cbn [split_byte]; [done |].
  apply not_elem_of_cons in Hn as [Hc Hn]. rewrite decide_False by done. by rewrite IH.
Qed.

(** The lines that [strings.Split] gives back. *)
Fixpoint ended (e : bytes) (ls : list bytes) : list bytes :=
  match ls with
  | [] => [[]]
  | [l] => [l]
  | l :: ls => (l ++ e) :: ended e ls
  end.

Lemma split_lines e ls :
  LF ∉ e -> Forall plain_line ls -> split_byte LF (lines_with (e ++ [LF]) ls) = ended e ls.
Proof.
  intros He Hls. induction Hls as [|l ls [Hl _] Hls IH]; [done |]. destruct ls as [|l2 ls].
  - cbn. rewrite app_nil_r. by apply split_byte_one.
  - cbn [lines_with mbind list_bind ended] in *. rewrite <- IH.
    rewrite <- !app_assoc. change ([LF] ++ ?x) with (LF :: x). rewrite app_assoc.
    apply split_byte_cons. by apply not_elem_of_app.
Qed.

Lemma trim_suffix_none s suf : cut_suffix suf s = None -> trim_suffix s suf = s.
Proof. unfold trim_suffix. by intros ->. Qed.

Lemma trim_cr_plain l : last l <> Some CR -> trim_cr l = l /\ trim_cr (l ++ [CR]) = l.
Proof.
  intros Hl. unfold trim_cr. split.
  - rewrite trim_suffix_none; [apply text_str |]. destruct (cut_suffix _ _) as [p|] eqn:Hc; [| done].
    apply cut_suffix_Some in Hc. apply (f_equal (fun s => text s)) in Hc. rewrite text_str, text_app, text_str in Hc.
    destruct Hl. by rewrite Hc, last_snoc.
  - replace (str (l ++ [CR])) with (str l +:+ str [CR]); [by rewrite trim_suffix_app, text_str |].
    rewrite <- (str_text (str l +:+ str [CR])). by rewrite text_app, !text_str.
Qed.

Lemma each_ext {S A} (f : S -> A -> S + error) l1 l2 s :
  Forall2 (fun x y => (forall s, f s x = f s y)) l1 l2 -> each f s l1 = each f s l2.
Proof.
  intros Hl. revert s. induction Hl as [|x y l1 l2 Hxy Hl IH]; intros s; [done |].
  cbn [each]. rewrite Hxy. by destruct (f s y).
Qed.

Lemma ended_same ls :
  Forall plain_line ls -> Forall2 (fun x y => trim_cr x = trim_cr y) (ended [CR] ls) (ended [] ls).
Proof.
  induction 1 as [|l ls [_ Hl] Hls IH]; [cbn [ended]; by constructor; [| constructor] |].
  destruct ls as [|l2 ls]; [cbn [ended]; by constructor; [| constructor] |]. change (ended ?e (l :: l2 :: ls)) with ((l ++ e) :: ended e (l2 :: ls)).
  constructor; [| done]. rewrite app_nil_r. destruct (trim_cr_plain l Hl). congruence.
Qed.

Lemma spec_text_endings ls :
  Forall plain_line ls -> spec_text (lines_with [CR; LF] ls) = spec_text (lines_with [LF] ls).
Proof.
  intros Hls. unfold spec_text.
  change [CR; LF] with ([CR] ++ [LF]). change (lines_with [LF] ls) with (lines_with ([] ++ [LF]) ls).
  rewrite (split_lines [CR] ls), (split_lines [] ls) by (done || set_solver).
  pose proof (ended_same ls Hls) as Hsame. unfold numbered.
  replace (each spec_line _ (zip _ (ended [CR] ls))) with (each spec_line (mkSpecState 0 noSpec)
    (zip (seqZ 1 (Z.of_nat (length (ended [] ls)))) (ended [] ls))); [done |].
  symmetry. rewrite (Forall2_length _ _ _ Hsame). apply each_ext.
  generalize (seqZ 1 (Z.of_nat (length (ended [] ls)))). intros ns.
  revert ns. induction Hsame as [|x y l1 l2 Hxy Hl IH]; intros [|n ns]; try by constructor.
  cbn. constructor; [| by apply IH]. intros s. unfold spec_line. by rewrite Hxy.
Qed.

(** Only [parseSpec] reads [docs/SPEC.md]. *)
Lemma with_spec_root raw w root rel : resolveRoot (with_spec raw w) root rel = resolveRoot w root rel.
Proof. reflexivity. Qed.

Lemma with_spec_routes raw w path : parseRoutes (with_spec raw w) path = parseRoutes w path.
Proof. reflexivity. Qed.

Lemma with_spec_scan raw w a : scan (with_spec raw w) a = scan w a.
Proof. reflexivity. Qed.

(** C39: the report and the code do not depend on the line endings of [docs/SPEC.md]. *)
Theorem parity_line_endings w cfg ls :
  Forall plain_line ls ->
  gate (with_spec (lines_with [CR; LF] ls) w) cfg = gate (with_spec (lines_with [LF] ls) w) cfg.
Proof.
  intros Hls. unfold gate, evaluate. cbv zeta.
  assert (Hspec : forall p, parseSpec (with_spec (lines_with [CR; LF] ls) w) p = parseSpec (with_spec (lines_with [LF] ls) w) p)
    by (intros p; by apply spec_text_endings).
  rewrite !with_spec_root, !with_spec_routes. case_decide; [done |].
  destruct (parseRoutes w _) as [[decls registry]|err]; [| done]. case_decide; [done |].
  rewrite Hspec. destruct (parseSpec _ _) as [spec|err]; [| done]. by rewrite !with_spec_scan.
Qed.

Lemma parity_line_endings_witness :
  gate (with_spec (lines_with [CR; LF] [text "# Endpoints"; text "**Total: 2 HTTP endpoints** (2)"; []]) full_repo) enforcing
  = gate (with_spec (lines_with [LF] [text "# Endpoints"; text "**Total: 2 HTTP endpoints** (2)"; []]) full_repo) enforcing.
Proof. apply (parity_line_endings full_repo enforcing). by repeat (constructor; [split; [set_solver | done] |]). Defined.
