(* ===== verification/Mappers.v ===== *)
(** The mappers of single messages that stand beside the push adapter
    ([src/pkg/transport/mappers.go]), the page parameters of a request
    ([src/pkg/transport/pagination.go]) and the typed view of a futures delivery
    ([src/pkg/hstong/future/push.go]).

    A message is a pointer, which may be nil, and its getters then give zero
    values. As in the push vocabulary, codes are ASCII for [strings.ToUpper]. *)
From Stdlib Require Import QArith.
From stdpp Require Import gmap pretty.
From S2P Require Import Prelude Types Errs Domain Decimals Service PushClient PushKeys PushEvents.
Local Open Scope Z_scope.

(** ** [mappers.go] *)
Definition marketFromCode (code : string) : string := MarketFromCode (str (PushKeys.ToUpper (text code))).

Definition MapSecurityToSymbol (code : string) (dtype : Z) : Symbol :=
  NewSymbol (marketFromCode code) code dtype.

(** The getters of a message that may be missing. *)
Definition zero_float : float64 := Finite false 0 0.
Definition get {M A} (zero : A) (field : M -> A) (m : option M) : A := from_option field zero m.

Definition get_Security (s : option Security) : string * Z :=
  (get "" sec_Code s, get 0 sec_DataType s).

(** [decimalOrZero]. *)
Definition decimalOrZero (s : string) : string := if decide (s = "") then "0" else s.

Section mappers.
Context {D : Type} `{Decimal D}.

Definition MapBasicQotToQuoteEvent (n : option BasicQotNotify) : outcome (QuoteEvent (D := D)) :=
  let '(code, dtype) := get_Security (n ≫= bqn_Security) in
  let symbol := MapSecurityToSymbol code dtype in
  let q := n ≫= bqn_BasicQot in
  last ← price_of (get zero_float bq_LastPrice q);
  open ← price_of (get zero_float bq_OpenPrice q);
  high ← price_of (get zero_float bq_HighPrice q);
  low ← price_of (get zero_float bq_LowPrice q);
  close ← price_of (get zero_float bq_LastClosePrice q);
  volume ← quantity_of (get 0 bq_Volume q);
  turnover ← money_of (get zero_float bq_Turnover q);
  Ret (mkQuoteEvent symbol last open high low close volume turnover no_price no_price no_qty no_qty
         (get "" bq_MarketTime q)).

Definition MapTickerToTickerEvent (n : option Ticker) : outcome (TickerEvent (D := D)) :=
  price ← price_of (get zero_float tk_Price n);
  volume ← quantity_of (get 0 tk_Volume n);
  turnover ← money_of (get zero_float tk_Turnover n);
  Ret (mkTickerEvent (mkSymbol "" "" 0 "" "") price volume turnover (itoa (get 0 tk_Timestamp n)) (itoa (get 0 tk_Side n))).

Definition MapOrderBookAskLevel (n : option OrderBook) : outcome (OrderBookLevel (D := D)) :=
  price ← price_of (get zero_float bk_Price n);
  quantity ← quantity_of (get 0 bk_Volume n);
  Ret (mkOrderBookLevel 0 price quantity).

Definition MapTradeDeliveryToTradeEvent (n : option TradeStockDeliverNotify) : outcome (TradeEvent (D := D)) :=
  let code := get "" ts_StockCode n in
  let symbol := NewSymbol (marketFromCode code) code 0 in
  price ← MustNewPrice (decimalOrZero (get "" ts_BusinessPrice n)) "0";
  quantity ← MustNewQuantity (decimalOrZero (get "" ts_BusinessAmount n));
  turnover ← MustNewMoney (decimalOrZero (get "" ts_SumBusinessBalance n)) "HKD" 3;
  Ret (mkTradeEvent symbol (get "" ts_ClientId n) (get "" ts_EntrustNo n) price quantity turnover
         (get "" ts_EntrustBs n) (get "" ts_BusinessDate n +:+ " " +:+ get "" ts_BusinessTime n)
         (get "" ts_MatchNo n) (get "" ts_EntrustStatus n)).
End mappers.

(** ** [ApplyPagination] *)
Definition defaultPageSize : Z := 50.

Section pages.
(** A value of [map[string]any]. *)
Context {Any : Type} (any_int : Z -> Any) (any_string : string -> Any).

Definition ApplyPagination (p : option Domain.Pagination) (params : gmap string Any) : gmap string Any :=
  match p with
  | None => <["page_size" := any_int defaultPageSize]> params
  | Some p =>
      let out := if decide (Domain.Cursor p <> "") then <["cursor" := any_string (Domain.Cursor p)]> params else params in
      if decide (0 < Domain.PageSize p) then <["page_size" := any_int (Domain.PageSize p)]> out
      else <["page_size" := any_int defaultPageSize]> out
  end.
End pages.

(** ** A futures delivery *)
Record TradeDeliver := mkTradeDeliver {
  m_FundAccount : string; m_StockCode : string; m_StockName : string; m_EntrustBs : string;
  m_BusinessPrice : string; m_BusinessAmount : string; m_BusinessDate : string; m_BusinessTime : string;
  m_ExchangeType : string; m_EntrustStatus : string; m_ClientId : string; m_EntrustNo : string;
  m_SumBusinessAmount : string; m_SumBusinessBalance : string; m_OriginalAmount : string; m_OriginalPrice : string;
  m_LeftAmount : string; m_EntrustPrice : string; m_EntrustAmount : string; m_RecordNo : string;
  m_Remark : string; m_MatchNo : string;
}.

Record DeliverNotification := mkDeliverNotification {
  FundAccount : string; StockCode : string; StockName : string; EntrustBS : string;
  BusinessPrice : string; BusinessAmount : string; BusinessDate : string; BusinessTime : string;
  ExchangeType : string; EntrustStatus : string; ClientID : string; EntrustNo : string;
  SumBusinessAmount : string; SumBusinessBalance : string; OriginalAmount : string; OriginalPrice : string;
  LeftAmount : string; EntrustPrice : string; EntrustAmount : string; RecordNo : string;
  Remark : string; MatchNo : string;
}.

Definition NotifyType : Z := FuturesTradeStockDeliverMsgType.

Definition HasFill (n : DeliverNotification) : bool := negb (bool_decide (MatchNo n = "")).

Definition FromDeliverNotify (msg : option TradeDeliver) : DeliverNotification :=
  match msg with
  | None => mkDeliverNotification "" "" "" "" "" "" "" "" "" "" "" "" "" "" "" "" "" "" "" "" "" ""
  | Some m =>
      mkDeliverNotification (m_FundAccount m) (m_StockCode m) (m_StockName m) (m_EntrustBs m)
        (m_BusinessPrice m) (m_BusinessAmount m) (m_BusinessDate m) (m_BusinessTime m)
        (m_ExchangeType m) (m_EntrustStatus m) (m_ClientId m) (m_EntrustNo m)
        (m_SumBusinessAmount m) (m_SumBusinessBalance m) (m_OriginalAmount m) (m_OriginalPrice m)
        (m_LeftAmount m) (m_EntrustPrice m) (m_EntrustAmount m) (m_RecordNo m) (m_Remark m) (m_MatchNo m)
  end.

(** ** The mappers against the decoders of the push client *)
Section against.
Context {D : Type} `{Decimal D}.

Definition with_quote (symbol : Symbol) (time : string) (e : QuoteEvent (D := D)) : QuoteEvent :=
  mkQuoteEvent symbol (qe_LastPrice e) (qe_OpenPrice e) (qe_HighPrice e) (qe_LowPrice e) (qe_ClosePrice e)
    (qe_Volume e) (qe_Turnover e) (qe_BidPrice e) (qe_AskPrice e) (qe_BidQty e) (qe_AskQty e) time.

Definition with_ticker (symbol : Symbol) (time : string) (e : TickerEvent (D := D)) : TickerEvent :=
  mkTickerEvent symbol (te_Price e) (te_Volume e) (te_Turnover e) time (te_Side e).

Definition with_trade (symbol : Symbol) (time : string) (e : TradeEvent (D := D)) : TradeEvent :=
  mkTradeEvent symbol (tr_OrderID e) (tr_EntrustID e) (tr_Price e) (tr_Quantity e) (tr_Turnover e) (tr_Side e)
    time (tr_CounterID e) (tr_OrderStatus e).
End against.

Lemma entrustBS_itoa side : entrustBSFromInt32 side = itoa side.
Proof.
  unfold entrustBSFromInt32, switch. repeat (case_decide; [by subst |]). done.
Qed.

(** The full code of a mapped symbol repeats the market. *)
Lemma NewSymbol_full market code dtype : market <> "" -> FullCode (NewSymbol market code dtype) = code +:+ "." +:+ market.
Proof. intros Hm. unfold NewSymbol. by rewrite decide_True. Qed.

Lemma string_of_app l k : str (l ++ k) = str l +:+ str k.
Proof. induction l as [|c l IH]; [done |]. cbn. by rewrite IH. Qed.

Lemma MarketFromCode_suffix code : MarketFromCode code <> "" -> exists bare, code = bare +:+ "." +:+ MarketFromCode code.
Proof.
  unfold MarketFromCode, has_suffix. repeat case_match; try done; intros _;
    match goal with H : bool_decide _ = true |- _ => apply bool_decide_eq_true in H as [bare Hb] end;
    apply cut_suffix_Some in Hb; by exists bare.
Qed.

(** The decoder takes the market off and puts it back. *)
Lemma pushSymbol_full code dtype : FullCode (pushSymbol code dtype) = code.
Proof.
  unfold pushSymbol. cbn [FullCode]. case_decide as Hm; [| done].
  destruct (MarketFromCode_suffix code Hm) as [bare Hb]. revert Hb. generalize (MarketFromCode code). intros m ->.
  rewrite !text_app, !length_app.
  replace (length (text bare) + (length (text ".") + length (text m)) - length (text m) - 1)%nat
    with (length (text bare)) by (simpl; lia).
  by rewrite take_app_length, str_text.
Qed.

(** The mappers read the same numbers, panics included, as the decoders of the push
    client: they differ in the time (the market's, or the text of the message, instead
    of the notification's), in the symbol of a ticker, which is left empty, and in the
    full code, which repeats the market where the decoder does not. *)
Theorem mappers_against_decoders {D} `{Decimal D} (t : Z) :
  (forall n q s, bqn_BasicQot n = Some q -> bqn_Security n = Some s ->
     MapBasicQotToQuoteEvent (Some n) =
     (e ← decodeBasicQotEvent n t;
      Ret (with_quote (D := D) (MapSecurityToSymbol (sec_Code s) (sec_DataType s)) (bq_MarketTime q) e)))
  /\ (forall n k, tkn_Ticker n = Some k ->
     MapTickerToTickerEvent (Some k) =
     (e ← decodeTickerEvent n t; Ret (with_ticker (D := D) (mkSymbol "" "" 0 "" "") (itoa (tk_Timestamp k)) e)))
  /\ (forall m, MapTradeDeliveryToTradeEvent (Some m) =
     (e ← decodeTradeEvent m t;
      Ret (with_trade (D := D) (NewSymbol (marketFromCode (ts_StockCode m)) (ts_StockCode m) 0)
             (ts_BusinessDate m +:+ " " +:+ ts_BusinessTime m) e)))
  /\ (forall code dtype,
        FullCode (pushSymbol code dtype) = code
        /\ FullCode (MapSecurityToSymbol code dtype) =
           (if decide (marketFromCode code = "") then code else code +:+ "." +:+ marketFromCode code)).
Proof.
  split_and!.
  - intros n q s Hq Hs. unfold MapBasicQotToQuoteEvent, decodeBasicQotEvent. cbn [mbind option_bind].
    rewrite Hq, Hs. cbn [get get_Security from_option].
    repeat (match goal with |- (?r ≫= _) = _ => destruct r; cbn [mbind outcome_bind]; [| done] end). done.
  - intros n k Hk. unfold MapTickerToTickerEvent, decodeTickerEvent. rewrite Hk. cbn [get from_option].
    repeat (match goal with |- (?r ≫= _) = _ => destruct r; cbn [mbind outcome_bind]; [| done] end).
    by rewrite entrustBS_itoa.
  - intros m. unfold MapTradeDeliveryToTradeEvent, decodeTradeEvent, pushDecimal, decimalOrZero, wireTick. cbn [get from_option].
    repeat (match goal with |- (?r ≫= _) = _ => destruct r; cbn [mbind outcome_bind]; [| done] end). done.
  - intros code dtype. split; [apply pushSymbol_full |]. unfold MapSecurityToSymbol, NewSymbol. cbn [FullCode].
    repeat case_decide; congruence.
Qed.

Lemma mappers_against_decoders_witness :
  FullCode (pushSymbol "00700.HK" 1) = "00700.HK" /\ FullCode (MapSecurityToSymbol "00700.HK" 1) = "00700.HK.HK"
  /\ MapTradeDeliveryToTradeEvent (D := dec) (Some (mkTradeStockDeliverNotify "00700.HK" "1" "350.2" "100" "20240102" "10:00:00" "8" "c" "e" "" "m"))
     = (e ← decodeTradeEvent (mkTradeStockDeliverNotify "00700.HK" "1" "350.2" "100" "20240102" "10:00:00" "8" "c" "e" "" "m") 7;
        Ret (with_trade (NewSymbol "HK" "00700.HK" 0) "20240102 10:00:00" e)).
Proof.
  destruct (mappers_against_decoders (D := dec) 7) as (_ & _ & Htrade & Hsym).
  split_and!; [apply (Hsym "00700.HK" 1) | apply (Hsym "00700.HK" 1) | apply Htrade].
Defined.

(** ** The page parameters *)
Section pages.
Context {Any : Type} (any_int : Z -> Any) (any_string : string -> Any).

(** What [ApplyPagination] adds, and that it adds nothing else: the size is always
    there and positive, and a cursor of the caller's map survives an empty one. *)
Lemma ApplyPagination_spec p params :
  let out := ApplyPagination any_int any_string p params in
  (exists n, 0 < n /\ out !! "page_size" = Some (any_int n))
  /\ out !! "cursor" =
     match p with
     | Some p => if decide (Domain.Cursor p = "") then params !! "cursor" else Some (any_string (Domain.Cursor p))
     | None => params !! "cursor"
     end
  /\ forall k, k <> "page_size" -> k <> "cursor" -> out !! k = params !! k.
Proof using.
  unfold ApplyPagination, defaultPageSize. destruct p as [p|]; cbn zeta.
  - split_and!.
    + case_decide; [exists (Domain.PageSize p) | exists 50]; (split; [lia | by rewrite lookup_insert_eq]).
    + repeat case_decide; try done; rewrite lookup_insert_ne by done; try done; by rewrite lookup_insert_eq.
    + intros k Hk1 Hk2. repeat case_decide; by rewrite !lookup_insert_ne by done.
  - split_and!; [exists 50; split; [lia | by rewrite lookup_insert_eq] | by rewrite lookup_insert_ne |].
    intros k Hk1 Hk2. by rewrite lookup_insert_ne.
Qed.
End pages.
