(* ===== verification/Telemetry.v ===== *)
(** Measurements and traces: [src/internal/metrics/metrics.go],
    [src/internal/otel/otel.go] and [src/client/client_otel.go].

    The SDK measures through [Instruments], which write to a [Recorder]; a hook
    turns a recorder into one entry point, and the OpenTelemetry hook hands every
    measurement to an instrument of a meter. The OpenTelemetry API is a parameter:
    a meter gives an instrument for a name and a kind, and what reaches an
    instrument or a span is a log of calls. Contexts, providers and propagators are
    passed through and left out. *)
From Stdlib.Floats Require Import SpecFloat.
From stdpp Require Import gmap.
From S2P Require Import Prelude Types Errs Auth Logging RedactText.
Local Open Scope Z_scope.

(** ** Names *)
Definition MetricHTTPRequests : string := "hstong.http.requests".
Definition MetricHTTPErrors : string := "hstong.http.errors".
Definition MetricHTTPLatency : string := "hstong.http.latency_ms".
Definition MetricOrderOutcomes : string := "hstong.order.outcomes".
Definition MetricRateLimitWaits : string := "hstong.ratelimit.waits".
Definition MetricRateLimitWaitDuration : string := "hstong.ratelimit.wait_ms".
Definition MetricBreakerState : string := "hstong.breaker.state".
Definition MetricPushConnects : string := "hstong.push.connects".
Definition MetricPushReconnects : string := "hstong.push.reconnects".
Definition MetricPushErrors : string := "hstong.push.errors".

Definition LabelOp : string := "op".
Definition LabelCategory : string := "category".
Definition LabelOutcome : string := "outcome".
Definition LabelState : string := "state".
Definition LabelAddr : string := "addr".
Definition LabelKind : string := "kind".

Inductive Kind := KindCounter | KindGauge | KindHistogram.

#[global] Instance Kind_eq_dec : EqDecision Kind.
Proof. solve_decision. Defined.

Definition Kind_String (k : Kind) : string :=
  match k with KindCounter => "counter" | KindGauge => "gauge" | KindHistogram => "histogram" end.

(** ** Recorders and hooks

    A method changes the state behind the interface. *)
Record Recorder (S : Type) := mkRecorder {
  Count : string -> Z -> list string -> S -> S;
  Observe : string -> spec_float -> list string -> S -> S;
  Gauge : string -> spec_float -> list string -> S -> S;
}.
Arguments mkRecorder {S}.
Arguments Count {S}.
Arguments Observe {S}.
Arguments Gauge {S}.

Definition Nop {S} : Recorder S := mkRecorder (fun _ _ _ s => s) (fun _ _ _ s => s) (fun _ _ _ s => s).

(** A [Hook] is its [Record] method. *)
Abbreviation Hook S := (string -> Kind -> spec_float -> list string -> S -> S).

Definition hookRecorder {S} (hook : Hook S) : Recorder S :=
  mkRecorder (fun name value labels => hook name KindCounter (f64_of_Z value) labels)
    (fun name value labels => hook name KindHistogram value labels)
    (fun name value labels => hook name KindGauge value labels).

Definition HookRecorder {S} (h : option (Hook S)) : Recorder S :=
  match h with None => Nop | Some hook => hookRecorder hook end.

(** ** Instruments: a pointer to a struct with a recorder, either of which may be nil *)
Definition Instruments (S : Type) : Type := option (option (Recorder S)).

Definition NewInstruments {S} (rec : option (Recorder S)) : Instruments S := Some (Some (default Nop rec)).

Definition Instruments_Recorder {S} (i : Instruments S) : Recorder S :=
  match i with Some (Some rec) => rec | _ => Nop end.

Definition Millisecond : Z := 1000000.
Definition milliseconds (d : Z) : spec_float := f64_div (f64_of_Z d) (f64_of_Z Millisecond).

Definition outcome_of (err : option error) : string := match err with None => "ok" | Some _ => "error" end.

Definition breakerValue (state : string) : spec_float :=
  f64_of_Z (switch state [("open", 2); ("half-open", 1)] 0).

Section instruments.
Context {S : Type} (i : Instruments S).
Let rec := Instruments_Recorder i.

Definition HTTPRequest (op : string) : S -> S := Count rec MetricHTTPRequests 1 [LabelOp; op].
Definition HTTPError (op category : string) : S -> S :=
  Count rec MetricHTTPErrors 1 [LabelOp; op; LabelCategory; category].
Definition HTTPLatency (op : string) (d : Z) (err : option error) : S -> S :=
  Observe rec MetricHTTPLatency (milliseconds d) [LabelOp; op; LabelOutcome; outcome_of err].
Definition OrderOutcome (op result : string) : S -> S :=
  Count rec MetricOrderOutcomes 1 [LabelOp; op; LabelOutcome; result].
Definition RateLimitWait (op : string) (d : Z) : S -> S := fun s =>
  if decide (d <= 0) then s
  else Observe rec MetricRateLimitWaitDuration (milliseconds d) [LabelOp; op]
         (Count rec MetricRateLimitWaits 1 [LabelOp; op] s).
Definition BreakerState (name state : string) : S -> S :=
  Gauge rec MetricBreakerState (breakerValue state) [LabelState; state].
Definition PushConnect (addr : string) : S -> S := Count rec MetricPushConnects 1 [LabelAddr; addr].
Definition PushReconnect (addr : string) : S -> S := Count rec MetricPushReconnects 1 [LabelAddr; addr].
Definition PushError (addr kind : string) : S -> S := Count rec MetricPushErrors 1 [LabelAddr; addr; LabelKind; kind].
End instruments.

(** A call of the SDK. *)
Inductive measure :=
  | MRequest (op : string)
  | MError (op category : string)
  | MLatency (op : string) (d : Z) (err : option error)
  | MOrder (op result : string)
  | MWait (op : string) (d : Z)
  | MBreaker (name state : string)
  | MConnect (addr : string)
  | MReconnect (addr : string)
  | MPushError (addr kind : string).

Definition apply_measure {S} (i : Instruments S) (m : measure) : S -> S :=
  match m with
  | MRequest op => HTTPRequest i op
  | MError op category => HTTPError i op category
  | MLatency op d err => HTTPLatency i op d err
  | MOrder op result => OrderOutcome i op result
  | MWait op d => RateLimitWait i op d
  | MBreaker name state => BreakerState i name state
  | MConnect addr => PushConnect i addr
  | MReconnect addr => PushReconnect i addr
  | MPushError addr kind => PushError i addr kind
  end.

(** ** The OpenTelemetry hook *)
Section otel.
(** What the meter gives for a name; its error is not looked at. *)
Context {I : Type} (Int64Counter Float64Histogram Float64Gauge : string -> I).

(** A call of the API. *)
Inductive otel_call :=
  | Create (kind : Kind) (name : string)
  | Add (c : I) (value : Z) (attrs : list (string * string))
  | RecordHistogram (h : I) (value : spec_float) (attrs : list (string * string))
  | RecordGauge (g : I) (value : spec_float) (attrs : list (string * string)).

Record otelHook := mkHook {
  has_meter : bool;
  counters : gmap string I;
  histograms : gmap string I;
  gauges : gmap string I;
  otel_log : list otel_call;
}.

Definition newOTelHook (meter : bool) : otelHook := mkHook meter ∅ ∅ ∅ [].

Definition getCounter (name : string) (h : otelHook) : I * otelHook :=
  match counters h !! name with
  | Some c => (c, h)
  | None =>
      let c := Int64Counter name in
      (c, mkHook (has_meter h) (<[name := c]> (counters h)) (histograms h) (gauges h)
            (otel_log h ++ [Create KindCounter name]))
  end.

Definition getHistogram (name : string) (h : otelHook) : I * otelHook :=
  match histograms h !! name with
  | Some c => (c, h)
  | None =>
      let c := Float64Histogram name in
      (c, mkHook (has_meter h) (counters h) (<[name := c]> (histograms h)) (gauges h)
            (otel_log h ++ [Create KindHistogram name]))
  end.

Definition getGauge (name : string) (h : otelHook) : I * otelHook :=
  match gauges h !! name with
  | Some c => (c, h)
  | None =>
      let c := Float64Gauge name in
      (c, mkHook (has_meter h) (counters h) (histograms h) (<[name := c]> (gauges h))
            (otel_log h ++ [Create KindGauge name]))
  end.

(** The labels in pairs; an odd one at the end is dropped. *)
Fixpoint attributes (labels : list string) : list (string * string) :=
  match labels with
  | k :: v :: labels => (k, v) :: attributes labels
  | _ => []
  end.

Definition log_call (c : otel_call) (h : otelHook) : otelHook :=
  mkHook (has_meter h) (counters h) (histograms h) (gauges h) (otel_log h ++ [c]).

Definition otelHook_Record : Hook otelHook := fun name kind value labels h =>
  if negb (has_meter h) then h else
  let attrs := attributes labels in
  match kind with
  | KindCounter => let '(c, h) := getCounter name h in log_call (Add c (int64_of_f64 value) attrs) h
  | KindHistogram => let '(c, h) := getHistogram name h in log_call (RecordHistogram c value attrs) h
  | KindGauge => let '(c, h) := getGauge name h in log_call (RecordGauge c value attrs) h
  end.
End otel.

(** ** Spans *)
Inductive span_call :=
  | SetStatus (ok : bool) (description : string)
  | RecordError (text : string)
  | SpanEnd.

(** [SafeError]: the redaction of a text may panic. *)
Definition SafeError (err : option error) : outcome (option error) :=
  match err with
  | None => Ret None
  | Some e =>
      match RedactText (error_text e) with
      | None => Panic
      | Some safe => if decide (safe = error_text e) then Ret (Some e) else Ret (Some (EText safe))
      end
  end.

Definition record_safe (e : error) (span : list span_call) : outcome (list span_call) :=
  safe ← SafeError (Some e);
  match safe with
  | Some safe => Ret (span ++ [SetStatus false (error_text safe); RecordError (error_text safe)])
  | None => Panic
  end.

Definition EndSpan (span : list span_call) (err : option error) : outcome (list span_call) :=
  match err with
  | None => Ret (span ++ [SpanEnd])
  | Some e => span ← record_safe e span; Ret (span ++ [SpanEnd])
  end.

(** [End]. *)
Definition End_ (span : list span_call) (err : option error) : list span_call :=
  match err with
  | Some e => span ++ [SetStatus false (error_text e); RecordError (error_text e); SpanEnd]
  | None => span ++ [SetStatus true ""; SpanEnd]
  end.

(** What [otelSpanFactory] returns to end the span of a call of the client. *)
Definition otelSpanFactory (span : list span_call) (err : option error) : outcome (list span_call) :=
  match err with
  | Some e => span ← record_safe e span; Ret (span ++ [SpanEnd])
  | None => Ret (span ++ [SetStatus true ""; SpanEnd])
  end.

(** ** What reaches the meter *)

(** The kind of each metric of the SDK. *)
Definition metric_kind (name : string) : option Kind :=
  if decide (name ∈ [MetricHTTPLatency; MetricRateLimitWaitDuration]) then Some KindHistogram
  else if decide (name = MetricBreakerState) then Some KindGauge
  else if decide (name ∈ [MetricHTTPRequests; MetricHTTPErrors; MetricOrderOutcomes; MetricRateLimitWaits;
                          MetricPushConnects; MetricPushReconnects; MetricPushErrors]) then Some KindCounter
  else None.

Section otel_spec.
Context {I : Type} (Int64Counter Float64Histogram Float64Gauge : string -> I).
Abbreviation hook_state := (@otelHook I).
Abbreviation call := (@otel_call I).
Abbreviation record := (otelHook_Record Int64Counter Float64Histogram Float64Gauge).

(** The measurements an SDK call stands for, as the meter should see them. *)
Definition measured (m : measure) : list call :=
  match m with
  | MRequest op => [Add (Int64Counter MetricHTTPRequests) 1 [("op", op)]]
  | MError op category => [Add (Int64Counter MetricHTTPErrors) 1 [("op", op); ("category", category)]]
  | MLatency op d err =>
      [RecordHistogram (Float64Histogram MetricHTTPLatency) (milliseconds d) [("op", op); ("outcome", outcome_of err)]]
  | MOrder op result => [Add (Int64Counter MetricOrderOutcomes) 1 [("op", op); ("outcome", result)]]
  | MWait op d =>
      if decide (d <= 0) then []
      else [Add (Int64Counter MetricRateLimitWaits) 1 [("op", op)];
            RecordHistogram (Float64Histogram MetricRateLimitWaitDuration) (milliseconds d) [("op", op)]]
  | MBreaker _ state => [RecordGauge (Float64Gauge MetricBreakerState) (breakerValue state) [("state", state)]]
  | MConnect addr => [Add (Int64Counter MetricPushConnects) 1 [("addr", addr)]]
  | MReconnect addr => [Add (Int64Counter MetricPushReconnects) 1 [("addr", addr)]]
  | MPushError addr kind => [Add (Int64Counter MetricPushErrors) 1 [("addr", addr); ("kind", kind)]]
  end.

Definition created (c : call) : option (Kind * string) := match c with Create k n => Some (k, n) | _ => None end.
Definition is_use (c : call) : bool := match c with Create _ _ => false | _ => true end.
Definition uses (h : hook_state) : list call := filter (fun c => is_use c = true) (otel_log h).
Definition creations (h : hook_state) : list (Kind * string) := omap created (otel_log h).

Definition cache (k : Kind) (h : hook_state) : gmap string I :=
  match k with KindCounter => counters h | KindHistogram => histograms h | KindGauge => gauges h end.
Definition make (k : Kind) : string -> I :=
  match k with KindCounter => Int64Counter | KindHistogram => Float64Histogram | KindGauge => Float64Gauge end.

(** The caches hold what the meter gave, and were filled once per name and kind. *)
Record hook_ok (h : hook_state) : Prop := mkHookOk {
  ok_meter : has_meter h = true;
  ok_cached : forall k n c, cache k h !! n = Some c -> c = make k n;
  ok_created : forall k n, (k, n) ∈ creations h <-> is_Some (cache k h !! n);
  ok_once : NoDup (creations h);
  ok_kind : forall k n, (k, n) ∈ creations h -> metric_kind n = Some k;
}.

Definition use (kind : Kind) (name : string) (value : spec_float) (labels : list string) : call :=
  match kind with
  | KindCounter => Add (Int64Counter name) (int64_of_f64 value) (attributes labels)
  | KindHistogram => RecordHistogram (Float64Histogram name) value (attributes labels)
  | KindGauge => RecordGauge (Float64Gauge name) value (attributes labels)
  end.

(** A hook after its instrument of a kind and a name was looked up. *)
Definition with_instrument (k : Kind) (n : string) (h : hook_state) : hook_state :=
  match k with
  | KindCounter => snd (getCounter Int64Counter n h)
  | KindHistogram => snd (getHistogram Float64Histogram n h)
  | KindGauge => snd (getGauge Float64Gauge n h)
  end.

Lemma record_unfold kind name value labels h :
  hook_ok h ->
  record name kind value labels h = log_call (use kind name value labels) (with_instrument kind name h).
Proof using.
  intros Hok. unfold otelHook_Record, with_instrument, use. rewrite (ok_meter _ Hok). cbn [negb].
  pose proof (ok_cached _ Hok kind name) as Hc.
  destruct kind; simpl in Hc; unfold getCounter, getHistogram, getGauge;
    destruct (_ !! name) as [c|]; try done; by rewrite (Hc c eq_refl).
Qed.

Lemma log_call_ok c h : is_use c = true -> hook_ok h -> hook_ok (log_call c h) /\ uses (log_call c h) = uses h ++ [c].
Proof using.
  intros Hu [Hm Hc Hcr Ho Hk]. split.
  - assert (Hcre : creations (log_call c h) = creations h).
    { unfold creations, log_call. simpl. rewrite omap_app. by destruct c; simpl; rewrite ?app_nil_r. }
    assert (Hca : forall k, cache k (log_call c h) = cache k h) by by intros [].
    split; [done | intros k n; rewrite Hca; apply Hc | intros k n; by rewrite Hcre, Hca | by rewrite Hcre |].
    intros k n. rewrite Hcre. apply Hk.
  - unfold uses, log_call. simpl. rewrite filter_app. f_equal. by rewrite filter_cons_True.
Qed.

Lemma with_instrument_ok k n h :
  hook_ok h -> metric_kind n = Some k -> hook_ok (with_instrument k n h) /\ uses (with_instrument k n h) = uses h.
Proof using.
  intros Hok Hkind. destruct Hok as [Hm Hc Hcr Ho Hk].
  assert (Hnew : cache k h !! n = None ->
    forall h', has_meter h' = true -> cache k h' = <[n := make k n]> (cache k h) ->
    (forall k', k' <> k -> cache k' h' = cache k' h) -> otel_log h' = otel_log h ++ [Create k n] ->
    hook_ok h' /\ uses h' = uses h).
  { intros Hn h' Hm' Hk' Hother Hlog.
    assert (Hcre : creations h' = creations h ++ [(k, n)]) by (unfold creations; by rewrite Hlog, omap_app).
    assert (Hcache : forall k' n', cache k' h' !! n' = if decide (k' = k /\ n' = n) then Some (make k n) else cache k' h !! n').
    { intros k' n'. destruct (decide (k' = k)) as [->|Hne].
      - rewrite Hk'. destruct (decide (n' = n)) as [->|Hne]; [rewrite lookup_insert_eq, decide_True; auto |].
        rewrite lookup_insert_ne by done. by rewrite decide_False by tauto.
      - rewrite Hother by done. by rewrite decide_False by tauto. }
    split; [split | unfold uses; by rewrite Hlog, filter_app, app_nil_r].
    - done.
    - intros k' n' c. rewrite Hcache. case_decide as Hd; [destruct Hd; by intros [= <-]; subst | apply Hc].
    - intros k' n'. rewrite Hcre, elem_of_app, list_elem_of_singleton, Hcr, Hcache.
      case_decide as Hd; [destruct Hd; subst; naive_solver |]. split; [intros [? | [= -> ->]]; tauto | by left].
    - rewrite Hcre. apply NoDup_app. split_and!; [done | | apply NoDup_singleton].
      intros x Hx ->%list_elem_of_singleton. apply Hcr in Hx as [c Hx]. congruence.
    - intros k' n'. rewrite Hcre, elem_of_app, list_elem_of_singleton. intros [? | [= -> ->]]; [by apply Hk | done]. }
  destruct k; simpl in *; unfold getCounter, getHistogram, getGauge;
    destruct (_ !! n) eqn:Hn; simpl; try (split; [by split | done]);
    (apply Hnew; [done | done | done | intros [] ?; done | done]).
Qed.

Lemma record_ok name kind value labels h :
  hook_ok h -> metric_kind name = Some kind ->
  hook_ok (record name kind value labels h)
  /\ uses (record name kind value labels h) = uses h ++ [use kind name value labels].
Proof using.
  intros Hok Hkind. rewrite record_unfold by done.
  destruct (with_instrument_ok kind name h Hok Hkind) as [Hok' Hu]. rewrite <- Hu.
  apply log_call_ok; [by destruct kind | done].
Qed.

Definition sdk_instruments : Instruments hook_state := NewInstruments (Some (HookRecorder (Some record))).

Lemma wait_ok op d h :
  hook_ok h ->
  hook_ok (RateLimitWait sdk_instruments op d h)
  /\ uses (RateLimitWait sdk_instruments op d h) = uses h ++ measured (MWait op d).
Proof using.
  intros Hok. cbn [measured]. unfold RateLimitWait. case_decide; [by rewrite app_nil_r |].
  destruct (record_ok MetricRateLimitWaits KindCounter (f64_of_Z 1) [LabelOp; op] h Hok eq_refl) as [Hok1 Hu1].
  destruct (record_ok MetricRateLimitWaitDuration KindHistogram (milliseconds d) [LabelOp; op] _ Hok1 eq_refl) as [Hok2 Hu2].
  split; [exact Hok2 |]. etransitivity; [exact Hu2 |]. by rewrite Hu1, <- app_assoc.
Qed.

Lemma measure_ok m h :
  hook_ok h ->
  hook_ok (apply_measure sdk_instruments m h)
  /\ uses (apply_measure sdk_instruments m h) = uses h ++ measured m.
Proof using.
  intros Hok. destruct m as [op|op cat|op d err|op res|op d|nm st|addr|addr|addr kd].
  - exact (record_ok MetricHTTPRequests KindCounter (f64_of_Z 1) [LabelOp; op] h Hok eq_refl).
  - exact (record_ok MetricHTTPErrors KindCounter (f64_of_Z 1) [LabelOp; op; LabelCategory; cat] h Hok eq_refl).
  - exact (record_ok MetricHTTPLatency KindHistogram (milliseconds d) [LabelOp; op; LabelOutcome; outcome_of err] h Hok eq_refl).
  - exact (record_ok MetricOrderOutcomes KindCounter (f64_of_Z 1) [LabelOp; op; LabelOutcome; res] h Hok eq_refl).
  - exact (wait_ok op d h Hok).
  - exact (record_ok MetricBreakerState KindGauge (breakerValue st) [LabelState; st] h Hok eq_refl).
  - exact (record_ok MetricPushConnects KindCounter (f64_of_Z 1) [LabelAddr; addr] h Hok eq_refl).
  - exact (record_ok MetricPushReconnects KindCounter (f64_of_Z 1) [LabelAddr; addr] h Hok eq_refl).
  - exact (record_ok MetricPushErrors KindCounter (f64_of_Z 1) [LabelAddr; addr; LabelKind; kd] h Hok eq_refl).
Qed.
Lemma new_hook_ok : hook_ok (newOTelHook true).
Proof using.
  split; [done | by intros [] | | constructor | by intros k n ?%not_elem_of_nil].
  intros k n. split; [by intros ?%not_elem_of_nil |]. destruct k; intros [c Hc]; discriminate Hc.
Qed.

Definition run_measures (i : Instruments hook_state) (ms : list measure) (h : hook_state) : hook_state :=
  foldl (fun h m => apply_measure i m h) h ms.

Lemma run_measures_ok ms h :
  hook_ok h -> hook_ok (run_measures sdk_instruments ms h)
    /\ uses (run_measures sdk_instruments ms h) = uses h ++ (ms ≫= measured).
Proof using.
  revert h. induction ms as [|m ms IH]; intros h Hok; [by rewrite app_nil_r |].
  destruct (measure_ok m h Hok) as [Hok1 Hu1]. destruct (IH _ Hok1) as [Hok2 Hu2]. split; [exact Hok2 |].
  cbn [mbind list_bind]. etransitivity; [exact Hu2 |]. by rewrite Hu1, <- app_assoc.
Qed.

Lemma nil_instruments (i : Instruments hook_state) m h :
  i = None \/ i = Some None \/ i = NewInstruments None \/ i = NewInstruments (Some (HookRecorder None)) ->
  apply_measure i m h = h.
Proof using.
  intros [-> | [-> | [-> | ->]]]; destruct m; try done; cbn [apply_measure]; unfold RateLimitWait; by case_decide.
Qed.

Lemma nil_run (i : Instruments hook_state) ms h :
  i = None \/ i = Some None \/ i = NewInstruments None \/ i = NewInstruments (Some (HookRecorder None)) ->
  run_measures i ms h = h.
Proof using.
  intros Hi. unfold run_measures. revert h. induction ms as [|m ms IH]; intros h; [done |]. cbn [foldl].
  rewrite nil_instruments by done. apply IH.
Qed.

(** C37: through the hook, the meter sees exactly what the SDK measured, in order: one
    call per measurement with its own instrument, value and labels (a counter by 1,
    the float it travels as being exact), and nothing for a wait that did not wait.
    Every instrument is asked for once, with the one kind its name has. Without
    instruments, recorder or hook nothing happens. The calls are those of one
    goroutine: for two the instrument maps are open to a race ([otel_hook_race]). *)
Theorem telemetry_exact (ms : list measure) :
  let h := run_measures sdk_instruments ms (newOTelHook true) in
  uses h = ms ≫= measured
  /\ NoDup (creations h)
  /\ (forall k n, (k, n) ∈ creations h -> metric_kind n = Some k)
  /\ forall i, i = None \/ i = Some None \/ i = NewInstruments None \/ i = NewInstruments (Some (HookRecorder None)) ->
       run_measures i ms (newOTelHook true) = newOTelHook true.
Proof using.
  cbv zeta. destruct (run_measures_ok ms _ new_hook_ok) as [Hok Hu].
  split; [exact Hu |]. split; [apply Hok |]. split; [apply Hok |]. intros i Hi. by apply nil_run.
Qed.
End otel_spec.

Lemma telemetry_exact_witness :
  let h := run_measures (sdk_instruments (fun n => n) (fun n => n) (fun n => n))
             [MRequest "/hq/BasicQot"; MWait "/hq/BasicQot" 1500000; MWait "x" 0; MRequest "/hq/KL"] (newOTelHook true) in
  uses h = [MRequest "/hq/BasicQot"; MWait "/hq/BasicQot" 1500000; MWait "x" 0; MRequest "/hq/KL"]
             ≫= measured (fun n => n) (fun n => n) (fun n => n)
  /\ length (uses h) = 4%nat
  /\ length (creations h) = 3%nat.
Proof.
  split; [apply (telemetry_exact (fun n => n) (fun n => n) (fun n => n)) | by vm_compute].
Defined.

(** ** What a span records of an error *)



(** ** The hook from several goroutines

    [Recorder] is documented as safe for concurrent use; the caches of the hook are
    plain maps. A goroutine in [getCounter] reads the map, asks the meter, and writes
    the map; the runtime ends the process when a map is read or written while
    another goroutine writes it. *)
Inductive lookup_pc := AtRead | AtStore | Storing | Recorded.

Record cacheState := mkCache { cached : bool; writers : nat; threads : list lookup_pc; fatal : bool }.

Definition move (i : nat) (pc : lookup_pc) (s : cacheState) : list lookup_pc := <[i := pc]> (threads s).

(** One step of goroutine [i], all for the same new name. *)
Definition cache_step (i : nat) (s : cacheState) : option cacheState :=
  if fatal s then None else
  match threads s !! i with
  | Some AtRead =>
      if decide (0 < writers s)%nat then Some (mkCache (cached s) (writers s) (threads s) true)
      else Some (mkCache (cached s) (writers s) (move i (if cached s then Recorded else AtStore) s) false)
  | Some AtStore =>
      if decide (0 < writers s)%nat then Some (mkCache (cached s) (writers s) (threads s) true)
      else Some (mkCache (cached s) (S (writers s)) (move i Storing s) false)
  | Some Storing => Some (mkCache true (pred (writers s)) (move i Recorded s) false)
  | _ => None
  end.

Fixpoint cache_run (ms : list nat) (s : cacheState) : option cacheState :=
  match ms with
  | [] => Some s
  | i :: ms => s ← cache_step i s; cache_run ms s
  end.

Definition cache_start (n : nat) : cacheState := mkCache false 0 (replicate n AtRead) false.

Definition is_storing (pc : lookup_pc) : bool := match pc with Storing => true | _ => false end.

(** Alone, a goroutine never meets another writer; two can. *)
Theorem otel_hook_race :
  (forall ms s, cache_run ms (cache_start 1) = Some s -> fatal s = false)
  /\ exists ms s, cache_run ms (cache_start 2) = Some s /\ fatal s = true.
Proof.
  split; [| by exists [0; 1; 0; 1]%nat; eexists].
  assert (Hinv : forall ms s s', fatal s = false -> (exists pc, threads s = [pc] /\ writers s = if is_storing pc then 1%nat else 0%nat) ->
    cache_run ms s = Some s' -> fatal s' = false).
  { induction ms as [|i ms IH]; intros s s' Hf (pc & Ht & Hw); cbn [cache_run]; [congruence |].
    unfold cache_step. rewrite Hf, Ht. destruct i as [|i]; [| done]. cbn [lookup list_lookup].
    unfold move. rewrite Ht, Hw. destruct pc; simpl; try done.
    - destruct (cached s); (apply IH; [done | by eexists]).
    - apply IH; [done | by eexists].
    - apply IH; [done | by eexists]. }
  intros ms s. apply Hinv; [done | by eexists].
Qed.
