(* ===== verification/LogHandler.v ===== *)
(** The redacting log handler of [src/internal/logging/logging.go] over any
    [slog.Handler].

    A handler is the interface [Handler]: what it is enabled for, what it does with a
    record, and the handlers it derives. The context of a call is passed through and
    left out. The theorems run a program of a logger, which logs and derives loggers,
    over the redacting handler and over the handler inside. *)
From S2P Require Import Prelude Types Errs Logging.

Set Warnings "-register-all".

(** ** Records *)
Record record := mkRecord { rec_Time : Z; rec_Level : Z; rec_Message : string; rec_PC : Z; rec_Attrs : list attr }.

Definition isEmptyGroup (a : attr) : bool := match a with Attr _ (VGroup []) => true | _ => false end.

Definition NewRecord (time level : Z) (message : string) (pc : Z) : record := mkRecord time level message pc [].

(** [Record.AddAttrs] leaves empty groups out. *)
Definition AddAttrs (r : record) (attrs : list attr) : record :=
  mkRecord (rec_Time r) (rec_Level r) (rec_Message r) (rec_PC r)
    (rec_Attrs r ++ filter (fun a => isEmptyGroup a = false) attrs).

(** ** [slog.Handler] *)
Class Handler (H W : Type) := {
  Enabled : H -> Z -> bool;
  Handle : H -> record -> W -> option error * W;
  WithAttrs : H -> list attr -> H;
  WithGroup : H -> string -> H;
}.

(** ** The handler *)
Record redactingHandler (H : Type) := mkRedacting { wrapped : H }.
Arguments mkRedacting {H} _.
Arguments wrapped {H} _.

(** [Redacting]: [discard] is the text handler that writes nothing. *)
Definition Redacting {H} (discard : H) (h : option H) : redactingHandler H := mkRedacting (default discard h).

Section redacting.
Context {H W : Type} `{hw : Handler H W} (render : value -> string).

Definition redacting_Handle (h : redactingHandler H) (r : record) : W -> option error * W :=
  let nr := NewRecord (rec_Time r) (rec_Level r) (rec_Message r) (rec_PC r) in
  Handle (wrapped h) (foldl (fun nr a => AddAttrs nr [redactAttr render a]) nr (rec_Attrs r)).

Definition redacting_WithAttrs (h : redactingHandler H) (attrs : list attr) : redactingHandler H :=
  mkRedacting (WithAttrs (wrapped h) (RedactAttrs render attrs)).

Definition redacting_WithGroup (h : redactingHandler H) (name : string) : redactingHandler H :=
  mkRedacting (WithGroup (wrapped h) name).

#[local] Instance redacting : Handler (redactingHandler H) W :=
  { Enabled h := Enabled (wrapped h); Handle := redacting_Handle; WithAttrs := redacting_WithAttrs;
    WithGroup := redacting_WithGroup }.
End redacting.

(** [Redact]: the attribute to log for a key and a value, of which [nil] is one. *)
Definition Redact (sprint : value -> string) (key : string) (v : option value) : attr :=
  if negb (IsSensitiveKey (text key)) then Attr key (default (VPlain "<nil>") v)
  else match v with
       | None => Attr key (VPlain "")
       | Some v => Attr key (VPlain (RedactValue (sprint v)))
       end.

(** ** Loggers

    [slog.Logger]: a record is built only if its level is enabled, and what the
    handler returns is dropped; deriving with no attributes or with an empty name
    gives the same logger. *)
Section logger.
Context {H W : Type} `{hw : Handler H W}.

Definition Logger_Log (l : H) (time level : Z) (message : string) (pc : Z) (attrs : list attr) (w : W) : W :=
  if Enabled l level then snd (Handle l (AddAttrs (NewRecord time level message pc) attrs) w) else w.

Definition Logger_With (l : H) (attrs : list attr) : H := if decide (attrs = []) then l else WithAttrs l attrs.
Definition Logger_WithGroup (l : H) (name : string) : H := if decide (name = "") then l else WithGroup l name.

(** [New] and [Sub]. *)
Definition New (discard : H) (l : option H) : H := default discard l.
Definition Sub (discard : H) (l : option H) (subsystem : string) : H :=
  Logger_With (New discard l) [Attr "subsystem" (VPlain subsystem)].
End logger.

(** A program that logs: with a logger, or with one derived from it, in any order. *)
Inductive logs :=
  | Done
  | Log (time level : Z) (message : string) (pc : Z) (attrs : list attr) (rest : logs)
  | With (attrs : list attr) (child rest : logs)
  | Grouped (name : string) (child rest : logs).

Fixpoint run {H W} `{hw : Handler H W} (l : H) (p : logs) (w : W) : W :=
  match p with
  | Done => w
  | Log t v m pc attrs rest => run l rest (Logger_Log l t v m pc attrs w)
  | With attrs child rest => run l rest (run (Logger_With l attrs) child w)
  | Grouped name child rest => run l rest (run (Logger_WithGroup l name) child w)
  end.

(** The same program with its attributes redacted. *)
Fixpoint mask (render : value -> string) (p : logs) : logs :=
  match p with
  | Done => Done
  | Log t v m pc attrs rest =>
      Log t v m pc (RedactAttrs render (filter (fun a => isEmptyGroup a = false) attrs)) (mask render rest)
  | With attrs child rest => With (RedactAttrs render attrs) (mask render child) (mask render rest)
  | Grouped name child rest => Grouped name (mask render child) (mask render rest)
  end.

(** The attributes of a program, each with the names of the groups opened around
    it, the innermost first. *)
Fixpoint given (names : list string) (p : logs) : list (list string * attr) :=
  match p with
  | Done => []
  | Log _ _ _ _ attrs rest => map (pair names) attrs ++ given names rest
  | With attrs child rest => map (pair names) attrs ++ given names child ++ given names rest
  | Grouped name child rest => given (name :: names) child ++ given names rest
  end.

(** ** Redaction of attributes *)
Section lemmas.
Context (render : value -> string).

Lemma redactAttr_nonempty a : isEmptyGroup a = false -> isEmptyGroup (redactAttr render a) = false.
Proof.
  destruct a as [k v]. cbn. destruct (IsSensitiveKey (text k)); [done |]. by destruct v as [r|[|b l]|v].
Qed.

Lemma redact_idempotent a : redactAttr render (redactAttr render a) = redactAttr render a.
Proof.
  induction a as [k r|k l IH|k v] using attr_ind'; cbn; destruct (IsSensitiveKey (text k)) eqn:Hk; cbn; rewrite Hk; try done.
  1, 2, 4: do 2 f_equal; unfold RedactValue; by repeat case_decide.
  do 2 f_equal. rewrite map_map. apply map_ext_in. intros a Ha. rewrite Forall_forall in IH. apply IH. by apply list_elem_of_In.
Qed.

Lemma redacted_attrs_idempotent l : RedactAttrs render (RedactAttrs render l) = RedactAttrs render l.
Proof. unfold RedactAttrs. rewrite map_map. apply map_ext, redact_idempotent. Qed.

Lemma redacted_nonempty l :
  filter (fun a => isEmptyGroup a = false) (RedactAttrs render (filter (fun a => isEmptyGroup a = false) l))
  = RedactAttrs render (filter (fun a => isEmptyGroup a = false) l).
Proof.
  induction l as [|a l IH]; [done |]. rewrite filter_cons. case_decide as Ha; [| exact IH].
  unfold RedactAttrs in *. cbn [map]. rewrite filter_cons_True by (by apply redactAttr_nonempty). by rewrite IH.
Qed.

Lemma mask_idempotent p : mask render (mask render p) = mask render p.
Proof.
  induction p as [|t v m pc attrs rest IH|attrs child IHc rest IH|name child IHc rest IH]; cbn; [done | | |];
    rewrite ?IH, ?IHc, ?redacted_nonempty, ?redacted_attrs_idempotent; done.
Qed.
End lemmas.

(** ** The handler against the one inside *)
Section simulation.
Context {H W : Type} `{hw : Handler H W} (render : value -> string).

Lemma add_each (f : attr -> attr) l r : (forall a, isEmptyGroup a = false -> isEmptyGroup (f a) = false) ->
  Forall (fun a => isEmptyGroup a = false) l ->
  foldl (fun nr a => AddAttrs nr [f a]) r l = AddAttrs r (map f l).
Proof using Type.
  intros Hf Hl. revert r. induction Hl as [|a l Ha Hl IH]; intros r; [by destruct r; unfold AddAttrs; cbn; rewrite app_nil_r |].
  cbn [foldl]. rewrite IH. unfold AddAttrs. cbn [rec_Time rec_Level rec_Message rec_PC rec_Attrs map].
  rewrite !filter_cons_True by (by apply Hf). cbn [app]. by rewrite <- app_assoc.
Qed.

Lemma logged_masked (h : H) t v m pc attrs (w : W) :
  Logger_Log (hw := redacting render) (mkRedacting h) t v m pc attrs w
  = Logger_Log h t v m pc (RedactAttrs render (filter (fun a => isEmptyGroup a = false) attrs)) w.
Proof using Type.
  unfold Logger_Log. cbn [Enabled redacting wrapped]. destruct (Enabled h v); [| done]. f_equal.
  cbn [Handle redacting]. unfold redacting_Handle. cbn [AddAttrs NewRecord rec_Time rec_Level rec_Message rec_PC rec_Attrs app wrapped].
  rewrite (add_each (redactAttr render)); [done | apply redactAttr_nonempty |].
  apply Forall_forall. intros a [Ha _]%list_elem_of_filter. done.
Qed.

(** A program over the redacting handler is the redacted program over the handler
    inside. *)
Lemma run_masked p (h : H) (w : W) : run (hw := redacting render) (mkRedacting h) p w = run h (mask render p) w.
Proof using Type.
  revert h w. induction p as [|t v m pc attrs rest IH|attrs child IHc rest IH|name child IHc rest IH]; intros h w; cbn [run mask]; [done | | |].
  - by rewrite logged_masked, IH.
  - rewrite IH. f_equal. rewrite <- IHc. f_equal. unfold Logger_With. by destruct attrs.
  - rewrite IH. f_equal. rewrite <- IHc. f_equal. unfold Logger_WithGroup. by case_decide.
Qed.

(** The tag of a subsystem is kept. *)
Lemma sub_masked (discard : H) (l : option H) subsystem p (w : W) :
  run (hw := redacting render) (Sub (hw := redacting render) (mkRedacting discard) (mkRedacting <$> l) subsystem) p w
  = run (Sub discard l subsystem) (mask render p) w.
Proof using Type. rewrite <- run_masked. f_equal. by destruct l. Qed.
End simulation.

(** [Redact] keeps the key, masks the value under a sensitive one, and leaves any
    other value as it is. *)
Lemma Redact_spec sprint key v :
  exists shown_value, Redact sprint key v = Attr key shown_value
    /\ (IsSensitiveKey (text key) = true -> shown_value = VPlain "" \/ shown_value = VPlain Mask)
    /\ (IsSensitiveKey (text key) = false -> forall v', v = Some v' -> shown_value = v').
Proof.
  unfold Redact. destruct (IsSensitiveKey (text key)); cbn; [| eexists; split_and!; [done | done | by intros ? ? ->]].
  destruct v as [v|]; eexists; (split; [done |]); (split; [| done]); [unfold RedactValue; case_decide |]; auto.
Qed.

Lemma in_attrs (names ns : list string) (l : list attr) (a : attr) :
  (ns, a) ∈ map (pair names) l <-> ns = names /\ a ∈ l.
Proof.
  rewrite elem_of_map. split; [by intros (a' & [= -> ->] & Ha) |]. intros [-> Ha]. by exists a.
Qed.

(** What is given after redaction is what was given, redacted: under the same
    names, with the empty groups of records left out. *)
Lemma given_masked render p names ns a :
  (ns, a) ∈ given names (mask render p) -> exists b, a = redactAttr render b /\ (ns, b) ∈ given names p.
Proof.
  revert names. induction p as [|t v m pc attrs rest IH|attrs child IHc rest IH|name child IHc rest IH]; intros names; cbn;
    rewrite ?elem_of_app, ?in_attrs.
  - by intros ?%not_elem_of_nil.
  - intros [[-> (b & -> & [_ Hb]%list_elem_of_filter)%redact_attrs_in]|(b & -> & Hb)%IH];
      exists b; rewrite elem_of_app, in_attrs; auto.
  - intros [[-> (b & -> & Hb)%redact_attrs_in]|[(b & -> & Hb)%IHc|(b & -> & Hb)%IH]];
      exists b; rewrite !elem_of_app, in_attrs; auto.
  - intros [(b & -> & Hb)%IHc|(b & -> & Hb)%IH]; exists b; rewrite elem_of_app; auto.
Qed.

Lemma given_kept render p names ns b :
  (ns, b) ∈ given names p -> isEmptyGroup b = false -> (ns, redactAttr render b) ∈ given names (mask render p).
Proof.
  intros Hb He. revert names Hb.
  induction p as [|t v m pc attrs rest IH|attrs child IHc rest IH|name child IHc rest IH]; intros names; cbn;
    rewrite ?elem_of_app, ?in_attrs, ?redact_attrs_in.
  - by intros ?%not_elem_of_nil.
  - intros [[-> Hb]|Hb%IH]; [left; split; [done |] | by right]. exists b. split; [done |]. by apply list_elem_of_filter.
  - intros [[-> Hb]|[Hb%IHc|Hb%IH]]; eauto 6.
  - intros [Hb%IHc|Hb%IH]; auto.
Qed.

Lemma empty_group_behind b kv : kv ∈ behind b -> isEmptyGroup b = false.
Proof.
  destruct b as [k [r|[|b l]|v]]; try done. cbn. destruct (IsSensitiveKey (text k)); by intros ?%not_elem_of_nil.
Qed.

(** C36: whatever a program does with a redacting logger, deriving loggers and logging
    with them in any order, the handler inside sees exactly the same program with its
    attributes redacted: the same records, times, levels and messages, of which none
    is lost or reordered. Of what its attributes show, a value under a sensitive key,
    at any depth of groups inside the attribute, is empty or the mask, with one
    exception, which is exact: what a [LogValuer] under no sensitive key answers is
    shown as it is. The names of the groups opened with [WithGroup] are no part of an
    attribute: they are passed on and what is logged inside a group is not masked on
    account of its name ([redacting_misses_named_group]). Redacting twice is
    redacting once, and the tag of a subsystem is kept. *)
Theorem redacting_handler_exact {H W} `{hw : Handler H W} (render : value -> string) (h : H) (p : logs) (w : W) :
  let red h := run (hw := redacting render) (mkRedacting h) p w in
  red h = run h (mask render p) w
  /\ (forall names a kv, (names, a) ∈ given [] (mask render p) -> kv ∈ shown a ->
        masked kv \/ exists b, (names, b) ∈ given [] p /\ kv ∈ behind b)
  /\ (forall names b kv, (names, b) ∈ given [] p -> kv ∈ behind b ->
        exists a, (names, a) ∈ given [] (mask render p) /\ kv ∈ shown a)
  /\ run (hw := redacting (hw := redacting render) render) (mkRedacting (mkRedacting h)) p w = red h
  /\ forall l subsystem,
       run (hw := redacting render) (Sub (hw := redacting render) (mkRedacting h) (mkRedacting <$> l) subsystem) p w
       = run (Sub h l subsystem) (mask render p) w.
Proof.
  intros red. split; [apply run_masked | split_and!; [| | | intros; apply sub_masked]].
  - intros names a kv (b & -> & Hb)%given_masked Hkv. destruct (proj1 (redactAttr_shown render b) kv Hkv); eauto.
  - intros names b kv Hb Hkv. exists (redactAttr render b).
    split; [| by apply redactAttr_shown]. apply given_kept; [done |]. by eapply empty_group_behind.
  - unfold red. rewrite !run_masked. by rewrite mask_idempotent.
Qed.

(** ** A handler that keeps what it is given

    Its state is the attributes attached so far, innermost group first, and its
    output the message and the attributes of each record, as [slog] nests them. *)
Definition recorder : Type := list (string * list attr).

Fixpoint nest (fs : recorder) (inner_attrs : list attr) : list attr :=
  match fs with
  | [] => inner_attrs
  | (name, attrs) :: fs =>
      let here := attrs ++ inner_attrs in
      nest fs (if decide (name = "") then here else [Attr name (VGroup here)])
  end.

#[export] Instance recording_handler : Handler recorder (list (string * list attr)) := {
  Enabled _ _ := true;
  Handle h r w := (None, w ++ [(rec_Message r, nest h (rec_Attrs r))]);
  WithAttrs h attrs := match h with
                       | [] => [("", attrs)]
                       | (n, l) :: h => (n, l ++ attrs) :: h
                       end;
  WithGroup h name := (name, []) :: h;
}.

Definition logged_by {H} `{hw : Handler H (list (string * list attr))} (l : H) (p : logs) : list (string * list attr) := run l p [].

Definition hidden (p : logs) : list (string * list attr) :=
  logged_by (hw := redacting (fun _ => "group")) (mkRedacting ([] : recorder)) p.

(** [slog] shows a group the same way whether it is an attribute or opened with
    [WithGroup]; of a group with a sensitive name the handler masks the first and
    shows the second. *)
Theorem redacting_misses_named_group :
  exists attrs,
    let grouped := Log 0 0 "login" 0 [Attr "credentials" (VGroup attrs)] Done in
    let opened := Grouped "credentials" (Log 0 0 "login" 0 attrs Done) Done in
    logged_by ([] : recorder) grouped = logged_by ([] : recorder) opened
    /\ hidden grouped = [("login", [Attr "credentials" (VPlain Mask)])]
    /\ hidden opened = [("login", [Attr "credentials" (VGroup attrs)])].
Proof. exists [Attr "user" (VPlain "hunter2")]. by split_and!. Qed.

(** A token is masked in a derived logger, in a record and in a group; the rest is
    left alone. *)
Example hidden_run :
  hidden (With [Attr "token" (VPlain "t0p")]
            (Grouped "req" (Log 0 0 "sent" 0 [Attr "path" (VPlain "/trade"); Attr "h" (VGroup [Attr "Cookie" (VPlain "c")])] Done)
               (Log 0 0 "password=abc" 0 [Attr "apiKey" (VPlain "")] Done)) Done)
  = [("sent", [Attr "token" (VPlain Mask);
               Attr "req" (VGroup [Attr "path" (VPlain "/trade"); Attr "h" (VGroup [Attr "Cookie" (VPlain Mask)])])]);
     ("password=abc", [Attr "token" (VPlain Mask); Attr "apiKey" (VPlain "")])].
Proof. vm_compute. reflexivity. Qed.

(** A program that logs a token in a group and a password behind a [LogValuer]. *)
Definition demo_logs : logs :=
  With [Attr "token" (VPlain "t0p")]
    (Grouped "req" (Log 0 0 "sent" 0
       [Attr "h" (VGroup [Attr "Cookie" (VPlain "c")]);
        Attr "body" (VLogValuer (VGroup [Attr "password" (VPlain "hunter2")]))] Done) Done) Done.

Definition no_group (v : value) : string := "group".

Lemma redacting_handler_exact_witness :
  hidden demo_logs
    = [("sent", [Attr "token" (VPlain Mask);
                 Attr "req" (VGroup [Attr "h" (VGroup [Attr "Cookie" (VPlain Mask)]);
                                     Attr "body" (VLogValuer (VGroup [Attr "password" (VPlain "hunter2")]))])])]
  /\ (masked (["h"; "Cookie"], Mask)
      \/ exists b, (["req"], b) ∈ given [] demo_logs /\ (["h"; "Cookie"], Mask) ∈ behind b)
  /\ exists a, (["req"], a) ∈ given [] (mask no_group demo_logs) /\ (["body"; "password"], "hunter2") ∈ shown a.
Proof.
  destruct (redacting_handler_exact no_group ([] : recorder) demo_logs []) as (Hrun & Hmask & Hleak & _).
  split; [exact Hrun |]. split.
  - apply (Hmask ["req"] (Attr "h" (VGroup [Attr "Cookie" (VPlain Mask)]))); [| vm_compute; left].
    vm_compute. right. left.
  - apply (Hleak ["req"] (Attr "body" (VLogValuer (VGroup [Attr "password" (VPlain "hunter2")])))); [| vm_compute; left].
    vm_compute. right. right. left.
Defined.
